(* ===== verification/_CoqProject ===== *)
-Q . S2P
Prelude.v
GoStrings.v
GoPath.v
Protocol.v
Sql.v
Schema.v
TaskStore.v
TaskProofs.v
ImportStore.v
ImportProofs.v
ImportRetry.v
Approvals.v
Tokens.v
Accounts.v
Payload.v
Queue.v
QueueProofs.v
FileSys.v
Checkpoint.v
Download.v
DownloadProofs.v
DownloadRuns.v
Publish.v
Worker.v
Cron.v
ImportCheckpoint.v
Redaction.v
Remote.v
Drive.v
DriveProofs.v
Destination.v
DestinationProofs.v
Nas.v
Regexp.v
Episodes.v
Pipeline.v
Frames.v
ImportSample.v
ImportRun.v
PipelineProofs.v
SaveOnce.v
Identity.v
Service.v
Local.v
Autofill.v
Media.v
Roots.v
MediaProofs.v
Replacement.v
ReplacementProofs.v
Rounds.v
AutofillRun.v
AutofillFrames.v
AutofillProofs.v
AutofillClaims.v
Emby.v
EmbyDeletion.v
EmbyApi.v
EmbyProofs.v
EmbyDeletionProofs.v
EmbyApiProofs.v
EmbyClaims.v
MediaIngest.v
MediaIngestProofs.v
MediaIngestClaims.v
Settings.v
SettingsProofs.v
Subscriptions.v
SubscriptionsProofs.v
Access.v
AccessProofs.v
Tools.v
ToolsProofs.v
Webhook.v
