(* ===== verification/Prelude.v ===== *)
(** * embymedia: a verified model of its core

    embymedia is a Go service that keeps an Emby media library on network drives:
    it queues tasks, imports shared files from Quark to 115 (downloading them to a
    local spool and publishing them to a mounted drive), brings what it imported into
    the library, completes and replaces series, runs schedules, deletes the originals of
    what a human deletes in Emby, and lets agents act under tokens and approvals.  This library models the parts that
    carry its own logic and proves what makes them correct.  Paths below are those
    of the repository ([src/]).

    ** Parts and files

    - Foundations.  [Prelude.v] (this file): Go errors, results and loops, the
      development's tactics.  [GoStrings.v], [GoPath.v]: the functions of [strings]
      and [path/filepath] the code uses, on byte strings.  [Sql.v]: tables,
      statements, transactions, the clock and failures; its monad [M] runs every
      stateful component, and its [wp] rules carry the proofs.  [Schema.v]: the
      rows of [internal/domain] and the tables of [internal/storage].
    - Storage ([internal/storage/sqlite.go], [cross_drive.go]).  [TaskStore.v]
      with [TaskProofs.v]: task queue and execution records.  [ImportStore.v] with
      [ImportProofs.v] and [ImportRetry.v]: cross-drive imports, their items,
      upload parts and download segments.  [Approvals.v]: destructive approvals.
      [Accounts.v]: accounts, schedules, settings.  [Tokens.v]: agent tokens and,
      of [internal/security/token.go], authentication, scopes and the rate limit.
    - Task queue service ([internal/service/taskqueue.go] and the payload readers
      of [autofill.go], [cross_drive_import.go], [drive.go], [provider_quark.go],
      [metadata.go]).  [Payload.v]: readers and share references.  [Queue.v] with
      [QueueProofs.v]: validation, submission, execution, retry, cancellation.
    - Schedules ([internal/service/cron.go]).  [Cron.v].
    - Transfers ([internal/transfer], [cmd/transfer-worker/main.go]).
      [Protocol.v]: requests and path sanitizers.  [FileSys.v]: the file system
      calls.  [Checkpoint.v]: the checkpoint interface (class [Checkpoint], laws
      [CheckpointLaws]) and the file checkpoint; [ImportCheckpoint.v]: the second
      implementation, on the database.  [Download.v] with [DownloadProofs.v] and
      [DownloadRuns.v]: the segmented download, proved against the interface.
      [Publish.v]: publication to the mount.  [Worker.v]: the NAS worker.
    - Audit redaction ([internal/security/audit.go]).  [Redaction.v].
    - Drives.  [Remote.v]: the requests the code sends to Quark, 115, CloudDrive2,
      Emby and the NAS worker process (class [Remote]: what each answers, given the
      whole history of requests), the state [Pipe] of a run (database, local files,
      history), sleeping and time.  [Drive.v] with [DriveProofs.v]
      ([drive.go], [drive_provider.go], [provider_quark.go]): account choice,
      listings, directories, share snapshots, selections, saving a share.
      [Destination.v] with [DestinationProofs.v] ([provider_115_upload.go],
      [clouddrive_upload.go]): uploads to 115 by the platform and through the
      mounted directory, and the wait for what 115 lists.  [Nas.v]
      ([nas_worker.go], [nas_cross_drive.go]): the client of the NAS worker.
    - Import runs ([cross_drive_import.go]).  [Pipeline.v]: the whole of
      [runQuarkTo115Import], over the parts above.  [Regexp.v], [Episodes.v]
      ([autofill.go]): the episodes a file name names, which the end of a run
      compares.  [ImportSample.v]: a run evaluated from task to result.
      [Frames.v]: what each call may ask and change; [ImportRun.v]: one item and the
      loop over them; [PipelineProofs.v] and [SaveOnce.v]: the theorems on runs.
    - Auto-fill ([autofill.go], [autofill_identity.go]).  [Identity.v]: what a label says
      of a series, and whether a path names it.  [Service.v] ([drive.go],
      [drive_provider.go], [emby.go]): snapshots of 115 shares, receiving, renaming,
      moving and recycling, and Emby's series, users and play state (class
      [Providers]).  [Local.v]: the STRM tree, its backups and the mounted media (class
      [Local]), and [orderly], which says what a run may ask after what.  [Autofill.v]:
      finding candidates, inspecting shares, choosing among candidates, waiting for
      folders and files.  [AutofillRun.v]: one series from its candidates to its transfers
      ([processAutoFillSeries]) and the run over the libraries with its deferred clean-up
      ([runSeriesAutoFill]), whose state [Fill] keeps the results next to the rest.
      [AutofillFrames.v]: what the calls of a run do to the database.  [AutofillProofs.v]
      and [AutofillClaims.v]: what a run leaves.
    - Media ([media.go], [media_series.go]).  [Media.v] with [MediaProofs.v]: canonical
      STRM paths, the plan of a library, its application, pruning, verification.
      [Roots.v]: which directories these are about, by the settings and the answers of the
      operating system.
    - Replacement of a series by a completed release ([replacement.go],
      [replacement_mount.go], [replacement_state.go]).  [Replacement.v] with
      [ReplacementProofs.v]: staging, cutover, rollback, play state, on the state [Pack]
      (a run and the record of the operation).  [Rounds.v]: the bounds on the loops of
      these files are enough.
    - Emby client ([emby.go]).  [Emby.v] with [EmbyProofs.v]: the requests and what is read
      of their answers (classes [Native], [EmbyJson]), the listings in pages, the library
      scan that is started, watched and stopped.
    - Deletion in Emby ([emby_deletion_sources.go], [api/emby_deletion.go]).
      [EmbyDeletion.v] with [EmbyDeletionProofs.v]: from the paths Emby is about to delete
      to the original videos on 115, and their recycling.  [EmbyApi.v] with
      [EmbyApiProofs.v]: the request a browser makes, who may make it, the whole handler
      from the request to the answer and the audit entry.  [EmbyClaims.v]: its theorems.
    - Media ingest ([media_ingest.go]).  [MediaIngest.v] with [MediaIngestProofs.v]: the one
      series a completed import belongs to, the canonical names, the moves into the series'
      folder, and the check that Emby owns what was moved.  [MediaIngestClaims.v]: its
      theorems.
    - Settings ([settings.go]).  [Settings.v] with [SettingsProofs.v]: which settings there
      are, what is accepted for each, and what the other parts read back.
    - Share subscriptions ([storage/share_subscription.go], [service/share_subscription.go],
      [api/share_subscription.go], [share_auto_sync.go]).  [Subscriptions.v] with
      [SubscriptionsProofs.v]: the rows, the handlers, and the poll that turns a subscription
      into a completion of its series.
    - The doors ([mcp/server.go], [api/routes.go]).  [Access.v] with [AccessProofs.v]: the
      gate in front of the tools and the one in front of the API, deletions and the approvals
      they need, settings and tokens.  [Tools.v] with [ToolsProofs.v]: tasks and imports as
      clients submit and see them.  [Webhook.v] ([webhook.go]): the changes CloudDrive2
      reports, gathered into tasks by a machine of timers and of the flushes they start.

    The service calls the stores ([Queue.v] on [TaskStore.v] and [ImportStore.v]),
    the schedule manager calls the service ([Cron.v] on [Queue.v] and
    [Accounts.v]), the worker calls checkpoint, download and publication
    ([Worker.v]), an import run calls stores, drives, download and the NAS client
    ([Pipeline.v]), a replacement calls auto-fill, drives and the media library
    ([Replacement.v]), an ingest calls stores, drives, the media library and the Emby client
    ([MediaIngest.v]), the deletion handler calls the Emby client and the plan of the
    originals ([EmbyApi.v]), the handlers behind the gates call the stores, the queue and the
    drives ([Access.v], [Tools.v]); each definition has the name of the Go function it models.

    ** How the code is modelled

    - A fallible function returns [res]; a stateful one is a computation of [M],
      from a world (a tick and the state) to a result and a world.  The
      environment [Env] decides what the clock reads and which statement, commit
      or system call fails, so theorems for every [Env] cover every failure; those
      that need a working system say [env_fault n = None].
    - A SQL table is a finite map from its primary key; a column is an [option]
      where NULL is observable; a JSON column holds its decoded value.  A failing
      statement or commit leaves the database unchanged, and every storage method
      is one atomic step (the mutex of [storage.DB] and its single connection).
    - Times are nanoseconds in [Z], progress is a rational; machine integers wrap
      where sizes are added or multiplied ([wrap64]).
    - Concurrency is interleaving: operations of several runs on the database are
      sequences of steps ([queue_any], [import_any], [cron_any]); the connections
      of a download are a machine whose schedule is a list of events, and a
      schedule that ends early is a process that stopped.
    - What is not in the repository is a parameter: [Urls] and [AuditUrls]
      ([net/url]), [Hash] and [Sha256], [Codec], [Credential] and [CidMap]
      ([encoding/json] on checkpoints, credentials, the library map), [CronLib]
      ([robfig/cron]), [Host] and [Ctx], [Sleep] (timers), [Remote] (every answer of
      a provider), [Ranged] (a download's answers and schedule), [Ranging] (the order
      of iteration over a map), new UUIDs ([Uuids]), the provider operation behind a task
      ([run] of [executeTask]), [openRange], [Unicode] (letters, numbers and lower case),
      [Providers], [Local], [Format] ([strconv], [fmt] on decoded JSON), [Names] (the JSON of
      the excluded roots), [Workers] (how two workers share the jobs), [Snapshots] (the JSON
      of the record of a replacement), [Native] (what Emby answers to an HTTP request),
      [EmbyJson] and [NativeJson] (reading a body), [PathEscape] and [Http] ([net/url],
      [mime]), [ToolArgs] (the readers of arguments of [mcp-go]).  Hypotheses on
      them (an answer holds bytes of the source, decoding inverts the encoding of what the
      format can say, a drive does what it says) are stated where they are used, and the witnesses instantiate them.
    - The calls on the STRM tree are requests whose answers are a parameter: theorems on
      them hold for every file system, also one that others change in between.  A walk is
      answered at once.
    - A context is done or not at each tick, in any pattern ([Ctx]), so a call under a
      detached context ([context.WithoutCancel], with or without a deadline) is covered too.
    - Quoting of [%q] in error texts is not reproduced; errors the code only logs
      are dropped; the AUTOINCREMENT counter is not advanced by an upsert.

    ** What the theorems show

    - Queue: the invariant of tasks and execution records holds in every reachable
      state ([queue_invariant_reachable]); a task is claimed by one execution
      ([claim_exclusive]) and never changes once terminal
      ([terminal_tasks_frozen]); claiming, finishing and recovering succeed and do
      what they mean to; a claimed task always ends recorded, as its run
      returned ([execute_reaches_end]); what was accepted can be retried
      ([retry_accepted]).
    - Imports: the accounts and selection of an import never change
      ([import_binding_immutable]); one run owns it ([import_claim_exclusive]) and
      a run that lost it changes nothing of it ([unowned_run_is_inert]); a retry
      resumes every item it may ([retry_resumes]); counters equal the verified
      items ([verified_counts_exact]).
    - Import runs: whatever the drives answer and whatever fails, a run that succeeds
      leaves every file verified against an object 115 listed during the run, with its
      name, size and digest, and a file for every selection ([import_verified]); the
      share is saved at most once, never after a start that may have saved it, and
      exactly as selected ([share_saved_once]).
    - Drives: selections and share snapshots are exactly the share's
      ([selection_exact], [share_snapshot_exact]); listings are complete
      ([listing_complete]); an upload through the mount never overwrites
      ([mounted_upload_safe]); a multipart upload assembles the file
      ([multipart_exact]); waiting for the destination and for the mount ends
      ([wait_terminates], [mount_waits_end]).
    - Auto-fill: a file is taken for an episode exactly when its path names the series
      ([episode_identity_exact]), each file for one missing episode and each episode from one
      file ([files_claimed]); of several candidates that provide an episode none is taken
      unless the caller named one ([choice_exact]).  A run queues the imports it lists or, when
      it fails, none it does not report ([autofill_all_or_nothing]); the packs it staged have
      replaced their series, are rolled back or are reported ([staged_packs_settled]); what it
      queues is well typed for the import that runs it ([queued_import_well_typed]).
    - Media: the plan gives every media file its own canonical STRM path ([scan_plans]); a
      synchronisation writes and removes only what the plan and the mount justify, below the
      roots that the settings give ([sync_follows_plan], [prune_safe]) and its counts are exact ([sync_counts]).
    - Replacement: a rollback asks the drive only for what is safe ([rollback_requests]) and,
      on a drive that does what it says, refines its specification [rolled_back]: the old
      folder is back, the staged one gone, the rest as it was ([rollback_restores]).
    - Emby: a library scan that fails is stopped exactly when this call started it, and its
      result is a run that ended after the start ([scan_stops_its_own]).
    - Deletion: an intercepted request names its items and its credential in one way
      ([accepted_request_unambiguous]); nothing is deleted unless Emby says that the
      requester is an enabled administrator and what would be deleted
      ([deletion_guarded]); the plan has every original below the directories that the
      paths map to ([deletion_plan_complete]), an object is recycled only while it is the one planned
      ([recycling_reported]), and the answer and the audit entry say what was done
      ([deletion_audit_true]).
    - Ingest: a series is taken for that of an import exactly when no video contradicts it and
      one identifies it ([ingest_series_exact]); a result says what the requests of the run showed
      ([ingest_reported]); the drive is asked to move or rename only the objects that were
      verified, unchanged ([ingest_changes_guarded]).
    - Doors: a tool runs only for a call that may use it, once, and its audit entry says so
      ([tool_call_gated]); an agent deletes only what an approval that a user gave, unexpired
      and unused, names ([approved_deletion_exact]), and such a request names objects that
      were listed ([deletion_request_listed]); only a user decides ([only_users_decide]); no
      agent deletes directly or moves the switch that allows it ([agent_keeps_switch]).
      A batch is validated as a whole and reported as it was queued
      ([batch_queued_exact]); what is private in an import is not shown ([shown_import]).
      Every change the webhook accepted waits, is on its way, is counted in one task, or is
      lost or dropped, once ([changes_delivered_once]).
    - Settings and subscriptions: an update stores all or nothing and keeps settings well typed
      ([settings_update_exact]), so that their readers understand them
      ([typed_settings_read]); a poll queues one completion, of the one series in the
      subscribed folder, and none while one is active ([subscription_poll_exact]).
    - Downloads: under every interleaving, failure, cancellation or stop the spool
      and checkpoint stay resumable, and a result means the exact source
      ([download_resumable]); no two connections share a segment
      ([download_exclusive]); runs end ([download_terminates]) and succeed when
      nothing fails ([download_succeeds]); checkpoints are atomic and only read
      back by the same download ([checkpoint_durable]).
    - Publication: [Publish_exact], [worker_publish], and the path theorems of
      [Protocol.v].
    - Access: approvals are used at most once ([approval_single_use]), tokens and
      scopes are enforced ([authorize_sound_complete], [rate_limit_enforced]),
      records are redacted ([RedactValue_safe]).
    - Schedules: registered callbacks are the stored schedules
      ([cron_consistent]); a deleted schedule never runs again
      ([deleted_schedule_silent]).
    - Eight theorems exhibit behaviour the code does not intend:
      [missing_spool_corrupts], [credential_on_first_account],
      [typed_query_not_redacted], [CleanDestination_blank_root], [occupied_name_reused],
      [long_name_kept], [leading_zero_misread], [forgotten_timer].

    ** Fuel and bounds

    Trimming a string takes fuel its length ([strip_all], proved enough by
    [strip_all_done]); [copyContext] takes one round more than the bytes, proved
    enough in [copy_spec]; a download needs no fuel, its schedules are finite and
    [download_terminates] bounds them.  Download theorems assume
    [Size + SegmentSize <= 2^63].  Listings take a round per page, at most
    [quarkMaxEntries] entries, after which the code fails too ([page_rounds],
    [share_rounds], proved enough by [share_entries_total]); trees stop at
    [quarkMaxDepth] levels like the code ([tree_levels]).  The waits that the code
    bounds by time ([verify_fuel], [local_fuel]) have a round per second of their
    longest deadline and report running out as a failure of its own, which
    [wait_terminates] excludes; [poll_fuel] is a round per two seconds, which
    [mount_waits_end] shows to be enough.  A snapshot of a 115 share takes at most
    [snap_rounds] rounds ([snap_rounds_enough]) and its tree [treeMaxDepth] levels like the
    code.  The loops over the pages of a folder have no bound in the code; they take the
    parameter [rounds], which is enough when it exceeds what the drive claims to hold
    ([listings_end]).  The inventory of a directory around a recycling takes a round per
    object it claims to hold, proved enough by [inventory_rounds]; the pages of Emby's keys stop
    at [key_pages] like the code; the listings of Emby and the watch of a scan take [rounds]
    as well, and what runs out of them is a failure of its own, never a result.

    ** Not modelled, and why

    - The other HTTP routes and tools decode a request, call one of the operations above and
      encode what it returned.  The text of an audit entry (its summaries of input and
      output) and its row are not modelled, only who called what with which outcome.
    - The checks of the services' health are requests over the network whose answers are
      shown; metadata repair and the queries on audit entries read and write remote text or
      rows without further state of their own.
    - Drawing posters, and the transports (HTTP, gRPC, multipart bodies, the pacing of 115
      snapshots), are outside: the model has the requests and answers they carry.
    - Generated protobuf code, OpenAPI documents, the schema migrations and process start-up
      have no logic of their own. *)
From stdpp Require Export base tactics list strings gmap pretty sorting.
From Stdlib Require Export QArith.
From Stdlib Require Export Lqa.
#[global] Close Scope Q_scope.
#[global] Open Scope stdpp_scope.

(** ** Go errors *)

(** A Go [error] value.  [ErrText] is [errors.New]/[fmt.Errorf] without [%w],
    [ErrWrap p e] is [fmt.Errorf(p + "%w", e)], [ErrThen e s] is [fmt.Errorf("%w" + s, e)],
    [ErrBoth e e'] is [errors.Join(e, e')] of two errors, [ErrNoRows] is [sql.ErrNoRows],
    [ErrCanceled] is [context.Canceled], [ErrDeadline] is [context.DeadlineExceeded],
    [ErrTransport] is a [*url.Error], [ErrStatus] a [*ProviderHTTPError], [ErrDriver] is a
    failure reported by the database driver or the operating system,
    [ErrNotExist] one that [os.IsNotExist] recognises, [ErrExist] one that [os.IsExist] does, and
    [ErrConstraint] is a SQLite constraint violation, [ErrHTTP] an [echo.HTTPError]. *)
Inductive error : Type :=
| ErrText (message : string)
| ErrWrap (prefix : string) (inner : error)
| ErrThen (inner : error) (suffix : string)
| ErrBoth (first second : error)
| ErrNoRows
| ErrCanceled
| ErrDeadline
| ErrTransport (message : string)
| ErrStatus (operation : string) (status : Z)
| ErrDriver (message : string)
| ErrNotExist (path : string)
| ErrExist (path : string)
| ErrConstraint (message : string)
| ErrHTTP (code : Z) (message : string).

#[global] Instance error_eq_dec : EqDecision error.
Proof. solve_decision. Defined.

Definition newline : string := String (Ascii.ascii_of_nat 10) "".

(** [err.Error()]. *)
Fixpoint error_text (e : error) : string :=
  match e with
  | ErrText m => m
  | ErrWrap p i => p +:+ error_text i
  | ErrThen i s => error_text i +:+ s
  | ErrBoth e1 e2 => error_text e1 +:+ newline +:+ error_text e2
  | ErrNoRows => "sql: no rows in result set"
  | ErrCanceled => "context canceled"
  | ErrDeadline => "context deadline exceeded"
  | ErrTransport m => m
  | ErrStatus op status => op +:+ " returned HTTP " +:+ pretty status
  | ErrDriver m => m
  | ErrNotExist p => p +:+ ": no such file or directory"
  | ErrExist p => p +:+ ": file exists"
  | ErrConstraint m => m
  | ErrHTTP code m => "code=" +:+ pretty code +:+ ", message=" +:+ m
  end.

(** [errors.Is(err, target)] for the sentinel errors [ErrNoRows] and [ErrCanceled]. *)
Fixpoint error_is (e target : error) : bool :=
  match e with
  | ErrWrap _ i => error_is i target
  | ErrThen i _ => error_is i target
  | ErrBoth e1 e2 => error_is e1 target || error_is e2 target
  | _ => bool_decide (e = target)
  end.

(** ** Results of fallible Go code

    [(value, nil)] is [Ok value]; [(_, err)] is [Err err]. *)
Inductive res (A : Type) : Type :=
| Ok (a : A)
| Err (e : error).
Arguments Ok {A} a.
Arguments Err {A} e.

#[global] Instance res_eq_dec {A} `{EqDecision A} : EqDecision (res A).
Proof. solve_decision. Defined.

#[global] Instance res_ret : MRet res := @Ok.
#[global] Instance res_bind : MBind res := λ A B f m,
  match m with Ok a => f a | Err e => Err e end.
#[global] Instance res_fmap : FMap res := λ A B f m,
  match m with Ok a => Ok (f a) | Err e => Err e end.

(** [if cond { return err }]. *)
Definition fail_if (cond : bool) (e : error) : res unit :=
  if cond then Err e else Ok tt.

(** [fmt.Errorf(prefix + "%w", err)] applied to the error of a call. *)
Definition wrap_err {A} (prefix : string) (m : res A) : res A :=
  match m with Ok a => Ok a | Err e => Err (ErrWrap prefix e) end.

Definition is_ok {A} (m : res A) : bool :=
  match m with Ok _ => true | Err _ => false end.

(** A [for] loop over a slice whose body may return an error. *)
Fixpoint res_fold {A S} (f : S → A → res S) (l : list A) (s : S) : res S :=
  match l with
  | [] => Ok s
  | x :: l' => match f s x with Ok s' => res_fold f l' s' | Err e => Err e end
  end.

(** The loop that calls a fallible check on every element. *)
Definition res_each {A} (f : A → res unit) (l : list A) : res unit :=
  res_fold (λ _ x, f x) l tt.

(** ** Tactics *)

(** Splits the hypothesis [H : m = Ok _] along the binds, guards and matches of [m]. *)
Ltac res_inv H :=
  repeat (unfold mbind, res_bind, mret, res_ret, fail_if in H; simpl in H;
          first
          [ discriminate H
          | match type of H with
            | Ok _ = Ok _ => injection H as H; try subst
            | context [match ?m with Ok _ => _ | Err _ => _ end] =>
                let E := fresh "E" in destruct m eqn:E
            | context [if ?b then _ else _] =>
                let E := fresh "E" in destruct b eqn:E
            | context [match ?o with Some _ => _ | None => _ end] =>
                let E := fresh "E" in destruct o eqn:E
            end ]).

(** Turns boolean hypotheses into propositions. *)
Ltac bools :=
  repeat match goal with
  | H : (_ && _)%bool = true |- _ => apply andb_true_iff in H as [? ?]
  | H : (_ || _)%bool = false |- _ => apply orb_false_iff in H as [? ?]
  | H : negb _ = true |- _ => apply negb_true_iff in H
  | H : negb _ = false |- _ => apply negb_false_iff in H
  | H : bool_decide _ = true |- _ => apply bool_decide_eq_true in H
  | H : bool_decide _ = false |- _ => apply bool_decide_eq_false in H
  | H : Z.ltb _ _ = true |- _ => apply Z.ltb_lt in H
  | H : Z.ltb _ _ = false |- _ => apply Z.ltb_ge in H
  | H : Z.leb _ _ = true |- _ => apply Z.leb_le in H
  | H : Z.leb _ _ = false |- _ => apply Z.leb_gt in H
  | H : Z.eqb _ _ = true |- _ => apply Z.eqb_eq in H
  | H : Z.eqb _ _ = false |- _ => apply Z.eqb_neq in H
  end.

(** ** Generic lemmas *)

Lemma res_bind_ok {A B} (m : res A) (f : A → res B) b :
  m ≫= f = Ok b ↔ ∃ a, m = Ok a ∧ f a = Ok b.
Proof. destruct m; unfold mbind; simpl; naive_solver. Qed.

Lemma fail_if_ok cond e u : fail_if cond e = Ok u ↔ cond = false.
Proof. destruct cond, u; simpl; naive_solver. Qed.

Lemma res_fold_inv {A S} (P : list A → S → Prop) (f : S → A → res S) l s s' :
  P [] s →
  (∀ done s x s', P done s → x ∈ l → f s x = Ok s' → P (done ++ [x]) s') →
  res_fold f l s = Ok s' → P l s'.
Proof.
  intros H0 Hstep. cut (∀ done rest s, l = done ++ rest → P done s →
    res_fold f rest s = Ok s' → P l s').
  { intros Hc. by apply (Hc [] l s). }
  intros done rest. revert done. induction rest as [|x rest IH]; intros done s1 Hl HP Hf; simpl in Hf.
  - injection Hf as <-. by rewrite app_nil_r in Hl; subst.
  - destruct (f s1 x) as [s2|] eqn:E; [|done].
    apply (IH (done ++ [x]) s2); [by rewrite <-app_assoc| |done].
    apply (Hstep done s1 x s2); [done| |done]. subst l. set_solver.
Qed.

Lemma res_each_ok {A} (f : A → res unit) l u :
  res_each f l = Ok u ↔ ∀ x, x ∈ l → f x = Ok tt.
Proof.
  unfold res_each. destruct u. induction l as [|x l IH]; simpl.
  - split; [intros _ x Hx; set_solver|done].
  - destruct (f x) as [[]|e] eqn:E; rewrite ?IH.
    + split; [intros H y [->|?]%elem_of_cons; auto|intros H y Hy; apply H; set_solver].
    + split; [done|]. intros H. specialize (H x). rewrite E in H. discriminate H; set_solver.
Qed.

(** Inverts the hypotheses that say a fallible computation succeeded. *)
Ltac ok_inv :=
  repeat match goal with
  | H : Err _ = Ok _ |- _ => discriminate H
  | H : Ok _ = Err _ |- _ => discriminate H
  | H : Ok _ = Ok _ |- _ => injection H; clear H; intros; subst
  | H : _ ≫= _ = Ok _ |- _ => let E := fresh "E" in apply res_bind_ok in H as (? & E & H)
  | H : (if ?b then _ else _) = Ok _ |- _ => let E := fresh "E" in destruct b eqn:E
  | H : (match ?o with Some _ => _ | None => _ end) = Ok _ |- _ => let E := fresh "E" in destruct o eqn:E
  | H : (match ?o with Ok _ => _ | Err _ => _ end) = Ok _ |- _ => let E := fresh "E" in destruct o eqn:E
  | H : (let '(_, _) := ?p in _) = Ok _ |- _ => let E := fresh "E" in destruct p eqn:E
  end.

(** A boolean order read as a decidable relation, for the sorts. *)
#[global] Instance bool_rel_dec {A} (le : A → A → bool) (x y : A) : Decision (le x y = true).
Proof. apply _. Defined.
