(* ===== verification/GoStrings.v ===== *)
(** The functions of Go's [strings] package the sources use, on Go strings as
    byte sequences ([string] of 8-bit [ascii]).

    [strings.TrimSpace] and [strings.ToLower] work on UTF-8: the white-space
    runes are recognised by their encodings, and the two non-ASCII runes whose
    lower case is an ASCII letter are mapped; every other non-ASCII rune is left
    alone by [to_lower], which is exact for the comparisons with ASCII literals
    it is used for. *)
From S2P Require Import Prelude.
From Stdlib Require Import Ascii.

Definition chars : string → list ascii := String.list_ascii_of_string.
Definition of_chars : list ascii → string := String.string_of_list_ascii.

Lemma of_chars_chars s : of_chars (chars s) = s.
Proof. apply String.string_of_list_ascii_of_string. Qed.

Lemma chars_of_chars l : chars (of_chars l) = l.
Proof. apply String.list_ascii_of_string_of_list_ascii. Qed.

Lemma chars_app s t : chars (s +:+ t) = chars s ++ chars t.
Proof. induction s as [|c s IH]; [done|]. unfold chars in *. simpl. by rewrite <-IH. Qed.

#[global] Instance chars_inj : Inj (=) (=) chars.
Proof. intros s t H. by rewrite <-(of_chars_chars s), H, of_chars_chars. Qed.

Lemma of_chars_app l k : of_chars (l ++ k) = of_chars l +:+ of_chars k.
Proof. apply (inj chars). by rewrite chars_app, !chars_of_chars. Qed.

(** ** Bytes and runes *)

Definition byte (n : nat) : ascii := ascii_of_nat n.

(** The UTF-8 encodings of the runes [unicode.IsSpace] accepts. *)
Definition space_runes : list (list ascii) :=
  ((λ n, [byte n]) <$> [9; 10; 11; 12; 13; 32]) ++
  [[byte 194; byte 133]; [byte 194; byte 160]; [byte 225; byte 154; byte 128]] ++
  ((λ n, [byte 226; byte 128; byte n]) <$>
     [128; 129; 130; 131; 132; 133; 134; 135; 136; 137; 138; 168; 169; 175]) ++
  [[byte 226; byte 129; byte 159]; [byte 227; byte 128; byte 128]].

Fixpoint strip_prefix (p l : list ascii) : option (list ascii) :=
  match p, l with
  | [], _ => Some l
  | a :: p', b :: l' => if bool_decide (a = b) then strip_prefix p' l' else None
  | _ :: _, [] => None
  end.

(** The rest of [l] after the first of [runes] that is a prefix of it. *)
Fixpoint strip_any (runes : list (list ascii)) (l : list ascii) : option (list ascii) :=
  match runes with
  | [] => None
  | r :: rs => match strip_prefix r l with Some k => Some k | None => strip_any rs l end
  end.

(** Removes leading [runes] as long as there is one; [fuel] bounds the length of [l]. *)
Fixpoint strip_all (fuel : nat) (runes : list (list ascii)) (l : list ascii) : list ascii :=
  match fuel with
  | O => l
  | S f => match strip_any runes l with Some k => strip_all f runes k | None => l end
  end.

(** [strings.TrimLeftFunc(s, unicode.IsSpace)] and its mirror image. *)
Definition trim_left (l : list ascii) : list ascii := strip_all (length l) space_runes l.
Definition trim_right (l : list ascii) : list ascii :=
  reverse (strip_all (length l) (reverse <$> space_runes) (reverse l)).

(** [strings.TrimSpace]. *)
Definition trim_space (s : string) : string := of_chars (trim_right (trim_left (chars s))).

(** ** Case *)

Definition is_upper (a : ascii) : bool :=
  bool_decide (65 ≤ nat_of_ascii a ≤ 90).
Definition is_lower (a : ascii) : bool :=
  bool_decide (97 ≤ nat_of_ascii a ≤ 122).
Definition lower_byte (a : ascii) : ascii :=
  if is_upper a then ascii_of_nat (nat_of_ascii a + 32) else a.
Definition upper_byte (a : ascii) : ascii :=
  if is_lower a then ascii_of_nat (nat_of_ascii a - 32) else a.

(** U+0130 (bytes C4 B0) lowers to [i] and U+212A (E2 84 AA) to [k]. *)
Fixpoint lower_chars (l : list ascii) : list ascii :=
  match l with
  | [] => []
  | a :: rest =>
      match rest with
      | b :: rest1 =>
          if bool_decide (a = byte 196 ∧ b = byte 176) then "i"%char :: lower_chars rest1
          else match rest1 with
               | c :: rest2 =>
                   if bool_decide (a = byte 226 ∧ b = byte 132 ∧ c = byte 170)
                   then "k"%char :: lower_chars rest2
                   else lower_byte a :: lower_chars rest
               | [] => lower_byte a :: lower_chars rest
               end
      | [] => [lower_byte a]
      end
  end.
(** [strings.ToLower], for comparison with ASCII text. *)
Definition to_lower (s : string) : string := of_chars (lower_chars (chars s)).

(** [strings.ToUpper] on ASCII text; exact for the hexadecimal digests it is used on,
    since no other rune has an upper case that is a hexadecimal digit. *)
Definition to_upper (s : string) : string := of_chars (upper_byte <$> chars s).

(** The fold classes of the ASCII letters: U+212A folds to [k], U+017F (C5 BF) to [s]. *)
Fixpoint fold_chars (l : list ascii) : list ascii :=
  match l with
  | [] => []
  | a :: rest =>
      match rest with
      | b :: rest1 =>
          if bool_decide (a = byte 197 ∧ b = byte 191) then "s"%char :: fold_chars rest1
          else match rest1 with
               | c :: rest2 =>
                   if bool_decide (a = byte 226 ∧ b = byte 132 ∧ c = byte 170)
                   then "k"%char :: fold_chars rest2
                   else lower_byte a :: fold_chars rest
               | [] => lower_byte a :: fold_chars rest
               end
      | [] => [lower_byte a]
      end
  end.
(** [strings.EqualFold], exact when one of the arguments is ASCII text, as the
    SHA-1 digests it compares are. *)
Definition equal_fold (s t : string) : bool :=
  bool_decide (fold_chars (chars s) = fold_chars (chars t)).

(** ** Searching, splitting, joining *)

Definition has_prefix (s p : string) : bool := String.prefix p s.
(** [strings.TrimPrefix]. *)
Definition trim_prefix (s p : string) : string :=
  match strip_prefix (chars p) (chars s) with Some l => of_chars l | None => s end.
Definition has_suffix (s p : string) : bool :=
  bool_decide (is_Some (strip_prefix (reverse (chars p)) (reverse (chars s)))).

(** [strings.Contains(s, sub)]. *)
Fixpoint contains_chars (l sub : list ascii) : bool :=
  match strip_prefix sub l with
  | Some _ => true
  | None => match l with [] => false | _ :: l' => contains_chars l' sub end
  end.
Definition contains (s sub : string) : bool := contains_chars (chars s) (chars sub).

(** [strings.ContainsAny(s, set)] for an ASCII [set]. *)
Definition contains_any (s : string) (set : list ascii) : bool :=
  existsb (λ a, bool_decide (a ∈ set)) (chars s).

(** [strings.Split(s, sep)] for a one-byte [sep]; never empty. *)
Fixpoint split_chars (sep : ascii) (l : list ascii) : list (list ascii) :=
  match l with
  | [] => [[]]
  | a :: l' =>
      if bool_decide (a = sep) then [] :: split_chars sep l'
      else match split_chars sep l' with
           | h :: t => (a :: h) :: t
           | [] => [[a]]
           end
  end.
Definition split_on (sep : ascii) (s : string) : list string :=
  of_chars <$> split_chars sep (chars s).

(** [strings.Join(l, sep)]. *)
Fixpoint join (sep : string) (l : list string) : string :=
  match l with
  | [] => ""
  | [x] => x
  | x :: l' => x +:+ sep +:+ join sep l'
  end.

(** The separator ["\x00"] of the persisted identity lists. *)
Definition nul : ascii := byte 0.
Definition nul_string : string := of_chars [nul].

Fixpoint count_string (x : string) (l : list string) : nat :=
  match l with [] => 0 | y :: l' => (if bool_decide (x = y) then 1 else 0) + count_string x l' end.

(** ** Numbers *)

Definition is_digit (a : ascii) : bool := bool_decide (48 ≤ nat_of_ascii a ≤ 57).
Definition digit_of (a : ascii) : Z := Z.of_nat (nat_of_ascii a) - 48.

(** The value of the decimal digits of [l], if there is nothing else. *)
Fixpoint decimal (acc : Z) (l : list ascii) : option Z :=
  match l with
  | [] => Some acc
  | a :: l' => if is_digit a then decimal (10 * acc + digit_of a) l' else None
  end.

Definition in_int64 (z : Z) : option Z :=
  if Z.leb (- 2 ^ 63) z && Z.ltb z (2 ^ 63) then Some z else None.

(** [strconv.ParseInt(s, 10, 64)] and [strconv.Atoi]. *)
Definition parse_int (s : string) : option Z :=
  let number (l : list ascii) : option Z := match l with [] => None | _ => decimal 0 l end in
  match chars s with
  | a :: l => if bool_decide (a = byte 43) then z ← number l; in_int64 z
              else if bool_decide (a = byte 45) then z ← number l; in_int64 (- z)
              else z ← number (a :: l); in_int64 z
  | [] => None
  end.

(** ** Hexadecimal text *)

Definition is_hex (a : ascii) : bool :=
  let n := nat_of_ascii a in
  bool_decide (48 ≤ n ≤ 57) || bool_decide (97 ≤ n ≤ 102) || bool_decide (65 ≤ n ≤ 70).

(** * Lemmas *)

Lemma strip_prefix_some p l k : strip_prefix p l = Some k ↔ l = p ++ k.
Proof.
  revert l k. induction p as [|a p IH]; intros l k; simpl; [naive_solver|].
  destruct l as [|b l]; [naive_solver|]. case_bool_decide; [subst; rewrite IH; naive_solver|naive_solver].
Qed.

Lemma strip_any_some runes l k :
  strip_any runes l = Some k → ∃ r, r ∈ runes ∧ l = r ++ k.
Proof.
  induction runes as [|r rs IH]; simpl; [done|]. destruct (strip_prefix r l) eqn:E.
  - intros [= ->]. apply strip_prefix_some in E. exists r. set_solver.
  - intros H. destruct (IH H) as (r' & ? & ?). exists r'. set_solver.
Qed.

Lemma strip_any_none runes l :
  strip_any runes l = None ↔ ∀ r, r ∈ runes → ∀ k, l ≠ r ++ k.
Proof.
  induction runes as [|r rs IH]; simpl; [set_solver|]. destruct (strip_prefix r l) as [k|] eqn:E.
  - split; [done|]. intros H. apply strip_prefix_some in E. by destruct (H r ltac:(set_solver) k).
  - rewrite IH. split.
    + intros H r' [->|Hr]%elem_of_cons k Hk; [|by apply (H r' Hr k)].
      apply strip_prefix_some in Hk. congruence.
    + intros H r' Hr. apply H. set_solver.
Qed.

Lemma strip_all_suffix fuel runes l : ∃ p, l = p ++ strip_all fuel runes l.
Proof.
  revert l. induction fuel as [|f IH]; intros l; simpl; [by exists []|].
  destruct (strip_any runes l) as [k|] eqn:E; [|by exists []].
  apply strip_any_some in E as (r & _ & ->). destruct (IH k) as [p Hp].
  exists (r ++ p). by rewrite <-app_assoc, <-Hp.
Qed.

Lemma strip_all_done fuel runes l :
  (∀ r, r ∈ runes → r ≠ []) → length l ≤ fuel → strip_any runes (strip_all fuel runes l) = None.
Proof.
  intros Hne. revert l. induction fuel as [|f IH]; intros l Hl; simpl.
  - destruct l; [|simpl in Hl; lia]. apply strip_any_none. intros r Hr k Hk.
    symmetry in Hk. apply app_eq_nil in Hk as [-> _]. by apply (Hne _ Hr).
  - destruct (strip_any runes l) as [k|] eqn:E; [|done].
    apply IH. apply strip_any_some in E as (r & Hr & ->). rewrite length_app in Hl.
    destruct r; [by destruct (Hne _ Hr)|simpl in Hl; lia].
Qed.

Lemma strip_all_stop fuel runes l : strip_any runes l = None → strip_all fuel runes l = l.
Proof. intros H. destruct fuel; simpl; [done|]. by rewrite H. Qed.

Lemma space_runes_nonempty r : r ∈ space_runes → r ≠ [].
Proof.
  assert (Forall (λ r : list ascii, r ≠ []) space_runes) as H by (repeat constructor; done).
  rewrite Forall_forall in H. apply H.
Qed.

Lemma rev_space_runes_nonempty r : r ∈ reverse <$> space_runes → r ≠ [].
Proof.
  intros (r' & -> & Hr)%list_elem_of_fmap. apply space_runes_nonempty in Hr.
  intros H. apply Hr. by apply (inj reverse).
Qed.

Lemma trim_right_prefix l : ∃ k, l = trim_right l ++ k.
Proof.
  unfold trim_right. destruct (strip_all_suffix (length l) (reverse <$> space_runes) (reverse l)) as [p Hp].
  exists (reverse p). rewrite <-reverse_app, <-Hp. by rewrite reverse_involutive.
Qed.

Lemma trim_right_idemp l : trim_right (trim_right l) = trim_right l.
Proof.
  unfold trim_right at 1. rewrite strip_all_stop; [by rewrite reverse_involutive|].
  unfold trim_right. rewrite reverse_involutive. apply strip_all_done.
  - apply rev_space_runes_nonempty.
  - by rewrite length_reverse.
Qed.

(** Trimming leaves nothing to trim at either end. *)
Lemma trim_space_idemp s : trim_space (trim_space s) = trim_space s.
Proof.
  unfold trim_space. rewrite chars_of_chars. f_equal.
  set (l := trim_left (chars s)).
  assert (strip_any space_runes l = None) as Hl.
  { unfold l, trim_left. apply strip_all_done; [apply space_runes_nonempty|done]. }
  assert (trim_left (trim_right l) = trim_right l) as ->; [|apply trim_right_idemp].
  unfold trim_left. apply strip_all_stop. rewrite strip_any_none in Hl |- *.
  intros r Hr k Hk. destruct (trim_right_prefix l) as [k' Hk'].
  apply (Hl r Hr (k ++ k')). by rewrite Hk', Hk, <-app_assoc at 1.
Qed.

(** The rows [strings.Split] returns hold no separator. *)
Lemma split_chars_no_sep sep l c : c ∈ split_chars sep l → sep ∉ c.
Proof.
  revert c. induction l as [|a l IH]; intros c; simpl.
  { intros ->%list_elem_of_singleton. apply not_elem_of_nil. }
  case_bool_decide as Ha; [intros [->|?]%elem_of_cons; [apply not_elem_of_nil|auto]|].
  destruct (split_chars sep l) as [|h t].
  { intros ->%list_elem_of_singleton. intros ->%list_elem_of_singleton. done. }
  intros [->|?]%elem_of_cons; [|apply IH; by right].
  intros [->|Hin]%elem_of_cons; [done|]. by apply (IH h); [left|].
Qed.

Lemma split_chars_app sep l k :
  split_chars sep (l ++ sep :: k) = split_chars sep l ++ split_chars sep k.
Proof.
  induction l as [|a l IH]; simpl; [by rewrite bool_decide_true|].
  case_bool_decide; [by rewrite IH|]. rewrite IH.
  destruct (split_chars sep l) as [|h t] eqn:E; [|done].
  exfalso. destruct l; simpl in E; [done|]. case_bool_decide; [done|]. by destruct (split_chars sep l).
Qed.

Lemma split_chars_plain sep l : sep ∉ l → split_chars sep l = [l].
Proof.
  induction l as [|a l IH]; intros Hs; simpl; [done|].
  rewrite bool_decide_false by set_solver. rewrite IH by set_solver. done.
Qed.

Lemma split_chars_nonempty sep l : split_chars sep l ≠ [].
Proof.
  destruct l; simpl; [done|]. case_bool_decide; [done|]. by destruct (split_chars sep l).
Qed.

(** [strings.Join] undoes [strings.Split] on rows without separators. *)
Lemma split_join sep l :
  l ≠ [] → (∀ x, x ∈ l → sep ∉ chars x) → split_on sep (join (of_chars [sep]) l) = l.
Proof.
  intros Hne Hs. unfold split_on. induction l as [|x l IH]; [done|].
  destruct l as [|y l].
  - simpl. rewrite split_chars_plain by (apply Hs; set_solver). simpl. by rewrite of_chars_chars.
  - change (join _ (x :: y :: l)) with (x +:+ of_chars [sep] +:+ join (of_chars [sep]) (y :: l)).
    remember (join (of_chars [sep]) (y :: l)) as J eqn:HJ.
    rewrite !chars_app, chars_of_chars. simpl app. rewrite split_chars_app, fmap_app.
    rewrite IH; [|done|intros z Hz; apply Hs; set_solver].
    rewrite split_chars_plain by (apply Hs; set_solver). simpl. by rewrite of_chars_chars.
Qed.

(** Two NUL-free lists with the same NUL-joined text are equal, except that the
    empty list and the list of one empty string share theirs. *)
Lemma join_nul_inj l k :
  (∀ x, x ∈ l → nul ∉ chars x) → (∀ x, x ∈ k → nul ∉ chars x) → l ≠ [] → k ≠ [] →
  join nul_string l = join nul_string k → l = k.
Proof.
  intros Hl Hk Hl0 Hk0 H. rewrite <-(split_join nul l), <-(split_join nul k) by done.
  by unfold nul_string in H; rewrite H.
Qed.

Lemma prefix_true p s : String.prefix p s = true ↔ ∃ t, s = p +:+ t.
Proof.
  revert s. induction p as [|a p IH]; intros s; simpl.
  - split; [intros _; by exists s|by destruct s].
  - destruct s as [|b s]; simpl; [split; [done|intros [t Ht]; done]|].
    destruct (ascii_dec a b) as [->|Hab].
    + rewrite IH. split; intros [t Ht]; exists t; [by rewrite Ht|by injection Ht].
    + split; [done|]. intros [t Ht]. by injection Ht.
Qed.

Lemma equal_fold_refl s : equal_fold s s = true.
Proof. unfold equal_fold. by apply bool_decide_eq_true. Qed.

Lemma equal_fold_sym s t : equal_fold s t = equal_fold t s.
Proof. unfold equal_fold. apply bool_decide_ext. naive_solver. Qed.

Lemma equal_fold_trans s t u :
  equal_fold s t = true → equal_fold t u = true → equal_fold s u = true.
Proof. unfold equal_fold. rewrite !bool_decide_eq_true. congruence. Qed.
