(* ===== verification/GoPath.v ===== *)
(** Go's [path/filepath] on Unix: the lexical functions [Clean], [Join],
    [Rel], [Base], [Dir], [Ext], [Split], [IsAbs], and the two helpers of the
    sources built on them, [inside] and [cleanRelative]
    ([src/internal/service/media.go]), which also back [confinedPath] and
    [CleanDestination] of [src/internal/transfer].

    A path is split at its slashes; [elems] lists the elements of the cleaned
    path, and the confinement theorems are stated on it. *)
From S2P Require Import Prelude GoStrings.
From Stdlib Require Import Ascii.

Definition slash : ascii := byte 47.
Definition dot : ascii := byte 46.

(** [filepath.IsAbs]. *)
Definition is_abs (p : string) : bool :=
  match p with String c _ => bool_decide (c = slash) | EmptyString => false end.

Definition comps (p : string) : list string := split_on slash p.

(** The element loop of [filepath.Clean]; [out] is the output so far, reversed. *)
Fixpoint clean_loop (rooted : bool) (out l : list string) : list string :=
  match l with
  | [] => reverse out
  | c :: l' =>
      if bool_decide (c = "" ∨ c = ".") then clean_loop rooted out l'
      else if bool_decide (c = "..") then
        match out with
        | [] => clean_loop rooted (if rooted then [] else [".."]) l'
        | h :: t => if bool_decide (h = "..") then clean_loop rooted (".." :: out) l'
                    else clean_loop rooted t l'
        end
      else clean_loop rooted (c :: out) l'
  end.

(** The elements of the cleaned path. *)
Definition elems (p : string) : list string := clean_loop (is_abs p) [] (comps p).

Definition render (rooted : bool) (l : list string) : string :=
  if rooted then "/" +:+ join "/" l
  else match l with [] => "." | _ => join "/" l end.

(** [filepath.Clean]. *)
Definition clean (p : string) : string := render (is_abs p) (elems p).

(** [filepath.Join]: leading empty elements are dropped, the rest is cleaned. *)
Fixpoint join_path (l : list string) : string :=
  match l with
  | [] => ""
  | x :: l' => if bool_decide (x = "") then join_path l' else clean (join "/" (x :: l'))
  end.

Fixpoint strip_common (b t : list string) : list string * list string :=
  match b, t with
  | x :: b', y :: t' => if bool_decide (x = y) then strip_common b' t' else (b, t)
  | _, _ => (b, t)
  end.

(** [filepath.Rel]. *)
Definition rel (base targ : string) : res string :=
  if bool_decide (clean base = clean targ) then Ok "."
  else if negb (bool_decide (is_abs base = is_abs targ)) then
    Err (ErrText ("Rel: can't make " +:+ targ +:+ " relative to " +:+ base))
  else
    let '(b, t) := strip_common (elems base) (elems targ) in
    match b with
    | ".." :: _ => Err (ErrText ("Rel: can't make " +:+ targ +:+ " relative to " +:+ base))
    | _ => Ok (join "/" (replicate (length b) ".." ++ t))
    end.

(** [filepath.Base], [filepath.Dir], [filepath.Split], [filepath.Ext]. *)
Definition base (p : string) : string :=
  match last (filter (λ c, c ≠ "") (comps p)) with
  | Some c => c
  | None => if bool_decide (p = "") then "." else "/"
  end.

Definition init_comps (p : string) : list string :=
  take (length (comps p) - 1) (comps p).
Definition last_comp (p : string) : string := default "" (last (comps p)).

(** The part up to and including the last slash, and the part after it. *)
Definition split_path (p : string) : string * string :=
  match init_comps p with
  | [] => ("", p)
  | l => (join "/" l +:+ "/", last_comp p)
  end.
Definition dir (p : string) : string := clean (split_path p).1.

Fixpoint ext_chars (best : list ascii) (l : list ascii) : list ascii :=
  match l with
  | [] => best
  | a :: l' => ext_chars (if bool_decide (a = dot) then l else best) l'
  end.
Definition ext (p : string) : string := of_chars (ext_chars [] (chars (last_comp p))).

(** [relative == ".." || strings.HasPrefix(relative, "../")]. *)
Definition climbs (r : string) : bool := bool_decide (r = "..") || has_prefix r "../".

(** [inside] (media.go) and the test of [confinedPath] (publish.go). *)
Definition inside (root path : string) : bool :=
  match rel root path with Ok r => negb (climbs r) | Err _ => false end.

(** [cleanRelative] (media.go). *)
Definition cleanRelative (value label : string) : res string :=
  let c := clean (trim_space value) in
  if bool_decide (c = ".") then Ok ""
  else if is_abs c || climbs c then
    Err (ErrText (label +:+ " must stay below its configured root"))
  else Ok c.

(** An element that is a single path component: not empty, no slash, no dot element. *)
Definition plain (c : string) : Prop :=
  c ≠ "" ∧ c ≠ "." ∧ c ≠ ".." ∧ slash ∉ chars c.

(** The normal form of a cleaned path: [..] only in front, and only in a relative path. *)
Definition normal (rooted : bool) (l : list string) : Prop :=
  ∃ n k, l = replicate n ".." ++ k ∧ Forall plain k ∧ (rooted = true → n = 0).

(** * Lemmas *)

Lemma comps_no_slash p c : c ∈ comps p → slash ∉ chars c.
Proof.
  unfold comps, split_on. intros (l & -> & Hl)%list_elem_of_fmap.
  rewrite chars_of_chars. by eapply split_chars_no_sep.
Qed.

Lemma reverse_replicate_dots n : reverse (replicate n "..") = replicate n "..".
Proof. apply reverse_replicate. Qed.

(** [clean_loop] keeps [reverse out] normal. *)
Lemma clean_loop_normal rooted l out :
  Forall (λ c, slash ∉ chars c) l → normal rooted (reverse out) →
  normal rooted (clean_loop rooted out l).
Proof.
  revert out. induction l as [|c l IH]; intros out Hl Hout; simpl; [done|].
  apply Forall_cons in Hl as [Hc Hl]. case_bool_decide as H1; [by apply IH|].
  case_bool_decide as H2.
  - destruct out as [|h t].
    + apply IH; [done|]. destruct rooted; [done|]. exists 1, []. by repeat split.
    + destruct Hout as (n & k & Hnk & Hk & Hr). rewrite reverse_cons in Hnk.
      case_bool_decide as H3; apply IH; try done.
      * destruct k as [|k0 k' _] using rev_ind.
        -- exists (S n), []. rewrite app_nil_r in *. rewrite !reverse_cons, Hnk.
           split; [by rewrite <-replicate_cons_app|]. split; [done|].
           intros ->. specialize (Hr eq_refl). subst n. by destruct (reverse t).
        -- rewrite app_assoc in Hnk. apply app_inj_tail in Hnk as [_ ->].
           apply Forall_app in Hk as [_ [(_ & _ & Hdd & _) _]%Forall_cons]. by subst.
      * destruct k as [|k0 k' _] using rev_ind.
        -- destruct n as [|n]; [by destruct (reverse t)|].
           rewrite app_nil_r, replicate_S_end in Hnk. apply app_inj_tail in Hnk as [_ ->]. done.
        -- rewrite app_assoc in Hnk. apply app_inj_tail in Hnk as [-> ->].
           exists n, k'. apply Forall_app in Hk as [Hk _]. done.
  - apply IH; [done|]. rewrite reverse_cons. destruct Hout as (n & k & -> & Hk & Hr).
    exists n, (k ++ [c]). rewrite app_assoc. split; [done|]. split; [|done].
    apply Forall_app. split; [done|]. repeat constructor; naive_solver.
Qed.

Lemma elems_normal p : normal (is_abs p) (elems p).
Proof.
  apply clean_loop_normal; [|by exists 0, []].
  apply Forall_forall. intros c. apply comps_no_slash.
Qed.

Lemma plain_not_dots k c : Forall plain k → c ∈ k → c ≠ "..".
Proof. intros Hk Hc. rewrite Forall_forall in Hk. by apply Hk in Hc as (_ & _ & ? & _). Qed.

(** The loop reads a list of plain elements unchanged. *)
Lemma clean_loop_plain rooted out k l :
  Forall plain k → clean_loop rooted out (k ++ l) = clean_loop rooted (reverse k ++ out) l.
Proof.
  revert out. induction k as [|c k IH]; intros out Hk; simpl; [done|].
  apply Forall_cons in Hk as [(H1 & H2 & H3 & _) Hk].
  rewrite bool_decide_false by naive_solver. rewrite bool_decide_false by done.
  rewrite IH by done. by rewrite reverse_cons, <-app_assoc.
Qed.

Lemma clean_loop_dots out n l :
  Forall (λ c, c = "..") out →
  clean_loop false out (replicate n ".." ++ l) = clean_loop false (replicate n ".." ++ out) l.
Proof.
  revert out. induction n as [|n IH]; intros out Hout; simpl; [done|].
  destruct out as [|h t].
  - rewrite IH by (by repeat constructor). rewrite <-replicate_cons_app. by rewrite app_nil_r.
  - apply Forall_cons in Hout as [-> Ht]. simpl. rewrite IH by (by repeat constructor).
    f_equal. change (".." :: ".." :: t) with ([".."] ++ ".." :: t).
    rewrite app_assoc, <-replicate_S_end. done.
Qed.

Lemma clean_loop_id rooted l : normal rooted l → clean_loop rooted [] l = l.
Proof.
  intros (n & k & -> & Hk & Hr). destruct rooted.
  - rewrite (Hr eq_refl). simpl. rewrite <-(app_nil_r k) at 1.
    rewrite clean_loop_plain by done. simpl. by rewrite app_nil_r, reverse_involutive.
  - rewrite clean_loop_dots by constructor. rewrite app_nil_r, <-(app_nil_r k) at 1.
    rewrite clean_loop_plain by done. simpl.
    by rewrite reverse_app, reverse_involutive, reverse_replicate_dots.
Qed.

Lemma normal_no_slash rooted l c : normal rooted l → c ∈ l → slash ∉ chars c.
Proof.
  intros (n & k & -> & Hk & _) [H|H]%elem_of_app.
  - apply elem_of_replicate in H as [-> _]. vm_compute. intros Hs. repeat (apply elem_of_cons in Hs as [Hs|Hs]; [done|]).
    by apply not_elem_of_nil in Hs.
  - rewrite Forall_forall in Hk. by apply Hk in H as (_ & _ & _ & ?).
Qed.

Lemma comps_join rooted l : normal rooted l → l ≠ [] → comps (join "/" l) = l.
Proof. intros Hn Hl. apply split_join; [done|]. intros x Hx. by eapply normal_no_slash. Qed.

Lemma comps_slash s : comps ("/" +:+ s) = "" :: comps s.
Proof. unfold comps, split_on. by rewrite chars_app. Qed.

Lemma is_abs_comps p : is_abs p = true ↔ ∃ s, p = "/" +:+ s.
Proof.
  destruct p as [|c p]; simpl; [split; [done|by intros [s ?]]|].
  rewrite bool_decide_eq_true. split; [intros ->; by exists p|]. intros [s [= -> _]]. done.
Qed.

Lemma normal_head_not_abs l : normal false l → l ≠ [] → is_abs (join "/" l) = false.
Proof.
  intros Hn Hl. destruct (is_abs (join "/" l)) eqn:E; [|done].
  apply is_abs_comps in E as [s Hs]. exfalso.
  assert (comps (join "/" l) = l) as Hc by (by eapply comps_join).
  rewrite Hs, comps_slash in Hc. destruct Hn as (n & k & -> & Hk & _).
  destruct n; simpl in Hc; [|done]. destruct k as [|x k]; [done|]. injection Hc as <- _.
  apply Forall_cons in Hk as [[? _] _]. done.
Qed.

(** [Clean] is determined by, and determines, the rootedness and the elements. *)
Lemma parse_render rooted l :
  normal rooted l → is_abs (render rooted l) = rooted ∧ elems (render rooted l) = l.
Proof.
  intros Hn. destruct rooted; simpl.
  - split; [done|]. unfold elems. change (String "/" (join "/" l)) with ("/" +:+ join "/" l).
    rewrite comps_slash. simpl. destruct l as [|x l].
    + done.
    + erewrite comps_join by done. by apply clean_loop_id.
  - destruct l as [|x l]; [done|].
    assert (is_abs (join "/" (x :: l)) = false) as Ha by (by apply normal_head_not_abs).
    split; [done|]. unfold elems. rewrite Ha. erewrite comps_join by done. by apply clean_loop_id.
Qed.

Lemma is_abs_clean p : is_abs (clean p) = is_abs p.
Proof. by apply parse_render, elems_normal. Qed.

Lemma elems_clean p : elems (clean p) = elems p.
Proof. by apply parse_render, elems_normal. Qed.

Lemma clean_idemp p : clean (clean p) = clean p.
Proof. unfold clean at 1. by rewrite is_abs_clean, elems_clean. Qed.

Lemma clean_inj p q : clean p = clean q ↔ is_abs p = is_abs q ∧ elems p = elems q.
Proof.
  split.
  - intros H. by rewrite <-(is_abs_clean p), <-(elems_clean p), H, is_abs_clean, elems_clean.
  - intros [Ha He]. unfold clean. by rewrite Ha, He.
Qed.

(** ** Joining and confinement *)

Lemma elems_no_dots_abs p c : is_abs p = true → c ∈ elems p → plain c.
Proof.
  intros Ha Hc. destruct (elems_normal p) as (n & k & He & Hk & Hr).
  rewrite (Hr Ha) in He. rewrite He in Hc. simpl in Hc. rewrite Forall_forall in Hk. auto.
Qed.

Lemma clean_loop_app rooted out l k :
  clean_loop rooted out (l ++ k) = clean_loop rooted (reverse (clean_loop rooted out l)) k.
Proof.
  revert out. induction l as [|c l IH]; intros out; simpl; [by rewrite reverse_involutive|].
  repeat case_bool_decide; auto.
  destruct out; [by destruct rooted|]. case_bool_decide; auto.
Qed.

Lemma join_path_pair a b : a ≠ "" → join_path [a; b] = clean (a +:+ "/" +:+ b).
Proof. intros Ha. simpl. by rewrite bool_decide_false. Qed.

Lemma comps_slash_app a b : comps (a +:+ "/" +:+ b) = comps a ++ comps b.
Proof. unfold comps, split_on. rewrite !chars_app. simpl app. by rewrite split_chars_app, fmap_app. Qed.

Lemma is_abs_app a b : a ≠ "" → is_abs (a +:+ b) = is_abs a.
Proof. by destruct a. Qed.

Lemma elems_join a b :
  a ≠ "" → is_abs a = true →
  is_abs (join_path [a; b]) = true ∧
  elems (join_path [a; b]) = clean_loop true (reverse (elems a)) (comps b).
Proof.
  intros Ha Habs. rewrite join_path_pair by done. rewrite is_abs_clean, elems_clean, is_abs_app by done.
  split; [done|]. unfold elems. rewrite is_abs_app, Habs, comps_slash_app by done. by rewrite clean_loop_app.
Qed.

(** Below an absolute root, joining a cleaned relative path that does not climb
    appends its elements. *)
Lemma elems_join_confined root c k :
  is_abs root = true → elems c = k → is_abs c = false → clean c = c → Forall plain k →
  elems (join_path [root; c]) = elems root ++ k.
Proof.
  intros Hr He Hc Hcl Hk. assert (root ≠ "") by (by destruct root).
  destruct (elems_join root c) as [_ ->]; [done..|].
  destruct k as [|x k].
  - assert (c = ".") as -> by (by rewrite <-Hcl; unfold clean; rewrite Hc, He).
    simpl. by rewrite app_nil_r, reverse_involutive.
  - assert (comps c = x :: k) as ->.
    { rewrite <-Hcl. unfold clean. rewrite Hc, He. apply (comps_join false); [|done].
      exists 0, (x :: k). by repeat split. }
    rewrite <-(app_nil_r (x :: k)), clean_loop_plain by done. simpl.
    by rewrite reverse_app, !reverse_involutive, app_nil_r.
Qed.

Lemma strip_common_spec b t b' t' :
  strip_common b t = (b', t') →
  ∃ p, b = p ++ b' ∧ t = p ++ t' ∧ (∀ x y l k, b' = x :: l → t' = y :: k → x ≠ y).
Proof.
  revert t b' t'. induction b as [|x b IH]; intros t b' t' H; simpl in H.
  - injection H as <- <-. by exists [].
  - destruct t as [|y t]; [injection H as <- <-; by exists []|]. case_bool_decide as Hxy.
    + subst. apply IH in H as (p & -> & -> & ?). exists (y :: p). done.
    + injection H as <- <-. exists []. repeat split. naive_solver.
Qed.

Lemma climbs_join l :
  (∀ c, c ∈ l → slash ∉ chars c) → climbs (join "/" l) = true ↔ ∃ k, l = ".." :: k.
Proof.
  intros Hs. unfold climbs. rewrite orb_true_iff, bool_decide_eq_true. unfold has_prefix.
  rewrite prefix_true. split.
  - destruct l as [|x l]; [intros [?|[t ?]]; done|].
    assert (comps (join "/" (x :: l)) = x :: l) as Hc by (apply split_join; done).
    intros [H|[t H]]; rewrite H in Hc.
    + vm_compute in Hc. injection Hc as <- <-. by exists [].
    + change ("../" +:+ t) with (".." +:+ "/" +:+ t) in Hc. rewrite comps_slash_app in Hc.
      injection Hc as <- Hc. by eexists.
  - intros [k ->]. destruct k as [|x k]; [by left|]. right. by exists (join "/" (x :: k)).
Qed.

(** [inside] is the prefix test on path elements. *)
Lemma inside_spec root path :
  is_abs root = true → is_abs path = true →
  inside root path = true ↔ ∃ t, elems path = elems root ++ t.
Proof.
  intros Hr Hp. unfold inside, rel. case_bool_decide as Heq.
  - apply clean_inj in Heq as [_ He]. split; [|done]. intros _. exists []. by rewrite He, app_nil_r.
  - rewrite Hr, Hp. simpl. destruct (strip_common _ _) as [b t] eqn:E.
    apply strip_common_spec in E as (p & Hb & Ht & Hdiff).
    assert (∀ c, c ∈ b → plain c) as Hpb.
    { intros c Hc. apply (elems_no_dots_abs root); [done|]. rewrite Hb. set_solver. }
    assert (∀ c, c ∈ t → plain c) as Hpt.
    { intros c Hc. apply (elems_no_dots_abs path); [done|]. rewrite Ht. set_solver. }
    assert ((match b with ".." :: _ => Err (ErrText ("Rel: can't make " +:+ path +:+ " relative to " +:+ root))
             | _ => Ok (join "/" (replicate (length b) ".." ++ t)) end)
      = Ok (join "/" (replicate (length b) ".." ++ t))) as ->.
    { destruct b as [|x b]; [done|]. destruct (Hpb x) as (_ & _ & ? & _); [set_solver|].
      repeat (case_match; try done). }
    assert (∀ c, c ∈ replicate (length b) ".." ++ t → slash ∉ chars c) as Hns.
    { intros c [H|H]%elem_of_app; [|by apply Hpt in H as (_ & _ & _ & ?)].
      apply (normal_no_slash false (replicate (length b) "..")); [|done].
      exists (length b), []. by rewrite app_nil_r. }
    rewrite negb_true_iff, <-not_true_iff_false, climbs_join by done. split.
    + intros Hn. destruct b as [|x b]; [|by destruct Hn; eexists].
      exists t. rewrite Ht, Hb. by rewrite app_nil_r.
    + intros [t' Ht'] [k Hk]. rewrite Ht, Hb, <-app_assoc in Ht'. apply app_inv_head in Ht'.
      destruct b as [|x b].
      * destruct t as [|y t]; [done|]. injection Hk as -> _.
        destruct (Hpt "..") as (_ & _ & ? & _); [set_solver|done].
      * destruct t as [|y t]; [done|]. simpl in Ht'. injection Ht' as -> _. by eapply Hdiff.
Qed.

Lemma cleanRelative_ok v label c :
  cleanRelative v label = Ok c →
  (c = "" ∧ elems (trim_space v) = []) ∨
  (c = clean (trim_space v) ∧ is_abs c = false ∧ elems c ≠ [] ∧ Forall plain (elems c)).
Proof.
  unfold cleanRelative. set (s := trim_space v). case_bool_decide as H1.
  - intros [= <-]. left. split; [done|]. rewrite <-elems_clean, H1. done.
  - destruct (is_abs (clean s) || climbs (clean s)) eqn:E; [done|]. intros [= <-]. right. bools.
    split; [done|]. split; [done|]. rewrite elems_clean.
    assert (is_abs s = false) as Ha by (by rewrite <-is_abs_clean).
    assert (elems s ≠ []) as Hne.
    { intros He. apply H1. unfold clean. by rewrite Ha, He. }
    split; [done|]. destruct (elems_normal s) as (n & k & He & Hk & _).
    destruct n as [|n]; [by rewrite He|]. exfalso.
    assert (climbs (clean s) = true) as Hc; [|congruence].
    unfold clean. rewrite Ha, He.
    change (climbs (join "/" (replicate (S n) ".." ++ k)) = true). apply climbs_join; [|by eexists].
    intros c Hin. apply (normal_no_slash (is_abs s) (elems s)); [apply elems_normal|]. by rewrite He.
Qed.

(** The path [filepath.Join(root, cleanRelative(v))] stays below [root]. *)
Lemma cleanRelative_inside root v label c :
  is_abs root = true → cleanRelative v label = Ok c →
  inside root (join_path [root; c]) = true ∧
  elems (join_path [root; c]) = elems root ++ elems c ∧ Forall plain (elems c).
Proof.
  intros Hr Hc. assert (root ≠ "") as Hne by (by destruct root).
  destruct (elems_join root c) as [Ha He]; [done..|]. rewrite inside_spec by done.
  apply cleanRelative_ok in Hc as [[-> _]|(Hc & Hca & _ & Hp)].
  - rewrite He. simpl. rewrite reverse_involutive. split; [|split; [by rewrite app_nil_r|constructor]].
    exists []. by rewrite app_nil_r.
  - assert (clean c = c) as Hcl by (by rewrite Hc, clean_idemp).
    assert (elems (join_path [root; c]) = elems root ++ elems c) as Hj by (by apply elems_join_confined).
    split; [|by split]. by exists (elems c).
Qed.

(** A plain component is its own cleaned path. *)
Lemma plain_path a : plain a → elems a = [a] ∧ is_abs a = false ∧ clean a = a.
Proof.
  intros Hp. assert (normal false [a]) as Hn.
  { exists 0, [a]. split; [done|]. split; [by apply Forall_singleton|done]. }
  destruct (parse_render false [a] Hn) as [Ha He]. simpl in Ha, He.
  split; [done|]. split; [done|]. unfold clean. by rewrite Ha, He.
Qed.
