(* ===== verification/Protocol.v ===== *)
(** The NAS transfer protocol: requests, their validation and the path
    sanitizers ([src/internal/transfer/protocol.go], and [confinedPath] of
    [src/internal/transfer/publish.go]). *)
From S2P Require Import Prelude GoStrings GoPath.
From Stdlib Require Import Ascii.

Definition WorkerCanaryName : string := ".embymedia-nas-worker-health-canary".
Definition EmptySHA1 : string := "DA39A3EE5E6B4B0D3255BFEF95601890AFD80709".
Definition ProtocolVersion : Z := 1.

Definition OperationCheck : string := "check".
Definition OperationDownload : string := "download".
Definition OperationPublish : string := "publish".
Definition OperationCommit : string := "commit".

Record Request := {
  Version : Z;
  Operation : string;
  JobID : string;
  AccountID : string;
  SourceFileID : string;
  SourceRevision : string;
  Name : string;
  Size : Z;
  ExpectedSHA1 : string;
  QuarkCookie : string;
  Destination : string;
  Replace : bool;
  Connections : Z;
  RequiredFreeBytes : Z
}.

Record Event := {
  ev_Version : Z;
  ev_Type : string;
  ev_Phase : string;
  ev_DownloadedBytes : Z;
  ev_Size : Z;
  ev_SHA1 : string;
  ev_PreSHA1 : string;
  ev_Error : string
}.

Definition CleanDestination (value : string) : res string :=
  if contains_any value [nul] || is_abs value then
    Err (ErrText "destination must be a relative path")
  else
    let c := clean (trim_space value) in
    if bool_decide (c = ".") || bool_decide (c = "") || climbs c then
      Err (ErrText "destination must stay below the mount root")
    else Ok c.

Definition CleanFileName (value : string) : res string :=
  let name := trim_space value in
  if bool_decide (name = "") || bool_decide (name = ".") || bool_decide (name = "..")
     || contains_any name [nul; slash; byte 92] || negb (bool_decide (base name = name)) then
    Err (ErrText "name must be one filesystem component")
  else Ok name.

Definition ValidSHA1 (value : string) : bool :=
  bool_decide (String.length value = 40) && forallb is_hex (chars value).

Definition blank (s : string) : bool := bool_decide (trim_space s = "").

Definition Validate (r : Request) : res unit :=
  if negb (Z.eqb (Version r) ProtocolVersion) then
    Err (ErrText ("unsupported transfer protocol version " +:+ pretty (Version r)))
  else if blank (JobID r) || bool_decide (200 < String.length (JobID r)) then
    Err (ErrText "job_id is required and must not exceed 200 bytes")
  else if Z.ltb (RequiredFreeBytes r) 0 then
    Err (ErrText "required_free_bytes must not be negative")
  else if bool_decide (Operation r = OperationCheck) then
    _ ← CleanDestination (Destination r); Ok tt
  else if bool_decide (Operation r = OperationCommit) then
    if blank (AccountID r) || blank (SourceFileID r) then
      Err (ErrText "account_id and source_file_id are required for commit")
    else Ok tt
  else if bool_decide (Operation r = OperationDownload) then
    if blank (AccountID r) || blank (SourceFileID r) || blank (QuarkCookie r) then
      Err (ErrText "account_id, source_file_id, and quark_cookie are required for download")
    else if Z.ltb (Size r) 0 then Err (ErrText "size must not be negative")
    else if Z.ltb (Connections r) 1 || Z.ltb 8 (Connections r) then
      Err (ErrText "connections must be between 1 and 8")
    else _ ← CleanFileName (Name r); Ok tt
  else if bool_decide (Operation r = OperationPublish) then
    if blank (AccountID r) || blank (SourceFileID r) || Z.ltb (Size r) 0
       || negb (ValidSHA1 (ExpectedSHA1 r)) then
      Err (ErrText "account_id, source_file_id, size, and expected_sha1 are required for publish")
    else _ ← CleanFileName (Name r); _ ← CleanDestination (Destination r); Ok tt
  else Err (ErrText "operation must be check, download, publish, or commit").

(** [confinedPath] (publish.go): the joined path, when it does not escape [root]. *)
Definition confinedPath (root relative : string) : res string :=
  let joined := join_path [root; relative] in
  if inside root joined then Ok joined
  else Err (ErrText "destination escapes the mount root").

(** * Lemmas *)

Lemma contains_any_false s set :
  contains_any s set = false ↔ ∀ a, a ∈ chars s → a ∉ set.
Proof.
  unfold contains_any. rewrite <-not_true_iff_false, existsb_exists. split.
  - intros H a Ha Hs. apply H. exists a. rewrite <-list_elem_of_In, bool_decide_eq_true. done.
  - intros H (a & Ha & Hs). rewrite <-list_elem_of_In in Ha. bools. by eapply H.
Qed.

Lemma clean_rooted_comps k :
  Forall plain k → comps (render true k) = match k with [] => [""; ""] | _ => "" :: k end.
Proof.
  intros Hk. simpl. change (String "/" (join "/" k)) with ("/" +:+ join "/" k). rewrite comps_slash.
  destruct k as [|x k]; [done|]. f_equal. apply (comps_join true); [|done]. exists 0, (x :: k). done.
Qed.

(** Joining a cleaned path whose elements are plain appends its elements, even
    when that path is absolute. *)
Lemma elems_join_clean root c :
  is_abs root = true → clean c = c → Forall plain (elems c) →
  is_abs (join_path [root; c]) = true ∧ elems (join_path [root; c]) = elems root ++ elems c.
Proof.
  intros Hr Hc Hp. assert (root ≠ "") by (by destruct root).
  destruct (elems_join root c) as [Ha He]; [done..|]. split; [done|].
  destruct (is_abs c) eqn:Hca; [|by apply elems_join_confined].
  assert (comps c = match elems c with [] => [""; ""] | _ => "" :: elems c end) as Hcc.
  { rewrite <-Hc at 1. unfold clean. rewrite Hca. by apply clean_rooted_comps. }
  rewrite He, Hcc. destruct (elems c) as [|x k] eqn:E.
  - simpl. by rewrite reverse_involutive, app_nil_r.
  - change (clean_loop true (reverse (elems root)) ("" :: x :: k))
      with (clean_loop true (reverse (elems root)) (x :: k)).
    rewrite <-(app_nil_r (x :: k)) at 1. rewrite (clean_loop_plain _ _ (x :: k)) by done. simpl.
    by rewrite reverse_app, !reverse_involutive.
Qed.

Lemma CleanDestination_ok v c :
  CleanDestination v = Ok c → clean c = c ∧ c ≠ "." ∧ Forall plain (elems c).
Proof.
  unfold CleanDestination. destruct (contains_any v [nul] || is_abs v); [done|].
  set (s := trim_space v). destruct (_ || climbs (clean s)) eqn:E; [done|]. intros [= <-]. bools.
  split; [apply clean_idemp|]. split; [done|]. rewrite elems_clean.
  destruct (elems_normal s) as (n & k & He & Hk & Hr). destruct n as [|n]; [by rewrite He|]. exfalso.
  assert (is_abs s = false) as Ha by (destruct (is_abs s); [by discriminate Hr|done]).
  assert (climbs (clean s) = true) as Hcl; [|congruence].
  unfold clean. rewrite Ha, He.
  change (climbs (join "/" (replicate (S n) ".." ++ k)) = true). apply climbs_join; [|by eexists].
  intros c Hin. apply (normal_no_slash (is_abs s) (elems s)); [apply elems_normal|]. by rewrite He.
Qed.

Lemma CleanFileName_ok v n : CleanFileName v = Ok n → n = trim_space v ∧ plain n ∧ nul ∉ chars n.
Proof.
  unfold CleanFileName. destruct (_ || _) eqn:E; [done|]. intros [= <-]. bools.
  match goal with H : contains_any _ _ = false |- _ => rewrite contains_any_false in H; rename H into Hany end.
  split; [done|]. repeat split; try done; intros Hs; apply (Hany _ Hs); set_solver.
Qed.

Lemma accepted_confined root value c :
  is_abs root = true → CleanDestination value = Ok c →
  ∃ directory, confinedPath root c = Ok directory ∧
    elems directory = elems root ++ elems c ∧ Forall plain (elems c).
Proof.
  intros Hr Hc. apply CleanDestination_ok in Hc as (Hcl & _ & Hp).
  destruct (elems_join_clean root c) as [Ha He]; [done..|].
  exists (join_path [root; c]). unfold confinedPath.
  assert (inside root (join_path [root; c]) = true) as ->; [|done].
  apply inside_spec; [done..|]. by exists (elems c).
Qed.

(** * Properties *)

(** Whatever [CleanDestination] accepts, [confinedPath] accepts below every
    absolute mount root, and the joined path is the root followed by plain
    components: no accepted destination escapes the mount. *)
Theorem CleanDestination_confined root value c :
  is_abs root = true → CleanDestination value = Ok c →
  ∃ directory, confinedPath root c = Ok directory ∧
    elems directory = elems root ++ elems c ∧ Forall plain (elems c).
Proof. apply accepted_confined. Qed.

Lemma CleanDestination_confined_witness :
  ∃ directory, confinedPath "/mnt/115" "emby/anime" = Ok directory ∧
    elems directory = elems "/mnt/115" ++ elems "emby/anime" ∧ Forall plain (elems "emby/anime").
Proof.
  apply (CleanDestination_confined "/mnt/115" " emby//./x/../anime/ "); vm_compute; reflexivity.
Defined.

(** a publish request that [Validate] accepts names one plain file component,
    its target is that component directly below a directory confined in the
    mount root, and its digest is forty hexadecimal digits. *)
Theorem Validate_publish_confined root r :
  is_abs root = true → Operation r = OperationPublish → Validate r = Ok tt →
  ∃ destination name directory,
    CleanDestination (Destination r) = Ok destination ∧
    CleanFileName (Name r) = Ok name ∧
    confinedPath root destination = Ok directory ∧
    elems (join_path [directory; name]) = elems root ++ elems destination ++ [name] ∧
    Forall plain (elems destination ++ [name]) ∧
    (0 ≤ Size r)%Z ∧ String.length (ExpectedSHA1 r) = 40 ∧
    (∀ a, a ∈ chars (ExpectedSHA1 r) → is_hex a = true).
Proof.
  intros Hr Hop Hv. unfold Validate in Hv. rewrite Hop in Hv.
  change (bool_decide (OperationPublish = OperationCheck)) with false in Hv.
  change (bool_decide (OperationPublish = OperationCommit)) with false in Hv.
  change (bool_decide (OperationPublish = OperationDownload)) with false in Hv.
  change (bool_decide (OperationPublish = OperationPublish)) with true in Hv.
  res_inv Hv. unfold ValidSHA1 in *. bools.
  destruct (CleanDestination_ok _ _ E0) as (Hcl & _ & Hp).
  destruct (CleanFileName_ok _ _ E) as (_ & Hn & _).
  destruct (elems_join_clean root a0) as [Habs He]; [done..|].
  assert (inside root (join_path [root; a0]) = true) as Hin by (apply inside_spec; [done..|]; by exists (elems a0)).
  exists a0, a, (join_path [root; a0]). unfold confinedPath. rewrite Hin.
  destruct (plain_path a Hn) as (Hea & Haa & Hca).
  repeat split; try done; try lia.
  - rewrite (elems_join_confined _ a [a]); [by rewrite He, app_assoc|done..|by apply Forall_singleton].
  - apply Forall_app. split; [done|by apply Forall_singleton].
  - intros x Hx. eapply forallb_forall; [done|]. by apply list_elem_of_In.
Qed.

Definition sample_publish : Request := {|
  Version := 1; Operation := "publish"; JobID := "task:file"; AccountID := "q1"; SourceFileID := "f1";
  SourceRevision := "7"; Name := " E01.mkv"; Size := 10; ExpectedSHA1 := EmptySHA1; QuarkCookie := "";
  Destination := "shows/A"; Replace := false; Connections := 0; RequiredFreeBytes := 0 |}.

Lemma Validate_publish_confined_witness :
  Validate sample_publish = Ok tt ∧
  ∃ destination name directory,
    CleanDestination (Destination sample_publish) = Ok destination ∧
    CleanFileName (Name sample_publish) = Ok name ∧
    confinedPath "/mnt" destination = Ok directory ∧
    elems (join_path [directory; name]) = elems "/mnt" ++ elems destination ++ [name] ∧
    Forall plain (elems destination ++ [name]) ∧
    (0 ≤ Size sample_publish)%Z ∧ String.length (ExpectedSHA1 sample_publish) = 40 ∧
    (∀ a, a ∈ chars (ExpectedSHA1 sample_publish) → is_hex a = true).
Proof.
  split; [vm_compute; reflexivity|].
  apply (Validate_publish_confined "/mnt" sample_publish); vm_compute; reflexivity.
Defined.

(** the check for an absolute destination reads the untrimmed text, so a
    leading blank lets an absolute path through, and [" /"] even names the mount
    root itself, which the error text of the next check rules out. *)
Theorem CleanDestination_blank_root root :
  is_abs root = true →
  CleanDestination " /etc" = Ok "/etc" ∧ CleanDestination " /" = Ok "/" ∧
  ∃ directory, confinedPath root "/" = Ok directory ∧ elems directory = elems root.
Proof.
  intros Hr. split; [vm_compute; reflexivity|]. split; [vm_compute; reflexivity|].
  destruct (accepted_confined root " /" "/") as (d & Hd & He & _);
    [done|vm_compute; reflexivity|]. exists d. split; [done|].
  rewrite He. apply app_nil_r.
Qed.

Lemma CleanDestination_blank_root_witness :
  CleanDestination " /etc" = Ok "/etc" ∧ CleanDestination " /" = Ok "/" ∧
  ∃ directory, confinedPath "/mnt" "/" = Ok directory ∧ elems directory = elems "/mnt".
Proof. apply (CleanDestination_blank_root "/mnt"). reflexivity. Defined.
