(* ===== verification/Sql.v ===== *)
(** The database layer the storage package is written on: tables, statements,
    transactions, the clock and driver failures.

    A table is a [gmap] from its primary key to its row.  An [UPDATE .. WHERE]
    is [update_where] with the number of matched rows ([RowsAffected]), a
    [SELECT .. ORDER BY .. LIMIT] is [select] on the matching rows.

    Every call of the driver ([Begin], [Exec], [Query], [Commit]) and every
    [time.Now()] advances a tick; the environment [Env] says what the clock
    reads and which driver calls fail at which tick.  A failing statement has no
    effect (SQLite statement atomicity), and a transaction that does not commit
    leaves the database as it found it (the deferred [Rollback]).  The mutex of
    [storage.DB] and its single connection make each operation one atomic step. *)
From S2P Require Import Prelude GoStrings.

(** ** Environment and monad *)

Class Env := {
  (** the reading of [time.Now()] at a tick, in nanoseconds *)
  env_now : nat → Z;
  (** the failure of the driver call at a tick, if any *)
  env_fault : nat → option string
}.

(** An environment whose clock counts ticks and whose driver never fails. *)
Definition quiet : Env := {| env_now := Z.of_nat; env_fault := λ _, None |}.

Record World (D : Type) := mkWorld { w_tick : nat; w_db : D }.
Arguments mkWorld {D}. Arguments w_tick {D}. Arguments w_db {D}.

Definition M (D A : Type) : Type := World D → res A * World D.

#[global] Instance m_ret D : MRet (M D) := λ A a w, (Ok a, w).
#[global] Instance m_bind D : MBind (M D) := λ A B f m w,
  match m w with (Ok a, w') => f a w' | (Err e, w') => (Err e, w') end.

(** What a transaction body decides: commit, or return without committing. *)
Inductive txr (A : Type) := Commit (a : A) | Rollback (a : A).
Arguments Commit {A} a. Arguments Rollback {A} a.

Section Monad.
Context `{Env} {D : Type}.

Definition tick (w : World D) (d : D) : World D := mkWorld (S (w_tick w)) d.

(** [time.Now()]. *)
Definition now : M D Z := λ w, (Ok (env_now (w_tick w)), tick w (w_db w)).

(** One statement: it may fail in the driver, or by itself (a constraint, no rows). *)
Definition stmt {A} (f : D → res (A * D)) : M D A := λ w,
  match env_fault (w_tick w) with
  | Some m => (Err (ErrDriver m), tick w (w_db w))
  | None => match f (w_db w) with
            | Ok (a, d) => (Ok a, tick w d)
            | Err e => (Err e, tick w (w_db w))
            end
  end.

(** A statement that only reads. *)
Definition query {A} (f : D → res A) : M D A := stmt (λ d, a ← f d; Ok (a, d)).

(** An [UPDATE]/[INSERT]/[DELETE] that cannot violate a constraint. *)
Definition exec {A} (f : D → A * D) : M D A := stmt (λ d, Ok (f d)).

Definition lift {A} (r : res A) : M D A := λ w, (r, w).
Definition throw {A} (e : error) : M D A := lift (Err e).

(** [tx, err := d.db.Begin(); defer tx.Rollback(); ...; return tx.Commit()]. *)
Definition transaction {A} (body : M D (txr A)) : M D A := λ w,
  match env_fault (w_tick w) with
  | Some m => (Err (ErrDriver m), tick w (w_db w))
  | None =>
      match body (tick w (w_db w)) with
      | (Ok (Commit a), w1) =>
          match env_fault (w_tick w1) with
          | Some m => (Err (ErrDriver m), tick w1 (w_db w))
          | None => (Ok a, tick w1 (w_db w1))
          end
      | (Ok (Rollback a), w1) => (Ok a, mkWorld (w_tick w1) (w_db w))
      | (Err e, w1) => (Err e, mkWorld (w_tick w1) (w_db w))
      end
  end.

(** The result of a call whose error the caller inspects instead of returning it. *)
Definition attempt {A} (m : M D A) : M D (res A) := λ w,
  let '(r, w') := m w in (Ok r, w').

(** [if err != nil { return fmt.Errorf(prefix + "%w", err) }]. *)
Definition wrap {A} (prefix : string) (m : M D A) : M D A := λ w,
  let '(r, w') := m w in (wrap_err prefix r, w').

(** An error that comes from a failing driver call. *)
Definition fault_error (e : error) : Prop :=
  ∃ n m, env_fault n = Some m ∧ e = ErrDriver m.

(** The post-condition calculus: [wp m w Q] says that [m] run in [w] ends in [Q]. *)
Definition wp {A} (m : M D A) (w : World D) (Q : res A → World D → Prop) : Prop :=
  let '(r, w') := m w in Q r w'.

End Monad.

(** A [for] loop whose body is effectful. *)
Fixpoint m_fold {D A S} (f : S → A → M D S) (l : list A) (s : S) : M D S :=
  match l with
  | [] => mret s
  | x :: l' => s' ← f s x; m_fold f l' s'
  end.
Definition m_each {D A} (f : A → M D unit) (l : list A) : M D unit :=
  m_fold (λ _ x, f x) l tt.

(** ** Tables *)

Section Tables.
Context {K : Type} `{Countable K} {R : Type}.

(** [UPDATE t SET f WHERE P]. *)
Definition update_where (P : K → R → bool) (f : R → R) (t : gmap K R) : gmap K R :=
  map_imap (λ k r, Some (if P k r then f r else r)) t.

(** The rows a [WHERE] clause matches, in no particular order. *)
Definition rows_where (P : K → R → bool) (t : gmap K R) : list (K * R) :=
  filter (λ kr, P kr.1 kr.2 = true) (map_to_list t).

(** [RowsAffected] of a statement with that [WHERE] clause, and [COUNT]. *)
Definition count_where (P : K → R → bool) (t : gmap K R) : nat :=
  length (rows_where P t).

(** [SUM(f)] over the matching rows, [0] when there is none. *)
Definition sum_where (f : R → Z) (P : K → R → bool) (t : gmap K R) : Z :=
  foldr (λ kr s, (f kr.2 + s)%Z) 0%Z (rows_where P t).

(** [SELECT .. WHERE P ORDER BY ..]: [le] is the (total) order. *)
Definition select (P : K → R → bool) (le : K * R → K * R → bool) (t : gmap K R) : list (K * R) :=
  merge_sort (λ x y, le x y = true) (rows_where P t).

(** [DELETE FROM t WHERE P]. *)
Definition delete_where (P : K → R → bool) (t : gmap K R) : gmap K R :=
  filter (λ kr, P kr.1 kr.2 = false) t.

(** [WHERE id = ? AND Q]. *)
Definition by_key (id : K) (Q : R → bool) : K → R → bool :=
  λ k r, bool_decide (k = id) && Q r.

End Tables.

(** [LIMIT ?] with a positive limit; other limits mean no limit, as in the callers. *)
Definition limit {A} (n : Z) (l : list A) : list A :=
  if Z.ltb 0 n then take (Z.to_nat n) l else l.

(** Keys of an [INTEGER PRIMARY KEY AUTOINCREMENT] table, greatest first. *)
Definition id_desc {R} (x y : Z * R) : bool := Z.leb y.1 x.1.

(** [ORDER BY id DESC LIMIT 1]. *)
Definition last_row {R} (P : Z → R → bool) (t : gmap Z R) : option (Z * R) :=
  head (select P id_desc t).

Definition qmax (a b : Q) : Q := if Qle_bool a b then b else a.
Definition qmin (a b : Q) : Q := if Qle_bool a b then a else b.

(** * Lemmas *)

Section MonadLemmas.
Context `{Env} {D : Type}.
Implicit Types w : World D.

Lemma wp_elim {A} (m : M D A) w Q r w' : wp m w Q → m w = (r, w') → Q r w'.
Proof. unfold wp. intros HQ Hm. by rewrite Hm in HQ. Qed.

Lemma wp_intro {A} (m : M D A) w (Q : res A → World D → Prop) :
  (∀ r w', m w = (r, w') → Q r w') → wp m w Q.
Proof. unfold wp. destruct (m w) eqn:E. auto. Qed.

Lemma wp_mono {A} (m : M D A) w (P Q : res A → World D → Prop) :
  wp m w P → (∀ r w', P r w' → Q r w') → wp m w Q.
Proof. unfold wp. destruct (m w). auto. Qed.

Lemma wp_and {A} (m : M D A) w (P Q : res A → World D → Prop) :
  wp m w P → wp m w Q → wp m w (λ r w', P r w' ∧ Q r w').
Proof. unfold wp. destruct (m w). auto. Qed.

Lemma wp_ret {A} (a : A) w (Q : res A → World D → Prop) : Q (Ok a) w → wp (mret a) w Q.
Proof. done. Qed.

Lemma wp_lift {A} (r : res A) w (Q : res A → World D → Prop) : Q r w → wp (lift r) w Q.
Proof. done. Qed.

Lemma wp_throw {A} e w (Q : res A → World D → Prop) : Q (Err e) w → wp (throw e) w Q.
Proof. done. Qed.

Lemma wp_bind {A B} (m : M D A) (f : A → M D B) w Q :
  wp m w (λ r w', match r with Ok a => wp (f a) w' Q | Err e => Q (Err e) w' end) →
  wp (m ≫= f) w Q.
Proof. unfold wp, mbind, m_bind. destruct (m w) as [[a|e] w']; auto. Qed.

Lemma wp_now w Q : (∀ t n, Q (Ok t) (mkWorld n (w_db w))) → wp now w Q.
Proof. intros HQ. apply HQ. Qed.

Lemma wp_stmt {A} (f : D → res (A * D)) w Q :
  (∀ e n, fault_error e ∨ f (w_db w) = Err e → Q (Err e) (mkWorld n (w_db w))) →
  (∀ a d n, f (w_db w) = Ok (a, d) → Q (Ok a) (mkWorld n d)) →
  wp (stmt f) w Q.
Proof.
  intros He Ho. unfold wp, stmt. destruct (env_fault (w_tick w)) as [m|] eqn:Ef.
  - apply He. left. by exists (w_tick w), m.
  - destruct (f (w_db w)) as [[a d]|e]; [by apply Ho|apply He; auto].
Qed.

Lemma wp_query {A} (f : D → res A) w Q :
  (∀ e n, fault_error e ∨ f (w_db w) = Err e → Q (Err e) (mkWorld n (w_db w))) →
  (∀ a n, f (w_db w) = Ok a → Q (Ok a) (mkWorld n (w_db w))) →
  wp (query f) w Q.
Proof.
  intros He Ho. apply wp_stmt.
  - intros e n [Hf|Hf]; apply He; auto. unfold mbind in Hf. simpl in Hf.
    destruct (f (w_db w)); [done|]. injection Hf as ->. by right.
  - intros a d n Hf. unfold mbind in Hf. simpl in Hf.
    destruct (f (w_db w)) as [a'|]; [|done]. injection Hf as -> <-. by apply Ho.
Qed.

Lemma wp_exec {A} (f : D → A * D) w Q :
  (∀ e n, fault_error e → Q (Err e) (mkWorld n (w_db w))) →
  (∀ n, Q (Ok (f (w_db w)).1) (mkWorld n (f (w_db w)).2)) →
  wp (exec f) w Q.
Proof.
  intros He Ho. apply wp_stmt.
  - intros e n [Hf|Hf]; [by apply He|done].
  - intros a d n Hf. injection Hf as Hf. specialize (Ho n).
    destruct (f (w_db w)) as [a' d'] eqn:E. by injection Hf as <- <-.
Qed.

Lemma wp_transaction {A} (body : M D (txr A)) w Q :
  (∀ e n, fault_error e → Q (Err e) (mkWorld n (w_db w))) →
  (∀ n, wp body (mkWorld n (w_db w)) (λ r w2, match r with
       | Ok (Commit a) => ∀ n, Q (Ok a) (mkWorld n (w_db w2))
       | Ok (Rollback a) => ∀ n, Q (Ok a) (mkWorld n (w_db w))
       | Err e => ∀ n, Q (Err e) (mkWorld n (w_db w))
       end)) →
  wp (transaction body) w Q.
Proof.
  intros He Hb. unfold wp, transaction. destruct (env_fault (w_tick w)) as [m|] eqn:Ef.
  { apply He. by exists (w_tick w), m. }
  specialize (Hb (S (w_tick w))). unfold wp in Hb. unfold tick at 1.
  destruct (body _) as [[[a|a]|e] w1]; [|by apply Hb..].
  destruct (env_fault (w_tick w1)) as [m|] eqn:Ef1; [|by apply Hb].
  apply He. by exists (w_tick w1), m.
Qed.

Lemma wp_attempt {A} (m : M D A) w Q : wp m w (λ r w', Q (Ok r) w') → wp (attempt m) w Q.
Proof. unfold wp, attempt. by destruct (m w). Qed.

Lemma wp_wrap {A} p (m : M D A) w Q :
  wp m w (λ r w', Q (wrap_err p r) w') → wp (wrap p m) w Q.
Proof. unfold wp, wrap. by destruct (m w). Qed.

(** Forgetting the value of a call keeps what is known of the state it leaves. *)
Lemma wp_forget {A} (m : M D A) w (Q : World D → Prop) :
  wp m w (λ _ w', Q w') → wp (_ ← m; mret tt) w (λ _ w', Q w').
Proof. intros Hm. apply wp_bind. eapply wp_mono; [exact Hm|]. by intros [a|e] w' HQ. Qed.

(** A driver call that cannot fail does not. *)
Lemma no_fault_error e : (∀ n, env_fault n = None) → fault_error e → False.
Proof. intros Hn (n & m & Hf & _). congruence. Qed.

End MonadLemmas.

Lemma quiet_ok n : @env_fault quiet n = None.
Proof. done. Qed.

(** Runs the program symbolically; every driver call yields its failing case. *)
Ltac wp_step :=
  match goal with
  | |- wp (mbind _ _) _ _ => apply wp_bind
  | |- wp (mret _) _ _ => apply wp_ret
  | |- wp (lift _) _ _ => apply wp_lift
  | |- wp (throw _) _ _ => apply wp_throw
  | |- wp now _ _ => apply wp_now; intros ? ?
  | |- wp (query _) _ _ => apply wp_query; [intros ? ? ?|intros ? ? ?]
  | |- wp (exec _) _ _ => apply wp_exec; [intros ? ? ?|intros ?]
  | |- wp (stmt _) _ _ => apply wp_stmt; [intros ? ? ?|intros ? ? ? ?]
  | |- wp (transaction _) _ _ => apply wp_transaction; [intros ? ? ?|intros ?]
  | |- wp (attempt _) _ _ => apply wp_attempt
  | |- wp (wrap _ _) _ _ => apply wp_wrap
  | |- wp (if ?b then _ else _) _ _ => let E := fresh "Hb" in destruct b eqn:E
  | |- wp (match ?o with Some _ => _ | None => _ end) _ _ => let E := fresh "Ho" in destruct o eqn:E
  | |- wp (match ?o with Ok _ => _ | Err _ => _ end) _ _ => let E := fresh "Hr" in destruct o eqn:E
  | |- wp (let '(_, _) := ?p in _) _ _ => let E := fresh "Hp" in destruct p eqn:E
  end.
Ltac wp_run := repeat (wp_step; simpl in * ).

Section TableLemmas.
Context {K : Type} `{Countable K} {R : Type}.
Implicit Types t : gmap K R.
Implicit Types P : K → R → bool.

Lemma lookup_update_where P f t k :
  update_where P f t !! k = (λ r, if P k r then f r else r) <$> t !! k.
Proof. unfold update_where. rewrite map_lookup_imap. by destruct (t !! k). Qed.

Lemma elem_of_rows_where P t k r : (k, r) ∈ rows_where P t ↔ t !! k = Some r ∧ P k r = true.
Proof.
  unfold rows_where. rewrite list_elem_of_filter, elem_of_map_to_list. simpl. naive_solver.
Qed.

Lemma count_where_zero P t :
  count_where P t = 0 ↔ ∀ k r, t !! k = Some r → P k r = false.
Proof.
  unfold count_where. split.
  - intros Hl k r Hk. apply nil_length_inv in Hl.
    destruct (P k r) eqn:E; [|done]. assert ((k, r) ∈ rows_where P t) as Hin by (by apply elem_of_rows_where).
    rewrite Hl in Hin. by apply not_elem_of_nil in Hin.
  - intros Hall. destruct (rows_where P t) as [|[k r] l] eqn:E; [done|].
    assert ((k, r) ∈ rows_where P t) as Hin by (rewrite E; by left).
    apply elem_of_rows_where in Hin as [Hk HP]. by rewrite (Hall k r Hk) in HP.
Qed.

Lemma rows_where_insert P t k r :
  t !! k = None →
  rows_where P (<[k:=r]> t) ≡ₚ (if P k r then [(k, r)] else []) ++ rows_where P t.
Proof.
  intros Hk. unfold rows_where. rewrite map_to_list_insert by done. simpl.
  rewrite filter_cons. case_decide as HP; simpl in HP; [by rewrite HP|].
  by apply not_true_is_false in HP as ->.
Qed.

Lemma rows_where_split P t k r :
  t !! k = Some r →
  rows_where P t ≡ₚ (if P k r then [(k, r)] else []) ++ rows_where P (delete k t).
Proof.
  intros Hk. rewrite <-(insert_delete_id t k r) at 1 by done.
  apply rows_where_insert, lookup_delete_eq.
Qed.

Lemma rows_where_ext P P' t :
  (∀ k r, t !! k = Some r → P k r = P' k r) → rows_where P t = rows_where P' t.
Proof.
  intros Hext. unfold rows_where.
  assert (∀ l : list (K * R), (∀ kr, kr ∈ l → P kr.1 kr.2 = P' kr.1 kr.2) →
    filter (λ kr, P kr.1 kr.2 = true) l = filter (λ kr, P' kr.1 kr.2 = true) l) as Hl.
  { induction l as [|x l IH]; intros Hx; [done|]. rewrite !filter_cons, IH by (intros; apply Hx; by right).
    specialize (Hx x ltac:(by left)). repeat case_decide; congruence. }
  apply Hl. intros [k r] Hin. apply elem_of_map_to_list in Hin. by apply Hext.
Qed.

Lemma sum_rows_perm (f : R → Z) (l l' : list (K * R)) :
  l ≡ₚ l' →
  foldr (λ kr s, (f kr.2 + s)%Z) 0%Z l = foldr (λ kr s, (f kr.2 + s)%Z) 0%Z l'.
Proof. induction 1; simpl; lia. Qed.

Lemma sum_where_split f P t k r :
  t !! k = Some r →
  sum_where f P t = ((if P k r then f r else 0) + sum_where f P (delete k t))%Z.
Proof.
  intros Hk. unfold sum_where. rewrite (sum_rows_perm _ _ _ (rows_where_split P t k r Hk)).
  destruct (P k r); simpl; lia.
Qed.

Lemma sum_where_nonneg f P t :
  (∀ k r, t !! k = Some r → 0 ≤ f r)%Z → (0 ≤ sum_where f P t)%Z.
Proof.
  intros Hf. unfold sum_where. assert (∀ kr, kr ∈ rows_where P t → 0 ≤ f kr.2)%Z as Hl.
  { intros [k r] Hin%elem_of_rows_where. destruct Hin. simpl. eauto. }
  induction (rows_where P t) as [|x l IH]; simpl; [lia|].
  specialize (Hl x ltac:(by left)) as Hx. assert (0 ≤ foldr (λ kr s, (f kr.2 + s)%Z) 0%Z l)%Z; [|lia].
  apply IH. intros kr Hkr. apply Hl. by right.
Qed.

Lemma sum_where_le f P P' t :
  (∀ k r, t !! k = Some r → 0 ≤ f r)%Z → (∀ k r, P k r = true → P' k r = true) →
  (sum_where f P t ≤ sum_where f P' t)%Z.
Proof.
  intros Hf HP. unfold sum_where, rows_where.
  assert (∀ kr, kr ∈ map_to_list t → 0 ≤ f kr.2)%Z as Hl.
  { intros [k r] Hin%elem_of_map_to_list. simpl. eauto. }
  induction (map_to_list t) as [|x l IH]; simpl; [done|]. rewrite !filter_cons.
  assert (0 ≤ f x.2)%Z by (apply Hl; by left).
  specialize (IH ltac:(intros kr Hkr; apply Hl; by right)).
  repeat case_decide; simpl; try lia. exfalso. naive_solver.
Qed.

Lemma count_where_le P P' t :
  (∀ k r, P k r = true → P' k r = true) → count_where P t ≤ count_where P' t.
Proof.
  intros HP. unfold count_where, rows_where.
  induction (map_to_list t) as [|x l IH]; simpl; [done|]. rewrite !filter_cons.
  repeat case_decide; simpl; try lia. exfalso. naive_solver.
Qed.

Lemma count_by_key id Q t :
  count_where (by_key id Q) t = match t !! id with Some r => if Q r then 1 else 0 | None => 0 end.
Proof.
  destruct (t !! id) as [r|] eqn:E.
  - unfold count_where. rewrite (rows_where_split _ t id r E), length_app.
    assert (length (rows_where (by_key id Q) (delete id t)) = 0) as ->.
    { apply count_where_zero. intros k r' Hk. unfold by_key. apply andb_false_iff. left.
      apply bool_decide_eq_false. intros ->. by rewrite lookup_delete_eq in Hk. }
    unfold by_key. rewrite bool_decide_true by done. simpl. by destruct (Q r).
  - apply count_where_zero. intros k r Hk. unfold by_key. apply andb_false_iff. left.
    apply bool_decide_eq_false. intros ->. congruence.
Qed.

Lemma update_by_key id Q f t :
  update_where (by_key id Q) f t =
  match t !! id with Some r => if Q r then <[id := f r]> t else t | None => t end.
Proof.
  apply map_eq. intros k. rewrite lookup_update_where. unfold by_key.
  destruct (decide (k = id)) as [->|Hk].
  - rewrite bool_decide_true by done. destruct (t !! id) as [r|] eqn:E; simpl; [|done].
    destruct (Q r); [by rewrite lookup_insert_eq|by rewrite E].
  - rewrite bool_decide_false by done. simpl. destruct (t !! id) as [r|] eqn:E.
    + destruct (Q r); rewrite ?lookup_insert_ne by done; by destruct (t !! k).
    + by destruct (t !! k).
Qed.

(** The two readings of an update restricted to one key. *)
Lemma lookup_update_by_key id Q f t k :
  update_where (by_key id Q) f t !! k =
  (λ r, if bool_decide (k = id) && Q r then f r else r) <$> t !! k.
Proof. by rewrite lookup_update_where. Qed.

Lemma update_where_none P f t :
  count_where P t = 0 → update_where P f t = t.
Proof.
  rewrite count_where_zero. intros Hz. apply map_eq. intros k. rewrite lookup_update_where.
  destruct (t !! k) as [r|] eqn:E; simpl; [|done]. by rewrite (Hz k r E).
Qed.

Lemma lookup_delete_where P t k :
  delete_where P t !! k = t !! k ≫= λ r, if P k r then None else Some r.
Proof.
  unfold delete_where. apply option_eq. intros r'. rewrite map_lookup_filter_Some. simpl.
  destruct (t !! k) as [r|]; simpl; [|split; [by intros [??]|done]].
  destruct (P k r) eqn:E; split; [intros [[= ->] ?]; congruence|done|by intros [[= ->] _]|by intros [= ->]].
Qed.

Lemma elem_of_select P le t k r :
  (k, r) ∈ select P le t ↔ t !! k = Some r ∧ P k r = true.
Proof. unfold select. by rewrite merge_sort_Permutation, elem_of_rows_where. Qed.

End TableLemmas.

Section LastRow.
Context {R : Type}.
Implicit Types t : gmap Z R.

#[global] Instance id_desc_total : Total (λ x y : Z * R, id_desc x y = true).
Proof. intros x y. unfold id_desc. rewrite !Z.leb_le. lia. Qed.
#[global] Instance id_desc_trans : Transitive (λ x y : Z * R, id_desc x y = true).
Proof. intros x y z. unfold id_desc. rewrite !Z.leb_le. lia. Qed.

Lemma last_row_some P t k r :
  last_row P t = Some (k, r) ↔
  t !! k = Some r ∧ P k r = true ∧ ∀ k' r', t !! k' = Some r' → P k' r' = true → (k' ≤ k)%Z.
Proof.
  unfold last_row. assert (StronglySorted (λ x y, id_desc x y = true) (select P id_desc t)) as Hs.
  { apply StronglySorted_merge_sort; apply _. }
  assert (∀ k r, (k, r) ∈ select P id_desc t ↔ t !! k = Some r ∧ P k r = true) as Hin
    by (intros; apply elem_of_select).
  split.
  - destruct (select P id_desc t) as [|[k0 r0] l]; [done|]. intros [= -> ->].
    destruct (proj1 (Hin k r) ltac:(by left)) as [Hk HP]. split; [done|]. split; [done|].
    intros k' r' Hk' HP'. apply StronglySorted_inv in Hs as [_ Hall].
    assert ((k', r') ∈ (k, r) :: l) as [[= -> ->]|Hl]%elem_of_cons by (by apply Hin); [lia|].
    rewrite Forall_forall in Hall. specialize (Hall _ Hl). unfold id_desc in Hall. simpl in Hall. lia.
  - intros (Hk & HP & Hmax). destruct (select P id_desc t) as [|[k0 r0] l].
    + assert ((k, r) ∈ @nil (Z * R)) as Hn by (by apply Hin). by apply not_elem_of_nil in Hn.
    + simpl. destruct (proj1 (Hin k0 r0) ltac:(by left)) as [Hk0 HP0].
      assert ((k, r) ∈ (k0, r0) :: l) as [[= -> ->]|Hl]%elem_of_cons by (by apply Hin); [done|].
      apply StronglySorted_inv in Hs as [_ Hall]. rewrite Forall_forall in Hall.
      specialize (Hall _ Hl). unfold id_desc in Hall. simpl in Hall.
      specialize (Hmax k0 r0 Hk0 HP0). assert (k0 = k) as -> by lia. congruence.
Qed.

Lemma last_row_none P t :
  last_row P t = None ↔ ∀ k r, t !! k = Some r → P k r = false.
Proof.
  unfold last_row. split.
  - intros Hn k r Hk. destruct (P k r) eqn:E; [|done].
    assert ((k, r) ∈ select P id_desc t) as Hin by (by apply elem_of_select).
    destruct (select P id_desc t); [by apply not_elem_of_nil in Hin|done].
  - intros Hall. destruct (select P id_desc t) as [|[k r] l] eqn:E; [done|].
    assert ((k, r) ∈ select P id_desc t) as Hin by (rewrite E; by left).
    apply elem_of_select in Hin as [Hk HP]. by rewrite (Hall k r Hk) in HP.
Qed.

End LastRow.

Lemma qmax_ge_l a b : (a <= qmax a b)%Q.
Proof.
  unfold qmax. destruct (Qle_bool a b) eqn:E; [by apply Qle_bool_iff|apply Qle_refl].
Qed.
Lemma qmax_ge_r a b : (b <= qmax a b)%Q.
Proof.
  unfold qmax. destruct (Qle_bool a b) eqn:E; [apply Qle_refl|].
  apply Qnot_lt_le. intros Hlt. apply Qlt_le_weak, Qle_bool_iff in Hlt. congruence.
Qed.

Lemma qmax_lub a b c : (a <= c)%Q → (b <= c)%Q → (qmax a b <= c)%Q.
Proof. intros. unfold qmax. by destruct (Qle_bool a b). Qed.
Lemma qmin_le_l a b : (qmin a b <= a)%Q.
Proof.
  unfold qmin. destruct (Qle_bool a b) eqn:E; [apply Qle_refl|].
  apply Qnot_lt_le. intros Hlt. apply Qlt_le_weak, Qle_bool_iff in Hlt. congruence.
Qed.
Lemma qmin_le_r a b : (qmin a b <= b)%Q.
Proof. unfold qmin. destruct (Qle_bool a b) eqn:E; [by apply Qle_bool_iff|apply Qle_refl]. Qed.
Lemma qmin_glb a b c : (c <= a)%Q → (c <= b)%Q → (c <= qmin a b)%Q.
Proof. intros. unfold qmin. by destruct (Qle_bool a b). Qed.

(** Discharges the driver failures of an environment that has none. *)
Ltac no_faults Hf :=
  repeat match goal with
  | Hfe : fault_error _ |- _ => by destruct (no_fault_error _ Hf Hfe)
  | Hfe : fault_error _ ∨ _ |- _ => destruct Hfe as [Hfe|Hfe]
  end.
