(* ===== verification/Schema.v ===== *)
(** The rows of the SQLite store ([src/internal/domain], and the schema of
    [src/internal/storage/sqlite.go]).

    A row record holds the columns other than the primary key, which is the key
    of the table's map.  Nullable columns the code leaves NULL are options; JSON
    columns hold the decoded value (the codec of [encoding/json] round-trips on
    them); times are instants in nanoseconds. *)
From S2P Require Import Prelude GoStrings Sql.

(** ** Dynamic payload values

    [any] as the task payloads use it: [VStrings] is a Go [[]string], which
    becomes a [VArray] of strings once it has been stored as JSON and read back;
    [VInt] is a Go [int], [VFloat] a [float64]. *)
Inductive value : Type :=
| VNull
| VBool (b : bool)
| VInt (z : Z)
| VFloat (q : Q)
| VString (s : string)
| VStrings (l : list string)
| VArray (l : list value)
| VObject (fields : list (string * value)).

(** [json.Unmarshal(json.Marshal(v))] into [any]. *)
Fixpoint value_roundtrip (v : value) : value :=
  match v with
  | VInt z => VFloat (inject_Z z)
  | VStrings l => VArray (VString <$> l)
  | VArray l => VArray (map value_roundtrip l)
  | VObject fs => VObject (map (λ kv, (kv.1, value_roundtrip kv.2)) fs)
  | _ => v
  end.

Abbreviation payload := (gmap string value).

Definition payload_roundtrip (p : payload) : payload := value_roundtrip <$> p.

(** The zero [time.Time]: January 1 of year 1, in nanoseconds from the epoch. *)
Definition time_zero : Z := (-62135596800000000000)%Z.

(** ** Rows *)

Module AsyncTask.
Record t := mk {
  Type_ : string; ScheduleID : string; Payload : payload; Status : string;
  Progress : Q; Result : string; Error : string; Attempts : Z; MaxAttempts : Z;
  CreatedAt : Z; UpdatedAt : Z
}.
Definition set_state (status : string) (progress : Q) (result err : string) (attempts : Z) (updated : Z) (r : t) : t :=
  mk (Type_ r) (ScheduleID r) (Payload r) status progress result err attempts (MaxAttempts r) (CreatedAt r) updated.
Definition set_max (max : Z) (r : t) : t :=
  mk (Type_ r) (ScheduleID r) (Payload r) (Status r) (Progress r) (Result r) (Error r) (Attempts r) max (CreatedAt r) (UpdatedAt r).
End AsyncTask.

Module TaskRun.
Record t := mk {
  TaskID : string; Attempt : Z; Status : string; Progress : Q; Logs : list string;
  Error : option string; StartedAt : Z; CompletedAt : option Z
}.
Definition set_progress (p : Q) (r : t) : t :=
  mk (TaskID r) (Attempt r) (Status r) p (Logs r) (Error r) (StartedAt r) (CompletedAt r).
Definition set_logs (l : list string) (r : t) : t :=
  mk (TaskID r) (Attempt r) (Status r) (Progress r) l (Error r) (StartedAt r) (CompletedAt r).
Definition finish (status : string) (p : Q) (l : list string) (err : string) (at_ : Z) (r : t) : t :=
  mk (TaskID r) (Attempt r) status p l (Some err) (StartedAt r) (Some at_).
End TaskRun.

Module ScheduledTask.
Record t := mk {
  Type_ : string; Name : string; CronExpr : string; Status : string; Progress : Q;
  Params : string; Result : string; Error : string;
  LastRunAt : option Z; NextRunAt : option Z; CreatedAt : Z; UpdatedAt : Z
}.
(** [t.Enabled = t.Status != "paused"]. *)
Definition Enabled (r : t) : bool := negb (bool_decide (Status r = "paused")).
Definition launched (at_ : Z) (result : string) (r : t) : t :=
  mk (Type_ r) (Name r) (CronExpr r) (Status r) (Progress r) (Params r) result ""
     (Some at_) (NextRunAt r) (CreatedAt r) at_.
End ScheduledTask.

Module CrossDriveImport.
Record t := mk {
  PriorTaskID : string; Phase : string; QuarkAccountID : string; QuarkTargetID : string;
  C115AccountID : string; SelectedSourceIDs : list string;
  AutofillLibraryName : string; AutofillLibraryID : string; AutofillLibraryCID : string;
  AutofillSeriesID : string; AutofillTMDBID : string; AutofillSeriesFolder : string;
  ExpectedEpisodes : list string; SavedRootIDs : list string; DestinationCID : string;
  TotalFiles : Z; CompletedFiles : Z; TotalBytes : Z; CompletedBytes : Z;
  CurrentFile : string; CancelRequested : bool; RunOwner : option string; Error : string;
  CreatedAt : Z; UpdatedAt : Z
}.
(** The columns the statements assign, everything else kept. *)
Definition set_progress (phase : string) (roots : list string) (dest current err : string)
    (owner : option string) (updated : Z) (r : t) : t :=
  mk (PriorTaskID r) phase (QuarkAccountID r) (QuarkTargetID r) (C115AccountID r)
     (SelectedSourceIDs r) (AutofillLibraryName r) (AutofillLibraryID r) (AutofillLibraryCID r)
     (AutofillSeriesID r) (AutofillTMDBID r) (AutofillSeriesFolder r) (ExpectedEpisodes r)
     roots dest (TotalFiles r) (CompletedFiles r) (TotalBytes r) (CompletedBytes r)
     current (CancelRequested r) owner err (CreatedAt r) updated.
Definition set_counts (tf cf tb cb : Z) (cancel : bool) (updated : Z) (r : t) : t :=
  mk (PriorTaskID r) (Phase r) (QuarkAccountID r) (QuarkTargetID r) (C115AccountID r)
     (SelectedSourceIDs r) (AutofillLibraryName r) (AutofillLibraryID r) (AutofillLibraryCID r)
     (AutofillSeriesID r) (AutofillTMDBID r) (AutofillSeriesFolder r) (ExpectedEpisodes r)
     (SavedRootIDs r) (DestinationCID r) tf cf tb cb
     (CurrentFile r) cancel (RunOwner r) (Error r) (CreatedAt r) updated.
End CrossDriveImport.

Module CrossDriveItem.
Record t := mk {
  TaskID : string; SourceFileID : string; SourceRevision : string; RelativePath : string;
  Name : string; Size : Z; SHA1 : string; PreSHA1 : option string; State : string;
  SpoolPath : option string; DownloadedBytes : Z; DestinationParent : option string;
  DestinationID : option string; UploadID : option string; UploadBucket : option string;
  UploadObject : option string; Error : option string; UpdatedAt : Z
}.
Definition set_sha (sha : string) (updated : Z) (r : t) : t :=
  mk (TaskID r) (SourceFileID r) (SourceRevision r) (RelativePath r) (Name r) (Size r) sha (PreSHA1 r)
     (State r) (SpoolPath r) (DownloadedBytes r) (DestinationParent r) (DestinationID r)
     (UploadID r) (UploadBucket r) (UploadObject r) (Error r) updated.
Definition set_download (state : string) (spool : option string) (bytes : Z) (err : option string) (updated : Z) (r : t) : t :=
  mk (TaskID r) (SourceFileID r) (SourceRevision r) (RelativePath r) (Name r) (Size r) (SHA1 r) (PreSHA1 r)
     state spool bytes (DestinationParent r) (DestinationID r)
     (UploadID r) (UploadBucket r) (UploadObject r) err updated.
Definition set_hashes (sha : string) (pre : string) (r : t) : t :=
  mk (TaskID r) (SourceFileID r) (SourceRevision r) (RelativePath r) (Name r) (Size r) sha (Some pre)
     (State r) (SpoolPath r) (DownloadedBytes r) (DestinationParent r) (DestinationID r)
     (UploadID r) (UploadBucket r) (UploadObject r) (Error r) (UpdatedAt r).
Definition set_upload (state : string) (id bucket object : string) (updated : Z) (r : t) : t :=
  mk (TaskID r) (SourceFileID r) (SourceRevision r) (RelativePath r) (Name r) (Size r) (SHA1 r) (PreSHA1 r)
     state (SpoolPath r) (DownloadedBytes r) (DestinationParent r) (DestinationID r)
     (Some id) (Some bucket) (Some object) (Error r) updated.
Definition set_verified (parent destination : string) (updated : Z) (r : t) : t :=
  mk (TaskID r) (SourceFileID r) (SourceRevision r) (RelativePath r) (Name r) (Size r) (SHA1 r) (PreSHA1 r)
     "verified" (SpoolPath r) (DownloadedBytes r) (Some parent) (Some destination)
     (UploadID r) (UploadBucket r) (UploadObject r) (Some "") updated.
End CrossDriveItem.

(** A row of [cross_drive_upload_parts], keyed by item and part number. *)
Record CrossDriveUploadPart := mkPart { part_ETag : string; part_Size : Z }.

Module AgentToken.
Record t := mk {
  Token : string; Name : string; Role : string; Scopes : list string; RateLimit : Z;
  Enabled : bool; LastUsedAt : option Z; CreatedAt : Z
}.
Definition touch (at_ : Z) (r : t) : t :=
  mk (Token r) (Name r) (Role r) (Scopes r) (RateLimit r) (Enabled r) (Some at_) (CreatedAt r).
End AgentToken.

Record DestructiveTarget := mkTarget { tg_FileID : string; tg_Name : string; tg_IsFolder : bool; tg_Size : Z }.

Module Approval.
Record t := mk {
  Action : string; AccountID : string; ParentCID : string; Targets : list DestructiveTarget;
  Status : string; RequestedBy : string; ApprovedBy : option string; Error : option string;
  ExpiresAt : Z; CreatedAt : Z; DecidedAt : option Z; ExecutedAt : option Z
}.
Definition set_status (s : string) (r : t) : t :=
  mk (Action r) (AccountID r) (ParentCID r) (Targets r) s (RequestedBy r) (ApprovedBy r) (Error r)
     (ExpiresAt r) (CreatedAt r) (DecidedAt r) (ExecutedAt r).
Definition decide_ (s user : string) (at_ : Z) (r : t) : t :=
  mk (Action r) (AccountID r) (ParentCID r) (Targets r) s (RequestedBy r) (Some user) (Error r)
     (ExpiresAt r) (CreatedAt r) (Some at_) (ExecutedAt r).
Definition finish (s err : string) (at_ : Z) (r : t) : t :=
  mk (Action r) (AccountID r) (ParentCID r) (Targets r) s (RequestedBy r) (ApprovedBy r) (Some err)
     (ExpiresAt r) (CreatedAt r) (DecidedAt r) (Some at_).
End Approval.

Module DriveAccount.
Record t := mk {
  Type_ : string; Name : string; Cookie : string; Token : string; IsDefault : bool; Status : string;
  QuotaUsed : Z; QuotaTotal : Z; VIPLevel : Z; VIPExpiresAt : option Z; CreatedAt : Z; UpdatedAt : Z
}.
Definition set_default (b : bool) (r : t) : t :=
  mk (Type_ r) (Name r) (Cookie r) (Token r) b (Status r) (QuotaUsed r) (QuotaTotal r) (VIPLevel r)
     (VIPExpiresAt r) (CreatedAt r) (UpdatedAt r).
Definition set_identity (type_ name cookie : string) (updated : Z) (r : t) : t :=
  mk type_ name cookie (Token r) (IsDefault r) (Status r) (QuotaUsed r) (QuotaTotal r) (VIPLevel r)
     (VIPExpiresAt r) (CreatedAt r) updated.
Definition set_created (created : Z) (r : t) : t :=
  mk (Type_ r) (Name r) (Cookie r) (Token r) (IsDefault r) (Status r) (QuotaUsed r) (QuotaTotal r) (VIPLevel r)
     (VIPExpiresAt r) created (UpdatedAt r).
End DriveAccount.

Module ShareSubscription.
Record t := mk {
  Name : string; Provider : string; URL : string; Password : string; TargetCID : string;
  Active : bool; LastCursorTime : Z; LastError : option string; LastSyncAt : option Z;
  CreatedAt : Z; UpdatedAt : Z
}.
End ShareSubscription.

(** ** The database *)

Record Database := mkDatabase {
  accounts : gmap string DriveAccount.t;
  schedules : gmap string ScheduledTask.t;
  tasks : gmap string AsyncTask.t;
  runs : gmap Z TaskRun.t;
  runs_seq : Z;
  imports : gmap string CrossDriveImport.t;
  items : gmap Z CrossDriveItem.t;
  items_seq : Z;
  parts : gmap (Z * Z) CrossDriveUploadPart;
  segments : gmap (string * Z) Z;
  tokens : gmap string AgentToken.t;
  approvals : gmap string Approval.t;
  settings : gmap string (string * Z);
  configs : gmap string (string * string * Z);
  subscriptions : gmap string ShareSubscription.t
}.

(** Replacing one table. *)
Definition set_accounts x0 (d : Database) : Database :=
  mkDatabase x0 (schedules d) (tasks d) (runs d) (runs_seq d) (imports d) (items d) (items_seq d) (parts d) (segments d) (tokens d) (approvals d) (settings d) (configs d) (subscriptions d).
Definition set_schedules x0 (d : Database) : Database :=
  mkDatabase (accounts d) x0 (tasks d) (runs d) (runs_seq d) (imports d) (items d) (items_seq d) (parts d) (segments d) (tokens d) (approvals d) (settings d) (configs d) (subscriptions d).
Definition set_tasks x0 (d : Database) : Database :=
  mkDatabase (accounts d) (schedules d) x0 (runs d) (runs_seq d) (imports d) (items d) (items_seq d) (parts d) (segments d) (tokens d) (approvals d) (settings d) (configs d) (subscriptions d).
Definition set_imports x0 (d : Database) : Database :=
  mkDatabase (accounts d) (schedules d) (tasks d) (runs d) (runs_seq d) x0 (items d) (items_seq d) (parts d) (segments d) (tokens d) (approvals d) (settings d) (configs d) (subscriptions d).
Definition set_parts x0 (d : Database) : Database :=
  mkDatabase (accounts d) (schedules d) (tasks d) (runs d) (runs_seq d) (imports d) (items d) (items_seq d) x0 (segments d) (tokens d) (approvals d) (settings d) (configs d) (subscriptions d).
Definition set_segments x0 (d : Database) : Database :=
  mkDatabase (accounts d) (schedules d) (tasks d) (runs d) (runs_seq d) (imports d) (items d) (items_seq d) (parts d) x0 (tokens d) (approvals d) (settings d) (configs d) (subscriptions d).
Definition set_tokens x0 (d : Database) : Database :=
  mkDatabase (accounts d) (schedules d) (tasks d) (runs d) (runs_seq d) (imports d) (items d) (items_seq d) (parts d) (segments d) x0 (approvals d) (settings d) (configs d) (subscriptions d).
Definition set_approvals x0 (d : Database) : Database :=
  mkDatabase (accounts d) (schedules d) (tasks d) (runs d) (runs_seq d) (imports d) (items d) (items_seq d) (parts d) (segments d) (tokens d) x0 (settings d) (configs d) (subscriptions d).
Definition set_settings x0 (d : Database) : Database :=
  mkDatabase (accounts d) (schedules d) (tasks d) (runs d) (runs_seq d) (imports d) (items d) (items_seq d) (parts d) (segments d) (tokens d) (approvals d) x0 (configs d) (subscriptions d).
Definition set_configs x0 (d : Database) : Database :=
  mkDatabase (accounts d) (schedules d) (tasks d) (runs d) (runs_seq d) (imports d) (items d) (items_seq d) (parts d) (segments d) (tokens d) (approvals d) (settings d) x0 (subscriptions d).
Definition set_subscriptions x0 (d : Database) : Database :=
  mkDatabase (accounts d) (schedules d) (tasks d) (runs d) (runs_seq d) (imports d) (items d) (items_seq d) (parts d) (segments d) (tokens d) (approvals d) (settings d) (configs d) x0.
Definition set_runs x0 x1 (d : Database) : Database :=
  mkDatabase (accounts d) (schedules d) (tasks d) x0 x1 (imports d) (items d) (items_seq d) (parts d) (segments d) (tokens d) (approvals d) (settings d) (configs d) (subscriptions d).
Definition set_items x0 x1 (d : Database) : Database :=
  mkDatabase (accounts d) (schedules d) (tasks d) (runs d) (runs_seq d) (imports d) x0 x1 (parts d) (segments d) (tokens d) (approvals d) (settings d) (configs d) (subscriptions d).

Definition empty_database : Database :=
  mkDatabase ∅ ∅ ∅ ∅ 0 ∅ ∅ 0 ∅ ∅ ∅ ∅ ∅ ∅ ∅.

(** [sql.NullString.String]. *)
Definition nstr (o : option string) : string := default "" o.

(** [column = ?] on a nullable column: NULL equals nothing. *)
Definition null_eq (o : option string) (s : string) : bool := bool_decide (o = Some s).
