(* ===== verification/TaskStore.v ===== *)
(** The asynchronous task queue's tables: [async_tasks] and [task_runs]
    ([src/internal/storage/sqlite.go], from [prepareAsyncTask] to
    [ListTaskRuns]).  One definition per method of [storage.DB]. *)
From S2P Require Import Prelude GoStrings Sql Schema.

(** ** Operations *)

(** A task with its ID, as [domain.AsyncTask]. *)
Abbreviation task_with_id := (string * AsyncTask.t)%type.

Section TaskStore.
Context `{Env}.
Abbreviation Db := (M Database).

(** [prepareAsyncTask]: defaults, and [UpdatedAt = CreatedAt]. *)
Definition prepareAsyncTask (task : AsyncTask.t) : Db AsyncTask.t :=
  created ← (if Z.eqb (AsyncTask.CreatedAt task) time_zero then now else mret (AsyncTask.CreatedAt task));
  mret (AsyncTask.mk (AsyncTask.Type_ task) (AsyncTask.ScheduleID task) (AsyncTask.Payload task)
    (if bool_decide (AsyncTask.Status task = "") then "pending" else AsyncTask.Status task)
    (AsyncTask.Progress task) (AsyncTask.Result task) (AsyncTask.Error task) (AsyncTask.Attempts task)
    (if Z.leb (AsyncTask.MaxAttempts task) 0 then 1%Z else AsyncTask.MaxAttempts task)
    created created).

(** [insertAsyncTask]: the payload is stored as JSON; the ID is the primary key. *)
Definition insertAsyncTask (id : string) (task : AsyncTask.t) : Db unit :=
  stmt (λ d,
    match tasks d !! id with
    | Some _ => Err (ErrConstraint "UNIQUE constraint failed: async_tasks.id")
    | None => Ok (tt, set_tasks (<[id := AsyncTask.mk (AsyncTask.Type_ task) (AsyncTask.ScheduleID task)
        (payload_roundtrip (AsyncTask.Payload task)) (AsyncTask.Status task) (AsyncTask.Progress task)
        (AsyncTask.Result task) (AsyncTask.Error task) (AsyncTask.Attempts task) (AsyncTask.MaxAttempts task)
        (AsyncTask.CreatedAt task) (AsyncTask.UpdatedAt task)]> (tasks d)) d)
    end).

Definition CreateAsyncTask (id : string) (task : AsyncTask.t) : Db AsyncTask.t :=
  task ← prepareAsyncTask task;
  _ ← insertAsyncTask id task;
  mret task.

Definition with_schedule (scheduleID : string) (task : AsyncTask.t) : AsyncTask.t :=
  AsyncTask.mk (AsyncTask.Type_ task) scheduleID (AsyncTask.Payload task) (AsyncTask.Status task)
    (AsyncTask.Progress task) (AsyncTask.Result task) (AsyncTask.Error task) (AsyncTask.Attempts task)
    (AsyncTask.MaxAttempts task) (AsyncTask.CreatedAt task) (AsyncTask.UpdatedAt task).

Definition CreateScheduledAsyncTask (id : string) (task : AsyncTask.t) (scheduleID : string) : Db AsyncTask.t :=
  task ← prepareAsyncTask (with_schedule scheduleID task);
  transaction (
    _ ← insertAsyncTask id task;
    changed ← exec (λ d,
      let P := by_key scheduleID (λ _, true) in
      (count_where P (schedules d),
       set_schedules (update_where P (ScheduledTask.launched (AsyncTask.CreatedAt task) id) (schedules d)) d));
    if negb (bool_decide (changed = 1)) then
      throw (ErrText ("scheduled task " +:+ scheduleID +:+ " not found"))
    else mret (Commit task)).

(** [ORDER BY created_at DESC, id DESC] and [ORDER BY created_at ASC, id ASC]. *)
Definition newest_first (x y : string * AsyncTask.t) : bool :=
  Z.ltb (AsyncTask.CreatedAt y.2) (AsyncTask.CreatedAt x.2)
  || (Z.eqb (AsyncTask.CreatedAt y.2) (AsyncTask.CreatedAt x.2) && String.leb y.1 x.1).
Definition oldest_first (x y : string * AsyncTask.t) : bool :=
  Z.ltb (AsyncTask.CreatedAt x.2) (AsyncTask.CreatedAt y.2)
  || (Z.eqb (AsyncTask.CreatedAt x.2) (AsyncTask.CreatedAt y.2) && String.leb x.1 y.1).

Definition has_status (s : string) : string → AsyncTask.t → bool :=
  λ _ r, bool_decide (AsyncTask.Status r = s).

Definition ListAsyncTasks (status : string) (lim : Z) : Db (list task_with_id) :=
  query (λ d, Ok (limit lim (select
    (if bool_decide (status = "") then (λ _ _, true) else has_status status) newest_first (tasks d)))).

Definition ListPendingAsyncTasks (lim : Z) : Db (list task_with_id) :=
  query (λ d, Ok (limit lim (select (has_status "pending") oldest_first (tasks d)))).

Definition GetAsyncTask (id : string) : Db AsyncTask.t :=
  query (λ d, match tasks d !! id with Some r => Ok r | None => Err ErrNoRows end).

(** The run [BeginAsyncTask] returns, with its ID. *)
Definition BeginAsyncTask (id : string) : Db (option (Z * TaskRun.t)) :=
  transaction (
    t ← now;
    changed ← exec (λ d,
      let P := by_key id (λ r, bool_decide (AsyncTask.Status r = "pending")
                               && Z.ltb (AsyncTask.Attempts r) (AsyncTask.MaxAttempts r)) in
      (count_where P (tasks d),
       set_tasks (update_where P (λ r, AsyncTask.set_state "running"
         (if bool_decide (AsyncTask.Type_ r = "quark_to_115_import") then AsyncTask.Progress r else 0%Q)
         "" "" (AsyncTask.Attempts r + 1) t r) (tasks d)) d));
    if bool_decide (changed = 0) then mret (Rollback None) else
    row ← query (λ d, match tasks d !! id with
                      | Some r => Ok (AsyncTask.Attempts r, AsyncTask.Progress r)
                      | None => Err ErrNoRows end);
    let '(attempt, progress) := row in
    let run := TaskRun.mk id attempt "running" progress [] None t None in
    runID ← stmt (λ d,
      if negb (bool_decide (is_Some (tasks d !! id))) then
        Err (ErrConstraint "FOREIGN KEY constraint failed")
      else if negb (bool_decide (count_where (λ _ r,
             bool_decide (TaskRun.TaskID r = id) && Z.eqb (TaskRun.Attempt r) attempt) (runs d) = 0)) then
        Err (ErrConstraint "UNIQUE constraint failed: task_runs.task_id, task_runs.attempt")
      else
        let n := (runs_seq d + 1)%Z in
        Ok (n, set_runs (<[n := run]> (runs d)) n d));
    mret (Commit (Some (runID, run)))).

Definition of_task (id : string) : Z → TaskRun.t → bool :=
  λ _ r, bool_decide (TaskRun.TaskID r = id).

Definition UpdateAsyncTaskProgress (id : string) (progress : Q) : Db unit :=
  transaction (
    t ← now;
    _ ← exec (λ d, (tt, set_tasks (update_where
      (by_key id (λ r, bool_decide (AsyncTask.Status r = "running")))
      (λ r, AsyncTask.set_state (AsyncTask.Status r) (qmax (AsyncTask.Progress r) progress)
        (AsyncTask.Result r) (AsyncTask.Error r) (AsyncTask.Attempts r) t r) (tasks d)) d));
    _ ← exec (λ d, (tt, match last_row (of_task id) (runs d) with
      | Some (runID, _) => set_runs (update_where (by_key runID (λ _, true))
          (λ r, TaskRun.set_progress (qmax (TaskRun.Progress r) progress) r) (runs d)) (runs_seq d) d
      | None => d
      end));
    mret (Commit tt)).

Definition AppendTaskLog (id message : string) : Db unit :=
  row ← query (λ d, match last_row (of_task id) (runs d) with
                    | Some (runID, r) => Ok (runID, TaskRun.Logs r)
                    | None => Err ErrNoRows end);
  let '(runID, logs) := row in
  exec (λ d, (tt, set_runs (update_where (by_key runID (λ _, true))
    (TaskRun.set_logs (logs ++ [message])) (runs d)) (runs_seq d) d)).

Definition running_run (id : string) : Z → TaskRun.t → bool :=
  λ _ r, bool_decide (TaskRun.TaskID r = id) && bool_decide (TaskRun.Status r = "running").

Definition FinishAsyncTask (id status : string) (progress : Q) (resultText errText logMessage : string) : Db unit :=
  transaction (
    row ← wrap ("task " +:+ id +:+ " has no running execution record: ")
      (query (λ d, match last_row (running_run id) (runs d) with
                   | Some (runID, r) => Ok (runID, TaskRun.Logs r)
                   | None => Err ErrNoRows end));
    let '(runID, logs) := row in
    let logs := if negb (bool_decide (logMessage = "")) then logs ++ [logMessage] else logs in
    t ← now;
    changed ← exec (λ d,
      let P := by_key id (λ r, bool_decide (AsyncTask.Status r = "running")) in
      (count_where P (tasks d),
       set_tasks (update_where P (λ r, AsyncTask.set_state status progress resultText errText
         (AsyncTask.Attempts r) t r) (tasks d)) d));
    if negb (bool_decide (changed = 1)) then
      throw (ErrText ("task " +:+ id +:+ " is no longer owned by the running worker"))
    else
    changed ← exec (λ d,
      let P := by_key runID (λ r, bool_decide (TaskRun.Status r = "running")) in
      (count_where P (runs d),
       set_runs (update_where P (TaskRun.finish status progress logs errText t) (runs d)) (runs_seq d) d));
    if negb (bool_decide (changed = 1)) then
      throw (ErrText ("task " +:+ id +:+ " lost its running execution record"))
    else mret (Commit tt)).

Definition CancelPendingAsyncTask (id : string) : Db bool :=
  t ← now;
  changed ← exec (λ d,
    let P := by_key id (λ r, bool_decide (AsyncTask.Status r = "pending")) in
    (count_where P (tasks d),
     set_tasks (update_where P (λ r, AsyncTask.set_state "cancelled" (AsyncTask.Progress r)
       (AsyncTask.Result r) "cancelled by operator" (AsyncTask.Attempts r) t r) (tasks d)) d));
  mret (bool_decide (0 < changed)).

Definition interrupted_message : string :=
  "service restarted while task was running; verify upstream state before retrying".
Definition reconcile_message : string :=
  "service restarted; reconciling durable cross-drive checkpoints".

Definition is_import (r : AsyncTask.t) : bool :=
  bool_decide (AsyncTask.Type_ r = "quark_to_115_import").
Definition is_running (r : AsyncTask.t) : bool :=
  bool_decide (AsyncTask.Status r = "running").

Definition RecoverInterruptedAsyncTasks : Db unit :=
  transaction (
    t ← now;
    _ ← exec (λ d, (tt, set_tasks (update_where (λ _ r, is_running r && negb (is_import r))
      (λ r, AsyncTask.set_state "failed" (AsyncTask.Progress r) (AsyncTask.Result r) interrupted_message
        (AsyncTask.Attempts r) t r) (tasks d)) d));
    _ ← exec (λ d, (tt, set_tasks (update_where (λ _ r, is_running r && is_import r)
      (λ r, AsyncTask.set_max (Z.max (AsyncTask.MaxAttempts r) (AsyncTask.Attempts r + 1))
        (AsyncTask.set_state "pending" (AsyncTask.Progress r) (AsyncTask.Result r) reconcile_message
          (AsyncTask.Attempts r) t r)) (tasks d)) d));
    _ ← exec (λ d, (tt, set_imports (update_where
      (λ task _, match tasks d !! task with
                 | Some r => is_import r && bool_decide (AsyncTask.Status r = "pending")
                 | None => false end)
      (λ r, CrossDriveImport.set_progress (CrossDriveImport.Phase r) (CrossDriveImport.SavedRootIDs r)
        (CrossDriveImport.DestinationCID r) (CrossDriveImport.CurrentFile r) reconcile_message None t r)
      (imports d)) d));
    _ ← exec (λ d, (tt, set_runs (update_where (λ _ r, bool_decide (TaskRun.Status r = "running"))
      (λ r, TaskRun.finish "failed" (TaskRun.Progress r) (TaskRun.Logs r) interrupted_message t r)
      (runs d)) (runs_seq d) d));
    mret (Commit tt)).

(** [ORDER BY attempt]. *)
Definition by_attempt (x y : Z * TaskRun.t) : bool := Z.leb (TaskRun.Attempt x.2) (TaskRun.Attempt y.2).

Definition ListTaskRuns (taskID : string) : Db (list (Z * TaskRun.t)) :=
  query (λ d, Ok (select (of_task taskID) by_attempt (runs d))).

End TaskStore.
