(* ===== verification/TaskProofs.v ===== *)
(** The task queue's life cycle: every storage operation, under every clock and
    every pattern of driver failures, moves a task along an edge of an abstract
    state machine and keeps the invariant that ties tasks to their execution
    records. *)
From S2P Require Import Prelude GoStrings Sql Schema TaskStore.

(** ** The abstract machine *)

Definition terminal (s : string) : Prop := s = "completed" ∨ s = "failed" ∨ s = "cancelled".

Definition claimable (t : AsyncTask.t) : bool :=
  bool_decide (AsyncTask.Status t = "pending") && Z.ltb (AsyncTask.Attempts t) (AsyncTask.MaxAttempts t).

(** The row a successful claim writes. *)
Definition claimed (t : AsyncTask.t) (at_ : Z) : AsyncTask.t :=
  AsyncTask.set_state "running"
    (if bool_decide (AsyncTask.Type_ t = "quark_to_115_import") then AsyncTask.Progress t else 0%Q)
    "" "" (AsyncTask.Attempts t + 1) at_ t.

(** What no operation changes about a stored task. *)
Definition same_identity (t t' : AsyncTask.t) : Prop :=
  AsyncTask.Type_ t' = AsyncTask.Type_ t ∧ AsyncTask.ScheduleID t' = AsyncTask.ScheduleID t ∧
  AsyncTask.Payload t' = AsyncTask.Payload t ∧ AsyncTask.CreatedAt t' = AsyncTask.CreatedAt t.

(** [rec] says whether the operation is the start-up recovery. *)
Inductive task_edge (rec : bool) (t t' : AsyncTask.t) : Prop :=
| edge_claim :
    AsyncTask.Status t = "pending" → (AsyncTask.Attempts t < AsyncTask.MaxAttempts t)%Z →
    AsyncTask.Status t' = "running" → AsyncTask.Attempts t' = (AsyncTask.Attempts t + 1)%Z →
    AsyncTask.MaxAttempts t' = AsyncTask.MaxAttempts t → task_edge rec t t'
| edge_progress :
    AsyncTask.Status t = "running" → AsyncTask.Status t' = "running" →
    AsyncTask.Attempts t' = AsyncTask.Attempts t → AsyncTask.MaxAttempts t' = AsyncTask.MaxAttempts t →
    (AsyncTask.Progress t <= AsyncTask.Progress t')%Q → task_edge rec t t'
| edge_finish :
    AsyncTask.Status t = "running" → terminal (AsyncTask.Status t') →
    AsyncTask.Attempts t' = AsyncTask.Attempts t → AsyncTask.MaxAttempts t' = AsyncTask.MaxAttempts t →
    task_edge rec t t'
| edge_cancel :
    AsyncTask.Status t = "pending" → AsyncTask.Status t' = "cancelled" →
    AsyncTask.Attempts t' = AsyncTask.Attempts t → AsyncTask.MaxAttempts t' = AsyncTask.MaxAttempts t →
    task_edge rec t t'
| edge_requeue :
    rec = true → AsyncTask.Status t = "running" → AsyncTask.Type_ t = "quark_to_115_import" →
    AsyncTask.Status t' = "pending" → AsyncTask.Attempts t' = AsyncTask.Attempts t →
    AsyncTask.MaxAttempts t' = Z.max (AsyncTask.MaxAttempts t) (AsyncTask.Attempts t + 1) →
    task_edge rec t t'.

(** One task before and after an operation. *)
Inductive task_move (rec : bool) : option AsyncTask.t → option AsyncTask.t → Prop :=
| move_same o : task_move rec o o
| move_create t : AsyncTask.Status t = "pending" → AsyncTask.Attempts t = 0%Z →
    (1 ≤ AsyncTask.MaxAttempts t)%Z → task_move rec None (Some t)
| move_edge t t' : same_identity t t' → task_edge rec t t' → task_move rec (Some t) (Some t').

(** ** The operations as commands *)

Inductive queue_op : Type :=
| QCreate (id : string) (task : AsyncTask.t)
| QCreateScheduled (id : string) (task : AsyncTask.t) (schedule : string)
| QBegin (id : string)
| QProgress (id : string) (p : Q)
| QLog (id message : string)
| QFinish (id status : string) (p : Q) (result err message : string)
| QCancel (id : string)
| QRecover.

Definition run_op `{Env} (op : queue_op) : M Database unit :=
  match op with
  | QCreate id t => _ ← CreateAsyncTask id t; mret tt
  | QCreateScheduled id t s => _ ← CreateScheduledAsyncTask id t s; mret tt
  | QBegin id => _ ← BeginAsyncTask id; mret tt
  | QProgress id p => UpdateAsyncTaskProgress id p
  | QLog id m => AppendTaskLog id m
  | QFinish id s p r e m => FinishAsyncTask id s p r e m
  | QCancel id => _ ← CancelPendingAsyncTask id; mret tt
  | QRecover => RecoverInterruptedAsyncTasks
  end.

(** How the service calls them: tasks are created pending with no attempt
    ([persistTask], [enqueueMediaIngest]) and finished in a terminal state
    ([executeTask]). *)
Definition op_allowed (op : queue_op) : Prop :=
  match op with
  | QCreate _ t | QCreateScheduled _ t _ =>
      (AsyncTask.Status t = "pending" ∨ AsyncTask.Status t = "") ∧ AsyncTask.Attempts t = 0%Z
  | QFinish _ s _ _ _ _ => terminal s
  | _ => True
  end.

Definition is_recover (op : queue_op) : bool := match op with QRecover => true | _ => false end.

(** One operation in some environment, whatever it returns. *)
Definition queue_step (op : queue_op) (d d' : Database) : Prop :=
  ∃ (E : Env) n r w', run_op op (mkWorld n d) = (r, w') ∧ w_db w' = d'.

Definition queue_any (d d' : Database) : Prop := ∃ op, op_allowed op ∧ queue_step op d d'.

(** ** The invariant *)

Record queue_inv (d : Database) : Prop := {
  qi_run_id : ∀ n r, runs d !! n = Some r → (n ≤ runs_seq d)%Z;
  qi_run_task : ∀ n r, runs d !! n = Some r → ∃ t, tasks d !! TaskRun.TaskID r = Some t ∧
    (TaskRun.Attempt r ≤ AsyncTask.Attempts t)%Z ∧
    (TaskRun.Status r = "running" →
       AsyncTask.Status t = "running" ∧ AsyncTask.Attempts t = TaskRun.Attempt r);
  qi_order : ∀ n m r s, runs d !! n = Some r → runs d !! m = Some s →
    TaskRun.TaskID r = TaskRun.TaskID s → (n < m)%Z → (TaskRun.Attempt r < TaskRun.Attempt s)%Z;
  qi_running : ∀ id t, tasks d !! id = Some t → AsyncTask.Status t = "running" →
    ∃ n r, runs d !! n = Some r ∧ TaskRun.TaskID r = id ∧ TaskRun.Status r = "running";
  qi_attempts : ∀ id t, tasks d !! id = Some t → (AsyncTask.Attempts t ≤ AsyncTask.MaxAttempts t)%Z
}.

(** * Effects of the operations *)

Section Effects.
Context `{Env}.

Definition prepared (created : Z) (task : AsyncTask.t) : AsyncTask.t :=
  AsyncTask.mk (AsyncTask.Type_ task) (AsyncTask.ScheduleID task) (AsyncTask.Payload task)
    (if bool_decide (AsyncTask.Status task = "") then "pending" else AsyncTask.Status task)
    (AsyncTask.Progress task) (AsyncTask.Result task) (AsyncTask.Error task) (AsyncTask.Attempts task)
    (if Z.leb (AsyncTask.MaxAttempts task) 0 then 1%Z else AsyncTask.MaxAttempts task)
    created created.

Definition stored (t : AsyncTask.t) : AsyncTask.t :=
  AsyncTask.mk (AsyncTask.Type_ t) (AsyncTask.ScheduleID t) (payload_roundtrip (AsyncTask.Payload t))
    (AsyncTask.Status t) (AsyncTask.Progress t) (AsyncTask.Result t) (AsyncTask.Error t)
    (AsyncTask.Attempts t) (AsyncTask.MaxAttempts t) (AsyncTask.CreatedAt t) (AsyncTask.UpdatedAt t).

Lemma create_effect id task w :
  wp (CreateAsyncTask id task) w (λ r w', match r with
  | Ok t => ∃ created, t = prepared created task ∧ tasks (w_db w) !! id = None ∧
      w_db w' = set_tasks (<[id := stored t]> (tasks (w_db w))) (w_db w)
  | Err _ => w_db w' = w_db w
  end).
Proof.
  destruct w as [n0 d]. unfold CreateAsyncTask, prepareAsyncTask, insertAsyncTask. wp_run; auto.
  all: match goal with H : context [tasks ?d !! ?i] |- _ => destruct (tasks d !! i) eqn:?; [done|] end.
  all: match goal with H : Ok _ = Ok _ |- _ => injection H as <- <- end; eauto 10.
Qed.

Lemma create_scheduled_effect id task s w :
  wp (CreateScheduledAsyncTask id task s) w (λ r w', match r with
  | Ok t => ∃ created row, t = prepared created (with_schedule s task) ∧ tasks (w_db w) !! id = None ∧
      schedules (w_db w) !! s = Some row ∧
      w_db w' = set_schedules (<[s := ScheduledTask.launched created id row]> (schedules (w_db w)))
                  (set_tasks (<[id := stored t]> (tasks (w_db w))) (w_db w))
  | Err _ => w_db w' = w_db w
  end).
Proof.
  destruct w as [n0 d]. unfold CreateScheduledAsyncTask, prepareAsyncTask, insertAsyncTask. wp_run; auto.
  all: intros _; destruct (tasks d !! id) eqn:?; [done|].
  all: match goal with H : Ok _ = Ok _ |- _ => injection H as <- <- end; simpl in *.
  all: bools; rewrite count_by_key in *; rewrite update_by_key.
  all: destruct (schedules d !! s) eqn:?; [|done]; eauto 10.
Qed.

Lemma begin_effect id w :
  wp (BeginAsyncTask id) w (λ r w', match r with
  | Ok (Some (n, run)) => ∃ t at_,
      tasks (w_db w) !! id = Some t ∧ claimable t = true ∧ n = (runs_seq (w_db w) + 1)%Z ∧
      run = TaskRun.mk id (AsyncTask.Attempts t + 1) "running" (AsyncTask.Progress (claimed t at_)) [] None at_ None ∧
      w_db w' = set_runs (<[n := run]> (runs (w_db w))) n
                  (set_tasks (<[id := claimed t at_]> (tasks (w_db w))) (w_db w))
  | Ok None => w_db w' = w_db w ∧ ∀ t, tasks (w_db w) !! id = Some t → claimable t = false
  | Err _ => w_db w' = w_db w
  end).
Proof.
  destruct w as [n0 d]. unfold BeginAsyncTask. wp_run; auto; intros _.
  - split; [done|]. intros t0 Ht0. bools. rewrite count_by_key, Ht0 in Hb.
    unfold claimable. by destruct (_ && _).
  - bools. rewrite count_by_key in Hb. rewrite update_by_key in *.
    destruct (tasks d !! id) as [t0|] eqn:Ht; [|done].
    destruct (_ && _)%bool eqn:Hc in Hb; [|done]. rewrite Hc in *. rewrite lookup_insert_eq in *.
    match goal with Ha : Ok _ = Ok (_, _) |- _ => injection Ha as <- <- end.
    rewrite bool_decide_true in * by eauto. simpl in *.
    match goal with Ha : context [count_where ?P ?t] |- _ => destruct (bool_decide (count_where P t = 0)) end;
      simpl in *; [|done].
    match goal with Ha : Ok _ = Ok _ |- _ => injection Ha as <- <- end. by exists t0, t.
Qed.

Definition with_progress (p : Q) (at_ : Z) (t : AsyncTask.t) : AsyncTask.t :=
  AsyncTask.set_state (AsyncTask.Status t) (qmax (AsyncTask.Progress t) p) (AsyncTask.Result t)
    (AsyncTask.Error t) (AsyncTask.Attempts t) at_ t.

Lemma progress_effect id p w :
  wp (UpdateAsyncTaskProgress id p) w (λ r w', match r with
  | Ok _ => ∃ at_,
      w_db w' =
        set_runs (match last_row (of_task id) (runs (w_db w)) with
                  | Some (n, run) => <[n := TaskRun.set_progress (qmax (TaskRun.Progress run) p) run]> (runs (w_db w))
                  | None => runs (w_db w) end) (runs_seq (w_db w))
        (set_tasks (match tasks (w_db w) !! id with
                    | Some t => if is_running t then <[id := with_progress p at_ t]> (tasks (w_db w))
                                else tasks (w_db w)
                    | None => tasks (w_db w) end) (w_db w))
  | Err _ => w_db w' = w_db w
  end).
Proof.
  destruct w as [n0 d]. unfold UpdateAsyncTaskProgress. wp_run; auto. intros _. exists t.
  rewrite update_by_key. destruct (last_row (of_task id) (runs d)) as [[n5 run]|] eqn:Hl; [|by destruct d].
  rewrite update_by_key. apply last_row_some in Hl as (-> & _). done.
Qed.

Lemma log_effect id message w :
  wp (AppendTaskLog id message) w (λ r w', match r with
  | Ok _ => ∃ n run, last_row (of_task id) (runs (w_db w)) = Some (n, run) ∧
      w_db w' = set_runs (<[n := TaskRun.set_logs (TaskRun.Logs run ++ [message]) run]> (runs (w_db w)))
                  (runs_seq (w_db w)) (w_db w)
  | Err _ => w_db w' = w_db w
  end).
Proof.
  destruct w as [n0 d]. unfold AppendTaskLog. wp_run; auto.
  destruct (last_row (of_task id) (runs d)) as [[n5 run]|] eqn:Hl; [|done].
  match goal with Ha : Ok _ = Ok _ |- _ => injection Ha as <- <- end.
  exists n5, run. split; [done|]. rewrite update_by_key. by apply last_row_some in Hl as (-> & _).
Qed.

Lemma finish_effect id s p res err message w :
  wp (FinishAsyncTask id s p res err message) w (λ r w', match r with
  | Ok _ => ∃ n run t at_ logs, last_row (running_run id) (runs (w_db w)) = Some (n, run) ∧
      tasks (w_db w) !! id = Some t ∧ is_running t = true ∧
      logs = (if negb (bool_decide (message = "")) then TaskRun.Logs run ++ [message] else TaskRun.Logs run) ∧
      w_db w' = set_runs (<[n := TaskRun.finish s p logs err at_ run]> (runs (w_db w))) (runs_seq (w_db w))
        (set_tasks (<[id := AsyncTask.set_state s p res err (AsyncTask.Attempts t) at_ t]> (tasks (w_db w))) (w_db w))
  | Err _ => w_db w' = w_db w
  end).
Proof.
  destruct w as [n0 d]. unfold FinishAsyncTask. wp_run; auto. intros _.
  destruct (last_row (running_run id) (runs d)) as [[n5 run]|] eqn:Hl; [|done].
  match goal with Ha : Ok _ = Ok (_, _) |- _ => injection Ha as <- <- end.
  bools. rewrite ?count_by_key in *. rewrite !update_by_key.
  destruct (tasks d !! id) as [t0|] eqn:Ht; [|done].
  destruct (bool_decide (AsyncTask.Status t0 = "running")) eqn:Hs; [|done].
  destruct (runs d !! n5) as [run'|] eqn:Hr; [|done].
  destruct (bool_decide (TaskRun.Status run' = "running")) eqn:Hs'; [|done].
  exists n5, run, t0, t. assert (run' = run) as -> by (apply last_row_some in Hl as (Hr' & _); congruence).
  eexists. split; [done|]. split; [done|]. split; [done|]. split; [done|]. done.
Qed.

Lemma cancel_effect id w :
  wp (CancelPendingAsyncTask id) w (λ r w', match r with
  | Ok true => ∃ t at_, tasks (w_db w) !! id = Some t ∧ AsyncTask.Status t = "pending" ∧
      w_db w' = set_tasks (<[id := AsyncTask.set_state "cancelled" (AsyncTask.Progress t) (AsyncTask.Result t)
        "cancelled by operator" (AsyncTask.Attempts t) at_ t]> (tasks (w_db w))) (w_db w)
  | _ => w_db w' = w_db w
  end).
Proof.
  destruct w as [n0 d]. unfold CancelPendingAsyncTask. wp_run; auto.
  rewrite count_by_key, update_by_key. destruct (tasks d !! id) as [t0|] eqn:Ht; [|by destruct d].
  destruct (bool_decide (AsyncTask.Status t0 = "pending")) eqn:Hs; [|by destruct d].
  bools. simpl. by exists t0, t.
Qed.

Definition recovered_task (at_ : Z) (t : AsyncTask.t) : AsyncTask.t :=
  if is_running t then
    if is_import t then
      AsyncTask.set_max (Z.max (AsyncTask.MaxAttempts t) (AsyncTask.Attempts t + 1))
        (AsyncTask.set_state "pending" (AsyncTask.Progress t) (AsyncTask.Result t) reconcile_message
          (AsyncTask.Attempts t) at_ t)
    else AsyncTask.set_state "failed" (AsyncTask.Progress t) (AsyncTask.Result t) interrupted_message
           (AsyncTask.Attempts t) at_ t
  else t.

Definition recovered_run (at_ : Z) (r : TaskRun.t) : TaskRun.t :=
  if bool_decide (TaskRun.Status r = "running") then
    TaskRun.finish "failed" (TaskRun.Progress r) (TaskRun.Logs r) interrupted_message at_ r
  else r.

Lemma recover_effect w :
  wp RecoverInterruptedAsyncTasks w (λ r w', match r with
  | Ok _ => ∃ at_, tasks (w_db w') = recovered_task at_ <$> tasks (w_db w) ∧
      runs (w_db w') = recovered_run at_ <$> runs (w_db w) ∧ runs_seq (w_db w') = runs_seq (w_db w) ∧
      ∀ id i, imports (w_db w') !! id = Some i →
        match tasks (w_db w') !! id with
        | Some t => is_import t = true → AsyncTask.Status t = "pending" → CrossDriveImport.RunOwner i = None
        | None => True
        end
  | Err _ => w_db w' = w_db w
  end).
Proof.
  destruct w as [n0 d]. unfold RecoverInterruptedAsyncTasks. wp_run; auto. intros _. exists t.
  split; [|split; [|split; [done|]]].
  - apply map_eq. intros id. rewrite !lookup_update_where, lookup_fmap, <-option_fmap_compose.
    destruct (tasks d !! id) as [r|]; [|done]. simpl. f_equal. unfold recovered_task, is_running, is_import.
    destruct (bool_decide (AsyncTask.Status r = "running")) eqn:Hs; simpl; [|by rewrite Hs].
    destruct (bool_decide (AsyncTask.Type_ r = _)) eqn:Ht; simpl; [by rewrite Hs, Ht|done].
  - apply map_eq. intros id. by rewrite lookup_update_where, lookup_fmap.
  - intros id i Hi. rewrite lookup_update_where in Hi. apply fmap_Some in Hi as (i0 & Hi0 & ->).
    destruct (update_where _ _ (update_where _ _ (tasks d)) !! id) as [t'|]; [|done].
    intros -> ->. done.
Qed.
End Effects.

(** Every operation acts on each task by one move of the abstract machine. *)
Lemma edge_progress_same rec t p at_ :
  is_running t = true → task_edge rec t (with_progress p at_ t).
Proof. unfold is_running. intros Hr. bools. apply edge_progress; try done. apply qmax_ge_l. Qed.

Lemma recovered_move at_ t : task_move true (Some t) (Some (recovered_task at_ t)).
Proof.
  unfold recovered_task. destruct (is_running t) eqn:Hr; [|constructor].
  unfold is_running in Hr. bools. destruct (is_import t) eqn:Hi; (constructor; [done|]).
  - unfold is_import in Hi. bools. by apply edge_requeue.
  - apply edge_finish; try done. right. by left.
Qed.

Lemma insert_move rec id t (m : gmap string AsyncTask.t) id' :
  m !! id = None → task_move rec None (Some t) → task_move rec (m !! id') (<[id := t]> m !! id').
Proof.
  intros Hn Hm. destruct (decide (id = id')) as [<-|Hne].
  - by rewrite lookup_insert_eq, Hn.
  - rewrite lookup_insert_ne by done. constructor.
Qed.

Lemma replace_move rec id t t' (m : gmap string AsyncTask.t) id' :
  m !! id = Some t → same_identity t t' → task_edge rec t t' →
  task_move rec (m !! id') (<[id := t']> m !! id').
Proof.
  intros Hn Hs He. destruct (decide (id = id')) as [<-|Hne].
  - rewrite lookup_insert_eq, Hn. by constructor.
  - rewrite lookup_insert_ne by done. constructor.
Qed.

Lemma created_move rec created task :
  (AsyncTask.Status task = "pending" ∨ AsyncTask.Status task = "") → AsyncTask.Attempts task = 0%Z →
  task_move rec None (Some (stored (prepared created task))).
Proof.
  intros Hs Ha. constructor; simpl.
  - by destruct Hs as [-> | ->].
  - done.
  - destruct (Z.leb _ 0) eqn:E; bools; lia.
Qed.

Lemma run_op_moves `{Env} op d n r w' :
  op_allowed op → run_op op (mkWorld n d) = (r, w') →
  ∀ id, task_move (is_recover op) (tasks d !! id) (tasks (w_db w') !! id).
Proof.
  intros Hop Hrun id.
  assert (wp (run_op op) (mkWorld n d) (λ _ w', task_move (is_recover op) (tasks d !! id) (tasks (w_db w') !! id))) as Hwp.
  2: { by apply (wp_elim _ _ _ _ _ Hwp Hrun). }
  clear Hrun r w'. destruct op as [i t|i t s|i|i p|i m|i s p res e m|i|]; simpl in *.
  - apply wp_forget. eapply wp_mono; [apply create_effect|]. intros [t'|e] w'; simpl.
    + intros (c & -> & Hn & ->). destruct Hop. by apply insert_move; [|apply created_move].
    + intros ->. constructor.
  - apply wp_forget. eapply wp_mono; [apply create_scheduled_effect|]. intros [t'|e] w'; simpl.
    + intros (c & row & -> & Hn & _ & ->). destruct Hop.
      by apply insert_move; [|apply created_move].
    + intros ->. constructor.
  - apply wp_forget. eapply wp_mono; [apply begin_effect|]. intros [[[k run]|]|e] w'; simpl.
    + intros (t & at_ & Ht & Hc & -> & -> & ->). simpl. unfold claimable in Hc. bools.
      by eapply replace_move; [done|done|apply edge_claim].
    + intros [-> _]. constructor.
    + intros ->. constructor.
  - eapply wp_mono; [apply progress_effect|]. intros [u|e] w'; simpl; [|intros ->; constructor].
    intros (at_ & ->). simpl. destruct (tasks d !! i) as [t|] eqn:Ht; [|constructor].
    destruct (is_running t) eqn:Hr; [|constructor].
    by eapply replace_move; [done|done|apply edge_progress_same].
  - eapply wp_mono; [apply log_effect|]. intros [u|e] w'; simpl; [|intros ->; constructor].
    intros (k & run & _ & ->). constructor.
  - eapply wp_mono; [apply finish_effect|]. intros [u|e'] w'; simpl; [|intros ->; constructor].
    intros (k & run & t & at_ & logs & _ & Ht & Hr & _ & ->). simpl. unfold is_running in Hr. bools.
    by eapply replace_move; [done|done|apply edge_finish].
  - apply wp_forget. eapply wp_mono; [apply cancel_effect|].
    intros [[]|e'] w'; simpl; [|intros ->; constructor..].
    intros (t & at_ & Ht & Hs & ->). simpl. by eapply replace_move; [done|done|apply edge_cancel].
  - eapply wp_mono; [apply recover_effect|]. intros [u|e'] w'; simpl; [|intros ->; constructor].
    intros (at_ & -> & _). rewrite lookup_fmap. destruct (tasks d !! id); [apply recovered_move|constructor].
Qed.

(** * The invariant is kept *)

Lemma empty_queue_inv d : tasks d = ∅ → runs d = ∅ → queue_inv d.
Proof.
  intros Ht Hr. split; rewrite ?Ht, ?Hr; intros *; rewrite ?lookup_empty; done.
Qed.

(** A change that keeps the keys, identities and attempts, and starts nothing. *)
Definition task_settles (t t' : AsyncTask.t) : Prop :=
  AsyncTask.Attempts t' = AsyncTask.Attempts t ∧ (AsyncTask.MaxAttempts t ≤ AsyncTask.MaxAttempts t')%Z.
Definition run_settles (r r' : TaskRun.t) : Prop :=
  TaskRun.TaskID r' = TaskRun.TaskID r ∧ TaskRun.Attempt r' = TaskRun.Attempt r ∧
  (TaskRun.Status r' = "running" → TaskRun.Status r = "running").

#[global] Instance task_settles_refl : Reflexive task_settles.
Proof. intros t. unfold task_settles. lia. Qed.
#[global] Instance run_settles_refl : Reflexive run_settles.
Proof. done. Qed.

Section Settle.
Context (d d' : Database).
Context (Hseq : runs_seq d' = runs_seq d).
Context (Ht : ∀ id, option_Forall2 task_settles (tasks d !! id) (tasks d' !! id)).
Context (Hr : ∀ n, option_Forall2 run_settles (runs d !! n) (runs d' !! n)).

Lemma settled_run n r' : runs d' !! n = Some r' → ∃ r, runs d !! n = Some r ∧ run_settles r r'.
Proof. intros E. specialize (Hr n). rewrite E in Hr. inversion Hr. eauto. Qed.

Lemma settled_task id t : tasks d !! id = Some t → ∃ t', tasks d' !! id = Some t' ∧ task_settles t t'.
Proof. intros E. specialize (Ht id). rewrite E in Ht. inversion Ht. eauto. Qed.

Lemma settled_task_inv id t' : tasks d' !! id = Some t' → ∃ t, tasks d !! id = Some t ∧ task_settles t t'.
Proof. intros E. specialize (Ht id). rewrite E in Ht. inversion Ht. eauto. Qed.

Lemma settle_inv :
  (∀ n r' t', runs d' !! n = Some r' → TaskRun.Status r' = "running" →
     tasks d' !! TaskRun.TaskID r' = Some t' → AsyncTask.Status t' = "running") →
  (∀ id t', tasks d' !! id = Some t' → AsyncTask.Status t' = "running" →
     ∃ n r, runs d' !! n = Some r ∧ TaskRun.TaskID r = id ∧ TaskRun.Status r = "running") →
  queue_inv d → queue_inv d'.
Proof.
  intros Hlink Hrun [Q1 Q2 Q3 Q4 Q5]. split.
  - intros n r' E. apply settled_run in E as (r & E & _). rewrite Hseq. eauto.
  - intros n r' E'. destruct (settled_run _ _ E') as (r & E & Hid & Ha & Hs).
    destruct (Q2 n r E) as (t & Et & Hle & Hst). rewrite <-Hid in Et.
    destruct (settled_task _ _ Et) as (t' & Et' & Hta & _). exists t'. split; [done|].
    rewrite Ha, Hta. split; [done|]. intros Hrs. split; [by eapply Hlink|]. by apply Hst, Hs.
  - intros n m r' s' En Em. destruct (settled_run _ _ En) as (r & E1 & Hid1 & Ha1 & _).
    destruct (settled_run _ _ Em) as (s & E2 & Hid2 & Ha2 & _).
    rewrite Hid1, Hid2, Ha1, Ha2. by apply Q3.
  - done.
  - intros id t' E. apply settled_task_inv in E as (t & E & Ha & Hm). specialize (Q5 id t E). lia.
Qed.
End Settle.

Lemma Forall2_same {A} (R : A → A → Prop) `{!Reflexive R} o : option_Forall2 R o o.
Proof. destruct o; by constructor. Qed.

Lemma Forall2_weaken {A} (R R' : A → A → Prop) o o' :
  option_Forall2 R o o' → (∀ x y, R x y → R' x y) → option_Forall2 R' o o'.
Proof. intros [x y HR|] Hi; constructor; auto. Qed.

Lemma Forall2_replace {K A} `{Countable K} (R : A → A → Prop) `{!Reflexive R} (m : gmap K A) k x y k' :
  m !! k = Some x → R x y → option_Forall2 R (m !! k') (<[k := y]> m !! k').
Proof.
  intros Hk HR. destruct (decide (k = k')) as [<-|Hne].
  - rewrite Hk, lookup_insert_eq. by constructor.
  - rewrite lookup_insert_ne by done. by apply Forall2_same.
Qed.

Lemma create_inv rec d d' id t :
  tasks d' = <[id := t]> (tasks d) → runs d' = runs d → runs_seq d' = runs_seq d →
  tasks d !! id = None → task_move rec None (Some t) → queue_inv d → queue_inv d'.
Proof.
  intros Et Er Es Hn Hm [Q1 Q2 Q3 Q4 Q5]. inversion Hm; subst.
  split; rewrite ?Et, ?Er, ?Es; try done.
  - intros n r E. destruct (Q2 n r E) as (t0 & E0 & ?). exists t0. split; [|done].
    rewrite lookup_insert_ne by congruence. done.
  - intros id' t'. destruct (decide (id = id')) as [<-|Hne].
    + rewrite lookup_insert_eq. intros [= <-]. congruence.
    + rewrite lookup_insert_ne by done. apply Q4.
  - intros id' t'. destruct (decide (id = id')) as [<-|Hne].
    + rewrite lookup_insert_eq. intros [= <-]. lia.
    + rewrite lookup_insert_ne by done. apply Q5.
Qed.

Lemma begin_inv d id t at_ run :
  tasks d !! id = Some t → claimable t = true →
  TaskRun.TaskID run = id → TaskRun.Attempt run = (AsyncTask.Attempts t + 1)%Z →
  TaskRun.Status run = "running" → queue_inv d →
  queue_inv (set_runs (<[(runs_seq d + 1)%Z := run]> (runs d)) (runs_seq d + 1)%Z
    (set_tasks (<[id := claimed t at_]> (tasks d)) d)).
Proof.
  intros Ht Hc Hid Ha Hs [Q1 Q2 Q3 Q4 Q5]. unfold claimable in Hc. bools. set (k := (runs_seq d + 1)%Z).
  assert (runs d !! k = None) as Hk.
  { destruct (runs d !! k) as [r|] eqn:E; [|done]. specialize (Q1 k r E). lia. }
  split; simpl.
  - intros n r. rewrite lookup_insert_Some. intros [[<- _]|[_ E]]; [lia|]. specialize (Q1 n r E). lia.
  - intros n r. rewrite lookup_insert_Some. intros [[<- <-]|[_ E]].
    + exists (claimed t at_). rewrite Hid, lookup_insert_eq. split; [done|]. simpl. split; [lia|]. auto.
    + destruct (Q2 n r E) as (t0 & E0 & Hle & Hrun). destruct (decide (id = TaskRun.TaskID r)) as [Heq|Hne].
      * rewrite <-Heq in *. assert (t0 = t) as -> by congruence.
        exists (claimed t at_). rewrite lookup_insert_eq. split; [done|]. simpl. split; [lia|].
        intros Hr. destruct (Hrun Hr). congruence.
      * exists t0. rewrite lookup_insert_ne by done. auto.
  - intros n m r s. rewrite !lookup_insert_Some. intros [[<- <-]|[Hn E1]] [[<- <-]|[Hm E2]] Heq Hlt.
    + lia.
    + specialize (Q1 m s E2). lia.
    + destruct (Q2 n r E1) as (t0 & E0 & Hle & _). assert (t0 = t) as -> by congruence. lia.
    + by apply (Q3 n m).
  - intros id' t'. rewrite lookup_insert_Some. intros [[<- <-]|[Hne E]] Hst.
    + exists k, run. by rewrite lookup_insert_eq.
    + destruct (Q4 id' t' E Hst) as (n & r & En & ? & ?). exists n, r.
      rewrite lookup_insert_ne by congruence. done.
  - intros id' t'. rewrite lookup_insert_Some. intros [[<- <-]|[Hne E]]; simpl; [lia|]. by apply (Q5 id').
Qed.

(** Two running records of one task are the same record. *)
Lemma running_run_unique d n m r s :
  queue_inv d → runs d !! n = Some r → runs d !! m = Some s → TaskRun.TaskID r = TaskRun.TaskID s →
  TaskRun.Status r = "running" → TaskRun.Status s = "running" → n = m.
Proof.
  intros [_ Q2 Q3 _ _] Hn Hm Hid Hr Hs.
  destruct (Q2 n r Hn) as (t & Ht & _ & Hrt). destruct (Q2 m s Hm) as (t' & Ht' & _ & Hst).
  rewrite Hid in Ht. assert (t' = t) as -> by congruence.
  destruct (Hrt Hr) as [_ Hra]. destruct (Hst Hs) as [_ Hsa].
  destruct (Z.lt_trichotomy n m) as [Hlt|[?|Hlt]]; [|done|].
  - specialize (Q3 n m r s Hn Hm Hid Hlt). lia.
  - specialize (Q3 m n s r Hm Hn (eq_sym Hid) Hlt). lia.
Qed.

(** A pending task has no running record. *)
Lemma pending_no_run d n r t :
  queue_inv d → runs d !! n = Some r → tasks d !! TaskRun.TaskID r = Some t →
  AsyncTask.Status t ≠ "running" → TaskRun.Status r ≠ "running".
Proof.
  intros Q Hn Ht Hs Hr. destruct (qi_run_task d Q n r Hn) as (t' & Ht' & _ & Hrun).
  destruct (Hrun Hr). congruence.
Qed.

(** Only values that the invariant does not mention change. *)
Definition task_shape (t t' : AsyncTask.t) : Prop :=
  AsyncTask.Status t' = AsyncTask.Status t ∧ AsyncTask.Attempts t' = AsyncTask.Attempts t ∧
  AsyncTask.MaxAttempts t' = AsyncTask.MaxAttempts t.
Definition run_shape (r r' : TaskRun.t) : Prop :=
  TaskRun.TaskID r' = TaskRun.TaskID r ∧ TaskRun.Attempt r' = TaskRun.Attempt r ∧
  TaskRun.Status r' = TaskRun.Status r.
#[global] Instance task_shape_refl : Reflexive task_shape.
Proof. done. Qed.
#[global] Instance run_shape_refl : Reflexive run_shape.
Proof. done. Qed.

Lemma shape_inv d d' :
  runs_seq d' = runs_seq d → (∀ id, option_Forall2 task_shape (tasks d !! id) (tasks d' !! id)) →
  (∀ n, option_Forall2 run_shape (runs d !! n) (runs d' !! n)) → queue_inv d → queue_inv d'.
Proof.
  intros Es Ht Hr Q. apply (settle_inv d d'); try done.
  - intros id. eapply Forall2_weaken; [apply Ht|]. intros ?? (_ & ? & ?). unfold task_settles. lia.
  - intros n. eapply Forall2_weaken; [apply Hr|]. intros ?? (? & ? & ?). unfold run_settles. intuition congruence.
  - intros n r' t' En Hs Et. specialize (Hr n). rewrite En in Hr. inversion Hr as [r r0 (Hid & _ & Hst) E|]; subst.
    specialize (Ht (TaskRun.TaskID r')). rewrite Et in Ht. inversion Ht as [t t0 (Hts & _) E'|]; subst.
    rewrite Hts. symmetry in E, E'. destruct (qi_run_task d Q n r E) as (t1 & Et1 & _ & Hrun).
    rewrite Hid in E'. assert (t1 = t) as -> by congruence. apply Hrun. congruence.
  - intros id t' Et Hs. specialize (Ht id). rewrite Et in Ht. inversion Ht as [t t0 (Hts & _) E'|]; subst.
    destruct (qi_running d Q id t) as (n & r & En & Hid & Hst); [done|congruence|].
    specialize (Hr n). rewrite En in Hr. inversion Hr as [r0 r' (Hid' & _ & Hst') E|]; subst.
    exists n, r'. split; [done|]. split; congruence.
Qed.

Lemma finish_inv d id n run t s p logs err res at_ :
  terminal s → last_row (running_run id) (runs d) = Some (n, run) → tasks d !! id = Some t →
  queue_inv d →
  queue_inv (set_runs (<[n := TaskRun.finish s p logs err at_ run]> (runs d)) (runs_seq d)
    (set_tasks (<[id := AsyncTask.set_state s p res err (AsyncTask.Attempts t) at_ t]> (tasks d)) d)).
Proof.
  intros Hterm Hl Ht Q. apply last_row_some in Hl as (Hn & Hrr & _). unfold running_run in Hrr. bools.
  assert (s ≠ "running") as Hs by (by destruct Hterm as [->|[-> | ->]]).
  apply (settle_inv d); simpl; try done.
  - intros id'. apply (Forall2_replace task_settles _ _ t); [done|]. unfold task_settles; simpl. lia.
  - intros n'. apply (Forall2_replace run_settles _ _ run); [done|]. unfold run_settles; simpl. done.
  - intros m r' t'. rewrite lookup_insert_Some. intros [[<- <-]|[Hne Em]] Hst; [done|].
    rewrite lookup_insert_Some. intros [[Hid <-]|[Hid Et]].
    + destruct Hne. by apply (running_run_unique d n m run r'); [..|congruence| |].
    + destruct (qi_run_task d Q m r' Em) as (t1 & Et1 & _ & Hrun).
      assert (t1 = t') as -> by congruence. by apply Hrun.
  - intros id' t'. rewrite lookup_insert_Some. intros [[<- <-]|[Hne Et]] Hst; [done|].
    destruct (qi_running d Q id' t' Et Hst) as (m & r & Em & Hid & Hrs). exists m, r.
    rewrite lookup_insert_ne by congruence. done.
Qed.

Lemma cancel_inv d id t at_ :
  tasks d !! id = Some t → AsyncTask.Status t = "pending" → queue_inv d →
  queue_inv (set_tasks (<[id := AsyncTask.set_state "cancelled" (AsyncTask.Progress t) (AsyncTask.Result t)
    "cancelled by operator" (AsyncTask.Attempts t) at_ t]> (tasks d)) d).
Proof.
  intros Ht Hs Q. apply (settle_inv d); simpl; try done.
  - intros id'. apply (Forall2_replace task_settles _ _ t); [done|]. unfold task_settles; simpl. lia.
  - intros m r' t' Em Hst. rewrite lookup_insert_Some. destruct (qi_run_task d Q m r' Em) as (t1 & Et1 & _ & Hrun).
    destruct (Hrun Hst). intros [[Hid <-]|[Hid Et]]; congruence.
  - intros id' t'. rewrite lookup_insert_Some. intros [[<- <-]|[Hne Et]] Hst; [done|].
    by apply (qi_running d Q id' t').
Qed.

Lemma recovered_not_running at_ t : AsyncTask.Status (recovered_task at_ t) ≠ "running".
Proof.
  unfold recovered_task. destruct (is_running t) eqn:E; [by destruct (is_import t)|].
  unfold is_running in E. by bools.
Qed.

Lemma recovered_run_not_running at_ r : TaskRun.Status (recovered_run at_ r) ≠ "running".
Proof. unfold recovered_run. destruct (bool_decide _) eqn:E; [done|]. by bools. Qed.

Lemma recover_inv at_ d d' :
  tasks d' = recovered_task at_ <$> tasks d → runs d' = recovered_run at_ <$> runs d →
  runs_seq d' = runs_seq d → queue_inv d → queue_inv d'.
Proof.
  intros Et Er Es Q. apply (settle_inv d); try done.
  - intros id. rewrite Et, lookup_fmap. destruct (tasks d !! id) as [t|]; constructor.
    unfold recovered_task, task_settles. destruct (is_running t); [destruct (is_import t)|]; simpl; lia.
  - intros n. rewrite Er, lookup_fmap. destruct (runs d !! n) as [r|]; constructor.
    unfold recovered_run, run_settles. destruct (bool_decide _) eqn:E; [|done]. bools. done.
  - intros n r' t'. rewrite Er, lookup_fmap. intros (r & _ & ->)%fmap_Some Hs. by apply recovered_run_not_running in Hs.
  - intros id t'. rewrite Et, lookup_fmap. intros (t & _ & ->)%fmap_Some Hs. by apply recovered_not_running in Hs.
Qed.

Lemma run_op_inv `{Env} op d n r w' :
  op_allowed op → queue_inv d → run_op op (mkWorld n d) = (r, w') → queue_inv (w_db w').
Proof.
  intros Hop Q Hrun.
  assert (wp (run_op op) (mkWorld n d) (λ _ w', queue_inv (w_db w'))) as Hwp.
  2: { by apply (wp_elim _ _ _ _ _ Hwp Hrun). }
  clear Hrun r w'. destruct op as [i t|i t s|i|i p|i m|i s p res e m|i|]; simpl in *.
  - apply wp_forget. eapply wp_mono; [apply create_effect|]. intros [t'|e] w'; simpl; [|by intros ->].
    intros (c & -> & Hn & ->). destruct Hop.
    by eapply (create_inv false d); [..|apply created_move|].
  - apply wp_forget. eapply wp_mono; [apply create_scheduled_effect|]. intros [t'|e] w'; simpl; [|by intros ->].
    intros (c & row & -> & Hn & _ & ->). destruct Hop.
    by eapply (create_inv false d); [..|apply created_move|].
  - apply wp_forget. eapply wp_mono; [apply begin_effect|]. intros [[[k run]|]|e] w'; simpl.
    + intros (t & at_ & Ht & Hc & -> & -> & ->). by apply (begin_inv d).
    + by intros [-> _].
    + by intros ->.
  - eapply wp_mono; [apply progress_effect|]. intros [u|e] w'; simpl; [|by intros ->].
    intros (at_ & ->). apply (shape_inv d); simpl; try done.
    + intros id. destruct (tasks d !! i) as [t|] eqn:Ht; [|apply (Forall2_same task_shape)].
      destruct (is_running t); [|apply (Forall2_same task_shape)].
      by apply (Forall2_replace task_shape _ _ t).
    + intros k. destruct (last_row _ _) as [[k' run]|] eqn:Hl; [|apply (Forall2_same run_shape)].
      apply last_row_some in Hl as (Hl & _). by apply (Forall2_replace run_shape _ _ run).
  - eapply wp_mono; [apply log_effect|]. intros [u|e] w'; simpl; [|by intros ->].
    intros (k & run & Hl & ->). apply last_row_some in Hl as (Hl & _). apply (shape_inv d); simpl; try done.
    + intros k'. by apply (Forall2_replace run_shape _ _ run).
  - eapply wp_mono; [apply finish_effect|]. intros [u|e'] w'; simpl; [|by intros ->].
    intros (k & run & t & at_ & logs & Hl & Ht & _ & _ & ->). by apply finish_inv.
  - apply wp_forget. eapply wp_mono; [apply cancel_effect|].
    intros [[]|e'] w'; simpl; [|by intros ->..]. intros (t & at_ & Ht & Hs & ->). by apply cancel_inv.
  - eapply wp_mono; [apply recover_effect|]. intros [u|e'] w'; simpl; [|by intros ->].
    intros (at_ & Et & Er & Es & _). by apply (recover_inv at_ d).
Qed.

(** ** Runs of operations *)

Lemma step_moves op d d' id :
  op_allowed op → queue_step op d d' → task_move (is_recover op) (tasks d !! id) (tasks d' !! id).
Proof. intros Hop (E & n & r & w' & Hrun & <-). by apply (run_op_moves op d n r w'). Qed.

Lemma step_inv op d d' : op_allowed op → queue_inv d → queue_step op d d' → queue_inv d'.
Proof. intros Hop Q (E & n & r & w' & Hrun & <-). by apply (run_op_inv op d n r w'). Qed.

(** Operations other than the start-up recovery. *)
Definition queue_live (d d' : Database) : Prop :=
  ∃ op, op_allowed op ∧ is_recover op = false ∧ queue_step op d d'.

Lemma task_kept rec t o :
  task_move rec (Some t) o → ∃ t', o = Some t' ∧ same_identity t t' ∧
    (AsyncTask.Attempts t ≤ AsyncTask.Attempts t')%Z ∧ (AsyncTask.MaxAttempts t ≤ AsyncTask.MaxAttempts t')%Z.
Proof.
  intros Hm. inversion Hm as [|?|? t' Hid He]; subst; [by exists t|].
  exists t'. split; [done|]. split; [done|]. destruct He; lia.
Qed.

Lemma same_identity_trans t1 t2 t3 : same_identity t1 t2 → same_identity t2 t3 → same_identity t1 t3.
Proof. unfold same_identity. intuition congruence. Qed.

(** Outside the recovery a task that left [pending] never returns to it. *)
Lemma live_not_pending d d' id t :
  tasks d !! id = Some t → AsyncTask.Status t ≠ "pending" → queue_live d d' →
  ∃ t', tasks d' !! id = Some t' ∧ AsyncTask.Status t' ≠ "pending".
Proof.
  intros Ht Hs (op & Hop & Hrec & Hstep). pose proof (step_moves op d d' id Hop Hstep) as Hm.
  rewrite Ht, Hrec in Hm. inversion Hm as [|?|? t' Hid He]; subst; [eauto|].
  exists t'. split; [done|]. destruct He as [| |? Hterm| |]; try congruence.
  by destruct Hterm as [->|[-> | ->]].
Qed.

(** * Properties *)

(** C14: from an empty database, whatever operations run in whatever order, under
    every clock and every pattern of driver failures, running tasks and running
    execution records correspond one to one by attempt number, attempts of a task
    increase with the record IDs, and no task exceeds its attempt budget. *)
Theorem queue_invariant_reachable d d' :
  tasks d = ∅ → runs d = ∅ → rtc queue_any d d' → queue_inv d'.
Proof.
  intros Ht Hr Hd. assert (queue_inv d) as Q by (by apply empty_queue_inv). clear Ht Hr.
  induction Hd as [|d1 d2 d3 (op & Hop & Hs) _ IH]; [done|]. apply IH. by apply (step_inv op d1).
Qed.

(** A task that reached a terminal state is never written again, by any
    sequence of queue operations and start-up recoveries. *)
Theorem terminal_tasks_frozen d d' id t :
  tasks d !! id = Some t → terminal (AsyncTask.Status t) → rtc queue_any d d' →
  tasks d' !! id = Some t.
Proof.
  intros Ht Hterm Hd. induction Hd as [|d1 d2 d3 (op & Hop & Hs) _ IH]; [done|]. apply IH.
  pose proof (step_moves op d1 d2 id Hop Hs) as Hm. rewrite Ht in Hm.
  inversion Hm as [|?|? t' Hid He]; subst; [done|].
  destruct Hterm as [Hs'|[Hs'|Hs']], He; congruence.
Qed.

(** C19: once a worker's [BeginAsyncTask] returned a run for a task, no other call
    of [BeginAsyncTask] returns a run for it, however operations interleave and
    fail, until a start-up recovery: a task is executed by one worker. *)
Theorem claim_exclusive `{Env} id n d x d1 d2 m r w :
  BeginAsyncTask id (mkWorld n d) = (Ok (Some x), d1) →
  rtc queue_live (w_db d1) d2 →
  BeginAsyncTask id (mkWorld m d2) = (r, w) →
  ∀ y, r ≠ Ok (Some y).
Proof.
  intros Hb Hlive Hb2. destruct x as [k run].
  destruct (wp_elim _ _ _ _ _ (begin_effect id _) Hb) as (t & at_ & _ & _ & _ & _ & Ed). simpl in Ed.
  assert (∃ t', tasks d2 !! id = Some t' ∧ AsyncTask.Status t' ≠ "pending") as (t' & Ht' & Hs').
  { assert (∃ t', tasks (w_db d1) !! id = Some t' ∧ AsyncTask.Status t' ≠ "pending") as Hex.
    { exists (claimed t at_). rewrite Ed. simpl. by rewrite lookup_insert_eq. }
    clear Hb Hb2 Ed. induction Hlive as [|e1 e2 e3 Hs _ IH]; [done|]. apply IH.
    destruct Hex as (t1 & E1 & Hs1). by apply (live_not_pending e1 e2 id t1). }
  intros [k2 run2] ->. destruct (wp_elim _ _ _ _ _ (begin_effect id _) Hb2) as (t2 & a2 & Ht2 & Hc & _).
  simpl in Ht2. unfold claimable in Hc. bools. congruence.
Qed.

(** A claim on a reachable state fails only with the driver. *)
Lemma begin_no_fail `{Env} id n d :
  (∀ k, env_fault k = None) → queue_inv d →
  wp (BeginAsyncTask id) (mkWorld n d) (λ r _, is_ok r = true).
Proof.
  intros Hf Q.
    unfold BeginAsyncTask. wp_run; intros; try done; no_faults Hf.
    all: bools; rewrite count_by_key in *; rewrite ?update_by_key in *.
    all: destruct (tasks d !! id) as [t0|] eqn:Ht; [|done].
    all: match goal with Hn : (if ?b then _ else _) ≠ 0 |- _ => destruct b eqn:Hc; [|done] end.
    all: rewrite ?lookup_insert_eq in *; try done.
    exfalso. match goal with Ha : Ok _ = Ok (_, _) |- _ => injection Ha as <- <- end. simpl in *.
    match goal with He : _ = Err _ |- _ =>
      rewrite (bool_decide_true (count_where _ _ = 0)) in He; [done|] end.
    apply count_where_zero.
    intros k run Hk. apply andb_false_iff. destruct (decide (TaskRun.TaskID run = id)) as [Hid|]; [|left; by apply bool_decide_eq_false].
    right. destruct (qi_run_task d Q k run Hk) as (t1 & Ht1 & Hle & _).
    rewrite Hid in Ht1. assert (t1 = t0) as -> by congruence. lia.
Qed.

(** a claim on a reachable state succeeds exactly on the pending tasks that
    have attempts left when the driver does not fail: [BeginAsyncTask] cannot be
    stopped by its foreign key or by the uniqueness of (task, attempt). *)
Theorem begin_succeeds `{Env} id n d :
  (∀ k, env_fault k = None) → queue_inv d →
  match tasks d !! id with
  | Some t =>
      if claimable t then ∃ k run w, BeginAsyncTask id (mkWorld n d) = (Ok (Some (k, run)), w) ∧
        TaskRun.Attempt run = (AsyncTask.Attempts t + 1)%Z ∧
        (TaskRun.Progress run == if is_import t then AsyncTask.Progress t else 0)%Q
      else ∃ w, BeginAsyncTask id (mkWorld n d) = (Ok None, w) ∧ w_db w = d
  | None => ∃ w, BeginAsyncTask id (mkWorld n d) = (Ok None, w) ∧ w_db w = d
  end.
Proof.
  intros Hf Q. destruct (BeginAsyncTask id (mkWorld n d)) as [r w] eqn:Hb.
  pose proof (wp_elim _ _ _ _ _ (begin_effect id _) Hb) as He. simpl in He.
  pose proof (wp_elim _ _ _ _ _ (begin_no_fail id n d Hf Q) Hb) as Hok. simpl in Hok.
  destruct r as [[[k run]|]|e]; [| |done].
  - destruct He as (t & at_ & Ht & Hc & _ & -> & _). rewrite Ht, Hc. by eexists _, _, _.
  - destruct He as [Hd Hnc]. destruct (tasks d !! id) as [t|] eqn:Ht; [rewrite (Hnc t eq_refl)|]; eauto.
Qed.

(** Finishing a running task of a reachable state fails only with the driver. *)
Lemma finish_no_fail `{Env} id s p res err message n d t :
  (∀ k, env_fault k = None) → queue_inv d → tasks d !! id = Some t → AsyncTask.Status t = "running" →
  wp (FinishAsyncTask id s p res err message) (mkWorld n d) (λ r _, r = Ok tt).
Proof.
  intros Hf Q Ht Hs. destruct (qi_running d Q id t Ht Hs) as (k0 & r0 & Hk0 & Hid0 & Hs0).
    destruct (last_row (running_run id) (runs d)) as [[k run]|] eqn:Hl.
    2: { rewrite last_row_none in Hl. specialize (Hl k0 r0 Hk0). unfold running_run in Hl.
         by rewrite !bool_decide_true in Hl. }
    pose proof Hl as (Hk & Hrr & _)%last_row_some. unfold running_run in Hrr. bools.
    unfold FinishAsyncTask. wp_run; intros; no_faults Hf; try done; bools; exfalso.
    all: rewrite ?Hl in *; simplify_eq/=.
    all: rewrite ?count_by_key, ?Ht, ?Hk, ?bool_decide_true in * by done; done.
Qed.

(** finishing a task that a reachable state says is running succeeds when the
    driver does not fail, and closes the task and the record of its current
    attempt together, with the same status, progress and error; whatever fails,
    nothing has changed. *)
Theorem finish_closes_both `{Env} id s p res err message n d t :
  queue_inv d → tasks d !! id = Some t → AsyncTask.Status t = "running" →
  ∃ r w, FinishAsyncTask id s p res err message (mkWorld n d) = (r, w) ∧
    ((∀ k, env_fault k = None) → r = Ok tt) ∧
    match r with
    | Ok _ => ∃ t' k run run',
        tasks (w_db w) = <[id := t']> (tasks d) ∧ runs (w_db w) = <[k := run']> (runs d) ∧
        runs d !! k = Some run ∧ TaskRun.TaskID run = id ∧ TaskRun.Attempt run = AsyncTask.Attempts t ∧
        same_identity t t' ∧ AsyncTask.Status t' = s ∧ TaskRun.Status run' = s ∧
        AsyncTask.Progress t' = p ∧ TaskRun.Progress run' = p ∧
        AsyncTask.Error t' = err ∧ TaskRun.Error run' = Some err ∧ is_Some (TaskRun.CompletedAt run') ∧
        TaskRun.Logs run' = TaskRun.Logs run ++ (if decide (message = "") then [] else [message])
    | Err _ => w_db w = d
    end.
Proof.
  intros Q Ht Hs. destruct (FinishAsyncTask _ _ _ _ _ _ _) as [r w] eqn:Hb. exists r, w. split; [done|].
  destruct (qi_running d Q id t Ht Hs) as (k0 & r0 & Hk0 & Hid0 & Hs0). split.
  - intros Hf. exact (wp_elim _ _ _ _ _ (finish_no_fail id s p res err message n d t Hf Q Ht Hs) Hb).
  - pose proof (wp_elim _ _ _ _ _ (finish_effect id s p res err message _) Hb) as He. simpl in He.
    destruct r as [u|e]; [|done]. destruct He as (k & run & t1 & at_ & logs & Hl & Ht1 & _ & -> & ->).
    assert (t1 = t) as -> by congruence. apply last_row_some in Hl as (Hk & Hrr & _).
    unfold running_run in Hrr. bools. eexists _, k, run, _. split; [done|]. split; [done|]. split; [done|].
    split; [done|]. destruct (qi_run_task d Q k run Hk) as (t2 & Ht2 & _ & Hrun).
    assert (t2 = t) as -> by congruence. split; [symmetry; by apply Hrun|].
    do 8 (split; [done|]). simpl. destruct (decide (message = "")) as [->|Hm]; simpl.
    + by rewrite app_nil_r.
    + by rewrite bool_decide_false.
Qed.

(** a start-up recovery leaves no task and no execution record running: other
    tasks fail, and an interrupted cross-drive import becomes a pending task that
    can be claimed again, with its durable import row released; what was not
    running is untouched. *)
Theorem recovery_complete `{Env} n d u w :
  queue_inv d → RecoverInterruptedAsyncTasks (mkWorld n d) = (Ok u, w) →
  (∀ k r, runs (w_db w) !! k = Some r → TaskRun.Status r ≠ "running") ∧
  ∀ id, match tasks d !! id, tasks (w_db w) !! id with
  | None, None => True
  | Some t, Some t' =>
      if negb (is_running t) then t' = t
      else if is_import t then
        claimable t' = true ∧ AsyncTask.Progress t' = AsyncTask.Progress t ∧
        ∀ i, imports (w_db w) !! id = Some i → CrossDriveImport.RunOwner i = None
      else AsyncTask.Status t' = "failed"
  | _, _ => False
  end.
Proof.
  intros Q Hb. destruct (wp_elim _ _ _ _ _ (recover_effect _) Hb) as (at_ & Et & Er & _ & Hi).
  simpl in Et, Er. split.
  - intros k r. rewrite Er, lookup_fmap. intros (r0 & _ & ->)%fmap_Some. apply recovered_run_not_running.
  - intros id. specialize (Hi id). rewrite Et, lookup_fmap in Hi. rewrite Et, lookup_fmap.
    destruct (tasks d !! id) as [t|] eqn:Ht; simpl in *; [|done].
    unfold recovered_task in *. destruct (is_running t) eqn:Hr; simpl; [|done].
    destruct (is_import t) eqn:Him; [|done]. split; [|split; [done|]].
    + unfold claimable. simpl. apply Z.ltb_lt. lia.
    + intros i E. by apply (Hi i).
Qed.

(** * Witnesses *)

Section Witnesses.
#[local] Existing Instance quiet.

Definition sample_task : AsyncTask.t :=
  AsyncTask.mk "quark_to_115_import" "" ∅ "" 0 "" "" 0 3 time_zero 0.

(** A database with one created task, one after its claim, one after its recovery. *)
Definition sample_created : Database :=
  w_db (run_op (QCreate "t1" sample_task) (mkWorld 0 empty_database)).2.
Definition sample_claim : res (option (Z * TaskRun.t)) * World Database :=
  BeginAsyncTask "t1" (mkWorld 5 sample_created).
Definition sample_running : Database := w_db sample_claim.2.
Definition sample_finished : Database :=
  w_db (FinishAsyncTask "t1" "completed" 100 "" "" "done" (mkWorld 9 sample_running)).2.

Lemma queue_any_run op n d : op_allowed op → queue_any d (w_db (run_op op (mkWorld n d)).2).
Proof.
  intros Hop. exists op. split; [done|]. eexists _, n, _, _. split; [apply surjective_pairing|done].
Qed.

Lemma sample_created_any : queue_any empty_database sample_created.
Proof. apply (queue_any_run (QCreate "t1" sample_task) 0). split; [by right|done]. Qed.

Lemma sample_running_any : queue_any sample_created sample_running.
Proof.
  replace sample_running with (w_db (run_op (QBegin "t1") (mkWorld 5 sample_created)).2)
    by (vm_compute; reflexivity).
  by apply queue_any_run.
Qed.

Lemma sample_inv : queue_inv sample_created ∧ queue_inv sample_running.
Proof.
  assert (queue_inv sample_created) as Hc.
  { destruct sample_created_any as (op & Hop & Hs). apply (step_inv op empty_database); [done| |done].
    by apply empty_queue_inv. }
  split; [done|]. destruct sample_running_any as (op & Hop & Hs). by apply (step_inv op sample_created).
Qed.

Lemma queue_invariant_reachable_witness : queue_inv sample_running.
Proof.
  apply (queue_invariant_reachable empty_database); [reflexivity..|].
  eapply rtc_l; [apply sample_created_any|]. apply rtc_once, sample_running_any.
Defined.

Lemma terminal_tasks_frozen_witness :
  tasks (w_db (run_op QRecover (mkWorld 20 sample_finished)).2) !! "t1" = tasks sample_finished !! "t1".
Proof.
  destruct (tasks sample_finished !! "t1") as [t|] eqn:E; [|vm_compute in E; discriminate E].
  apply (terminal_tasks_frozen sample_finished); [exact E| |by apply rtc_once, queue_any_run].
  left. assert (Some (AsyncTask.Status t) = Some "completed") as [= Hs]; [|exact Hs].
  change (Some (AsyncTask.Status t)) with (AsyncTask.Status <$> Some t). rewrite <-E. vm_compute. reflexivity.
Defined.

Lemma claim_exclusive_witness :
  is_ok sample_claim.1 = true ∧ ∀ y, (BeginAsyncTask "t1" (mkWorld 9 sample_running)).1 ≠ Ok (Some y).
Proof.
  split; [vm_compute; reflexivity|].
  destruct sample_claim as [[[x|]|e] d1] eqn:E;
    [|apply (f_equal fst) in E; vm_compute in E; discriminate E..].
  eapply (claim_exclusive "t1" 5 sample_created x d1 sample_running 9 _ _ E);
    [|apply surjective_pairing].
  unfold sample_running. rewrite E. apply rtc_refl.
Defined.

Lemma begin_succeeds_witness :
  ∃ k run w, BeginAsyncTask "t1" (mkWorld 5 sample_created) = (Ok (Some (k, run)), w) ∧
    TaskRun.Attempt run = 1%Z.
Proof.
  pose proof (begin_succeeds "t1" 5 sample_created quiet_ok (proj1 sample_inv)) as H.
  destruct (tasks sample_created !! "t1") as [t|] eqn:E; [|vm_compute in E; discriminate E].
  assert (claimable t = true ∧ AsyncTask.Attempts t = 0%Z) as [Hc Ha].
  { vm_compute in E. injection E as <-. done. }
  rewrite Hc in H. destruct H as (k & run & w & Hb & Hat & _). exists k, run, w.
  split; [exact Hb|]. rewrite Hat, Ha. reflexivity.
Defined.

Lemma finish_closes_both_witness :
  ∃ r w, FinishAsyncTask "t1" "completed" 100 "" "" "done" (mkWorld 9 sample_running) = (r, w) ∧ r = Ok tt.
Proof.
  destruct (tasks sample_running !! "t1") as [t|] eqn:E; [|vm_compute in E; discriminate E].
  assert (AsyncTask.Status t = "running") as Hs by (vm_compute in E; injection E as <-; reflexivity).
  destruct (finish_closes_both "t1" "completed" 100 "" "" "done" 9 sample_running t
    (proj2 sample_inv) E Hs) as (r & w & Hb & Hok & _).
  exists r, w. split; [exact Hb|]. apply Hok, quiet_ok.
Defined.

Lemma recovery_complete_witness :
  ∃ w, RecoverInterruptedAsyncTasks (mkWorld 9 sample_running) = (Ok tt, w) ∧
    ∀ k r, runs (w_db w) !! k = Some r → TaskRun.Status r ≠ "running".
Proof.
  assert (RecoverInterruptedAsyncTasks (mkWorld 9 sample_running) =
    (Ok tt, (RecoverInterruptedAsyncTasks (mkWorld 9 sample_running)).2)) as E by (vm_compute; reflexivity).
  eexists. split; [exact E|].
  apply (recovery_complete 9 sample_running tt _ (proj2 sample_inv) E).
Defined.
End Witnesses.
