(* ===== verification/ImportStore.v ===== *)
(** The durable state of cross-drive imports: imports, their items, upload parts
    and download segments ([src/internal/storage/cross_drive.go]).  One
    definition per method of [storage.DB]. *)
From S2P Require Import Prelude GoStrings GoPath Sql Schema.

Section ImportStore.
Context `{Env}.
Abbreviation Db := (M Database).

(** ** Imports *)

(** [crossDriveBindingEqual], on non-nil arguments. *)
Definition crossDriveBindingEqual (a b : CrossDriveImport.t) : bool :=
  let eq (f : CrossDriveImport.t → string) := bool_decide (f a = f b) in
  if negb (eq CrossDriveImport.QuarkAccountID) || negb (eq CrossDriveImport.QuarkTargetID)
     || negb (eq CrossDriveImport.C115AccountID)
     || negb (eq CrossDriveImport.AutofillLibraryName) || negb (eq CrossDriveImport.AutofillLibraryID)
     || negb (eq CrossDriveImport.AutofillLibraryCID) || negb (eq CrossDriveImport.AutofillSeriesID)
     || negb (eq CrossDriveImport.AutofillTMDBID) || negb (eq CrossDriveImport.AutofillSeriesFolder)
  then false
  else if negb (bool_decide (join nul_string (CrossDriveImport.SelectedSourceIDs a)
                             = join nul_string (CrossDriveImport.SelectedSourceIDs b)))
          || negb (bool_decide (join nul_string (CrossDriveImport.ExpectedEpisodes a)
                                = join nul_string (CrossDriveImport.ExpectedEpisodes b)))
  then false
  else true.

(** The row the [INSERT] of [CreateCrossDriveImport] writes: counters at zero, no
    roots, no owner. *)
Definition inserted_import (created updated : Z) (phase : string) (s : CrossDriveImport.t) : CrossDriveImport.t :=
  CrossDriveImport.mk (CrossDriveImport.PriorTaskID s) phase (CrossDriveImport.QuarkAccountID s)
    (CrossDriveImport.QuarkTargetID s) (CrossDriveImport.C115AccountID s)
    (CrossDriveImport.SelectedSourceIDs s) (CrossDriveImport.AutofillLibraryName s)
    (CrossDriveImport.AutofillLibraryID s) (CrossDriveImport.AutofillLibraryCID s)
    (CrossDriveImport.AutofillSeriesID s) (CrossDriveImport.AutofillTMDBID s)
    (CrossDriveImport.AutofillSeriesFolder s) (CrossDriveImport.ExpectedEpisodes s)
    [] (CrossDriveImport.DestinationCID s) 0 0 0 0 "" false None "" created updated.

(** The row copied from an item of the prior task. *)
Definition retried_item (taskID : string) (at_ : Z) (r : CrossDriveItem.t) : CrossDriveItem.t :=
  let complete := Z.eqb (CrossDriveItem.DownloadedBytes r) (CrossDriveItem.Size r) in
  CrossDriveItem.mk taskID (CrossDriveItem.SourceFileID r) (CrossDriveItem.SourceRevision r)
    (CrossDriveItem.RelativePath r) (CrossDriveItem.Name r) (CrossDriveItem.Size r)
    (CrossDriveItem.SHA1 r) (CrossDriveItem.PreSHA1 r)
    (if bool_decide (CrossDriveItem.State r = "verified") then "verified"
     else if bool_decide (CrossDriveItem.State r = "downloaded") && complete then "downloaded"
     else "discovered")
    (CrossDriveItem.SpoolPath r) (if complete then CrossDriveItem.DownloadedBytes r else 0%Z)
    (CrossDriveItem.DestinationParent r) (CrossDriveItem.DestinationID r)
    (if bool_decide (CrossDriveItem.State r = "uploading") then CrossDriveItem.UploadID r else Some "")
    (CrossDriveItem.UploadBucket r) (CrossDriveItem.UploadObject r) (Some "") at_.

(** A row that the unique constraints of [cross_drive_items] forbid next to [r]. *)
Definition item_conflict (taskID source relative : string) : Z → CrossDriveItem.t → bool :=
  λ _ r, bool_decide (CrossDriveItem.TaskID r = taskID)
         && (bool_decide (CrossDriveItem.SourceFileID r = source)
             || bool_decide (CrossDriveItem.RelativePath r = relative)).

Definition of_import (taskID : string) : Z → CrossDriveItem.t → bool :=
  λ _ r, bool_decide (CrossDriveItem.TaskID r = taskID).

Definition id_asc {R} (x y : Z * R) : bool := Z.leb x.1 y.1.

(** One row of the [INSERT .. SELECT]: a fresh rowid, the unique constraints checked. *)
Definition insert_item (d : Database) (r : CrossDriveItem.t) : res Database :=
  if negb (bool_decide (count_where
       (item_conflict (CrossDriveItem.TaskID r) (CrossDriveItem.SourceFileID r) (CrossDriveItem.RelativePath r))
       (items d) = 0))
  then Err (ErrConstraint "UNIQUE constraint failed: cross_drive_items")
  else let n := (items_seq d + 1)%Z in Ok (set_items (<[n := r]> (items d)) n d).

(** [INSERT INTO cross_drive_items .. SELECT .. WHERE task_id = prior], the rows
    in rowid order. *)
Definition copy_items (taskID prior : string) (at_ : Z) (d : Database) : res Database :=
  res_fold insert_item
    (map (λ kr, retried_item taskID at_ kr.2) (select (of_import prior) id_asc (items d))) d.

(** The item of [taskID] with a given source. *)
Definition item_of (taskID source : string) (t : gmap Z CrossDriveItem.t) : option (Z * CrossDriveItem.t) :=
  head (rows_where (λ _ r, bool_decide (CrossDriveItem.TaskID r = taskID)
                           && bool_decide (CrossDriveItem.SourceFileID r = source)) t).

(** The parts of the prior task's items, joined to the new items of the same
    source that still have an upload. *)
Definition copied_parts (taskID prior : string) (d : Database) : list ((Z * Z) * CrossDriveUploadPart) :=
  omap (λ '((itemID, number), part),
    match items d !! itemID with
    | Some original =>
        if bool_decide (CrossDriveItem.TaskID original = prior) then
          match item_of taskID (CrossDriveItem.SourceFileID original) (items d) with
          | Some (id, replacement) =>
              match CrossDriveItem.UploadID replacement with
              | Some u => if bool_decide (u = "") then None else Some ((id, number), part)
              | None => None
              end
          | None => None
          end
        else None
    | None => None
    end) (map_to_list (parts d)).

Definition insert_part (t : gmap (Z * Z) CrossDriveUploadPart) (p : (Z * Z) * CrossDriveUploadPart) :=
  match t !! p.1 with
  | Some _ => Err (ErrConstraint "UNIQUE constraint failed: cross_drive_upload_parts")
  | None => Ok (<[p.1 := p.2]> t)
  end.

Definition copy_parts (taskID prior : string) (d : Database) : res Database :=
  p ← res_fold insert_part (copied_parts taskID prior d) (parts d);
  Ok (set_parts p d).

Definition CreateCrossDriveImport (taskID : string) (state : CrossDriveImport.t) : Db unit :=
  if bool_decide (taskID = "") || bool_decide (CrossDriveImport.QuarkAccountID state = "")
     || bool_decide (CrossDriveImport.QuarkTargetID state = "")
     || bool_decide (CrossDriveImport.C115AccountID state = "") then
    throw (ErrText "cross-drive import accounts, target, and task are required")
  else
    created ← (if Z.eqb (CrossDriveImport.CreatedAt state) time_zero then now
               else mret (CrossDriveImport.CreatedAt state));
    updated ← now;
    let phase := if bool_decide (CrossDriveImport.Phase state = "") then "saving_share"
                 else CrossDriveImport.Phase state in
    existing ← query (λ d, Ok (imports d !! taskID));
    match existing with
    | Some existing =>
        if negb (crossDriveBindingEqual existing state) then
          throw (ErrText ("cross-drive import " +:+ taskID +:+ " destination/source binding changed"))
        else mret tt
    | None =>
        transaction (
          _ ← stmt (λ d,
            match tasks d !! taskID with
            | None => Err (ErrConstraint "FOREIGN KEY constraint failed")
            | Some _ => Ok (tt, set_imports (<[taskID := inserted_import created updated phase state]> (imports d)) d)
            end);
          if negb (bool_decide (CrossDriveImport.PriorTaskID state = "")) then
            t ← now;
            _ ← stmt (λ d, d' ← copy_items taskID (CrossDriveImport.PriorTaskID state) t d; Ok (tt, d'));
            _ ← stmt (λ d, d' ← copy_parts taskID (CrossDriveImport.PriorTaskID state) d; Ok (tt, d'));
            mret (Commit tt)
          else mret (Commit tt))
    end.

Definition GetCrossDriveImport (taskID : string) : Db CrossDriveImport.t :=
  query (λ d, match imports d !! taskID with Some r => Ok r | None => Err ErrNoRows end).

Definition by_path (x y : Z * CrossDriveItem.t) : bool :=
  String.leb (CrossDriveItem.RelativePath x.2) (CrossDriveItem.RelativePath y.2).

Definition ListCrossDriveItems (taskID : string) : Db (list (Z * CrossDriveItem.t)) :=
  query (λ d, Ok (select (of_import taskID) by_path (items d))).

(** The import, its derived destination path, and its items. *)
Definition GetCrossDriveImportDetail (taskID : string)
    : Db (CrossDriveImport.t * string * list (Z * CrossDriveItem.t)) :=
  state ← GetCrossDriveImport taskID;
  let path :=
    if negb (bool_decide (CrossDriveImport.AutofillLibraryName state = ""))
       && negb (bool_decide (CrossDriveImport.AutofillSeriesFolder state = "")) then
      join_path ["/"; CrossDriveImport.AutofillLibraryName state; CrossDriveImport.AutofillSeriesFolder state]
    else if negb (bool_decide (CrossDriveImport.DestinationCID state = "")) then "/emby/_待整理"
    else "" in
  items ← ListCrossDriveItems taskID;
  mret (state, path, items).

(** [run_owner IS NULL OR run_owner = '']. *)
Definition unowned (r : CrossDriveImport.t) : bool :=
  bool_decide (CrossDriveImport.RunOwner r = None) || null_eq (CrossDriveImport.RunOwner r) "".

Definition set_owner (owner : option string) (at_ : Z) (r : CrossDriveImport.t) : CrossDriveImport.t :=
  CrossDriveImport.set_progress (CrossDriveImport.Phase r) (CrossDriveImport.SavedRootIDs r)
    (CrossDriveImport.DestinationCID r) (CrossDriveImport.CurrentFile r) (CrossDriveImport.Error r) owner at_ r.

(** An [UPDATE cross_drive_imports SET f WHERE task_id = ? AND Q]. *)
Definition update_import (taskID : string) (Q : CrossDriveImport.t → bool)
    (f : CrossDriveImport.t → CrossDriveImport.t) (d : Database) : nat * Database :=
  (count_where (by_key taskID Q) (imports d), set_imports (update_where (by_key taskID Q) f (imports d)) d).

Definition owned_by (owner : string) (r : CrossDriveImport.t) : bool := null_eq (CrossDriveImport.RunOwner r) owner.

Definition lost_ownership (taskID : string) : error :=
  ErrText ("cross-drive import " +:+ taskID +:+ " lost run ownership").

Definition ClaimCrossDriveImport (taskID owner : string) : Db unit :=
  t ← now;
  changed ← exec (update_import taskID unowned (set_owner (Some owner) t));
  if negb (bool_decide (changed = 1)) then
    throw (ErrText ("cross-drive import " +:+ taskID +:+ " is owned by another run"))
  else mret tt.

Definition ReleaseCrossDriveImport (taskID owner : string) : Db unit :=
  t ← now;
  _ ← exec (update_import taskID (owned_by owner) (set_owner None t));
  mret tt.

Definition UpdateCrossDriveImport (taskID owner phase destination current errText : string) : Db unit :=
  _ ← (if negb (bool_decide (destination = "")) then
         persisted ← query (λ d, Ok (CrossDriveImport.DestinationCID <$> imports d !! taskID));
         match persisted with
         | Some p => if negb (bool_decide (p = "")) && negb (bool_decide (p = destination)) then
                       throw (ErrText ("cross-drive import " +:+ taskID +:+ " destination CID changed"))
                     else mret tt
         | None => mret tt
         end
       else mret tt);
  t ← now;
  changed ← exec (update_import taskID (owned_by owner) (λ r, CrossDriveImport.set_progress phase
    (CrossDriveImport.SavedRootIDs r)
    (if negb (bool_decide (destination = "")) then destination else CrossDriveImport.DestinationCID r)
    current errText (CrossDriveImport.RunOwner r) t r));
  if negb (bool_decide (changed = 1)) then throw (lost_ownership taskID) else mret tt.

Definition SaveCrossDriveRoots (taskID owner : string) (roots : list string) : Db unit :=
  t ← now;
  changed ← exec (update_import taskID (owned_by owner) (λ r, CrossDriveImport.set_progress "discovering" roots
    (CrossDriveImport.DestinationCID r) (CrossDriveImport.CurrentFile r) (CrossDriveImport.Error r)
    (CrossDriveImport.RunOwner r) t r));
  if negb (bool_decide (changed = 1)) then throw (lost_ownership taskID) else mret tt.

Definition RequestCrossDriveCancellation (taskID : string) : Db unit :=
  t ← now;
  _ ← exec (update_import taskID (λ _, true) (λ r, CrossDriveImport.set_counts (CrossDriveImport.TotalFiles r)
    (CrossDriveImport.CompletedFiles r) (CrossDriveImport.TotalBytes r) (CrossDriveImport.CompletedBytes r)
    true t r));
  mret tt.

(** ** Items *)

Definition run_owned (taskID owner : string) (d : Database) : bool :=
  match imports d !! taskID with Some r => owned_by owner r | None => false end.

(** The item an import discovered, without the columns the database assigns. *)
Record found_item := mkFound {
  fi_SourceFileID : string; fi_SourceRevision : string; fi_RelativePath : string; fi_Name : string;
  fi_Size : Z; fi_SHA1 : string
}.

Definition discovered_item (taskID : string) (i : found_item) (at_ : Z) : CrossDriveItem.t :=
  CrossDriveItem.mk taskID (fi_SourceFileID i) (fi_SourceRevision i) (fi_RelativePath i) (fi_Name i)
    (fi_Size i) (fi_SHA1 i) None "discovered" None 0 None None None None None None at_.

(** What [UpsertCrossDriveItem] compares with the stored row. *)
Definition identity_changed (r : CrossDriveItem.t) (i : found_item) : bool :=
  (negb (bool_decide (CrossDriveItem.SourceRevision r = "")) && negb (bool_decide (fi_SourceRevision i = ""))
     && negb (bool_decide (CrossDriveItem.SourceRevision r = fi_SourceRevision i)))
  || negb (bool_decide (CrossDriveItem.RelativePath r = fi_RelativePath i))
  || negb (bool_decide (CrossDriveItem.Name r = fi_Name i))
  || negb (Z.eqb (CrossDriveItem.Size r) (fi_Size i))
  || (negb (bool_decide (CrossDriveItem.SHA1 r = "")) && negb (bool_decide (fi_SHA1 i = ""))
      && negb (equal_fold (CrossDriveItem.SHA1 r) (fi_SHA1 i))).

(** [INSERT .. WHERE EXISTS(owned) ON CONFLICT(task_id, source_file_id) DO UPDATE]:
    the number of affected rows. *)
Definition upsert_item (taskID owner : string) (i : found_item) (at_ : Z) (d : Database) : res (nat * Database) :=
  if run_owned taskID owner d then
    match item_of taskID (fi_SourceFileID i) (items d) with
    | Some (id, r) =>
        Ok (1, set_items (<[id := CrossDriveItem.set_sha
          (if bool_decide (fi_SHA1 i = "") then CrossDriveItem.SHA1 r else fi_SHA1 i) at_ r]> (items d)) (items_seq d) d)
    | None =>
        d' ← insert_item d (discovered_item taskID i at_); Ok (1, d')
    end
  else Ok (0, d).

Definition UpsertCrossDriveItem (taskID owner : string) (item : found_item) : Db unit :=
  if bool_decide (trim_space (fi_SourceFileID item) = "") then
    throw (ErrText "cross-drive source file ID is required")
  else
    row ← query (λ d, Ok (item_of taskID (fi_SourceFileID item) (items d)));
    _ ← match row with
        | Some (_, r) => if identity_changed r item then
            throw (ErrText ("cross-drive source identity changed for " +:+ fi_SourceFileID item)) else mret tt
        | None => mret tt
        end;
    t ← now;
    changed ← stmt (upsert_item taskID owner item t);
    if bool_decide (changed = 0) then throw (lost_ownership taskID) else mret tt.

Definition FinalizeCrossDriveDiscovery (taskID owner : string) : Db unit :=
  t ← now;
  changed ← exec (λ d, update_import taskID (owned_by owner) (λ r, CrossDriveImport.set_counts
    (Z.of_nat (count_where (of_import taskID) (items d))) (CrossDriveImport.CompletedFiles r)
    (sum_where CrossDriveItem.Size (of_import taskID) (items d)) (CrossDriveImport.CompletedBytes r)
    (CrossDriveImport.CancelRequested r) t r) d);
  if negb (bool_decide (changed = 1)) then throw (lost_ownership taskID) else mret tt.

(** [UPDATE cross_drive_items SET f WHERE id = ? AND task_id = ? AND EXISTS(owned)]. *)
Definition update_item (itemID : Z) (taskID owner : string) (f : CrossDriveItem.t → CrossDriveItem.t)
    (d : Database) : nat * Database :=
  let P := by_key itemID (λ r, bool_decide (CrossDriveItem.TaskID r = taskID) && run_owned taskID owner d) in
  (count_where P (items d), set_items (update_where P f (items d)) (items_seq d) d).

Definition item_lost (itemID : Z) : error :=
  ErrText ("cross-drive item " +:+ pretty itemID +:+ " lost run ownership").

Definition UpdateCrossDriveItemDownload (itemID : Z) (taskID owner state spool : string) (downloaded : Z) : Db unit :=
  t ← now;
  changed ← exec (update_item itemID taskID owner
    (CrossDriveItem.set_download state (Some spool) downloaded (Some "") t));
  if negb (bool_decide (changed = 1)) then throw (item_lost itemID) else mret tt.

Definition UpdateCrossDriveItemHashes (itemID : Z) (taskID owner sha pre : string) : Db unit :=
  t ← now;
  _ ← exec (update_item itemID taskID owner (λ r, CrossDriveItem.set_download "downloaded"
    (CrossDriveItem.SpoolPath r) (CrossDriveItem.Size r) (CrossDriveItem.Error r) t
    (CrossDriveItem.set_hashes sha pre r)));
  mret tt.

Definition ResetCrossDriveUpload (itemID : Z) (taskID owner : string) : Db unit :=
  transaction (
    _ ← exec (λ d, (tt, set_parts (delete_where (λ k _, Z.eqb k.1 itemID) (parts d)) d));
    t ← now;
    _ ← exec (update_item itemID taskID owner (CrossDriveItem.set_upload "downloaded" "" "" "" t));
    mret (Commit tt)).

Definition SaveCrossDriveUploadSession (itemID : Z) (taskID owner uploadID bucket object : string) : Db unit :=
  t ← now;
  _ ← exec (update_item itemID taskID owner (CrossDriveItem.set_upload "uploading" uploadID bucket object t));
  mret tt.

Definition SaveCrossDriveUploadPart (itemID partNumber : Z) (etag : string) (size : Z) : Db unit :=
  stmt (λ d, match items d !! itemID with
             | None => Err (ErrConstraint "FOREIGN KEY constraint failed")
             | Some _ => Ok (tt, set_parts (<[(itemID, partNumber) := mkPart etag size]> (parts d)) d)
             end).

(** ** Spool segments *)

Definition ListCrossDriveDownloadSegments (spool : string) : Db (gmap Z Z) :=
  query (λ d, Ok (list_to_map (map (λ kr, (kr.1.2, kr.2))
    (rows_where (λ k _, bool_decide (k.1 = spool)) (segments d))))).

(** [ORDER BY updated_at DESC, id DESC]. *)
Definition recent_first (x y : Z * CrossDriveItem.t) : bool :=
  Z.ltb (CrossDriveItem.UpdatedAt y.2) (CrossDriveItem.UpdatedAt x.2)
  || (Z.eqb (CrossDriveItem.UpdatedAt y.2) (CrossDriveItem.UpdatedAt x.2) && Z.leb y.1 x.1).

Definition FindReusableCrossDriveSpool (sourceFileID : string) (size : Z) : Db string :=
  query (λ d, Ok (match head (select (λ _ r, bool_decide (CrossDriveItem.SourceFileID r = sourceFileID)
      && Z.eqb (CrossDriveItem.Size r) size && negb (bool_decide (nstr (CrossDriveItem.SpoolPath r) = "")))
      recent_first (items d)) with
    | Some (_, r) => nstr (CrossDriveItem.SpoolPath r)
    | None => ""
    end)).

Definition SaveCrossDriveDownloadSegment (spool taskID owner : string) (segment size : Z) : Db unit :=
  changed ← exec (λ d, if run_owned taskID owner d
    then (1, set_segments (<[(spool, segment) := size]> (segments d)) d) else (0, d));
  if bool_decide (changed = 0) then throw (lost_ownership taskID) else mret tt.

Definition is_verified (taskID : string) : Z → CrossDriveItem.t → bool :=
  λ k r, of_import taskID k r && bool_decide (CrossDriveItem.State r = "verified").

Definition MarkCrossDriveItemVerified (itemID : Z) (taskID owner parent destination : string) : Db unit :=
  transaction (
    t ← now;
    changed ← exec (update_item itemID taskID owner (CrossDriveItem.set_verified parent destination t));
    if negb (bool_decide (changed = 1)) then throw (item_lost itemID) else
    t ← now;
    _ ← exec (λ d, update_import taskID (owned_by owner) (λ r, CrossDriveImport.set_counts
      (CrossDriveImport.TotalFiles r) (Z.of_nat (count_where (is_verified taskID) (items d)))
      (CrossDriveImport.TotalBytes r) (sum_where CrossDriveItem.Size (is_verified taskID) (items d))
      (CrossDriveImport.CancelRequested r) t r) d);
    mret (Commit tt)).

Definition MarkCrossDriveItemFailed (itemID : Z) (taskID owner message : string) : Db unit :=
  t ← now;
  _ ← exec (update_item itemID taskID owner (λ r, CrossDriveItem.set_download "failed"
    (CrossDriveItem.SpoolPath r) (CrossDriveItem.DownloadedBytes r) (Some message) t r));
  mret tt.

End ImportStore.

#[global] Arguments update_import : simpl never.
#[global] Arguments update_item : simpl never.
#[global] Arguments upsert_item : simpl never.
