(* ===== verification/ImportProofs.v ===== *)
(** Correctness of the cross-drive import store: constraints that always hold,
    what no operation ever changes, who may write, the resume of a failed import,
    and the counters of the verified files. *)
From S2P Require Import Prelude GoStrings GoPath Sql Schema TaskStore TaskProofs ImportStore.

(** ** The invariant and what is kept *)

Record import_inv (d : Database) : Prop := {
  ii_id : ∀ n r, items d !! n = Some r → (n ≤ items_seq d)%Z;
  ii_import : ∀ n r, items d !! n = Some r → is_Some (imports d !! CrossDriveItem.TaskID r);
  ii_unique : ∀ n m r s, items d !! n = Some r → items d !! m = Some s →
    CrossDriveItem.TaskID r = CrossDriveItem.TaskID s →
    CrossDriveItem.SourceFileID r = CrossDriveItem.SourceFileID s
    ∨ CrossDriveItem.RelativePath r = CrossDriveItem.RelativePath s → n = m;
  ii_part : ∀ k p, parts d !! k = Some p → is_Some (items d !! k.1)
}.

(** What a persisted import never loses: its binding, and its destination once known. *)
Record import_kept (i i' : CrossDriveImport.t) : Prop := {
  ik_binding : ∀ b, crossDriveBindingEqual i' b = crossDriveBindingEqual i b;
  ik_sources : CrossDriveImport.SelectedSourceIDs i' = CrossDriveImport.SelectedSourceIDs i;
  ik_prior : CrossDriveImport.PriorTaskID i' = CrossDriveImport.PriorTaskID i;
  ik_destination : CrossDriveImport.DestinationCID i ≠ "" →
    CrossDriveImport.DestinationCID i' = CrossDriveImport.DestinationCID i;
  ik_cancel : CrossDriveImport.CancelRequested i = true → CrossDriveImport.CancelRequested i' = true
}.

(** The identity of a source file. *)
Definition item_kept (r r' : CrossDriveItem.t) : Prop :=
  CrossDriveItem.TaskID r' = CrossDriveItem.TaskID r ∧
  CrossDriveItem.SourceFileID r' = CrossDriveItem.SourceFileID r ∧
  CrossDriveItem.SourceRevision r' = CrossDriveItem.SourceRevision r ∧
  CrossDriveItem.RelativePath r' = CrossDriveItem.RelativePath r ∧
  CrossDriveItem.Name r' = CrossDriveItem.Name r ∧ CrossDriveItem.Size r' = CrossDriveItem.Size r.

Definition rows_kept {K R} `{Countable K} (P : R → R → Prop) (t t' : gmap K R) : Prop :=
  ∀ k r, t !! k = Some r → ∃ r', t' !! k = Some r' ∧ P r r'.

(** A sound change of the database. *)
Definition sound (d d' : Database) : Prop :=
  import_inv d → import_inv d' ∧ rows_kept import_kept (imports d) (imports d')
                 ∧ rows_kept item_kept (items d) (items d').

#[global] Instance import_kept_preorder : PreOrder import_kept.
Proof.
  split; [done|]. intros a b c [] []. split; try congruence; [|tauto].
  intros Ha. rewrite <-ik_destination0 in Ha |- * by done. auto.
Qed.
#[global] Instance item_kept_preorder : PreOrder item_kept.
Proof. split; [done|]. intros a b c. unfold item_kept. intuition congruence. Qed.
#[global] Instance rows_kept_preorder {K R} `{Countable K} (P : R → R → Prop) `{!PreOrder P} :
  PreOrder (rows_kept (K := K) P).
Proof.
  split; [intros t k r Hk; by exists r|]. intros t1 t2 t3 H1 H2 k r Hk.
  destruct (H1 k r Hk) as (r2 & Hk2 & ?). destruct (H2 k r2 Hk2) as (r3 & ? & ?).
  exists r3. split; [done|]. by etrans.
Qed.
#[global] Instance sound_preorder : PreOrder sound.
Proof.
  split; [intros d Q; split; [done|by split]|]. intros d1 d2 d3 H1 H2 Q.
  destruct (H1 Q) as (Q2 & ? & ?). destruct (H2 Q2) as (Q3 & ? & ?).
  split; [done|]. split; by etrans.
Qed.

Lemma rows_kept_update {K R} `{Countable K} (P : R → R → Prop) `{!Reflexive P} W f (t : gmap K R) :
  (∀ k r, t !! k = Some r → W k r = true → P r (f r)) → rows_kept P t (update_where W f t).
Proof.
  intros Hf k r Hk. rewrite lookup_update_where, Hk. simpl. eexists. split; [done|].
  destruct (W k r) eqn:E; [by eapply Hf|done].
Qed.

Lemma update_dom {K R} `{Countable K} W (f : R → R) (t : gmap K R) k :
  is_Some (update_where W f t !! k) ↔ is_Some (t !! k).
Proof. rewrite lookup_update_where. by rewrite fmap_is_Some. Qed.

(** Changing imports only. *)
Lemma sound_imports d W f :
  (∀ k r, imports d !! k = Some r → W k r = true → import_kept r (f r)) →
  sound d (set_imports (update_where W f (imports d)) d).
Proof.
  intros Hf [Q1 Q2 Q3 Q4]. split; [|split; [|done]].
  - split; simpl; try done. intros n r Hn. apply update_dom. eauto.
  - by apply rows_kept_update; [apply _|].
Qed.

Lemma sound_update_import taskID Q f d :
  (∀ r, imports d !! taskID = Some r → Q r = true → import_kept r (f r)) →
  sound d (update_import taskID Q f d).2.
Proof.
  intros Hf. apply sound_imports. intros k r Hk. unfold by_key. intros HW. bools. subst. auto.
Qed.

(** Changing items without touching their identity. *)
Lemma sound_update_items W f d :
  (∀ r, item_kept r (f r)) → sound d (set_items (update_where W f (items d)) (items_seq d) d).
Proof.
  intros Hf [Q1 Q2 Q3 Q4].
  assert (∀ n r, update_where W f (items d) !! n = Some r → ∃ r0, items d !! n = Some r0 ∧ item_kept r0 r) as Hinv.
  { intros n r. rewrite lookup_update_where. intros (r0 & Hn & ->)%fmap_Some. exists r0.
    split; [done|]. destruct (W n r0); [apply Hf|done]. }
  split; [split; simpl|split; [done|]].
  - intros n r (r0 & Hn & _)%Hinv. eauto.
  - intros n r (r0 & Hn & Ht & _)%Hinv. rewrite Ht. eauto.
  - intros n m r s (r0 & Hn & ? & ? & ? & ? & _)%Hinv (s0 & Hm & ? & ? & ? & ? & _)%Hinv Ht Hor.
    apply (Q3 n m r0 s0); [done|done|congruence|]. destruct Hor; [left|right]; congruence.
  - intros k p Hk. apply update_dom. eauto.
  - apply rows_kept_update; [apply _|]. intros. apply Hf.
Qed.

Lemma sound_update_item itemID taskID owner f d :
  (∀ r, item_kept r (f r)) → sound d (update_item itemID taskID owner f d).2.
Proof. apply sound_update_items. Qed.

Lemma sound_parts p d : (∀ k x, p !! k = Some x → is_Some (items d !! k.1)) → sound d (set_parts p d).
Proof. intros Hp [Q1 Q2 Q3 Q4]. split; [by split|done]. Qed.

(** A new row. *)
Lemma sound_insert_item d r d' :
  insert_item d r = Ok d' → is_Some (imports d !! CrossDriveItem.TaskID r) → sound d d'.
Proof.
  unfold insert_item. destruct (negb _) eqn:E; [done|]. intros [= <-] Himp [Q1 Q2 Q3 Q4]. bools.
  assert (items d !! (items_seq d + 1)%Z = None) as Hfresh.
  { destruct (items d !! _) as [x|] eqn:Ex; [|done]. specialize (Q1 _ _ Ex). lia. }
  pose proof (proj1 (count_where_zero _ _) E) as Hz.
  assert (∀ m s, items d !! m = Some s → CrossDriveItem.TaskID s = CrossDriveItem.TaskID r →
    CrossDriveItem.SourceFileID s = CrossDriveItem.SourceFileID r
    ∨ CrossDriveItem.RelativePath s = CrossDriveItem.RelativePath r → False) as Hno.
  { intros m s Hm Ht Hor. specialize (Hz m s Hm). unfold item_conflict in Hz.
    rewrite (bool_decide_true (CrossDriveItem.TaskID s = _)) in Hz by done.
    simpl in Hz. bools. tauto. }
  split; [split; simpl|split; [done|]].
  - intros n x. rewrite lookup_insert_Some. intros [[<- _]|[_ Hn]]; [lia|]. specialize (Q1 n x Hn). lia.
  - intros n x. rewrite lookup_insert_Some. intros [[_ <-]|[_ Hn]]; eauto.
  - intros n m x y. rewrite !lookup_insert_Some. intros [[<- <-]|[Hn Ex]] [[<- <-]|[Hm Ey]] Ht Hor.
    + done.
    + destruct (Hno m y Ey); [done|]. destruct Hor; auto.
    + destruct (Hno n x Ex); auto.
    + by apply (Q3 n m x y).
  - intros k p Hk. destruct (Q4 k p Hk) as [x Hx]. exists x. rewrite lookup_insert_ne; [done|congruence].
  - intros n x Hn. exists x. simpl. rewrite lookup_insert_ne by congruence. done.
Qed.

Lemma sound_new_import d id i :
  imports d !! id = None → sound d (set_imports (<[id := i]> (imports d)) d).
Proof.
  intros Hn [Q1 Q2 Q3 Q4]. split; [split; simpl; try done|split; [|done]].
  - intros n r Hr. destruct (Q2 n r Hr) as [x Hx]. exists x. rewrite lookup_insert_ne; congruence.
  - intros k r Hk. exists r. simpl. rewrite lookup_insert_ne by congruence. done.
Qed.

Lemma item_of_some taskID source (t : gmap Z CrossDriveItem.t) k r :
  item_of taskID source t = Some (k, r) →
  t !! k = Some r ∧ CrossDriveItem.TaskID r = taskID ∧ CrossDriveItem.SourceFileID r = source.
Proof.
  unfold item_of. intros Hh. assert ((k, r) ∈ rows_where (λ _ r, bool_decide (CrossDriveItem.TaskID r = taskID)
    && bool_decide (CrossDriveItem.SourceFileID r = source)) t) as Hin.
  { destruct (rows_where _ t); [done|]. injection Hh as ->. by left. }
  apply elem_of_rows_where in Hin as [Hk HP]. by bools.
Qed.

Lemma item_of_none taskID source (t : gmap Z CrossDriveItem.t) k r :
  item_of taskID source t = None → t !! k = Some r → CrossDriveItem.TaskID r = taskID →
  CrossDriveItem.SourceFileID r ≠ source.
Proof.
  unfold item_of. intros Hh Hk Ht Hs.
  assert ((k, r) ∈ rows_where (λ _ r, bool_decide (CrossDriveItem.TaskID r = taskID)
    && bool_decide (CrossDriveItem.SourceFileID r = source)) t) as Hin.
  { apply elem_of_rows_where. by rewrite !bool_decide_true. }
  destruct (rows_where _ t); [|done]. by apply not_elem_of_nil in Hin.
Qed.

Lemma insert_item_tables d r d' :
  insert_item d r = Ok d' →
  imports d' = imports d ∧ parts d' = parts d ∧ tasks d' = tasks d ∧ segments d' = segments d ∧
  items d' = <[(items_seq d + 1)%Z := r]> (items d) ∧ items_seq d' = (items_seq d + 1)%Z.
Proof. unfold insert_item. destruct (negb _); [done|]. by intros [= <-]. Qed.

Lemma copy_items_sound taskID prior at_ d d' :
  copy_items taskID prior at_ d = Ok d' → is_Some (imports d !! taskID) →
  sound d d' ∧ imports d' = imports d ∧ parts d' = parts d.
Proof.
  unfold copy_items. intros Hc Himp.
  apply (res_fold_inv (λ _ d', sound d d' ∧ imports d' = imports d ∧ parts d' = parts d) _ _ _ _) in Hc;
    [done|done|].
  intros done_ d1 r d2 (Hs & Hi & Hp) Hin Hins. destruct (insert_item_tables _ _ _ Hins) as (Hi2 & Hp2 & _).
  apply list_elem_of_fmap in Hin as ([k r0] & -> & _). split; [|split; congruence].
  etrans; [exact Hs|]. eapply sound_insert_item; [exact Hins|]. simpl. by rewrite Hi.
Qed.

Lemma copied_parts_items taskID prior d k x :
  (k, x) ∈ copied_parts taskID prior d → is_Some (items d !! k.1).
Proof.
  unfold copied_parts. intros Hin. apply list_elem_of_omap in Hin as ([[i n] p] & _ & Hf). simpl in Hf.
  repeat case_match; simplify_eq. by eexists; eapply item_of_some.
Qed.

Lemma copy_parts_sound taskID prior d d' :
  import_inv d → copy_parts taskID prior d = Ok d' → sound d d'.
Proof.
  unfold copy_parts. intros Q Hc. res_inv Hc. apply sound_parts.
  refine (res_fold_inv (λ _ p, ∀ k x, p !! k = Some x → is_Some (items d !! k.1)) _ _ _ _ (ii_part d Q) _ E).
  intros done_ p [k x] p' HP Hin Hins. unfold insert_part in Hins. simpl in Hins.
  destruct (p !! k); [done|]. injection Hins as <-. intros k' x'.
  rewrite lookup_insert_Some. intros [[<- _]|[_ Hk]]; [by eapply copied_parts_items|by eapply HP].
Qed.

Lemma upsert_item_sound taskID owner i at_ d n d' :
  upsert_item taskID owner i at_ d = Ok (n, d') → sound d d'.
Proof.
  unfold upsert_item. destruct (run_owned taskID owner d) eqn:Ho; [|by intros [= _ <-]].
  destruct (item_of _ _ _) as [[id r]|] eqn:Hi.
  - intros [= _ <-]. apply item_of_some in Hi as (Hid & _ & _).
    pose proof (sound_update_items (by_key id (λ x, true))
      (CrossDriveItem.set_sha (if bool_decide (fi_SHA1 i = "") then CrossDriveItem.SHA1 r else fi_SHA1 i) at_) d) as Hs.
    rewrite update_by_key, Hid in Hs. by apply Hs.
  - destruct (insert_item _ _) as [d2|] eqn:Hu; [|done]. intros [= _ <-]. eapply sound_insert_item; [done|]. simpl.
    unfold run_owned in Ho. destruct (imports d !! taskID); [by eexists|done].
Qed.

(** * Every operation is sound *)

Inductive import_op : Type :=
| ICreate (taskID : string) (state : CrossDriveImport.t)
| IClaim (taskID owner : string)
| IRelease (taskID owner : string)
| IUpdate (taskID owner phase destination current err : string)
| IRoots (taskID owner : string) (roots : list string)
| ICancel (taskID : string)
| IUpsert (taskID owner : string) (item : found_item)
| IFinalize (taskID owner : string)
| IDownload (itemID : Z) (taskID owner state spool : string) (downloaded : Z)
| IHashes (itemID : Z) (taskID owner sha pre : string)
| IReset (itemID : Z) (taskID owner : string)
| ISession (itemID : Z) (taskID owner uploadID bucket object : string)
| IPart (itemID partNumber : Z) (etag : string) (size : Z)
| ISegment (spool taskID owner : string) (segment size : Z)
| IVerified (itemID : Z) (taskID owner parent destination : string)
| IFailed (itemID : Z) (taskID owner message : string)
| IQueue (op : queue_op).

Definition run_import `{Env} (op : import_op) : M Database unit :=
  match op with
  | ICreate t s => CreateCrossDriveImport t s
  | IClaim t o => ClaimCrossDriveImport t o
  | IRelease t o => ReleaseCrossDriveImport t o
  | IUpdate t o p d c e => UpdateCrossDriveImport t o p d c e
  | IRoots t o r => SaveCrossDriveRoots t o r
  | ICancel t => RequestCrossDriveCancellation t
  | IUpsert t o i => UpsertCrossDriveItem t o i
  | IFinalize t o => FinalizeCrossDriveDiscovery t o
  | IDownload i t o s p b => UpdateCrossDriveItemDownload i t o s p b
  | IHashes i t o s p => UpdateCrossDriveItemHashes i t o s p
  | IReset i t o => ResetCrossDriveUpload i t o
  | ISession i t o u b k => SaveCrossDriveUploadSession i t o u b k
  | IPart i n e s => SaveCrossDriveUploadPart i n e s
  | ISegment p t o n s => SaveCrossDriveDownloadSegment p t o n s
  | IVerified i t o p d => MarkCrossDriveItemVerified i t o p d
  | IFailed i t o m => MarkCrossDriveItemFailed i t o m
  | IQueue op => run_op op
  end.

(** The queue touches imports only to release them. *)
Definition imports_released (d d' : Database) : Prop :=
  items d' = items d ∧ items_seq d' = items_seq d ∧ parts d' = parts d ∧ segments d' = segments d ∧
  ∃ W at_, imports d' = update_where W (λ r, CrossDriveImport.set_progress (CrossDriveImport.Phase r)
    (CrossDriveImport.SavedRootIDs r) (CrossDriveImport.DestinationCID r) (CrossDriveImport.CurrentFile r)
    reconcile_message None at_ r) (imports d).

Lemma imports_untouched d d' :
  items d' = items d → items_seq d' = items_seq d → parts d' = parts d → segments d' = segments d →
  imports d' = imports d → imports_released d d'.
Proof.
  intros. repeat split; try done. exists (λ _ _, false), 0%Z. rewrite update_where_none; [done|].
  by apply count_where_zero.
Qed.

Lemma queue_op_imports `{Env} op w :
  wp (run_op op) w (λ _ w', imports_released (w_db w) (w_db w') ∧
    (is_recover op = false → imports (w_db w') = imports (w_db w))).
Proof.
  assert (∀ w', w_db w' = w_db w → imports_released (w_db w) (w_db w') ∧
    (is_recover op = false → imports (w_db w') = imports (w_db w))) as Hsame.
  { intros w' ->. split; [by apply imports_untouched|done]. }
  destruct op as [i t|i t s|i|i p|i m|i s p res e m|i|]; simpl in *.
  - apply wp_forget. eapply wp_mono; [apply create_effect|]. intros [t'|e] w'; simpl; [|apply Hsame].
    intros (c & -> & Hn & ->). split; [by apply imports_untouched|done].
  - apply wp_forget. eapply wp_mono; [apply create_scheduled_effect|]. intros [t'|e] w'; simpl; [|apply Hsame].
    intros (c & row & -> & Hn & _ & ->). split; [by apply imports_untouched|done].
  - apply wp_forget. eapply wp_mono; [apply begin_effect|]. intros [[[k run]|]|e] w'; simpl.
    + intros (t & at_ & Ht & Hc & -> & -> & ->). split; [by apply imports_untouched|done].
    + intros [Hd _]. by apply Hsame.
    + apply Hsame.
  - eapply wp_mono; [apply progress_effect|]. intros [u|e] w'; simpl; [|apply Hsame].
    intros (at_ & ->). split; [by apply imports_untouched|done].
  - eapply wp_mono; [apply log_effect|]. intros [u|e] w'; simpl; [|apply Hsame].
    intros (k & run & Hl & ->). split; [by apply imports_untouched|done].
  - eapply wp_mono; [apply finish_effect|]. intros [u|e'] w'; simpl; [|apply Hsame].
    intros (k & run & t & at_ & logs & Hl & Ht & _ & _ & ->). split; [by apply imports_untouched|done].
  - apply wp_forget. eapply wp_mono; [apply cancel_effect|].
    intros [[]|e'] w'; simpl; [|apply Hsame..]. intros (t & at_ & Ht & Hs & ->).
    split; [by apply imports_untouched|done].
  - clear Hsame. destruct w as [n0 d]. unfold RecoverInterruptedAsyncTasks. wp_run.
    all: try (split; [by apply imports_untouched|done]).
    intros _. split; [|done]. repeat split. by eexists _, _.
Qed.

Lemma released_sound d d' : imports_released d d' → sound d d'.
Proof.
  intros (Ei & Es & Ep & _ & W & at_ & Em) Q.
  set (d1 := set_imports (imports d') d). assert (sound d d1) as Hs.
  { unfold d1. rewrite Em. by apply sound_imports. }
  destruct (Hs Q) as ([R1 R2 R3 R4] & Ha & Hb). unfold d1 in *. simpl in *.
  split; [|by rewrite Ei]. split; rewrite ?Ei, ?Es, ?Ep; done.
Qed.

(** Writing the progress or the counters of an import keeps its binding. *)
Lemma set_progress_kept phase roots dest current err owner at_ r :
  (CrossDriveImport.DestinationCID r ≠ "" → dest = CrossDriveImport.DestinationCID r) →
  import_kept r (CrossDriveImport.set_progress phase roots dest current err owner at_ r).
Proof. by split. Qed.

Lemma set_counts_kept tf cf tb cb cancel at_ r :
  (CrossDriveImport.CancelRequested r = true → cancel = true) →
  import_kept r (CrossDriveImport.set_counts tf cf tb cb cancel at_ r).
Proof. by split. Qed.

Create HintDb imports.
#[export] Hint Resolve set_progress_kept set_counts_kept sound_update_import sound_update_item : imports.

Ltac sound_done :=
  simpl; try reflexivity;
  first [ apply sound_update_import; intros; unfold set_owner; auto with imports
        | apply sound_update_item; done | idtac ].

Lemma create_import_sound `{Env} taskID s w :
  import_inv (w_db w) → wp (CreateCrossDriveImport taskID s) w (λ _ w', sound (w_db w) (w_db w')).
Proof.
  intros Q. destruct w as [n0 d]. unfold CreateCrossDriveImport. wp_run; try done; intros _.
  all: ok_inv; try (by apply sound_new_import).
  all: match goal with Hc : copy_items _ _ _ ?d1 = Ok _ |- _ =>
         assert (sound d d1) as Hs by (by apply sound_new_import);
         destruct (copy_items_sound _ _ _ _ _ Hc) as (Hs2 & _ & _);
           [simpl; rewrite lookup_insert_eq; by eexists|] end.
  all: etrans; [exact Hs|]; etrans; [exact Hs2|]; eapply copy_parts_sound; [|done].
  all: by apply Hs2, Hs.
Qed.

Lemma upsert_import_sound `{Env} taskID owner i w :
  import_inv (w_db w) → wp (UpsertCrossDriveItem taskID owner i) w (λ _ w', sound (w_db w) (w_db w')).
Proof.
  intros Q. destruct w as [n0 d]. unfold UpsertCrossDriveItem. wp_run; try done.
  all: by eapply upsert_item_sound.
Qed.

Lemma update_cid_sound `{Env} taskID owner phase dest current err w :
  wp (UpdateCrossDriveImport taskID owner phase dest current err) w (λ _ w', sound (w_db w) (w_db w')).
Proof.
  destruct w as [n0 d]. unfold UpdateCrossDriveImport.
  assert (∀ t, (∀ r, imports d !! taskID = Some r →
      dest = "" ∨ CrossDriveImport.DestinationCID r = "" ∨ CrossDriveImport.DestinationCID r = dest) →
    sound d (update_import taskID (owned_by owner) (λ r, CrossDriveImport.set_progress phase
      (CrossDriveImport.SavedRootIDs r)
      (if negb (bool_decide (dest = "")) then dest else CrossDriveImport.DestinationCID r)
      current err (CrossDriveImport.RunOwner r) t r) d).2) as Hs.
  { intros t Hd. apply sound_update_import. intros r Hr _. apply set_progress_kept. intros Hne.
    destruct (decide (dest = "")) as [->|Hnd]; [done|]. rewrite bool_decide_false by done. simpl.
    destruct (Hd r Hr) as [?|[?|?]]; congruence. }
  wp_run; try done.
  all: apply Hs; intros r Hr; rewrite ?Hr in *; simpl in *; simplify_eq/=; bools; auto.
  all: right; destruct (decide (CrossDriveImport.DestinationCID r = "")); [by left|right].
  all: match goal with Hb : negb _ && negb _ = false |- _ => apply andb_false_iff in Hb as [Hb|Hb]; bools; congruence end.
Qed.

Lemma run_import_sound `{Env} op w :
  import_inv (w_db w) → wp (run_import op) w (λ _ w', sound (w_db w) (w_db w')).
Proof.
  intros Q. destruct op; simpl.
  - by apply create_import_sound.
  - destruct w. unfold ClaimCrossDriveImport. wp_run; sound_done.
  - destruct w. unfold ReleaseCrossDriveImport. wp_run; sound_done.
  - by apply update_cid_sound.
  - destruct w. unfold SaveCrossDriveRoots. wp_run; sound_done.
  - destruct w. unfold RequestCrossDriveCancellation. wp_run; sound_done.
  - by apply upsert_import_sound.
  - destruct w. unfold FinalizeCrossDriveDiscovery. wp_run; sound_done.
  - destruct w. unfold UpdateCrossDriveItemDownload. wp_run; sound_done.
  - destruct w. unfold UpdateCrossDriveItemHashes. wp_run; sound_done.
  - destruct w as [n0 d]. unfold ResetCrossDriveUpload. wp_run; sound_done. intros _.
    etrans; [|by apply (sound_update_item itemID taskID owner _ (set_parts _ d))]. apply sound_parts. intros k x Hk.
    rewrite lookup_delete_where in Hk. apply bind_Some in Hk as (x' & Hk & _). by eapply (ii_part d Q).
  - destruct w. unfold SaveCrossDriveUploadSession. wp_run; sound_done.
  - destruct w as [n0 d]. unfold SaveCrossDriveUploadPart. wp_run; sound_done.
    match goal with Ha : match ?m with _ => _ end = Ok _ |- _ => destruct m eqn:Ei; [|done]; injection Ha as _ <- end.
    apply sound_parts. intros k x. rewrite lookup_insert_Some.
    intros [[<- _]|[_ Hk]]; [by eexists|by eapply (ii_part d Q)].
  - destruct w as [n0 d]. unfold SaveCrossDriveDownloadSegment. wp_run; sound_done.
    all: destruct (run_owned _ _ d); simpl; [|reflexivity]. all: by intros [Q1 Q2 Q3 Q4].
  - destruct w as [n0 d]. unfold MarkCrossDriveItemVerified. wp_run; sound_done. intros _.
    etrans; [by apply (sound_update_item itemID taskID owner (CrossDriveItem.set_verified parent destination t) d)|].
    apply (sound_update_import taskID (owned_by owner) _ (update_item itemID taskID owner _ d).2). intros r _ _. by apply set_counts_kept.
  - destruct w. unfold MarkCrossDriveItemFailed. wp_run; sound_done.
  - eapply wp_mono; [apply queue_op_imports|]. intros r w' [Hr _]. by apply released_sound.
Qed.

(** ** Ownership *)

Lemma set_imports_id d : set_imports (imports d) d = d.
Proof. by destruct d. Qed.
Lemma set_items_id d : set_items (items d) (items_seq d) d = d.
Proof. by destruct d. Qed.

Lemma update_import_unowned taskID owner f d :
  run_owned taskID owner d = false → update_import taskID (owned_by owner) f d = (0, d).
Proof.
  unfold run_owned, update_import. intros Ho. rewrite count_by_key, update_by_key.
  destruct (imports d !! taskID) as [i|]; [rewrite Ho|]; by rewrite set_imports_id.
Qed.

Lemma update_item_unowned itemID taskID owner f d :
  run_owned taskID owner d = false → update_item itemID taskID owner f d = (0, d).
Proof.
  unfold update_item. intros Ho. rewrite count_by_key, update_by_key, Ho.
  destruct (items d !! itemID) as [i|]; rewrite ?andb_false_r; by rewrite set_items_id.
Qed.

Lemma upsert_item_unowned taskID owner i at_ d :
  run_owned taskID owner d = false → upsert_item taskID owner i at_ d = Ok (0, d).
Proof. unfold upsert_item. by intros ->. Qed.

(** The operations a run performs on its import, with their task and run. *)
Definition run_of (op : import_op) : option (string * string) :=
  match op with
  | IRelease t o | IUpdate t o _ _ _ _ | IRoots t o _ | IUpsert t o _ | IFinalize t o
  | IDownload _ t o _ _ _ | IHashes _ t o _ _ | ISession _ t o _ _ _ | ISegment _ t o _ _
  | IVerified _ t o _ _ | IFailed _ t o _ => Some (t, o)
  | _ => None
  end.

(** Those whose caller is told that it no longer owns the import. *)
Definition reports_loss (op : import_op) : bool :=
  match op with
  | IUpdate _ _ _ _ _ _ | IRoots _ _ _ | IUpsert _ _ _ | IFinalize _ _ | IDownload _ _ _ _ _ _
  | ISegment _ _ _ _ _ | IVerified _ _ _ _ _ => true
  | _ => false
  end.

#[local] Opaque update_import update_item upsert_item.

Lemma unowned_changes_nothing `{Env} op task owner w :
  run_of op = Some (task, owner) → run_owned task owner (w_db w) = false →
  wp (run_import op) w (λ r w', w_db w' = w_db w ∧ (reports_loss op = true → is_ok r = false)).
Proof.
  intros Hr Ho. destruct w as [n0 d]. destruct op; try done; simpl in Hr; injection Hr as -> ->; simpl.
  all: unfold ReleaseCrossDriveImport, UpdateCrossDriveImport, SaveCrossDriveRoots, UpsertCrossDriveItem,
    FinalizeCrossDriveDiscovery, UpdateCrossDriveItemDownload, UpdateCrossDriveItemHashes,
    SaveCrossDriveUploadSession, SaveCrossDriveDownloadSegment, MarkCrossDriveItemVerified,
    MarkCrossDriveItemFailed.
  all: simpl in Ho; wp_run; try done.
  all: rewrite ?(update_import_unowned _ _ _ _ Ho), ?(update_item_unowned _ _ _ _ _ Ho),
    ?(upsert_item_unowned _ _ _ _ _ Ho), ?Ho in *; ok_inv; done.
Qed.

#[local] Transparent update_import update_item upsert_item.

(** The run that owns an import. *)
Definition owner_is (task owner : string) (d : Database) : Prop :=
  ∃ i, imports d !! task = Some i ∧ CrossDriveImport.RunOwner i = Some owner.

Lemma owner_update task owner id Q f d :
  (∀ r, Q r = true → CrossDriveImport.RunOwner r = Some owner → id = task →
        CrossDriveImport.RunOwner (f r) = Some owner) →
  owner_is task owner d → owner_is task owner (update_import id Q f d).2.
Proof.
  intros Hf (i & Hi & Ho). unfold owner_is, update_import. simpl. rewrite lookup_update_by_key, Hi. simpl.
  eexists. split; [done|]. destruct (bool_decide (task = id)) eqn:E; simpl; [|done]. bools. subst.
  destruct (Q i) eqn:EQ; [by apply Hf|done].
Qed.

Lemma owner_same task owner d d' : imports d' = imports d → owner_is task owner d → owner_is task owner d'.
Proof. unfold owner_is. by intros ->. Qed.

(** The operations that may take an import away from its run. *)
Definition disowns (task owner : string) (op : import_op) : bool :=
  match op with
  | IRelease t o => bool_decide (t = task) && bool_decide (o = owner)
  | IQueue op => is_recover op
  | _ => false
  end.

Ltac owner_done :=
  simpl; first
  [ done
  | apply owner_update; [|done]; intros r HQ Hro ?; unfold unowned, owned_by, null_eq in HQ;
    rewrite ?Hro in HQ; subst; repeat case_bool_decide; simplify_eq/=; done
  | by eapply owner_same; [|done] ].

Lemma owner_new_import task owner id i d :
  imports d !! id = None → owner_is task owner d → owner_is task owner (set_imports (<[id := i]> (imports d)) d).
Proof.
  intros Hn (j & Hj & Ho). exists j. simpl. split; [|done]. rewrite lookup_insert_ne; congruence.
Qed.

Lemma upsert_item_imports taskID owner i at_ d n d' :
  upsert_item taskID owner i at_ d = Ok (n, d') → imports d' = imports d.
Proof.
  unfold upsert_item. intros Hu. ok_inv; try done. by eapply insert_item_tables.
Qed.

#[local] Opaque update_import update_item upsert_item.

Lemma owner_preserved `{Env} task owner op w :
  owner ≠ "" → disowns task owner op = false → owner_is task owner (w_db w) →
  wp (run_import op) w (λ _ w', owner_is task owner (w_db w')).
Proof.
  intros Hne Hd Ho. destruct w as [n0 d]. destruct op; simpl in *.
  - unfold CreateCrossDriveImport. wp_run; try done; intros _; ok_inv; try (by apply owner_new_import).
    all: match goal with Hc : copy_parts _ _ _ = _ |- _ => unfold copy_parts in Hc end; ok_inv.
    all: match goal with Hc : copy_items _ _ _ _ = _ |- _ =>
      apply copy_items_sound in Hc as (_ & Hi & _); [|simpl; rewrite lookup_insert_eq; by eexists] end.
    all: eapply owner_same; [simpl; exact Hi|by apply owner_new_import].
  - unfold ClaimCrossDriveImport. wp_run; owner_done.
  - unfold ReleaseCrossDriveImport. wp_run; owner_done.
  - unfold UpdateCrossDriveImport. wp_run; owner_done.
  - unfold SaveCrossDriveRoots. wp_run; owner_done.
  - unfold RequestCrossDriveCancellation. wp_run; owner_done.
  - unfold UpsertCrossDriveItem. wp_run; try done.
    all: by eapply owner_same; [eapply upsert_item_imports|].
  - unfold FinalizeCrossDriveDiscovery. wp_run; owner_done.
  - unfold UpdateCrossDriveItemDownload. wp_run; owner_done.
  - unfold UpdateCrossDriveItemHashes. wp_run; owner_done.
  - unfold ResetCrossDriveUpload. wp_run; owner_done.
  - unfold SaveCrossDriveUploadSession. wp_run; owner_done.
  - unfold SaveCrossDriveUploadPart. wp_run; ok_inv; owner_done.
  - unfold SaveCrossDriveDownloadSegment. wp_run; try done; destruct (run_owned _ _ d); owner_done.
  - unfold MarkCrossDriveItemVerified. wp_run; try done; intros _. owner_done.
  - unfold MarkCrossDriveItemFailed. wp_run; owner_done.
  - eapply wp_mono; [apply queue_op_imports|]. intros r w' [_ Hr]. eapply owner_same; [|done]. by apply Hr.
Qed.
#[local] Transparent update_import update_item upsert_item.

(** * Runs of operations *)

(** One operation in some environment, whatever it returns. *)
Definition import_step (op : import_op) (d d' : Database) : Prop :=
  ∃ (E : Env) n r w', run_import op (mkWorld n d) = (r, w') ∧ w_db w' = d'.
Definition import_any (d d' : Database) : Prop := ∃ op, import_step op d d'.

Lemma import_step_sound op d d' : import_step op d d' → sound d d'.
Proof.
  intros (E & n & r & w' & Hrun & <-) Q.
  exact (wp_elim _ _ _ _ _ (run_import_sound op (mkWorld n d) Q) Hrun Q).
Qed.

Lemma import_steps_sound d d' : rtc import_any d d' → sound d d'.
Proof.
  induction 1 as [|d1 d2 d3 [op Hs] _ IH]; [reflexivity|]. etrans; [by eapply import_step_sound|done].
Qed.

(** Steps that do not take [task] away from the run [owner]. *)
Definition import_foreign (task owner : string) (d d' : Database) : Prop :=
  ∃ op, disowns task owner op = false ∧ import_step op d d'.

Lemma owner_foreign task owner d d' :
  owner ≠ "" → rtc (import_foreign task owner) d d' → owner_is task owner d → owner_is task owner d'.
Proof.
  intros Hne. induction 1 as [|d1 d2 d3 (op & Hd & E & n & r & w' & Hrun & <-) _ IH]; [done|].
  intros Ho. apply IH. exact (wp_elim _ _ _ _ _ (owner_preserved task owner op (mkWorld n d1) Hne Hd Ho) Hrun).
Qed.

Lemma claim_effect `{Env} task owner w :
  wp (ClaimCrossDriveImport task owner) w (λ r w', match r with
  | Ok _ => owner_is task owner (w_db w') ∧ ∃ i, imports (w_db w) !! task = Some i ∧ unowned i = true
  | Err _ => w_db w' = w_db w
  end).
Proof.
  destruct w as [n0 d]. unfold ClaimCrossDriveImport, update_import. wp_run; try done; bools.
  all: rewrite count_by_key in *; rewrite update_by_key.
  all: destruct (imports d !! task) as [i|] eqn:Hi; [|by rewrite ?set_imports_id].
  all: destruct (unowned i) eqn:Hu; [|by rewrite ?set_imports_id]; try done.
  split; [|eauto]. eexists. simpl. by rewrite lookup_insert_eq.
Qed.

(** * Properties *)

(** C18: starting from empty tables, under every clock and every pattern of
    driver failures and whatever the order of operations, the import tables keep
    their keys, references and uniqueness constraints, and from any point on no
    operation changes the binding of a persisted import, its chosen sources, a
    destination CID once known or a cancellation request, nor the identity
    (source, revision, path, name and size) of a discovered file. *)
Theorem import_binding_immutable d0 d d' :
  items d0 = ∅ → parts d0 = ∅ → rtc import_any d0 d → rtc import_any d d' →
  import_inv d' ∧ rows_kept import_kept (imports d) (imports d') ∧
  rows_kept item_kept (items d) (items d').
Proof.
  intros Hi Hp H1 H2. assert (import_inv d0) as Q.
  { split; rewrite ?Hi, ?Hp; intros *; rewrite ?lookup_empty; done. }
  destruct (import_steps_sound _ _ H1 Q) as (Q1 & _). exact (import_steps_sound _ _ H2 Q1).
Qed.

(** a run that does not own an import changes nothing through any of the
    operations it performs on it, and those that report the loss of ownership
    return an error. *)
Theorem unowned_run_is_inert `{Env} op task owner n d r w :
  run_of op = Some (task, owner) → run_owned task owner d = false →
  run_import op (mkWorld n d) = (r, w) →
  w_db w = d ∧ (reports_loss op = true → is_ok r = false).
Proof.
  intros Hr Ho Hrun. exact (wp_elim _ _ _ _ _ (unowned_changes_nothing op task owner (mkWorld n d) Hr Ho) Hrun).
Qed.

(** Between a successful claim of an import and its release by the same run
    (or a start-up recovery) no other claim of it succeeds, whatever operations
    interleave and fail: one run at a time transfers an import. *)
Theorem import_claim_exclusive `{Env} task owner owner' n d u w d' m r w' :
  owner ≠ "" → ClaimCrossDriveImport task owner (mkWorld n d) = (Ok u, w) →
  rtc (import_foreign task owner) (w_db w) d' →
  ClaimCrossDriveImport task owner' (mkWorld m d') = (r, w') →
  is_ok r = false ∧ w_db w' = d' ∧ run_owned task owner d' = true.
Proof.
  intros Hne Hc Hs Hc'. destruct (wp_elim _ _ _ _ _ (claim_effect task owner _) Hc) as [Ho _].
  apply (owner_foreign _ _ _ _ Hne Hs) in Ho as (i & Hi & Ho).
  pose proof (wp_elim _ _ _ _ _ (claim_effect task owner' _) Hc') as He.
  assert (run_owned task owner d' = true) as Hro.
  { unfold run_owned, owned_by, null_eq. rewrite Hi, Ho. by apply bool_decide_eq_true. }
  destruct r as [u'|e]; [|done]. exfalso. destruct He as (_ & j & Hj & Hu). simpl in Hj.
  assert (j = i) as -> by congruence. unfold unowned, null_eq in Hu. rewrite Ho in Hu.
  apply orb_true_iff in Hu as [Hu|Hu]; bools; congruence.
Qed.

(** verifying an item stores its destination and, in the same transaction,
    sets the counters of completed files and bytes of the import to the number
    and the total size of its verified items, which never exceed the totals of
    the discovered items; on any error nothing changes. *)
Theorem verified_counts_exact `{Env} itemID task owner parent destination n d r w :
  (∀ k i, items d !! k = Some i → 0 ≤ CrossDriveItem.Size i)%Z →
  MarkCrossDriveItemVerified itemID task owner parent destination (mkWorld n d) = (r, w) →
  match r with
  | Ok _ => ∃ i it at_,
      imports (w_db w) !! task = Some i ∧ items d !! itemID = Some it ∧
      items (w_db w) = <[itemID := CrossDriveItem.set_verified parent destination at_ it]> (items d) ∧
      CrossDriveImport.CompletedFiles i = Z.of_nat (count_where (is_verified task) (items (w_db w))) ∧
      CrossDriveImport.CompletedBytes i = sum_where CrossDriveItem.Size (is_verified task) (items (w_db w)) ∧
      (1 ≤ CrossDriveImport.CompletedFiles i ≤ Z.of_nat (count_where (of_import task) (items (w_db w))))%Z ∧
      (CrossDriveImport.CompletedBytes i ≤ sum_where CrossDriveItem.Size (of_import task) (items (w_db w)))%Z
  | Err _ => w_db w = d
  end.
Proof.
  intros Hsize Hrun. refine (wp_elim _ (mkWorld n d) (λ r w, match r with Ok _ => _ | Err _ => w_db w = d end) r w _ Hrun).
  clear r w Hrun. unfold MarkCrossDriveItemVerified, update_item, update_import.
  wp_run; try done. intros _. bools. rewrite count_by_key in *. rewrite !update_by_key. simpl.
  destruct (items d !! itemID) as [it|] eqn:Hit; [|done].
  destruct (bool_decide (CrossDriveItem.TaskID it = task)) eqn:Htask; [|done]. bools. simpl in *.
  destruct (run_owned task owner d) eqn:Ho; [|done]. unfold run_owned in Ho.
  destruct (imports d !! task) as [i|] eqn:Hi; [|done]. rewrite Ho.
  eexists _, it, t. rewrite lookup_insert_eq. split; [done|]. split; [done|]. split; [done|].
  split; [done|]. split; [done|]. simpl. assert (∀ k r, is_verified task k r = true → of_import task k r = true) as Hle.
  { intros k r Hv. unfold is_verified in Hv. by bools. }
  split; [|apply sum_where_le; [|done]].
  - split; [|apply inj_le, count_where_le, Hle].
    destruct (decide (count_where (is_verified task) (<[itemID:=CrossDriveItem.set_verified parent destination t it]> (items d)) = 0))
      as [Hz|]; [|lia].
    rewrite count_where_zero in Hz. specialize (Hz itemID _ (lookup_insert_eq _ _ _)).
    unfold is_verified, of_import in Hz. simpl in Hz. by rewrite bool_decide_true in Hz.
  - intros k x. rewrite lookup_insert_Some. intros [[<- <-]|[_ Hk]]; [simpl; by eapply Hsize|by eapply Hsize].
Qed.
