(* ===== verification/ImportRetry.v ===== *)
(** Resuming and discovering: what [CreateCrossDriveImport] carries over from the
    task it retries, and what [UpsertCrossDriveItem] accepts. *)
From S2P Require Import Prelude GoStrings GoPath Sql Schema TaskStore TaskProofs ImportStore ImportProofs.

(** ** Bulk insertion *)

Definition clash (x y : CrossDriveItem.t) : Prop :=
  CrossDriveItem.SourceFileID x = CrossDriveItem.SourceFileID y
  ∨ CrossDriveItem.RelativePath x = CrossDriveItem.RelativePath y.

Lemma insert_item_ok d r :
  (∀ k x, items d !! k = Some x → CrossDriveItem.TaskID x = CrossDriveItem.TaskID r → ¬ clash x r) →
  insert_item d r = Ok (set_items (<[(items_seq d + 1)%Z := r]> (items d)) (items_seq d + 1)%Z d).
Proof.
  intros Hno. unfold insert_item. rewrite bool_decide_true; [done|]. apply count_where_zero.
  intros k x Hk. unfold item_conflict. destruct (decide (CrossDriveItem.TaskID x = CrossDriveItem.TaskID r)) as [Ht|];
    [|by rewrite bool_decide_false].
  specialize (Hno k x Hk Ht). unfold clash in Hno.
  rewrite (bool_decide_false (CrossDriveItem.SourceFileID x = _)) by tauto.
  rewrite (bool_decide_false (CrossDriveItem.RelativePath x = _)) by tauto. by rewrite andb_false_r.
Qed.

Lemma insert_items_ok task L d :
  (∀ k x, items d !! k = Some x → (k ≤ items_seq d)%Z) →
  (∀ r, r ∈ L → CrossDriveItem.TaskID r = task) →
  (∀ k x r, items d !! k = Some x → CrossDriveItem.TaskID x = task → r ∈ L → ¬ clash x r) →
  (∀ i j x y, L !! i = Some x → L !! j = Some y → clash x y → i = j) →
  ∃ d', res_fold insert_item L d = Ok d' ∧ imports d' = imports d ∧ parts d' = parts d ∧
    (∀ k x, items d' !! k = Some x ↔ items d !! k = Some x
       ∨ (items_seq d < k)%Z ∧ L !! Z.to_nat (k - items_seq d - 1) = Some x).
Proof.
  revert d. induction L as [|r L IH]; intros d Hseq Ht Hno Hd.
  { exists d. split; [done|]. split; [done|]. split; [done|]. intros k x. rewrite lookup_nil. naive_solver. }
  assert (CrossDriveItem.TaskID r = task) as Hr by (apply Ht; by left).
  simpl. rewrite insert_item_ok.
  2: { intros k x Hk Hx. apply (Hno k x r Hk); [congruence|by left]. }
  set (d1 := set_items _ _ d). destruct (IH d1) as (d' & Hf & Hi & Hp & Hlk).
  - intros k x. unfold d1. simpl. rewrite lookup_insert_Some. intros [[<- _]|[_ Hk]]; [lia|].
    specialize (Hseq k x Hk). lia.
  - intros s Hs. apply Ht. by right.
  - intros k x s. unfold d1. simpl. rewrite lookup_insert_Some. intros [[<- <-]|[_ Hk]] Hx Hs.
    + intros Hc. apply list_elem_of_lookup in Hs as [j Hj].
      by specialize (Hd 0 (S j) r s eq_refl Hj Hc).
    + apply (Hno k x s Hk Hx). by right.
  - intros i j x y Hx Hy Hc. by specialize (Hd (S i) (S j) x y Hx Hy Hc) as [= ->].
  - exists d'. split; [done|]. split; [done|]. split; [done|]. intros k x. rewrite Hlk. unfold d1. simpl.
    rewrite lookup_insert_Some. destruct (decide (k = items_seq d + 1)%Z) as [->|Hne].
    + replace (items_seq d + 1 - items_seq d - 1)%Z with 0%Z by lia. simpl. split.
      * intros [[[_ ->]|[? _]]|[? _]]; [right; split; [lia|done]|done|lia].
      * intros [Hk|[_ [= ->]]]; [specialize (Hseq _ _ Hk); lia|by left; left].
    + split.
      * intros [[[? _]|[_ Hk]]|[Hk Hl]]; [done|by left|]. right. split; [lia|].
        replace (Z.to_nat (k - items_seq d - 1)) with (S (Z.to_nat (k - (items_seq d + 1) - 1))) by lia. done.
      * intros [Hk|[Hk Hl]]; [left; right; done|]. right. split; [lia|].
        replace (Z.to_nat (k - items_seq d - 1)) with (S (Z.to_nat (k - (items_seq d + 1) - 1))) in Hl by lia. done.
Qed.

Lemma insert_parts_ok L t :
  NoDup L.*1 → (∀ k p, (k, p) ∈ L → t !! k = None) →
  ∃ t', res_fold insert_part L t = Ok t' ∧ ∀ k p, t' !! k = Some p ↔ t !! k = Some p ∨ (k, p) ∈ L.
Proof.
  revert t. induction L as [|[k0 p0] L IH]; intros t Hnd Hno.
  { exists t. split; [done|]. intros k p. rewrite elem_of_nil. tauto. }
  apply NoDup_cons in Hnd as [Hk0 Hnd]. simpl. unfold insert_part at 1. simpl.
  rewrite (Hno k0 p0) by (by left). destruct (IH (<[k0:=p0]> t)) as (t' & Hf & Hlk); [done| |].
  - intros k p Hin. rewrite lookup_insert_ne; [apply (Hno k p); by right|].
    intros ->. apply Hk0. apply list_elem_of_fmap. by exists (k, p).
  - exists t'. split; [done|]. intros k p. rewrite Hlk, lookup_insert_Some, elem_of_cons. split.
    + intros [[[-> ->]|[? ?]]|?]; auto.
    + intros [Hk|[[= -> ->]|?]]; [|auto..]. left. right. split; [|done]. intros <-.
      rewrite (Hno k0 p0) in Hk by (by left). done.
Qed.

Lemma NoDup_omap_fst {A B C} (f : A → option (B * C)) l :
  NoDup l → (∀ x y a b, x ∈ l → y ∈ l → f x = Some a → f y = Some b → a.1 = b.1 → x = y) →
  NoDup (omap f l).*1.
Proof.
  induction l as [|x l IH]; intros Hnd Hinj; [constructor|]. apply NoDup_cons in Hnd as [Hx Hnd].
  assert (NoDup (omap f l).*1) as Hl.
  { apply IH; [done|]. intros y z a b Hy Hz. apply Hinj; by right. }
  simpl. destruct (f x) as [[b c]|] eqn:E; [|done]. simpl. apply NoDup_cons. split; [|done].
  intros Hin. apply list_elem_of_fmap in Hin as ([b' c'] & Heq & Hin). simpl in Heq. subst b'.
  apply list_elem_of_omap in Hin as (y & Hy & Ey). apply Hx.
  rewrite (Hinj x y (b, c) (b, c')); [done|by left|by right|done..].
Qed.

Lemma select_keys {K R} `{Countable K} P le (t : gmap K R) i j k x y :
  select P le t !! i = Some (k, x) → select P le t !! j = Some (k, y) → i = j.
Proof.
  intros Hi Hj.
  assert (NoDup (select P le t)) as Hnd.
  { unfold select. rewrite merge_sort_Permutation. unfold rows_where. apply NoDup_filter, NoDup_map_to_list. }
  assert (x = y) as ->; [|by eapply NoDup_lookup].
  pose proof (proj1 (elem_of_select P le t k x) (list_elem_of_lookup_2 _ _ _ Hi)) as [? _].
  pose proof (proj1 (elem_of_select P le t k y) (list_elem_of_lookup_2 _ _ _ Hj)) as [? _]. congruence.
Qed.

Lemma item_of_unique d k r :
  import_inv d → items d !! k = Some r →
  item_of (CrossDriveItem.TaskID r) (CrossDriveItem.SourceFileID r) (items d) = Some (k, r).
Proof.
  intros Q Hk. destruct (item_of _ _ _) as [[k' r']|] eqn:E.
  - apply item_of_some in E as (Hk' & Ht & Hs).
    assert (k' = k) as -> by (by apply (ii_unique d Q k' k r' r); [..|left]). congruence.
  - by destruct (item_of_none _ _ _ k r E Hk).
Qed.

Lemma copy_parts_imports task prior d d' : copy_parts task prior d = Ok d' → imports d' = imports d.
Proof. unfold copy_parts. intros Hc. apply res_bind_ok in Hc as (p & _ & Hc). by injection Hc as <-. Qed.

(** ** The items and parts of a retry *)

Section Retry.
Context (task prior : string) (at_ : Z) (d : Database).
Context (Q : import_inv d).
Context (Hnew : ∀ k x, items d !! k = Some x → CrossDriveItem.TaskID x ≠ task).

Lemma copy_items_ok :
  ∃ d', copy_items task prior at_ d = Ok d' ∧ imports d' = imports d ∧ parts d' = parts d ∧
    (∀ k x, items d !! k = Some x → items d' !! k = Some x) ∧
    (∀ k x, items d !! k = Some x → CrossDriveItem.TaskID x = prior →
       ∃ k', (items_seq d < k')%Z ∧ items d' !! k' = Some (retried_item task at_ x)) ∧
    (∀ k' x', items d' !! k' = Some x' → items d !! k' = Some x' ∨
       (items_seq d < k')%Z ∧ ∃ k x, items d !! k = Some x ∧ CrossDriveItem.TaskID x = prior ∧
          x' = retried_item task at_ x).
Proof.
  unfold copy_items. set (rows := select (of_import prior) id_asc (items d)).
  assert (∀ k x, (k, x) ∈ rows ↔ items d !! k = Some x ∧ CrossDriveItem.TaskID x = prior) as Hrows.
  { intros k x. unfold rows. rewrite elem_of_select. unfold of_import. by rewrite bool_decide_eq_true. }
  destruct (insert_items_ok task (map (λ kr, retried_item task at_ kr.2) rows) d)
    as (d' & Hf & Hi & Hp & Hlk).
  - apply Q.
  - intros r Hr. apply list_elem_of_fmap in Hr as (kr & -> & _). done.
  - intros k x r Hk Ht _. by destruct (Hnew k x Hk).
  - intros i j x y Hx Hy Hc. apply list_lookup_fmap_Some in Hx as ([k1 x1] & -> & H1).
    apply list_lookup_fmap_Some in Hy as ([k2 x2] & -> & H2). unfold clash in Hc. simpl in Hc.
    pose proof (proj1 (Hrows _ _) (list_elem_of_lookup_2 _ _ _ H1)) as [E1 T1].
    pose proof (proj1 (Hrows _ _) (list_elem_of_lookup_2 _ _ _ H2)) as [E2 T2].
    assert (k1 = k2) as -> by (apply (ii_unique d Q k1 k2 x1 x2); [done|done|congruence|done]).
    by eapply select_keys.
  - exists d'. split; [done|]. split; [done|]. split; [done|]. split; [|split].
    + intros k x Hk. apply Hlk. by left.
    + intros k x Hk Ht. assert ((k, x) ∈ rows) as Hin by (by apply Hrows).
      apply list_elem_of_lookup in Hin as [j Hj]. exists (items_seq d + 1 + Z.of_nat j)%Z. split; [lia|].
      apply Hlk. right. split; [lia|].
      replace (Z.to_nat _) with j by lia. apply list_lookup_fmap_Some. by exists (k, x).
    + intros k' x' Hk'. apply Hlk in Hk' as [?|[Hlt Hl]]; [by left|right]. split; [done|].
      apply list_lookup_fmap_Some in Hl as ([k x] & -> & Hl).
      pose proof (proj1 (Hrows _ _) (list_elem_of_lookup_2 _ _ _ Hl)) as [E1 T1]. by exists k, x.
Qed.

(** The parts of an item whose upload is still open are copied, and no others. *)
Definition upload_open (x : CrossDriveItem.t) : Prop :=
  CrossDriveItem.State x = "uploading" ∧ ∃ u, CrossDriveItem.UploadID x = Some u ∧ u ≠ "".

Lemma upload_kept x u :
  CrossDriveItem.UploadID (retried_item task at_ x) = Some u → u ≠ "" → upload_open x.
Proof.
  simpl. destruct (bool_decide _) eqn:E; [|by intros [= <-]]. bools. intros. split; eauto.
Qed.

Lemma copy_parts_ok d' :
  copy_items task prior at_ d = Ok d' → is_Some (imports d !! task) →
  ∃ d2, copy_parts task prior d' = Ok d2 ∧ items d2 = items d' ∧
    (∀ k p, parts d !! k = Some p → parts d2 !! k = Some p) ∧
    ∀ k x k', items d !! k = Some x → CrossDriveItem.TaskID x = prior →
      (items_seq d < k')%Z → items d' !! k' = Some (retried_item task at_ x) →
      ∀ num p, parts d2 !! (k', num) = Some p ↔ parts d !! (k, num) = Some p ∧ upload_open x.
Proof.
  intros Hc Himp. destruct (copy_items_sound _ _ _ _ _ Hc Himp) as (Hs & _ & Hparts).
  destruct (Hs Q) as (Q' & _ & _).
  destruct copy_items_ok as (d0 & Hc0 & _ & _ & Hold & Hto & Hfrom).
  assert (d0 = d') as -> by congruence.
  assert (∀ i num part k p, parts d !! (i, num) = Some part →
    ((i, num), part) ∈ map_to_list (parts d') →
    (match items d' !! i with
     | Some original => if bool_decide (CrossDriveItem.TaskID original = prior) then
         match item_of task (CrossDriveItem.SourceFileID original) (items d') with
         | Some (id, replacement) => match CrossDriveItem.UploadID replacement with
             | Some u => if bool_decide (u = "") then None else Some ((id, num), part)
             | None => None end
         | None => None end else None
     | None => None end) = Some (k, p) →
    ∃ x, items d !! i = Some x ∧ CrossDriveItem.TaskID x = prior ∧ upload_open x ∧ p = part ∧ k.2 = num ∧
      (items_seq d < k.1)%Z ∧ items d' !! k.1 = Some (retried_item task at_ x)) as Hjoin.
  { intros i num part k p Hpart _ Hm. destruct (ii_part d Q (i, num) part Hpart) as [x Hx]. simpl in Hx.
    rewrite (Hold i x Hx) in Hm. repeat case_match; simplify_eq. bools.
    match goal with Hio : item_of _ _ _ = Some (_, ?y) |- _ =>
      apply item_of_some in Hio as (Hid & Htask & Hsrc);
      destruct (Hfrom _ _ Hid) as [Hin|(Hlt & k2 & x2 & Hx2 & Hp2 & ->)]; [by destruct (Hnew _ _ Hin)|] end.
    simpl in Hsrc. assert (k2 = i) as -> by (apply (ii_unique d Q k2 i x2 x); [done|done|congruence|by left]).
    assert (x2 = x) as -> by congruence. exists x. split; [done|]. split; [done|].
    split; [by eapply upload_kept|]. done. }
  unfold copy_parts. destruct (insert_parts_ok (copied_parts task prior d') (parts d')) as (t' & Hf & Hlk).
  - unfold copied_parts. apply NoDup_omap_fst; [apply NoDup_map_to_list|].
    intros [[i1 n1] p1] [[i2 n2] p2] [k1 q1] [k2 q2] H1 H2 E1 E2 Heq. simpl in Heq. subst k2.
    pose proof H1 as H1'. pose proof H2 as H2'. apply elem_of_map_to_list in H1', H2'. rewrite Hparts in H1', H2'.
    destruct (Hjoin _ _ _ _ _ H1' H1 E1) as (x & Hx & Hxp & _ & -> & <- & _ & Hk1).
    destruct (Hjoin _ _ _ _ _ H2' H2 E2) as (y & Hy & Hyp & _ & -> & <- & _ & Hk2).
    assert (CrossDriveItem.SourceFileID x = CrossDriveItem.SourceFileID y) as Hsrc
      by (rewrite Hk1 in Hk2; by injection Hk2).
    assert (i1 = i2) as -> by (apply (ii_unique d Q i1 i2 x y); [done|done|congruence|by left]). congruence.
  - intros k p Hin. unfold copied_parts in Hin.
    apply list_elem_of_omap in Hin as ([[i num] part] & Hin & Hm). simpl in Hm.
    pose proof Hin as Hin'. apply elem_of_map_to_list in Hin'. rewrite Hparts in Hin'.
    destruct (Hjoin _ _ _ _ _ Hin' Hin Hm) as (x & _ & _ & _ & _ & _ & Hlt & _).
    rewrite Hparts. destruct (parts d !! k) as [q|] eqn:Eq; [|done].
    destruct (ii_part d Q k q Eq) as [y Hy]. pose proof (ii_id d Q _ _ Hy). lia.
  - exists (set_parts t' d'). rewrite Hf. split; [done|]. split; [done|]. simpl. split.
    { intros k p Hk. apply Hlk. left. by rewrite Hparts. }
    intros k x k' Hx Hxp Hlt Hk' num p. rewrite Hlk, Hparts. split.
    + intros [Hk|Hin].
      { destruct (ii_part d Q (k', num) p Hk) as [y Hy]. pose proof (ii_id d Q _ _ Hy). simpl in *. lia. }
      unfold copied_parts in Hin. apply list_elem_of_omap in Hin as ([[i num'] part] & Hin & Hm). simpl in Hm.
      pose proof Hin as Hin'. apply elem_of_map_to_list in Hin'. rewrite Hparts in Hin'.
      destruct (Hjoin _ _ _ _ _ Hin' Hin Hm) as (y & Hy & Hyp & Hup & -> & Hnum & _ & Hk2). simpl in *. subst num'.
      assert (CrossDriveItem.SourceFileID x = CrossDriveItem.SourceFileID y) as Hsrc
        by (rewrite Hk' in Hk2; by injection Hk2).
      assert (k = i) as -> by (apply (ii_unique d Q k i x y); [done|done|congruence|by left]).
      assert (y = x) as -> by congruence. done.
    + intros [Hpart (Hst & u & Hu & Hne)]. right. unfold copied_parts. apply list_elem_of_omap.
      exists ((k, num), p). split; [by apply elem_of_map_to_list; rewrite Hparts|]. simpl.
      rewrite (Hold k x Hx), bool_decide_true by done.
      pose proof (item_of_unique d' k' _ Q' Hk') as Hio. simpl in Hio. rewrite Hio. simpl.
      rewrite bool_decide_true by done. rewrite Hu. by rewrite bool_decide_false.
Qed.
End Retry.

(** * Properties *)

Definition required (task : string) (s : CrossDriveImport.t) : Prop :=
  task ≠ "" ∧ CrossDriveImport.QuarkAccountID s ≠ "" ∧ CrossDriveImport.QuarkTargetID s ≠ "" ∧
  CrossDriveImport.C115AccountID s ≠ "".

Lemma required_guard task s :
  required task s →
  bool_decide (task = "") || bool_decide (CrossDriveImport.QuarkAccountID s = "")
  || bool_decide (CrossDriveImport.QuarkTargetID s = "") || bool_decide (CrossDriveImport.C115AccountID s = "") = false.
Proof. intros (? & ? & ? & ?). by rewrite !bool_decide_false. Qed.

(** Creating the import of a retry succeeds whenever the driver works, and
    carries over each file of the prior task exactly once: verified files stay
    verified, completely downloaded files stay downloaded, anything else starts
    again, the spool is kept, and the recorded upload parts follow exactly when
    the upload was still open; the rows of the prior task are left alone. *)
Theorem retry_resumes `{Env} task s n d t0 :
  (∀ k, env_fault k = None) → import_inv d → tasks d !! task = Some t0 → imports d !! task = None →
  required task s → CrossDriveImport.PriorTaskID s ≠ "" →
  ∃ w at_, CreateCrossDriveImport task s (mkWorld n d) = (Ok tt, w) ∧
    is_Some (imports (w_db w) !! task) ∧
    (∀ k x, items d !! k = Some x → items (w_db w) !! k = Some x) ∧
    (∀ k p, parts d !! k = Some p → parts (w_db w) !! k = Some p) ∧
    (∀ k x, items d !! k = Some x → CrossDriveItem.TaskID x = CrossDriveImport.PriorTaskID s →
       ∃ k', items (w_db w) !! k' = Some (retried_item task at_ x) ∧
         ∀ num p, parts (w_db w) !! (k', num) = Some p ↔ parts d !! (k, num) = Some p ∧ upload_open x) ∧
    (∀ k' x', items (w_db w) !! k' = Some x' → CrossDriveItem.TaskID x' = task →
       ∃ k x, items d !! k = Some x ∧ CrossDriveItem.TaskID x = CrossDriveImport.PriorTaskID s ∧
         x' = retried_item task at_ x).
Proof.
  intros Hf Q Htask Himp Hreq Hprior.
  assert (∀ k x, items d !! k = Some x → CrossDriveItem.TaskID x ≠ task) as Hnew.
  { intros k x Hk Ht. destruct (ii_import d Q k x Hk) as [i Hi]. congruence. }
  destruct (CreateCrossDriveImport task s (mkWorld n d)) as [r w] eqn:Hrun.
  refine (_ (wp_elim _ (mkWorld n d) (λ r w', r = Ok tt ∧ ∃ i at_ d1 d2,
    let d0 := set_imports (<[task := i]> (imports d)) d in
    copy_items task (CrossDriveImport.PriorTaskID s) at_ d0 = Ok d1 ∧
    copy_parts task (CrossDriveImport.PriorTaskID s) d1 = Ok d2 ∧ w_db w' = d2) r w _ Hrun)).
  - intros (-> & i & at_ & d1 & d2 & Hc & Hp & Hw). set (d0 := set_imports _ d) in *.
    assert (import_inv d0) as Q0 by (by apply (sound_new_import d task i)).
    assert (is_Some (imports d0 !! task)) as Hi0 by (unfold d0; simpl; rewrite lookup_insert_eq; by eexists).
    destruct (copy_items_ok task (CrossDriveImport.PriorTaskID s) at_ d0 Q0 Hnew)
      as (d1' & Hc' & Hi & _ & Hold & Hto & Hfrom). assert (d1' = d1) as -> by congruence.
    destruct (copy_parts_ok task (CrossDriveImport.PriorTaskID s) at_ d0 Q0 Hnew d1 Hc Hi0)
      as (d2' & Hp' & Hit & Hpold & Hpn). assert (d2' = d2) as -> by congruence.
    assert (imports d2 = imports d1) as Him by (by eapply copy_parts_imports).
    exists w, at_. rewrite Hw, Hit, Him, Hi. split; [done|]. split; [exact Hi0|]. split; [exact Hold|]. split; [exact Hpold|]. split.
    + intros k x Hk Hx. destruct (Hto k x Hk Hx) as (k' & Hlt & Hk'). exists k'. split; [done|]. by apply Hpn.
    + intros k' x' Hk' Ht. destruct (Hfrom k' x' Hk') as [Ho|(_ & Hex)]; [by destruct (Hnew k' x' Ho)|done].
  - clear Hrun r w.
    assert (∀ i at_, let d0 := set_imports (<[task := i]> (imports d)) d in
      ∃ d1 d2, copy_items task (CrossDriveImport.PriorTaskID s) at_ d0 = Ok d1 ∧
               copy_parts task (CrossDriveImport.PriorTaskID s) d1 = Ok d2) as Hgo.
    { intros i at_ d0. assert (import_inv d0) as Q0 by (by apply (sound_new_import d task i)).
      assert (is_Some (imports d0 !! task)) as Hi0 by (unfold d0; simpl; rewrite lookup_insert_eq; by eexists).
      destruct (copy_items_ok task (CrossDriveImport.PriorTaskID s) at_ d0 Q0 Hnew) as (d1 & Hc & _).
      destruct (copy_parts_ok task (CrossDriveImport.PriorTaskID s) at_ d0 Q0 Hnew d1 Hc Hi0) as (d2 & Hp & _).
      by exists d1, d2. }
    unfold CreateCrossDriveImport. rewrite (required_guard task s Hreq).
    wp_run; intros; no_faults Hf; simplify_eq/=; rewrite ?Htask, ?Himp in *; simplify_eq/=.
    all: bools; try done.
    all: match goal with Hc : copy_items _ _ ?at_ (set_imports (<[_ := ?i]> _) _) ≫= _ = _ |- _ =>
      destruct (Hgo i at_) as (e1 & e2 & Hc1 & Hp1); rewrite Hc1 in Hc end.
    all: unfold mbind, res_bind in *; simplify_eq/=; rewrite ?Hp1 in *; simplify_eq/=; eauto 10.
Qed.

(** on a reachable state and a working driver [UpsertCrossDriveItem] accepts
    a discovered file exactly when its source ID is not blank, the run owns the
    import, a known source kept its identity and a new one has a path of its own;
    accepting it records it under one row, and a known digest is never erased. *)
Theorem upsert_item_spec `{Env} task owner i n d :
  (∀ k, env_fault k = None) → import_inv d →
  ∃ r w, UpsertCrossDriveItem task owner i (mkWorld n d) = (r, w) ∧
    is_ok r = negb (bool_decide (trim_space (fi_SourceFileID i) = "")) && run_owned task owner d &&
      match item_of task (fi_SourceFileID i) (items d) with
      | Some (_, it) => negb (identity_changed it i)
      | None => bool_decide (count_where (item_conflict task (fi_SourceFileID i) (fi_RelativePath i)) (items d) = 0)
      end ∧
    match r with
    | Ok _ => ∃ k it at_, items (w_db w) = <[k := it]> (items d) ∧
        match item_of task (fi_SourceFileID i) (items d) with
        | Some (k0, it0) => k = k0 ∧ it = CrossDriveItem.set_sha
            (if bool_decide (fi_SHA1 i = "") then CrossDriveItem.SHA1 it0 else fi_SHA1 i) at_ it0
        | None => items d !! k = None ∧ it = discovered_item task i at_
        end
    | Err _ => w_db w = d
    end.
Proof.
  intros Hf Q. destruct (UpsertCrossDriveItem task owner i (mkWorld n d)) as [r w] eqn:Hrun.
  exists r, w. split; [done|].
  refine (wp_elim _ (mkWorld n d) (λ r w, is_ok r = _ ∧ match r with Ok _ => _ | Err _ => w_db w = d end) r w _ Hrun).
  clear Hrun r w. unfold UpsertCrossDriveItem, upsert_item, insert_item.
  assert (items d !! (items_seq d + 1)%Z = None) as Hfresh.
  { destruct (items d !! _) as [x|] eqn:Ex; [|done]. pose proof (ii_id d Q _ _ Ex). lia. }
  destruct (bool_decide (trim_space (fi_SourceFileID i) = "")) eqn:Hblank; [by wp_run|].
  destruct (run_owned task owner d) eqn:Ho; destruct (item_of task (fi_SourceFileID i) (items d)) as [[k0 it0]|] eqn:Hit.
  all: wp_run; intros; no_faults Hf; simplify_eq/=; rewrite ?Hit, ?Ho in *; simplify_eq/=; rewrite ?Ho in *.
  all: try match goal with Hi : identity_changed _ _ = _ |- _ => rewrite Hi in * end; try done.
  all: unfold mbind, res_bind in *; simpl in *.
  all: repeat match goal with Hs : context [bool_decide (count_where ?P ?t = 0)] |- _ =>
    destruct (bool_decide (count_where P t = 0)) end; simplify_eq/=; try done.
  all: split; [done|]; eauto 10.
Qed.

(** * Witnesses *)

Section Witnesses.
#[local] Existing Instance quiet.

Definition sample_import : CrossDriveImport.t :=
  CrossDriveImport.mk "" "" "q1" "target" "c1" ["f1"] "" "" "" "" "" "" [] [] "" 0 0 0 0 "" false None "" time_zero 0.
Definition retry_import : CrossDriveImport.t :=
  CrossDriveImport.mk "t1" "" "q1" "target" "c1" ["f1"] "" "" "" "" "" "" [] [] "" 0 0 0 0 "" false None "" time_zero 0.
Definition sample_found : found_item := mkFound "f1" "7" "A/E01.mkv" "E01.mkv" 10 "".

Definition after (ops : list import_op) (d : Database) : Database :=
  foldl (λ d op, w_db (run_import op (mkWorld 0 d)).2) d ops.

Lemma after_any ops d : rtc import_any d (after ops d).
Proof.
  revert d. induction ops as [|op ops IH]; intros d; [apply rtc_refl|]. simpl.
  eapply rtc_l; [|apply IH]. exists op, quiet, 0. do 2 eexists. split; [apply surjective_pairing|done].
Qed.

Definition discovered : list import_op :=
  [IQueue (QCreate "t1" sample_task); IQueue (QCreate "t2" sample_task); ICreate "t1" sample_import;
   IClaim "t1" "run"; IUpsert "t1" "run" sample_found].
Definition uploading : list import_op :=
  [IDownload 1 "t1" "run" "downloaded" "/spool/1" 10; ISession 1 "t1" "run" "up" "b" "o";
    IPart 1 1 "etag" 10].
Definition base : Database := after discovered empty_database.
Definition open_upload : Database := after uploading base.

Lemma base_inv : import_inv base ∧ import_inv open_upload.
Proof.
  assert (import_inv empty_database) as Q by (split; intros *; rewrite ?lookup_empty; done).
  destruct (import_steps_sound _ _ (after_any discovered _) Q) as [Qb _]. split; [exact Qb|].
  apply (import_steps_sound _ _ (after_any uploading base) Qb).
Qed.

Lemma base_items_sized k i : items base !! k = Some i → (0 ≤ CrossDriveItem.Size i)%Z.
Proof.
  assert (map_to_list (items base) = (λ i, [(1%Z, i)]) (discovered_item "t1" sample_found 1)) as E
    by (vm_compute; reflexivity).
  intros Hk%elem_of_map_to_list. rewrite E in Hk. apply list_elem_of_singleton in Hk as [= -> ->]. simpl. lia.
Qed.

Lemma import_binding_immutable_witness :
  import_inv open_upload ∧ rows_kept import_kept (imports base) (imports open_upload) ∧
  rows_kept item_kept (items base) (items open_upload).
Proof.
  apply (import_binding_immutable empty_database base open_upload); [reflexivity..|apply after_any|apply after_any].
Defined.

Lemma unowned_run_is_inert_witness :
  let run := run_import (IFinalize "t1" "other") (mkWorld 0 base) in
  w_db run.2 = base ∧ is_ok run.1 = false.
Proof.
  destruct (unowned_run_is_inert (IFinalize "t1" "other") "t1" "other" 0 base
    (run_import (IFinalize "t1" "other") (mkWorld 0 base)).1
    (run_import (IFinalize "t1" "other") (mkWorld 0 base)).2) as [Hd Hr];
    [reflexivity|vm_compute; reflexivity|apply surjective_pairing|].
  split; [exact Hd|by apply Hr].
Defined.

Lemma import_claim_exclusive_witness :
  let d := after [ICreate "t1" sample_import] (after [IQueue (QCreate "t1" sample_task)] empty_database) in
  let w := (ClaimCrossDriveImport "t1" "run" (mkWorld 0 d)).2 in
  is_ok (ClaimCrossDriveImport "t1" "other" (mkWorld 9 (w_db w))).1 = false.
Proof.
  intros d w. assert (ClaimCrossDriveImport "t1" "run" (mkWorld 0 d) = (Ok tt, w)) as E
    by (vm_compute; reflexivity).
  destruct (import_claim_exclusive "t1" "run" "other" 0 d tt w (w_db w) 9 _ _ ltac:(discriminate) E
    (rtc_refl _ _) (surjective_pairing _)) as (H & _). exact H.
Defined.

Lemma verified_counts_exact_witness :
  ∃ i, imports (w_db (MarkCrossDriveItemVerified 1 "t1" "run" "p" "f" (mkWorld 0 base)).2) !! "t1" = Some i ∧
    (1 ≤ CrossDriveImport.CompletedFiles i)%Z.
Proof.
  pose proof (verified_counts_exact 1 "t1" "run" "p" "f" 0 base _ _ base_items_sized (surjective_pairing _)) as H.
  destruct (MarkCrossDriveItemVerified 1 "t1" "run" "p" "f" (mkWorld 0 base)) as [[u|e] w] eqn:E;
    [|apply (f_equal fst) in E; vm_compute in E; discriminate E].
  destruct H as (i & it & at_ & Hi & _ & _ & _ & _ & [H1 _] & _). exists i. split; [exact Hi|exact H1].
Defined.

Lemma retry_resumes_witness :
  ∃ w, CreateCrossDriveImport "t2" retry_import (mkWorld 0 open_upload) = (Ok tt, w) ∧
    is_Some (imports (w_db w) !! "t2").
Proof.
  destruct (tasks open_upload !! "t2") as [t0|] eqn:Et; [|vm_compute in Et; discriminate Et].
  destruct (retry_resumes "t2" retry_import 0 open_upload t0 quiet_ok (proj2 base_inv) Et)
    as (w & at_ & H & Hi & _); [vm_compute; reflexivity|repeat split; discriminate|discriminate|].
  exists w. split; [exact H|exact Hi].
Defined.

Lemma upsert_item_spec_witness :
  is_ok (UpsertCrossDriveItem "t1" "run" sample_found (mkWorld 0 base)).1 = true.
Proof.
  destruct (upsert_item_spec "t1" "run" sample_found 0 base quiet_ok (proj1 base_inv)) as (r & w & H & Hr & _).
  rewrite H. simpl. rewrite Hr. vm_compute. reflexivity.
Defined.
End Witnesses.
