(* ===== verification/Approvals.v ===== *)
(** Destructive approvals: the one-time decision of a browser user that a
    destructive provider call needs ([src/internal/storage/sqlite.go], from
    [CreateDestructiveApproval] to [FinishDestructiveApproval]). *)
From S2P Require Import Prelude GoStrings Sql Schema.

Section Approvals.
Context `{Env}.
Abbreviation Db := (M Database).

(** The row of a request: pending, undecided. *)
Definition requested (r : Approval.t) : Approval.t :=
  Approval.mk (Approval.Action r) (Approval.AccountID r) (Approval.ParentCID r) (Approval.Targets r)
    "pending" (Approval.RequestedBy r) None None (Approval.ExpiresAt r) (Approval.CreatedAt r) None None.

Definition CreateDestructiveApproval (id : string) (approval : Approval.t) : Db unit :=
  stmt (λ d, match approvals d !! id with
             | Some _ => Err (ErrConstraint "UNIQUE constraint failed: destructive_approvals.id")
             | None => Ok (tt, set_approvals (<[id := requested approval]> (approvals d)) d)
             end).

Definition pending (_ : string) (r : Approval.t) : bool := bool_decide (Approval.Status r = "pending").

Definition by_created (x y : string * Approval.t) : bool :=
  Z.leb (Approval.CreatedAt x.2) (Approval.CreatedAt y.2).

Definition ListPendingDestructiveApprovals (now : Z) : Db (list (string * Approval.t)) :=
  _ ← exec (λ d, (tt, set_approvals (update_where
    (λ k r, pending k r && Z.leb (Approval.ExpiresAt r) now) (Approval.set_status "expired") (approvals d)) d));
  query (λ d, Ok (select pending by_created (approvals d))).

Definition get_approval (id : string) : Db Approval.t :=
  query (λ d, match approvals d !! id with Some r => Ok r | None => Err ErrNoRows end).

(** One [UPDATE destructive_approvals .. WHERE id = ? AND Q]. *)
Definition update_approval (id : string) (Q : Approval.t → bool) (f : Approval.t → Approval.t) (d : Database)
    : nat * Database :=
  (count_where (by_key id Q) (approvals d), set_approvals (update_where (by_key id Q) f (approvals d)) d).

Definition DecideDestructiveApproval (id user status : string) (now : Z) : Db Approval.t :=
  if negb (bool_decide (status = "approved")) && negb (bool_decide (status = "rejected")) then
    throw (ErrText "invalid destructive approval decision")
  else
    changed ← exec (update_approval id
      (λ r, bool_decide (Approval.Status r = "pending") && Z.ltb now (Approval.ExpiresAt r))
      (Approval.decide_ status user now));
    if negb (bool_decide (changed = 1)) then
      throw (ErrText "destructive approval is missing, expired, or already decided")
    else get_approval id.

Definition ClaimDestructiveApproval (id action : string) (now : Z) : Db Approval.t :=
  changed ← exec (update_approval id
    (λ r, bool_decide (Approval.Action r = action) && bool_decide (Approval.Status r = "approved")
          && Z.ltb now (Approval.ExpiresAt r))
    (Approval.set_status "executing"));
  if negb (bool_decide (changed = 1)) then
    throw (ErrText "destructive approval is missing, expired, already used, or not approved")
  else get_approval id.

Definition FinishDestructiveApproval (id status errorText : string) (now : Z) : Db unit :=
  if negb (bool_decide (status = "executed")) && negb (bool_decide (status = "failed")) then
    throw (ErrText "invalid destructive approval terminal status")
  else
    changed ← exec (update_approval id (λ r, bool_decide (Approval.Status r = "executing"))
      (Approval.finish status errorText now));
    if negb (bool_decide (changed = 1)) then throw (ErrText "destructive approval is not executing")
    else mret tt.

End Approvals.

#[global] Arguments update_approval : simpl never.

(** ** The abstract machine *)

(** What was asked for, which no operation changes. *)
Definition same_request (a a' : Approval.t) : Prop :=
  Approval.Action a' = Approval.Action a ∧ Approval.AccountID a' = Approval.AccountID a ∧
  Approval.ParentCID a' = Approval.ParentCID a ∧ Approval.Targets a' = Approval.Targets a ∧
  Approval.RequestedBy a' = Approval.RequestedBy a ∧ Approval.ExpiresAt a' = Approval.ExpiresAt a.

Inductive approval_edge (a a' : Approval.t) : Prop :=
| edge_decide at_ : Approval.Status a = "pending" → (at_ < Approval.ExpiresAt a)%Z →
    Approval.Status a' = "approved" ∨ Approval.Status a' = "rejected" →
    is_Some (Approval.ApprovedBy a') → Approval.DecidedAt a' = Some at_ → approval_edge a a'
| edge_expire at_ : Approval.Status a = "pending" → (Approval.ExpiresAt a ≤ at_)%Z →
    Approval.Status a' = "expired" → approval_edge a a'
| edge_execute at_ : Approval.Status a = "approved" → (at_ < Approval.ExpiresAt a)%Z →
    Approval.Status a' = "executing" → Approval.ApprovedBy a' = Approval.ApprovedBy a →
    Approval.DecidedAt a' = Approval.DecidedAt a → approval_edge a a'
| edge_done at_ : Approval.Status a = "executing" →
    Approval.Status a' = "executed" ∨ Approval.Status a' = "failed" →
    Approval.ApprovedBy a' = Approval.ApprovedBy a → Approval.ExecutedAt a' = Some at_ → approval_edge a a'.

Inductive approval_move : option Approval.t → option Approval.t → Prop :=
| amove_same o : approval_move o o
| amove_create a : Approval.Status a = "pending" → Approval.ApprovedBy a = None → approval_move None (Some a)
| amove_edge a a' : same_request a a' → approval_edge a a' → approval_move (Some a) (Some a').

(** How far along a request is: every edge increases it. *)
Definition stage (s : string) : nat :=
  if bool_decide (s = "pending") then 0 else if bool_decide (s = "approved") then 1
  else if bool_decide (s = "executing") then 2 else 3.

Inductive approval_op : Type :=
| ACreate (id : string) (a : Approval.t)
| AList (now : Z)
| ADecide (id user status : string) (now : Z)
| AClaim (id action : string) (now : Z)
| AFinish (id status err : string) (now : Z).

Definition run_approval `{Env} (op : approval_op) : M Database unit :=
  match op with
  | ACreate id a => CreateDestructiveApproval id a
  | AList t => _ ← ListPendingDestructiveApprovals t; mret tt
  | ADecide id u s t => _ ← DecideDestructiveApproval id u s t; mret tt
  | AClaim id a t => _ ← ClaimDestructiveApproval id a t; mret tt
  | AFinish id s e t => FinishDestructiveApproval id s e t
  end.

Definition approval_any (d d' : Database) : Prop :=
  ∃ op (E : Env) n r w', run_approval op (mkWorld n d) = (r, w') ∧ w_db w' = d'.

(** * Lemmas *)

Lemma update_approval_move id Q f d k :
  (∀ a, approvals d !! id = Some a → Q a = true → same_request a (f a) ∧ approval_edge a (f a)) →
  approval_move (approvals d !! k) (approvals (update_approval id Q f d).2 !! k).
Proof.
  intros Hf. unfold update_approval. simpl. rewrite lookup_update_by_key.
  destruct (approvals d !! k) as [a|] eqn:E; simpl; [|constructor].
  destruct (bool_decide (k = id)) eqn:Hk; simpl; [|constructor]. bools. subst.
  destruct (Q a) eqn:HQ; [|constructor]. destruct (Hf a E HQ). by constructor.
Qed.

Lemma decided_status status :
  negb (bool_decide (status = "approved")) && negb (bool_decide (status = "rejected")) = false →
  status = "approved" ∨ status = "rejected".
Proof. intros [Hs|Hs]%andb_false_iff; bools; auto. Qed.

Lemma finished_status status :
  negb (bool_decide (status = "executed")) && negb (bool_decide (status = "failed")) = false →
  status = "executed" ∨ status = "failed".
Proof. intros [Hs|Hs]%andb_false_iff; bools; auto. Qed.

Lemma approval_moves `{Env} op w k :
  wp (run_approval op) w (λ _ w', approval_move (approvals (w_db w) !! k) (approvals (w_db w') !! k)).
Proof.
  destruct w as [n0 d]. destruct op as [id a|t|id u s t|id ac t|id s e t]; simpl.
  - unfold CreateDestructiveApproval. wp_run; [constructor|]. destruct (approvals d !! id) eqn:E; [done|].
    ok_inv. simpl. destruct (decide (id = k)) as [<-|Hne].
    + rewrite lookup_insert_eq, E. by constructor.
    + rewrite lookup_insert_ne by done. constructor.
  - apply wp_forget. unfold ListPendingDestructiveApprovals. wp_run; [constructor| |].
    all: rewrite lookup_update_where; destruct (approvals d !! k) as [x|]; simpl; [|apply amove_same].
    all: destruct (_ && _)%bool eqn:E; [|apply amove_same]; unfold pending in E; bools.
    all: constructor; [done|by apply (edge_expire _ _ t)].
  - apply wp_forget. unfold DecideDestructiveApproval, get_approval. wp_run; try constructor.
    all: apply update_approval_move; intros x Hx HQ; bools; split; [done|].
    all: apply (edge_decide _ _ t); try done; by apply decided_status.
  - apply wp_forget. unfold ClaimDestructiveApproval, get_approval. wp_run; try constructor.
    all: apply update_approval_move; intros x Hx HQ; bools; split; [done|]; by apply (edge_execute _ _ t).
  - unfold FinishDestructiveApproval. wp_run; try constructor.
    all: apply update_approval_move; intros x Hx HQ; bools; split; [done|].
    all: apply (edge_done _ _ t); try done; by apply finished_status.
Qed.

Lemma approval_any_move d d' k : approval_any d d' → approval_move (approvals d !! k) (approvals d' !! k).
Proof. intros (op & E & n & r & w' & Hrun & <-). exact (wp_elim _ _ _ _ _ (approval_moves op (mkWorld n d) k) Hrun). Qed.

Lemma claim_approval_effect `{Env} id action now w :
  wp (ClaimDestructiveApproval id action now) w (λ r w', match r with
  | Ok a => ∃ a0, approvals (w_db w) !! id = Some a0 ∧ Approval.Action a0 = action ∧
      Approval.Status a0 = "approved" ∧ (now < Approval.ExpiresAt a0)%Z ∧
      a = Approval.set_status "executing" a0 ∧ approvals (w_db w') !! id = Some a
  | Err _ => True
  end).
Proof.
  destruct w as [n0 d]. unfold ClaimDestructiveApproval, get_approval, update_approval. wp_run; try done.
  bools. rewrite count_by_key in *. rewrite update_by_key in *.
  destruct (approvals d !! id) as [a0|] eqn:E; [|done].
  destruct (_ && _ && _)%bool eqn:HQ in Hb; [|done]. rewrite HQ in *. rewrite lookup_insert_eq in *.
  ok_inv. bools. by exists a0.
Qed.

(** The stage never goes back, and reaching [executing] leaves [approved] for good. *)
Lemma approval_stage d d' id a :
  rtc approval_any d d' → approvals d !! id = Some a → Approval.Status a ≠ "pending" →
  Approval.Status a ≠ "approved" →
  ∃ a', approvals d' !! id = Some a' ∧ Approval.Status a' ≠ "pending" ∧ Approval.Status a' ≠ "approved".
Proof.
  intros Hs. revert a. induction Hs as [|d1 d2 d3 Hst _ IH]; intros a Ha Hp Hq; [eauto|].
  pose proof (approval_any_move _ _ id Hst) as Hm. rewrite Ha in Hm.
  inversion Hm as [|?|? a' Hsame He]; subst; [by apply (IH a)|].
  apply (IH a'); [done|..]; destruct He as [| | |? ? [Hx|Hx] _ _]; congruence.
Qed.

(** A request past its decision carries the user who made it, in time. *)
Definition decided (a : Approval.t) : Prop :=
  Approval.Status a = "approved" ∨ Approval.Status a = "executing" →
  is_Some (Approval.ApprovedBy a) ∧ ∃ at_, Approval.DecidedAt a = Some at_ ∧ (at_ < Approval.ExpiresAt a)%Z.

Lemma decided_edge a a' : same_request a a' → approval_edge a a' → decided a → decided a'.
Proof.
  unfold decided. intros (_ & _ & _ & _ & _ & Hexp) He Hd Hs'. rewrite Hexp.
  destruct He as [t Hp Hlt _ Hby Hat|t _ _ Hx|t Ha Hlt Hx Hby Hat|t _ Hx _ _].
  - split; [done|by exists t].
  - destruct Hs'; congruence.
  - rewrite Hby, Hat. auto.
  - destruct Hs', Hx; congruence.
Qed.

Lemma approvals_decided d d' :
  rtc approval_any d d' → (∀ id a, approvals d !! id = Some a → decided a) →
  ∀ id a, approvals d' !! id = Some a → decided a.
Proof.
  induction 1 as [|d1 d2 d3 Hst _ IH]; intros Hd; [done|]. apply IH. intros id a Ha.
  pose proof (approval_any_move _ _ id Hst) as Hm. rewrite Ha in Hm.
  inversion Hm as [|? Hp Hby|x ? Hsame He]; subst; [by eapply Hd| |].
  - unfold decided. rewrite Hp. by intros [?|?].
  - eapply decided_edge; [done|done|]. by eapply Hd.
Qed.

Lemma same_request_trans a b c : same_request a b → same_request b c → same_request a c.
Proof. unfold same_request. intuition congruence. Qed.

Lemma approvals_same d d' id a :
  rtc approval_any d d' → approvals d !! id = Some a →
  ∃ a', approvals d' !! id = Some a' ∧ same_request a a'.
Proof.
  intros Hs. revert a. induction Hs as [|d1 d2 d3 Hst _ IH]; intros a Ha; [by exists a|].
  pose proof (approval_any_move _ _ id Hst) as Hm. rewrite Ha in Hm.
  inversion Hm as [|?|? a2 Hsame He]; subst; [by apply IH|].
  destruct (IH a2) as (a3 & Ha3 & Hs3); [done|]. exists a3. split; [done|]. by eapply same_request_trans.
Qed.

(** * Properties *)

(** A claim of an approval succeeds once: after it, whatever operations run
    in whatever order under whatever failures, no claim of the same approval
    returns it again. *)
Theorem approval_single_use `{Env} id action action' now now' n d a w d' m r w' :
  ClaimDestructiveApproval id action now (mkWorld n d) = (Ok a, w) →
  rtc approval_any (w_db w) d' →
  ClaimDestructiveApproval id action' now' (mkWorld m d') = (r, w') →
  is_ok r = false.
Proof.
  intros Hc Hs Hc'.
  destruct (wp_elim _ _ _ _ _ (claim_approval_effect id action now _) Hc) as (a0 & _ & _ & _ & _ & -> & Ha).
  destruct (approval_stage _ _ id _ Hs Ha) as (a' & Ha' & _ & Hn); [done..|].
  pose proof (wp_elim _ _ _ _ _ (claim_approval_effect id action' now' _) Hc') as He.
  destruct r as [a1|e]; [|done]. destruct He as (a2 & Ha2 & _ & Hs2 & _). simpl in Ha2. congruence.
Qed.

(** a claim that succeeds on a reachable state returns a request that a user
    approved before it expired, that has not expired now, that names the claimed
    action, and whose account, folder and targets are the ones first requested. *)
Theorem approval_claim_sound `{Env} id action now n d0 d1 d req a w :
  approvals d0 = ∅ → rtc approval_any d0 d1 → approvals d1 !! id = Some req →
  rtc approval_any d1 d → ClaimDestructiveApproval id action now (mkWorld n d) = (Ok a, w) →
  (∃ user, Approval.ApprovedBy a = Some user) ∧
  (∃ at_, Approval.DecidedAt a = Some at_ ∧ at_ < Approval.ExpiresAt a)%Z ∧
  (now < Approval.ExpiresAt a)%Z ∧ Approval.Action a = action ∧ same_request req a ∧
  approvals (w_db w) !! id = Some a ∧ Approval.Status a = "executing".
Proof.
  intros H0 H1 Hreq H2 Hc.
  destruct (wp_elim _ _ _ _ _ (claim_approval_effect id action now _) Hc) as (a0 & Ha0 & Hact & Hst & Hlt & -> & Ha).
  simpl in Ha0. assert (decided a0) as [Hby Hat]; [|by left|].
  { eapply (approvals_decided d0); [by etrans|by rewrite H0|exact Ha0]. }
  destruct (approvals_same _ _ _ _ H2 Hreq) as (a1 & Ha1 & Hsame).
  assert (a1 = a0) as -> by congruence. by repeat split; try apply Hsame.
Qed.

Section Witnesses.
#[local] Existing Instance quiet.

Definition sample_request : Approval.t :=
  Approval.mk "delete" "c1" "0" [mkTarget "f1" "A" false 10] "pending" "agent" None None 100 1 None None.
Definition requested_db : Database := w_db (run_approval (ACreate "a1" sample_request) (mkWorld 0 empty_database)).2.
Definition approved_db : Database := w_db (run_approval (ADecide "a1" "bob" "approved" 5) (mkWorld 0 requested_db)).2.

Lemma approval_any_run op n d : approval_any d (w_db (run_approval op (mkWorld n d)).2).
Proof. exists op, quiet, n. do 2 eexists. split; [apply surjective_pairing|done]. Qed.

Lemma approval_single_use_witness :
  let w := (ClaimDestructiveApproval "a1" "delete" 6 (mkWorld 0 approved_db)).2 in
  is_ok (ClaimDestructiveApproval "a1" "delete" 7 (mkWorld 0 (w_db w))).1 = false.
Proof.
  intros w. destruct (ClaimDestructiveApproval "a1" "delete" 6 (mkWorld 0 approved_db)) as [[a|e] w1] eqn:E;
    [|apply (f_equal fst) in E; vm_compute in E; discriminate E].
  exact (approval_single_use "a1" "delete" "delete" 6 7 0 approved_db a w1 _ 0 _ _ E
    (rtc_refl _ _) (surjective_pairing _)).
Defined.

Lemma approval_claim_sound_witness :
  ∃ a w, ClaimDestructiveApproval "a1" "delete" 6 (mkWorld 0 approved_db) = (Ok a, w) ∧
    ∃ user, Approval.ApprovedBy a = Some user.
Proof.
  destruct (ClaimDestructiveApproval "a1" "delete" 6 (mkWorld 0 approved_db)) as [[a|e] w1] eqn:E;
    [|apply (f_equal fst) in E; vm_compute in E; discriminate E].
  destruct (approvals requested_db !! "a1") as [req|] eqn:Er; [|vm_compute in Er; discriminate Er].
  exists a, w1. split; [reflexivity|].
  apply (approval_claim_sound "a1" "delete" 6 0 empty_database requested_db approved_db req a w1);
    [reflexivity|apply rtc_once, approval_any_run|exact Er|apply rtc_once, approval_any_run|exact E].
Defined.
End Witnesses.
