(* ===== verification/Tokens.v ===== *)
(** Agent tokens: their rows ([src/internal/storage/sqlite.go], from [ListTokens]
    to [DeleteToken]) and the authorizer that authenticates and throttles them
    ([src/internal/security/token.go]).  The SHA-256 of a secret, in
    hexadecimal, is a parameter. *)
From S2P Require Import Prelude GoStrings Sql Schema.

Abbreviation token_with_id := (string * AgentToken.t)%type.

(** ** Storage *)

Section TokenStore.
Context `{Env}.
Abbreviation Db := (M Database).

(** [ORDER BY created_at DESC]. *)
Definition newest_token (x y : token_with_id) : bool :=
  Z.leb (AgentToken.CreatedAt y.2) (AgentToken.CreatedAt x.2).

Definition ListTokens : Db (list token_with_id) :=
  query (λ d, Ok (select (λ _ _, true) newest_token (tokens d))).

(** The upsert keeps the creation time of an existing row. *)
Definition SaveToken (id : string) (token : AgentToken.t) : Db unit :=
  created ← (if Z.eqb (AgentToken.CreatedAt token) time_zero then now else mret (AgentToken.CreatedAt token));
  stmt (λ d,
    if negb (bool_decide (count_where (λ k r, negb (bool_decide (k = id))
         && bool_decide (AgentToken.Token r = AgentToken.Token token)) (tokens d) = 0)) then
      Err (ErrConstraint "UNIQUE constraint failed: agent_tokens.token")
    else
      let created := match tokens d !! id with Some r => AgentToken.CreatedAt r | None => created end in
      Ok (tt, set_tokens (<[id := AgentToken.mk (AgentToken.Token token) (AgentToken.Name token)
        (AgentToken.Role token) (AgentToken.Scopes token) (AgentToken.RateLimit token)
        (AgentToken.Enabled token) (AgentToken.LastUsedAt token) created]> (tokens d)) d)).

Definition GetTokenByDigest (digest : string) : Db token_with_id :=
  query (λ d, match head (rows_where (λ _ r, bool_decide (AgentToken.Token r = digest)) (tokens d)) with
              | Some row => Ok row
              | None => Err ErrNoRows
              end).

Definition TouchToken (id : string) (usedAt : Z) : Db unit :=
  exec (λ d, (tt, set_tokens (update_where (by_key id (λ _, true)) (AgentToken.touch usedAt) (tokens d)) d)).

Definition DeleteToken (id : string) : Db bool :=
  changed ← exec (λ d, (count_where (by_key id (λ _, true)) (tokens d), set_tokens (delete id (tokens d)) d));
  mret (bool_decide (0 < changed)).

End TokenStore.

(** ** Request headers

    A [http.Header] with canonical keys. *)

Abbreviation header := (gmap string (list string)).

Definition header_values (h : header) (key : string) : list string := default [] (h !! key).
Definition header_get (h : header) (key : string) : string := default "" (head (header_values h key)).

Definition BearerToken (h : header) : string :=
  let secret := trim_space (header_get h "X-Agent-Token") in
  if negb (bool_decide (secret = "")) then secret
  else
    let authorization := trim_space (header_get h "Authorization") in
    if has_prefix authorization "Bearer " then trim_space (trim_prefix authorization "Bearer ")
    else "".

Definition TrustedWithoutToken (h : header) : bool :=
  bool_decide (length (header_values h "X-Agent-Token") = 0)
  && bool_decide (length (header_values h "Authorization") = 0)
  && negb (bool_decide (trim_space (header_get h "Remote-User") = "")).

(** ** The authorizer *)

Inductive auth_error := ErrInvalidToken | ErrDisabledToken | ErrRateLimited | ErrWriteScope | ErrReadScope
  | ErrStorage (e : error).

Record rateBucket := mkBucket { windowStart : Z; bucket_count : Z }.
Abbreviation buckets := (gmap string rateBucket).

Definition containsScope (scopes : list string) (required : string) : bool :=
  existsb (λ scope, bool_decide (scope = required)) scopes.

(** [time.Minute]. *)
Definition minute : Z := 60000000000%Z.

(** A missing bucket is the zero bucket. *)
Definition take (b : buckets) (id : string) (limit now : Z) : bool * buckets :=
  let bucket := default (mkBucket time_zero 0) (b !! id) in
  if Z.eqb (windowStart bucket) time_zero || Z.leb minute (now - windowStart bucket) then
    (true, <[id := mkBucket now 1]> b)
  else if Z.leb limit (bucket_count bucket) then (false, b)
  else (true, <[id := mkBucket (windowStart bucket) (bucket_count bucket + 1)]> b).

Section Authorizer.
Context `{Env} (sha256_hex : string → string).
Abbreviation Db := (M Database).

(** The token and the error that Go returns side by side. *)
Abbreviation verdict := (option token_with_id * option auth_error)%type.

Definition Authenticate (secret : string) : Db verdict :=
  r ← attempt (GetTokenByDigest (sha256_hex secret));
  mret match r with
       | Err _ => (None, Some ErrInvalidToken)
       | Ok (id, token) =>
           if negb (AgentToken.Enabled token) then (Some (id, token), Some ErrDisabledToken)
           else (Some (id, token), None)
       end.

Definition Authorize (b : buckets) (secret : string) (write : bool) (now : Z) : Db (verdict * buckets) :=
  r ← attempt (GetTokenByDigest (sha256_hex secret));
  match r with
  | Err _ => mret (None, Some ErrInvalidToken, b)
  | Ok (id, token) =>
      if negb (AgentToken.Enabled token) then mret (Some (id, token), Some ErrDisabledToken, b)
      else if write && negb (containsScope (AgentToken.Scopes token) "write") then
        mret (Some (id, token), Some ErrWriteScope, b)
      else if negb write && negb (containsScope (AgentToken.Scopes token) "read")
              && negb (containsScope (AgentToken.Scopes token) "write") then
        mret (Some (id, token), Some ErrReadScope, b)
      else
        let '(admitted, b) := take b id (AgentToken.RateLimit token) now in
        if negb admitted then mret (Some (id, token), Some ErrRateLimited, b)
        else
          r ← attempt (TouchToken id now);
          match r with
          | Err e => mret (Some (id, token), Some (ErrStorage e), b)
          | Ok _ => mret (Some (id, token), None, b)
          end
  end.
End Authorizer.

(** * Lemmas *)

Lemma containsScope_spec scopes s : containsScope scopes s = true ↔ s ∈ scopes.
Proof.
  unfold containsScope. rewrite existsb_exists. split.
  - intros (x & Hx & Heq). bools. subst. by apply list_elem_of_In.
  - intros Hs. exists s. rewrite bool_decide_eq_true. split; [by apply list_elem_of_In|done].
Qed.

(** A row per digest. *)
Definition digests_unique (d : Database) : Prop :=
  ∀ i j r s, tokens d !! i = Some r → tokens d !! j = Some s → AgentToken.Token r = AgentToken.Token s → i = j.

Lemma insert_token_unique id row d :
  count_where (λ k r, negb (bool_decide (k = id)) && bool_decide (AgentToken.Token r = AgentToken.Token row)) (tokens d) = 0 →
  digests_unique d → digests_unique (set_tokens (<[id := row]> (tokens d)) d).
Proof.
  rewrite count_where_zero. intros Hz Hu.
  assert (∀ k r, tokens d !! k = Some r → AgentToken.Token r = AgentToken.Token row → k = id) as Hno.
  { intros k r Hk Ht. specialize (Hz k r Hk). destruct (decide (k = id)) as [|Hne]; [done|].
    by rewrite bool_decide_false, bool_decide_true in Hz. }
  intros i j r s. simpl. rewrite !lookup_insert_Some.
  intros [[<- <-]|[Hi Er]] [[<- <-]|[Hj Es]] Heq; eauto.
  symmetry. eauto.
Qed.

Lemma save_token_unique `{Env} id token w :
  digests_unique (w_db w) → wp (SaveToken id token) w (λ _ w', digests_unique (w_db w')).
Proof.
  intros Hu. destruct w as [n0 d]. unfold SaveToken. wp_run; try done.
  all: ok_inv; bools; by apply insert_token_unique.
Qed.

(** ** The rate limit *)

(** A sequence of calls, as (token, time), against a constant limit. *)
Fixpoint run_takes (limit : string → Z) (b : buckets) (calls : list (string * Z)) : list bool :=
  match calls with
  | [] => []
  | (id, now) :: calls' => let '(ok, b') := take b id (limit id) now in ok :: run_takes limit b' calls'
  end.

(** The admitted calls of one token in the minute that starts at [a]. *)
Definition admitted_in (id : string) (a : Z) (calls : list (string * Z)) (oks : list bool) : nat :=
  length (filter (λ c : string * Z * bool, c.1.1 = id ∧ (a ≤ c.1.2 < a + minute)%Z ∧ c.2 = true) (zip calls oks)).

(** What a bucket can still admit in that minute when the calls have come to [t]. *)
Definition allowance (limit a t : Z) (o : option rateBucket) : Z :=
  match o with
  | Some b => if Z.ltb t a || Z.eqb (windowStart b) time_zero then 2 * limit
              else if Z.leb a (windowStart b) then limit - bucket_count b
              else 2 * limit - bucket_count b
  | None => 2 * limit
  end.

Lemma admitted_cons id a c ok calls oks :
  admitted_in id a (c :: calls) (ok :: oks) =
  (if decide (c.1 = id ∧ (a ≤ c.2 < a + minute)%Z ∧ ok = true) then 1 else 0) + admitted_in id a calls oks.
Proof. unfold admitted_in. simpl. rewrite filter_cons. simpl. by case_decide. Qed.

(** Calls after the minute do not count. *)
Lemma admitted_late id a calls oks :
  (∀ c, c ∈ calls → a + minute ≤ c.2)%Z → admitted_in id a calls oks = 0.
Proof.
  revert oks. induction calls as [|c calls IH]; intros oks Hl; [done|]. destruct oks as [|ok oks]; [done|].
  rewrite admitted_cons, IH by (intros x Hx; apply Hl; by right).
  specialize (Hl c ltac:(by left)). case_decide; [lia|done].
Qed.

Definition sorted_calls (calls : list (string * Z)) : Prop := StronglySorted (λ x y : string * Z, (x.2 ≤ y.2)%Z) calls.

Definition bucket_ok (limit : Z) (o : option rateBucket) : Prop :=
  match o with Some b => (1 ≤ bucket_count b ≤ limit)%Z | None => True end.

(** Each call moves its bucket so that the allowance pays for its admission. *)
Lemma take_allowance b id limit now a t ok b' :
  (1 ≤ limit)%Z → bucket_ok limit (b !! id) → (t ≤ now)%Z → now ≠ time_zero →
  take b id limit now = (ok, b') →
  bucket_ok limit (b' !! id) ∧
  ((now < a + minute)%Z →
    ((if decide ((a ≤ now < a + minute)%Z ∧ ok = true) then 1 else 0) + allowance limit a now (b' !! id)
     ≤ allowance limit a t (b !! id))%Z) ∧
  (0 ≤ allowance limit a t (b !! id))%Z.
Proof.
  intros Hl Hok Ht Hz. unfold take, allowance. assert (0 < minute)%Z by done.
  destruct (b !! id) as [[ws c]|] eqn:Eb; simpl in Hok |- *.
  2: { intros [= <- <-]. rewrite lookup_insert_eq. simpl. rewrite (proj2 (Z.eqb_neq now time_zero)) by done.
       split; [lia|]. split; [|lia]. intros Hn. case_decide; destruct (Z.ltb now a) eqn:E1; bools; simpl;
         destruct (Z.leb a now) eqn:E2; bools; lia. }
  destruct (Z.eqb ws time_zero) eqn:E0; simpl; [|destruct (Z.leb minute (now - ws)) eqn:E1; simpl;
    [|destruct (Z.leb limit c) eqn:E2; simpl]].
  all: intros [= <- <-]; rewrite ?Eb, ?lookup_insert_eq; simpl; bools;
    rewrite ?(proj2 (Z.eqb_neq now time_zero)) by done; rewrite ?(proj2 (Z.eqb_neq ws time_zero)) by done.
  all: split; [lia|]; split; [intros Hn; case_decide|].
  all: repeat match goal with |- context [Z.ltb ?x ?y] => destruct (Z.ltb x y) eqn:? end;
    repeat match goal with |- context [Z.leb ?x ?y] => destruct (Z.leb x y) eqn:? end;
    subst; rewrite ?Z.eqb_refl in *; simpl; bools; try lia.
Qed.

Lemma takes_bounded limit id a t b calls :
  (1 ≤ limit id)%Z → bucket_ok (limit id) (b !! id) → sorted_calls calls →
  (∀ c, c ∈ calls → t ≤ c.2 ∧ c.2 ≠ time_zero)%Z →
  (Z.of_nat (admitted_in id a calls (run_takes limit b calls)) ≤ allowance (limit id) a t (b !! id))%Z.
Proof.
  intros Hl. revert b t. induction calls as [|[k now] calls IH]; intros b t Hok Hs Hc.
  { unfold admitted_in, allowance. simpl. destruct (b !! id) as [[ws c]|]; simpl in *; [|lia].
    destruct (_ || _); [lia|]. destruct (Z.leb a ws); lia. }
  apply StronglySorted_inv in Hs as [Hs Hall]. rewrite Forall_forall in Hall. simpl in Hall.
  destruct (Hc (k, now) ltac:(by left)) as [Htn Hz]. simpl in Htn, Hz. simpl.
  destruct (take b k (limit k) now) as [ok b'] eqn:Ht. rewrite admitted_cons. simpl.
  destruct (decide (k = id)) as [->|Hne].
  - destruct (take_allowance b id (limit id) now a t ok b') as (Hok' & Hpay & Hpos); [done..|].
    destruct (decide (now < a + minute)%Z) as [Hn|Hn].
    + specialize (IH b' now Hok' Hs ltac:(intros c Hin; split; [by apply Hall|apply Hc; by right])).
      specialize (Hpay Hn). case_decide; case_decide; try lia; exfalso; naive_solver.
    + rewrite admitted_late by (intros c Hin; specialize (Hall c Hin); lia).
      clear Hpay. case_decide; [lia|]. simpl. exact Hpos.
  - assert (b' !! id = b !! id) as Hb.
    { unfold take in Ht. destruct (_ || _) in Ht; [|destruct (Z.leb _ _) in Ht]; injection Ht as <- <-;
        rewrite ?lookup_insert_ne by done; done. }
    specialize (IH b' t). rewrite Hb in IH. case_decide; [naive_solver|]. apply IH; [done|done|].
    intros c Hin. apply Hc. by right.
Qed.

(** What the bucket that calls find still counts in the minute before [now]. *)
Definition carried (b : buckets) (id : string) (now : Z) : Z :=
  match b !! id with
  | Some bucket => if Z.eqb (windowStart bucket) time_zero || Z.leb minute (now - windowStart bucket) then 0 else bucket_count bucket
  | None => 0
  end.

(** The window of the bucket started before the calls. *)
Definition started (o : option rateBucket) (calls : list (string * Z)) : Prop :=
  match o with Some bucket => ∀ c, c ∈ calls → (windowStart bucket ≤ c.2)%Z | None => True end.

Lemma take_other b k id limit now : k ≠ id → (take b k limit now).2 !! id = b !! id.
Proof. intros Hne. unfold take. destruct (_ || _); [|destruct (Z.leb _ _)]; cbn; by rewrite ?lookup_insert_ne. Qed.
Lemma take_own b b' id limit now : b !! id = b' !! id →
  (take b id limit now).1 = (take b' id limit now).1 ∧ (take b id limit now).2 !! id = (take b' id limit now).2 !! id.
Proof. intros E. unfold take. rewrite E. destruct (_ || _); [|destruct (Z.leb _ _)]; cbn; by rewrite ?lookup_insert_eq. Qed.

(** A call that finds its window open and full is the only one refused. *)
Lemma take_refused b id limit now : (1 ≤ limit)%Z → (take b id limit now).1 = false ↔ (limit ≤ carried b id now)%Z.
Proof.
  intros Hl. unfold take, carried. destruct (b !! id) as [[ws c]|]; simpl.
  - destruct (_ || _); cbn; [split; [done|lia]|]. destruct (Z.leb limit c) eqn:E; bools; cbn; split; try done; lia.
  - cbn. split; [done|lia].
Qed.

(** A call moves what is carried by the admission it gives. *)
Lemma take_carried b id limit t now ok b' :
  bucket_ok limit (b !! id) → started (b !! id) [(id, t)] → (t ≤ now)%Z →
  take b id limit t = (ok, b') →
  (carried b' id now ≤ carried b id now + if decide ((now - minute + 1 ≤ t < now - minute + 1 + minute)%Z ∧ ok = true) then 1 else 0)%Z.
Proof.
  intros Hok Hst Ht. unfold take, carried. destruct (b !! id) as [[ws c]|] eqn:Eb; cbn in Hok, Hst |- *.
  - specialize (Hst (id, t) ltac:(by left)). cbn in Hst.
    destruct (Z.eqb ws time_zero) eqn:E0; cbn [orb]; [|destruct (Z.leb minute (t - ws)) eqn:E1; [|destruct (Z.leb limit c) eqn:E2]].
    all: intros [= <- <-]; rewrite ?lookup_insert_eq, ?Eb; cbn; rewrite ?E0; cbn; case_decide;
      repeat match goal with |- context [Z.leb ?x ?y] => destruct (Z.leb x y) eqn:? end; repeat match goal with |- context [Z.eqb ?x ?y] => destruct (Z.eqb x y) eqn:? end;
      bools; cbn; lia || (exfalso; naive_solver lia).
  - intros [= <- <-]. rewrite lookup_insert_eq. cbn. case_decide; destruct (_ || _) eqn:E; bools; lia || (exfalso; naive_solver lia).
Qed.

Lemma refused_full limit id b before now after :
  (1 ≤ limit id)%Z → bucket_ok (limit id) (b !! id) → started (b !! id) (before ++ (id, now) :: after) →
  sorted_calls (before ++ (id, now) :: after) → (∀ c, c ∈ before → c.2 ≠ time_zero) →
  run_takes limit b (before ++ (id, now) :: after) !! length before = Some false →
  (limit id ≤ carried b id now + Z.of_nat (admitted_in id (now - minute + 1) before (run_takes limit b before)))%Z.
Proof.
  intros Hl. revert b. induction before as [|[k t] before IH]; intros b Hok Hst Hs Hz; cbn [app run_takes length].
  - destruct (take b id (limit id) now) as [ok b'] eqn:E. intros [= ->]. unfold admitted_in. cbn.
    pose proof (proj1 (take_refused b id (limit id) now Hl)) as Hr. rewrite E in Hr. specialize (Hr eq_refl). lia.
  - destruct (take b k (limit k) t) as [ok b'] eqn:E. cbn [lookup list_lookup]. intros Hrun.
    apply StronglySorted_inv in Hs as [Hs Hall]. rewrite Forall_forall in Hall. cbn in Hall.
    assert (t ≤ now)%Z as Htn by (apply (Hall (id, now)), elem_of_app; right; by left).
    rewrite admitted_cons. cbn [fst snd].
    destruct (decide (k = id)) as [->|Hne].
    + destruct (take_allowance b id (limit id) t 0 t ok b') as (Hok' & _ & _); [done..|by apply (Hz (id, t)); left|done|].
      assert (started (b !! id) [(id, t)]) as Hst1.
      { destruct (b !! id); [|done]. intros c ->%list_elem_of_singleton. apply Hst. by left. }
      pose proof (take_carried b id (limit id) t now ok b' Hok Hst1 Htn E) as Hc.
      assert (started (b' !! id) (before ++ (id, now) :: after)) as Hst'.
      { assert (∀ c, c ∈ before ++ (id, now) :: after → (t ≤ c.2)%Z) as Hlater by (intros c Hin; by apply Hall).
        unfold take in E. destruct (b !! id) as [bk|] eqn:Eb; simpl in E; [|injection E as <- <-; by rewrite lookup_insert_eq].
        destruct (_ || _) in E; [|destruct (Z.leb _ _) in E]; injection E as <- <-; rewrite ?lookup_insert_eq, ?Eb; [done|..];
          intros c Hin; apply Hst; by right. }
      specialize (IH b' Hok' Hst' Hs ltac:(intros c Hin; apply Hz; by right) Hrun).
      case_decide as E1; case_decide as E2; try lia. exfalso. naive_solver.
    + pose proof (take_other b k id (limit k) t Hne) as Eb. rewrite E in Eb. cbn in Eb.
      specialize (IH b'). unfold carried in IH. rewrite Eb in IH. fold (carried b id now) in IH.
      case_decide; [naive_solver|]. apply IH; try done.
      * destruct (b !! id); [|done]. intros c Hin. apply Hst. by right.
      * intros c Hin. apply Hz. by right.
Qed.

(** The calls of one token, and the verdicts on them. *)
Definition own_calls (id : string) (calls : list (string * Z)) : list (string * Z) := filter (λ c : string * Z, c.1 = id) calls.
Definition own_verdicts (id : string) (calls : list (string * Z)) (oks : list bool) : list bool :=
  (filter (λ c : string * Z * bool, c.1.1 = id) (zip calls oks)).*2.

Lemma own_run limit limit' id b b' calls :
  limit' id = limit id → b' !! id = b !! id →
  own_verdicts id calls (run_takes limit b calls) = run_takes limit' b' (own_calls id calls).
Proof.
  intros El. revert b b'. induction calls as [|[k now] calls IH]; intros b b' Eb; [done|]. cbn [run_takes].
  destruct (take b k (limit k) now) as [ok b1] eqn:E. unfold own_verdicts, own_calls. cbn [zip zip_with].
  rewrite !filter_cons. cbn [fst snd]. case_decide as Hk.
  - subst k. cbn [run_takes fmap list_fmap snd]. destruct (take_own b b' id (limit id) now (eq_sym Eb)) as [E1 E2]. rewrite E in E1, E2. cbn in E1, E2.
    rewrite El. destruct (take b' id (limit id) now) as [ok' b1']. cbn in E1, E2. rewrite E1. f_equal. by apply IH.
  - apply IH. rewrite Eb. by rewrite <-(take_other b k id (limit k) now Hk), E.
Qed.

(** * Properties *)

(** C39: a token has its rate and no less.  However calls of several tokens, in the order
    of the clock and after the window of the token's bucket began, interleave, in every period of one minute a token of rate limit [L] is admitted at
    most [2 L] times, and at most [L] times within one of its fixed windows.  A call is
    refused only when [L] calls of its token were admitted in the minute before it, those
    its bucket counted from earlier included.  The verdicts on a token depend on its own
    calls, limit and bucket only: they are what they would be without the other calls. *)
Theorem rate_limit_enforced limit id a b calls :
  (1 ≤ limit id)%Z → bucket_ok (limit id) (b !! id) → sorted_calls calls →
  (∀ c, c ∈ calls → c.2 ≠ time_zero) → started (b !! id) calls →
  (Z.of_nat (admitted_in id a calls (run_takes limit b calls)) ≤ 2 * limit id)%Z ∧
  (b !! id = Some (mkBucket a 1) → a ≠ time_zero →
    (Z.of_nat (admitted_in id a calls (run_takes limit b calls)) ≤ limit id - 1)%Z) ∧
  (∀ before now after, calls = before ++ (id, now) :: after → run_takes limit b calls !! length before = Some false →
    (limit id ≤ carried b id now + Z.of_nat (admitted_in id (now - minute + 1) before (run_takes limit b before)))%Z) ∧
  (∀ limit' b', limit' id = limit id → b' !! id = b !! id →
    own_verdicts id calls (run_takes limit b calls) = run_takes limit' b' (own_calls id calls)).
Proof.
  intros Hl Hok Hs Hz Hst. split; [|split; [|split]].
  - assert (∃ t, ∀ c : string * Z, c ∈ calls → (t ≤ c.2)%Z) as [t Hlow].
    { destruct calls as [|[k now] calls]; [by exists 0%Z; intros c Hc%not_elem_of_nil|].
      apply StronglySorted_inv in Hs as [_ Hall]. rewrite Forall_forall in Hall. simpl in Hall. exists now.
      intros c [->|Hin]%elem_of_cons; [simpl; lia|by apply Hall]. }
    etrans; [apply (takes_bounded limit id a t)|]; [done..|auto|].
    unfold allowance. destruct (b !! id) as [[ws c]|]; simpl in *; [|lia].
    destruct (_ || _); [lia|]. destruct (Z.leb a ws); lia.
  - intros Hb Ha. rewrite Hb in Hst. cbn in Hst. etrans; [apply (takes_bounded limit id a a)|]; [done..|auto|].
    rewrite Hb. simpl. rewrite Z.ltb_irrefl, (proj2 (Z.eqb_neq a time_zero)), (proj2 (Z.leb_le a a)) by done.
    simpl. lia.
  - intros before now after -> Hrun. apply (refused_full limit id b before now after); try done. intros c Hin. apply Hz, elem_of_app. by left.
  - intros limit' b'. apply own_run.
Qed.

(** What a token must satisfy for one use. *)
Definition may_use (write : bool) (token : AgentToken.t) : Prop :=
  AgentToken.Enabled token = true ∧
  if write then "write" ∈ AgentToken.Scopes token
  else "read" ∈ AgentToken.Scopes token ∨ "write" ∈ AgentToken.Scopes token.

(** The first error [Authorize] finds, on the token of the digest. *)
Definition refusal (write : bool) (o : option token_with_id) : option auth_error :=
  match o with
  | None => Some ErrInvalidToken
  | Some (_, token) =>
      if negb (AgentToken.Enabled token) then Some ErrDisabledToken
      else if write && negb (containsScope (AgentToken.Scopes token) "write") then Some ErrWriteScope
      else if negb write && negb (containsScope (AgentToken.Scopes token) "read")
              && negb (containsScope (AgentToken.Scopes token) "write") then Some ErrReadScope
      else None
  end.

Lemma refusal_none write id token : refusal write (Some (id, token)) = None ↔ may_use write token.
Proof.
  unfold refusal, may_use.
  pose proof (containsScope_spec (AgentToken.Scopes token) "write") as Hw.
  pose proof (containsScope_spec (AgentToken.Scopes token) "read") as Hr.
  destruct (AgentToken.Enabled token), write, (containsScope _ "write"), (containsScope _ "read");
    simpl; naive_solver.
Qed.

Lemma digest_row d digest id row :
  head (rows_where (λ _ r, bool_decide (AgentToken.Token r = digest)) (tokens d)) = Some (id, row) →
  tokens d !! id = Some row ∧ AgentToken.Token row = digest.
Proof.
  intros Hh. assert ((id, row) ∈ rows_where (λ _ r, bool_decide (AgentToken.Token r = digest)) (tokens d)) as Hin.
  { destruct (rows_where _ _); [done|]. injection Hh as ->. by left. }
  apply elem_of_rows_where in Hin as [Hk Hd]. by bools.
Qed.

Lemma digest_row_unique d digest id row :
  digests_unique d → tokens d !! id = Some row → AgentToken.Token row = digest →
  head (rows_where (λ _ r, bool_decide (AgentToken.Token r = digest)) (tokens d)) = Some (id, row).
Proof.
  intros Hu Hid Hd. destruct (head _) as [[id' row']|] eqn:E.
  - destruct (digest_row _ _ _ _ E) as [Hid' Hd']. assert (id' = id) as -> by (eapply Hu; eauto; congruence). congruence.
  - assert ((id, row) ∈ rows_where (λ _ r, bool_decide (AgentToken.Token r = digest)) (tokens d)) as Hin
      by (apply elem_of_rows_where; by rewrite bool_decide_true).
    destruct (rows_where _ _); [by apply not_elem_of_nil in Hin|done].
Qed.

(** [Authorize] lets a call through only for an enabled token whose digest is
    the secret's, that holds the scope the call needs and whose rate limit admits
    it, and it then records the use; a refused call changes no row, and only a
    call that reached the rate limiter moves its bucket.  When the driver works
    and digests are unique, such a token is let through. *)
Theorem authorize_sound_complete `{Env} sha b secret write now n d :
  digests_unique d →
  ∃ tok err b' w, Authorize sha b secret write now (mkWorld n d) = (Ok (tok, err, b'), w) ∧
    (err = None → ∃ id row, tok = Some (id, row) ∧ tokens d !! id = Some row ∧
       AgentToken.Token row = sha secret ∧ may_use write row ∧
       take b id (AgentToken.RateLimit row) now = (true, b') ∧
       w_db w = set_tokens (<[id := AgentToken.touch now row]> (tokens d)) d) ∧
    (err ≠ None → w_db w = d) ∧
    (err = Some ErrInvalidToken ∨ err = Some ErrDisabledToken ∨ err = Some ErrWriteScope
       ∨ err = Some ErrReadScope → b' = b) ∧
    ((∀ k, env_fault k = None) → ∀ id row, tokens d !! id = Some row → AgentToken.Token row = sha secret →
       may_use write row → (take b id (AgentToken.RateLimit row) now).1 = true → err = None).
Proof.
  intros Hu. destruct (Authorize sha b secret write now (mkWorld n d)) as [r w] eqn:Hrun.
  assert (match r with
    | Ok (tok, err, b') =>
        (err = None → ∃ id row, tok = Some (id, row) ∧ tokens d !! id = Some row ∧
         AgentToken.Token row = sha secret ∧ may_use write row ∧
         take b id (AgentToken.RateLimit row) now = (true, b') ∧
         w_db w = set_tokens (<[id := AgentToken.touch now row]> (tokens d)) d) ∧
        (err ≠ None → w_db w = d) ∧
        (err = Some ErrInvalidToken ∨ err = Some ErrDisabledToken ∨ err = Some ErrWriteScope
         ∨ err = Some ErrReadScope → b' = b) ∧
        ((∀ k, env_fault k = None) → ∀ id row, tokens d !! id = Some row → AgentToken.Token row = sha secret →
         may_use write row → (take b id (AgentToken.RateLimit row) now).1 = true → err = None)
    | Err _ => False end) as Hpost.
  2: { destruct r as [[[tok err] b']|e]; [|done]. by exists tok, err, b', w. }
  refine (wp_elim _ (mkWorld n d) (λ r w, match r with Ok (tok, err, b') => _ | Err _ => False end) r w _ Hrun).
  clear r w Hrun. unfold Authorize, GetTokenByDigest. apply wp_bind, wp_attempt, wp_query.
  - intros e n1 He. simpl in *. apply wp_ret. simpl. split; [done|]. split; [done|]. split; [done|].
    intros Hf id row Hid Hd. destruct He as [He|He]; [by destruct (no_fault_error _ Hf He)|].
    by rewrite (digest_row_unique d _ id row Hu Hid Hd) in He.
  - intros [id row] n1 He. simpl in *.
    destruct (head _) as [p|] eqn:Eh; [|done]. injection He as ->. destruct (digest_row _ _ _ _ Eh) as [Hid Hd].
    assert (∀ id' row', tokens d !! id' = Some row' → AgentToken.Token row' = sha secret → id' = id ∧ row' = row) as Hone.
    { intros id' row' Hid' Hd'. assert (id' = id) as -> by (eapply Hu; eauto; congruence). split; congruence. }
    pose proof (refusal_none write id row) as Href. simpl in Href.
    destruct (negb (AgentToken.Enabled row)) eqn:E1; [|destruct (write && _) eqn:E2;
      [|destruct (negb write && _ && _) eqn:E3]].
    1-3: apply wp_ret; simpl; split; [done|]; split; [done|]; split; [done|]; intros _ id' row' Hi Hdd Hm;
      destruct (Hone id' row' Hi Hdd) as [-> ->]; by apply Href in Hm.
    destruct (take b id (AgentToken.RateLimit row) now) as [adm b1] eqn:Et. destruct adm; simpl.
    + apply wp_bind, wp_attempt. unfold TouchToken. apply wp_exec.
      * intros e n2 He. simpl. apply wp_ret. simpl. split; [done|]. split; [done|]. split; [naive_solver|].
        intros Hf. by destruct (no_fault_error _ Hf He).
      * intros n2. simpl. apply wp_ret. simpl. split; [|split; [done|split; [naive_solver|done]]].
        intros _. exists id, row. repeat split; try done; try (by apply Href). by rewrite update_by_key, Hid.
    + apply wp_ret. simpl. split; [done|]. split; [done|]. split; [naive_solver|].
      intros _ id' row' Hi Hdd Hm Htk. destruct (Hone id' row' Hi Hdd) as [-> ->]. by rewrite Et in Htk.
Qed.

(** The secret of a request comes from its own header first, and a request
    is trusted without a token only if it carries neither token header: a request
    that presents a secret is never trusted without it. *)
Theorem trusted_has_no_secret h :
  TrustedWithoutToken h = true → BearerToken h = "" ∧ trim_space (header_get h "Remote-User") ≠ "".
Proof.
  unfold TrustedWithoutToken, BearerToken, header_get. intros Ht. bools.
  destruct (header_values h "X-Agent-Token") as [|? ?]; [|done].
  destruct (header_values h "Authorization") as [|? ?]; [|done]. done.
Qed.

Lemma rate_limit_enforced_witness :
  let calls := [("a", 1%Z); ("b", 2%Z); ("a", 3%Z); ("a", (minute + 5)%Z)] in
  run_takes (λ _, 1%Z) ∅ calls = [true; true; false; true] ∧
  (Z.of_nat (admitted_in "a" 0 calls (run_takes (λ _, 1%Z) ∅ calls)) ≤ 2 * 1)%Z.
Proof.
  intros calls. split; [vm_compute; reflexivity|]. apply (rate_limit_enforced (λ _, 1%Z) "a" 0 ∅ calls).
  - lia.
  - exact I.
  - unfold calls, minute. repeat constructor; simpl; lia.
  - unfold calls, minute, time_zero. intros c Hc.
    repeat (apply elem_of_cons in Hc as [-> | Hc]; [simpl; lia|]). by apply not_elem_of_nil in Hc.
  - exact I.
Defined.

Section Witnesses.
#[local] Existing Instance quiet.

Definition sample_token : AgentToken.t := AgentToken.mk "digest" "agent" "agent" ["read"] 60 true None 5.
Definition token_db : Database := w_db (SaveToken "t1" sample_token (mkWorld 0 empty_database)).2.

Lemma authorize_sound_complete_witness :
  ∃ tok err b' w, Authorize (λ _, "digest") ∅ "secret" false 9 (mkWorld 0 token_db) = (Ok (tok, err, b'), w) ∧
    err = None.
Proof.
  assert (digests_unique token_db) as Hu.
  { refine (wp_elim _ _ (λ _ w, digests_unique (w_db w)) _ _ (save_token_unique "t1" sample_token _ _)
      (surjective_pairing (SaveToken "t1" sample_token (mkWorld 0 empty_database)))).
    intros i j r s Hi. vm_compute in Hi. discriminate Hi. }
  destruct (authorize_sound_complete (λ _, "digest") ∅ "secret" false 9 0 token_db Hu)
    as (tok & err & b' & w & Hrun & _ & _ & _ & Hc).
  exists tok, err, b', w. split; [exact Hrun|].
  apply (Hc quiet_ok "t1" sample_token); [vm_compute; reflexivity|reflexivity| |vm_compute; reflexivity].
  split; [reflexivity|]. left. by apply list_elem_of_singleton.
Defined.

Lemma trusted_has_no_secret_witness :
  BearerToken {["Remote-User" := ["bob"]]} = "".
Proof. apply (trusted_has_no_secret {["Remote-User" := ["bob"]]}). vm_compute. reflexivity. Defined.
End Witnesses.
