(* ===== verification/Accounts.v ===== *)
(** Drive accounts, schedules, settings and configuration
    ([src/internal/storage/sqlite.go]: [ListAccounts] .. [GetTask] and
    [GetAllSettings] .. [ListConfigs]). *)
From S2P Require Import Prelude GoStrings Sql Schema.

Section Store.
Context `{Env}.
Abbreviation Db := (M Database).

(** ** Accounts *)

(** [ORDER BY is_default DESC, created_at ASC]. *)
Definition default_first (x y : string * DriveAccount.t) : bool :=
  let dx := DriveAccount.IsDefault x.2 in
  let dy := DriveAccount.IsDefault y.2 in
  (dx && negb dy)
  || (Bool.eqb dx dy && Z.leb (DriveAccount.CreatedAt x.2) (DriveAccount.CreatedAt y.2)).

Definition ListAccounts : Db (list (string * DriveAccount.t)) :=
  query (λ d, Ok (select (λ _ _, true) default_first (accounts d))).

(** The partial unique index [drive_accounts(type) WHERE is_default = 1], on writing
    [row] at [id]. *)
Definition default_clash (id : string) (row : DriveAccount.t) : string → DriveAccount.t → bool :=
  λ k r, negb (bool_decide (k = id)) && DriveAccount.IsDefault r && DriveAccount.IsDefault row
         && bool_decide (DriveAccount.Type_ r = DriveAccount.Type_ row).

Definition put_account (id : string) (row : DriveAccount.t) (d : Database) : res Database :=
  if negb (bool_decide (count_where (default_clash id row) (accounts d) = 0)) then
    Err (ErrConstraint "UNIQUE constraint failed: drive_accounts.type")
  else Ok (set_accounts (<[id := row]> (accounts d)) d).

Definition SaveAccount (id : string) (account : DriveAccount.t) : Db unit :=
  if bool_decide (id = "") || bool_decide (DriveAccount.Type_ account = "")
     || bool_decide (DriveAccount.Name account = "") then
    throw (ErrText "account id, type, and name are required")
  else
    t ← now;
    let created := if Z.eqb (DriveAccount.CreatedAt account) time_zero then t
                   else DriveAccount.CreatedAt account in
    let account := DriveAccount.set_created created (DriveAccount.set_identity (DriveAccount.Type_ account)
      (DriveAccount.Name account) (DriveAccount.Cookie account) t account) in
    transaction (
      _ ← (if DriveAccount.IsDefault account then
             exec (λ d, (tt, set_accounts (update_where
               (λ k r, bool_decide (DriveAccount.Type_ r = DriveAccount.Type_ account) && negb (bool_decide (k = id)))
               (DriveAccount.set_default false) (accounts d)) d))
           else mret tt);
      _ ← stmt (λ d,
        let row := match accounts d !! id with
                   | Some old => DriveAccount.set_created (DriveAccount.CreatedAt old) account
                   | None => account
                   end in
        d' ← put_account id row d; Ok (tt, d'));
      mret (Commit tt)).

Definition DeleteAccount (id : string) : Db unit :=
  exec (λ d, (tt, set_accounts (delete id (accounts d)) d)).

(** ** Schedules *)

Definition latest_updated (x y : string * ScheduledTask.t) : bool :=
  Z.leb (ScheduledTask.UpdatedAt y.2) (ScheduledTask.UpdatedAt x.2).

Definition ListTasks : Db (list (string * ScheduledTask.t)) :=
  query (λ d, Ok (select (λ _ _, true) latest_updated (schedules d))).

(** The upsert keeps the creation time of an existing row.  The result is the
    caller's task, stamped. *)
Definition SaveTask (id : string) (t : ScheduledTask.t) : Db ScheduledTask.t :=
  n ← now;
  let stamped (created : Z) : ScheduledTask.t :=
    ScheduledTask.mk (ScheduledTask.Type_ t) (ScheduledTask.Name t)
      (ScheduledTask.CronExpr t) (ScheduledTask.Status t) (ScheduledTask.Progress t) (ScheduledTask.Params t)
      (ScheduledTask.Result t) (ScheduledTask.Error t) (ScheduledTask.LastRunAt t) (ScheduledTask.NextRunAt t)
      created n in
  let mine := stamped (if Z.eqb (ScheduledTask.CreatedAt t) time_zero then n else ScheduledTask.CreatedAt t) in
  exec (λ d,
    let row := match schedules d !! id with Some r => stamped (ScheduledTask.CreatedAt r) | None => mine end in
    (mine, set_schedules (<[id := row]> (schedules d)) d)).

Definition DeleteTask (id : string) : Db unit :=
  exec (λ d, (tt, set_schedules (delete id (schedules d)) d)).

Definition GetTask (id : string) : Db ScheduledTask.t :=
  query (λ d, match schedules d !! id with Some r => Ok r | None => Err ErrNoRows end).

(** ** Settings *)

Definition GetAllSettings : Db (gmap string string) :=
  query (λ d, Ok (fst <$> settings d)).

Definition GetSetting (key : string) : Db string :=
  query (λ d, Ok (match settings d !! key with Some (v, _) => v | None => "" end)).

Definition upsert_setting (key value : string) (at_ : Z) (d : Database) : unit * Database :=
  (tt, set_settings (<[key := (value, at_)]> (settings d)) d).

Definition SetSetting (key value : string) : Db unit :=
  t ← now; exec (upsert_setting key value t).

(** [TRIM(x) = ''] in SQLite: only spaces. *)
Definition sql_blank (s : string) : bool := forallb (λ a, bool_decide (a = byte 32)) (chars s).

(** The account of the sub-select: [ORDER BY is_default DESC, created_at ASC LIMIT 1]. *)
Definition first_account (d : Database) : option (string * DriveAccount.t) :=
  head (select (λ _ _, true) default_first (accounts d)).

Definition set_first_cookie (cookie : string) (at_ : Z) (d : Database) : res Database :=
  match first_account d with
  | None => Ok d
  | Some (id, r) =>
      put_account id (DriveAccount.set_identity
        (if sql_blank (DriveAccount.Type_ r) then "115" else DriveAccount.Type_ r)
        (if sql_blank (DriveAccount.Name r) then "默认账号" else DriveAccount.Name r) cookie at_ r) d
  end.

(** [for key, value := range settings]: Go's order over a map is unspecified, here
    that of [map_to_list]. *)
Definition SetSettingsAndDefaultAccountCookie (new : gmap string string) (cookie : string) : Db unit :=
  transaction (
    t ← now;
    _ ← m_each (λ kv, exec (upsert_setting kv.1 kv.2 t)) (map_to_list new);
    _ ← (if negb (bool_decide (cookie = "")) then
           stmt (λ d, d' ← set_first_cookie cookie t d; Ok (tt, d'))
         else mret tt);
    mret (Commit tt)).

Definition SetSettings (new : gmap string string) : Db unit := SetSettingsAndDefaultAccountCookie new "".

(** ** Configuration *)

Definition GetConfig (key : string) : Db string :=
  val ← attempt (GetSetting key);
  match val with
  | Ok v => if negb (bool_decide (v = "")) then mret v
            else query (λ d, Ok (match configs d !! key with Some (v, _, _) => v | None => "" end))
  | Err _ => query (λ d, Ok (match configs d !! key with Some (v, _, _) => v | None => "" end))
  end.

Definition SetConfig (key val desc : string) : Db unit :=
  t ← now; exec (λ d, (tt, set_configs (<[key := (val, desc, t)]> (configs d)) d)).

Definition ListConfigs : Db (gmap string string) :=
  query (λ d, Ok ((λ r, r.1.1) <$> configs d)).

End Store.

(** * Lemmas *)

(** At most one default account per provider. *)
Definition one_default (d : Database) : Prop :=
  ∀ i j r s, accounts d !! i = Some r → accounts d !! j = Some s →
    DriveAccount.IsDefault r = true → DriveAccount.IsDefault s = true →
    DriveAccount.Type_ r = DriveAccount.Type_ s → i = j.

Lemma put_account_ok id row d :
  (∀ k r, accounts d !! k = Some r → k ≠ id → DriveAccount.IsDefault r = true →
    DriveAccount.IsDefault row = true → DriveAccount.Type_ r ≠ DriveAccount.Type_ row) →
  put_account id row d = Ok (set_accounts (<[id := row]> (accounts d)) d).
Proof.
  intros Hno. unfold put_account. rewrite bool_decide_true; [done|]. apply count_where_zero.
  intros k r Hk. unfold default_clash. destruct (decide (k = id)) as [->|Hne]; [by rewrite bool_decide_true|].
  specialize (Hno k r Hk Hne). rewrite bool_decide_false by done. simpl.
  destruct (DriveAccount.IsDefault r), (DriveAccount.IsDefault row); simpl; try done.
  rewrite bool_decide_false; [done|auto].
Qed.

Lemma put_account_one_default id row d d' : put_account id row d = Ok d' → one_default d → one_default d'.
Proof.
  unfold put_account. destruct (negb _) eqn:E; [done|]. intros [= <-] Hu. bools.
  rewrite count_where_zero in E.
  assert (∀ k r, accounts d !! k = Some r → DriveAccount.IsDefault r = true → DriveAccount.IsDefault row = true →
    DriveAccount.Type_ r = DriveAccount.Type_ row → k = id) as Hno.
  { intros k r Hk H1 H2 Ht. specialize (E k r Hk). unfold default_clash in E. rewrite H1, H2, Ht in E.
    destruct (decide (k = id)); [done|]. by rewrite bool_decide_false, bool_decide_true in E. }
  intros i j r s. simpl. rewrite !lookup_insert_Some.
  intros [[<- <-]|[Hi Er]] [[<- <-]|[Hj Es]] Hr Hs Ht; eauto. symmetry. eauto.
Qed.

Inductive account_op :=
| OpSave (id : string) (a : DriveAccount.t)
| OpDelete (id : string)
| OpSettings (new : gmap string string) (cookie : string).

Definition run_account `{Env} (op : account_op) : M Database unit :=
  match op with
  | OpSave id a => SaveAccount id a
  | OpDelete id => DeleteAccount id
  | OpSettings s c => SetSettingsAndDefaultAccountCookie s c
  end.

Definition account_any (d d' : Database) : Prop :=
  ∃ op (E : Env) n r w', run_account op (mkWorld n d) = (r, w') ∧ w_db w' = d'.

Definition put_settings (new : list (string * string)) (at_ : Z) (d : Database) : Database :=
  foldl (λ d kv, (upsert_setting kv.1 kv.2 at_ d).2) d new.

Lemma put_settings_tables new at_ d : accounts (put_settings new at_ d) = accounts d.
Proof. revert d. induction new as [|kv new IH]; intros d; [done|]. simpl. by rewrite IH. Qed.

Lemma put_settings_lookup new at_ d key :
  NoDup new.*1 →
  settings (put_settings new at_ d) !! key =
  match (list_to_map new : gmap string string) !! key with
  | Some v => Some (v, at_)
  | None => settings d !! key
  end.
Proof.
  revert d. induction new as [|[k v] new IH]; intros d Hnd; simpl; [by rewrite lookup_empty|].
  apply NoDup_cons in Hnd as [Hk Hnd]. rewrite IH by done. simpl.
  destruct (decide (k = key)) as [<-|Hne].
  - rewrite lookup_insert_eq. simpl in Hk. apply (not_elem_of_list_to_map_1 (M := gmap string)) in Hk. by rewrite Hk, lookup_insert_eq.
  - rewrite !lookup_insert_ne by done. done.
Qed.

Lemma m_each_settings `{Env} new at_ w :
  wp (m_each (λ kv, exec (upsert_setting kv.1 kv.2 at_)) new) w (λ r w', match r with
    | Ok _ => w_db w' = put_settings new at_ (w_db w)
    | Err e => fault_error e
    end).
Proof.
  unfold m_each. revert w. induction new as [|kv new IH]; intros w; simpl; [done|].
  apply wp_bind, wp_exec; [done|]. intros n. eapply wp_mono; [apply IH|]. done.
Qed.

Lemma settings_effect `{Env} new cookie w :
  wp (SetSettingsAndDefaultAccountCookie new cookie) w (λ r w', match r with
  | Ok _ => ∃ at_, (if decide (cookie = "") then w_db w' = put_settings (map_to_list new) at_ (w_db w)
      else set_first_cookie cookie at_ (put_settings (map_to_list new) at_ (w_db w)) = Ok (w_db w'))
  | Err e => w_db w' = w_db w ∧ (fault_error e ∨ cookie ≠ "" ∧ ∃ at_, is_ok (set_first_cookie cookie at_ (put_settings (map_to_list new) at_ (w_db w))) = false)
  end).
Proof.
  destruct w as [n0 d]. unfold SetSettingsAndDefaultAccountCookie.
  apply wp_transaction; [intros e n He; simpl; auto|]. intros n.
  apply wp_bind, wp_now. intros t n1. apply wp_bind. eapply wp_mono; [apply m_each_settings|].
  intros [u|e] w1; simpl; [|auto]. intros Hw1. apply wp_bind.
  destruct (decide (cookie = "")) as [->|Hc]; simpl.
  - apply wp_ret, wp_ret. intros n2. by exists t.
  - rewrite bool_decide_false by done. simpl. apply wp_stmt.
    + intros e n2 [He|He] n3; simpl; (split; [done|]); [by left|right]. split; [done|]. exists t. rewrite Hw1 in He.
      by destruct (set_first_cookie _ _ _).
    + intros a d' n2 He. apply wp_ret. intros n3. exists t. rewrite Hw1 in He. simpl.
      by destruct (set_first_cookie _ _ _); simplify_eq/=.
Qed.

Lemma set_first_cookie_one_default cookie at_ d d' :
  set_first_cookie cookie at_ d = Ok d' → one_default d → one_default d'.
Proof.
  unfold set_first_cookie. destruct (first_account d) as [[id r]|]; [|by intros [= <-]].
  apply put_account_one_default.
Qed.

Lemma unset_one_default type_ id d :
  one_default d → one_default (set_accounts (update_where
    (λ k r, bool_decide (DriveAccount.Type_ r = type_) && negb (bool_decide (k = id)))
    (DriveAccount.set_default false) (accounts d)) d).
Proof.
  intros Hu i j r s. simpl. rewrite !lookup_update_where.
  intros (r0 & Hi & ->)%fmap_Some (s0 & Hj & ->)%fmap_Some.
  repeat match goal with |- context [if ?b then _ else _] => destruct b end; simpl; try done.
  intros. by apply (Hu i j r0 s0).
Qed.

Definition complete (id : string) (a : DriveAccount.t) : Prop :=
  id ≠ "" ∧ DriveAccount.Type_ a ≠ "" ∧ DriveAccount.Name a ≠ "".

(** The row [SaveAccount] leaves. *)
Definition saved_account (at_ : Z) (old : option DriveAccount.t) (a : DriveAccount.t) : DriveAccount.t :=
  DriveAccount.set_created
    (match old with Some o => DriveAccount.CreatedAt o
     | None => if Z.eqb (DriveAccount.CreatedAt a) time_zero then at_ else DriveAccount.CreatedAt a end)
    (DriveAccount.set_identity (DriveAccount.Type_ a) (DriveAccount.Name a) (DriveAccount.Cookie a) at_ a).

Definition demoted (id : string) (a : DriveAccount.t) : string → DriveAccount.t → bool :=
  λ k r, bool_decide (DriveAccount.Type_ r = DriveAccount.Type_ a) && negb (bool_decide (k = id)).

(** The accounts before the row of [id] is written. *)
Definition demote (id : string) (a : DriveAccount.t) (t : gmap string DriveAccount.t) : gmap string DriveAccount.t :=
  if DriveAccount.IsDefault a then update_where (demoted id a) (DriveAccount.set_default false) t else t.

Lemma demote_id id a t : demote id a t !! id = t !! id.
Proof.
  unfold demote. destruct (DriveAccount.IsDefault a); [|done]. rewrite lookup_update_where. unfold demoted.
  destruct (t !! id) as [r|]; simpl; [|done]. rewrite (bool_decide_true (id = id)) by done. by rewrite andb_false_r.
Qed.

Lemma demote_free id a at_ old d t :
  accounts d = demote id a t →
  put_account id (saved_account at_ old a) d = Ok (set_accounts (<[id := saved_account at_ old a]> (demote id a t)) d).
Proof.
  intros Hd. rewrite <-Hd. apply put_account_ok. intros k r Hk Hne Hr Ha. simpl in Ha |- *.
  rewrite Hd in Hk. unfold demote in Hk. rewrite Ha in Hk. rewrite lookup_update_where in Hk.
  apply fmap_Some in Hk as (r0 & Hk & ->). unfold demoted in *.
  rewrite (bool_decide_false (k = id)) in * by done. rewrite andb_true_r in *. by case_bool_decide.
Qed.

Lemma save_account_effect `{Env} id a w :
  wp (SaveAccount id a) w (λ r w', match r with
  | Ok _ => complete id a ∧ ∃ at_,
      accounts (w_db w') = <[id := saved_account at_ (accounts (w_db w) !! id) a]> (demote id a (accounts (w_db w)))
  | Err e => w_db w' = w_db w ∧ (complete id a → fault_error e)
  end).
Proof.
  destruct w as [n0 d]. unfold SaveAccount.
  destruct (bool_decide (id = "") || _ || _) eqn:Hreq.
  { apply wp_throw. simpl. split; [done|]. intros (? & ? & ?). by rewrite !bool_decide_false in Hreq. }
  assert (complete id a) as Hcomp by (by bools).
  apply wp_bind, wp_now. intros t n. simpl. apply wp_transaction; [auto|]. intros n1. apply wp_bind. simpl.
  eapply (wp_mono _ _ (λ r w', match r with
    | Ok _ => accounts (w_db w') = demote id a (accounts d) | Err e => fault_error e end)).
  { unfold demote. destruct (DriveAccount.IsDefault a); simpl; [apply wp_exec; done|done]. }
  intros [u|e] [n2 d1]; simpl; [|auto]. intros Hd1. apply wp_bind, wp_stmt; simpl.
  - intros e n3 [He|He] n4; [auto|]. exfalso. rewrite Hd1, demote_id in He.
    assert ((d' ← put_account id (saved_account t (accounts d !! id) a) d1; Ok (tt, d')) = Err e) as He2
      by (by destruct (accounts d !! id)).
    by rewrite (demote_free id a t _ d1 _ Hd1) in He2.
  - intros u' d2 n3 He. apply wp_ret. intros n4. simpl. split; [done|]. exists t.
    rewrite Hd1, demote_id in He.
    assert ((d' ← put_account id (saved_account t (accounts d !! id) a) d1; Ok (tt, d')) = Ok (u', d2)) as He2
      by (by destruct (accounts d !! id)).
    rewrite (demote_free id a t _ d1 _ Hd1) in He2. simpl in He2. by injection He2 as _ <-.
Qed.

Lemma demoted_one_default id a at_ old t :
  (∀ i j r s, t !! i = Some r → t !! j = Some s → DriveAccount.IsDefault r = true →
     DriveAccount.IsDefault s = true → DriveAccount.Type_ r = DriveAccount.Type_ s → i = j) →
  ∀ d, accounts d = <[id := saved_account at_ old a]> (demote id a t) → one_default d.
Proof.
  intros Hu d Hd.
  pose proof (demote_free id a at_ old (set_accounts (demote id a t) d) t eq_refl) as Hput.
  apply put_account_one_default in Hput; [intros i j r s; rewrite Hd; apply Hput|].
  intros i j r s. simpl. unfold demote. destruct (DriveAccount.IsDefault a); [|apply Hu].
  apply (unset_one_default _ _ (set_accounts t d)). exact Hu.
Qed.

Lemma account_step_one_default `{Env} op w :
  one_default (w_db w) → wp (run_account op) w (λ _ w', one_default (w_db w')).
Proof.
  intros Hu. destruct op as [id a|id|new cookie]; simpl.
  - eapply wp_mono; [apply save_account_effect|]. intros [u|e] w'; simpl; [|by intros [-> _]].
    intros (_ & at_ & Hd). by eapply demoted_one_default.
  - destruct w as [n0 d]. unfold DeleteAccount. wp_run; [done|]. intros i j r s. simpl.
    rewrite !lookup_delete_Some. intros [_ Hi] [_ Hj]. by apply Hu.
  - eapply wp_mono; [apply settings_effect|]. intros [u|e] w'; simpl; [|by intros [-> _]].
    intros (at_ & Hd). assert (one_default (put_settings (map_to_list new) at_ (w_db w))) as Hp.
    { intros i j r s. rewrite put_settings_tables. apply Hu. }
    destruct (decide (cookie = "")); [by rewrite Hd|]. by eapply set_first_cookie_one_default.
Qed.

(** * Properties *)

(** whatever account and settings operations run, in whatever order and
    under whatever failures, no provider ever has two default accounts; and
    saving a complete account on a working driver always succeeds, replaces that
    account, and demotes only the previous default of its provider. *)
Theorem account_defaults d d' :
  accounts d = ∅ → rtc account_any d d' →
  one_default d' ∧
  ∀ (E : Env) id a n, (∀ k, env_fault k = None) → complete id a →
    ∃ w at_, SaveAccount id a (mkWorld n d') = (Ok tt, w) ∧
      accounts (w_db w) !! id = Some (saved_account at_ (accounts d' !! id) a) ∧
      ∀ k r, k ≠ id → accounts d' !! k = Some r → accounts (w_db w) !! k =
        Some (if DriveAccount.IsDefault a && bool_decide (DriveAccount.Type_ r = DriveAccount.Type_ a)
              then DriveAccount.set_default false r else r).
Proof.
  intros Hd Hs. split.
  - assert (one_default d) as Hu by (intros i j r s; by rewrite Hd, lookup_empty).
    clear Hd. induction Hs as [|d1 d2 d3 (op & E & n & r & w' & Hrun & <-) _ IH]; [done|]. apply IH.
    exact (wp_elim _ _ _ _ _ (account_step_one_default op (mkWorld n d1) Hu) Hrun).
  - intros E id a n Hf Hc. destruct (SaveAccount id a (mkWorld n d')) as [r w] eqn:Hrun.
    pose proof (wp_elim _ _ _ _ _ (save_account_effect id a _) Hrun) as He. simpl in He.
    destruct r as [[]|e]; [|destruct He as [_ He]; by destruct (no_fault_error _ Hf (He Hc))].
    destruct He as (_ & at_ & Ha). exists w, at_. split; [done|]. rewrite Ha, lookup_insert_eq. split; [done|].
    intros k r Hne Hk. rewrite lookup_insert_ne by done. unfold demote.
    destruct (DriveAccount.IsDefault a); simpl; [|done]. rewrite lookup_update_where, Hk. simpl. unfold demoted.
    rewrite (bool_decide_false (k = id)) by done. by rewrite andb_true_r.
Qed.

(** saving settings is atomic: on success every new key reads back its new
    value and every other key its old one, and without a credential the accounts
    are untouched; on any error nothing has changed. *)
Theorem settings_atomic `{Env} new cookie n d r w :
  SetSettingsAndDefaultAccountCookie new cookie (mkWorld n d) = (r, w) →
  match r with
  | Ok _ => (∀ key, fst <$> settings (w_db w) !! key =
               match new !! key with Some v => Some v | None => fst <$> settings d !! key end)
            ∧ (cookie = "" → accounts (w_db w) = accounts d)
  | Err _ => w_db w = d
  end.
Proof.
  intros Hrun. pose proof (wp_elim _ _ _ _ _ (settings_effect new cookie _) Hrun) as He. simpl in He.
  destruct r as [u|e]; [|apply He]. destruct He as (at_ & Hd).
  assert (settings (w_db w) = settings (put_settings (map_to_list new) at_ d) ∧
          (cookie = "" → accounts (w_db w) = accounts d)) as [Hs Ha].
  { destruct (decide (cookie = "")) as [->|Hc].
    - rewrite Hd. by rewrite put_settings_tables.
    - split; [|done]. unfold set_first_cookie, put_account in Hd.
      destruct (first_account _) as [[id x]|]; [|by injection Hd as <-].
      destruct (negb _); [done|]. by injection Hd as <-. }
  split; [|done]. intros key. rewrite Hs, put_settings_lookup by apply NoDup_fst_map_to_list.
  rewrite list_to_map_to_list. by destruct (new !! key).
Qed.

(** a new 115 credential is stored on the first account of the whole table,
    by default flag and age, whatever its provider: with an older default Quark
    account it overwrites the Quark credential and leaves the 115 one alone. *)
Theorem credential_on_first_account `{Env} new cookie n d id r w u :
  cookie ≠ "" → first_account d = Some (id, r) →
  SetSettingsAndDefaultAccountCookie new cookie (mkWorld n d) = (Ok u, w) →
  (∃ r', accounts (w_db w) !! id = Some r' ∧ DriveAccount.Cookie r' = cookie ∧
     (sql_blank (DriveAccount.Type_ r) = false → DriveAccount.Type_ r' = DriveAccount.Type_ r)) ∧
  ∀ k, k ≠ id → accounts (w_db w) !! k = accounts d !! k.
Proof.
  intros Hc Hf Hrun. pose proof (wp_elim _ _ _ _ _ (settings_effect new cookie _) Hrun) as (at_ & Hd).
  simpl in Hd. destruct (decide (cookie = "")); [done|]. unfold set_first_cookie, first_account in *.
  rewrite put_settings_tables, Hf in Hd. unfold put_account in Hd. destruct (negb _); [done|].
  injection Hd as <-. simpl. rewrite put_settings_tables. split.
  - eexists. rewrite lookup_insert_eq. split; [done|]. split; [done|]. simpl. by intros ->.
  - intros k Hk. by rewrite lookup_insert_ne.
Qed.

Section Witnesses.
#[local] Existing Instance quiet.

Definition sample_account (type_ : string) : DriveAccount.t :=
  DriveAccount.mk type_ type_ "old" "" true "active" 0 0 0 None time_zero 0.
Definition two_accounts : Database :=
  w_db (SaveAccount "c" (sample_account "115")
    (SaveAccount "q" (sample_account "quark") (mkWorld 0 empty_database)).2).2.

Lemma account_defaults_witness : one_default two_accounts.
Proof.
  apply (account_defaults empty_database); [reflexivity|].
  eapply rtc_l; [|apply rtc_once].
  - exists (OpSave "q" (sample_account "quark")), quiet, 0. do 2 eexists.
    split; [apply surjective_pairing|reflexivity].
  - eexists (OpSave "c" (sample_account "115")), quiet, _, _, _.
    split; [apply surjective_pairing|].
    instantiate (1 := w_tick (SaveAccount "q" (sample_account "quark") (mkWorld 0 empty_database)).2).
    vm_compute. reflexivity.
Defined.

Lemma settings_atomic_witness :
  (SetSettings {["emby_url" := "http://emby"]} (mkWorld 0 two_accounts)).1 = Ok tt ∧
  fst <$> settings (w_db (SetSettings {["emby_url" := "http://emby"]} (mkWorld 0 two_accounts)).2) !! "emby_url"
    = Some "http://emby".
Proof.
  pose proof (settings_atomic {["emby_url" := "http://emby"]} "" 0 two_accounts _ _ (surjective_pairing _)) as H.
  assert ((SetSettings {["emby_url" := "http://emby"]} (mkWorld 0 two_accounts)).1 = Ok tt) as E
    by (vm_compute; reflexivity).
  unfold SetSettings in E |- *. rewrite E in H. split; [exact E|]. destruct H as [H _].
  rewrite (H "emby_url"). vm_compute. reflexivity.
Defined.

Lemma credential_on_first_account_witness :
  ∃ r, first_account two_accounts = Some ("q", r) ∧ DriveAccount.Type_ r = "quark" ∧
  ∃ w r', SetSettingsAndDefaultAccountCookie {["115_cookie" := "new"]} "new" (mkWorld 9 two_accounts) = (Ok tt, w) ∧
    accounts (w_db w) !! "q" = Some r' ∧ DriveAccount.Cookie r' = "new" ∧
    accounts (w_db w) !! "c" = accounts two_accounts !! "c".
Proof.
  destruct (first_account two_accounts) as [[id r]|] eqn:E; [|vm_compute in E; discriminate E].
  assert (id = "q" ∧ DriveAccount.Type_ r = "quark") as [-> Ht].
  { vm_compute in E. injection E as <- <-. split; reflexivity. }
  exists r. split; [reflexivity|]. split; [exact Ht|].
  destruct (SetSettingsAndDefaultAccountCookie {["115_cookie" := "new"]} "new" (mkWorld 9 two_accounts)) as [x w] eqn:Hr.
  assert (x = Ok tt) as -> by (apply (f_equal fst) in Hr; vm_compute in Hr; symmetry; exact Hr).
  destruct (credential_on_first_account {["115_cookie" := "new"]} "new" 9 two_accounts "q" r w tt
    ltac:(discriminate) E Hr) as ((r' & Hq & Hck & _) & Hother).
  exists w, r'. split; [reflexivity|]. split; [exact Hq|]. split; [exact Hck|]. apply Hother. discriminate.
Defined.
End Witnesses.
