(* ===== verification/Payload.v ===== *)
(** Reading and validating task payloads: the [..Payload] readers and the task
    validation of [src/internal/service/taskqueue.go], the readers of
    [autofill.go] and [cross_drive_import.go], and the share references of
    [drive.go] and [provider_quark.go].

    [net/url] is abstracted by the class [Urls]: what a parsed URL shows of
    itself.  Typed maps that only in-process callers build are their JSON form. *)
From Stdlib Require Import Ascii Qround.
From S2P Require Import Prelude GoStrings Sql Schema.

(** A parsed URL: scheme, host, whether it has user information, its path and the
    first value of a query parameter ([""] when absent). *)
Record url := mkUrl { u_scheme : string; u_host : string; u_user : bool; u_path : string; u_query : string → string }.

Class Urls := {
  (** [url.Parse] and [url.ParseRequestURI] *)
  url_parse : string → option url;
  url_parse_request : string → option url
}.

(** ** Scalar readers *)

Definition stringPayload (p : payload) (key : string) (required : bool) : res string :=
  match p !! key with
  | None => if required then Err (ErrText (key +:+ " is required")) else Ok ""
  | Some (VString text) =>
      let text := trim_space text in
      if required && bool_decide (text = "") then Err (ErrText (key +:+ " is required")) else Ok text
  | Some _ => Err (ErrText (key +:+ " must be a string"))
  end.

Definition booleanPayload (p : payload) (key : string) (fallback : bool) : res bool :=
  match p !! key with
  | None => Ok fallback
  | Some (VBool b) => Ok b
  | Some _ => Err (ErrText (key +:+ " must be a boolean"))
  end.

Definition integerPayload (p : payload) (key : string) (fallback minimum maximum : Z) : res Z :=
  let check (number : Q) : res Z :=
    if negb (Qeq_bool (inject_Z (Qfloor number)) number) || negb (Qle_bool (inject_Z minimum) number)
       || negb (Qle_bool number (inject_Z maximum)) then
      Err (ErrText (key +:+ " must be an integer from " +:+ pretty minimum +:+ " to " +:+ pretty maximum))
    else Ok (Qfloor number) in
  match p !! key with
  | None => Ok fallback
  | Some (VFloat q) => check q
  | Some (VInt z) => check (inject_Z z)
  | Some _ => Err (ErrText (key +:+ " must be an integer"))
  end.

(** ** Lists of strings *)

Definition stringSlicePayload (p : payload) (key : string) : res (list string) :=
  match p !! key with
  | None => Err (ErrText (key +:+ " is required"))
  | Some (VStrings values) =>
      if bool_decide (length values = 0) then Err (ErrText (key +:+ " must not be empty")) else Ok values
  | Some (VArray values) =>
      result ← res_fold (λ result v,
        match v with
        | VString text => if bool_decide (trim_space text = "") then
            Err (ErrText (key +:+ " must contain non-empty strings"))
            else Ok (result ++ [trim_space text])
        | _ => Err (ErrText (key +:+ " must contain non-empty strings"))
        end) values [];
      if bool_decide (length result = 0) then Err (ErrText (key +:+ " must not be empty")) else Ok result
  | Some _ => Err (ErrText (key +:+ " must be an array of strings"))
  end.

(** One element of the loop of [optionalStringSlicePayload]; the set [seen] of the
    code holds the elements of [result]. *)
Definition add_distinct (key : string) (result : list string) (value : string) : res (list string) :=
  let value := trim_space value in
  if bool_decide (value = "") then Err (ErrText (key +:+ " must contain non-empty strings"))
  else if bool_decide (value ∈ result) then Err (ErrText (key +:+ " must not contain duplicates"))
  else Ok (result ++ [value]).

Definition optionalStringSlicePayload (p : payload) (key : string) : res (list string) :=
  match p !! key with
  | None | Some VNull => Ok []
  | Some (VStrings values) => res_fold (add_distinct key) values []
  | Some (VArray values) =>
      res_fold (λ result raw,
        match raw with
        | VString value => add_distinct key result value
        | _ => Err (ErrText (key +:+ " must contain non-empty strings"))
        end) values []
  | Some _ => Err (ErrText (key +:+ " must be an array of strings"))
  end.

(** ** Share selections *)

Record ShareSelection := mkSelection { sel_ID : string; sel_Revision : string; sel_Name : string; sel_Size : Z }.

#[global] Instance share_selection_eq_dec : EqDecision ShareSelection.
Proof. solve_decision. Defined.

Definition max_int64 : Z := 9223372036854775807.

(** Decoding one JSON field into a [string] or an [int64]: [null] leaves it alone. *)
Definition decode_string (old : string) (v : value) : option string :=
  match v with VNull => Some old | VString s => Some s | _ => None end.
Definition decode_int64 (old : Z) (v : value) : option Z :=
  let check (q : Q) : option Z :=
    if Qeq_bool (inject_Z (Qfloor q)) q && Z.leb (- max_int64 - 1) (Qfloor q) && Z.leb (Qfloor q) max_int64
    then Some (Qfloor q) else None in
  match v with VNull => Some old | VFloat q => check q | VInt z => check (inject_Z z) | _ => None end.

(** The fields of an object into a [ShareSelection], in the order they are
    written; names match up to case folding, other names are ignored. *)
Fixpoint decode_fields (s : ShareSelection) (fields : list (string * value)) : option ShareSelection :=
  match fields with
  | [] => Some s
  | (k, v) :: fields' =>
      s' ← (if equal_fold k "id" then
              x ← decode_string (sel_ID s) v; Some (mkSelection x (sel_Revision s) (sel_Name s) (sel_Size s))
            else if equal_fold k "revision" then
              x ← decode_string (sel_Revision s) v; Some (mkSelection (sel_ID s) x (sel_Name s) (sel_Size s))
            else if equal_fold k "name" then
              x ← decode_string (sel_Name s) v; Some (mkSelection (sel_ID s) (sel_Revision s) x (sel_Size s))
            else if equal_fold k "size" then
              x ← decode_int64 (sel_Size s) v; Some (mkSelection (sel_ID s) (sel_Revision s) (sel_Name s) x)
            else Some s);
      decode_fields s' fields'
  end.

Definition decode_selection (v : value) : option ShareSelection :=
  match v with
  | VNull => Some (mkSelection "" "" "" 0)
  | VObject fields => decode_fields (mkSelection "" "" "" 0) fields
  | _ => None
  end.

(** [json.Unmarshal(json.Marshal(raw), &selections)]. *)
Definition decode_selections (v : value) : option (list ShareSelection) :=
  match v with
  | VNull => Some []
  | VArray l => mapM decode_selection l
  | VStrings [] => Some []
  | _ => None
  end.

Definition trimmed (s : ShareSelection) : ShareSelection :=
  mkSelection (trim_space (sel_ID s)) (trim_space (sel_Revision s)) (trim_space (sel_Name s)) (sel_Size s).

(** The key ["name\x00size"] of the duplicate check. *)
Definition name_key (s : ShareSelection) : string := sel_Name s +:+ nul_string +:+ pretty (sel_Size s).

Definition add_selection (key : string) (result : list ShareSelection) (s : ShareSelection) : res (list ShareSelection) :=
  let s := trimmed s in
  if bool_decide (sel_ID s = "") || bool_decide (sel_Revision s = "") || bool_decide (sel_Name s = "")
     || Z.ltb (sel_Size s) 0 then
    Err (ErrText (key +:+ " contains an invalid or revisionless source identity"))
  else if bool_decide (sel_ID s ∈ sel_ID <$> result) then
    Err (ErrText (key +:+ " must not contain duplicate source IDs"))
  else if bool_decide (name_key s ∈ name_key <$> result) then
    Err (ErrText (key +:+ " must not contain duplicate name/size leaves"))
  else Ok (result ++ [s]).

Definition shareSelectionsPayload (p : payload) (key : string) : res (list ShareSelection) :=
  match p !! key with
  | None | Some VNull => Ok []
  | Some raw =>
      match decode_selections raw with
      | None => Err (ErrText (key +:+ " must be an array of source identities"))
      | Some selections => res_fold (add_selection key) selections []
      end
  end.

Definition sameShareSelectionManifest (a b : list ShareSelection) : bool :=
  bool_decide (length a = length b) && forallb (λ xy, bool_decide (xy.1 = xy.2)) (zip a b).

(** ** Share references *)

Definition is_alnum (a : ascii) : bool :=
  let n := nat_of_ascii a in
  bool_decide (48 ≤ n ≤ 57) || bool_decide (97 ≤ n ≤ 122) || bool_decide (65 ≤ n ≤ 90).

Fixpoint take_alnum (l : list ascii) : list ascii :=
  match l with a :: l' => if is_alnum a then a :: take_alnum l' else [] | [] => [] end.

(** The capture of [115(?:cdn)?\.com/s/([A-Za-z0-9]+)] at the start of the text. *)
Definition share_code_here (l : list ascii) : option (list ascii) :=
  let after :=
    match strip_prefix (chars "115cdn.com/s/") l with
    | Some r => Some r
    | None => strip_prefix (chars "115.com/s/") l
    end in
  match after with
  | Some r => if bool_decide (take_alnum r = []) then None else Some (take_alnum r)
  | None => None
  end.

(** [shareURLPattern.FindStringSubmatch]: the leftmost match. *)
Fixpoint find_share_code (l : list ascii) : option (list ascii) :=
  match share_code_here l with
  | Some c => Some c
  | None => match l with [] => None | _ :: l' => find_share_code l' end
  end.

Section Shares.
Context `{Urls}.

Definition ParseShareCode (rawURL password : string) : res (string * string) :=
  let receive := trim_space password in
  let code := match find_share_code (chars rawURL) with Some c => of_chars c | None => "" end in
  let code :=
    if bool_decide (code = "") then
      let t := trim_space rawURL in
      if bool_decide (4 ≤ String.length t ≤ 128) && forallb is_alnum (chars t) then t else code
    else code in
  if bool_decide (code = "") then Err (ErrText ("无法从输入中解析 115 分享码: " +:+ rawURL))
  else
    let receive :=
      if bool_decide (receive = "") then
        match url_parse rawURL with
        | Some u => if bool_decide (u_query u "password" = "") then u_query u "pwd" else u_query u "password"
        | None => receive
        end
      else receive in
    if bool_decide (128 < String.length receive) then Err (ErrText "115 提取码过长")
    else Ok (code, receive).

Definition ValidateOfflineURL (rawURL : string) : res unit :=
  match url_parse (trim_space rawURL) with
  | Some u => if bool_decide (u_scheme u ∈ ["magnet"; "ed2k"; "http"; "https"; "sha1"]) then Ok tt
              else Err (ErrText "offline URL must use magnet, ed2k, http, https, or sha1")
  | None => Err (ErrText "offline URL must use magnet, ed2k, http, https, or sha1")
  end.

(** [strings.Trim(s, "/")]. *)
Fixpoint drop_slashes (l : list ascii) : list ascii :=
  match l with a :: l' => if bool_decide (a = byte 47) then drop_slashes l' else l | [] => [] end.
Definition trim_slashes (s : string) : string :=
  of_chars (reverse (drop_slashes (reverse (drop_slashes (chars s))))).

(** The element after the first ["s"] or ["share"] that has one. *)
Fixpoint share_id (parts : list string) : string :=
  match parts with
  | x :: ((y :: _) as rest) => if bool_decide (x = "s") || bool_decide (x = "share") then y else share_id rest
  | _ => ""
  end.

Definition parseQuarkShare (rawURL password : string) : res (string * string) :=
  match url_parse (trim_space rawURL) with
  | None => Err (ErrText "invalid Quark share URL")
  | Some u =>
      let parts := split_on (byte 47) (trim_slashes (u_path u)) in
      let id := share_id parts in
      let id := if bool_decide (id = "") && bool_decide (length parts = 1) then default "" (head parts) else id in
      if bool_decide (id = "") || contains_any id [byte 63; byte 35; byte 47] then
        Err (ErrText "cannot parse Quark share ID")
      else
        let password := if bool_decide (password = "") then u_query u "pwd" else password in
        let password := if bool_decide (password = "") then u_query u "password" else password in
        Ok (id, trim_space password)
  end.
End Shares.
