(* ===== verification/Queue.v ===== *)
(** The task queue service ([src/internal/service/taskqueue.go]): validation,
    submission, execution, cancellation and retry of tasks, over the stores of
    [TaskStore.v] and [ImportStore.v].

    Error texts do not reproduce the quoting of [%q].  New task IDs ([uuid.NewString]) are arguments; the provider operation behind a
    task ([run]) is an argument of [executeTask]. *)
From S2P Require Import Prelude GoStrings Sql Schema TaskStore ImportStore Payload.

(** ** Validation *)

Section Validation.
Context `{Urls}.

Definition bindingKeys : list string :=
  ["autofill_library_name"; "autofill_library_id"; "autofill_library_cid"; "autofill_series_id";
   "autofill_tmdb_id"; "autofill_series_folder"].

(** [selections[index].ID == selected[index]] for every index of [selected]. *)
Fixpoint same_order (selections : list ShareSelection) (selected : list string) : bool :=
  match selected, selections with
  | [], _ => true
  | id :: selected', s :: selections' => bool_decide (sel_ID s = id) && same_order selections' selected'
  | _ :: _, [] => false
  end.

Definition validateQuarkImportPayload (p : payload) (allowAutofillBinding : bool) : res unit :=
  _ ← res_each (λ key, _ ← stringPayload p key true; Ok tt)
        ["quark_account_id"; "quark_target_id"; "share_url"; "c115_account_id"];
  priorTaskID ← stringPayload p "prior_import_task_id" false;
  parentTaskID ← stringPayload p "parent_task_id" false;
  importAll ← booleanPayload p "import_all" false;
  let selectedIDsSubmitted := bool_decide (is_Some (p !! "selected_source_ids")) in
  selected ← optionalStringSlicePayload p "selected_source_ids";
  let manifestSubmitted := bool_decide (is_Some (p !! "selected_source_manifest")) in
  selections ← shareSelectionsPayload p "selected_source_manifest";
  _ ← fail_if (manifestSubmitted && bool_decide (length selections = 0))
        (ErrText "selected_source_manifest must contain at least one source");
  _ ← fail_if (importAll && manifestSubmitted)
        (ErrText "import_all cannot be combined with selected_source_manifest");
  bound ← res_fold (λ bound key, value ← stringPayload p key false; Ok (bound || negb (bool_decide (value = ""))))
            bindingKeys false;
  expected ← optionalStringSlicePayload p "expected_episodes";
  let hasPrior := negb (bool_decide (priorTaskID = "")) in
  if negb bound then
    _ ← fail_if ((selectedIDsSubmitted && negb (allowAutofillBinding && hasPrior))
                 || negb (bool_decide (length expected = 0)) || negb (bool_decide (parentTaskID = "")))
          (ErrText "selected_source_ids, parent_task_id, and expected_episodes are reserved for internal autofill imports");
    _ ← fail_if (hasPrior && negb allowAutofillBinding)
          (ErrText "prior_import_task_id is reserved for internal retry");
    _ ← (if allowAutofillBinding && hasPrior && selectedIDsSubmitted then
           _ ← fail_if (bool_decide (length selected = 0) || negb (bool_decide (length selections = length selected)))
                 (ErrText "selected_source_manifest must describe every selected source");
           fail_if (negb (same_order selections selected))
             (ErrText "selected_source_manifest order must match selected_source_ids")
         else Ok tt);
    fail_if (negb importAll && negb manifestSubmitted)
      (ErrText "either selected_source_manifest or import_all:true is required")
  else
    _ ← fail_if (negb allowAutofillBinding)
          (ErrText "autofill destination bindings are internal and cannot be submitted directly");
    _ ← fail_if importAll (ErrText "autofill transfer requires selected source identities");
    _ ← fail_if (bool_decide (length selected = 0))
          (ErrText "selected_source_ids is required for autofill transfer");
    _ ← fail_if (bool_decide (length expected = 0))
          (ErrText "expected_episodes is required for autofill transfer");
    _ ← fail_if (bool_decide (parentTaskID = ""))
          (ErrText "parent_task_id is required for autofill transfer");
    _ ← fail_if (negb (bool_decide (length selections = length selected)))
          (ErrText "selected_source_manifest must describe every selected source");
    _ ← fail_if (negb (same_order selections selected))
          (ErrText "selected_source_manifest order must match selected_source_ids");
    res_each (λ key,
      let value := match stringPayload p key false with Ok v => v | Err _ => "" end in
      fail_if (bool_decide (value = "")) (ErrText (key +:+ " is required for autofill transfer"))) bindingKeys.

(** *** Automatic completion of series ([autofill.go]) *)

Definition autoFillLibrarySet : list string := ["电视剧追更"; "综艺追更"].

Record autoFillSourceShare := mkShare { sh_Provider : string; sh_URL : string; sh_Password : string }.

Record seriesAutoFillSpec := mkSpec {
  sp_Libraries : list string; sp_SeriesIDs : list string; sp_CandidateOverrides : gmap string string;
  sp_SourceShares : gmap string autoFillSourceShare; sp_Transfer : bool; sp_ReplaceCompletedPack : bool;
  sp_CandidateLimit : Z; sp_MaxSeries : Z
}.

Definition candidateOverridesPayload (p : payload) : res (gmap string string) :=
  match p !! "candidate_overrides" with
  | None => Ok ∅
  | Some (VObject fields) =>
      res_fold (λ (result : gmap string string) (kv : string * value),
        match kv.2 with
        | VString text =>
            if bool_decide (trim_space kv.1 = "") || bool_decide (trim_space text = "") then
              Err (ErrText "candidate_overrides must map series IDs to non-empty resource IDs")
            else Ok (<[trim_space kv.1 := trim_space text]> result)
        | _ => Err (ErrText "candidate_overrides must map series IDs to non-empty resource IDs")
        end) fields ∅
  | Some _ => Err (ErrText "candidate_overrides must be an object")
  end.

Definition field (fields : list (string * value)) (key : string) : option value :=
  (list_to_map fields : gmap string value) !! key.

Definition add_source_share (result : gmap string autoFillSourceShare) (kv : string * value)
    : res (gmap string autoFillSourceShare) :=
  let seriesID := trim_space kv.1 in
  let where_ (suffix : string) := ErrText ("source_shares[" +:+ seriesID +:+ "]" +:+ suffix) in
  if bool_decide (seriesID = "") then Err (ErrText "source_shares keys must be non-empty Emby Series IDs")
  else match kv.2 with
  | VObject fields =>
      provider ← match field fields "provider" with
                 | Some (VString s) => Ok (to_lower (trim_space s))
                 | _ => Err (where_ ".provider must be 115 or quark")
                 end;
      _ ← fail_if (negb (bool_decide (provider = "115")) && negb (bool_decide (provider = "quark")))
            (where_ ".provider must be 115 or quark");
      rawURL ← match field fields "url" with
               | Some (VString s) => if bool_decide (trim_space s = "") then Err (where_ ".url is required")
                                     else Ok (trim_space s)
               | _ => Err (where_ ".url is required")
               end;
      _ ← fail_if (match url_parse_request rawURL with
                   | Some u => negb (bool_decide (u_scheme u = "https")) || bool_decide (u_host u = "") || u_user u
                   | None => true
                   end) (where_ ".url must be an HTTPS share URL");
      password ← match field fields "password" with
                 | None => Ok ""
                 | Some (VString s) => Ok (trim_space s)
                 | Some _ => Err (where_ ".password must be a string")
                 end;
      _ ← match (if bool_decide (provider = "115") then ParseShareCode rawURL password
                 else parseQuarkShare rawURL password) with
          | Ok _ => Ok tt
          | Err e => Err (ErrWrap ("source_shares[" +:+ seriesID +:+ "].url is invalid: ") e)
          end;
      _ ← fail_if (bool_decide (is_Some (result !! seriesID)))
            (ErrText ("source_shares contains duplicate Series ID " +:+ seriesID));
      Ok (<[seriesID := mkShare provider rawURL password]> result)
  | _ => Err (where_ " must be an object")
  end.

Definition sourceSharesPayload (p : payload) : res (gmap string autoFillSourceShare) :=
  match p !! "source_shares" with
  | None => Ok ∅
  | Some (VObject fields) => res_fold add_source_share fields ∅
  | Some _ => Err (ErrText "source_shares must be an object keyed by Emby Series ID")
  end.

(** [sort.Strings]. *)
Definition sort_strings (l : list string) : list string := merge_sort (λ x y, String.leb x y = true) l.

Definition resolveSeriesAutoFillSpec (p : payload) : res seriesAutoFillSpec :=
  libraries ← stringSlicePayload p "libraries";
  _ ← res_fold (λ seen library,
        if negb (bool_decide (library ∈ autoFillLibrarySet)) then
          Err (ErrText ("library " +:+ library +:+ " is not eligible for automatic episode completion"))
        else if bool_decide (library ∈ seen) then Err (ErrText "libraries must not contain duplicates")
        else Ok (library :: seen)) libraries [];
  seriesIDs ← optionalStringSlicePayload p "series_ids";
  overrides ← candidateOverridesPayload p;
  sourceShares ← sourceSharesPayload p;
  let targets := (map_to_list sourceShares).*1 in
  _ ← fail_if (existsb (λ id, bool_decide (is_Some (overrides !! id))) targets)
        (ErrText "source_shares and candidate_overrides cannot target the same Series");
  let seriesIDs := if bool_decide (length seriesIDs = 0) then sort_strings targets else seriesIDs in
  transfer ← booleanPayload p "transfer" true;
  candidateLimit ← integerPayload p "candidate_limit" 10 1 30;
  maxSeries ← integerPayload p "max_series" 20 1 100;
  replaceCompletedPack ← booleanPayload p "replace_completed_pack" false;
  Ok (mkSpec libraries seriesIDs overrides sourceShares transfer replaceCompletedPack candidateLimit maxSeries).

(** [metadata.go]. *)
Definition resolveMetadataRepairSpec (p : payload) : res (Z * bool) :=
  limit ← integerPayload p "limit" 100 1 500;
  autoApply ← booleanPayload p "auto_apply" true;
  Ok (limit, autoApply).

(** *** Every task type *)

Definition supportedTaskTypes : list string :=
  ["c115_offline_download"; "share_auto_sync"; "c115_save_share"; "quark_to_115_import"; "emby_match";
   "emby_refresh"; "emby_missing_posters"; "emby_metadata_repair"; "series_auto_fill"; "media_ingest";
   "strm_sync"; "strm_verify"].

Definition ignore {A} (r : res A) : res unit := match r with Ok _ => Ok tt | Err e => Err e end.

Definition validateTask (taskType : string) (p : payload) : res unit :=
  if bool_decide (taskType = "emby_refresh") then
    _ ← stringPayload p "library_id" false; ignore (booleanPayload p "sync_strm" true)
  else if bool_decide (taskType = "emby_match") then
    _ ← stringPayload p "item_id" true; ignore (stringPayload p "tmdb_id" true)
  else if bool_decide (taskType = "share_auto_sync") then ignore (stringPayload p "subscription_id" true)
  else if bool_decide (taskType = "emby_missing_posters") then Ok tt
  else if bool_decide (taskType = "emby_metadata_repair") then ignore (resolveMetadataRepairSpec p)
  else if bool_decide (taskType = "series_auto_fill") then ignore (resolveSeriesAutoFillSpec p)
  else if bool_decide (taskType = "c115_save_share") then
    rawURL ← stringPayload p "url" true;
    password ← stringPayload p "password" false;
    _ ← ParseShareCode rawURL password;
    res_each (λ key, ignore (stringPayload p key false)) ["target_cid"; "account_id"]
  else if bool_decide (taskType = "c115_offline_download") then
    urls ← stringSlicePayload p "urls";
    _ ← res_each ValidateOfflineURL urls;
    res_each (λ key, ignore (stringPayload p key false)) ["target_cid"; "account_id"]
  else if bool_decide (taskType = "media_ingest") then ignore (stringPayload p "source_task_id" true)
  else if bool_decide (taskType = "quark_to_115_import") then validateQuarkImportPayload p false
  else if bool_decide (taskType = "strm_sync") || bool_decide (taskType = "strm_verify") then
    ignore (stringPayload p "library" false)
  else Err (ErrText ("unsupported task type " +:+ taskType +:+ "; supported types: " +:+ join ", " supportedTaskTypes)).

Definition ValidateTask (taskType : string) (p : payload) : res unit := validateTask (trim_space taskType) p.

End Validation.

(** ** Submission *)

Section Submission.
Context `{Urls} `{Env}.
Abbreviation Db := (M Database).

(** [persistTask]: the task with its ID. *)
Definition persistTask (newID taskType : string) (p : payload) (scheduleID : string) : Db task_with_id :=
  t ← now;
  let task := AsyncTask.mk taskType scheduleID p "pending" 0 "" "" 0 1 t t in
  task ← (if bool_decide (scheduleID = "") then CreateAsyncTask newID task
          else CreateScheduledAsyncTask newID task scheduleID);
  mret (newID, task).

(** What [enqueue] persists: for an import the selected IDs come from its manifest. *)
Definition derived_payload (taskType : string) (p : payload) : res payload :=
  if bool_decide (taskType = "quark_to_115_import") then
    selections ← shareSelectionsPayload p "selected_source_manifest";
    Ok (if bool_decide (0 < length selections)
        then <["selected_source_ids" := VStrings (sel_ID <$> selections)]> p else p)
  else Ok p.

Definition enqueue (newID taskType : string) (p : payload) (scheduleID : string) : Db task_with_id :=
  let taskType := trim_space taskType in
  _ ← lift (validateTask taskType p);
  p ← lift (derived_payload taskType p);
  persistTask newID taskType p scheduleID.

Definition Enqueue (newID taskType : string) (p : payload) : Db task_with_id := enqueue newID taskType p "".
Definition EnqueueScheduled (newID scheduleID taskType : string) (p : payload) : Db task_with_id :=
  enqueue newID taskType p scheduleID.

Definition enqueueAutofillQuarkImport (newID : string) (p : payload) : Db task_with_id :=
  _ ← lift (validateQuarkImportPayload p true);
  persistTask newID "quark_to_115_import" p "".

(** [uuid5] is [uuid.NewSHA1] in the OID name space. *)
Definition enqueueMediaIngest (uuid5 : string → string) (sourceTaskID : string) : Db task_with_id :=
  let sourceTaskID := trim_space sourceTaskID in
  if bool_decide (sourceTaskID = "") then throw (ErrText "source_task_id is required") else
  let id := uuid5 ("media-ingest:" +:+ sourceTaskID) in
  existing ← attempt (GetAsyncTask id);
  match existing with
  | Ok task => mret (id, task)
  | Err e =>
      if negb (error_is e ErrNoRows) then throw e else
      t ← now;
      let task := AsyncTask.mk "media_ingest" "" {["source_task_id" := VString sourceTaskID]} "pending" 0 "" "" 0 1 t t in
      created ← attempt (CreateAsyncTask id task);
      match created with
      | Ok task => mret (id, task)
      | Err e =>
          again ← attempt (GetAsyncTask id);
          match again with Ok existing => mret (id, existing) | Err _ => throw e end
      end
  end.

(** [Retry]: [newID] is the ID of the task it creates. *)
Definition Retry (newID taskID : string) : Db task_with_id :=
  task ← GetAsyncTask taskID;
  if negb (bool_decide (AsyncTask.Status task = "failed")) && negb (bool_decide (AsyncTask.Status task = "cancelled")) then
    throw (ErrText ("task " +:+ taskID +:+ " is " +:+ AsyncTask.Status task +:+ ", not failed or cancelled"))
  else if bool_decide (AsyncTask.Type_ task = "quark_to_115_import") then
    prior ← attempt (GetCrossDriveImport taskID);
    match prior with
    | Err e => if negb (error_is e ErrNoRows) then throw e
               else enqueueAutofillQuarkImport newID (<["prior_import_task_id" := VString taskID]> (AsyncTask.Payload task))
    | Ok prior =>
        if bool_decide (length (CrossDriveImport.SavedRootIDs prior) = 0) then
          throw (ErrText "prior import has no reconciled saved-root checkpoint; share save outcome requires review")
        else enqueueAutofillQuarkImport newID (<["prior_import_task_id" := VString taskID]> (AsyncTask.Payload task))
    end
  else enqueue newID (AsyncTask.Type_ task) (AsyncTask.Payload task) (AsyncTask.ScheduleID task).

End Submission.

(** ** Execution

    The service's own state: the media mutex, and the tasks whose cancellation
    function is registered. *)

Record Service := mkService { media_locked : bool; running_ids : gset string }.

(** What a provider operation returns: its encoded result (or the error of
    encoding it), its error, and whether its context was cancelled. *)
Record outcome := mkOutcome { oc_result : option (res string); oc_err : option error; oc_cancelled : bool }.

(** [errors.Join(err, encodeErr)]: the errors, in order. *)
Definition outcome_errors (o : outcome) : list error :=
  match oc_err o with Some e => [e] | None => [] end
  ++ match oc_result o with Some (Err e) => [ErrWrap "encode task result: " e] | _ => [] end.

Definition newline : string := of_chars [byte 10].

Section Execution.
Context `{Env}.
Abbreviation Db := (M Database).

(** [log.Printf] of a failed persist is not modelled: the error is dropped. *)
Definition finish_logged (id status : string) (progress : Q) (resultText errText message : string) : Db unit :=
  _ ← attempt (FinishAsyncTask id status progress resultText errText message); mret tt.

Definition executeTask (run : task_with_id → Db outcome) (cancelled : bool) (s : Service) (id : string)
    (task : AsyncTask.t) : Db unit :=
  if media_locked s then mret tt
  else if cancelled then mret tt
  else
    claim ← attempt (BeginAsyncTask id);
    match claim with
    | Err _ => mret tt
    | Ok None => mret tt
    | Ok (Some _) =>
        logged ← attempt (AppendTaskLog id ("started " +:+ AsyncTask.Type_ task));
        match logged with
        | Err e =>
            let message := "persist task start log: " +:+ error_text e in
            finish_logged id "failed" 0 "" message ("failed: " +:+ message)
        | Ok _ =>
            progressed ← (if negb (bool_decide (AsyncTask.Type_ task = "quark_to_115_import"))
                          then attempt (UpdateAsyncTaskProgress id 10) else mret (Ok tt));
            match progressed with
            | Err e =>
                let message := "persist task progress: " +:+ error_text e in
                finish_logged id "failed" 0 "" message ("failed: " +:+ message)
            | Ok _ =>
                o ← run (id, task);
                let encoded := match oc_result o with Some (Ok text) => text | _ => "" end in
                let errs := outcome_errors o in
                if negb (bool_decide (errs = [])) then
                  let status := if existsb (λ e, error_is e ErrCanceled) errs || oc_cancelled o
                                then "cancelled" else "failed" in
                  current ← attempt (GetAsyncTask id);
                  let progress := match current with Ok t => AsyncTask.Progress t | Err _ => 10%Q end in
                  let text := join newline (error_text <$> errs) in
                  finish_logged id status progress encoded text (status +:+ ": " +:+ text)
                else finish_logged id "completed" 100 encoded "" ("completed " +:+ AsyncTask.Type_ task)
            end
        end
    end.

(** [taskProgress(taskID, start, end)]. *)
Definition mapped_progress (start end_ progress : Q) : Q :=
  let progress := qmin 100 (qmax 0 progress) in
  qmin 99 (start + (end_ - start) * progress / 100).

Definition taskProgress (id : string) (start end_ progress : Q) (message : string) : Db unit :=
  _ ← UpdateAsyncTaskProgress id (mapped_progress start end_ progress);
  if negb (bool_decide (message = "")) then AppendTaskLog id message else mret tt.

(** [Cancel]: the task afterwards, and whether its cancellation function is called. *)
Definition Cancel (s : Service) (taskID : string) : Db (AsyncTask.t * bool) :=
  task ← GetAsyncTask taskID;
  signalled ← (if bool_decide (AsyncTask.Status task = "pending") then
      changed ← CancelPendingAsyncTask taskID;
      if negb changed then throw (ErrText ("task " +:+ taskID +:+ " changed state before cancellation"))
      else mret false
    else if bool_decide (AsyncTask.Status task = "running") then
      _ ← (if bool_decide (AsyncTask.Type_ task = "quark_to_115_import")
           then RequestCrossDriveCancellation taskID else mret tt);
      if bool_decide (taskID ∈ running_ids s) then mret true
      else throw (ErrText ("task " +:+ taskID +:+ " is running outside this worker"))
    else throw (ErrText ("task " +:+ taskID +:+ " is already " +:+ AsyncTask.Status task)));
  after ← GetAsyncTask taskID;
  mret (after, signalled).

(** [processPendingTasks] while its context is live. *)
Definition processPendingTasks (run : task_with_id → Db outcome) (s : Service) : Db unit :=
  pending ← attempt (ListPendingAsyncTasks 5);
  match pending with
  | Err _ => mret tt
  | Ok l => m_each (λ row, executeTask run false s row.1 row.2) l
  end.

(** [Start] runs the recovery first. *)
Definition Start (started : bool) : Db unit :=
  if started then mret tt else wrap "recover interrupted tasks: " RecoverInterruptedAsyncTasks.

End Execution.

(** [TryMediaMutation]. *)
Definition ErrMediaMutationBusy : error :=
  ErrText "media mutation is busy; retry after the active operation completes".
Definition TryMediaMutation {A} (s : Service) (fn : res A) : res A :=
  if media_locked s then Err ErrMediaMutationBusy else fn.
