(* ===== verification/QueueProofs.v ===== *)
(** Correctness of the task queue service: payload readers, submission and retry
    of imports, execution to a terminal state, idempotent ingestion. *)
From S2P Require Import Prelude GoStrings Sql Schema TaskStore TaskProofs ImportStore Payload Queue.
From Stdlib Require Import Qround.
#[global] Close Scope Q_scope.

(** ** Execution *)

Section Execution.
Context `{Env} (Hf : ∀ k, env_fault k = None).

Definition running_task (id : string) (d : Database) : Prop :=
  ∃ t, tasks d !! id = Some t ∧ AsyncTask.Status t = "running".

Lemma running_run_exists id d :
  queue_inv d → running_task id d → ∃ n r, last_row (of_task id) (runs d) = Some (n, r).
Proof.
  intros Q (t & Ht & Hs). destruct (qi_running d Q id t Ht Hs) as (n & r & Hn & Hid & _).
  destruct (last_row (of_task id) (runs d)) as [[m s]|] eqn:E; [eauto|].
  rewrite last_row_none in E. specialize (E n r Hn). unfold of_task in E. by rewrite bool_decide_true in E.
Qed.

Lemma log_running id message w :
  queue_inv (w_db w) → running_task id (w_db w) →
  wp (AppendTaskLog id message) w (λ r w', is_ok r = true ∧ queue_inv (w_db w') ∧ running_task id (w_db w')).
Proof.
  intros Q Hr. destruct w as [n0 d].
  assert (wp (AppendTaskLog id message) (mkWorld n0 d) (λ r _, is_ok r = true)) as Hok.
  { unfold AppendTaskLog. destruct (running_run_exists id d Q Hr) as (n & r & Hl). wp_run; no_faults Hf; try done.
    all: by rewrite Hl in *. }
  assert (wp (run_op (QLog id message)) (mkWorld n0 d) (λ _ w', queue_inv (w_db w'))) as Hinv.
  { apply wp_intro. intros r w' Hrun. by eapply (run_op_inv (QLog id message)). }
  eapply wp_mono; [apply wp_and; [exact Hok|apply wp_and; [exact Hinv|apply log_effect]]|].
  intros r w' (Hr' & Q' & He). split; [done|]. split; [done|]. destruct r; [|done].
  destruct He as (n & run & _ & ->). exact Hr.
Qed.

Lemma progress_running id p w :
  queue_inv (w_db w) → running_task id (w_db w) →
  wp (UpdateAsyncTaskProgress id p) w (λ r w', is_ok r = true ∧ queue_inv (w_db w') ∧ running_task id (w_db w')).
Proof.
  intros Q (t & Ht & Hs). destruct w as [n0 d]. simpl in *.
  assert (wp (UpdateAsyncTaskProgress id p) (mkWorld n0 d) (λ r _, is_ok r = true)) as Hok.
  { unfold UpdateAsyncTaskProgress. wp_run; no_faults Hf; done. }
  assert (wp (run_op (QProgress id p)) (mkWorld n0 d) (λ _ w', queue_inv (w_db w'))) as Hinv.
  { apply wp_intro. intros r w' Hrun. by eapply (run_op_inv (QProgress id p)). }
  eapply wp_mono; [apply wp_and; [exact Hok|apply wp_and; [exact Hinv|apply progress_effect]]|].
  intros r w' (Hr' & Q' & He). split; [done|]. split; [done|]. destruct r; [|done].
  destruct He as (at_ & ->). simpl. rewrite Ht. unfold is_running. rewrite bool_decide_true by done.
  exists (with_progress p at_ t). simpl. by rewrite lookup_insert_eq.
Qed.

Lemma finish_running id s p res err message w :
  terminal s → queue_inv (w_db w) → running_task id (w_db w) →
  wp (finish_logged id s p res err message) w (λ r w', r = Ok tt ∧ queue_inv (w_db w') ∧
    ∃ t, tasks (w_db w') = <[id := t]> (tasks (w_db w)) ∧ AsyncTask.Status t = s ∧ AsyncTask.Error t = err ∧
      AsyncTask.Result t = res ∧ AsyncTask.Progress t = p).
Proof.
  intros Hterm Q (t & Ht & Hs). destruct w as [n0 d]. simpl in *. unfold finish_logged.
  apply wp_bind, wp_attempt.
  assert (wp (run_op (QFinish id s p res err message)) (mkWorld n0 d) (λ _ w', queue_inv (w_db w'))) as Hinv.
  { apply wp_intro. intros r w' Hrun. by eapply (run_op_inv (QFinish id s p res err message)). }
  eapply wp_mono; [apply wp_and; [by apply (finish_no_fail id s p res err message n0 d t)|
    apply wp_and; [exact Hinv|apply finish_effect]]|].
  intros r w' (-> & Q' & k & run & t1 & at_ & logs & _ & _ & _ & _ & Hw). apply wp_ret. split; [done|].
  split; [done|]. rewrite Hw. simpl. eexists. split; [done|]. done.
Qed.

(** A provider operation that returns, and leaves its own task running. *)
Definition tame (id : string) (run : task_with_id → M Database outcome) : Prop :=
  ∀ task w, queue_inv (w_db w) → running_task id (w_db w) →
    wp (run task) w (λ r w', is_ok r = true ∧ queue_inv (w_db w') ∧ running_task id (w_db w')).

(** The status [executeTask] records for an outcome. *)
Definition outcome_status (o : outcome) : string :=
  if bool_decide (outcome_errors o = []) then "completed"
  else if existsb (λ e, error_is e ErrCanceled) (outcome_errors o) || oc_cancelled o then "cancelled" else "failed".

Lemma outcome_status_terminal o : terminal (outcome_status o).
Proof.
  unfold outcome_status, terminal. destruct (bool_decide _); [by left|]. destruct (_ || _); auto.
Qed.

(** The run of a task begins with its claim, a log entry, and some progress but for imports. *)
Definition progress_begun (id : string) (task : AsyncTask.t) : M Database unit :=
  if negb (bool_decide (AsyncTask.Type_ task = "quark_to_115_import")) then UpdateAsyncTaskProgress id 10 else mret tt.
Definition begun (id : string) (task : AsyncTask.t) : M Database unit :=
  _ ← BeginAsyncTask id;
  _ ← AppendTaskLog id ("started " +:+ AsyncTask.Type_ task);
  progress_begun id task.

(** What the task says of the outcome of its run. *)
Definition recorded (o : outcome) (t : AsyncTask.t) : Prop :=
  AsyncTask.Status t = outcome_status o ∧ AsyncTask.Error t = join newline (error_text <$> outcome_errors o) ∧
  AsyncTask.Result t = match oc_result o with Some (Ok text) => text | _ => "" end ∧
  (AsyncTask.Status t = "completed" → AsyncTask.Progress t = 100%Q).

Lemma execute_after_claim run id task w :
  tame id run → queue_inv (w_db w) → running_task id (w_db w) →
  wp (progressed ← (if negb (bool_decide (AsyncTask.Type_ task = "quark_to_115_import"))
                    then attempt (UpdateAsyncTaskProgress id 10) else mret (Ok tt));
      match progressed with
      | Err e => finish_logged id "failed" 0 "" ("persist task progress: " +:+ error_text e)
                   ("failed: " +:+ ("persist task progress: " +:+ error_text e))
      | Ok _ =>
          o ← run (id, task);
          let encoded := match oc_result o with Some (Ok text) => text | _ => "" end in
          let errs := outcome_errors o in
          if negb (bool_decide (errs = [])) then
            let status := if existsb (λ e, error_is e ErrCanceled) errs || oc_cancelled o then "cancelled" else "failed" in
            current ← attempt (GetAsyncTask id);
            let progress := match current with Ok t => AsyncTask.Progress t | Err _ => 10%Q end in
            let text := join newline (error_text <$> errs) in
            finish_logged id status progress encoded text (status +:+ ": " +:+ text)
          else finish_logged id "completed" 100 encoded "" ("completed " +:+ AsyncTask.Type_ task)
      end) w
    (λ r w', r = Ok tt ∧ queue_inv (w_db w') ∧ ∃ w1 o w2 t, progress_begun id task w = (Ok tt, w1) ∧ run (id, task) w1 = (Ok o, w2) ∧
       tasks (w_db w') = <[id := t]> (tasks (w_db w2)) ∧ recorded o t).
Proof.
  intros Hrun Q Hr. apply wp_bind.
  eapply (wp_mono _ _ (λ r w', r = Ok (Ok tt) ∧ progress_begun id task w = (Ok tt, w') ∧ queue_inv (w_db w') ∧ running_task id (w_db w'))).
  { unfold progress_begun. destruct (negb _); [|done]. apply wp_attempt, wp_intro. intros r w' E.
    destruct (wp_elim _ _ _ _ _ (progress_running id 10 w Q Hr) E) as (Hok & ? & ?). destruct r as [[]|]; done. }
  intros r w1 (-> & Hbegun & Q1 & Hr1). apply wp_bind, wp_intro. intros r w2 Erun.
  destruct (wp_elim _ _ _ _ _ (Hrun (id, task) w1 Q1 Hr1) Erun) as (Hok & Q2 & Hr2). destruct r as [o|e]; [|done]. simpl.
  destruct (decide (outcome_errors o = [])) as [He|He].
  - rewrite (bool_decide_true (outcome_errors o = [])) by done. simpl.
    eapply wp_mono; [apply finish_running; [by left|done|done]|].
    intros r w' (-> & Q' & t & Ht & Hs & Het & Hres & Hp). split; [done|]. split; [done|]. exists w1, o, w2, t. do 3 (split; [done|]).
    unfold recorded, outcome_status. rewrite bool_decide_true by done. by rewrite He.
  - rewrite (bool_decide_false (outcome_errors o = [])) by done. simpl.
    apply wp_bind, wp_attempt. unfold GetAsyncTask. apply wp_query.
    all: intros x n Hx; eapply wp_mono; [apply finish_running; [|exact Q2|exact Hr2]|].
    1, 3: destruct (_ || _); [by right; right|by right; left].
    all: intros r w' (-> & Q' & t & Ht & Hs & Het & Hres & Hp); split; [done|]; split; [done|]; exists w1, o, w2, t; do 3 (split; [done|]).
    all: unfold recorded, outcome_status; rewrite (bool_decide_false (outcome_errors o = [])) by done; split_and!; try done.
    all: intros E; rewrite Hs in E; by destruct (_ || _) in E.
Qed.
End Execution.

Lemma execute_terminates `{Env} run id t n d :
  (∀ k, env_fault k = None) → queue_inv d → tasks d !! id = Some t → claimable t = true → tame id run →
  wp (executeTask run false (mkService false ∅) id t) (mkWorld n d) (λ r w', r = Ok tt ∧ queue_inv (w_db w') ∧
    ∃ w1 o w2 t', begun id t (mkWorld n d) = (Ok tt, w1) ∧ run (id, t) w1 = (Ok o, w2) ∧
      tasks (w_db w') = <[id := t']> (tasks (w_db w2)) ∧ recorded o t').
Proof.
  intros Hf Q Ht Hc Hrun. unfold executeTask. simpl. apply wp_bind, wp_attempt, wp_intro. intros claim w1 Eclaim.
  destruct (wp_elim _ _ _ _ _ (wp_and _ _ _ _ (begin_no_fail id n d Hf Q) (begin_effect id _)) Eclaim) as [Hok He].
  destruct claim as [[[k run0]|]|e]; [| |done].
  2: { destruct He as [_ Hn]. rewrite (Hn t Ht) in Hc. done. }
  destruct He as (t0 & at_ & Ht0 & Hc0 & Hk & Hrun0 & Hw). simpl in *.
  assert (queue_inv (w_db w1) ∧ running_task id (w_db w1)) as [Q1 Hr1].
  { rewrite Hw, Hk. split; [by apply (begin_inv d id t0 at_); [..|rewrite Hrun0|rewrite Hrun0|rewrite Hrun0|]|].
    exists (claimed t0 at_). simpl. by rewrite lookup_insert_eq. }
  apply wp_bind, wp_attempt, wp_intro. intros logged w2 Elog.
  destruct (wp_elim _ _ _ _ _ (log_running Hf id _ w1 Q1 Hr1) Elog) as (Hok2 & Q2 & Hr2). destruct logged as [u|e]; [|done].
  eapply wp_mono; [with_strategy opaque [finish_logged attempt mbind m_bind] by apply execute_after_claim|]. intros r w' (-> & Q' & wr & o & w3 & t' & Hb & Hrest). split; [done|]. split; [done|].
  exists wr, o, w3, t'. split; [|done]. unfold begun, mbind, m_bind. rewrite Eclaim, Elog. exact Hb.
Qed.

(** ** Payload readers *)

Lemma add_distinct_ok key result v result' :
  add_distinct key result v = Ok result' →
  result' = result ++ [trim_space v] ∧ trim_space v ≠ "" ∧ trim_space v ∉ result.
Proof.
  unfold add_distinct. destruct (bool_decide (trim_space v = "")) eqn:E1; [done|].
  destruct (bool_decide (trim_space v ∈ result)) eqn:E2; [done|]. intros [= <-]. by bools.
Qed.

(** A cleaned list: trimmed, not blank, without duplicates. *)
Definition cleaned (l : list string) : Prop := NoDup l ∧ ∀ x, x ∈ l → x ≠ "" ∧ trim_space x = x.

Lemma cleaned_snoc l x : cleaned l → trim_space x ≠ "" → trim_space x ∉ l → cleaned (l ++ [trim_space x]).
Proof.
  intros [Hnd Hl] Hx Hnin. split.
  - apply NoDup_app. split; [done|]. split; [|apply NoDup_singleton].
    intros y Hy ->%list_elem_of_singleton. done.
  - intros y [Hy|Hy]%elem_of_app; [by apply Hl|]. apply list_elem_of_singleton in Hy as ->.
    split; [done|apply trim_space_idemp].
Qed.

Lemma optional_slice_cleaned p key l : optionalStringSlicePayload p key = Ok l → cleaned l.
Proof.
  unfold optionalStringSlicePayload. assert (cleaned []) as Hnil.
  { split; [constructor|]. intros x Hx. by apply not_elem_of_nil in Hx. }
  destruct (p !! key) as [[]|]; try done; try (by intros [= <-]).
  - apply (res_fold_inv (λ _ s, cleaned s)); [done|]. intros _ s x s' Hs _ Hx.
    apply add_distinct_ok in Hx as (-> & ? & ?). by apply cleaned_snoc.
  - apply (res_fold_inv (λ _ s, cleaned s)); [done|]. intros _ s x s' Hs _ Hx. destruct x; try done.
    apply add_distinct_ok in Hx as (-> & ? & ?). by apply cleaned_snoc.
Qed.

Lemma add_distinct_fold key done_ l :
  cleaned (done_ ++ l) → res_fold (add_distinct key) l done_ = Ok (done_ ++ l).
Proof.
  revert done_. induction l as [|x l IH]; intros done_ Hc; simpl; [by rewrite app_nil_r|].
  destruct Hc as [Hnd Hl]. assert (x ≠ "" ∧ trim_space x = x) as [Hx Ht] by (apply Hl; set_solver).
  unfold add_distinct at 1. rewrite Ht, !bool_decide_false; [| |done].
  - rewrite IH by (rewrite <-app_assoc; done). by rewrite <-app_assoc.
  - intros Hin. apply NoDup_app in Hnd as (_ & Hd & _). apply (Hd x Hin). by left.
Qed.

(** Storing a cleaned list and reading it back gives the same list. *)
Lemma cleaned_stored p key l :
  cleaned l → p !! key = Some (VArray (VString <$> l)) → optionalStringSlicePayload p key = Ok l.
Proof.
  intros Hc Hp. unfold optionalStringSlicePayload. rewrite Hp.
  assert (∀ s, res_fold (λ result raw, match raw with VString value => add_distinct key result value
      | _ => Err (ErrText (key +:+ " must contain non-empty strings")) end) (VString <$> l) s
    = res_fold (add_distinct key) l s) as ->.
  { clear. induction l as [|x l IH]; intros s; simpl; [done|]. by destruct (add_distinct key s x). }
  by apply (add_distinct_fold key []).
Qed.

(** *** Selections *)

Lemma add_selection_ok key result s result' :
  add_selection key result s = Ok result' →
  result' = result ++ [trimmed s] ∧ sel_ID (trimmed s) ≠ "" ∧ sel_ID (trimmed s) ∉ sel_ID <$> result ∧
  sel_Revision (trimmed s) ≠ "" ∧ sel_Name (trimmed s) ≠ "" ∧ (0 ≤ sel_Size s)%Z.
Proof.
  unfold add_selection. destruct (_ || _) eqn:E1; [done|].
  destruct (bool_decide (sel_ID (trimmed s) ∈ _)) eqn:E2; [done|].
  destruct (bool_decide (name_key (trimmed s) ∈ _)) eqn:E3; [done|]. intros [= <-]. bools.
  simpl in *. done.
Qed.

Lemma selections_cleaned p key l :
  shareSelectionsPayload p key = Ok l → cleaned (sel_ID <$> l) ∧
  ∀ s, s ∈ l → sel_Revision s ≠ "" ∧ sel_Name s ≠ "" ∧ (0 ≤ sel_Size s)%Z.
Proof.
  assert (cleaned (sel_ID <$> []) ∧ ∀ s : ShareSelection, s ∈ [] → sel_Revision s ≠ "" ∧ sel_Name s ≠ "" ∧ (0 ≤ sel_Size s)%Z)
    as Hnil.
  { split; [split; [constructor|]|]; intros x Hx; by apply not_elem_of_nil in Hx. }
  intros Hl. assert (∃ raw, l = [] ∨ res_fold (add_selection key) raw [] = Ok l) as [raw [->|Hf]].
  { unfold shareSelectionsPayload in Hl. destruct (p !! key) as [v|]; [|exists []; injection Hl as <-; by left].
    destruct v; try (destruct (decode_selections _) as [r|]; [|done]; exists r; by right).
    exists []. injection Hl as <-. by left. }
  { done. }
  revert Hf. apply (res_fold_inv (λ _ l, cleaned (sel_ID <$> l) ∧
    ∀ s, s ∈ l → sel_Revision s ≠ "" ∧ sel_Name s ≠ "" ∧ (0 ≤ sel_Size s)%Z)); [done|].
  intros _ s x s' [Hs Hall] _ Hx. apply add_selection_ok in Hx as (-> & Hid & Hnin & Hrev & Hname & Hsz).
  rewrite fmap_app. simpl in *. split; [by apply cleaned_snoc|].
  intros y [Hy|Hy]%elem_of_app; [by apply Hall|]. by apply list_elem_of_singleton in Hy as ->.
Qed.

Lemma decode_fields_roundtrip s fields :
  decode_fields s (map (λ kv, (kv.1, value_roundtrip kv.2)) fields) = decode_fields s fields.
Proof.
  revert s. induction fields as [|[k v] fields IH]; intros s; simpl; [done|].
  assert (∀ o, decode_string o (value_roundtrip v) = decode_string o v) as Hs by (by destruct v).
  assert (∀ o, decode_int64 o (value_roundtrip v) = decode_int64 o v) as Hi by (by destruct v).
  rewrite !Hs, !Hi. destruct (if equal_fold k "id" then _ else _) as [s'|]; simpl; [apply IH|done].
Qed.

Lemma decode_selections_roundtrip v : decode_selections (value_roundtrip v) = decode_selections v.
Proof.
  destruct v; try done; simpl.
  - by destruct l.
  - induction l as [|x l IH]; simpl; [done|].
    assert (decode_selection (value_roundtrip x) = decode_selection x) as ->.
    { destruct x; try done. simpl. apply decode_fields_roundtrip. }
    destruct (decode_selection x); simpl; [|done]. by rewrite IH.
Qed.

Lemma selections_roundtrip p key :
  shareSelectionsPayload (payload_roundtrip p) key = shareSelectionsPayload p key.
Proof.
  unfold shareSelectionsPayload, payload_roundtrip. rewrite lookup_fmap.
  destruct (p !! key) as [v|]; simpl; [|done].
  pose proof (decode_selections_roundtrip v) as Hd. destruct v; simpl in *; try done; by rewrite ?Hd.
Qed.

Lemma string_roundtrip p key req : stringPayload (payload_roundtrip p) key req = stringPayload p key req.
Proof. unfold stringPayload, payload_roundtrip. rewrite lookup_fmap. by destruct (p !! key) as [[]|]. Qed.

Lemma boolean_roundtrip p key b : booleanPayload (payload_roundtrip p) key b = booleanPayload p key b.
Proof. unfold booleanPayload, payload_roundtrip. rewrite lookup_fmap. by destruct (p !! key) as [[]|]. Qed.

Lemma slice_roundtrip p key :
  optionalStringSlicePayload (payload_roundtrip p) key = optionalStringSlicePayload p key.
Proof.
  unfold optionalStringSlicePayload, payload_roundtrip. rewrite lookup_fmap.
  destruct (p !! key) as [v|]; [|done]. simpl. destruct v; try done; simpl.
  - generalize (@nil string). induction l as [|x l IH]; intros s; simpl; [done|].
    by destruct (add_distinct key s x).
  - generalize (@nil string). induction l as [|x l IH]; intros s; simpl; [done|].
    destruct x; simpl; try done. by destruct (add_distinct key s s0).
Qed.

(** Reading one key does not see another. *)
Section Other.
Context (p : payload) (k : string) (v : value) (key : string) (Hne : k ≠ key).
Lemma string_other req : stringPayload (<[k := v]> p) key req = stringPayload p key req.
Proof. unfold stringPayload. by rewrite lookup_insert_ne. Qed.
Lemma boolean_other b : booleanPayload (<[k := v]> p) key b = booleanPayload p key b.
Proof. unfold booleanPayload. by rewrite lookup_insert_ne. Qed.
Lemma slice_other : optionalStringSlicePayload (<[k := v]> p) key = optionalStringSlicePayload p key.
Proof. unfold optionalStringSlicePayload. by rewrite lookup_insert_ne. Qed.
Lemma selections_other : shareSelectionsPayload (<[k := v]> p) key = shareSelectionsPayload p key.
Proof. unfold shareSelectionsPayload. by rewrite lookup_insert_ne. Qed.
End Other.

(** ** Imports *)

Definition required_keys : list string := ["quark_account_id"; "quark_target_id"; "share_url"; "c115_account_id"].

(** What a direct submission of an import contains, and nothing else. *)
Record public_import (p : payload) (b : bool) (l : list ShareSelection) : Prop := {
  pi_required : ∀ key, key ∈ required_keys → is_ok (stringPayload p key true) = true;
  pi_prior : stringPayload p "prior_import_task_id" false = Ok "";
  pi_parent : stringPayload p "parent_task_id" false = Ok "";
  pi_ids : p !! "selected_source_ids" = None;
  pi_binding : ∀ key, key ∈ bindingKeys → stringPayload p key false = Ok "";
  pi_expected : optionalStringSlicePayload p "expected_episodes" = Ok [];
  pi_all : booleanPayload p "import_all" false = Ok b;
  pi_manifest : shareSelectionsPayload p "selected_source_manifest" = Ok l;
  pi_choice : if b then p !! "selected_source_manifest" = None
              else is_Some (p !! "selected_source_manifest") ∧ l ≠ []
}.

Lemma required_each p :
  (∀ key, key ∈ required_keys → is_ok (stringPayload p key true) = true) ↔
  res_each (λ key, _ ← stringPayload p key true; Ok tt) required_keys = Ok tt.
Proof.
  rewrite res_each_ok. split; intros Hk key Hin; specialize (Hk key Hin);
    by destruct (stringPayload p key true) as [|].
Qed.

Definition bound_fold (p : payload) : res bool :=
  res_fold (λ bound key, value ← stringPayload p key false; Ok (bound || negb (bool_decide (value = ""))))
    bindingKeys false.

Lemma bound_fold_false p :
  bound_fold p = Ok false ↔ ∀ key, key ∈ bindingKeys → stringPayload p key false = Ok "".
Proof.
  unfold bound_fold. generalize bindingKeys. intros keys. induction keys as [|key keys IH].
  { split; [|done]. intros _ k Hk. by apply not_elem_of_nil in Hk. }
  cbn [res_fold]. assert (∀ keys, res_fold (λ bound key, value ← stringPayload p key false;
    Ok (bound || negb (bool_decide (value = "")))) keys true ≠ Ok false) as Htrue.
  { clear. induction keys as [|k keys IH]; [done|]. cbn [res_fold]. by destruct (stringPayload p k false). }
  destruct (stringPayload p key false) as [v|e] eqn:E; unfold mbind, res_bind; simpl.
  - destruct (decide (v = "")) as [->|Hv].
    + rewrite bool_decide_true by done. simpl. rewrite IH. split.
      * intros Hk k [->|Hin]%elem_of_cons; auto.
      * intros Hk k Hin. apply Hk. by right.
    + rewrite bool_decide_false by done. simpl. split; [intros Hf; by apply Htrue in Hf|].
      intros Hk. specialize (Hk key ltac:(by left)). congruence.
  - split; [done|]. intros Hk. specialize (Hk key ltac:(by left)). congruence.
Qed.

Lemma validate_public p : validateQuarkImportPayload p false = Ok tt → ∃ b l, public_import p b l.
Proof.
  unfold validateQuarkImportPayload. fold required_keys. fold (bound_fold p).
  intros Hv. apply res_bind_ok in Hv as ([] & Hreq & Hv). pose proof (proj2 (required_each p) Hreq) as Hreq2.
  apply res_bind_ok in Hv as (prior & Hprior & Hv). apply res_bind_ok in Hv as (parent & Hparent & Hv).
  apply res_bind_ok in Hv as (b & Hb & Hv). apply res_bind_ok in Hv as (sel & Hsel & Hv).
  apply res_bind_ok in Hv as (l & Hl & Hv). apply res_bind_ok in Hv as ([] & H1%fail_if_ok & Hv).
  apply res_bind_ok in Hv as ([] & H2%fail_if_ok & Hv). apply res_bind_ok in Hv as (bound & Hbound & Hv).
  apply res_bind_ok in Hv as (expd & Hexp & Hv). simpl in Hv. destruct bound; simpl in Hv.
  { done. }
  apply res_bind_ok in Hv as ([] & H3%fail_if_ok & Hv). apply res_bind_ok in Hv as ([] & H4%fail_if_ok & Hv).
  apply fail_if_ok in Hv as H5.
  apply andb_false_iff in H4 as [H4|H4]; [|done]. bools. rewrite andb_true_r in *. bools. subst.
  exists b, l. assert (expd = []) as -> by (by destruct expd).
  split; try done.
  - by apply eq_None_not_Some.
  - by apply bound_fold_false.
  - destruct b; simpl in *; bools.
    + apply eq_None_not_Some. by intros ?.
    + split; [done|]. intros ->. rewrite bool_decide_true in H1 by done. by rewrite bool_decide_true in H1.
Qed.

Lemma same_order_self (l : list ShareSelection) : same_order l (sel_ID <$> l) = true.
Proof. induction l as [|s l IH]; simpl; [done|]. by rewrite bool_decide_true. Qed.

(** An import payload that a retry accepts: a public one with its derived IDs,
    and possibly the prior task of an earlier retry. *)
Record retryable (p : payload) (b : bool) (l : list ShareSelection) : Prop := {
  rt_required : ∀ key, key ∈ required_keys → is_ok (stringPayload p key true) = true;
  rt_parent : stringPayload p "parent_task_id" false = Ok "";
  rt_binding : ∀ key, key ∈ bindingKeys → stringPayload p key false = Ok "";
  rt_expected : optionalStringSlicePayload p "expected_episodes" = Ok [];
  rt_all : booleanPayload p "import_all" false = Ok b;
  rt_manifest : shareSelectionsPayload p "selected_source_manifest" = Ok l;
  rt_choice : if b then p !! "selected_source_manifest" = None ∧ p !! "selected_source_ids" = None
              else is_Some (p !! "selected_source_manifest") ∧ l ≠ [] ∧ is_Some (p !! "selected_source_ids");
  rt_ids : optionalStringSlicePayload p "selected_source_ids" = Ok (sel_ID <$> l)
}.

Lemma public_retryable p b l :
  public_import p b l → ∃ p', derived_payload "quark_to_115_import" p = Ok p' ∧ retryable p' b l ∧
    (l ≠ [] → p' !! "selected_source_ids" = Some (VStrings (sel_ID <$> l))).
Proof.
  intros []. unfold derived_payload. rewrite bool_decide_true, pi_manifest0 by done. simpl.
  destruct (selections_cleaned _ _ _ pi_manifest0) as [Hc _].
  destruct b.
  - assert (l = []) as ->.
    { unfold shareSelectionsPayload in pi_manifest0. rewrite pi_choice0 in pi_manifest0. congruence. }
    exists p. split; [done|]. split; [|done]. split; try done.
    unfold optionalStringSlicePayload. by rewrite pi_ids0.
  - destruct pi_choice0 as [Hm Hl]. rewrite bool_decide_true by (destruct l; [done|simpl; lia]).
    eexists. split; [done|]. split; [|by rewrite lookup_insert_eq].
    split; try done.
    + intros key Hk. rewrite string_other; [by apply pi_required0|]. intros <-. by vm_compute in Hk; set_solver.
    + by rewrite string_other.
    + intros key Hk. rewrite string_other; [by apply pi_binding0|]. intros <-. vm_compute in Hk. set_solver.
    + by rewrite slice_other.
    + by rewrite boolean_other.
    + by rewrite selections_other.
    + rewrite lookup_insert_ne by done. split; [done|]. split; [done|]. by rewrite lookup_insert_eq.
    + unfold optionalStringSlicePayload. rewrite lookup_insert_eq. by apply (add_distinct_fold _ []).
Qed.

Lemma retryable_roundtrip p b l : retryable p b l → retryable (payload_roundtrip p) b l.
Proof.
  intros []. split.
  - intros key Hk. rewrite string_roundtrip. auto.
  - by rewrite string_roundtrip.
  - intros key Hk. rewrite string_roundtrip. auto.
  - by rewrite slice_roundtrip.
  - by rewrite boolean_roundtrip.
  - by rewrite selections_roundtrip.
  - unfold payload_roundtrip. rewrite !lookup_fmap. destruct b; [by destruct rt_choice0 as [-> ->]|].
    destruct rt_choice0 as (Hm & Hl & Hs). split; [by apply fmap_is_Some|]. split; [done|by apply fmap_is_Some].
  - by rewrite slice_roundtrip.
Qed.

Lemma retryable_prior p b l v : retryable p b l → retryable (<["prior_import_task_id" := v]> p) b l.
Proof.
  intros []. split.
  - intros key Hk. rewrite string_other; [auto|]. intros <-. vm_compute in Hk. set_solver.
  - by rewrite string_other.
  - intros key Hk. rewrite string_other; [auto|]. intros <-. vm_compute in Hk. set_solver.
  - by rewrite slice_other.
  - by rewrite boolean_other.
  - by rewrite selections_other.
  - by rewrite !lookup_insert_ne.
  - by rewrite slice_other.
Qed.

Lemma retryable_valid p b l id :
  retryable p b l → stringPayload p "prior_import_task_id" false = Ok id → id ≠ "" →
  validateQuarkImportPayload p true = Ok tt.
Proof.
  intros [] Hprior Hid. unfold validateQuarkImportPayload. fold required_keys. fold (bound_fold p).
  rewrite (proj1 (required_each p) rt_required0). cbn [mbind res_bind].
  rewrite Hprior. cbn [mbind res_bind]. rewrite rt_parent0. cbn [mbind res_bind]. rewrite rt_all0.
  cbn [mbind res_bind]. rewrite rt_ids0. cbn [mbind res_bind]. rewrite rt_manifest0. cbn [mbind res_bind].
  rewrite (proj2 (bound_fold_false p) rt_binding0), rt_expected0.
  destruct b.
  - destruct rt_choice0 as [Hm Hs]. rewrite Hm, Hs. rewrite !(bool_decide_false (is_Some None)) by by intros [].
    rewrite (bool_decide_false (id = "")) by done. done.
  - destruct rt_choice0 as (Hm & Hl & Hs). rewrite !(bool_decide_true (is_Some _)) by done.
    rewrite (bool_decide_false (id = "")) by done.
    rewrite (bool_decide_false (length l = 0)) by (by destruct l). rewrite length_fmap.
    rewrite (bool_decide_false (length l = 0)) by (by destruct l). rewrite (bool_decide_true (length l = length l)) by done.
    simpl. by rewrite same_order_self.
Qed.

(** ** Submission *)

Lemma persist_effect `{Env} id ty p w :
  wp (persistTask id ty p "") w (λ r w', match r with
  | Ok (id', t) => id' = id ∧ AsyncTask.Payload t = p ∧ tasks (w_db w) !! id = None ∧
      ∃ t', tasks (w_db w') = <[id := t']> (tasks (w_db w)) ∧ AsyncTask.Type_ t' = ty ∧
        AsyncTask.Payload t' = payload_roundtrip p ∧ AsyncTask.Status t' = "pending" ∧
        AsyncTask.Attempts t' = 0%Z ∧ AsyncTask.MaxAttempts t' = 1%Z
  | Err _ => w_db w' = w_db w
  end).
Proof.
  unfold persistTask. apply wp_bind, wp_now. intros t n. simpl. apply wp_bind.
  eapply wp_mono; [apply create_effect|]. intros [t'|e] w'; simpl; [|done].
  intros (c & -> & Hn & Hw). apply wp_ret. rewrite Hw. simpl. split; [done|]. split; [done|]. split; [done|].
  eexists. split; [done|]. done.
Qed.

Lemma persist_no_fail `{Env} id ty p n d :
  (∀ k, env_fault k = None) → tasks d !! id = None →
  wp (persistTask id ty p "") (mkWorld n d) (λ r _, is_ok r = true).
Proof.
  intros Hf Hn. unfold persistTask, CreateAsyncTask, prepareAsyncTask, insertAsyncTask.
  wp_run; no_faults Hf; try done. all: by rewrite Hn in *.
Qed.

(** * Properties *)

(** C20: a claimed task always reaches a recorded end.  When the driver works, one round of
    [executeTask] on a pending task with attempts left claims it, runs the provider operation,
    any one that returns with its task still running, and then leaves the task completed,
    cancelled or failed as the outcome of that run says, with its errors and its result, and
    with full progress when completed; it changes no other task after the run. *)
Theorem execute_reaches_end `{Env} run id t n d :
  (∀ k, env_fault k = None) → queue_inv d → tasks d !! id = Some t → claimable t = true → tame id run →
  ∃ w w1 o w2 t', executeTask run false (mkService false ∅) id t (mkWorld n d) = (Ok tt, w) ∧
    begun id t (mkWorld n d) = (Ok tt, w1) ∧ run (id, t) w1 = (Ok o, w2) ∧
    tasks (w_db w) = <[id := t']> (tasks (w_db w2)) ∧ recorded o t' ∧ terminal (AsyncTask.Status t') ∧ queue_inv (w_db w).
Proof.
  intros Hf Q Ht Hc Hrun. destruct (executeTask run false (mkService false ∅) id t (mkWorld n d)) as [r w] eqn:E.
  destruct (wp_elim _ _ _ _ _ (execute_terminates run id t n d Hf Q Ht Hc Hrun) E) as (-> & Q' & w1 & o & w2 & t' & Hb & Hr & Ht' & Hrec).
  exists w, w1, o, w2, t'. do 5 (split; [done|]). split; [|done]. destruct Hrec as [-> _]. apply outcome_status_terminal.
Qed.

(** A directly submitted import that is accepted carries no internal binding
    of its own: its persisted source IDs are those of its manifest, in order,
    without duplicates, or it asked for everything; and what is stored can be
    retried. *)
Theorem enqueue_derives_ids `{Urls} `{Env} newID p n d id t w :
  enqueue newID "quark_to_115_import" p "" (mkWorld n d) = (Ok (id, t), w) →
  ∃ b l t', public_import p b l ∧ tasks (w_db w) = <[newID := t']> (tasks d) ∧
    AsyncTask.Status t' = "pending" ∧ retryable (AsyncTask.Payload t') b l ∧
    NoDup (sel_ID <$> l) ∧ (if b then l = [] else l ≠ [] ∧
      AsyncTask.Payload t' !! "selected_source_ids" = Some (VArray (VString <$> (sel_ID <$> l)))).
Proof.
  intros Hrun. revert Hrun. unfold enqueue.
  replace (trim_space "quark_to_115_import") with "quark_to_115_import" by (vm_compute; reflexivity).
  intros Hrun. assert (∃ b l, public_import p b l) as (b & l & Hp).
  { apply validate_public. destruct (validateTask "quark_to_115_import" p) as [[]|e] eqn:E; [exact E|done]. }
  destruct (public_retryable p b l Hp) as (p' & Hd & Hr & Hids).
  exists b, l. pose proof (selections_cleaned _ _ _ (pi_manifest _ _ _ Hp)) as [[Hnd _] _].
  unfold mbind at 1, m_bind, lift in Hrun. destruct (validateTask _ p) as [[]|e]; [|done].
  unfold mbind at 1, m_bind in Hrun. rewrite Hd in Hrun.
  destruct (wp_elim _ _ _ _ _ (persist_effect newID _ p' _) Hrun) as (_ & _ & _ & t' & Ht' & _ & Hpl & Hs & _).
  exists t'. split; [done|]. split; [done|]. split; [done|]. rewrite Hpl.
  split; [by apply retryable_roundtrip|]. split; [done|].
  pose proof (pi_choice _ _ _ Hp) as Hch. destruct b.
  - pose proof (pi_manifest _ _ _ Hp) as Hm. unfold shareSelectionsPayload in Hm. rewrite Hch in Hm. congruence.
  - destruct Hch as [_ Hl]. split; [done|]. unfold payload_roundtrip. by rewrite lookup_fmap, (Hids Hl).
Qed.

(** whatever was stored by an accepted import can always be retried: a failed
    or cancelled import task whose checkpoint is absent or has saved roots is
    accepted again, the new task names the prior one, keeps the selection, and can
    itself be retried. *)
Theorem retry_accepted `{Urls} `{Env} newID id n d t b l :
  (∀ k, env_fault k = None) → tasks d !! id = Some t → tasks d !! newID = None →
  AsyncTask.Type_ t = "quark_to_115_import" →
  AsyncTask.Status t = "failed" ∨ AsyncTask.Status t = "cancelled" →
  retryable (AsyncTask.Payload t) b l → trim_space id ≠ "" →
  (∀ i, imports d !! id = Some i → CrossDriveImport.SavedRootIDs i ≠ []) →
  ∃ w t' t'', Retry newID id (mkWorld n d) = (Ok (newID, t'), w) ∧
    tasks (w_db w) = <[newID := t'']> (tasks d) ∧ AsyncTask.Status t'' = "pending" ∧
    AsyncTask.Type_ t'' = "quark_to_115_import" ∧
    AsyncTask.Payload t'' !! "prior_import_task_id" = Some (VString id) ∧
    retryable (AsyncTask.Payload t'') b l.
Proof.
  intros Hf Ht Hnew Hty Hst Hr Hid Hroots.
  set (p := <["prior_import_task_id" := VString id]> (AsyncTask.Payload t)).
  assert (retryable p b l) as Hp by (by apply retryable_prior).
  assert (validateQuarkImportPayload p true = Ok tt) as Hv.
  { apply (retryable_valid p b l (trim_space id)); [done| |done].
    unfold stringPayload, p. by rewrite lookup_insert_eq. }
  assert (∀ n0, ∃ w t' t'', persistTask newID "quark_to_115_import" p "" (mkWorld n0 d) = (Ok (newID, t'), w) ∧
    tasks (w_db w) = <[newID := t'']> (tasks d) ∧ AsyncTask.Status t'' = "pending" ∧
    AsyncTask.Type_ t'' = "quark_to_115_import" ∧
    AsyncTask.Payload t'' !! "prior_import_task_id" = Some (VString id) ∧
    retryable (AsyncTask.Payload t'') b l) as Hpersist.
  { intros n0. destruct (persistTask newID "quark_to_115_import" p "" (mkWorld n0 d)) as [r w] eqn:E.
    pose proof (wp_elim _ _ _ _ _ (persist_no_fail newID "quark_to_115_import" p n0 d Hf Hnew) E) as Hok.
    destruct r as [[id' t']|e]; [|done].
    destruct (wp_elim _ _ _ _ _ (persist_effect newID _ p _) E) as (-> & _ & _ & t'' & Ht'' & Hty' & Hpl & Hs & _).
    exists w, t', t''. split; [done|]. split; [done|]. split; [done|]. split; [done|]. rewrite Hpl.
    split; [|by apply retryable_roundtrip]. unfold payload_roundtrip, p. by rewrite lookup_fmap, lookup_insert_eq. }
  assert (negb (bool_decide (AsyncTask.Status t = "failed")) && negb (bool_decide (AsyncTask.Status t = "cancelled")) = false) as Hguard
    by (by destruct Hst as [-> | ->]).
  unfold Retry, GetAsyncTask, GetCrossDriveImport, enqueueAutofillQuarkImport, attempt, lift, query, stmt, mbind, m_bind.
  rewrite !Hf. simpl. rewrite Ht. simpl. rewrite Hguard, (bool_decide_true (AsyncTask.Type_ t = _)) by done.
  rewrite !Hf. simpl. destruct (imports d !! id) as [i|] eqn:Ei; simpl.
  - rewrite (bool_decide_false (length _ = 0)) by (specialize (Hroots i eq_refl); by destruct (CrossDriveImport.SavedRootIDs i)).
    fold p. rewrite Hv. apply Hpersist.
  - fold p. rewrite Hv. apply Hpersist.
Qed.

(** the progress a provider operation reports is mapped into its stage: never
    below its start nor above its end, never above 99, and larger reports never
    map to smaller values. *)
Theorem mapped_progress_bounds start end_ p q :
  (start <= end_)%Q → (end_ <= 99)%Q → (p <= q)%Q →
  (start <= mapped_progress start end_ p)%Q ∧ (mapped_progress start end_ p <= mapped_progress start end_ q)%Q ∧
  (mapped_progress start end_ q <= end_)%Q ∧ (mapped_progress start end_ q <= 99)%Q.
Proof.
  intros H1 H2 Hpq. unfold mapped_progress. set (c := λ x, qmin 100 (qmax 0 x)).
  assert (∀ x, (0 <= c x)%Q ∧ (c x <= 100)%Q) as Hc.
  { intros x. split; [apply qmin_glb; [done|apply qmax_ge_l]|apply qmin_le_l]. }
  assert (c p <= c q)%Q as Hcc.
  { apply qmin_glb; [apply qmin_le_l|]. eapply Qle_trans; [apply qmin_le_r|].
    apply qmax_lub; [apply qmax_ge_l|]. eapply Qle_trans; [exact Hpq|apply qmax_ge_r]. }
  set (f := λ x, (start + (end_ - start) * x / 100)%Q).
  assert (∀ x y, (x <= y)%Q → (f x <= f y)%Q) as Hf.
  { intros x y Hxy. unfold f. apply Qplus_le_r. unfold Qdiv. apply Qmult_le_compat_r; [|done].
    rewrite !(Qmult_comm (end_ - start)). apply Qmult_le_compat_r; [done|lra]. }
  assert (f 0 == start)%Q as Hf0 by (unfold f; field).
  assert (f 100 == end_)%Q as Hf100 by (unfold f; field).
  fold (c p) (c q). fold (f (c p)) (f (c q)). destruct (Hc p) as [Hp0 _]. destruct (Hc q) as [_ Hq1].
  split; [|split; [|split]].
  - apply qmin_glb; [lra|]. rewrite <-Hf0 at 1. by apply Hf.
  - apply qmin_glb; [apply qmin_le_l|]. eapply Qle_trans; [apply qmin_le_r|]. by apply Hf.
  - eapply Qle_trans; [apply qmin_le_r|]. rewrite <-Hf100. by apply Hf.
  - apply qmin_le_l.
Qed.

(** media ingestion is queued once per source task: when the driver works, a
    second request for the same source returns the same task and changes
    nothing, whatever happened to the task in between. *)
Theorem media_ingest_idempotent `{Env} uuid5 source n d d' m :
  (∀ k, env_fault k = None) → trim_space source ≠ "" →
  ∃ t w, enqueueMediaIngest uuid5 source (mkWorld n d) = (Ok (uuid5 ("media-ingest:" +:+ trim_space source), t), w) ∧
    is_Some (tasks (w_db w) !! uuid5 ("media-ingest:" +:+ trim_space source)) ∧
    (rtc queue_any (w_db w) d' →
     ∃ t' w', enqueueMediaIngest uuid5 source (mkWorld m d') = (Ok (uuid5 ("media-ingest:" +:+ trim_space source), t'), w') ∧
       w_db w' = d' ∧ tasks d' !! uuid5 ("media-ingest:" +:+ trim_space source) = Some t').
Proof.
  intros Hf Hs. set (id := uuid5 ("media-ingest:" +:+ trim_space source)).
  assert (∀ n0 d0 t0, tasks d0 !! id = Some t0 → ∃ w, enqueueMediaIngest uuid5 source (mkWorld n0 d0) = (Ok (id, t0), w) ∧ w_db w = d0) as Hagain.
  { intros n0 d0 t0 Ht0. unfold enqueueMediaIngest. rewrite bool_decide_false by done.
    unfold GetAsyncTask, attempt, query, stmt, mbind, m_bind. rewrite Hf. simpl. fold id. rewrite Ht0. simpl.
    eexists. done. }
  assert (∃ t w, enqueueMediaIngest uuid5 source (mkWorld n d) = (Ok (id, t), w) ∧ is_Some (tasks (w_db w) !! id)) as (t & w & Hrun & t1 & Ht1).
  { destruct (tasks d !! id) as [t0|] eqn:Ht0.
    - destruct (Hagain n d t0 Ht0) as (w & Hw & Hd). exists t0, w. split; [done|]. rewrite Hd. eauto.
    - destruct (enqueueMediaIngest uuid5 source (mkWorld n d)) as [r w] eqn:E.
      assert (match r with Ok (i, _) => i = id ∧ is_Some (tasks (w_db w) !! id) | Err _ => False end) as Hpost.
      2: { destruct r as [[i t]|e]; [|done]. destruct Hpost as [-> ?]. eauto. }
      refine (wp_elim _ (mkWorld n d) (λ r w, match r with Ok (i, _) => i = id ∧ is_Some (tasks (w_db w) !! id) | Err _ => False end) r w _ E).
      clear E r w. unfold enqueueMediaIngest, GetAsyncTask. rewrite bool_decide_false by done. fold id.
      apply wp_bind, wp_attempt, wp_query.
      2: { intros a k Ha. simpl in Ha. by rewrite Ht0 in Ha. }
      intros e k [He|He]; [by destruct (no_fault_error _ Hf He)|]. simpl in He. rewrite Ht0 in He. injection He as <-.
      simpl. apply wp_bind, wp_now. intros t k2. apply wp_bind, wp_attempt. simpl.
      assert (wp (CreateAsyncTask id (AsyncTask.mk "media_ingest" "" {["source_task_id" := VString (trim_space source)]}
        "pending" 0 "" "" 0 1 t t)) (mkWorld k2 d) (λ r _, is_ok r = true)) as Hok.
      { unfold CreateAsyncTask, prepareAsyncTask, insertAsyncTask. wp_run; no_faults Hf; try done. all: by rewrite Ht0 in *. }
      eapply wp_mono; [apply wp_and; [exact Hok|apply create_effect]|].
      intros [t2|e] w' [Hr He]; [|done]. destruct He as (c & _ & _ & Hw). apply wp_ret. split; [done|].
      rewrite Hw. simpl. rewrite lookup_insert_eq. by eexists. }
  exists t, w. split; [done|]. split; [by exists t1|]. intros Hsteps.
  assert (∃ t', tasks d' !! id = Some t') as [t' Ht'].
  { clear Hrun. revert t1 Ht1. induction Hsteps as [|d1 d2 d3 (op & Hop & Hst) _ IH]; intros t1 Ht1; [eauto|].
    pose proof (step_moves op d1 d2 id Hop Hst) as Hm. rewrite Ht1 in Hm.
    destruct (task_kept _ _ _ Hm) as (t2 & Ht2 & _). by eapply IH. }
  destruct (Hagain m d' t' Ht') as (w' & Hw' & Hd'). exists t', w'. done.
Qed.

(** * Witnesses *)

Section Witnesses.
#[local] Existing Instance quiet.
#[local] Instance no_urls : Urls := {| url_parse := λ _, None; url_parse_request := λ _, None |}.

Definition idle_run : task_with_id → M Database outcome := λ _, mret (mkOutcome (Some (Ok "{}")) None false).

Lemma execute_reaches_end_witness :
  ∃ w t', executeTask idle_run false (mkService false ∅) "t1" (stored (prepared 1 sample_task)) (mkWorld 5 sample_created) = (Ok tt, w) ∧
    tasks (w_db w) !! "t1" = Some t' ∧ terminal (AsyncTask.Status t').
Proof.
  assert (∃ t, tasks sample_created !! "t1" = Some t ∧ claimable t = true ∧ t = stored (prepared 0 sample_task)) as (t & Et & Hc & Heq).
  { destruct (tasks sample_created !! "t1") as [t|] eqn:E; [|vm_compute in E; discriminate E].
    exists t. split; [reflexivity|]. vm_compute in E. injection E as <-. split; vm_compute; reflexivity. }
  destruct (execute_reaches_end idle_run "t1" t 5 sample_created quiet_ok (proj1 sample_inv) Et Hc) as (w & w1 & o & w2 & t' & H & _ & _ & Ht' & _ & Hterm & _).
  { intros task w Q Hr. apply wp_ret. split; [reflexivity|]. split; assumption. }
  exists w, t'. subst t. split; [exact H|]. split; [rewrite Ht'; apply lookup_insert_eq|assumption].
Defined.

Definition everything : payload :=
  <["import_all" := VBool true]> (<["quark_account_id" := VString "q1"]> (<["quark_target_id" := VString "0"]>
  (<["share_url" := VString "https://pan.quark.cn/s/abc"]> (<["c115_account_id" := VString "c1"]> ∅)))).

Lemma enqueue_derives_ids_witness :
  ∃ id t w b l, enqueue "n1" "quark_to_115_import" everything "" (mkWorld 0 empty_database) = (Ok (id, t), w) ∧
    public_import everything b l.
Proof.
  destruct (enqueue "n1" "quark_to_115_import" everything "" (mkWorld 0 empty_database)) as [[[id t]|e] w] eqn:E.
  - destruct (enqueue_derives_ids "n1" everything 0 empty_database id t w E) as (b & l & t' & Hp & _).
    exists id, t, w, b, l. split; [reflexivity|exact Hp].
  - apply (f_equal fst) in E. vm_compute in E. discriminate E.
Defined.

Definition failed_import : AsyncTask.t :=
  AsyncTask.mk "quark_to_115_import" "" everything "failed" 0 "" "error" 1 1 1 2.
Definition failed_db : Database := set_tasks (<["t1" := failed_import]> ∅) empty_database.

Lemma everything_retryable : retryable everything true [].
Proof.
  split; try (vm_compute; reflexivity).
  - intros key Hk. unfold required_keys in Hk.
    repeat (apply elem_of_cons in Hk as [-> | Hk]; [vm_compute; reflexivity|]). by apply not_elem_of_nil in Hk.
  - intros key Hk. unfold bindingKeys in Hk.
    repeat (apply elem_of_cons in Hk as [-> | Hk]; [vm_compute; reflexivity|]). by apply not_elem_of_nil in Hk.
  - split; vm_compute; reflexivity.
Qed.

Lemma retry_accepted_witness :
  ∃ w t', Retry "n1" "t1" (mkWorld 0 failed_db) = (Ok ("n1", t'), w).
Proof.
  destruct (retry_accepted "n1" "t1" 0 failed_db failed_import true [] quiet_ok) as (w & t' & t'' & H & _);
    [vm_compute; reflexivity|vm_compute; reflexivity|reflexivity|by left|exact everything_retryable|vm_compute; discriminate| |].
  - intros i Hi. vm_compute in Hi. discriminate Hi.
  - exists w, t'. exact H.
Defined.

Lemma mapped_progress_bounds_witness : (10 <= mapped_progress 10 75 50)%Q.
Proof. apply (mapped_progress_bounds 10 75 50 60); vm_compute; discriminate. Defined.

Lemma media_ingest_idempotent_witness :
  ∃ t w, enqueueMediaIngest (λ x, x) "src" (mkWorld 0 empty_database) = (Ok ("media-ingest:src", t), w).
Proof.
  destruct (media_ingest_idempotent (λ x, x) "src" 0 empty_database empty_database 0 quiet_ok) as (t & w & H & _);
    [vm_compute; discriminate|]. exists t, w. exact H.
Defined.
End Witnesses.
