(* ===== verification/FileSys.v ===== *)
(** The file system calls of [internal/transfer], over the monad of [Sql.v].

    A file system is a [gmap] from cleaned absolute paths to nodes.  Every call
    of [os] advances a tick and may fail there, as a driver call does; a failing
    call has no effect.  [ctx.Err()] is an oracle of the tick.  Symbolic links
    are nodes of their own ([Lstat] sees them, and the code only ever accepts
    plain files and directories); links in the middle of a path are not
    followed. *)
From Stdlib Require Import Ascii.
From S2P Require Import Prelude GoStrings GoPath Sql.

Inductive node :=
| NFile (data : list ascii)
| NDir (writable : bool)
| NLink
| NOther.

#[global] Instance node_eq_dec : EqDecision node.
Proof. solve_decision. Defined.

Abbreviation Files := (gmap string node).

(** The host: the working directory, and [Statfs] ([Bavail] blocks of [Bsize]). *)
Class Host := {
  cwd : res string;
  statfs : string → res (Z * Z)
}.

(** When a context is done: [ctx.Err() != nil] at a tick. *)
Class Ctx := { ctx_done : nat → bool }.

(** [int64] wrap-around. *)
Definition wrap64 (z : Z) : Z := (z + 2 ^ 63) mod 2 ^ 64 - 2 ^ 63.

Definition is_not_exist (e : error) : bool :=
  match e with ErrNotExist _ => true | _ => false end.

Section Calls.
Context `{Env}.
Abbreviation Io := (M Files).

(** [os.Lstat], and [os.Stat] of a path that is no link. *)
Definition lstat (path : string) : Io node :=
  query (λ fs, match fs !! path with Some n => Ok n | None => Err (ErrNotExist path) end).

Definition dir_empty (fs : Files) (path : string) : bool :=
  forallb (λ kv, negb (has_prefix kv.1 (path +:+ "/"))) (map_to_list fs).

(** [os.Remove]: a file, a link or an empty directory. *)
Definition remove (path : string) : Io unit :=
  stmt (λ fs, match fs !! path with
              | Some (NDir _) => if dir_empty fs path then Ok (tt, delete path fs)
                                 else Err (ErrText (path +:+ ": directory not empty"))
              | Some _ => Ok (tt, delete path fs)
              | None => Err (ErrNotExist path)
              end).

(** [if err := os.Remove(path); err != nil && !os.IsNotExist(err) { return err }]. *)
Definition remove_if_exists (path : string) : Io unit :=
  r ← attempt (remove path);
  match r with Err e => if is_not_exist e then mret tt else throw e | Ok _ => mret tt end.

(** [_ = os.Remove(path)]. *)
Definition try_remove (path : string) : Io unit := _ ← attempt (remove path); mret tt.

(** [os.Open] and reading to the end. *)
Definition read_file (path : string) : Io (list ascii) :=
  query (λ fs, match fs !! path with
               | Some (NFile data) => Ok data
               | Some _ => Err (ErrText (path +:+ ": is not a regular file"))
               | None => Err (ErrNotExist path)
               end).

(** [os.OpenFile(path, O_CREATE|O_EXCL|O_WRONLY, ..)]. *)
Definition create_exclusive (path : string) : Io unit :=
  stmt (λ fs, match fs !! path with
              | Some _ => Err (ErrText (path +:+ ": file exists"))
              | None => Ok (tt, <[path := NFile []]> fs)
              end).

(** A [Write] that appends to the file opened at [path]. *)
Definition append (path : string) (bytes : list ascii) : Io unit :=
  exec (λ fs, (tt, match fs !! path with
                   | Some (NFile data) => <[path := NFile (data ++ bytes)]> fs
                   | _ => fs
                   end)).

(** [os.Rename]. *)
Definition rename (old new : string) : Io unit :=
  stmt (λ fs, match fs !! old with
              | Some n => Ok (tt, <[new := n]> (delete old fs))
              | None => Err (ErrNotExist old)
              end).

(** [os.MkdirAll]: the directories the model needs are there; it may only fail. *)
Definition mkdir_all (path : string) : Io unit := query (λ _, Ok tt).

(** [file.Sync], [file.Close] and opening a directory to sync it. *)
Definition sync : Io unit := query (λ _, Ok tt).
Definition close : Io unit := query (λ _, Ok tt).

(** [if err := ctx.Err(); err != nil { return err }]. *)
Definition ctx_err `{Ctx} : Io unit := λ w,
  (if ctx_done (w_tick w) then Err ErrCanceled else Ok tt, tick w (w_db w)).

End Calls.

(** [filepath.Abs]. *)
Definition abs_path `{Host} (p : string) : res string :=
  if is_abs p then Ok (clean p) else d ← cwd; Ok (join_path [d; p]).

(** * Lemmas *)

Section CallLemmas.
Context `{Env}.
Implicit Types w : World Files.

(** Whatever a call does, paths other than [p] keep their node. *)
Definition only_touches (p : string) (fs fs' : Files) : Prop := ∀ q, q ≠ p → fs' !! q = fs !! q.

Lemma only_touches_refl p fs : only_touches p fs fs.
Proof. done. Qed.

Lemma only_touches_trans p fs1 fs2 fs3 :
  only_touches p fs1 fs2 → only_touches p fs2 fs3 → only_touches p fs1 fs3.
Proof. intros H1 H2 q Hq. by rewrite H2, H1. Qed.

Lemma only_touches_insert p n fs : only_touches p fs (<[p := n]> fs).
Proof. intros q Hq. by rewrite lookup_insert_ne. Qed.

Lemma only_touches_delete p fs : only_touches p fs (delete p fs).
Proof. intros q Hq. by rewrite lookup_delete_ne. Qed.

Lemma wp_lstat path w (Q : res node → World Files → Prop) :
  (∀ e n, fault_error e ∨ e = ErrNotExist path ∧ w_db w !! path = None → Q (Err e) (mkWorld n (w_db w))) →
  (∀ x n, w_db w !! path = Some x → Q (Ok x) (mkWorld n (w_db w))) →
  wp (lstat path) w Q.
Proof.
  intros He Ho. apply wp_query.
  - intros e n [?|Hs]; [by apply He; left|]. destruct (w_db w !! path) eqn:E; [done|]. injection Hs as <-. by apply He; right.
  - intros a n Hs. destruct (w_db w !! path) eqn:E; [|done]. injection Hs as <-. by apply Ho.
Qed.

Lemma wp_remove path w (Q : res unit → World Files → Prop) :
  (∀ e n, fault_error e ∨ (e = ErrNotExist path ∧ w_db w !! path = None)
          ∨ is_not_exist e = false ∧ (∃ b, w_db w !! path = Some (NDir b)) → Q (Err e) (mkWorld n (w_db w))) →
  (∀ n, is_Some (w_db w !! path) → Q (Ok tt) (mkWorld n (delete path (w_db w)))) →
  wp (remove path) w Q.
Proof.
  intros He Ho. apply wp_stmt.
  - intros e n [?|Hs]; [by apply He; left|].
    destruct (w_db w !! path) as [[]|] eqn:E; try done; apply He; right; [right|left].
    + destruct (dir_empty _ _); [done|]. injection Hs as <-. eauto.
    + injection Hs as <-; eauto.
  - intros [] d n Hs. destruct (w_db w !! path) as [[| | |]|] eqn:E; try done;
      repeat case_match; try done; injection Hs as <-; apply Ho; eauto.
Qed.

Lemma wp_ctx_err `{Ctx} w (Q : res unit → World Files → Prop) :
  (∀ n, Q (Err ErrCanceled) (mkWorld n (w_db w))) → (∀ n, Q (Ok tt) (mkWorld n (w_db w))) → wp ctx_err w Q.
Proof. intros He Ho. unfold wp, ctx_err. destruct (ctx_done (w_tick w)); [apply He|apply Ho]. Qed.

End CallLemmas.

Create HintDb files.
#[export] Hint Resolve only_touches_refl only_touches_insert only_touches_delete : files.

Section CallSpecs.
Context `{Env}.
Implicit Types w : World Files.

Lemma try_remove_spec p w :
  wp (try_remove p) w (λ r w', r = Ok tt ∧ only_touches p (w_db w) (w_db w')).
Proof.
  unfold try_remove. apply wp_bind, wp_attempt, wp_remove; intros; (split; [done|]); simpl; auto with files.
Qed.

Lemma remove_if_exists_spec p w :
  wp (remove_if_exists p) w (λ r w', only_touches p (w_db w) (w_db w')).
Proof.
  unfold remove_if_exists. apply wp_bind, wp_attempt, wp_remove; intros; simpl; wp_run; auto with files.
Qed.

(** A write to [tmp] either is cleaned up, or [tmp] holds exactly the bytes. *)
Lemma create_spec p w :
  wp (create_exclusive p) w (λ r w', only_touches p (w_db w) (w_db w')
    ∧ match r with Ok _ => w_db w !! p = None ∧ w_db w' !! p = Some (NFile []) | Err _ => w_db w' = w_db w end).
Proof.
  unfold create_exclusive. wp_run; [by auto with files|].
  destruct (w_db w !! p); [done|]. simplify_eq. split; [auto with files|]. split; [done|]. by rewrite lookup_insert_eq.
Qed.

Lemma append_spec p bytes old w :
  w_db w !! p = Some (NFile old) →
  wp (append p bytes) w (λ r w', only_touches p (w_db w) (w_db w')
    ∧ match r with Ok _ => w_db w' !! p = Some (NFile (old ++ bytes)) | Err _ => w_db w' = w_db w end).
Proof.
  intros Hp. unfold append. wp_run; [by auto with files|]. rewrite Hp.
  split; [auto with files|]. by rewrite lookup_insert_eq.
Qed.

Lemma noop_spec {A} (a : A) w : wp (query (λ _, Ok a)) w (λ r w', w_db w' = w_db w).
Proof. by wp_run. Qed.

End CallSpecs.
