(* ===== verification/Checkpoint.v ===== *)
(** Download checkpoints: the interface [transfer.Checkpoint] and its laws, and
    the file implementation ([src/internal/transfer/checkpoint.go]).

    [encoding/json] on [checkpointState] is the class [Codec]; decoding gives back what was
    encoded when JSON can say it ([json_exact]): it replaces bytes that are no UTF-8. *)
From Stdlib Require Import Ascii.
From S2P Require Import Prelude GoStrings GoPath Sql Protocol FileSys.

(** ** The interface *)

Abbreviation Segments := (gmap Z Z).

(** [Checkpoint] of [download.go], on an implementation whose state is [C]. *)
Class Checkpoint (C : Type) := {
  ck_Load : C → res Segments * C;
  ck_Save : Z → Z → C → res unit * C
}.

(** What a client may rely on: [ck_view] is the map the checkpoint stands for.
    A failing [Save] may or may not have taken effect. *)
Class CheckpointLaws (C : Type) `{Checkpoint C} := {
  ck_view : C → Segments;
  ck_load_ok c m c' : ck_Load c = (Ok m, c') → m = ck_view c;
  ck_load_view c r c' : ck_Load c = (r, c') → ck_view c' = ck_view c;
  ck_save_ok i n c c' : ck_Save i n c = (Ok tt, c') → ck_view c' = <[i := n]> (ck_view c);
  ck_save_err i n c e c' :
    ck_Save i n c = (Err e, c') → ck_view c' = ck_view c ∨ ck_view c' = <[i := n]> (ck_view c)
}.

(** ** The file checkpoint *)

Record checkpointState := mkState {
  st_Version : Z; st_SourceKey : string; st_SourceRevision : string;
  st_Size : Z; st_SegmentSize : Z; st_Segments : option Segments
}.

#[global] Instance checkpoint_state_eq_dec : EqDecision checkpointState.
Proof. solve_decision. Defined.

Record FileCheckpoint := mkCheckpoint {
  fc_path : string; fc_sourceKey : string; fc_sourceRevision : string;
  fc_size : Z; fc_segmentSize : Z; fc_loaded : bool; fc_state : checkpointState
}.

Definition empty_state : checkpointState := mkState 0 "" "" 0 0 None.

Definition NewFileCheckpoint (path sourceKey sourceRevision : string) (size segmentSize : Z) : FileCheckpoint :=
  mkCheckpoint path sourceKey sourceRevision size segmentSize false empty_state.

Definition set_checkpoint (loaded : bool) (s : checkpointState) (c : FileCheckpoint) : FileCheckpoint :=
  mkCheckpoint (fc_path c) (fc_sourceKey c) (fc_sourceRevision c) (fc_size c) (fc_segmentSize c) loaded s.

Class Codec := {
  encode_state : checkpointState → list ascii;
  decode_state : list ascii → res checkpointState
}.

(** The decoder reads at most this many bytes ([io.LimitReader(file, 1<<20)]). *)
Definition checkpoint_limit : Z := 2 ^ 20.
Definition limited (data : list ascii) : list ascii :=
  if Z.leb (Z.of_nat (length data)) checkpoint_limit then data else take (Z.to_nat checkpoint_limit) data.

Section FileCheckpoints.
Context `{Codec} `{Env}.
Abbreviation Io := (M Files).

Definition fresh_state (c : FileCheckpoint) : checkpointState :=
  mkState ProtocolVersion (fc_sourceKey c) (fc_sourceRevision c) (fc_size c) (fc_segmentSize c) (Some ∅).

(** The stored state is about this very download. *)
Definition same_identity (c : FileCheckpoint) (s : checkpointState) : bool :=
  Z.eqb (st_Version s) ProtocolVersion && bool_decide (st_SourceKey s = fc_sourceKey c)
  && bool_decide (st_SourceRevision s = fc_sourceRevision c) && Z.eqb (st_Size s) (fc_size c)
  && Z.eqb (st_SegmentSize s) (fc_segmentSize c) && bool_decide (is_Some (st_Segments s)).

(** [loadLocked]: the checkpoint afterwards, and the error. *)
Definition loadLocked (c : FileCheckpoint) : Io (FileCheckpoint * res unit) :=
  if fc_loaded c then mret (c, Ok tt) else
  let c := set_checkpoint false (fresh_state c) c in
  file ← attempt (read_file (fc_path c));
  match file with
  | Err e => if is_not_exist e then mret (set_checkpoint true (fresh_state c) c, Ok tt) else mret (c, Err e)
  | Ok data =>
      match decode_state (limited data) with
      | Err e => mret (c, Err (ErrWrap "decode transfer checkpoint: " e))
      | Ok stored =>
          if negb (same_identity c stored) then mret (c, Err (ErrText "transfer checkpoint identity is ambiguous"))
          else mret (set_checkpoint true stored c, Ok tt)
      end
  end.

Definition persistLocked (c : FileCheckpoint) : Io unit :=
  _ ← mkdir_all (dir (fc_path c));
  let temporary := fc_path c +:+ ".tmp" in
  _ ← remove_if_exists temporary;
  _ ← create_exclusive temporary;
  encodeErr ← attempt (append temporary (encode_state (fc_state c)));
  syncErr ← attempt sync;
  closeErr ← attempt close;
  let giving_up (e : error) : Io unit := _ ← try_remove temporary; throw e in
  match encodeErr, syncErr, closeErr with
  | Err e, _, _ => giving_up e
  | Ok _, Err e, _ => giving_up e
  | Ok _, Ok _, Err e => giving_up e
  | Ok _, Ok _, Ok _ =>
      renamed ← attempt (rename temporary (fc_path c));
      match renamed with
      | Err e => giving_up e
      | Ok _ => _ ← sync; sync
      end
  end.

Definition segments_of (s : checkpointState) : Segments := default ∅ (st_Segments s).

(** [c.state.Segments[index] = size]: the map is not [nil] once loaded. *)
Definition put_segment (index size : Z) (s : checkpointState) : checkpointState :=
  mkState (st_Version s) (st_SourceKey s) (st_SourceRevision s) (st_Size s) (st_SegmentSize s)
    (Some (<[index := size]> (segments_of s))).

Definition Load (c : FileCheckpoint) : Io (FileCheckpoint * res Segments) :=
  '(c, r) ← loadLocked c;
  mret (c, match r with Ok _ => Ok (segments_of (fc_state c)) | Err e => Err e end).

Definition Save (index size : Z) (c : FileCheckpoint) : Io (FileCheckpoint * res unit) :=
  '(c, r) ← loadLocked c;
  match r with
  | Err e => mret (c, Err e)
  | Ok _ =>
      let c := set_checkpoint true (put_segment index size (fc_state c)) c in
      p ← attempt (persistLocked c);
      mret (c, p)
  end.

Definition Remove (c : FileCheckpoint) : Io (FileCheckpoint * res unit) :=
  r ← attempt (remove_if_exists (fc_path c));
  match r with
  | Err e => mret (c, Err e)
  | Ok _ => mret (set_checkpoint false empty_state c, Ok tt)
  end.

End FileCheckpoints.

(** * Lemmas *)

Lemma app_string_neq p s : s ≠ "" → p +:+ s ≠ p.
Proof.
  intros Hs He. apply (f_equal String.length) in He. revert He.
  replace (String.length (p +:+ s)) with (String.length p + String.length s).
  - destruct s; [done|]. simpl. lia.
  - induction p; simpl; [done|]. by rewrite IHp.
Qed.

Section FileCheckpointLemmas.
Context `{Codec} `{Env}.
Implicit Types w : World Files.

(** What a call may have done to a file system: nothing outside [p] and [p.tmp]. *)
Definition keeps_others (p : string) (fs fs' : Files) : Prop :=
  ∀ q, q ≠ p → q ≠ p +:+ ".tmp" → fs' !! q = fs !! q.

(** [persistLocked] replaces the file in one step or leaves it alone. *)
Lemma persist_spec c w :
  wp (persistLocked c) w (λ r w',
    keeps_others (fc_path c) (w_db w) (w_db w') ∧
    let written := w_db w' !! fc_path c = Some (NFile (encode_state (fc_state c))) in
    match r with Ok _ => written | Err _ => w_db w' !! fc_path c = w_db w !! fc_path c ∨ written end).
Proof.
  assert (fc_path c +:+ ".tmp" ≠ fc_path c) as Hne by (by apply app_string_neq).
  unfold keeps_others, persistLocked, mkdir_all, sync, close.
  remember (fc_path c +:+ ".tmp") as tmp eqn:Etmp. clear Etmp.
  assert (∀ d, only_touches tmp (w_db w) d → (∀ q, q ≠ fc_path c → q ≠ tmp → d !! q = w_db w !! q)
    ∧ (d !! fc_path c = w_db w !! fc_path c ∨ d !! fc_path c = Some (NFile (encode_state (fc_state c))))) as Hsafe.
  { intros d Hd. split; [by intros q _ Hq; apply Hd|]. left. by apply Hd. }
  assert (∀ e w1, only_touches tmp (w_db w) (w_db w1) →
    wp (_ ← try_remove tmp; throw e) w1 (λ (r : res unit) w', only_touches tmp (w_db w) (w_db w') ∧ is_ok r = false)) as Hgive.
  { intros e w1 H1. apply wp_bind. eapply wp_mono; [apply try_remove_spec|]. intros r w2 [-> H2]. simpl.
    split; [|done]. by eapply only_touches_trans. }
  assert (∀ e w1, only_touches tmp (w_db w) (w_db w1) →
    wp (_ ← try_remove tmp; throw e) w1 (λ (r : res unit) w', (∀ q, q ≠ fc_path c → q ≠ tmp → w_db w' !! q = w_db w !! q) ∧
      let written := w_db w' !! fc_path c = Some (NFile (encode_state (fc_state c))) in
      match r with Ok _ => written | Err _ => w_db w' !! fc_path c = w_db w !! fc_path c ∨ written end)) as Hgive'.
  { intros e w1 H1. eapply wp_mono; [by apply Hgive|]. intros [] w2 [H2 Hr]; [done|]. by apply Hsafe. }
  apply wp_bind. eapply wp_mono; [apply noop_spec|]. intros [[]|e] w1 H1; [|apply Hsafe; by rewrite H1].
  apply wp_bind. eapply wp_mono; [apply remove_if_exists_spec|]. rewrite H1. intros [[]|e] w2 H2; [|by apply Hsafe].
  apply wp_bind. eapply wp_mono; [apply create_spec|]. intros r w3 [H3 Hc].
  assert (only_touches tmp (w_db w) (w_db w3)) as H3' by (by eapply only_touches_trans).
  destruct r as [[]|e]; [|by apply Hsafe]. destruct Hc as [_ Hc].
  apply wp_bind, wp_attempt. eapply wp_mono; [by apply (append_spec _ _ [])|]. intros enc w4 [H4 Hw].
  assert (only_touches tmp (w_db w) (w_db w4)) as H4' by (by eapply only_touches_trans).
  apply wp_bind, wp_attempt. eapply wp_mono; [apply noop_spec|]. intros sy w5 H5.
  apply wp_bind, wp_attempt. eapply wp_mono; [apply noop_spec|]. intros cl w6 H6.
  assert (only_touches tmp (w_db w) (w_db w6)) as H6' by (by rewrite H6, H5).
  destruct enc as [[]|e]; [|by apply Hgive']. destruct sy as [?|e]; [|by apply Hgive'].
  destruct cl as [?|e]; [|by apply Hgive'].
  apply wp_bind, wp_attempt. unfold rename. apply wp_stmt; [intros e n He; by apply Hgive'|].
  intros [] d n Hd. rewrite H6, H5, Hw in Hd. injection Hd as <-.
  assert ((∀ q, q ≠ fc_path c → q ≠ tmp → <[fc_path c := NFile ([] ++ encode_state (fc_state c))]> (delete tmp (w_db w4)) !! q = w_db w !! q)) as Hothers.
  { intros q Hq1 Hq2. rewrite lookup_insert_ne, lookup_delete_ne by done. by apply H4'. }
  apply wp_bind. eapply wp_mono; [apply noop_spec|]. simpl. intros r1 w7 H7.
  destruct r1; simpl; [|rewrite H7, lookup_insert_eq; eauto].
  eapply wp_mono; [apply noop_spec|]. intros r2 w8 H8. rewrite H8, H7, lookup_insert_eq. destruct r2; eauto.
Qed.

(** What the file at the checkpoint's path stands for. *)
Definition disk_segments (fs : Files) (c : FileCheckpoint) : Segments :=
  match fs !! fc_path c with
  | Some (NFile data) =>
      match decode_state (limited data) with
      | Ok s => if same_identity c s then segments_of s else ∅
      | Err _ => ∅
      end
  | _ => ∅
  end.

Definition file_view (wc : World Files * FileCheckpoint) : Segments :=
  if fc_loaded wc.2 then segments_of (fc_state wc.2) else disk_segments (w_db wc.1) wc.2.

Lemma load_locked_spec c w :
  wp (loadLocked c) w (λ r w', w_db w' = w_db w ∧ ∃ c' u, r = Ok (c', u) ∧ fc_path c' = fc_path c ∧
    match u with
    | Ok _ => fc_loaded c' = true ∧ segments_of (fc_state c') = file_view (w, c)
    | Err _ => file_view (w', c') = file_view (w, c)
    end).
Proof.
  unfold loadLocked. destruct (fc_loaded c) eqn:Hl.
  { apply wp_ret. split; [done|]. exists c, (Ok tt). unfold file_view. simpl. by rewrite Hl. }
  apply wp_bind, wp_attempt. unfold read_file, file_view. simpl. rewrite Hl. apply wp_query; simpl.
  - intros e n He. destruct (is_not_exist e) eqn:Hne; simpl; (split; [done|]).
    + eexists _, _. split; [done|]. simpl. split; [done|]. split; [done|]. unfold disk_segments, segments_of. simpl.
      destruct He as [(m & msg & _ & ->)|He]; [done|].
      destruct (w_db w !! fc_path c) as [[]|]; try done; injection He as <-; done.
    + eexists _, _. split; [done|]. done.
  - intros data n Hd. unfold disk_segments. destruct (w_db w !! fc_path c) as [[]|] eqn:Hf; try done. injection Hd as ->.
    change (same_identity (set_checkpoint false (fresh_state c) c)) with (same_identity c).
    destruct (decode_state _) as [s|e] eqn:Hdec; simpl.
    + destruct (same_identity c s) eqn:Hs; simpl; (split; [done|]); eexists _, _; (split; [done|]); simpl; [done|].
      split; [done|]. change (same_identity (set_checkpoint false (fresh_state c) c)) with (same_identity c).
      by rewrite Hf, Hdec, Hs.
    + split; [done|]. eexists _, _. split; [done|]. simpl. split; [done|]. by rewrite Hf, Hdec.
Qed.

Lemma load_spec c w :
  wp (Load c) w (λ r w', w_db w' = w_db w ∧ ∃ c' u, r = Ok (c', u) ∧
    file_view (w', c') = file_view (w, c) ∧ match u with Ok m => m = file_view (w, c) | Err _ => True end).
Proof.
  unfold Load. apply wp_bind. eapply wp_mono; [apply load_locked_spec|].
  intros r w1 (H1 & c1 & u & -> & Hp & Hu). apply wp_ret. split; [done|]. eexists _, _. split; [done|].
  destruct u; [|done]. destruct Hu as [Hl Hv]. split; [|done]. unfold file_view at 1. simpl. by rewrite Hl.
Qed.

(** [Save]: in memory the segment is there whenever the checkpoint was loaded; on
    disk the old file or the complete new one. *)
Lemma save_spec i n c w :
  wp (Save i n c) w (λ r w', ∃ c' u, r = Ok (c', u) ∧ fc_path c' = fc_path c
    ∧ keeps_others (fc_path c) (w_db w) (w_db w')
    ∧ (w_db w' !! fc_path c = w_db w !! fc_path c
       ∨ w_db w' !! fc_path c = Some (NFile (encode_state (fc_state c'))) ∧ fc_loaded c' = true)
    ∧ match u with
      | Ok _ => w_db w' !! fc_path c = Some (NFile (encode_state (fc_state c'))) ∧ fc_loaded c' = true
                ∧ file_view (w', c') = <[i := n]> (file_view (w, c))
      | Err _ => file_view (w', c') = file_view (w, c) ∨ file_view (w', c') = <[i := n]> (file_view (w, c))
      end).
Proof.
  unfold Save. apply wp_bind. eapply wp_mono; [apply load_locked_spec|].
  intros r w1 (H1 & c1 & u & -> & Hp & Hu). destruct u as [u|e]; simpl.
  - destruct Hu as [Hl Hv]. apply wp_bind, wp_attempt. eapply wp_mono; [apply persist_spec|].
    simpl. rewrite H1, Hp. intros r2 w2 [Hk Hr]. simpl. eexists _, _. split; [done|]. simpl. split; [done|].
    split; [done|]. assert (file_view (w2, set_checkpoint true (put_segment i n (fc_state c1)) c1)
      = <[i := n]> (file_view (w, c))) as -> by (by rewrite <-Hv).
    destruct r2; naive_solver.
  - eexists _, _. split; [done|]. split; [done|]. rewrite H1. split; [done|]. split; [by left|]. by left.
Qed.

End FileCheckpointLemmas.

(** ** The file checkpoint implements the interface *)

Section Implementation.
Context `{Codec} `{Env}.

(** A value the wrapped call never lacks: its errors are in the pair. *)
Definition run_checkpoint {A} (m : M Files (FileCheckpoint * res A)) (wc : World Files * FileCheckpoint)
    : res A * (World Files * FileCheckpoint) :=
  match m wc.1 with
  | (Ok (c', r), w') => (r, (w', c'))
  | (Err e, w') => (Err e, (w', wc.2))
  end.

#[export] Instance file_checkpoint : Checkpoint (World Files * FileCheckpoint) := {
  ck_Load wc := run_checkpoint (Load wc.2) wc;
  ck_Save i n wc := run_checkpoint (Save i n wc.2) wc
}.

#[local] Obligation Tactic := idtac.
#[export] Program Instance file_checkpoint_laws : CheckpointLaws (World Files * FileCheckpoint) := {
  ck_view := file_view
}.
Next Obligation.
  intros [w c] m wc'. unfold ck_Load. simpl. unfold run_checkpoint. simpl. intros Hr.
  pose proof (load_spec c w) as Hs. unfold wp in Hs. destruct (Load c w) as [r w'].
  destruct Hs as (_ & c' & u & -> & Hu). destruct u; naive_solver.
Qed.
Next Obligation.
  intros [w c] r wc'. unfold ck_Load. simpl. unfold run_checkpoint. simpl. intros Hr.
  pose proof (load_spec c w) as Hs. unfold wp in Hs. destruct (Load c w) as [r' w'].
  destruct Hs as (_ & c' & u & -> & Hu). destruct u; naive_solver.
Qed.
Next Obligation.
  intros i n [w c] wc'. unfold ck_Save. simpl. unfold run_checkpoint. simpl. intros Hr.
  pose proof (save_spec i n c w) as Hs. unfold wp in Hs. destruct (Save i n c w) as [r w'].
  destruct Hs as (c' & u & -> & _ & _ & _ & Hu). destruct u; naive_solver.
Qed.
Next Obligation.
  intros i n [w c] e wc'. unfold ck_Save. simpl. unfold run_checkpoint. simpl. intros Hr.
  pose proof (save_spec i n c w) as Hs. unfold wp in Hs. destruct (Save i n c w) as [r w'].
  destruct Hs as (c' & u & -> & _ & _ & _ & Hu). destruct u; naive_solver.
Qed.

End Implementation.

(** ** Durability *)

Section Durability.
Context `{Codec} `{Env}.
Implicit Types w : World Files.

(** A loaded checkpoint holds a state of its own download. *)
Definition checkpoint_wf (c : FileCheckpoint) : Prop := fc_loaded c = true → same_identity c (fc_state c) = true.

Definition identity (c : FileCheckpoint) : string * string * Z * Z :=
  (fc_sourceKey c, fc_sourceRevision c, fc_size c, fc_segmentSize c).

Lemma same_identity_spec c s :
  same_identity c s = true ↔
  st_Version s = ProtocolVersion ∧ is_Some (st_Segments s)
  ∧ (st_SourceKey s, st_SourceRevision s, st_Size s, st_SegmentSize s) = identity c.
Proof.
  unfold same_identity, identity. rewrite !andb_true_iff, !bool_decide_eq_true, !Z.eqb_eq. split.
  - intros (((((Hv & H1) & H2) & H3) & H4) & H5). by rewrite H1, H2, H3, H4.
  - intros (Hv & Hs & [= H1 H2 H3 H4]). done.
Qed.

Lemma same_identity_put c i n s : same_identity c s = true → same_identity c (put_segment i n s) = true.
Proof. rewrite !same_identity_spec. naive_solver. Qed.

Lemma fresh_identity c : same_identity c (fresh_state c) = true.
Proof. apply same_identity_spec. done. Qed.

Lemma load_locked_identity c w :
  checkpoint_wf c →
  wp (loadLocked c) w (λ r _, ∃ c' u, r = Ok (c', u) ∧ identity c' = identity c ∧
    (is_ok u = true → same_identity c (fc_state c') = true)).
Proof.
  intros Hwf. unfold loadLocked. destruct (fc_loaded c) eqn:Hl.
  { apply wp_ret. exists c, (Ok tt). auto. }
  apply wp_bind, wp_attempt. unfold read_file. apply wp_query; simpl; intros.
  - wp_run; eexists _, _; (split; [reflexivity|]); (split; [reflexivity|]); [|done]. intros _. apply fresh_identity.
  - wp_run; eexists _, _; (split; [reflexivity|]); (split; [reflexivity|]); try done. intros _. by bools.
Qed.

Lemma save_identity i n c w :
  checkpoint_wf c →
  wp (Save i n c) w (λ r _, ∃ c' u, r = Ok (c', u) ∧ identity c' = identity c ∧
    (is_ok u = true → same_identity c (fc_state c') = true)).
Proof.
  intros Hwf. unfold Save. apply wp_bind. eapply wp_mono; [by apply load_locked_identity|].
  intros r w1 (c1 & u & -> & Hi & Hs). destruct u; [|apply wp_ret; eexists _, _; done].
  apply wp_bind, wp_attempt, wp_intro. intros r w2 _. apply wp_ret. eexists _, _. split; [done|].
  split; [done|]. intros _. simpl. by apply same_identity_put, Hs.
Qed.

(** [utf8.Valid]. *)
Definition between (lo hi : nat) (a : ascii) : bool := bool_decide (lo ≤ nat_of_ascii a ≤ hi).
Fixpoint valid_utf8 (l : list ascii) : bool :=
  match l with
  | [] => true
  | a :: l =>
      if between 0 127 a then valid_utf8 l else
      match l with
      | x :: l =>
          if between 194 223 a then between 128 191 x && valid_utf8 l else
          match l with
          | y :: l =>
              if between 224 239 a then
                between (if between 224 224 a then 160 else 128) (if between 237 237 a then 159 else 191) x && between 128 191 y && valid_utf8 l else
              match l with
              | z :: l =>
                  between 240 244 a && between (if between 240 240 a then 144 else 128) (if between 244 244 a then 143 else 191) x
                  && between 128 191 y && between 128 191 z && valid_utf8 l
              | [] => false
              end
          | [] => false
          end
      | [] => false
      end
  end.
Definition is_int64 (z : Z) : Prop := (- 2 ^ 63 ≤ z < 2 ^ 63)%Z.
(** A state of 64-bit numbers and UTF-8 texts. *)
Definition json_exact (s : checkpointState) : Prop :=
  valid_utf8 (chars (st_SourceKey s)) = true ∧ valid_utf8 (chars (st_SourceRevision s)) = true ∧
  is_int64 (st_Version s) ∧ is_int64 (st_Size s) ∧ is_int64 (st_SegmentSize s) ∧
  map_Forall (λ i n, is_int64 i ∧ is_int64 n) (segments_of s).

(** Reading back a complete checkpoint file. *)
Lemma load_stored c s w :
  decode_state (encode_state s) = Ok s →
  fc_loaded c = false → w_db w !! fc_path c = Some (NFile (encode_state s)) →
  (Z.of_nat (length (encode_state s)) ≤ checkpoint_limit)%Z →
  wp (Load c) w (λ r _, ∃ c' u, r = Ok (c', u) ∧
    ((∃ e, fault_error e ∧ u = Err e) ∨
     u = if same_identity c s then Ok (segments_of s) else Err (ErrText "transfer checkpoint identity is ambiguous"))).
Proof.
  intros Hcodec Hl Hf Hlen. unfold Load, loadLocked. rewrite Hl. apply wp_bind, wp_bind, wp_attempt.
  unfold read_file. apply wp_query; simpl; rewrite Hf.
  - intros e n [He|He]; [|done]. assert (is_not_exist e = false) as -> by (by destruct He as (? & ? & _ & ->)).
    apply wp_ret. simpl. eexists _, _. split; [done|]. left. eauto.
  - intros data n [= <-]. unfold limited. apply Z.leb_le in Hlen as ->. rewrite Hcodec.
    change (same_identity (set_checkpoint false (fresh_state c) c) s) with (same_identity c s).
    destruct (same_identity c s); simpl; eexists _, _; (split; [done|]); by right.
Qed.

(** C38: Saving a segment is atomic and durable: whatever fails, the
    checkpoint file is afterwards either what it was or one complete new state,
    and no file but it and its temporary changes.  Once [Save] succeeded, and where
    JSON can say the state (UTF-8 texts, 64-bit numbers) in at most the 1 MiB that is read
    back, a later process that opens the checkpoint for the same source, revision, size and
    segment size reads exactly the old segments with the new one, and a process that opens it
    for any other download is told that it is ambiguous; reading fails otherwise only with the
    file system. *)
Theorem checkpoint_durable i n c w c' r w' :
  (∀ t, json_exact t → decode_state (encode_state t) = Ok t) → checkpoint_wf c →
  Save i n c w = (Ok (c', r), w') →
  keeps_others (fc_path c) (w_db w) (w_db w')
  ∧ (w_db w' !! fc_path c = w_db w !! fc_path c ∨ w_db w' !! fc_path c = Some (NFile (encode_state (fc_state c'))))
  ∧ (r = Ok tt → json_exact (fc_state c') → (Z.of_nat (length (encode_state (fc_state c'))) ≤ checkpoint_limit)%Z →
     ∀ key revision size segment w1 c1 u w2, w_db w1 = w_db w' →
       Load (NewFileCheckpoint (fc_path c) key revision size segment) w1 = (Ok (c1, u), w2) →
       (∃ e, fault_error e ∧ u = Err e) ∨
       u = if bool_decide ((key, revision, size, segment) = identity c)
           then Ok (<[i := n]> (file_view (w, c)))
           else Err (ErrText "transfer checkpoint identity is ambiguous")).
Proof.
  intros Hcodec Hwf Hrun.
  destruct (wp_elim _ _ _ _ _ (save_spec i n c w) Hrun) as (c0 & u0 & [= <- <-] & _ & Hk & Hdisk & Hr).
  destruct (wp_elim _ _ _ _ _ (save_identity i n c w Hwf) Hrun) as (c0 & u0 & [= <- <-] & Hi & Hs).
  split; [done|]. split; [naive_solver|].
  intros -> Hjson Hlen key revision size segment w1 c1 u w2 Hw1 Hload. destruct Hr as (Hf & Hl & Hv).
  specialize (Hs eq_refl).
  destruct (wp_elim _ _ _ _ _ (load_stored (NewFileCheckpoint (fc_path c) key revision size segment)
    (fc_state c') w1 (Hcodec _ Hjson) eq_refl ltac:(by rewrite Hw1) Hlen) Hload) as (c2 & u2 & [= <- <-] & [?| ->]); [by left|].
  right. unfold file_view in Hv at 1. simpl in Hv. rewrite Hl in Hv. rewrite Hv.
  apply same_identity_spec in Hs as (Hver & Hseg & Hid).
  destruct (bool_decide _) eqn:E; bools.
  - destruct (same_identity _ _) eqn:E2; [done|]. exfalso. apply not_true_iff_false in E2. apply E2.
    apply same_identity_spec. split; [done|]. split; [done|]. by rewrite Hid, <-E.
  - destruct (same_identity _ _) eqn:E2; [|done]. exfalso. apply same_identity_spec in E2 as (_ & _ & E2).
    apply E. rewrite <-Hid, E2. done.
Qed.

End Durability.

(** ** A codec that keeps the law, for the examples *)

Definition state_code (s : checkpointState) : positive :=
  encode (st_Version s, st_SourceKey s, st_SourceRevision s, st_Size s, st_SegmentSize s, st_Segments s).

Fixpoint bits_of (p : positive) : list ascii :=
  match p with xH => [] | xO q => byte 48 :: bits_of q | xI q => byte 49 :: bits_of q end.
Fixpoint of_bits (l : list ascii) : positive :=
  match l with [] => xH | a :: l' => if bool_decide (a = byte 48) then xO (of_bits l') else xI (of_bits l') end.

Lemma of_bits_of p : of_bits (bits_of p) = p.
Proof. induction p; simpl; congruence. Qed.

Definition sample_codec : Codec := {|
  encode_state s := bits_of (state_code s);
  decode_state l :=
    match decode (of_bits l) : option (Z * string * string * Z * Z * option Segments) with
    | Some (v, k, r, s, g, m) => Ok (mkState v k r s g m)
    | None => Err (ErrText "invalid checkpoint")
    end
|}.

Lemma sample_codec_ok s : @decode_state sample_codec (@encode_state sample_codec s) = Ok s.
Proof. unfold decode_state, encode_state, sample_codec, state_code. rewrite of_bits_of, decode_encode. by destruct s. Qed.

Definition sample_checkpoint : FileCheckpoint := NewFileCheckpoint "/spool/k.json" "k" "r1" 25 10.

Definition no_files : World Files := mkWorld 0 (∅ : gmap string node).

Lemma checkpoint_durable_witness :
  let run := @Save sample_codec quiet 1 10 sample_checkpoint no_files in
  let c' := set_checkpoint true (put_segment 1 10 (fresh_state sample_checkpoint)) sample_checkpoint in
  run.1 = Ok (c', Ok tt)
  ∧ keeps_others "/spool/k.json" (w_db no_files) (w_db run.2)
  ∧ ∀ c1 u w2,
      @Load sample_codec quiet (NewFileCheckpoint "/spool/k.json" "k" "r1" 25 10) run.2 = (Ok (c1, u), w2) →
      (∃ e, @fault_error quiet e ∧ u = Err e) ∨ u = Ok (<[1%Z := 10%Z]> (@file_view sample_codec (no_files, sample_checkpoint))).
Proof.
  intros run c'. assert (run.1 = Ok (c', Ok tt)) as Hrun by (vm_compute; reflexivity).
  split; [exact Hrun|].
  destruct (@checkpoint_durable sample_codec quiet 1 10 sample_checkpoint no_files c' (Ok tt) run.2) as (Hk & _ & Hd).
  - intros t _. apply sample_codec_ok.
  - intros [=].
  - rewrite <-Hrun. apply surjective_pairing.
  - split; [exact Hk|]. intros c1 u w2. apply (Hd eq_refl); [| |reflexivity].
    + split; [vm_compute; reflexivity|]. split; [vm_compute; reflexivity|]. unfold is_int64. cbn. unfold ProtocolVersion.
      do 3 (split; [lia|]). apply map_Forall_insert_2; [lia|apply map_Forall_empty].
    + apply Z.leb_le. vm_compute. reflexivity.
Defined.
