(* ===== verification/Download.v ===== *)
(** The resumable segmented download ([src/internal/transfer/download.go]).

    The connections run concurrently: [worker] is one goroutine between two
    points where it touches the spool, the checkpoint or the shared progress,
    [event] is one such point of one worker (or of the feeding loop, or of the
    context), and [step] is what the code does there.  A schedule is a list of
    events; a run that ends before the workers have returned is a process that
    stopped there.

    SHA-1 is the class [Hash].  [openRange] is an argument: the [n]-th call, its
    offset and length.  The [report] callback may fail and does nothing else
    here; its throttling by time is the freedom not to fail. *)
From Stdlib Require Import Ascii.
From S2P Require Import Prelude GoStrings GoPath Sql Protocol FileSys Checkpoint.

Class Hash := { sha1 : list ascii → list ascii }.

Record DownloadOptions := mkOptions {
  o_Path : string; o_Name : string; o_Size : Z; o_ExpectedSHA1 : string;
  o_SegmentSize : Z; o_Connections : Z; o_Attempts : Z; o_BufferSize : Z
}.

Record DownloadResult := mkResult { r_Path : string; r_SHA1 : string; r_PreSHA1 : string; r_Downloaded : Z }.

(** ** Bytes *)

Definition zero_bytes (n : nat) : list ascii := replicate n nul.

(** [file.Truncate]. *)
Definition truncate (n : nat) (file : list ascii) : list ascii :=
  take n file ++ zero_bytes (n - length file).

(** [file.WriteAt]. *)
Definition write_at (offset : nat) (bytes file : list ascii) : list ascii :=
  let file := file ++ zero_bytes (offset - length file) in
  take offset file ++ bytes ++ drop (offset + length bytes) file.

Definition hex_digit (n : nat) : ascii := if bool_decide (n < 10) then byte (48 + n) else byte (55 + n).

(** [stringsUpperHex]. *)
Definition stringsUpperHex (value : list ascii) : string :=
  of_chars (flat_map (λ a, let n := nat_of_ascii a in [hex_digit (n / 16); hex_digit (n mod 16)]) value).

(** One byte of [equalFoldASCII]. *)
Definition fold_ascii (a : ascii) : ascii := if is_lower a then upper_byte a else a.

Definition equalFoldASCII (left right : string) : bool :=
  bool_decide (length (chars left) = length (chars right))
  && forallb (λ ab, bool_decide (fold_ascii ab.1 = fold_ascii ab.2)) (zip (chars left) (chars right)).

(** ** One ranged response *)

(** The bytes it delivers, how reading ends after them ([None]: [io.EOF]) and what
    closing it returns. *)
Record body := mkBody { b_data : list ascii; b_end : option error; b_close : option error }.

Inductive phase := Opening | Reading (b : body) | Saving.

(** A connection: waiting for an index, downloading segment [index] with its
    [attempt] and the bytes [written] so far, or returned. *)
Inductive worker := Idle | Exited | Running (index attempt written : Z) (ph : phase).

Inductive event :=
| Cancelled                                       (* the caller's context ends *)
| Stopped                                         (* the feeding loop sees [workerCtx.Done()] *)
| Received (w : nat)                              (* [index := <-work] *)
| Quit (w : nat)                                  (* [work] is closed *)
| TimerCancelled (w : nat)                        (* [ctx.Done()] before a retry *)
| Opened (w : nat)                                (* [openRange] returns *)
| ReadChunk (w : nat) (write report : option error)
| Closed (w : nat) (sync : option error)
| Saved (w : nat).                                (* [checkpoint.Save] returns *)

Section Machine.
Context {C : Type} `{Checkpoint C}.
Context (openRange : nat → Z → Z → res body) (o : DownloadOptions).

Record dl := mkDl {
  d_file : list ascii;
  d_queue : list Z;
  d_workers : list worker;
  d_checkpoint : C;
  d_downloaded : Z;
  d_failure : option error;
  d_parent : bool;
  d_calls : nat
}.

Definition segment_start (i : Z) : Z := i * o_SegmentSize o.
Definition segment_length (i : Z) : Z := Z.min (o_SegmentSize o) (o_Size o - segment_start i).

(** [workerCtx.Err() != nil]: the first failure cancels it too. *)
Definition cancelled (d : dl) : bool := d_parent d || bool_decide (is_Some (d_failure d)).

Definition with_worker (w : nat) (s : worker) (d : dl) : dl :=
  mkDl (d_file d) (d_queue d) (<[w := s]> (d_workers d)) (d_checkpoint d) (d_downloaded d)
    (d_failure d) (d_parent d) (d_calls d).
Definition with_queue (q : list Z) (d : dl) : dl :=
  mkDl (d_file d) q (d_workers d) (d_checkpoint d) (d_downloaded d) (d_failure d) (d_parent d) (d_calls d).
Definition with_checkpoint (c : C) (d : dl) : dl :=
  mkDl (d_file d) (d_queue d) (d_workers d) c (d_downloaded d) (d_failure d) (d_parent d) (d_calls d).
Definition with_call (d : dl) : dl :=
  mkDl (d_file d) (d_queue d) (d_workers d) (d_checkpoint d) (d_downloaded d) (d_failure d) (d_parent d) (S (d_calls d)).
Definition with_bytes (offset : Z) (bytes : list ascii) (d : dl) : dl :=
  mkDl (write_at (Z.to_nat offset) bytes (d_file d)) (d_queue d) (d_workers d) (d_checkpoint d)
    (Z.min (o_Size o) (d_downloaded d + Z.of_nat (length bytes))) (d_failure d) (d_parent d) (d_calls d).
Definition with_parent (d : dl) : dl :=
  mkDl (d_file d) (d_queue d) (d_workers d) (d_checkpoint d) (d_downloaded d) (d_failure d) true (d_calls d).

(** The end of a worker whose segment failed. *)
Definition fail_segment (w : nat) (index : Z) (e : error) (d : dl) : dl :=
  let failure := match d_failure d with
    | None => Some (ErrWrap ("segment " +:+ pretty index +:+ " of " +:+ o_Name o +:+ " failed after "
                             +:+ pretty (o_Attempts o) +:+ " attempts: ") e)
    | Some f => Some f
    end in
  mkDl (d_file d) (d_queue d) (<[w := Exited]> (d_workers d)) (d_checkpoint d) (d_downloaded d)
    failure (d_parent d) (d_calls d).

(** [downloadSegment] after a failed attempt: cancelled, another attempt, or the
    last error. *)
Definition retry_segment (w : nat) (index attempt written : Z) (e : error) (d : dl) : dl :=
  if cancelled d then fail_segment w index ErrCanceled d
  else if Z.ltb (attempt + 1) (o_Attempts o) then with_worker w (Running index (attempt + 1)%Z written Opening) d
  else fail_segment w index e d.

(** One round of the loop of [consumeRange]. *)
Definition consume_chunk (w : nat) (index attempt written : Z) (b : body) (write report : option error) (d : dl) : dl :=
  let start := segment_start index in
  let length_ := segment_length index in
  if cancelled d then retry_segment w index attempt written ErrCanceled d
  else
    let wanted := Z.min (o_BufferSize o) (length_ - written) in
    let chunk := take (Z.to_nat wanted) (b_data b) in
    let count := Z.of_nat (length chunk) in
    let ended (written : Z) (d : dl) : dl :=
      if Z.eqb count wanted
      then with_worker w (Running index attempt written (Reading (mkBody (drop (Z.to_nat wanted) (b_data b)) (b_end b) (b_close b)))) d
      else match b_end b with
           | None => if Z.eqb written length_ then with_worker w (Running index attempt written (Reading b)) d
                     else retry_segment w index attempt written
                            (ErrText ("ranged response ended at " +:+ pretty written +:+ " of " +:+ pretty length_ +:+ " bytes")) d
           | Some e => retry_segment w index attempt written e d
           end in
    if Z.ltb 0 count then
      match write with
      | Some e => retry_segment w index attempt written e d
      | None =>
          let d := with_bytes (start + written)%Z chunk d in
          match report with
          | Some e => retry_segment w index attempt (written + count)%Z e d
          | None => ended (written + count)%Z d
          end
      end
    else ended written d.

(** What the code does at an event; [None] when it cannot happen in that state. *)
Definition step (d : dl) (ev : event) : option dl :=
  match ev with
  | Cancelled => if d_parent d then None else Some (with_parent d)
  | Stopped => if cancelled d && negb (bool_decide (d_queue d = [])) then Some (with_queue [] d) else None
  | Received w =>
      match d_workers d !! w, d_queue d with
      | Some Idle, index :: queue =>
          Some (with_queue queue (with_worker w (if cancelled d then Exited else Running index 0 0 Opening) d))
      | _, _ => None
      end
  | Quit w =>
      match d_workers d !! w, d_queue d with
      | Some Idle, [] => Some (with_worker w Exited d)
      | _, _ => None
      end
  | TimerCancelled w =>
      match d_workers d !! w with
      | Some (Running index attempt written Opening) =>
          if Z.ltb 0 attempt && cancelled d then Some (fail_segment w index ErrCanceled d) else None
      | _ => None
      end
  | Opened w =>
      match d_workers d !! w with
      | Some (Running index attempt written Opening) =>
          let d := with_call d in
          match openRange (d_calls d) (segment_start index + written)%Z (segment_length index - written)%Z with
          | Err e => Some (retry_segment w index attempt written e d)
          | Ok b => Some (with_worker w (Running index attempt written (Reading b)) d)
          end
      | _ => None
      end
  | ReadChunk w write report =>
      match d_workers d !! w with
      | Some (Running index attempt written (Reading b)) =>
          if Z.ltb written (segment_length index)
          then Some (consume_chunk w index attempt written b write report d) else None
      | _ => None
      end
  | Closed w sync =>
      match d_workers d !! w with
      | Some (Running index attempt written (Reading b)) =>
          if Z.ltb written (segment_length index) then None else
          match b_close b, sync with
          | Some e, _ => Some (retry_segment w index attempt written e d)
          | None, Some e => Some (retry_segment w index attempt written e d)
          | None, None => Some (with_worker w (Running index attempt written Saving) d)
          end
      | _ => None
      end
  | Saved w =>
      match d_workers d !! w with
      | Some (Running index attempt written Saving) =>
          let '(r, c) := ck_Save index (segment_length index) (d_checkpoint d) in
          let d := with_checkpoint c d in
          Some (match r with Ok _ => with_worker w Idle d | Err e => fail_segment w index e d end)
      | _ => None
      end
  end.

(** The workers under a schedule; an event that cannot happen is passed over. *)
Fixpoint run_schedule (sched : list event) (d : dl) : dl :=
  match sched with
  | [] => d
  | ev :: sched' => run_schedule sched' (default d (step d ev))
  end.

(** [workers.Wait()] returns. *)
Definition finished (d : dl) : bool :=
  bool_decide (d_queue d = []) && forallb (λ w, match w with Exited => true | _ => false end) (d_workers d).

(** *** The whole download *)

Context `{Env} `{Hash}.

(** The spool file at [o_Path] and the checkpoint. *)
Record Transfer := mkTransfer { t_spool : option node; t_checkpoint : C }.
Abbreviation Tr := (M Transfer).

Definition on_checkpoint {A} (f : C → res A * C) : Tr A := λ w,
  let '(r, c) := f (t_checkpoint (w_db w)) in (r, mkWorld (w_tick w) (mkTransfer (t_spool (w_db w)) c)).

Definition set_spool (data : list ascii) (t : Transfer) : Transfer := mkTransfer (Some (NFile data)) (t_checkpoint t).

(** The report callback. *)
Definition report_progress : Tr unit := query (λ _, Ok tt).

(** [int((Size + SegmentSize - 1) / SegmentSize)], the sum in [int64]. *)
Definition totalSegments : Z := Z.quot (wrap64 (o_Size o + o_SegmentSize o - 1)) (o_SegmentSize o).

(** The loop over the segments: bytes already there, and the indices to fetch. *)
Definition scan_segments (segments : Segments) : res (Z * list Z) :=
  res_fold (λ acc index,
    match segments !! index with
    | Some size =>
        if negb (Z.eqb size (segment_length index)) then
          Err (ErrText ("segment " +:+ pretty index +:+ " checkpoint size is ambiguous"))
        else Ok (acc.1 + size, acc.2)%Z
    | None => Ok (acc.1, acc.2 ++ [index])
    end) (seqZ 0 totalSegments) (0%Z, []).

Definition outside (segments : Segments) : list Z :=
  filter (λ index, (index < 0 ∨ totalSegments ≤ index)%Z) (map_to_list segments).*1.

(** [Hashes]: of the whole file and of its first 128 KiB. *)
Definition hash_prefix (data : list ascii) : list ascii :=
  take (Z.to_nat (Z.min (o_Size o) (128 * 1024))) data.
Definition spool_bytes (t : Transfer) : list ascii := match t_spool t with Some (NFile data) => data | _ => [] end.
Definition Hashes : Tr (string * string) :=
  query (λ t, Ok (stringsUpperHex (sha1 (spool_bytes t)), stringsUpperHex (sha1 (hash_prefix (spool_bytes t))))).

Definition start_workers (file : list ascii) (pending : list Z) (c : C) (downloaded : Z) (parent : bool) : dl :=
  mkDl file pending (replicate (Z.to_nat (o_Connections o)) Idle) c downloaded None parent 0.

(** [workers.Wait()] and what follows it: [None] when the process stops before. *)
Definition await_workers (sched : list event) (pending : list Z) (downloaded : Z) : Tr (option unit) := λ w,
  let t := w_db w in
  let d := run_schedule sched (start_workers (spool_bytes t) pending (t_checkpoint t) downloaded false) in
  let w := mkWorld (w_tick w) (mkTransfer (Some (NFile (d_file d))) (d_checkpoint d)) in
  if negb (finished d) then (Ok None, w)
  else match d_failure d with
       | Some e => (Err e, w)
       | None => if d_parent d then (Err ErrCanceled, w) else (Ok (Some tt), w)
       end.

(** The pending segments, when there are any; [false]: the process stopped. *)
Definition fetch_pending (sched : list event) (pending : list Z) (downloaded : Z) : Tr bool :=
  if bool_decide (0 < length pending) then
    r ← await_workers sched pending downloaded;
    match r with Some _ => _ ← report_progress; mret true | None => mret false end
  else mret true.

(** [file.Sync], the hashes and their check. *)
Definition verify_spool : Tr (option DownloadResult) :=
  _ ← query (λ _, Ok tt);
  '(sha, pre) ← Hashes;
  if negb (bool_decide (o_ExpectedSHA1 o = "")) && negb (equalFoldASCII (o_ExpectedSHA1 o) sha) then
    throw (ErrText ("source SHA-1 changed for " +:+ o_Name o))
  else mret (Some (mkResult (o_Path o) sha pre (o_Size o))).

(** [segments], from the scan of what is already there. *)
Definition fetch_and_verify (sched : list event) (segments : Segments) : Tr (option DownloadResult) :=
  '(downloaded, pending) ← lift (scan_segments segments);
  _ ← match outside segments with
      | index :: _ => throw (ErrText ("segment " +:+ pretty index +:+ " checkpoint is outside the source"))
      | [] => mret tt
      end;
  _ ← report_progress;
  done ← fetch_pending sched pending downloaded;
  if negb done then mret None else verify_spool.

Definition Download (sched : list event) : Tr (option DownloadResult) :=
  if bool_decide (o_Path o = "") || Z.ltb (o_Size o) 0 || Z.leb (o_SegmentSize o) 0 || Z.ltb (o_Connections o) 1
     || Z.ltb (o_Attempts o) 1 || Z.ltb (o_BufferSize o) 1 then
    throw (ErrText "invalid segmented download configuration")
  else
  segments ← on_checkpoint ck_Load;
  existing ← query (λ t, Ok (t_spool t));
  segments ← match existing with
             | Some (NFile _) => mret segments
             | Some _ => throw (ErrText "transfer spool is not a regular file")
             | None => mret ∅
             end;
  _ ← exec (λ t, (tt, match t_spool t with None => set_spool [] t | Some _ => t end));
  _ ← exec (λ t, (tt, set_spool (truncate (Z.to_nat (o_Size o)) (spool_bytes t)) t));
  fetch_and_verify sched segments.

End Machine.

Arguments dl : clear implicits.
Arguments Transfer : clear implicits.
