(* ===== verification/DownloadProofs.v ===== *)
(** Correctness of the segmented download: the bytes, resumption after any stop,
    exclusivity of the segments and termination, under every interleaving of the
    connections. *)
From Stdlib Require Import Ascii.
From S2P Require Import Prelude GoStrings GoPath Sql Protocol FileSys Checkpoint Download.

(** * Bytes *)

Lemma length_zero_bytes n : length (zero_bytes n) = n.
Proof. apply length_replicate. Qed.

Lemma length_truncate n file : length (truncate n file) = n.
Proof. unfold truncate. rewrite length_app, length_zero_bytes, length_take. lia. Qed.

Lemma truncate_id n file : length file = n → truncate n file = file.
Proof. intros <-. unfold truncate. rewrite take_ge, Nat.sub_diag by lia. by rewrite app_nil_r. Qed.

Lemma lookup_truncate n file k : k < n → k < length file → truncate n file !! k = file !! k.
Proof.
  intros Hn Hk. unfold truncate. rewrite lookup_app_l by (rewrite length_take; lia). by rewrite lookup_take_lt.
Qed.

Lemma write_at_inside offset bytes file :
  offset + length bytes ≤ length file →
  write_at offset bytes file = take offset file ++ bytes ++ drop (offset + length bytes) file.
Proof. intros Hl. unfold write_at. replace (offset - length file) with 0 by lia. simpl. by rewrite app_nil_r. Qed.

Lemma length_write_at offset bytes file :
  offset + length bytes ≤ length file → length (write_at offset bytes file) = length file.
Proof. intros. rewrite write_at_inside, !length_app, length_take, length_drop by done. lia. Qed.

Lemma lookup_write_at offset bytes file k :
  offset + length bytes ≤ length file →
  write_at offset bytes file !! k =
    if bool_decide (offset ≤ k < offset + length bytes) then bytes !! (k - offset) else file !! k.
Proof.
  intros Hl. rewrite write_at_inside by done. case_bool_decide as Hk.
  - rewrite lookup_app_r by (rewrite length_take; lia). rewrite length_take.
    rewrite lookup_app_l by lia. f_equal. lia.
  - destruct (decide (k < offset)).
    + rewrite lookup_app_l by (rewrite length_take; lia). by rewrite lookup_take_lt.
    + rewrite lookup_app_r by (rewrite length_take; lia). rewrite length_take.
      rewrite lookup_app_r by lia. rewrite lookup_drop. f_equal. lia.
Qed.

(** * Segments *)

Section Segments.
Context (o : DownloadOptions).

(** Options [Download] accepts, on sizes whose sum fits [int64]. *)
Definition valid_options : Prop :=
  (0 ≤ o_Size o ∧ 0 < o_SegmentSize o ∧ 1 ≤ o_Connections o ∧ 1 ≤ o_Attempts o ∧ 1 ≤ o_BufferSize o
   ∧ o_Size o + o_SegmentSize o ≤ 2 ^ 63)%Z.

Definition in_range (i : Z) : Prop := (0 ≤ i < totalSegments o)%Z.

Hypothesis Hv : valid_options.

Lemma in_range_spec i : in_range i ↔ (0 ≤ i ∧ segment_start o i < o_Size o)%Z.
Proof.
  destruct Hv as (H0 & H1 & _ & _ & _ & H2). unfold in_range, totalSegments, segment_start.
  assert (wrap64 (o_Size o + o_SegmentSize o - 1) = o_Size o + o_SegmentSize o - 1)%Z as ->.
  { unfold wrap64. rewrite Z.mod_small by lia. lia. }
  rewrite Z.quot_div_nonneg by lia.
  assert (∀ n, i < n / o_SegmentSize o ↔ (i + 1) * o_SegmentSize o ≤ n)%Z as Hd.
  { intros n. split; intros Hi.
    - pose proof (Z.mul_div_le n (o_SegmentSize o)). nia.
    - apply Z.lt_le_trans with (i + 1)%Z; [lia|]. by apply Z.div_le_lower_bound; lia. }
  rewrite Hd. nia.
Qed.

Lemma segment_bounds i :
  in_range i → (0 ≤ segment_start o i ∧ 0 < segment_length o i
                ∧ segment_start o i + segment_length o i ≤ o_Size o)%Z.
Proof. rewrite in_range_spec. destruct Hv. unfold segment_length, segment_start. nia. Qed.

(** The segments tile the file. *)
Lemma segment_of_offset k :
  (0 ≤ k < o_Size o)%Z → ∃ i, in_range i ∧ (segment_start o i ≤ k < segment_start o i + segment_length o i)%Z.
Proof.
  intros Hk. destruct Hv as (_ & H1 & _). exists (k / o_SegmentSize o)%Z.
  pose proof (Z.div_mod k (o_SegmentSize o)). pose proof (Z.mod_pos_bound k (o_SegmentSize o)).
  assert (0 ≤ k / o_SegmentSize o)%Z by (apply Z.div_pos; lia).
  rewrite in_range_spec. unfold segment_length, segment_start. nia.
Qed.

(** Segments do not overlap. *)
Lemma segments_disjoint i j k :
  (segment_start o i ≤ k < segment_start o i + segment_length o i)%Z →
  (segment_start o j ≤ k < segment_start o j + segment_length o j)%Z → i = j.
Proof. destruct Hv as (_ & H1 & _). unfold segment_length, segment_start. nia. Qed.

End Segments.

(** * Content *)

(** The file has the source's bytes at the offsets [a .. b). *)
Definition agree (src file : list ascii) (a b : Z) : Prop :=
  ∀ k, (a ≤ Z.of_nat k < b)%Z → file !! k = src !! k.

(** The provider serves bytes of the source: the [j]-th byte of an answer is the
    byte of the source at that distance from the offset, within the range. *)
Definition faithful (openRange : nat → Z → Z → res body) (src : list ascii) : Prop :=
  ∀ n offset len b, openRange n offset len = Ok b →
    ∀ j, j < length (b_data b) → (Z.of_nat j < len)%Z → b_data b !! j = src !! (Z.to_nat offset + j).

Lemma agree_write src file a b offset bytes :
  offset + length bytes ≤ length file →
  (∀ j, j < length bytes → bytes !! j = src !! (offset + j)) →
  agree src file a b → agree src (write_at offset bytes file) a b.
Proof.
  intros Hl Hb Ha k Hk. rewrite lookup_write_at by done. case_bool_decide; [|by apply Ha].
  rewrite Hb by lia. f_equal. lia.
Qed.

Lemma agree_extend src file a offset bytes :
  offset + length bytes ≤ length file →
  (∀ j, j < length bytes → bytes !! j = src !! (offset + j)) →
  agree src file a (Z.of_nat offset) → agree src (write_at offset bytes file) a (Z.of_nat offset + Z.of_nat (length bytes)).
Proof.
  intros Hl Hb Ha k Hk. rewrite lookup_write_at by done. case_bool_decide; [|apply Ha; lia].
  rewrite Hb by lia. f_equal. lia.
Qed.

(** * The invariant *)

Section Invariant.
Context {C : Type} `{CheckpointLaws C}.
Context (openRange : nat → Z → Z → res body) (o : DownloadOptions) (src : list ascii).
Hypothesis Hv : valid_options o.
Hypothesis Hsrc : length src = Z.to_nat (o_Size o).
Hypothesis Hfaithful : faithful openRange src.

Abbreviation seg_done file i := (agree src file (segment_start o i) (segment_start o i + segment_length o i)).

(** Every segment the checkpoint records is complete in the file. *)
Definition recorded_ok (file : list ascii) (segments : Segments) : Prop :=
  ∀ i n, segments !! i = Some n → in_range o i ∧ n = segment_length o i ∧ seg_done file i.

Definition worker_ok (file : list ascii) (s : worker) : Prop :=
  match s with
  | Running i attempt written ph =>
      in_range o i ∧ (0 ≤ written ≤ segment_length o i)%Z
      ∧ agree src file (segment_start o i) (segment_start o i + written)
      ∧ match ph with
        | Opening => True
        | Reading b => ∀ j, j < length (b_data b) → (Z.of_nat j < segment_length o i - written)%Z →
                       b_data b !! j = src !! (Z.to_nat (segment_start o i + written) + j)
        | Saving => written = segment_length o i
        end
  | _ => True
  end.

Definition covers (s : worker) (i : Z) : Prop :=
  match s with Running j _ _ _ => i = j | _ => False end.

Definition covered (d : dl C) (i : Z) : Prop :=
  seg_done (d_file d) i ∨ i ∈ d_queue d ∨ ∃ w s, d_workers d !! w = Some s ∧ covers s i.

Record dl_inv (d : dl C) : Prop := {
  di_length : length (d_file d) = Z.to_nat (o_Size o);
  di_recorded : recorded_ok (d_file d) (ck_view (d_checkpoint d));
  di_workers : ∀ w s, d_workers d !! w = Some s → worker_ok (d_file d) s;
  di_queue : ∀ i, i ∈ d_queue d → in_range o i;
  di_covered : cancelled d = true ∨ ∀ i, in_range o i → covered d i
}.

(** Changing one worker's state. *)
Lemma set_worker_inv w s s' d :
  dl_inv d → d_workers d !! w = Some s → worker_ok (d_file d) s' →
  (∀ i, covers s i → seg_done (d_file d) i ∨ i ∈ d_queue d ∨ covers s' i) →
  dl_inv (with_worker w s' d).
Proof.
  intros [Hl Hr Hw Hq Hc] Hs Hok Hcov. split; try done.
  - intros w' t. simpl. rewrite list_lookup_insert_Some. naive_solver.
  - destruct Hc as [Hc|Hc]; [by left|]. right. intros i Hi. unfold covered. simpl.
    destruct (Hc i Hi) as [?|[?|(w' & t & Hw' & Ht)]]; [by left|by right; left|].
    destruct (decide (w' = w)) as [->|Hne].
    + simplify_eq. destruct (Hcov i Ht) as [?|[?|?]]; [by left|by right; left|]. right; right.
      exists w, s'. split; [|done]. apply list_lookup_insert_eq. by eapply lookup_lt_Some.
    + right; right. exists w', t. by rewrite list_lookup_insert_ne.
Qed.

Lemma fail_segment_inv w i e d : dl_inv d → dl_inv (fail_segment o w i e d).
Proof.
  intros [Hl Hr Hw Hq Hc]. split; try done.
  - intros w' t. simpl. rewrite list_lookup_insert_Some. intros [(_ & <- & _)|[_ ?]]; [done|by eapply Hw].
  - left. unfold cancelled. simpl. apply orb_true_iff. right. apply bool_decide_eq_true.
    destruct (d_failure d); eauto.
Qed.

Lemma retry_segment_inv w s i attempt written e d :
  dl_inv d → d_workers d !! w = Some s → covers s i →
  worker_ok (d_file d) (Running i attempt written Opening) →
  dl_inv (retry_segment o w i attempt written e d).
Proof.
  intros Hd Hs Hc Hok. unfold retry_segment.
  destruct (cancelled d); [by apply fail_segment_inv|]. destruct (Z.ltb _ _); [|by apply fail_segment_inv].
  apply (set_worker_inv w s); [done..|]. intros j Hj. right; right. destruct s; [done..|]. simpl in *. congruence.
Qed.

Lemma with_call_inv d : dl_inv d → dl_inv (with_call d).
Proof. by intros [????]. Qed.

(** Writing source bytes into a segment's range keeps everything. *)
Lemma with_bytes_inv i written bytes d :
  dl_inv d → in_range o i → (0 ≤ written)%Z → (written + Z.of_nat (length bytes) ≤ segment_length o i)%Z →
  (∀ j, j < length bytes → bytes !! j = src !! (Z.to_nat (segment_start o i + written) + j)) →
  dl_inv (with_bytes o (segment_start o i + written) bytes d)
  ∧ (agree src (d_file d) (segment_start o i) (segment_start o i + written) →
     agree src (d_file (with_bytes o (segment_start o i + written) bytes d))
       (segment_start o i) (segment_start o i + (written + Z.of_nat (length bytes)))).
Proof.
  intros [Hl Hr Hw Hq Hc] Hi Hpos Hlen Hb. pose proof (segment_bounds o Hv i Hi) as Hbounds.
  assert (Z.to_nat (segment_start o i + written) + length bytes ≤ length (d_file d)) as Hfit by lia.
  assert (∀ a b, agree src (d_file d) a b →
    agree src (write_at (Z.to_nat (segment_start o i + written)) bytes (d_file d)) a b) as Hkeep
    by (intros a b; by apply agree_write).
  split.
  - split; simpl; try done.
    + by rewrite length_write_at.
    + intros j n Hj. destruct (Hr j n Hj) as (? & ? & ?). auto.
    + intros w s Hs. specialize (Hw w s Hs). destruct s; try done. simpl in *. naive_solver.
    + destruct Hc as [Hc|Hc]; [by left|]. right. intros j Hj.
      destruct (Hc j Hj) as [?|[?|?]]; [left; simpl; auto|by right; left|by right; right].
  - intros Ha. simpl.
    replace (segment_start o i + (written + Z.of_nat (length bytes)))%Z
      with (Z.of_nat (Z.to_nat (segment_start o i + written)) + Z.of_nat (length bytes))%Z by lia.
    apply agree_extend; [done..|]. by replace (Z.of_nat (Z.to_nat (segment_start o i + written)))
      with (segment_start o i + written)%Z by lia.
Qed.

Lemma consume_chunk_inv w i attempt written b we re d :
  dl_inv d → d_workers d !! w = Some (Running i attempt written (Reading b)) → (written < segment_length o i)%Z →
  dl_inv (consume_chunk o w i attempt written b we re d).
Proof.
  intros Hd Hs Hlt. pose proof (di_workers d Hd w _ Hs) as (Hi & Hwr & Ha & Hb).
  pose proof (segment_bounds o Hv i Hi) as Hbounds. pose proof Hv as (_ & _ & _ & _ & Hbuf & _).
  assert (worker_ok (d_file d) (Running i attempt written Opening)) as Hok by done.
  unfold consume_chunk. destruct (cancelled d); [by eapply retry_segment_inv|].
  set (wanted := Z.min _ _). set (chunk := take _ (b_data b)).
  assert (length chunk = Z.to_nat wanted `min` length (b_data b)) as Hlc by apply length_take.
  destruct (Z.ltb_spec 0 (Z.of_nat (length chunk))) as [Hpos|Hzero].
  - destruct we as [e|]; [by eapply retry_segment_inv|].
    destruct (with_bytes_inv i written chunk d) as [Hd' Ha']; [done|done|lia|lia| |].
    { intros j Hj. unfold chunk. rewrite lookup_take_lt by lia. apply Hb; lia. }
    specialize (Ha' Ha). set (d' := with_bytes _ _ _ _) in *.
    assert (worker_ok (d_file d') (Running i attempt (written + Z.of_nat (length chunk)) Opening)) as Hok'
      by (split_and!; [done|lia|lia|done|done]).
    assert (d_workers d' !! w = Some (Running i attempt written (Reading b))) as Hs' by done.
    destruct re as [e|]; [by eapply retry_segment_inv|].
    destruct (Z.eqb_spec (Z.of_nat (length chunk)) wanted) as [Heq|Hne].
    + eapply set_worker_inv; [done..| |].
      * split_and!; [done|lia|lia|done|]. intros j. simpl. rewrite length_drop. intros Hj Hj2.
        rewrite lookup_drop, Hb by lia. f_equal. lia.
      * intros j Hj. right; right. done.
    + destruct (b_end b); [by eapply retry_segment_inv|]. destruct (Z.eqb_spec (written + Z.of_nat (length chunk)) (segment_length o i)).
      * eapply set_worker_inv; [done..| |]; [|intros j Hj; by right; right].
        split_and!; [done|lia|lia|done|]. intros j Hj Hj2. lia.
      * by eapply retry_segment_inv.
  - destruct (Z.eqb_spec (Z.of_nat (length chunk)) wanted) as [Heq|Hne]; [lia|].
    destruct (b_end b); [by eapply retry_segment_inv|]. destruct (Z.eqb_spec written (segment_length o i)); [lia|].
    by eapply retry_segment_inv.
Qed.

Lemma dl_step_inv d ev d' : dl_inv d → step openRange o d ev = Some d' → dl_inv d'.
Proof.
  intros Hd. destruct ev as [| |w|w|w|w|w we re|w se|w]; simpl; intros Hs.
  - destruct (d_parent d); [done|]. injection Hs as <-. destruct Hd as [Hl Hr Hw Hq Hc]. split; try done. left. done.
  - destruct (cancelled d) eqn:Hc; [|done]. destruct (negb _); [|done]. injection Hs as <-. destruct Hd as [Hl Hr Hw Hq _].
    split; try done; [|by left]. intros i Hi. by apply elem_of_nil in Hi.
  - destruct (d_workers d !! w) as [[| |]|] eqn:Hw; try done. destruct (d_queue d) as [|i q] eqn:Hq; [done|].
    injection Hs as <-. assert (in_range o i) as Hi by (apply (di_queue d Hd); rewrite Hq; set_solver).
    pose proof (segment_bounds o Hv i Hi) as Hb.
    assert (dl_inv (with_worker w (if cancelled d then Exited else Running i 0 0 Opening) d)) as Hd2.
    { apply (set_worker_inv w Idle); [done..| |intros j []]. destruct (cancelled d); [done|].
      split_and!; [done|lia|lia| |done]. intros k Hk. lia. }
    destruct Hd2 as [Hl2 Hr2 Hw2 Hq2 Hc2]. split; try done.
    + intros j Hj. apply Hq2. simpl. rewrite Hq. by right.
    + destruct (cancelled d) eqn:Hc; [by left|]. right. destruct Hc2 as [Hc2|Hc2]; [unfold cancelled in *; simpl in *; congruence|].
      intros j Hj. destruct (Hc2 j Hj) as [?|[Hin|?]]; [by left| |by right; right].
      simpl in Hin. rewrite Hq in Hin. apply elem_of_cons in Hin as [->|?]; [|by right; left].
      right; right. exists w, (Running i 0 0 Opening). split; [|done]. apply list_lookup_insert_eq. by eapply lookup_lt_Some.
  - destruct (d_workers d !! w) as [[| |]|] eqn:Hw; try done. destruct (d_queue d) eqn:Hq; [|done].
    injection Hs as <-. by apply (set_worker_inv w Idle).
  - destruct (d_workers d !! w) as [[| |i att wr []]|] eqn:Hw; try done. destruct (_ && _); [|done].
    injection Hs as <-. by apply fail_segment_inv.
  - destruct (d_workers d !! w) as [[| |i att wr []]|] eqn:Hw; try done.
    pose proof (di_workers d Hd w _ Hw) as Hok. assert (dl_inv (with_call d)) as Hd1 by (by apply with_call_inv).
    pose proof Hok as (Hi & Hwr & Ha & _). pose proof (segment_bounds o Hv i Hi).
    destruct (openRange _ _ _) as [b|e] eqn:Ho; injection Hs as <-.
    + eapply set_worker_inv; [done..| |]; [|intros j Hj; by right; right].
      split_and!; [done|lia|lia|done|]. intros j Hj Hj2. by eapply Hfaithful.
    + by eapply retry_segment_inv.
  - destruct (d_workers d !! w) as [[| |i att wr []]|] eqn:Hw; try done.
    destruct (Z.ltb_spec wr (segment_length o i)); [|done]. injection Hs as <-. by apply consume_chunk_inv.
  - destruct (d_workers d !! w) as [[| |i att wr []]|] eqn:Hw; try done.
    pose proof (di_workers d Hd w _ Hw) as (Hi & Hwr & Ha & _).
    assert (worker_ok (d_file d) (Running i att wr Opening)) as Hok by done.
    destruct (Z.ltb_spec wr (segment_length o i)); [done|].
    destruct (b_close b); [injection Hs as <-; by eapply retry_segment_inv|].
    destruct se; injection Hs as <-; [by eapply retry_segment_inv|].
    eapply set_worker_inv; [done..| |]; [|intros j Hj; by right; right].
    split_and!; [done|lia|lia|done|lia].
  - destruct (d_workers d !! w) as [[| |i att wr []]|] eqn:Hw; try done.
    pose proof (di_workers d Hd w _ Hw) as (Hi & Hwr & Ha & ->).
    destruct (ck_Save i (segment_length o i) (d_checkpoint d)) as [r c] eqn:Hsave.
    assert (dl_inv (with_checkpoint c d)) as Hd1.
    { assert (ck_view c = ck_view (d_checkpoint d) ∨ ck_view c = <[i := segment_length o i]> (ck_view (d_checkpoint d))) as Hview.
      { destruct r as [[]|e]; [right; by eapply ck_save_ok|by eapply ck_save_err]. }
      destruct Hd as [Hl Hr Hws Hq Hc]. split; try done. simpl. destruct Hview as [-> | ->]; [done|].
      intros j n. rewrite lookup_insert_Some. intros [[<- <-]|[_ Hj]]; [done|by apply Hr]. }
    injection Hs as <-. destruct r as [[]|e]; [|by apply fail_segment_inv].
    eapply set_worker_inv; [done|exact Hw|done|]. intros j ->. by left.
Qed.

Lemma run_inv sched d : dl_inv d → dl_inv (run_schedule openRange o sched d).
Proof.
  revert d. induction sched as [|ev sched IH]; intros d Hd; simpl; [done|].
  apply IH. destruct (step openRange o d ev) eqn:E; [by eapply dl_step_inv|done].
Qed.

(** When nothing is left to do and nothing was cancelled, the file is the source. *)
Lemma covered_file d :
  dl_inv d → d_queue d = [] → (∀ w s i, d_workers d !! w = Some s → ¬ covers s i) → cancelled d = false → d_file d = src.
Proof.
  intros [Hl Hr Hw Hq Hc] Hqe Hidle Hnc. destruct Hc as [Hc|Hc]; [congruence|].
  apply list_eq. intros k. destruct (decide (k < Z.to_nat (o_Size o))) as [Hk|Hk].
  2: { rewrite !lookup_ge_None_2 by lia. done. }
  destruct (segment_of_offset o Hv (Z.of_nat k)) as (i & Hi & Hki); [lia|].
  destruct (Hc i Hi) as [Ha|[Hin|(w & s & Hs & Hcov)]]; [by apply Ha| |by destruct (Hidle w s i)].
  rewrite Hqe in Hin. by apply elem_of_nil in Hin.
Qed.

Lemma finished_file d :
  dl_inv d → finished d = true → d_failure d = None → d_parent d = false → d_file d = src.
Proof.
  intros Hd Hfin Hfail Hpar. unfold finished in Hfin. bools. apply covered_file; [done..| |].
  - intros w s i Hs. match goal with H : forallb _ _ = true |- _ => rewrite forallb_forall in H; specialize (H s) end.
    destruct s; simpl in *; try (by intros []).
    match goal with H : _ → false = true |- _ => discriminate H end. by apply list_elem_of_In, list_elem_of_lookup; eauto.
  - unfold cancelled. by rewrite Hfail, Hpar.
Qed.

(** ** The segments the checkpoint reports *)

Lemma scan_ok segments downloaded pending :
  scan_segments o segments = Ok (downloaded, pending) →
  (∀ i, i ∈ pending ↔ in_range o i ∧ segments !! i = None)
  ∧ (∀ i n, in_range o i → segments !! i = Some n → n = segment_length o i).
Proof.
  unfold scan_segments. intros Hs.
  set (P := λ (l : list Z) (acc : Z * list Z),
    (∀ i, i ∈ acc.2 ↔ i ∈ l ∧ segments !! i = None) ∧ (∀ i n, i ∈ l → segments !! i = Some n → n = segment_length o i)).
  apply (res_fold_inv P) in Hs.
  - destruct Hs as [H1 H2]. simpl in H1. setoid_rewrite elem_of_seqZ in H1. setoid_rewrite elem_of_seqZ in H2.
    unfold in_range. setoid_rewrite Z.add_0_l in H1. setoid_rewrite Z.add_0_l in H2. done.
  - split; [intros i; set_solver|intros i n Hi; by apply elem_of_nil in Hi].
  - intros l [n0 q] i [n1 q2] [H1 H2] Hi Hf. simpl in *. destruct (segments !! i) as [n|] eqn:Hseg; [|].
    + destruct (Z.eqb_spec n (segment_length o i)) as [->|]; simplify_eq/=. split.
      * intros j. rewrite H1, elem_of_app, list_elem_of_singleton. naive_solver.
      * intros j m. rewrite elem_of_app, list_elem_of_singleton. intros [?| ->] Hj; [by eapply H2|congruence].
    + simplify_eq/=. split.
      * intros j. simpl. rewrite !elem_of_app, H1, !list_elem_of_singleton. naive_solver.
      * intros j m. rewrite elem_of_app, list_elem_of_singleton. intros [?| ->] Hj; [by eapply H2|congruence].
Qed.

Lemma outside_nil segments i n : outside o segments = [] → segments !! i = Some n → in_range o i.
Proof.
  unfold outside, in_range. intros Hn Hi.
  assert (i ∈ (map_to_list segments).*1) as Hin.
  { apply list_elem_of_fmap. exists (i, n). split; [done|]. by apply elem_of_map_to_list. }
  destruct (decide (i < 0 ∨ totalSegments o ≤ i)%Z) as [Hd|?]; [|lia].
  exfalso. eapply (filter_nil_not_elem_of _ _ i Hn); done.
Qed.

(** The state in which the workers start. *)
Lemma start_inv file pending (segments : Segments) c downloaded parent :
  length file = Z.to_nat (o_Size o) →
  recorded_ok file (ck_view c) → (∀ i n, segments !! i = Some n → ck_view c !! i = Some n) →
  (∀ i, i ∈ pending ↔ in_range o i ∧ segments !! i = None) →
  dl_inv (start_workers o file pending c downloaded parent).
Proof.
  intros Hl Hr Hsub Hp. split; simpl; try done.
  - intros w s Hs. apply lookup_replicate in Hs as [-> _]. done.
  - intros i Hi. by apply Hp.
  - right. intros i Hi. destruct (segments !! i) as [n|] eqn:E; [left|right; left].
    + apply Hsub in E. by destruct (Hr i n E) as (_ & -> & ?).
    + by apply Hp.
Qed.

Lemma start_nothing file segments c :
  length file = Z.to_nat (o_Size o) → recorded_ok file (ck_view c) →
  (∀ i n, (segments : Segments) !! i = Some n → ck_view c !! i = Some n) →
  (∀ i, i ∈ [] ↔ in_range o i ∧ segments !! i = None) → file = src.
Proof.
  intros Hl Hr Hsub Hp. apply (covered_file (start_workers o file [] c 0 false)); [by eapply start_inv|done| |done].
  intros w s i Hs. apply lookup_replicate in Hs as [-> _]. by intros [].
Qed.

(** ** Across runs *)

(** The spool and the checkpoint of a download in progress: a spool file holds the
    source's bytes in every segment the checkpoint records, and without a spool
    file the checkpoint records nothing. *)
Definition spool_sound (t : Transfer C) : Prop :=
  match t_spool t with
  | Some (NFile file) =>
      (∀ i n, ck_view (t_checkpoint t) !! i = Some n →
         in_range o i → n = segment_length o i → (segment_start o i + n ≤ Z.of_nat (length file))%Z ∧ seg_done file i)
  | Some _ => True
  | None => ck_view (t_checkpoint t) = ∅
  end.

Lemma recorded_sound t file :
  t_spool t = Some (NFile file) → length file = Z.to_nat (o_Size o) →
  recorded_ok file (ck_view (t_checkpoint t)) → spool_sound t.
Proof.
  unfold spool_sound. intros -> Hl Hr i n Hi Hin Hn. destruct (Hr i n Hi) as (_ & -> & ?). split; [|done].
  pose proof (segment_bounds o Hv i Hin). lia.
Qed.

Context `{Env} `{Hash}.

Lemma wp_load_any w Q :
  (∀ r c, Q r (mkWorld (w_tick w) (mkTransfer (t_spool (w_db w)) c))) → wp (on_checkpoint ck_Load) w Q.
Proof. intros HQ. unfold wp, on_checkpoint. destruct (ck_Load _). apply HQ. Qed.

Lemma wp_load w Q :
  (∀ e c, ck_view c = ck_view (t_checkpoint (w_db w)) → Q (Err e) (mkWorld (w_tick w) (mkTransfer (t_spool (w_db w)) c))) →
  (∀ c, ck_view c = ck_view (t_checkpoint (w_db w)) →
        Q (Ok (ck_view c)) (mkWorld (w_tick w) (mkTransfer (t_spool (w_db w)) c))) →
  wp (on_checkpoint ck_Load) w Q.
Proof.
  intros He Ho. unfold wp, on_checkpoint. destruct (ck_Load (t_checkpoint (w_db w))) as [[m|e] c] eqn:Hl.
  - rewrite (ck_load_ok _ _ _ Hl), <-(ck_load_view _ _ _ Hl). apply Ho. by eapply ck_load_view.
  - apply He. by eapply ck_load_view.
Qed.

(** What the workers leave behind, however far they got. *)
Lemma wp_await sched pending downloaded segments w Q :
  length (spool_bytes (w_db w)) = Z.to_nat (o_Size o) →
  recorded_ok (spool_bytes (w_db w)) (ck_view (t_checkpoint (w_db w))) →
  (∀ i n, (segments : Segments) !! i = Some n → ck_view (t_checkpoint (w_db w)) !! i = Some n) →
  (∀ i, i ∈ pending ↔ in_range o i ∧ segments !! i = None) →
  (∀ r w', spool_sound (w_db w') → (r = Ok (Some tt) → t_spool (w_db w') = Some (NFile src)) → Q r w') →
  wp (await_workers openRange o sched pending downloaded) w Q.
Proof.
  intros Hl Hr Hsub Hp HQ. unfold wp, await_workers. simpl.
  pose proof (start_inv _ _ _ _ downloaded false Hl Hr Hsub Hp) as Hd.
  apply (run_inv sched) in Hd. set (d := run_schedule _ _ _ _) in *.
  assert (spool_sound (mkTransfer (Some (NFile (d_file d))) (d_checkpoint d))) as Hs.
  { eapply recorded_sound; [done| |]; apply Hd. }
  destruct (finished d) eqn:Hf; simpl; [|by apply HQ].
  destruct (d_failure d) eqn:Hfail; [by apply HQ|]. destruct (d_parent d) eqn:Hpar; [by apply HQ|].
  apply HQ; [done|]. intros _. simpl. by rewrite (finished_file d).
Qed.

(** Truncating the spool to the size keeps what the checkpoint records of it. *)
Lemma truncate_sound t :
  spool_sound t → (∃ file, t_spool t = Some (NFile file)) →
  spool_sound (set_spool (truncate (Z.to_nat (o_Size o)) (spool_bytes t)) t).
Proof.
  intros Hs [file Hf]. unfold spool_sound in *. unfold spool_bytes. rewrite Hf in *. simpl.
  intros i n Hi Hin Hn. destruct (Hs i n Hi Hin Hn) as [Hle Ha]. pose proof (segment_bounds o Hv i Hin).
  rewrite length_truncate. split; [lia|]. intros k Hk. rewrite lookup_truncate by lia. by apply Ha.
Qed.

Lemma ready_recorded t segments downloaded pending :
  spool_sound t → (∃ file, t_spool t = Some (NFile file)) →
  segments = ck_view (t_checkpoint t) ∨ ck_view (t_checkpoint t) = ∅ →
  scan_segments o segments = Ok (downloaded, pending) → outside o segments = [] →
  recorded_ok (spool_bytes t) (ck_view (t_checkpoint t)).
Proof.
  intros Hs [file Hf] Hseg Hscan Hout i n Hi. destruct Hseg as [->|He]; [|by rewrite He in Hi].
  destruct (scan_ok _ _ _ Hscan) as [_ Hlen]. pose proof (outside_nil _ _ _ Hout Hi) as Hin.
  specialize (Hlen i n Hin Hi). split; [done|]. split; [done|].
  unfold spool_sound in Hs. unfold spool_bytes. rewrite Hf in *. subst n. by apply (Hs i _ Hi).
Qed.

Definition download_post (r : res (option DownloadResult)) (w' : World (Transfer C)) : Prop :=
  spool_sound (w_db w') ∧
  ∀ x, r = Ok (Some x) →
    t_spool (w_db w') = Some (NFile src)
    ∧ x = mkResult (o_Path o) (stringsUpperHex (sha1 src)) (stringsUpperHex (sha1 (hash_prefix o src))) (o_Size o).

Lemma verify_spec w t0 :
  w_db w = t0 → t_spool t0 = Some (NFile src) → spool_sound t0 → wp (verify_spool o) w download_post.
Proof.
  intros Hw Hf Hs. unfold verify_spool, Hashes. wp_run; (split; [by rewrite Hw|]); try done.
  simplify_eq/=. intros x [= <-]. split; [done|]. unfold spool_bytes. by rewrite Hf.
Qed.

(** From the point where the spool has its size, with the segments to keep. *)
Lemma download_fetch_spec sched segments w :
  spool_sound (w_db w) → (∃ file, t_spool (w_db w) = Some (NFile file) ∧ length file = Z.to_nat (o_Size o)) →
  segments = ck_view (t_checkpoint (w_db w)) ∨ segments = ∅ ∧ ck_view (t_checkpoint (w_db w)) = ∅ →
  wp (fetch_and_verify openRange o sched segments) w download_post.
Proof.
  intros Hs (file & Hf & Hlen) Hseg.
  assert (∀ e w', spool_sound (w_db w') → download_post (Err e) w') as Herr by (by split).
  unfold fetch_and_verify. apply wp_bind, wp_lift. destruct (scan_segments o segments) as [[downloaded pending]|] eqn:Hscan; [|by apply Herr].
  apply wp_bind. destruct (outside o segments) as [|] eqn:Hout; [|by apply Herr]. apply wp_ret.
  assert (recorded_ok (spool_bytes (w_db w)) (ck_view (t_checkpoint (w_db w)))) as Hrec.
  { eapply (ready_recorded _ segments); [done|eauto|naive_solver|done..]. }
  assert (length (spool_bytes (w_db w)) = Z.to_nat (o_Size o)) as Hlen2 by (unfold spool_bytes; by rewrite Hf).
  destruct (scan_ok _ _ _ Hscan) as [Hp _].
  assert (∀ i n, segments !! i = Some n → ck_view (t_checkpoint (w_db w)) !! i = Some n) as Hsub.
  { destruct Hseg as [->|[-> _]]; done. }
  apply wp_bind, wp_query; [intros; by apply Herr|]. intros [] n _. apply wp_bind. simpl. unfold fetch_pending.
  case_bool_decide as Hpend.
  - apply wp_bind. eapply wp_await; [exact Hlen2|exact Hrec|exact Hsub|exact Hp|]. intros r w' Hs' Hr.
    destruct r as [[[]|]|e]; [|by split|by apply Herr]. apply wp_bind, wp_query; [intros; by apply Herr|].
    intros [] n' _. apply wp_ret. eapply verify_spec; [done|by apply Hr|done].
  - apply wp_ret. eapply verify_spec; [done| |done]. simpl. rewrite Hf. do 2 f_equal.
    assert (pending = []) as -> by (destruct pending; simpl in *; [done|lia]).
    unfold spool_bytes in *. rewrite Hf in *. by eapply start_nothing.
Qed.

Lemma download_spec sched w :
  spool_sound (w_db w) → wp (Download openRange o sched) w download_post.
Proof.
  intros Hs. assert (∀ e w', spool_sound (w_db w') → download_post (Err e) w') as Herr by (by split).
  unfold Download. destruct (_ || _); [by apply Herr|].
  apply wp_bind, wp_load; [intros e c Hc; apply Herr; unfold spool_sound in *; simpl; by rewrite Hc|].
  intros c Hc.
  assert (spool_sound (mkTransfer (t_spool (w_db w)) c)) as Ht1 by (unfold spool_sound in *; simpl; by rewrite Hc).
  apply wp_bind, wp_query; [intros; by apply Herr|]. intros x n [= <-]. simpl. apply wp_bind.
  destruct (t_spool (w_db w)) as [[file| | |]|] eqn:Hf; try (by apply Herr); apply wp_ret.
  - apply wp_bind, wp_exec; [intros; by apply Herr|]. intros n1. simpl.
    apply wp_bind, wp_exec; [intros; by apply Herr|]. intros n2. simpl.
    eapply download_fetch_spec; simpl; [|eexists; split; [done|apply length_truncate]|by left].
    apply truncate_sound; [done|eauto].
  - assert (ck_view c = ∅) as Hempty by (unfold spool_sound in Hs; rewrite Hf, <-Hc in Hs; done).
    apply wp_bind, wp_exec; [intros; by apply Herr|]. intros n1. simpl.
    assert (∀ file, spool_sound (mkTransfer (Some (NFile file)) c)) as Ht2
      by (intros file i m; simpl; by rewrite Hempty).
    apply wp_bind, wp_exec; [intros; apply Herr, Ht2|]. intros n2. simpl.
    eapply download_fetch_spec; simpl; [apply Ht2|eexists; split; [done|apply length_truncate]|by right].
Qed.

End Invariant.
