(* ===== verification/DownloadRuns.v ===== *)
(** The runs of the segmented download: which segments are touched and by whom,
    termination under every interleaving, success when nothing fails, and the
    properties of [Download] itself. *)
From Stdlib Require Import Ascii.
From S2P Require Import Prelude GoStrings GoPath Sql Protocol FileSys Checkpoint Download DownloadProofs.

(** * How a step changes the connections *)

Section Runs.
Context {C : Type} `{Checkpoint C}.
Context (openRange : nat → Z → Z → res body) (o : DownloadOptions).
Hypothesis Hv : valid_options o.

(** The work left in a connection, and in an index still queued. *)
Definition weight (s : worker) : Z :=
  match s with
  | Exited => 0
  | Idle => 1
  | Running i attempt written ph =>
      match ph with
      | Opening => 2 * (o_Attempts o - attempt) + (segment_length o i - written) + 2
      | Reading _ => 2 * (o_Attempts o - attempt) + (segment_length o i - written) + 1
      | Saving => 2
      end
  end.
Definition queue_weight (i : Z) : Z := 2 * o_Attempts o + segment_length o i + 2.

Definition sum_of {A} (f : A → Z) (l : list A) : Z := foldr (λ x s, (f x + s)%Z) 0%Z l.

(** A bound on the events that can still happen. *)
Definition measure (d : dl C) : Z :=
  (if d_parent d then 0 else 1) + sum_of queue_weight (d_queue d) + sum_of weight (d_workers d).

Definition worker_sane (s : worker) : Prop :=
  match s with
  | Running i attempt written _ =>
      in_range o i ∧ (0 ≤ written ≤ segment_length o i)%Z ∧ (0 ≤ attempt < o_Attempts o)%Z
  | _ => True
  end.

(** The effect of one step. *)
Inductive moves (d d' : dl C) : Prop :=
| mv_cancel : d_file d' = d_file d → d_queue d' = d_queue d → d_workers d' = d_workers d →
    d_parent d = false → d_parent d' = true → moves d d'
| mv_stop : d_file d' = d_file d → d_queue d ≠ [] → d_queue d' = [] → d_workers d' = d_workers d →
    cancelled d = true → d_parent d' = d_parent d → d_failure d' = d_failure d → moves d d'
| mv_take w i q s : d_workers d !! w = Some Idle → d_queue d = i :: q → d_file d' = d_file d → d_queue d' = q →
    d_workers d' = <[w := s]> (d_workers d) → (s = Exited ∧ cancelled d = true ∨ s = Running i 0 0 Opening) →
    d_parent d' = d_parent d → d_failure d' = d_failure d → moves d d'
| mv_quit w : d_workers d !! w = Some Idle → d_queue d = [] → d_file d' = d_file d → d_queue d' = [] →
    d_workers d' = <[w := Exited]> (d_workers d) → d_parent d' = d_parent d → moves d d'
| mv_work w i attempt written ph s bytes : d_workers d !! w = Some (Running i attempt written ph) →
    d_queue d' = d_queue d → d_workers d' = <[w := s]> (d_workers d) →
    (d_file d' = d_file d ∨ d_file d' = write_at (Z.to_nat (segment_start o i + written)) bytes (d_file d)) →
    (written + Z.of_nat (length bytes) ≤ segment_length o i)%Z →
    (s = Exited ∧ is_Some (d_failure d') ∨ s = Idle ∨
     ∃ attempt' written' ph', s = Running i attempt' written' ph' ∧ worker_sane s) →
    (weight s < weight (Running i attempt written ph))%Z →
    d_parent d' = d_parent d → (is_Some (d_failure d) → is_Some (d_failure d')) → moves d d'.

Lemma weight_positive s : worker_sane s → (0 ≤ weight s)%Z ∧ (s ≠ Exited → 1 ≤ weight s)%Z.
Proof. destruct s as [| |i a wr []]; simpl; intros; naive_solver lia. Qed.

Lemma fail_segment_workers w i e (d : dl C) :
  d_workers (fail_segment o w i e d) = <[w := Exited]> (d_workers d)
  ∧ d_file (fail_segment o w i e d) = d_file d ∧ d_queue (fail_segment o w i e d) = d_queue d
  ∧ d_parent (fail_segment o w i e d) = d_parent d ∧ is_Some (d_failure (fail_segment o w i e d)).
Proof. unfold fail_segment. simpl. destruct (d_failure d); eauto 10. Qed.

(** Retrying after a failed attempt that got from [written] to [written']. *)
Lemma retry_moves w i attempt written written' ph bytes e d0 d :
  d_workers d0 !! w = Some (Running i attempt written ph) → worker_sane (Running i attempt written ph) →
  ph ≠ Saving → (written ≤ written' ≤ segment_length o i)%Z → (written + Z.of_nat (length bytes) ≤ segment_length o i)%Z →
  d_queue d = d_queue d0 → d_workers d = d_workers d0 → d_parent d = d_parent d0 → d_failure d = d_failure d0 →
  (d_file d = d_file d0 ∨ d_file d = write_at (Z.to_nat (segment_start o i + written)) bytes (d_file d0)) →
  moves d0 (retry_segment o w i attempt written' e d).
Proof.
  intros Hw (Hi & Hwr & Hatt) Hph Hwr' Hb Hq Hws Hp Hf Hfile.
  assert (1 < weight (Running i attempt written ph))%Z as Hpos by (destruct ph; simpl; [lia|lia|done]).
  assert (∀ e, moves d0 (fail_segment o w i e d)) as Hfail.
  { intros e'. destruct (fail_segment_workers w i e' d) as (H1 & H2 & H3 & H4 & H5).
    eapply (mv_work _ _ w i attempt written ph Exited bytes); try done; rewrite ?H1, ?H2, ?H3, ?H4, ?Hws; try done;
      [by left|simpl in *; lia]. }
  unfold retry_segment. destruct (cancelled d); [done|]. destruct (Z.ltb_spec (attempt + 1) (o_Attempts o)); [|done].
  eapply (mv_work _ _ w i attempt written ph _ bytes); try done; simpl; rewrite ?Hws, ?Hf; try done.
  - right; right. eexists _, _, _. split; [done|]. split_and!; [done|lia..].
  - simpl in *. destruct ph; simpl in *; [lia|lia|done].
Qed.

Lemma step_moves_dl d ev d' :
  (∀ w s, d_workers d !! w = Some s → worker_sane s) →
  step openRange o d ev = Some d' → moves d d'.
Proof.
  intros Hsane. destruct ev as [| |w|w|w|w|w we re|w se|w]; simpl; intros Hs.
  - destruct (d_parent d) eqn:Hp; [done|]. injection Hs as <-. by apply mv_cancel.
  - destruct (cancelled d) eqn:Hc; [|done]. case_bool_decide; simpl in Hs; [done|]. injection Hs as <-. by apply mv_stop.
  - destruct (d_workers d !! w) as [[| |]|] eqn:Hw; try done. destruct (d_queue d) as [|i q] eqn:Hq; [done|].
    injection Hs as <-. eapply mv_take; try done. destruct (cancelled d); [by left|by right].
  - destruct (d_workers d !! w) as [[| |]|] eqn:Hw; try done. destruct (d_queue d) eqn:Hq; [|done].
    injection Hs as <-. by eapply mv_quit.
  - destruct (d_workers d !! w) as [[| |i att wr []]|] eqn:Hw; try done. destruct (_ && _); [|done].
    injection Hs as <-. destruct (fail_segment_workers w i ErrCanceled d) as (H1 & H2 & H3 & H4 & H5).
    pose proof (Hsane w _ Hw) as (_ & ? & ?).
    eapply (mv_work _ _ w i att wr Opening _ []); try done; [by left|simpl; lia|by left|simpl; lia].
  - destruct (d_workers d !! w) as [[| |i att wr []]|] eqn:Hw; try done.
    pose proof (Hsane w _ Hw) as Hok. pose proof Hok as (Hi & ? & ?).
    destruct (openRange _ _ _); injection Hs as <-.
    + eapply (mv_work _ _ w i att wr Opening _ []); try done; [by left|simpl; lia| |simpl; lia].
      right; right. eexists _, _, _. done.
    + eapply (retry_moves w i att wr wr Opening []); try done; [lia|simpl; lia|by left].
  - destruct (d_workers d !! w) as [[| |i att wr [|b|]]|] eqn:Hw; try done.
    destruct (Z.ltb_spec wr (segment_length o i)) as [Hlt|]; [|done]. injection Hs as <-.
    pose proof (Hsane w _ Hw) as Hok. pose proof Hok as (Hi & Hwr & Hatt). pose proof Hv as (_ & _ & _ & _ & Hbuf & _).
    assert (∀ e, moves d (retry_segment o w i att wr e d)) as Hretry.
    { intros e. eapply (retry_moves w i att wr wr (Reading b) []); try done; [lia|simpl; lia|by left]. }
    unfold consume_chunk. destruct (cancelled d); [done|].
    set (wanted := Z.min _ _). set (chunk := take _ (b_data b)).
    assert (length chunk = Z.to_nat wanted `min` length (b_data b)) as Hlc by apply length_take.
    destruct (Z.ltb_spec 0 (Z.of_nat (length chunk))) as [Hpos|Hzero].
    + destruct we; [done|].
      assert (∀ e, moves d (retry_segment o w i att (wr + Z.of_nat (length chunk)) e
        (with_bytes o (segment_start o i + wr) chunk d))) as Hretry2.
      { intros e. eapply (retry_moves w i att wr _ (Reading b) chunk); try done; [lia|lia|by right]. }
      assert (∀ b', moves d (with_worker w (Running i att (wr + Z.of_nat (length chunk)) (Reading b'))
        (with_bytes o (segment_start o i + wr) chunk d))) as Hnext.
      { intros b'. eapply (mv_work _ _ w i att wr (Reading b) _ chunk); try done; [by right|lia| |simpl; lia].
        right; right. eexists _, _, _. split; [done|]. split_and!; [done|lia..]. }
      destruct re; [done|]. destruct (Z.eqb_spec (Z.of_nat (length chunk)) wanted); [done|].
      destruct (b_end b); [done|]. destruct (Z.eqb_spec (wr + Z.of_nat (length chunk)) (segment_length o i)); done.
    + destruct (Z.eqb_spec (Z.of_nat (length chunk)) wanted); [lia|].
      destruct (b_end b); [done|]. destruct (Z.eqb_spec wr (segment_length o i)); [lia|done].
  - destruct (d_workers d !! w) as [[| |i att wr [|b|]]|] eqn:Hw; try done.
    pose proof (Hsane w _ Hw) as Hok. pose proof Hok as (Hi & Hwr & Hatt).
    destruct (Z.ltb_spec wr (segment_length o i)) as [|Hge]; [done|].
    assert (∀ e, moves d (retry_segment o w i att wr e d)) as Hretry.
    { intros e. eapply (retry_moves w i att wr wr (Reading b) []); try done; [lia|simpl; lia|by left]. }
    destruct (b_close b); [injection Hs as <-; done|]. destruct se; injection Hs as <-; [done|].
    eapply (mv_work _ _ w i att wr (Reading b) _ []); try done; [by left|simpl; lia| |simpl; lia].
    right; right. eexists _, _, _. done.
  - destruct (d_workers d !! w) as [[| |i att wr [|b|]]|] eqn:Hw; try done.
    pose proof (Hsane w _ Hw) as Hok. pose proof Hok as (Hi & Hwr & Hatt).
    destruct (ck_Save _ _ _) as [r c]. injection Hs as <-. destruct r as [[]|e].
    + eapply (mv_work _ _ w i att wr Saving _ []); try done; [by left|simpl; lia|by right; left].
    + destruct (fail_segment_workers w i e (with_checkpoint c d)) as (H1 & H2 & H3 & H4 & H5).
      eapply (mv_work _ _ w i att wr Saving _ []); try done; [by left|simpl; lia|by left].
Qed.

(** ** Termination *)

Record run_sane (d : dl C) : Prop := {
  rs_workers : ∀ w s, d_workers d !! w = Some s → worker_sane s;
  rs_queue : ∀ i, i ∈ d_queue d → in_range o i;
  rs_exited : ∀ w, d_workers d !! w = Some Exited → d_queue d = [] ∨ cancelled d = true;
  rs_some : d_workers d ≠ []
}.

Lemma insert_lookup_cases (w w' : nat) (s t : worker) (l : list worker) :
  <[w := s]> l !! w' = Some t → t = s ∨ l !! w' = Some t.
Proof. rewrite list_lookup_insert_Some. naive_solver. Qed.

Lemma insert_not_nil {A} (w : nat) (s : A) (l : list A) : l ≠ [] → <[w := s]> l ≠ [].
Proof. intros Hl Hn. apply Hl, length_zero_iff_nil. by rewrite <-(length_insert l w s), Hn. Qed.

Lemma cancelled_keeps (d d' : dl C) :
  d_parent d' = d_parent d → (is_Some (d_failure d) → is_Some (d_failure d')) → cancelled d = true → cancelled d' = true.
Proof.
  unfold cancelled. intros -> Hf. rewrite !orb_true_iff, !bool_decide_eq_true. naive_solver.
Qed.

Lemma failure_cancels (d : dl C) : is_Some (d_failure d) → cancelled d = true.
Proof. intros Hf. unfold cancelled. apply orb_true_iff. right. by apply bool_decide_eq_true. Qed.

Lemma moves_sane d d' : run_sane d → moves d d' → run_sane d'.
Proof.
  intros [Hw Hq He Hn] Hm. destruct Hm as [Hf Hq' Hw' Hp Hp'|Hf Hq0 Hq' Hw' Hc Hp Hfl|w i q s Hi Hq0 Hf Hq' Hw' Hs Hp Hfl
    |w Hi Hq0 Hf Hq' Hw' Hp|w i att wr ph s bytes Hi Hq' Hw' Hf Hb Hs Hwt Hp Hfl].
  - split; rewrite ?Hq', ?Hw'; try done. intros _ _. right. unfold cancelled. by rewrite Hp'.
  - split; rewrite ?Hq', ?Hw'; try done; [|by left]. intros i Hi. by apply elem_of_nil in Hi.
  - rewrite Hq0 in *. assert (in_range o i) as Hin by (apply Hq; by left). pose proof (segment_bounds o Hv i Hin).
    pose proof Hv as (_ & _ & _ & Ha & _).
    split; rewrite ?Hq', ?Hw'.
    + intros w' t Ht. apply insert_lookup_cases in Ht as [->|Ht]; [|by eapply Hw].
      destruct Hs as [[-> _]| ->]; [done|]. split_and!; [done|lia..].
    + intros j Hj. apply Hq. by right.
    + intros w' Ht. right. apply (cancelled_keeps d); [done|by rewrite Hfl|].
      apply insert_lookup_cases in Ht as [<-|Ht]; [by destruct Hs as [[_ ?]|?]|]. by destruct (He w' Ht).
    + by apply insert_not_nil.
  - split; rewrite ?Hq', ?Hw'; [|by intros i Hj; apply elem_of_nil in Hj|by left|by apply insert_not_nil].
    intros w' t Ht. apply insert_lookup_cases in Ht as [->|Ht]; [done|by eapply Hw].
  - split; rewrite ?Hq', ?Hw'; [|done| |by apply insert_not_nil].
    + intros w' t Ht. apply insert_lookup_cases in Ht as [->|Ht]; [|by eapply Hw].
      destruct Hs as [[-> _]|[->|(? & ? & ? & _ & ?)]]; done.
    + intros w' Ht. apply insert_lookup_cases in Ht as [Ht|Ht].
      * subst s. right. apply failure_cancels. destruct Hs as [[_ ?]|[?|(? & ? & ? & ? & _)]]; done.
      * destruct (He w' Ht) as [?|?]; [by left|]. right. by apply (cancelled_keeps d).
Qed.

Lemma sum_of_nonneg {A} (f : A → Z) l : (∀ x, x ∈ l → 0 ≤ f x)%Z → (0 ≤ sum_of f l)%Z.
Proof.
  induction l as [|x l IH]; intros Hl; simpl; [lia|].
  pose proof (Hl x ltac:(by left)). pose proof (IH ltac:(intros; apply Hl; by right)). lia.
Qed.

Lemma sum_of_insert (f : worker → Z) l w s t :
  l !! w = Some s → sum_of f (<[w := t]> l) = (sum_of f l - f s + f t)%Z.
Proof.
  revert w. induction l as [|x l IH]; intros [|w] Hl; simplify_eq/=; [lia|]. rewrite (IH w Hl). lia.
Qed.

Lemma measure_nonneg d : run_sane d → (0 ≤ measure d)%Z.
Proof.
  intros [Hw Hq _ _]. unfold measure.
  assert (0 ≤ sum_of queue_weight (d_queue d))%Z.
  { apply sum_of_nonneg. intros i Hi. pose proof (segment_bounds o Hv i (Hq i Hi)).
    pose proof Hv as (_ & _ & _ & Ha & _). unfold queue_weight. lia. }
  assert (0 ≤ sum_of weight (d_workers d))%Z.
  { apply sum_of_nonneg. intros s [w Hs]%list_elem_of_lookup. by apply weight_positive, (Hw w). }
  destruct (d_parent d); lia.
Qed.

Lemma moves_measure d d' : run_sane d → moves d d' → (measure d' < measure d)%Z.
Proof.
  intros [Hw Hq He Hn] Hm. unfold measure. destruct Hm as [Hf Hq' Hw' Hp Hp'|Hf Hq0 Hq' Hw' Hc Hp Hfl|w i q s Hi Hq0 Hf Hq' Hw' Hs Hp Hfl
    |w Hi Hq0 Hf Hq' Hw' Hp|w i att wr ph s bytes Hi Hq' Hw' Hf Hb Hs Hwt Hp Hfl]; rewrite Hw', Hq', ?Hp, ?Hp'.
  - lia.
  - assert (0 < sum_of queue_weight (d_queue d))%Z; [|simpl; lia]. destruct (d_queue d) as [|i q] eqn:E; [done|].
    pose proof (segment_bounds o Hv i (Hq i ltac:(by left))). pose proof Hv as (_ & _ & _ & Ha & _). simpl.
    assert (0 ≤ sum_of queue_weight q)%Z; [|unfold queue_weight in *; lia].
    apply sum_of_nonneg. intros j Hj. pose proof (segment_bounds o Hv j (Hq j ltac:(by right))). unfold queue_weight. lia.
  - rewrite Hq0 in *. rewrite (sum_of_insert _ _ _ _ _ Hi). simpl.
    pose proof (segment_bounds o Hv i (Hq i ltac:(by left))). pose proof Hv as (_ & _ & _ & Ha & _).
    destruct Hs as [[-> _]| ->]; unfold queue_weight; simpl; lia.
  - rewrite Hq0, (sum_of_insert _ _ _ _ _ Hi). simpl. lia.
  - rewrite (sum_of_insert _ _ _ _ _ Hi). lia.
Qed.

(** Schedules all of whose events happen. *)
Fixpoint run_all (sched : list event) (d : dl C) : option (dl C) :=
  match sched with
  | [] => Some d
  | ev :: sched' => match step openRange o d ev with Some d' => run_all sched' d' | None => None end
  end.

Lemma run_all_sane sched d d' :
  run_sane d → run_all sched d = Some d' → run_sane d' ∧ (measure d' + Z.of_nat (length sched) ≤ measure d)%Z.
Proof.
  revert d. induction sched as [|ev sched IH]; intros d Hd Hr; simpl in *.
  - simplify_eq. split; [done|lia].
  - destruct (step openRange o d ev) as [d1|] eqn:E; [|done].
    assert (moves d d1) as Hm by (eapply step_moves_dl; [apply Hd|exact E]).
    destruct (IH d1) as [? ?]; [by eapply moves_sane|done|]. split; [done|].
    pose proof (moves_measure d d1 Hd Hm). lia.
Qed.

Lemma forallb_false_ex {A} (f : A → bool) l : forallb f l = false → ∃ x, x ∈ l ∧ f x = false.
Proof.
  induction l as [|x l IH]; simpl; [done|]. intros [Hx|Hl]%andb_false_iff; [exists x; split; [by left|done]|].
  destruct (IH Hl) as (y & ? & ?). exists y. split; [by right|done].
Qed.

(** A run that is not over can go on. *)
Lemma not_stuck d : run_sane d → finished d = false → ∃ ev, is_Some (step openRange o d ev).
Proof.
  intros [Hw Hq He Hn] Hfin. unfold finished in Hfin.
  destruct (forallb _ (d_workers d)) eqn:Hfb.
  2: { apply forallb_false_ex in Hfb as (s & Hs & Hne). apply list_elem_of_lookup in Hs as [w Hs].
    pose proof (Hw w s Hs) as Hsane. destruct s as [| |i att wr ph]; [|done|].
    - destruct (d_queue d) as [|i q] eqn:E.
      + exists (Quit w). simpl. by rewrite Hs, E.
      + exists (Received w). simpl. by rewrite Hs, E.
    - destruct ph as [|b|].
      + exists (Opened w). simpl. rewrite Hs. destruct (openRange _ _ _); eauto.
      + destruct (Z.ltb wr (segment_length o i)) eqn:E.
        * exists (ReadChunk w None None). simpl. rewrite Hs, E. eauto.
        * exists (Closed w None). simpl. rewrite Hs, E. destruct (b_close b); eauto.
      + exists (Saved w). simpl. rewrite Hs. destruct (ck_Save _ _ _). eauto. }
  rewrite andb_true_r in Hfin. bools. exists Stopped. simpl. rewrite bool_decide_false by done. simpl.
  destruct (d_workers d) as [|s l] eqn:E; [done|]. simpl in Hfb. destruct s; try done.
  destruct (He 0 eq_refl) as [?|Hc]; [done|]. rewrite Hc. eauto.
Qed.

(** ** Exclusivity *)

Record exclusive (pending : list Z) (file0 : list ascii) (d : dl C) : Prop := {
  ex_nodup : NoDup (d_queue d);
  ex_queue : ∀ i, i ∈ d_queue d → i ∈ pending;
  ex_running : ∀ w i a n ph, d_workers d !! w = Some (Running i a n ph) → i ∈ pending ∧ i ∉ d_queue d;
  ex_unique : ∀ w1 w2 i a1 n1 ph1 a2 n2 ph2, d_workers d !! w1 = Some (Running i a1 n1 ph1) →
    d_workers d !! w2 = Some (Running i a2 n2 ph2) → w1 = w2;
  ex_length : length (d_file d) = Z.to_nat (o_Size o);
  ex_file : ∀ j k, j ∉ pending → (segment_start o j ≤ Z.of_nat k < segment_start o j + segment_length o j)%Z →
    d_file d !! k = file0 !! k
}.

Lemma moves_exclusive pending file0 d d' :
  run_sane d → exclusive pending file0 d → moves d d' → exclusive pending file0 d'.
Proof.
  intros [Hsw Hsq _ _] [Hnd Hq Hr Hu Hl Hfile] Hm. destruct Hm as [Hf Hq' Hw' Hp Hp'|Hf Hq0 Hq' Hw' Hc Hp Hfl
    |w i q s Hi Hq0 Hf Hq' Hw' Hs Hp Hfl|w Hi Hq0 Hf Hq' Hw' Hp|w i att wr ph s bytes Hi Hq' Hw' Hf Hb Hs Hwt Hp Hfl].
  - split; rewrite ?Hq', ?Hw', ?Hf; done.
  - split; rewrite ?Hq', ?Hw', ?Hf; try done; [constructor|intros i Hi; by apply elem_of_nil in Hi|].
    intros. split; [by eapply Hr|apply not_elem_of_nil].
  - rewrite Hq0 in *. apply NoDup_cons in Hnd as [Hni Hnd].
    split; rewrite ?Hq', ?Hw', ?Hf; try done; [intros j Hj; apply Hq; by right| |].
    + intros w' j a n ph. rewrite list_lookup_insert_Some. intros [(<- & -> & _)|[Hne Hj]].
      * destruct Hs as [[? _]|?]; simplify_eq. split; [apply Hq; by left|done].
      * destruct (Hr _ _ _ _ _ Hj) as [? Hnq]. split; [done|]. intros ?. apply Hnq. by right.
    + intros w1 w2 j a1 n1 p1 a2 n2 p2. rewrite !list_lookup_insert_Some. intros [(<- & He1 & _)|[Hne1 Hj1]] [(<- & He2 & _)|[Hne2 Hj2]]; [done| | |by eapply Hu].
      * destruct Hs as [[? _]|?]; simplify_eq. exfalso. destruct (Hr _ _ _ _ _ Hj2) as [_ Hnq]. apply Hnq. by left.
      * destruct Hs as [[? _]|?]; simplify_eq. exfalso. destruct (Hr _ _ _ _ _ Hj1) as [_ Hnq]. apply Hnq. by left.
  - rewrite Hq0 in *. split; rewrite ?Hq', ?Hw', ?Hf; try done.
    + intros w' j a n ph. rewrite list_lookup_insert_Some. intros [(_ & ? & _)|[_ Hj]]; [done|by eapply Hr].
    + intros w1 w2 j a1 n1 p1 a2 n2 p2. rewrite !list_lookup_insert_Some. intros [(_ & ? & _)|[_ H1]] [(_ & ? & _)|[_ H2]]; try done. by eapply Hu.
  - pose proof (Hsw w _ Hi) as (Hin & Hwr & _). pose proof (segment_bounds o Hv i Hin) as Hbd.
    destruct (Hr _ _ _ _ _ Hi) as [Hip Hiq].
    assert (∀ j a n p, s = Running j a n p → j = i) as Hsame.
    { intros j a n p ->. destruct Hs as [[? _]|[?|(? & ? & ? & ? & _)]]; simplify_eq; done. }
    split; rewrite ?Hq', ?Hw'; try done.
    + intros w' j a n p. rewrite list_lookup_insert_Some. intros [(<- & -> & _)|[_ Hj]]; [|by eapply Hr].
      by rewrite (Hsame _ _ _ _ eq_refl).
    + intros w1 w2 j a1 n1 p1 a2 n2 p2. rewrite !list_lookup_insert_Some. intros [(<- & He1 & _)|[Hne1 Hj1]] [(<- & He2 & _)|[Hne2 Hj2]]; [done| | |by eapply Hu].
      * rewrite (Hsame _ _ _ _ He1) in Hj2. by eapply Hu.
      * rewrite (Hsame _ _ _ _ He2) in Hj1. by eapply Hu.
    + destruct Hf as [->| ->]; [done|]. rewrite length_write_at by lia. done.
    + intros j k Hj Hk. destruct Hf as [->| ->]; [by eapply Hfile|]. rewrite lookup_write_at by lia.
      case_bool_decide as Hin2; [|by eapply Hfile]. exfalso. apply Hj.
      by rewrite (segments_disjoint o Hv j i (Z.of_nat k)) by lia.
Qed.

Lemma start_sane pending file c downloaded parent :
  (∀ i, i ∈ pending → in_range o i) → run_sane (start_workers o file pending c downloaded parent).
Proof.
  intros Hp. pose proof Hv as (_ & _ & Hc & _).
  split; simpl; [| |intros w Hw|].
  - intros w s Hs. apply lookup_replicate in Hs as [-> _]. done.
  - done.
  - by apply lookup_replicate in Hw as [? _].
  - destruct (Z.to_nat (o_Connections o)) eqn:E; [lia|done].
Qed.

Lemma start_exclusive pending file c downloaded parent :
  NoDup pending → length file = Z.to_nat (o_Size o) →
  exclusive pending file (start_workers o file pending c downloaded parent).
Proof.
  intros Hn Hl. split; simpl; try done.
  - intros w i a n ph Hs. by apply lookup_replicate in Hs as [? _].
  - intros w1 w2 i a1 n1 ph1 a2 n2 ph2 Hs. by apply lookup_replicate in Hs as [? _].
Qed.

Lemma run_exclusive pending file0 sched d :
  run_sane d → exclusive pending file0 d → exclusive pending file0 (run_schedule openRange o sched d).
Proof.
  revert d. induction sched as [|ev sched IH]; intros d Hd He; simpl; [done|].
  destruct (step openRange o d ev) as [d'|] eqn:E; simpl; [|by apply IH].
  assert (moves d d') as Hm by (eapply step_moves_dl; [apply Hd|exact E]).
  apply IH; [by eapply moves_sane|by eapply moves_exclusive].
Qed.

Lemma start_measure pending file c downloaded :
  (measure (start_workers o file pending c downloaded false)
   = 1 + o_Connections o + sum_of (λ i, 2 * o_Attempts o + segment_length o i + 2) pending)%Z.
Proof.
  unfold measure. simpl. fold queue_weight.
  assert (∀ n, sum_of weight (replicate n Idle) = Z.of_nat n) as ->.
  { induction n as [|n IH]; [done|]. simpl in *. lia. }
  pose proof Hv as (_ & _ & Hc & _). change (sum_of queue_weight pending) with
    (sum_of (λ i, (2 * o_Attempts o + segment_length o i + 2)%Z) pending). lia.
Qed.

(** ** Success when nothing fails *)

(** Every answer within the source holds the whole range and closes without error. *)
Definition full_answers : Prop :=
  ∀ n offset len, (0 ≤ offset)%Z → (0 ≤ len)%Z → (offset + len ≤ o_Size o)%Z → ∃ b, openRange n offset len = Ok b ∧ (len ≤ Z.of_nat (length (b_data b)))%Z ∧ b_close b = None.
Definition saves_succeed : Prop := ∀ i n c, (ck_Save i n c).1 = Ok tt.

Record calm (d : dl C) : Prop := {
  ca_failure : d_failure d = None;
  ca_parent : d_parent d = false;
  ca_bodies : ∀ w i a n b, d_workers d !! w = Some (Running i a n (Reading b)) →
    (segment_length o i - n ≤ Z.of_nat (length (b_data b)))%Z ∧ b_close b = None
}.

Lemma calm_set w s d :
  calm d → match s with Running i _ n (Reading b) => (segment_length o i - n ≤ Z.of_nat (length (b_data b)))%Z ∧ b_close b = None
           | _ => True end → calm (with_worker w s d).
Proof.
  intros [Hf Hp Hb] Hs. split; try done. intros w' i a n b. simpl. rewrite list_lookup_insert_Some.
  intros [(_ & -> & _)|[_ Hl]]; [done|by eapply Hb].
Qed.

Lemma calm_progress d :
  full_answers → saves_succeed → run_sane d → calm d → finished d = false →
  ∃ ev d', step openRange o d ev = Some d' ∧ calm d'.
Proof.
  intros Hfull Hsave Hd Hc Hfin. pose proof Hc as [Hf Hp Hb].
  assert (cancelled d = false) as Hnc by (unfold cancelled; by rewrite Hf, Hp).
  destruct (forallb (λ w, match w with Exited => true | _ => false end) (d_workers d)) eqn:Hfb.
  { exfalso. unfold finished in Hfin. rewrite Hfb, andb_true_r in Hfin. bools. destruct Hd as [_ _ He Hn].
    destruct (d_workers d) as [|s l] eqn:E; [done|]. simpl in Hfb. destruct s; try done.
    destruct (He 0 eq_refl); [done|congruence]. }
  apply forallb_false_ex in Hfb as (s & Hs & Hne). apply list_elem_of_lookup in Hs as [w Hs].
  pose proof (rs_workers d Hd w s Hs) as Hsane. destruct s as [| |i att wr ph]; [|done|].
  - destruct (d_queue d) as [|i q] eqn:E.
    + exists (Quit w). eexists. simpl. rewrite Hs, E. split; [done|]. by apply calm_set.
    + exists (Received w). eexists. simpl. rewrite Hs, E, Hnc. split; [done|].
      assert (calm (with_worker w (Running i 0 0 Opening) d)) as [? ? ?] by (by apply calm_set). by split.
  - destruct Hsane as (Hi & Hwr & Hatt). destruct ph as [|b|].
    + exists (Opened w). simpl. rewrite Hs.
      pose proof (segment_bounds o Hv i Hi).
      destruct (Hfull (S (d_calls d)) (segment_start o i + wr)%Z (segment_length o i - wr)%Z) as (b & Hob & Hlen & Hcl); [lia..|].
      rewrite Hob. eexists. split; [done|]. apply calm_set; [by destruct Hc|]. done.
    + destruct (Hb _ _ _ _ _ Hs) as [Hlen Hcl]. destruct (Z.ltb wr (segment_length o i)) eqn:E.
      * exists (ReadChunk w None None). eexists. simpl. rewrite Hs, E. split; [done|]. bools.
        unfold consume_chunk. rewrite Hnc. pose proof Hv as (_ & _ & _ & _ & Hbuf & _).
        set (wanted := Z.min _ _). set (chunk := take _ (b_data b)).
        assert (length chunk = Z.to_nat wanted `min` length (b_data b)) as Hlc by apply length_take.
        rewrite (proj2 (Z.ltb_lt 0 (Z.of_nat (length chunk)))) by lia.
        rewrite (proj2 (Z.eqb_eq (Z.of_nat (length chunk)) wanted)) by lia.
        apply calm_set; [by destruct Hc|]. simpl. rewrite length_drop. split; [lia|done].
      * exists (Closed w None). eexists. simpl. rewrite Hs, E, Hcl. split; [done|]. by apply calm_set.
    + exists (Saved w). simpl. rewrite Hs. pose proof (Hsave i (segment_length o i) (d_checkpoint d)) as Hok.
      destruct (ck_Save _ _ _) as [r c]. simpl in Hok. subst r. eexists. split; [done|].
      apply calm_set; [by destruct Hc|done].
Qed.

Lemma calm_finishes d :
  full_answers → saves_succeed → run_sane d → calm d →
  ∃ sched, finished (run_schedule openRange o sched d) = true ∧ calm (run_schedule openRange o sched d).
Proof.
  intros Hfull Hsave. remember (Z.to_nat (measure d)) as m eqn:Hm. revert d Hm.
  induction m as [m IH] using lt_wf_ind. intros d -> Hd Hc. destruct (finished d) eqn:Hfin; [by exists []|].
  destruct (calm_progress d Hfull Hsave Hd Hc Hfin) as (ev & d' & Hs & Hc').
  assert (moves d d') as Hmv by (eapply step_moves_dl; [apply Hd|exact Hs]).
  pose proof (moves_sane d d' Hd Hmv) as Hd'. pose proof (moves_measure d d' Hd Hmv). pose proof (measure_nonneg d' Hd').
  destruct (IH (Z.to_nat (measure d')) ltac:(lia) d' eq_refl Hd' Hc') as (sched & Hfs & Hcs).
  exists (ev :: sched). simpl. by rewrite Hs.
Qed.

End Runs.

(** * Properties *)

Section Properties.
Context {C : Type} `{CheckpointLaws C} `{Env} `{Hash}.
Context (openRange : nat → Z → Z → res body) (o : DownloadOptions).

(** C15: Resuming is sound, and a download that returns has the
    source: let a spool that exists agree with the source in every segment the
    checkpoint records, and let the checkpoint be empty when there is no spool.
    Then, whatever interleaving, failures, cancellation or stop of the process,
    the same holds afterwards (so the next run may resume); and if the download
    returns a result, the spool is exactly the source and the hashes are the
    source's. *)
Theorem download_resumable src sched w r w' :
  valid_options o → length src = Z.to_nat (o_Size o) → faithful openRange src → spool_sound o src (w_db w) →
  Download openRange o sched w = (r, w') →
  spool_sound o src (w_db w')
  ∧ ∀ x, r = Ok (Some x) →
      t_spool (w_db w') = Some (NFile src)
      ∧ x = mkResult (o_Path o) (stringsUpperHex (sha1 src)) (stringsUpperHex (sha1 (hash_prefix o src))) (o_Size o).
Proof.
  intros Hv Hl Hf Hs Hrun.
  by apply (wp_elim _ _ _ _ _ (download_spec openRange o src Hv Hl Hf sched w Hs) Hrun).
Qed.

(** The connections never work on the same segment, and a segment
    that is not pending (the checkpoint already has it) keeps its bytes whatever
    the provider answers. *)
Theorem download_exclusive file pending c downloaded sched :
  valid_options o → NoDup pending → (∀ i, i ∈ pending → in_range o i) → length file = Z.to_nat (o_Size o) →
  let d := run_schedule openRange o sched (start_workers o file pending c downloaded false) in
  (∀ w1 w2 i a1 n1 ph1 a2 n2 ph2, d_workers d !! w1 = Some (Running i a1 n1 ph1) →
     d_workers d !! w2 = Some (Running i a2 n2 ph2) → w1 = w2)
  ∧ (∀ i k, i ∉ pending → (segment_start o i ≤ Z.of_nat k < segment_start o i + segment_length o i)%Z →
       d_file d !! k = file !! k).
Proof.
  intros Hv Hn Hp Hl d.
  assert (exclusive o pending file d) as [? ? ? ? ? ?].
  { apply run_exclusive; [done|by apply start_sane|by apply start_exclusive]. }
  done.
Qed.

(** C36: The download terminates under every interleaving: no run of the
    connections has more events than the attempts and bytes of the pending
    segments allow, and a run that is not over can always go on, so every run
    that goes on as long as it can ends with all workers returned. *)
Theorem download_terminates file pending c downloaded sched d :
  valid_options o → (∀ i, i ∈ pending → in_range o i) →
  run_all openRange o sched (start_workers o file pending c downloaded false) = Some d →
  (Z.of_nat (length sched) ≤
     1 + o_Connections o + sum_of (λ i, 2 * o_Attempts o + segment_length o i + 2)%Z pending)%Z
  ∧ (finished d = false → ∃ ev, is_Some (step openRange o d ev)).
Proof.
  intros Hv Hp Hrun. destruct (run_all_sane openRange o Hv sched _ _ (start_sane o Hv pending file c downloaded false Hp) Hrun) as [Hd Hm].
  split; [|by apply not_stuck]. rewrite start_measure in Hm by done. pose proof (measure_nonneg o Hv d Hd). lia.
Qed.

(** A returned result describes the spool. *)
Definition checked_result (r : res (option DownloadResult)) (w' : World (Transfer C)) : Prop :=
  ∀ x, r = Ok (Some x) →
  ∃ file, t_spool (w_db w') = Some (NFile file)
    ∧ x = mkResult (o_Path o) (stringsUpperHex (sha1 file)) (stringsUpperHex (sha1 (hash_prefix o file))) (o_Size o)
    ∧ (o_ExpectedSHA1 o = "" ∨ equalFoldASCII (o_ExpectedSHA1 o) (stringsUpperHex (sha1 file)) = true).

Lemma verify_checked w : (∃ file, t_spool (w_db w) = Some (NFile file)) → wp (verify_spool o) w checked_result.
Proof.
  intros [file Hf]. unfold verify_spool, Hashes. wp_run; try done. simplify_eq/=. intros x [= <-].
  exists file. unfold spool_bytes. rewrite Hf. split; [done|]. split; [done|].
  match goal with Hb : _ && _ = false |- _ => apply andb_false_iff in Hb as [Hb|Hb] end; bools; [by left|right].
  unfold spool_bytes in *. by rewrite Hf in *.
Qed.

Lemma fetch_checked sched segments w :
  (∃ file, t_spool (w_db w) = Some (NFile file)) → wp (fetch_and_verify openRange o sched segments) w checked_result.
Proof.
  intros Hf. assert (∀ e w', checked_result (Err e) w') as Herr by done. unfold fetch_and_verify.
  apply wp_bind, wp_lift. destruct (scan_segments o segments) as [[downloaded pending]|]; [|done].
  apply wp_bind. destruct (outside o segments); [|done]. apply wp_ret.
  apply wp_bind, wp_query; [done|]. intros [] n _. apply wp_bind. unfold fetch_pending. simpl.
  destruct (bool_decide _); [|by apply verify_checked].
  apply wp_bind. unfold wp at 1, await_workers. simpl.
  destruct (finished _); simpl; [|done]. destruct (d_failure _); [done|]. destruct (d_parent _); [done|].
  apply wp_bind, wp_query; [done|]. intros [] n2 _. apply wp_ret. apply verify_checked. by eexists.
Qed.

(** What a download returns is hashed from what it leaves: when
    a result is returned, the spool is a file of the announced size whose hashes
    are the reported ones, and an expected SHA-1 was given and met, or not given;
    this needs nothing of the provider, the spool or the checkpoint. *)
Theorem download_checked sched w x w' :
  Download openRange o sched w = (Ok (Some x), w') →
  ∃ file, t_spool (w_db w') = Some (NFile file)
    ∧ x = mkResult (o_Path o) (stringsUpperHex (sha1 file)) (stringsUpperHex (sha1 (hash_prefix o file))) (o_Size o)
    ∧ (o_ExpectedSHA1 o = "" ∨ equalFoldASCII (o_ExpectedSHA1 o) (stringsUpperHex (sha1 file)) = true).
Proof.
  intros Hrun. cut (wp (Download openRange o sched) w checked_result).
  { intros Hwp. exact (wp_elim _ _ _ _ _ Hwp Hrun x eq_refl). }
  clear. assert (∀ e w', checked_result (Err e) w') as Herr by done.
  unfold Download. destruct (_ || _); [done|].
  apply wp_bind, wp_load_any. intros [m|e] c; [|done].
  apply wp_bind, wp_query; [done|]. intros y n _. apply wp_bind.
  assert (∀ m, wp (_ ← exec (λ t, (tt, match t_spool t with None => set_spool [] t | Some _ => t end));
      _ ← exec (λ t, (tt, set_spool (truncate (Z.to_nat (o_Size o)) (spool_bytes t)) t));
      fetch_and_verify openRange o sched m) (mkWorld n (mkTransfer (t_spool (w_db w)) c)) checked_result) as Hm.
  2: { destruct y as [[]|]; [apply Hm|apply Herr..|apply Hm]. }
  clear m. intros m. apply wp_bind, wp_exec; [done|]. intros n1. apply wp_bind, wp_exec; [done|]. intros n2.
  apply fetch_checked. eexists. reflexivity.
Qed.

Lemma scan_total segments :
  (∀ i n, segments !! i = Some n → in_range o i ∧ n = segment_length o i) →
  ∃ downloaded pending, scan_segments o segments = Ok (downloaded, pending).
Proof.
  intros Hseg. unfold scan_segments. generalize (0%Z, @nil Z). generalize (seqZ 0 (totalSegments o)).
  intros l. induction l as [|i l IH]; intros [n p]; simpl; [eauto|].
  destruct (segments !! i) as [m|] eqn:E; [|apply IH]. destruct (Hseg i m E) as [_ ->].
  rewrite Z.eqb_refl. apply IH.
Qed.

Lemma outside_none segments :
  (∀ i n, segments !! i = Some n → in_range o i ∧ n = segment_length o i) → outside o segments = [].
Proof.
  intros Hseg. unfold outside. apply elem_of_nil_inv. intros i [Hi Hin]%list_elem_of_filter.
  apply list_elem_of_fmap in Hin as ((j & n) & -> & Hjn). apply elem_of_map_to_list in Hjn.
  destruct (Hseg j n Hjn) as [Hr _]. unfold in_range in Hr. simpl in *. lia.
Qed.

Lemma verify_succeeds src (w : World (Transfer C)) :
  (∀ n, env_fault n = None) →
  o_ExpectedSHA1 o = "" ∨ equalFoldASCII (o_ExpectedSHA1 o) (stringsUpperHex (sha1 src)) = true →
  t_spool (w_db w) = Some (NFile src) → wp (verify_spool o) w (λ r _, ∃ x, r = Ok (Some x)).
Proof.
  intros Hnf Hexp Hf. unfold verify_spool, Hashes. wp_run; no_faults Hnf; try done; [|eauto].
  simplify_eq/=. bools. unfold spool_bytes in *. rewrite Hf in *. destruct Hexp as [?|Hexp]; [done|congruence].
Qed.

(** The fetch from a spool of the right size, along a schedule that ends calmly. *)
Lemma fetch_succeeds src sched segments file c downloaded pending w :
  valid_options o → length src = Z.to_nat (o_Size o) → faithful openRange src → (∀ n, env_fault n = None) →
  o_ExpectedSHA1 o = "" ∨ equalFoldASCII (o_ExpectedSHA1 o) (stringsUpperHex (sha1 src)) = true →
  (∀ i n, segments !! i = Some n → in_range o i ∧ n = segment_length o i) →
  scan_segments o segments = Ok (downloaded, pending) →
  length file = Z.to_nat (o_Size o) → recorded_ok o src file (ck_view c) →
  (∀ i n, segments !! i = Some n → ck_view c !! i = Some n) →
  w_db w = mkTransfer (Some (NFile file)) c →
  finished (run_schedule openRange o sched (start_workers o file pending c downloaded false)) = true →
  calm o (run_schedule openRange o sched (start_workers o file pending c downloaded false)) →
  wp (fetch_and_verify openRange o sched segments) w (λ r _, ∃ x, r = Ok (Some x)).
Proof.
  intros Hv Hl Hfaith Hnf Hexp Hseg Hscan Hlen Hrecorded Hsub HW Hfin Hcalm.
  assert (∀ i, i ∈ pending ↔ in_range o i ∧ segments !! i = None) as Hp by (by eapply (scan_ok openRange o src)).
  assert (∀ w2, t_spool (w_db w2) = Some (NFile src) → wp (verify_spool o) w2 (λ r (_ : World (Transfer C)), ∃ x, r = Ok (Some x))) as Hverify
    by (intros w2; by apply verify_succeeds).
  unfold fetch_and_verify. apply wp_bind, wp_lift. rewrite Hscan. apply wp_bind. rewrite outside_none by done.
  apply wp_ret. apply wp_bind, wp_query; [intros; no_faults Hnf; done|]. intros [] n3 _. apply wp_bind.
  unfold fetch_pending. case_bool_decide as Hpend.
  - apply wp_bind. unfold wp at 1, await_workers. simpl. rewrite HW. simpl. unfold spool_bytes. simpl. rewrite Hfin. simpl.
    pose proof Hcalm as [-> -> _]. simpl. apply wp_bind, wp_query; [intros; no_faults Hnf; done|]. intros [] n4 _. apply wp_ret. apply Hverify.
    simpl. do 2 f_equal. apply (finished_file o src Hv Hl); [|done|by destruct Hcalm..].
    apply run_inv; [done..|]. by eapply start_inv.
  - apply wp_ret. apply Hverify. simpl. rewrite HW. simpl. do 2 f_equal.
    assert (pending = []) as -> by (destruct pending; simpl in *; [done|lia]). by eapply start_nothing.
Qed.

(** What the checkpoint records is complete in the truncated spool. *)
Lemma truncated_recorded src t :
  valid_options o → length src = Z.to_nat (o_Size o) → spool_sound o src t → (t_spool t = None ∨ ∃ file, t_spool t = Some (NFile file)) →
  (∀ i n, ck_view (t_checkpoint t) !! i = Some n → in_range o i ∧ n = segment_length o i) →
  recorded_ok o src (truncate (Z.to_nat (o_Size o)) (spool_bytes t)) (ck_view (t_checkpoint t)).
Proof.
  intros Hv Hl Hs [Hsp|[f Hsp]] Hrec.
  - unfold spool_sound in Hs. rewrite Hsp in Hs. rewrite Hs. intros i m. by rewrite lookup_empty.
  - assert (spool_sound o src (set_spool (truncate (Z.to_nat (o_Size o)) (spool_bytes t)) t)) as Ht by (apply (truncate_sound o src Hv); eauto).
    unfold spool_sound in Ht. simpl in Ht.
    intros i m Hi. destruct (Hrec i m Hi) as [Hin ->]. split; [done|]. split; [done|]. by apply (Ht i _ Hi).
Qed.

(** C35: A download completes when nothing fails: with a provider that
    answers every range in full, a checkpoint that works and records only
    complete segments, a system without faults and an expected SHA-1 that is
    absent or the source's, some schedule makes [Download] return its result. *)
Theorem download_succeeds src w :
  valid_options o → o_Path o ≠ "" → length src = Z.to_nat (o_Size o) → faithful openRange src →
  full_answers openRange o → saves_succeed → (∀ c, is_ok (ck_Load c).1 = true) → (∀ n, env_fault n = None) →
  spool_sound o src (w_db w) → (t_spool (w_db w) = None ∨ ∃ file, t_spool (w_db w) = Some (NFile file)) →
  (∀ i n, ck_view (t_checkpoint (w_db w)) !! i = Some n → in_range o i ∧ n = segment_length o i) →
  o_ExpectedSHA1 o = "" ∨ equalFoldASCII (o_ExpectedSHA1 o) (stringsUpperHex (sha1 src)) = true →
  ∃ sched x w', Download openRange o sched w = (Ok (Some x), w').
Proof.
  intros Hv Hpath Hl Hfaith Hfull Hsave Hload Hnf Hs Hspool Hrec Hexp.
  destruct (ck_Load (t_checkpoint (w_db w))) as [lr c] eqn:Hck.
  assert (lr = Ok (ck_view (t_checkpoint (w_db w)))) as ->.
  { pose proof (Hload (t_checkpoint (w_db w))) as Hok. rewrite Hck in Hok. destruct lr as [m|]; [|done].
    f_equal. by eapply ck_load_ok. }
  set (segments := match t_spool (w_db w) with Some (NFile _) => ck_view (t_checkpoint (w_db w)) | _ => ∅ end).
  assert (∀ i n, segments !! i = Some n → in_range o i ∧ n = segment_length o i) as Hseg.
  { unfold segments. intros i n. destruct (t_spool (w_db w)) as [[]|]; first [apply Hrec|by rewrite lookup_empty]. }
  destruct (scan_total segments Hseg) as (downloaded & pending & Hscan).
  set (file := truncate (Z.to_nat (o_Size o)) (spool_bytes (w_db w))).
  assert (∀ i, i ∈ pending ↔ in_range o i ∧ segments !! i = None) as Hp by (by eapply scan_ok).
  destruct (calm_finishes openRange o Hv (start_workers o file pending c downloaded false)) as (sched & Hfin & Hcalm);
    [done|done|apply start_sane; [done|by intros i [? _]%Hp]| |].
  { split; [done|done|]. intros x i a n b Hx. by apply lookup_replicate in Hx as [? _]. }
  exists sched. destruct (Download openRange o sched w) as [r w'] eqn:Hrun.
  cut (∃ x, r = Ok (Some x)); [intros [x ->]; eauto|].
  refine (wp_elim _ _ (λ r _, ∃ x, r = Ok (Some x)) _ _ _ Hrun). clear Hrun r w'.
  unfold Download. pose proof Hv as (H0' & H1' & H2' & H3' & H4' & _).
  destruct (_ || _) eqn:Hbad; [exfalso; apply not_false_iff_true in Hbad; apply Hbad;
    rewrite !orb_false_iff, bool_decide_eq_false, !Z.ltb_ge, Z.leb_gt; done|].
  apply wp_bind. unfold wp at 1, on_checkpoint. rewrite Hck. simpl.
  apply wp_bind, wp_query; [intros; no_faults Hnf; done|]. intros y n [= <-]. simpl. apply wp_bind.
  assert (wp (_ ← exec (λ t, (tt, match t_spool t with None => set_spool [] t | Some _ => t end));
      _ ← exec (λ t, (tt, set_spool (truncate (Z.to_nat (o_Size o)) (spool_bytes t)) t));
      fetch_and_verify openRange o sched segments) (mkWorld n (mkTransfer (t_spool (w_db w)) c))
      (λ r _, ∃ x, r = Ok (Some x))) as Hm.
  2: { destruct Hspool as [Hsp|[f Hsp]]; unfold segments in Hm; rewrite Hsp in *; exact Hm. }
  apply wp_bind, wp_exec; [intros; no_faults Hnf|]. intros n1. apply wp_bind, wp_exec; [intros; no_faults Hnf|]. intros n2.
  match goal with |- wp _ ?W _ => assert (w_db W = mkTransfer (Some (NFile file)) c) as HW; [|set (w1 := W) in *; clearbody w1] end.
  { unfold file. simpl. destruct Hspool as [Hsp|[f Hsp]]; rewrite Hsp; simpl; unfold set_spool, spool_bytes; simpl; by rewrite Hsp. }
  assert (ck_view c = ck_view (t_checkpoint (w_db w))) as Hview by (by eapply ck_load_view).
  apply (fetch_succeeds src sched segments file c downloaded pending); try done; [apply length_truncate|..].
  - rewrite Hview. by apply truncated_recorded.
  - rewrite Hview. unfold segments. intros i m. destruct (t_spool (w_db w)) as [[]|]; first [done|by rewrite lookup_empty].
Qed.

End Properties.

(** ** Samples *)

(** A checkpoint that is its map, for the examples. *)
#[export] Instance memory_checkpoint : Checkpoint Segments := {
  ck_Load m := (Ok m, m);
  ck_Save i n m := (Ok tt, <[i := n]> m)
}.
#[local] Obligation Tactic := simpl; intros; simplify_eq; auto.
#[export] Program Instance memory_laws : CheckpointLaws Segments := { ck_view m := m }.

(** Any function serves as a digest in the examples. *)
Definition sample_hash : Hash := {| sha1 l := take 4 l |}.

Definition sample_source : list ascii := chars "ABCDEFG".
Definition serve (n : nat) (offset len : Z) : res body :=
  Ok (mkBody (take (Z.to_nat len) (drop (Z.to_nat offset) sample_source)) None None).
Definition sample_options : DownloadOptions := mkOptions "/spool/k.part" "movie.mkv" 7 "" 3 2 2 2.

Lemma serve_faithful : faithful serve sample_source.
Proof.
  intros n offset len b [= <-] j Hj Hlen. simpl. rewrite lookup_take_lt by lia. by rewrite lookup_drop.
Qed.

Lemma serve_full : full_answers serve sample_options.
Proof.
  intros n offset len H0 H1 H2. eexists. split; [reflexivity|]. simpl. split; [|done].
  rewrite length_take, length_drop. simpl in *. lia.
Qed.

Lemma sample_valid : valid_options sample_options.
Proof. unfold valid_options. simpl. lia. Qed.

(** Worker [w] on a segment of three, then on one of one byte. *)
Definition chunks (w n : nat) : list event := replicate n (ReadChunk w None None).
Definition fetch (w n : nat) : list event := [Received w; Opened w] ++ chunks w n ++ [Closed w None; Saved w].

(** The two connections interleaved. *)
Definition sample_schedule : list event :=
  [Received 0; Received 1; Opened 1; Opened 0; ReadChunk 0 None None; ReadChunk 1 None None; ReadChunk 0 None None;
   Closed 0 None; Saved 0] ++ fetch 0 1 ++ [ReadChunk 1 None None; Closed 1 None; Saved 1; Quit 1; Quit 0].

Definition no_spool : Transfer Segments := mkTransfer None ∅.
Definition sample_world : World (Transfer Segments) := mkWorld 0 no_spool.

Lemma download_resumable_witness :
  let run := @Download Segments _ serve sample_options quiet sample_hash sample_schedule sample_world in
  run.1 = Ok (Some (mkResult "/spool/k.part" "41424344" "41424344" 7))
  ∧ t_spool (w_db run.2) = Some (NFile sample_source).
Proof.
  intros run. assert (run.1 = Ok (Some (mkResult "/spool/k.part" "41424344" "41424344" 7))) as Hrun by (vm_compute; reflexivity).
  split; [exact Hrun|].
  destruct (@download_resumable Segments _ _ quiet sample_hash serve sample_options sample_source sample_schedule
    sample_world run.1 run.2) as [_ Hok].
  - exact sample_valid.
  - reflexivity.
  - exact serve_faithful.
  - reflexivity.
  - apply surjective_pairing.
  - by destruct (Hok _ Hrun).
Defined.

Lemma download_exclusive_witness :
  let d := run_schedule serve sample_options (take 4 sample_schedule)
             (start_workers sample_options (zero_bytes 7) [0%Z; 1%Z] (∅ : Segments) 0 false) in
  d_file d !! 6 = Some nul ∧ (∀ w1 w2 i a1 n1 ph1 a2 n2 ph2, d_workers d !! w1 = Some (Running i a1 n1 ph1) →
     d_workers d !! w2 = Some (Running i a2 n2 ph2) → w1 = w2).
Proof.
  intros d. destruct (download_exclusive serve sample_options (zero_bytes 7) [0%Z; 1%Z] (∅ : Segments) 0 (take 4 sample_schedule))
    as [He Hf].
  - exact sample_valid.
  - apply (bool_decide_unpack _). vm_compute. exact I.
  - intros i Hi. unfold in_range. change (totalSegments sample_options) with 3%Z.
    rewrite !elem_of_cons, elem_of_nil in Hi. lia.
  - reflexivity.
  - split; [|exact He]. unfold d. rewrite (Hf 2%Z 6); [reflexivity| |split; [apply Z.leb_le|apply Z.ltb_lt]; reflexivity].
    rewrite !elem_of_cons, elem_of_nil. lia.
Defined.

Lemma download_terminates_witness :
  ∃ d, run_all serve sample_options sample_schedule (start_workers sample_options (zero_bytes 7) [0%Z; 1%Z; 2%Z] (∅ : Segments) 0 false) = Some d
    ∧ (Z.of_nat (length sample_schedule) ≤ 28)%Z ∧ (finished d = false → ∃ ev, is_Some (step serve sample_options d ev)).
Proof.
  eexists. split; [vm_compute; reflexivity|]. apply (download_terminates serve sample_options (zero_bytes 7) [0%Z; 1%Z; 2%Z] (∅ : Segments) 0).
  - exact sample_valid.
  - intros i Hi. unfold in_range. change (totalSegments sample_options) with 3%Z.
    rewrite !elem_of_cons, elem_of_nil in Hi. lia.
  - vm_compute. reflexivity.
Defined.

Lemma download_checked_witness :
  let run := @Download Segments _ serve sample_options quiet sample_hash sample_schedule sample_world in
  run.1 = Ok (Some (mkResult "/spool/k.part" "41424344" "41424344" 7))
  ∧ ∃ file, t_spool (w_db run.2) = Some (NFile file).
Proof.
  intros run. assert (run.1 = Ok (Some (mkResult "/spool/k.part" "41424344" "41424344" 7))) as Hrun by (vm_compute; reflexivity).
  split; [exact Hrun|].
  destruct (@download_checked Segments _ quiet sample_hash serve sample_options sample_schedule sample_world
    (mkResult "/spool/k.part" "41424344" "41424344" 7) run.2) as (file & Hf & _).
  - rewrite <-Hrun. apply surjective_pairing.
  - exists file. exact Hf.
Defined.

Lemma download_succeeds_witness :
  ∃ sched x w', @Download Segments _ serve sample_options quiet sample_hash sched sample_world = (Ok (Some x), w').
Proof.
  apply (@download_succeeds Segments _ _ quiet sample_hash serve sample_options sample_source sample_world).
  - exact sample_valid.
  - discriminate.
  - reflexivity.
  - exact serve_faithful.
  - exact serve_full.
  - intros i n c. reflexivity.
  - intros c. reflexivity.
  - intros n. reflexivity.
  - reflexivity.
  - left. reflexivity.
  - intros i n Hi. simpl in Hi. rewrite lookup_empty in Hi. discriminate Hi.
  - left. reflexivity.
Defined.

(** The checkpoint of a spool that is gone (the worker's commit removes the spool
    before it removes the checkpoint) survives the next download, which forgets it
    only for itself: stopped after one segment, it leaves a spool full of zero
    bytes and a checkpoint that calls every segment complete, and the download
    after that returns, without an expected SHA-1, a file that is not the source. *)
Theorem missing_spool_corrupts :
  let stale : Transfer Segments := mkTransfer None (<[0%Z := 3%Z]> (<[1%Z := 3%Z]> {[ 2%Z := 1%Z ]})) in
  let run1 := @Download Segments _ serve sample_options quiet sample_hash (fetch 0 2) (mkWorld 0 stale) in
  let run2 := @Download Segments _ serve sample_options quiet sample_hash [] run1.2 in
  faithful serve sample_source ∧ run1.1 = Ok None
  ∧ (∃ x, run2.1 = Ok (Some x))
  ∧ t_spool (w_db run2.2) = Some (NFile (chars "ABC" ++ zero_bytes 4)).
Proof.
  split; [exact serve_faithful|]. split; [vm_compute; reflexivity|]. split; [eexists|]; vm_compute; reflexivity.
Qed.
