(* ===== verification/Publish.v ===== *)
(** Publishing a verified spool to the mounted destination
    ([src/internal/transfer/publish.go]).

    Copying reads the spool in buffers; the bytes read are those the spool held
    when it was opened.  [unix.Access] is the [writable] flag of a directory. *)
From Stdlib Require Import Ascii.
From S2P Require Import Prelude GoStrings GoPath Sql Protocol FileSys.

Section Publish.
Context `{Env} `{Host}.
Abbreviation Io := (M Files).

(** [regularFileOfSize]. *)
Definition regularFileOfSize (path : string) (size : Z) : Io bool :=
  info ← attempt (lstat path);
  match info with
  | Err e => if is_not_exist e then mret false else throw e
  | Ok (NFile data) =>
      if Z.eqb (Z.of_nat (length data)) size then mret true
      else throw (ErrText (path +:+ " has an unexpected type or size"))
  | Ok _ => throw (ErrText (path +:+ " has an unexpected type or size"))
  end.

Definition healthCanary : string := ".embymedia-health-canary".
Definition staging : string := "_待整理".

(** [unix.Statfs]. *)
Definition free_bytes (path : string) : Io Z :=
  query (λ _, '(bavail, bsize) ← statfs path; Ok (wrap64 (wrap64 bavail * wrap64 bsize))).

Definition CheckDestination (mountRoot destination : string) (requiredFreeBytes : Z) : Io unit :=
  root ← lift (abs_path mountRoot);
  clean ← lift (CleanDestination destination);
  info ← attempt (lstat (join_path [root; healthCanary]));
  _ ← match info with
      | Err e => throw (ErrWrap "CloudDrive2 mount canary is unavailable: " e)
      | Ok (NFile _) => mret tt
      | Ok _ => throw (ErrWrap "CloudDrive2 mount canary is unavailable: " (ErrText "canary is not a regular file"))
      end;
  exists_ ← wrap "NAS worker canary identity is invalid: " (regularFileOfSize (join_path [root; staging; WorkerCanaryName]) 0);
  _ ← (if negb exists_ then throw (ErrText "NAS worker canary is unavailable") else mret tt);
  directory ← lift (confinedPath root clean);
  info ← lstat directory;
  match info with
  | NDir writable =>
      _ ← (if writable then query (λ _, Ok tt)
           else throw (ErrWrap "CloudDrive2 destination is not writable: " (ErrText "permission denied")));
      if Z.ltb 0 requiredFreeBytes then
        free ← free_bytes directory;
        if Z.ltb free requiredFreeBytes then
          throw (ErrText ("CloudDrive2 destination has " +:+ pretty free +:+ " free bytes; "
                          +:+ pretty requiredFreeBytes +:+ " required"))
        else mret tt
      else mret tt
  | _ => throw (ErrText "CloudDrive2 destination is not a plain directory")
  end.

Context `{Ctx}.

(** [source.Read]. *)
Definition read_chunk : Io unit := query (λ _, Ok tt).

(** [copyContext]: the bytes written, and the error.  [source] is what is left to
    read, [fuel] bounds the rounds. *)
Fixpoint copyContext (fuel : nat) (destination : string) (source : list ascii) (buffer : nat) (written : Z) : Io (Z * option error) :=
  match fuel with
  | O => mret (written, Some (ErrText "unreachable"))
  | S fuel =>
      cancelled ← attempt ctx_err;
      match cancelled with
      | Err e => mret (written, Some e)
      | Ok _ =>
          read ← attempt read_chunk;
          match read with
          | Err e => mret (written, Some e)
          | Ok _ =>
              let count := take buffer source in
              if bool_decide (count = []) then mret (written, None) else
              wrote ← attempt (append destination count);
              match wrote with
              | Err e => mret (written, Some e)
              | Ok _ => copyContext fuel destination (drop buffer source) buffer (written + Z.of_nat (length count))%Z
              end
          end
      end
  end.

Definition bufferSize : nat := Z.to_nat (2 ^ 20).

(** One round for every byte, and the one that meets the end. *)
Definition copy_all (buffer : nat) (destination : string) (source : list ascii) : Io (Z * option error) :=
  copyContext (S (length source)) destination source buffer 0.

(** From the moment the destination is clear: [os.Open(spoolPath)] to the end. *)
Definition write_final (buffer : nat) (spoolPath finalPath cleanName : string) (size : Z) : Io unit :=
  source ← read_file spoolPath;
  _ ← create_exclusive finalPath;
  '(written, copyErr) ← copy_all buffer finalPath source;
  syncErr ← attempt sync;
  closeErr ← attempt close;
  let failure : option error :=
    match copyErr, syncErr, closeErr with
    | Some e, _, _ => Some e
    | None, _, _ => if negb (Z.eqb written size) then
        Some (ErrText ("CloudDrive2 wrote " +:+ pretty written +:+ " of " +:+ pretty size +:+ " bytes"))
        else match syncErr, closeErr with Err e, _ => Some e | Ok _, Err e => Some e | Ok _, Ok _ => None end
    end in
  match failure with
  | Some e => _ ← try_remove finalPath; throw e
  | None =>
      info ← lstat finalPath;
      match info with
      | NFile data =>
          if Z.eqb (Z.of_nat (length data)) size then mret tt
          else _ ← try_remove finalPath;
               throw (ErrText ("CloudDrive2 reported " +:+ pretty (length data) +:+ " of " +:+ pretty size +:+ " bytes for " +:+ cleanName))
      | _ => _ ← try_remove finalPath;
             throw (ErrText ("CloudDrive2 reported an unexpected type for " +:+ cleanName))
      end
  end.

Definition Publish_with (buffer : nat) (spoolPath mountRoot destination name : string) (size : Z) (replace : bool) : Io unit :=
  cleanDestination ← lift (CleanDestination destination);
  cleanName ← lift (CleanFileName name);
  _ ← CheckDestination mountRoot cleanDestination size;
  root ← lift (abs_path mountRoot);
  directory ← lift (confinedPath root cleanDestination);
  let finalPath := join_path [directory; cleanName] in
  if replace then
    _ ← wrap ("remove stale destination " +:+ cleanName +:+ ": ") (remove_if_exists finalPath);
    write_final buffer spoolPath finalPath cleanName size
  else
    exists_ ← wrap "same-name destination conflict: " (regularFileOfSize finalPath size);
    if exists_ : bool then mret tt else write_final buffer spoolPath finalPath cleanName size.

Definition Publish (spoolPath mountRoot destination name : string) (size : Z) (replace : bool) : Io unit :=
  Publish_with bufferSize spoolPath mountRoot destination name size replace.

End Publish.

(** * Lemmas *)

Section PublishLemmas.
Context `{Env} `{Host} `{Ctx}.
Implicit Types w : World Files.

Lemma regular_spec path size w :
  wp (regularFileOfSize path size) w (λ r w', w_db w' = w_db w ∧
    match r with
    | Ok true => ∃ data, w_db w !! path = Some (NFile data) ∧ Z.of_nat (length data) = size
    | Ok false => w_db w !! path = None
    | Err _ => True
    end).
Proof.
  unfold regularFileOfSize, lstat. apply wp_bind, wp_attempt, wp_query; simpl.
  - intros e n He. destruct (is_not_exist e) eqn:Hne; (split; [done|]); [|done].
    destruct He as [(? & ? & _ & ->)|He]; [done|]. by destruct (w_db w !! path).
  - intros x n Hx. destruct (w_db w !! path) as [y|]; [|done]. injection Hx as ->.
    destruct x; try by split. destruct (Z.eqb_spec (Z.of_nat (length data)) size); wp_run; eauto.
Qed.

(** Checking a destination changes nothing. *)
Lemma check_destination_db mountRoot destination required w :
  wp (CheckDestination mountRoot destination required) w (λ r w', w_db w' = w_db w).
Proof.
  unfold CheckDestination, lstat, free_bytes, regularFileOfSize, lstat.
  repeat (first [wp_step|match goal with |- wp (match ?x with _ => _ end) _ _ => destruct x eqn:? end
    |match goal with |- context [match ?x with Ok _ => _ | Err _ => _ end] => destruct x eqn:? end]; simpl in * ); done.
Qed.

Lemma copy_spec fuel dest source buffer w old :
  w_db w !! dest = Some (NFile old) → 0 < buffer → length source < fuel →
  wp (copyContext fuel dest source buffer (Z.of_nat (length old))) w (λ r w',
    only_touches dest (w_db w) (w_db w') ∧
    ∃ k n e, r = Ok (n, e) ∧ w_db w' !! dest = Some (NFile (old ++ take k source))
      ∧ n = Z.of_nat (length (old ++ take k source)) ∧ (e = None → take k source = source)).
Proof.
  intros Hd Hbuf. revert source w old Hd. induction fuel as [|fuel IH]; intros source w old Hd Hfuel; [lia|].
  assert (∀ w1 (e : option error), w_db w1 = w_db w → (e = None → source = []) →
    only_touches dest (w_db w) (w_db w1) ∧ ∃ k n e', Ok (Z.of_nat (length old), e) = Ok (n, e')
      ∧ w_db w1 !! dest = Some (NFile (old ++ take k source))
      ∧ n = Z.of_nat (length (old ++ take k source)) ∧ (e' = None → take k source = source)) as Hstop.
  { intros w1 e -> He. split; [done|]. exists 0, (Z.of_nat (length old)), e. rewrite take_0, app_nil_r.
    split; [done|]. split; [done|]. split; [done|]. intros Hn. by rewrite (He Hn). }
  cbn [copyContext]. apply wp_bind, wp_attempt, wp_ctx_err; [intros; apply wp_ret; by apply Hstop|]. intros n0.
  apply wp_bind, wp_attempt. unfold read_chunk. apply wp_query; [intros; apply wp_ret; by apply Hstop|]. intros [] n1 _. simpl.
  case_bool_decide as Hempty.
  { apply Hstop; [done|]. intros _. destruct source; [done|]. destruct buffer; [lia|done]. }
  apply wp_bind, wp_attempt. eapply wp_mono; [by apply (append_spec dest _ old)|]. simpl.
  intros r w1 [Ht Ho]. destruct r as [[]|e]; simpl; [|by apply (Hstop w1 (Some e))].
  assert (0 < length (take buffer source)) as Hpos.
  { destruct (take buffer source); [done|]. simpl. lia. }
  replace (Z.of_nat (length old) + Z.of_nat (length (take buffer source)))%Z
    with (Z.of_nat (length (old ++ take buffer source))) by (rewrite length_app; lia).
  eapply wp_mono; [apply (IH (drop buffer source) w1 (old ++ take buffer source) Ho)|].
  { rewrite length_drop. rewrite length_take in Hpos. lia. }
  intros r w2 (Ht2 & k & n & e & -> & Hf & Hn & He). simpl in *.
  split; [by eapply only_touches_trans|]. exists (buffer + k), n, e.
  assert (take (buffer + k) source = take buffer source ++ take k (drop buffer source)) as ->.
  { rewrite <-(take_drop buffer source) at 1. destruct (decide (buffer ≤ length source)).
    - rewrite take_app_add'; [done|]. rewrite length_take. lia.
    - rewrite drop_ge by lia. rewrite !app_nil_r, take_nil, app_nil_r. rewrite !take_ge; [done|..]; rewrite ?length_take; lia. }
  rewrite <-!app_assoc in *. split; [done|]. split; [done|]. split; [done|].
  intros Hn2. rewrite (He Hn2). apply take_drop.
Qed.

(** The state of the target after [write_final]. *)
Lemma write_final_spec buffer spool F cleanName size w :
  0 < buffer →
  wp (write_final buffer spool F cleanName size) w (λ r w',
    only_touches F (w_db w) (w_db w') ∧
    (is_Some (w_db w !! F) → w_db w' = w_db w ∧ is_ok r = false) ∧
    match r with
    | Ok _ => ∃ data, w_db w !! spool = Some (NFile data) ∧ w_db w' !! F = Some (NFile data) ∧ Z.of_nat (length data) = size
    | Err _ => (∀ n, env_fault n = None) → w_db w' !! F = w_db w !! F
    end).
Proof.
  intros Hbuf. unfold write_final, read_file, sync, close. apply wp_bind, wp_query; [by intros|].
  intros source n0 Hsrc. destruct (w_db w !! spool) as [[data| | |]|] eqn:Hspool; try done. injection Hsrc as ->.
  rewrite <-Hspool. apply wp_bind. eapply wp_mono; [apply create_spec|]. simpl. intros r w1 [Hs1 Hc].
  destruct r as [[]|e]; [|by rewrite Hc]. destruct Hc as [Habs Hnew]. apply wp_bind. unfold copy_all.
  eapply wp_mono; [apply (copy_spec _ F source buffer w1 []); [done|done|lia]|].
  intros r w2 (Hs2 & k & written & copyErr & -> & Hf & Hn & Hcomplete). simpl in *.
  assert (only_touches F (w_db w) (w_db w2)) as Hs2' by (by eapply only_touches_trans).
  apply wp_bind, wp_attempt. eapply wp_mono; [apply noop_spec|]. intros sy w3 Hs3.
  apply wp_bind, wp_attempt. eapply wp_mono; [apply noop_spec|]. intros cl w4 Hs4.
  assert (w_db w4 = w_db w2) as Hw4 by congruence.
  assert (∀ e w5, w_db w5 = w_db w2 → wp (_ ← try_remove F; throw e) w5 (λ (r : res unit) w',
    only_touches F (w_db w) (w_db w') ∧ (is_Some (w_db w !! F) → w_db w' = w_db w ∧ is_ok r = false) ∧
    match r with
    | Ok _ => ∃ data, w_db w !! spool = Some (NFile data) ∧ w_db w' !! F = Some (NFile data) ∧ Z.of_nat (length data) = size
    | Err _ => (∀ n, env_fault n = None) → w_db w' !! F = w_db w !! F
    end)) as Hgive.
  { intros e w5 Hs5. unfold try_remove. apply wp_bind, wp_bind, wp_attempt.
    apply wp_remove; [intros e' n He'|intros n Hex]; simpl;
      (split; [rewrite Hs5; eauto using only_touches_trans with files|]);
      (split; [rewrite Habs; by intros [? ?]|]).
    - intros Hnf. rewrite Hs5 in *. destruct He' as [Hfe|[[_ Hno]|[_ [? Hno]]]]; [by destruct (no_fault_error _ Hnf Hfe)|congruence..].
    - intros _. simpl. by rewrite lookup_delete_eq, Habs. }
  destruct copyErr as [e|]; [by apply Hgive|]. rewrite (Hcomplete eq_refl) in *.
  destruct (Z.eqb_spec written size) as [Hsize|]; simpl; [|by apply Hgive].
  destruct sy as [?|e]; [|by apply Hgive]. destruct cl as [?|e]; [|by apply Hgive].
  apply wp_bind, wp_lstat.
  - intros e n He. simpl. rewrite Hw4. split; [done|]. split; [rewrite Habs; by intros [? ?]|]. intros Hnf.
    destruct He as [Hfe|[_ Hno]]; [by destruct (no_fault_error _ Hnf Hfe)|]. rewrite Hw4 in Hno. congruence.
  - intros x n Hx. rewrite Hw4, Hf in Hx. injection Hx as <-. subst size written.
    rewrite Z.eqb_refl. apply wp_ret. simpl. rewrite Hw4.
    split; [done|]. split; [rewrite Habs; by intros [? ?]|]. by exists source.
Qed.

Lemma only_touches_same F fs fs' : only_touches F fs fs' → fs' !! F = fs !! F → fs' = fs.
Proof. intros Ho HF. apply map_eq. intros q. destruct (decide (q = F)) as [->|]; [done|by apply Ho]. Qed.

(** Removing a stale file first. *)
Lemma remove_stale_spec prefix F w :
  wp (wrap prefix (remove_if_exists F)) w (λ r w',
    only_touches F (w_db w) (w_db w') ∧ (is_ok r = true → w_db w' !! F = None)).
Proof.
  unfold remove_if_exists. apply wp_wrap, wp_bind, wp_attempt, wp_remove; [intros e n He|intros n Hex]; simpl.
  - destruct (is_not_exist e) eqn:Hne; simpl; (split; [done|]); [intros _|done].
    destruct He as [(? & ? & _ & ->)|[[_ ?]|[b Hb]]]; [done|done|congruence].
  - split; [auto with files|]. intros _. apply lookup_delete_eq.
Qed.

(** What [Publish] leaves at its final path. *)
Definition publish_post (spool F : string) (size : Z) (replace : bool) (fs : Files) (r : res unit) (fs' : Files) : Prop :=
  only_touches F fs fs'
  ∧ (replace = false → is_Some (fs !! F) → fs' = fs)
  ∧ match r with
    | Ok _ => ∃ data, fs' !! F = Some (NFile data) ∧ Z.of_nat (length data) = size ∧
        (fs !! spool = Some (NFile data) ∨ replace = false ∧ fs !! F = Some (NFile data))
    | Err _ => replace = false → (∀ n, env_fault n = None) → fs' = fs
    end.

Lemma Publish_with_spec buffer spool mountRoot destination name size replace d n root w :
  0 < buffer → CleanDestination destination = Ok d → CleanFileName name = Ok n → abs_path mountRoot = Ok root →
  wp (Publish_with buffer spool mountRoot destination name size replace) w (λ r w',
    publish_post spool (join_path [join_path [root; d]; n]) size replace (w_db w) r (w_db w')).
Proof.
  intros Hbuf Hd Hn Hroot. set (F := join_path [join_path [root; d]; n]). unfold publish_post.
  unfold Publish_with. rewrite Hd, Hn. apply wp_bind, wp_lift, wp_bind, wp_lift, wp_bind.
  eapply wp_mono; [apply check_destination_db|]. intros [[]|e] w1 Hs1; simpl; [|by rewrite Hs1].
  apply wp_bind, wp_lift. rewrite Hroot. apply wp_bind, wp_lift.
  destruct (confinedPath root d) as [directory|] eqn:Hc; simpl; [|by rewrite Hs1].
  assert (directory = join_path [root; d]) as -> by (unfold confinedPath in Hc; destruct (inside _ _); congruence).
  destruct replace.
  - apply wp_bind. eapply wp_mono; [apply remove_stale_spec|]. intros r w2 [Hs2 Hr].
    rewrite Hs1 in Hs2. destruct r as [[]|e]; [|split; [done|split; [done|by intros]]].
    specialize (Hr eq_refl). eapply wp_mono; [by apply write_final_spec|]. intros r w3 (Hs3 & _ & Hok).
    split; [by eapply only_touches_trans|]. split; [done|]. destruct r; [|by intros].
    destruct Hok as (data & Hsp & Hf & Hlen). exists data. split; [done|]. split; [done|]. left.
    rewrite <-Hs2; [done|]. intros ->. congruence.
  - apply wp_bind, wp_wrap. eapply wp_mono; [apply regular_spec|]. intros r w2 [Hs2 Hr]. simpl.
    assert (w_db w2 = w_db w) as Hs2' by congruence.
    destruct r as [[]|e]; simpl; [|clear Hr|by rewrite Hs2'].
    + apply wp_ret. simpl. rewrite Hs2'. split; [done|]. split; [done|]. destruct Hr as (data & Hf & Hlen). rewrite Hs1 in Hf. exists data. eauto.
    + eapply wp_mono; [by apply write_final_spec|]. rewrite Hs2'. intros r w3 (Hs3 & Hex & Hok). split; [done|].
      split; [intros _ Hs; by apply Hex|]. destruct r.
      * destruct Hok as (data & Hsp & Hf & Hlen). exists data. eauto.
      * intros _ Hnf. eapply only_touches_same; [done|by apply Hok].
Qed.

(** Publishing is exact and safe. It never touches a path other
    than the final name in the confined destination; without [replace] it never
    changes a node already there; when it succeeds, the final name is a regular
    file of exactly the announced size, holding the bytes of the spool (or,
    without [replace], it already was such a file); and when it fails on a system
    without faults, whether the context was cancelled, the spool had another size
    or the destination was refused, the file system is as it was. *)
Theorem Publish_exact buffer spool mountRoot destination name size replace d n root w r w' :
  0 < buffer → CleanDestination destination = Ok d → CleanFileName name = Ok n → abs_path mountRoot = Ok root →
  Publish_with buffer spool mountRoot destination name size replace w = (r, w') →
  let F := join_path [join_path [root; d]; n] in
  only_touches F (w_db w) (w_db w')
  ∧ (replace = false → is_Some (w_db w !! F) → w_db w' = w_db w)
  ∧ match r with
    | Ok _ => ∃ data, w_db w' !! F = Some (NFile data) ∧ Z.of_nat (length data) = size ∧
        (w_db w !! spool = Some (NFile data) ∨ replace = false ∧ w_db w !! F = Some (NFile data))
    | Err _ => replace = false → (∀ n, env_fault n = None) → w_db w' = w_db w
    end.
Proof.
  intros Hbuf Hd Hn Hroot Hrun.
  exact (wp_elim _ _ _ _ _ (Publish_with_spec buffer spool _ _ _ size replace d n root w Hbuf Hd Hn Hroot) Hrun).
Qed.

End PublishLemmas.

(** ** A sample *)

Definition sample_host : Host := {| cwd := Ok "/"; statfs := λ _, Ok (1000, 4096)%Z |}.
Definition never_done : Ctx := {| ctx_done := λ _, false |}.
Definition sample_files : World Files := mkWorld 0 (
  <["/mnt/.embymedia-health-canary" := NFile []]> (
  <[join_path ["/mnt"; staging; WorkerCanaryName] := NFile []]> (
  <["/mnt/tv" := NDir true]> {["/spool/k.part" := NFile (chars "ABCDE")]}))).

Lemma Publish_exact_witness :
  let run := @Publish_with quiet sample_host never_done 2 "/spool/k.part" "/mnt" "tv" "e1.mkv" 5 false sample_files in
  run.1 = Ok tt ∧ only_touches "/mnt/tv/e1.mkv" (w_db sample_files) (w_db run.2)
  ∧ ∃ data, w_db run.2 !! "/mnt/tv/e1.mkv" = Some (NFile data) ∧ Z.of_nat (length data) = 5%Z.
Proof.
  intros run. assert (run.1 = Ok tt) as Hrun by (vm_compute; reflexivity). split; [exact Hrun|].
  destruct (@Publish_exact quiet sample_host never_done 2 "/spool/k.part" "/mnt" "tv" "e1.mkv" 5 false "tv" "e1.mkv" "/mnt"
    sample_files run.1 run.2) as (Ht & _ & Hok).
  - lia.
  - vm_compute. reflexivity.
  - vm_compute. reflexivity.
  - vm_compute. reflexivity.
  - apply surjective_pairing.
  - rewrite Hrun in Hok. destruct Hok as (data & Hf & Hlen & _). split; [exact Ht|]. exists data. split; [exact Hf|exact Hlen].
Defined.
