(* ===== verification/Worker.v ===== *)
(** The NAS transfer worker ([src/cmd/transfer-worker/main.go]): one request,
    served on the local spool and the mounted destination.

    The request is already decoded.  The privileged helper, the provider and the
    codec of the checkpoint are parameters; the advisory lock is the set of keys
    some other process holds.  Starting the HTTP client and the signal handling
    of [main] are not modelled. *)
From Stdlib Require Import Ascii.
From S2P Require Import Prelude GoStrings GoPath Sql Protocol FileSys Checkpoint Download Publish.

Definition defaultSegmentSize : Z := 10 * 2 ^ 20.

(** [limitedOutput.Write] on the data kept so far: what is kept, and the count
    reported to the writer. *)
Definition limited_write (data value : list ascii) : list ascii * nat :=
  let limit := 8192 in
  let accepted := Nat.min (length value) (limit - length data) in
  (data ++ take accepted value, length value).

(** The worker's surroundings: the files, the events written to standard output,
    the source keys other processes hold. *)
Record State := mkWorkerState { wk_files : Files; wk_out : list Event; wk_locked : gset string }.

Section Worker.
Context `{Env} `{Host} `{Ctx} `{Hash} `{Codec}.
Context (grant : string → res unit) (openRange : nat → Z → Z → res body).
Abbreviation Wk := (M State).

(** A file system operation of the worker. *)
Definition on_files {A} (m : M Files A) : Wk A := λ w,
  let '(r, w1) := m (mkWorld (w_tick w) (wk_files (w_db w))) in
  (r, mkWorld (w_tick w1) (mkWorkerState (w_db w1) (wk_out (w_db w)) (wk_locked (w_db w)))).

(** [emit]. *)
Definition emit (type_ phase : string) (downloaded size : Z) (sha pre : string) : Wk unit :=
  exec (λ s, (tt, mkWorkerState (wk_files s)
    (wk_out s ++ [Build_Event ProtocolVersion type_ phase downloaded size sha pre ""]) (wk_locked s))).

Definition ensureAccess (helper destination : string) : Wk unit :=
  if bool_decide (helper = "") then mret tt
  else wrap "grant NAS transfer destination access: " (lift (grant destination)).

Definition checkSpool (directory : string) (required : Z) : Wk unit :=
  on_files (
    _ ← mkdir_all directory;
    free ← free_bytes directory;
    if Z.ltb free required then
      throw (ErrText ("worker spool has " +:+ pretty free +:+ " free bytes; " +:+ pretty required +:+ " required"))
    else mret tt).

(** [SourceKey] ([checkpoint.go]). *)
Definition hex_lower (l : list ascii) : string := to_lower (stringsUpperHex l).
Definition SourceKey (accountID sourceFileID : string) : string :=
  hex_lower (sha1 (chars (accountID +:+ nul_string +:+ sourceFileID))).

(** [HashPath] ([download.go]). *)
Definition HashPath (path : string) : M Files string :=
  data ← read_file path; mret (stringsUpperHex (sha1 data)).

(** Opening the lock file creates it. *)
Definition lock_source (path key : string) : Wk unit :=
  _ ← on_files (exec (λ fs, (tt, match fs !! path with None => <[path := NFile []]> fs | Some _ => fs end)));
  query (λ s, if bool_decide (key ∈ wk_locked s) then Err (ErrText "source transfer is already running") else Ok tt).

(** [transfer.Download] with the file checkpoint, on the worker's files. *)
Definition download_to (o : DownloadOptions) (c : FileCheckpoint) (sched : list event) : Wk (option DownloadResult) := λ w,
  let s := w_db w in
  let t := mkTransfer (wk_files s !! o_Path o) (mkWorld (w_tick w) (wk_files s), c) in
  let '(r, w1) := Download openRange o sched (mkWorld (w_tick w) t) in
  let files := w_db (t_checkpoint (w_db w1)).1 in
  let files := match t_spool (w_db w1) with Some n => <[o_Path o := n]> files | None => files end in
  (r, mkWorld (w_tick w1) (mkWorkerState files (wk_out s) (wk_locked s))).

Definition commit (spoolPath : string) (c : FileCheckpoint) : Wk unit :=
  _ ← on_files (remove_if_exists spoolPath);
  '(_, r) ← on_files (Remove c);
  _ ← lift r;
  emit "completed" "committed" 0 0 "" "".

Definition publish (mountRoot helper spoolPath : string) (r : Request) : Wk unit :=
  _ ← ensureAccess helper (Destination r);
  _ ← on_files (CheckDestination mountRoot (Destination r) (Size r));
  actual ← on_files (HashPath spoolPath);
  _ ← (if negb (equal_fold actual (ExpectedSHA1 r)) then throw (ErrText "worker spool identity changed before publish")
       else mret tt);
  _ ← emit "progress" "uploading" (Size r) (Size r) (ExpectedSHA1 r) "";
  _ ← on_files (Publish spoolPath mountRoot (Destination r) (Name r) (Size r) (Replace r));
  emit "completed" "published" (Size r) (Size r) (ExpectedSHA1 r) "".

Definition download (spoolDir spoolPath : string) (minimumFree : Z) (c : FileCheckpoint) (r : Request) (sched : list event)
    : Wk (option unit) :=
  _ ← checkSpool spoolDir (wrap64 (Size r + minimumFree));
  let o := mkOptions spoolPath (Name r) (Size r) (ExpectedSHA1 r) defaultSegmentSize (Connections r) 4 (2 ^ 20) in
  result ← download_to o c sched;
  match result with
  | None => mret None
  | Some x => _ ← emit "completed" "downloaded" (Size r) (Size r) (r_SHA1 x) (r_PreSHA1 x); mret (Some tt)
  end.

Definition check (spoolDir mountRoot helper : string) (r : Request) : Wk unit :=
  _ ← checkSpool spoolDir (RequiredFreeBytes r);
  _ ← ensureAccess helper (Destination r);
  _ ← on_files (CheckDestination mountRoot (Destination r) (RequiredFreeBytes r));
  emit "completed" "checked" 0 0 "" "".

(** [run] from [request.Validate()] on; [None]: the process stopped in a download. *)
Definition run (spoolDir mountRoot accessHelper : string) (minimumFree : Z) (r : Request) (sched : list event)
    : Wk (option unit) :=
  if negb (is_abs spoolDir) || negb (is_abs mountRoot)
     || (negb (bool_decide (accessHelper = "")) && negb (is_abs accessHelper)) || Z.ltb minimumFree 0 then
    throw (ErrText "worker spool, mount root, access helper, and minimum free space are invalid")
  else
  _ ← lift (Validate r);
  if bool_decide (Operation r = OperationCheck) then
    _ ← check spoolDir mountRoot accessHelper r; mret (Some tt)
  else
  let key := SourceKey (AccountID r) (SourceFileID r) in
  _ ← on_files (mkdir_all spoolDir);
  _ ← lock_source (join_path [spoolDir; key +:+ ".lock"]) key;
  let spoolPath := join_path [spoolDir; key +:+ ".part"] in
  let c := NewFileCheckpoint (join_path [spoolDir; key +:+ ".json"]) key (SourceRevision r) (Size r) defaultSegmentSize in
  if bool_decide (Operation r = OperationCommit) then _ ← commit spoolPath c; mret (Some tt)
  else if bool_decide (Operation r = OperationPublish) then _ ← publish mountRoot accessHelper spoolPath r; mret (Some tt)
  else download spoolDir spoolPath minimumFree c r sched.

End Worker.

(** * Properties *)

Section WorkerProperties.
Context `{Env} `{Host} `{Ctx} `{Hash} `{Codec}.
Context (grant : string → res unit) (openRange : nat → Z → Z → res body).
Implicit Types w : World State.

Lemma wp_worker_files {A} (m : M Files A) w (Q : res A → World State → Prop) :
  wp m (mkWorld (w_tick w) (wk_files (w_db w))) (λ r f,
    Q r (mkWorld (w_tick f) (mkWorkerState (w_db f) (wk_out (w_db w)) (wk_locked (w_db w))))) →
  wp (on_files m) w Q.
Proof. unfold wp, on_files. by destruct (m _). Qed.

Lemma ensure_access_files helper destination w :
  wp (ensureAccess grant helper destination) w (λ r w', w_db w' = w_db w).
Proof. unfold ensureAccess. wp_run; done. Qed.

Lemma hash_path_spec path (f : World Files) :
  wp (HashPath path) f (λ r f', w_db f' = w_db f ∧
    ∀ s, r = Ok s → ∃ data, w_db f !! path = Some (NFile data) ∧ s = stringsUpperHex (sha1 data)).
Proof.
  unfold HashPath, read_file. apply wp_bind, wp_query; [by intros|]. intros data n Hd. apply wp_ret. split; [done|].
  intros s [= <-]. exists data. destruct (w_db f !! path) as [[]|]; simplify_eq. done.
Qed.

Lemma emit_files type_ phase a b c e w :
  wp (emit type_ phase a b c e) w (λ r w', wk_files (w_db w') = wk_files (w_db w)).
Proof. unfold emit. wp_run; done. Qed.

(** What a publication leaves, from the files [fs] it starts with. *)
Definition published (spoolPath mountRoot : string) (r : Request) (fs fs' : Files) : Prop :=
  ∃ d n data spooled,
    CleanDestination (Destination r) = Ok d ∧ CleanFileName (Name r) = Ok n ∧
    let F := join_path [join_path [clean mountRoot; d]; n] in
    only_touches F fs fs'
    ∧ fs !! spoolPath = Some (NFile spooled)
    ∧ equal_fold (stringsUpperHex (sha1 spooled)) (ExpectedSHA1 r) = true
    ∧ fs' !! F = Some (NFile data) ∧ Z.of_nat (length data) = Size r
    ∧ (data = spooled ∨ Replace r = false ∧ fs !! F = Some (NFile data)).

Lemma publish_spec mountRoot helper spoolPath r w :
  is_abs mountRoot = true → (∃ d, CleanDestination (Destination r) = Ok d) → (∃ n, CleanFileName (Name r) = Ok n) →
  wp (publish grant mountRoot helper spoolPath r) w (λ x w',
    x = Ok tt → published spoolPath mountRoot r (wk_files (w_db w)) (wk_files (w_db w'))).
Proof.
  intros Hroot [d Hd] [n Hn]. unfold publish.
  apply wp_bind. eapply wp_mono; [apply ensure_access_files|]. intros [[]|] w1 H1'; [|done].
  apply wp_bind, wp_worker_files. eapply wp_mono; [apply check_destination_db|]. simpl. intros [[]|] w2 H2'; [|done].
  apply wp_bind, wp_worker_files. eapply wp_mono; [apply hash_path_spec|]. simpl. intros [actual|] w3 [H3' Hh]; [|done].
  destruct (Hh _ eq_refl) as (spooled & Hsp & ->). apply wp_bind.
  destruct (equal_fold _ _) eqn:Hfold; simpl; [|done].
  apply wp_bind. eapply wp_mono; [apply emit_files|]. simpl. intros [[]|] w4 H4'; [|done].
  apply wp_bind, wp_worker_files. unfold Publish.
  assert (0 < bufferSize) as Hbuf by (unfold bufferSize; lia).
  assert (abs_path mountRoot = Ok (clean mountRoot)) as Habs by (unfold abs_path; by rewrite Hroot).
  eapply wp_mono; [by apply (Publish_with_spec bufferSize _ _ _ _ _ _ d n (clean mountRoot))|].
  simpl. intros [[]|] w5 Hpost; [|done]. eapply wp_mono; [apply emit_files|]. simpl. intros x w6 H6 _. rewrite H6.
  assert (wk_files (w_db w4) = wk_files (w_db w)) as Hfs by (rewrite H4', H3', H2', H1'; done).
  rewrite Hfs in Hpost. destruct Hpost as (Ht & _ & data & Hf & Hlen & Hor).
  exists d, n, data, spooled. split; [done|]. split; [done|]. split; [done|].
  assert (wk_files (w_db w) !! spoolPath = Some (NFile spooled)) as Hsp' by (rewrite <-H1', <-H2'; done).
  split; [done|]. split; [done|]. split; [done|]. split; [done|]. destruct Hor as [Hor|Hor]; [left; congruence|by right].
Qed.

(** A publication reported as complete is the verified spool. When
    the worker finishes a publish request, the spool's SHA-1 is the expected one,
    and the file at the final path below the mount root is a regular file of the
    announced size with the spool's bytes (or, without [replace], one of that size
    that was there before); apart from it and the lock file nothing changed. *)
Theorem worker_publish spoolDir mountRoot helper minimumFree r sched w w' :
  run grant openRange spoolDir mountRoot helper minimumFree r sched w = (Ok (Some tt), w') →
  Operation r = OperationPublish →
  let key := SourceKey (AccountID r) (SourceFileID r) in
  let lock := join_path [spoolDir; key +:+ ".lock"] in
  ∃ fs, only_touches lock (wk_files (w_db w)) fs
    ∧ published (join_path [spoolDir; key +:+ ".part"]) mountRoot r fs (wk_files (w_db w')).
Proof.
  intros Hrun Hop key lock. revert Hrun. unfold run.
  destruct (_ || _) eqn:Hguard; [done|]. bools. rewrite Hop.
  destruct (Validate r) as [[]|] eqn:Hval; [|done].
  assert ((∃ d, CleanDestination (Destination r) = Ok d) ∧ ∃ n, CleanFileName (Name r) = Ok n) as [Hd Hn].
  { unfold Validate in Hval. rewrite Hop in Hval.
    change (bool_decide (OperationPublish = OperationCheck)) with false in Hval.
    change (bool_decide (OperationPublish = OperationCommit)) with false in Hval.
    change (bool_decide (OperationPublish = OperationDownload)) with false in Hval.
    change (bool_decide (OperationPublish = OperationPublish)) with true in Hval. ok_inv. eauto. }
  change (bool_decide (OperationPublish = OperationCheck)) with false.
  change (bool_decide (OperationPublish = OperationCommit)) with false.
  change (bool_decide (OperationPublish = OperationPublish)) with true. cbv zeta. fold key lock.
  intros Hrun. refine (wp_elim _ w (λ x w', x = Ok (Some tt) → ∃ fs, only_touches lock (wk_files (w_db w)) fs
    ∧ published (join_path [spoolDir; key +:+ ".part"]) mountRoot r fs (wk_files (w_db w'))) _ _ _ Hrun eq_refl). clear Hrun w'.
  apply wp_bind, wp_lift, wp_bind, wp_worker_files. eapply wp_mono; [apply noop_spec|]. simpl. intros [[]|] w1 H1'; [|done].
  apply wp_bind. eapply wp_mono with (P := λ x w', only_touches lock (wk_files (w_db w)) (wk_files (w_db w'))).
  { unfold lock_source. apply wp_bind, wp_worker_files, wp_exec; simpl; rewrite H1'; [done|]. intros n.
    apply wp_query; simpl; intros; destruct (wk_files (w_db w) !! lock); auto with files. }
  intros [[]|] w2 H2'; [|done]. apply wp_bind. eapply wp_mono; [by apply publish_spec|].
  intros [[]|] w3 H3'; [|done]. intros _. exists (wk_files (w_db w2)). split; [done|]. by apply H3'.
Qed.

End WorkerProperties.

(** ** A sample *)

Definition sample_request : Request := {|
  Version := 1; Operation := "publish"; JobID := "t:f"; AccountID := "q1"; SourceFileID := "f1"; SourceRevision := "7";
  Name := "e1.mkv"; Size := 0; ExpectedSHA1 := EmptySHA1; QuarkCookie := ""; Destination := "tv"; Replace := false;
  Connections := 0; RequiredFreeBytes := 0 |}.

(** A digest for the example: the SHA-1 of the empty file on every input. *)
Definition empty_digest : Hash := {| sha1 _ := flat_map (λ n, [byte n])
  [218; 57; 163; 238; 94; 107; 75; 13; 50; 85; 191; 239; 149; 96; 24; 144; 175; 216; 7; 9] |}.

Definition worker_files : World State := mkWorld 0 (mkWorkerState (
  <["/mnt/.embymedia-health-canary" := NFile []]> (
  <[join_path ["/mnt"; staging; WorkerCanaryName] := NFile []]> (
  <["/mnt/tv" := NDir true]> {["/spool/da39a3ee5e6b4b0d3255bfef95601890afd80709.part" := NFile []]}))) [] ∅).

Definition serve_nothing (n : nat) (offset len : Z) : res body := Err (ErrText "no provider").

Lemma worker_publish_witness :
  let out := @run quiet sample_host never_done empty_digest sample_codec (λ _, Ok tt) serve_nothing "/spool" "/mnt" "" 0
               sample_request [] worker_files in
  out.1 = Ok (Some tt) ∧ ∃ fs, @published empty_digest "/spool/da39a3ee5e6b4b0d3255bfef95601890afd80709.part" "/mnt" sample_request fs (wk_files (w_db out.2)).
Proof.
  intros out. assert (out.1 = Ok (Some tt)) as Hout by (vm_compute; reflexivity). split; [exact Hout|].
  destruct (@worker_publish quiet sample_host never_done empty_digest sample_codec (λ _, Ok tt) serve_nothing "/spool" "/mnt" "" 0
    sample_request [] worker_files out.2) as (fs & _ & Hp).
  - rewrite <-Hout. apply surjective_pairing.
  - reflexivity.
  - exists fs. exact Hp.
Defined.
