(* ===== verification/Cron.v ===== *)
(** The schedule manager ([src/internal/service/cron.go]): registering schedules
    with the cron library, the callbacks it dispatches, running, changing and
    deleting schedules.

    [robfig/cron] is the class [CronLib]: what parsing an expression yields (the
    next activation after a time), and decoding the stored parameters as a JSON
    object is [decode_params].  The library hands out increasing entry IDs; a
    callback of an entry that was removed meanwhile may still be waiting, so
    callbacks of every entry ever added can happen.  The manager's mutex makes
    each operation one step. *)
From S2P Require Import Prelude GoStrings Sql Schema TaskStore TaskProofs ImportStore Accounts Payload Queue.

Class CronLib := {
  cron_parse : string → option (Z → Z);
  decode_params : string → res payload
}.

(** The variables a callback closes over. *)
Record closure := mkClosure { cl_id : string; cl_task : ScheduledTask.t; cl_payload : payload }.

Record CronManager := mkCron {
  cr_db : Database;
  cr_entryMap : gmap string Z;
  cr_active : gset Z;                (* entries of the cron library *)
  cr_closures : gmap Z closure;      (* of all entries ever added *)
  cr_next : Z                        (* the next entry ID *)
}.

Definition with_db (d : Database) (c : CronManager) : CronManager :=
  mkCron d (cr_entryMap c) (cr_active c) (cr_closures c) (cr_next c).
Definition with_map (m : gmap string Z) (a : gset Z) (c : CronManager) : CronManager :=
  mkCron (cr_db c) m a (cr_closures c) (cr_next c).
Definition with_closure (e : Z) (cl : closure) (c : CronManager) : CronManager :=
  mkCron (cr_db c) (cr_entryMap c) (cr_active c) (<[e := cl]> (cr_closures c)) (cr_next c).

(** The task with the outcome of a callback, its next activation, its status. *)
Definition with_outcome (at_ : Z) (status error result : string) (next : option Z) (t : ScheduledTask.t) : ScheduledTask.t :=
  ScheduledTask.mk (ScheduledTask.Type_ t) (ScheduledTask.Name t) (ScheduledTask.CronExpr t) status (ScheduledTask.Progress t)
    (ScheduledTask.Params t) result error (Some at_) next (ScheduledTask.CreatedAt t) (ScheduledTask.UpdatedAt t).
Definition with_next_run (next : option Z) (t : ScheduledTask.t) : ScheduledTask.t :=
  ScheduledTask.mk (ScheduledTask.Type_ t) (ScheduledTask.Name t) (ScheduledTask.CronExpr t) (ScheduledTask.Status t)
    (ScheduledTask.Progress t) (ScheduledTask.Params t) (ScheduledTask.Result t) (ScheduledTask.Error t)
    (ScheduledTask.LastRunAt t) next (ScheduledTask.CreatedAt t) (ScheduledTask.UpdatedAt t).
Definition with_status (status : string) (t : ScheduledTask.t) : ScheduledTask.t :=
  ScheduledTask.mk (ScheduledTask.Type_ t) (ScheduledTask.Name t) (ScheduledTask.CronExpr t) status
    (ScheduledTask.Progress t) (ScheduledTask.Params t) (ScheduledTask.Result t) (ScheduledTask.Error t)
    (ScheduledTask.LastRunAt t) (ScheduledTask.NextRunAt t) (ScheduledTask.CreatedAt t) (ScheduledTask.UpdatedAt t).

Section Cron.
Context `{Env} `{Urls} `{CronLib}.
Abbreviation Cr := (M CronManager).

Definition on_db {A} (m : M Database A) : Cr A := λ w,
  let '(r, w1) := m (mkWorld (w_tick w) (cr_db (w_db w))) in (r, mkWorld (w_tick w1) (with_db (w_db w1) (w_db w))).
Definition modify (f : CronManager → CronManager) : Cr unit := λ w, (Ok tt, mkWorld (w_tick w) (f (w_db w))).
Definition get : Cr CronManager := λ w, (Ok (w_db w), w).

Definition taskPayload (t : ScheduledTask.t) : res payload :=
  p ← (if bool_decide (ScheduledTask.Params t = "") then Ok ∅
       else wrap_err "task params must be a JSON object: " (decode_params (ScheduledTask.Params t)));
  _ ← validateTask (ScheduledTask.Type_ t) p;
  Ok p.

(** [cm.cron.AddFunc]: a new entry with its callback's variables. *)
Definition add_entry (cl : closure) : Cr Z := λ w,
  let c := w_db w in let e := cr_next c in
  (Ok e, mkWorld (w_tick w) (mkCron (cr_db c) (cr_entryMap c) ({[e]} ∪ cr_active c) (<[e := cl]> (cr_closures c)) (e + 1))).

(** [cm.cron.Remove(entryID)] with [delete(cm.entryMap, id)]. *)
Definition drop_entry (e : Z) (id : string) : Cr unit :=
  modify (λ c, with_map (delete id (cr_entryMap c)) (cr_active c ∖ {[e]}) c).

Definition registerTask (id : string) (t : ScheduledTask.t) : Cr unit :=
  p ← lift (taskPayload t);
  match cron_parse (ScheduledTask.CronExpr t) with
  | None => throw (ErrWrap "invalid cron expression: " (ErrText (ScheduledTask.CronExpr t)))
  | Some schedule =>
      e ← add_entry (mkClosure id t p);
      _ ← modify (λ c, with_map (<[id := e]> (cr_entryMap c)) (cr_active c) c);
      n ← now;
      let t := with_next_run (Some (schedule n)) t in
      saved ← attempt (on_db (SaveTask id t));
      match saved with
      | Err err => _ ← drop_entry e id; throw err
      | Ok t => modify (with_closure e (mkClosure id t p))
      end
  end.

(** The callback of entry [e]; [newID] is the ID of the task it queues. *)
Definition callback (e : Z) (newID : string) : Cr unit :=
  c ← get;
  match cr_closures c !! e with
  | None => mret tt
  | Some cl =>
      if negb (bool_decide (cr_entryMap c !! cl_id cl = Some e)) then mret tt else
      n ← now;
      let t := cl_task cl in
      queued ← attempt (on_db (EnqueueScheduled newID (cl_id cl) (ScheduledTask.Type_ t) (cl_payload cl)));
      let next := match cron_parse (ScheduledTask.CronExpr t) with Some schedule => Some (schedule n) | None => None end in
      let t := match queued with
               | Err err => with_outcome n "failed" (error_text err) (ScheduledTask.Result t) next t
               | Ok task => with_outcome n "idle" "" task.1 next t
               end in
      _ ← modify (with_closure e (mkClosure (cl_id cl) t (cl_payload cl)));
      saved ← attempt (on_db (SaveTask (cl_id cl) t));
      match saved with
      | Err _ => mret tt
      | Ok t => modify (with_closure e (mkClosure (cl_id cl) t (cl_payload cl)))
      end
  end.

Definition Start : Cr unit :=
  tasks ← on_db ListTasks;
  m_each (λ row : string * ScheduledTask.t,
    if ScheduledTask.Enabled row.2 && negb (bool_decide (ScheduledTask.CronExpr row.2 = "")) then
      wrap ("restore schedule " +:+ row.1 +:+ ": ") (registerTask row.1 row.2)
    else mret tt) tasks.

(** [RunTask]: the queued task and the schedule as returned to the caller. *)
Definition RunTask (newID id : string) : Cr (task_with_id * ScheduledTask.t) :=
  t ← on_db (GetTask id);
  p ← lift (taskPayload t);
  queued ← on_db (EnqueueScheduled newID id (ScheduledTask.Type_ t) p);
  mret (queued, with_outcome (AsyncTask.CreatedAt queued.2) (ScheduledTask.Status t) "" queued.1 (ScheduledTask.NextRunAt t) t).

(** [ScheduleTask]: [enabled] is the caller's [Enabled] field, [newID] the ID given
    to a schedule without one. *)
Definition ScheduleTask (newID id : string) (enabled : bool) (t : ScheduledTask.t) : Cr ScheduledTask.t :=
  let id := if bool_decide (id = "") then newID else id in
  if bool_decide (ScheduledTask.Name t = "") then throw (ErrText "task name is required") else
  _ ← lift (taskPayload t);
  _ ← (if enabled && bool_decide (cron_parse (ScheduledTask.CronExpr t) = None)
       then throw (ErrWrap "invalid cron expression: " (ErrText (ScheduledTask.CronExpr t))) else mret tt);
  c ← get;
  _ ← (match cr_entryMap c !! id with Some e => drop_entry e id | None => mret tt end);
  if negb enabled then on_db (SaveTask id (with_next_run None (with_status "paused" t)))
  else if bool_decide (ScheduledTask.CronExpr t = "") then throw (ErrText "cron expression is required for enabled task")
  else
    _ ← registerTask id (with_status "idle" t);
    on_db (GetTask id).

Definition DeleteTask (id : string) : Cr unit :=
  found ← attempt (on_db (GetTask id));
  match found with
  | Err _ => throw (ErrText "scheduled task not found")
  | Ok _ =>
      c ← get;
      _ ← (match cr_entryMap c !! id with Some e => drop_entry e id | None => mret tt end);
      on_db (Accounts.DeleteTask id)
  end.

(** ** Reachable states *)

Inductive cron_op :=
| CStart
| CCallback (e : Z) (newID : string)
| CRun (newID id : string)
| CSchedule (newID id : string) (enabled : bool) (t : ScheduledTask.t)
| CDelete (id : string).

Definition run_cron (op : cron_op) : Cr unit :=
  match op with
  | CStart => Start
  | CCallback e newID => callback e newID
  | CRun newID id => _ ← RunTask newID id; mret tt
  | CSchedule newID id enabled t => _ ← ScheduleTask newID id enabled t; mret tt
  | CDelete id => DeleteTask id
  end.

End Cron.

(** * Lemmas *)

Section CronLemmas.
Context `{Env} `{Urls} `{CronLib}.

Lemma wp_cron_db {A} (m : M Database A) (w : World CronManager) (Q : res A → World CronManager → Prop) :
  wp m (mkWorld (w_tick w) (cr_db (w_db w))) (λ r v, Q r (mkWorld (w_tick v) (with_db (w_db v) (w_db w)))) →
  wp (on_db m) w Q.
Proof. unfold wp, on_db. by destruct (m _). Qed.

Lemma wp_modify f (w : World CronManager) (Q : res unit → World CronManager → Prop) :
  Q (Ok tt) (mkWorld (w_tick w) (f (w_db w))) → wp (modify f) w Q.
Proof. done. Qed.

(** What an enqueue does to schedules and tasks: at most one new task, with the
    schedule's ID, and the launch recorded on that schedule. *)
Definition launched_by (id newID : string) (d d' : Database) : Prop :=
  (∀ j, j ≠ id → schedules d' !! j = schedules d !! j)
  ∧ (∀ row', schedules d' !! id = Some row' → ∃ row, schedules d !! id = Some row ∧
       ScheduledTask.Type_ row' = ScheduledTask.Type_ row ∧ ScheduledTask.Params row' = ScheduledTask.Params row ∧
       ScheduledTask.CronExpr row' = ScheduledTask.CronExpr row ∧ ScheduledTask.Status row' = ScheduledTask.Status row)
  ∧ (∀ row, schedules d !! id = Some row → is_Some (schedules d' !! id))
  ∧ (∀ k t, tasks d' !! k = Some t → tasks d !! k = Some t ∨ AsyncTask.ScheduleID t = id).

Lemma launched_by_refl id newID d : launched_by id newID d d.
Proof. split; [done|]. split; [eauto 10|]. split; [eauto|]. intros k t Hk. by left. Qed.

Lemma schedule_persist_effect newID ty p id (w : World Database) :
  wp (persistTask newID ty p id) w (λ r w', launched_by id newID (w_db w) (w_db w') ∧
    match r with Ok x => x.1 = newID | Err _ => True end).
Proof.
  unfold persistTask. apply wp_bind, wp_now. intros t n. apply wp_bind. case_bool_decide as Hid.
  - eapply wp_mono; [apply create_effect|]. simpl. intros [task|e] w'.
    + intros (created & -> & Hno & Hw). apply wp_ret. rewrite Hw. split; [|done]. simpl. split; [done|]. split; [eauto 10|]. split; [eauto|].
      intros k u. simpl. rewrite lookup_insert_Some. intros [[_ <-]|[_ ?]]; [by right|by left].
    + intros Hw. simpl. rewrite Hw. split; [apply launched_by_refl|done].
  - eapply wp_mono; [apply create_scheduled_effect|]. simpl. intros [task|e] w'.
    + intros (created & row & -> & Hno & Hrow & Hw). apply wp_ret. rewrite Hw. split; [|done]. simpl.
      split; [intros j Hj; simpl; by rewrite lookup_insert_ne|]. split.
      { intros row' Hr. simpl in Hr. rewrite lookup_insert_eq in Hr. injection Hr as <-. exists row. done. }
      split; [intros _ _; simpl; rewrite lookup_insert_eq; eauto|].
      intros k u. simpl. rewrite lookup_insert_Some. intros [[_ <-]|[_ ?]]; [by right|by left].
    + intros Hw. simpl. rewrite Hw. split; [apply launched_by_refl|done].
Qed.

Lemma enqueue_effect newID id ty p (w : World Database) :
  wp (EnqueueScheduled newID id ty p) w (λ r w', launched_by id newID (w_db w) (w_db w') ∧
    match r with Ok x => x.1 = newID | Err _ => True end).
Proof.
  unfold EnqueueScheduled, enqueue. apply wp_bind, wp_lift. destruct (validateTask _ _); [|by split; [apply launched_by_refl|]].
  apply wp_bind, wp_lift. destruct (derived_payload _ _); [|by split; [apply launched_by_refl|]]. apply schedule_persist_effect.
Qed.

Lemma save_effect id t (w : World Database) :
  wp (SaveTask id t) w (λ r w', match r with
  | Ok t' => ∃ a b c, t' = ScheduledTask.mk (ScheduledTask.Type_ t) (ScheduledTask.Name t) (ScheduledTask.CronExpr t)
        (ScheduledTask.Status t) (ScheduledTask.Progress t) (ScheduledTask.Params t) (ScheduledTask.Result t)
        (ScheduledTask.Error t) (ScheduledTask.LastRunAt t) (ScheduledTask.NextRunAt t) a b ∧
      w_db w' = set_schedules (<[id := ScheduledTask.mk (ScheduledTask.Type_ t) (ScheduledTask.Name t) (ScheduledTask.CronExpr t)
        (ScheduledTask.Status t) (ScheduledTask.Progress t) (ScheduledTask.Params t) (ScheduledTask.Result t)
        (ScheduledTask.Error t) (ScheduledTask.LastRunAt t) (ScheduledTask.NextRunAt t) c b]> (schedules (w_db w))) (w_db w)
  | Err _ => w_db w' = w_db w
  end).
Proof.
  unfold SaveTask. apply wp_bind, wp_now. intros n m. apply wp_exec; [done|]. intros k. simpl.
  destruct (schedules (w_db w) !! id); eauto 10.
Qed.

(** ** The invariant *)

(** The variables of a registered callback are the stored schedule. *)
Definition captures (cl : closure) (row : ScheduledTask.t) : Prop :=
  ScheduledTask.Type_ (cl_task cl) = ScheduledTask.Type_ row
  ∧ ScheduledTask.Params (cl_task cl) = ScheduledTask.Params row
  ∧ ScheduledTask.CronExpr (cl_task cl) = ScheduledTask.CronExpr row
  ∧ ScheduledTask.Enabled row = true
  ∧ taskPayload (cl_task cl) = Ok (cl_payload cl)
  ∧ is_Some (cron_parse (ScheduledTask.CronExpr row)).

Record cron_inv (c : CronManager) : Prop := {
  ci_next : ∀ e cl, cr_closures c !! e = Some cl → (e < cr_next c)%Z;
  ci_map : ∀ id e, cr_entryMap c !! id = Some e →
    e ∈ cr_active c ∧ ∃ cl row, cr_closures c !! e = Some cl ∧ cl_id cl = id
      ∧ schedules (cr_db c) !! id = Some row ∧ captures cl row
}.

Lemma captures_same cl row row' :
  captures cl row → ScheduledTask.Type_ row' = ScheduledTask.Type_ row → ScheduledTask.Params row' = ScheduledTask.Params row →
  ScheduledTask.CronExpr row' = ScheduledTask.CronExpr row → ScheduledTask.Status row' = ScheduledTask.Status row →
  captures cl row'.
Proof. unfold captures, ScheduledTask.Enabled. intros (? & ? & ? & ? & ? & ?) -> -> -> ->. done. Qed.

Lemma launched_inv id newID c d' :
  cron_inv c → launched_by id newID (cr_db c) d' → cron_inv (with_db d' c).
Proof.
  intros [Hn Hm] (Hne & Hrow & Hsome & _). split; [done|]. intros j e Hj. destruct (Hm j e Hj) as (Ha & cl & row & Hcl & Hid & Hr & Hcap).
  split; [done|]. exists cl. simpl. destruct (decide (j = id)) as [->|Hji].
  - destruct (Hsome row Hr) as [row' Hr']. exists row'. destruct (Hrow row' Hr') as (row0 & Hrow0 & ? & ? & ? & ?).
    assert (row0 = row) as -> by congruence. split; [done|]. split; [done|]. split; [done|]. by eapply captures_same.
  - exists row. rewrite Hne by done. done.
Qed.

Lemma drop_entry_inv e id c :
  cron_inv c → cr_entryMap c !! id = Some e → cron_inv (with_map (delete id (cr_entryMap c)) (cr_active c ∖ {[e]}) c).
Proof.
  intros [Hn Hm] Hid. split; [done|]. simpl. intros j f Hj. apply lookup_delete_Some in Hj as [Hne Hj].
  destruct (Hm j f Hj) as (Ha & cl & row & Hcl & Hidc & Hr & Hcap). split; [|eauto 10].
  apply elem_of_difference. split; [done|]. intros ->%elem_of_singleton.
  destruct (Hm id e Hid) as (_ & cl' & row' & Hcl' & Hidc' & _). congruence.
Qed.

(** A row outside the entry map may change freely. *)
Lemma unregistered_inv id rows c :
  cron_inv c → cr_entryMap c !! id = None → (∀ j, j ≠ id → rows !! j = schedules (cr_db c) !! j) →
  cron_inv (with_db (set_schedules rows (cr_db c)) c).
Proof.
  intros [Hn Hm] Hid Hrows. split; [done|]. simpl. intros j e Hj.
  destruct (Hm j e Hj) as (Ha & cl & row & Hcl & Hidc & Hr & Hcap). split; [done|]. exists cl, row.
  rewrite Hrows; [done|]. congruence.
Qed.

(** What an operation leaves of a schedule it is not about. *)
Definition keeps (i : string) (c c' : CronManager) : Prop :=
  cr_entryMap c' !! i = cr_entryMap c !! i ∧ schedules (cr_db c') !! i = schedules (cr_db c) !! i
  ∧ (∀ k t, tasks (cr_db c') !! k = Some t → AsyncTask.ScheduleID t = i → tasks (cr_db c) !! k = Some t).

Lemma keeps_refl i c : keeps i c c.
Proof. done. Qed.
Lemma keeps_trans i c1 c2 c3 : keeps i c1 c2 → keeps i c2 c3 → keeps i c1 c3.
Proof. intros (H1' & H2' & H3') (H4 & H5 & H6). split_and!; [congruence..|eauto]. Qed.

Lemma launched_keeps i id newID c d' : i ≠ id → launched_by id newID (cr_db c) d' → keeps i c (with_db d' c).
Proof.
  intros Hi (Hne & _ & _ & Ht). split_and!; [done|simpl; by apply Hne|]. simpl. intros k t Hk Hs.
  destruct (Ht k t Hk); [done|congruence].
Qed.

(** The state after [c] satisfies the invariant, and [c]'s schedules named by [P] are kept. *)
Definition cron_post (P : string → Prop) (c : CronManager) (w' : World CronManager) : Prop :=
  cron_inv (w_db w') ∧ ∀ i, P i → keeps i c (w_db w').

Lemma register_spec id t (w : World CronManager) :
  cron_inv (w_db w) → ScheduledTask.Enabled t = true →
  wp (registerTask id t) w (λ _ w', cron_post (λ i, i ≠ id) (w_db w) w').
Proof.
  intros Hinv Hen. unfold registerTask. apply wp_bind, wp_lift. destruct (taskPayload t) as [p|e] eqn:Hp; [|by split].
  destruct (cron_parse _) as [schedule|] eqn:Hparse; [|by split].
  apply wp_bind. unfold wp at 1, add_entry. apply wp_bind, wp_modify. apply wp_bind, wp_now. intros n k. simpl.
  set (c := w_db w) in *. set (e := cr_next c).
  apply wp_bind, wp_attempt, wp_cron_db. eapply wp_mono; [apply save_effect|]. simpl. destruct Hinv as [Hn Hm].
  assert (∀ j f, cr_entryMap c !! j = Some f → f ≠ e) as Hfresh.
  { intros j f Hj ->. destruct (Hm j e Hj) as (_ & cl & _ & Hcl & _). specialize (Hn e cl Hcl). unfold e in Hn. lia. }
  intros [t'|err] v.
  - intros (a & b & b0 & -> & Hdb). apply wp_modify. split; simpl; rewrite ?Hdb.
    + split; simpl.
      * intros f cl. rewrite lookup_insert_Some, lookup_insert_Some. intros [[<- _]|[_ [[<- _]|[_ Hcl]]]]; [lia..|].
        specialize (Hn f cl Hcl). lia.
      * intros j f. rewrite lookup_insert_Some. intros [[<- <-]|[Hj Hf]].
        -- split; [set_solver|]. rewrite lookup_insert_eq. eexists _, _. split; [done|]. split; [done|].
           split; [by rewrite lookup_insert_eq|]. split_and!; simpl; try done.
        -- destruct (Hm j f Hf) as (Ha & cl & row & Hcl & Hid & Hr & Hcap). split; [set_solver|]. exists cl, row.
           rewrite !lookup_insert_ne by (first [done|apply not_eq_sym; by eapply Hfresh]). done.
    + intros i Hi. split_and!; simpl; rewrite ?Hdb; simpl; [by rewrite lookup_insert_ne..|done].
  - intros Hdb. unfold drop_entry. apply wp_bind, wp_modify. simpl. rewrite Hdb. split; simpl.
    + split; simpl.
      * intros f cl. rewrite lookup_insert_Some. intros [[<- _]|[_ Hcl]]; [lia|]. specialize (Hn f cl Hcl). lia.
      * intros j f. rewrite lookup_delete_Some. intros [Hj Hf]. rewrite lookup_insert_ne in Hf by done.
        destruct (Hm j f Hf) as (Ha & cl & row & Hcl & Hid & Hr & Hcap). specialize (Hfresh j f Hf). split; [set_solver|]. exists cl, row.
        rewrite lookup_insert_ne by done. done.
    + intros i Hi. split_and!; simpl; [by rewrite lookup_delete_ne, lookup_insert_ne|done..].
Qed.

Lemma callback_spec e newID (w : World CronManager) :
  cron_inv (w_db w) →
  wp (callback e newID) w (λ _ w', cron_post (λ i, cr_entryMap (w_db w) !! i = None) (w_db w) w').
Proof.
  intros Hinv. unfold callback. apply wp_bind. unfold wp at 1, get. simpl.
  destruct (cr_closures (w_db w) !! e) as [cl|] eqn:Hcl; [|by split].
  case_bool_decide as Hmap; simpl; [|by split]. apply wp_bind, wp_now. intros n k. apply wp_bind, wp_attempt, wp_cron_db. simpl.
  eapply wp_mono; [apply enqueue_effect|]. simpl. intros r v [Hl _].
  pose proof (launched_inv (cl_id cl) newID _ _ Hinv Hl) as Hinv1.
  assert (∀ i, cr_entryMap (w_db w) !! i = None → keeps i (w_db w) (with_db (w_db v) (w_db w))) as Hkeep.
  { intros i Hi. eapply launched_keeps; [|done]. congruence. }
  set (c1 := with_db (w_db v) (w_db w)) in *.
  assert (∀ st err res nx, st ≠ "paused" → let t := with_outcome n st err res nx (cl_task cl) in
    wp (_ ← modify (with_closure e (mkClosure (cl_id cl) t (cl_payload cl)));
        saved ← attempt (on_db (SaveTask (cl_id cl) t));
        match saved with
        | Err _ => mret tt
        | Ok t => modify (with_closure e (mkClosure (cl_id cl) t (cl_payload cl)))
        end) (mkWorld (w_tick v) c1) (λ _ w', cron_post (λ i, cr_entryMap (w_db w) !! i = None) (w_db w) w')) as Hsave.
  2: { destruct r as [task|err]; apply Hsave; done. }
  intros st err res_ nx Hst t. apply wp_bind, wp_modify, wp_bind, wp_attempt, wp_cron_db. simpl.
  eapply wp_mono; [apply save_effect|]. simpl. destruct Hinv1 as [Hn Hm].
  destruct (Hm (cl_id cl) e Hmap) as (Ha & cl' & row & Hcl' & _ & Hrow & Hcap).
  assert (cl' = cl) as -> by (unfold c1 in Hcl'; simpl in Hcl'; congruence).
  assert (∀ j f, cr_entryMap c1 !! j = Some f → j ≠ cl_id cl → f ≠ e) as Hother.
  { intros j f Hj Hne ->. destruct (Hm j e Hj) as (_ & cl2 & _ & Hcl2 & Hid2 & _). unfold c1 in *. simpl in *. congruence. }
  intros [t'|err'] w2.
  - intros (a & b & b0 & -> & Hdb). apply wp_modify. split; simpl; rewrite ?Hdb.
    + split; simpl.
      * intros f cl2. rewrite lookup_insert_Some, lookup_insert_Some. intros [[<- _]|[_ [[<- _]|[_ H2]]]]; [by eapply (Hn e cl)..|].
        by eapply Hn.
      * intros j f Hf. destruct (Hm j f Hf) as (Ha2 & cl2 & row2 & Hcl2 & Hid & Hr & Hcap2). split; [done|].
        destruct (decide (j = cl_id cl)) as [->|Hne].
        -- assert (f = e) as -> by (unfold c1 in Hf; simpl in Hf; congruence). rewrite !lookup_insert_eq.
           eexists _, _. split; [done|]. split; [done|]. split; [done|].
           destruct Hcap as (? & ? & ? & ? & ? & ?). split_and!; simpl; try done.
           ++ unfold ScheduledTask.Enabled. simpl. by rewrite bool_decide_false.
           ++ congruence.
        -- exists cl2, row2. pose proof (Hother j f Hf Hne). rewrite !lookup_insert_ne by congruence. done.
    + intros i Hi. eapply keeps_trans; [by apply Hkeep|]. split_and!; simpl; rewrite ?Hdb; simpl; [done| |done].
      rewrite lookup_insert_ne; [done|congruence].
  - intros Hdb. apply wp_ret. split; simpl; rewrite ?Hdb.
    + split; simpl.
      * intros f cl2. rewrite lookup_insert_Some. intros [[<- _]|[_ H2]]; [by eapply (Hn e cl)|by eapply Hn].
      * intros j f Hf. destruct (Hm j f Hf) as (Ha2 & cl2 & row2 & Hcl2 & Hid & Hr & Hcap2). split; [done|].
        destruct (decide (j = cl_id cl)) as [->|Hne].
        -- assert (f = e) as -> by (unfold c1 in Hf; simpl in Hf; congruence). rewrite lookup_insert_eq.
           exists (mkClosure (cl_id cl) t (cl_payload cl)), row. split; [done|]. split; [done|]. split; [done|].
           destruct Hcap as (? & ? & ? & ? & ? & ?). done.
        -- exists cl2, row2. pose proof (Hother j f Hf Hne). rewrite lookup_insert_ne by congruence. done.
    + intros i Hi. eapply keeps_trans; [by apply Hkeep|]. done.
Qed.

Lemma m_fold_inv {D A S} (f : S → A → M D S) l s0 (w : World D) (P : World D → Prop) :
  P w → (∀ s x v, x ∈ l → P v → wp (f s x) v (λ _ v', P v')) → wp (m_fold f l s0) w (λ _ v', P v').
Proof.
  revert s0 w. induction l as [|x l IH]; intros s0 w Hw Hstep; simpl; [done|].
  apply wp_bind. eapply wp_mono; [apply (Hstep s0 x); [by left|done]|]. intros [s1|e] v Hv; [|done].
  apply IH; [done|]. intros. apply Hstep; [by right|done].
Qed.

Lemma with_db_same c : with_db (cr_db c) c = c.
Proof. by destruct c. Qed.

Lemma post_same P (w : World CronManager) n :
  cron_inv (w_db w) → cron_post P (w_db w) (mkWorld n (with_db (cr_db (w_db w)) (w_db w))).
Proof. intros Hinv. split; simpl; rewrite with_db_same; [done|]. by intros. Qed.

Lemma start_spec (w : World CronManager) :
  cron_inv (w_db w) →
  wp Start w (λ _ w', cron_post (λ i, schedules (cr_db (w_db w)) !! i = None) (w_db w) w').
Proof.
  intros Hinv. unfold Start, ListTasks. apply wp_bind, wp_cron_db, wp_query; [intros; by apply post_same|]. simpl. intros rows n [= <-].
  apply m_fold_inv; [by apply post_same|]. intros [] [id t] v Hin [Hv Hk]. simpl.
  apply elem_of_select in Hin as [Hrow _]. destruct (_ && _) eqn:Hen; [|apply wp_ret; by split].
  apply andb_true_iff in Hen as [Hen _]. apply wp_wrap. eapply wp_mono; [by apply register_spec|].
  intros r v' [Hv' Hk']. split; [done|]. intros i Hi. eapply keeps_trans; [by apply Hk|]. apply Hk'. congruence.
Qed.

Lemma run_spec newID id (w : World CronManager) :
  cron_inv (w_db w) →
  wp (RunTask newID id) w (λ _ w', cron_post (λ i, schedules (cr_db (w_db w)) !! i = None) (w_db w) w').
Proof.
  intros Hinv. unfold RunTask, GetTask. apply wp_bind, wp_cron_db, wp_query; [intros; by apply post_same|]. simpl. intros t n Ht.
  destruct (schedules (cr_db (w_db w)) !! id) as [row|] eqn:Hrow; [|done]. injection Ht as ->.
  apply wp_bind, wp_lift. destruct (taskPayload t); [|by apply post_same].
  rewrite with_db_same. apply wp_bind, wp_cron_db. simpl. eapply wp_mono; [apply enqueue_effect|]. simpl. intros r v [Hl _].
  assert (cron_post (λ i, schedules (cr_db (w_db w)) !! i = None) (w_db w) (mkWorld (w_tick v) (with_db (w_db v) (w_db w)))) as Hpost.
  { split; [by eapply launched_inv|]. intros i Hi. eapply launched_keeps; [|done]. congruence. }
  by destruct r.
Qed.

(** Unregistering a schedule, if it is registered. *)
Lemma unregister_spec id (w : World CronManager) :
  cron_inv (w_db w) →
  wp (match cr_entryMap (w_db w) !! id with Some e => drop_entry e id | None => mret tt end) w (λ r w',
    r = Ok tt ∧ cr_entryMap (w_db w') !! id = None ∧ cr_db (w_db w') = cr_db (w_db w) ∧ cron_post (λ i, i ≠ id) (w_db w) w').
Proof.
  intros Hinv. destruct (cr_entryMap (w_db w) !! id) as [e|] eqn:He.
  - apply wp_modify. split; [done|]. split; [simpl; apply lookup_delete_eq|]. split; [done|].
    split; [by apply drop_entry_inv|]. intros i Hi. split_and!; [simpl; by rewrite lookup_delete_ne|done..].
  - apply wp_ret. split; [done|]. split; [done|]. split; [done|]. by split.
Qed.

Lemma schedule_spec newID id enabled t (w : World CronManager) :
  cron_inv (w_db w) →
  wp (ScheduleTask newID id enabled t) w (λ _ w',
    cron_post (λ i, i ≠ (if bool_decide (id = "") then newID else id)) (w_db w) w').
Proof.
  intros Hinv. unfold ScheduleTask. set (key := if bool_decide (id = "") then newID else id).
  destruct (bool_decide (ScheduledTask.Name t = "")); [by split|].
  apply wp_bind, wp_lift. destruct (taskPayload t); [|by split].
  apply wp_bind. destruct (enabled && _); [by split|]. apply wp_ret, wp_bind. unfold wp at 1, get.
  apply wp_bind. eapply wp_mono; [by apply unregister_spec|]. intros r v (-> & Hnone & Hdb & Hv & Hk). destruct enabled; simpl.
  - destruct (bool_decide (ScheduledTask.CronExpr t = "")); [by split|]. apply wp_bind. eapply wp_mono; [by apply register_spec|].
    intros r v2 [Hv2 Hk2]. assert (cron_post (λ i, i ≠ key) (w_db w) v2) as Hpost.
    { split; [done|]. intros i Hi. eapply keeps_trans; [by apply Hk|by apply Hk2]. }
    destruct r as [[]|]; [|done]. apply wp_cron_db. unfold GetTask. apply wp_query; intros; simpl; by rewrite with_db_same.
  - apply wp_cron_db. eapply wp_mono; [apply save_effect|]. simpl. intros [t'|e] v2.
    + intros (? & ? & ? & _ & ->). split; simpl.
      * apply (unregistered_inv key); [done|done|]. intros j Hj. by rewrite lookup_insert_ne.
      * intros i Hi. eapply keeps_trans; [by apply Hk|]. split_and!; simpl; [done|by rewrite lookup_insert_ne|done].
    + intros ->. simpl. rewrite with_db_same. by split.
Qed.

Lemma delete_spec id (w : World CronManager) :
  cron_inv (w_db w) →
  wp (DeleteTask id) w (λ r w', cron_post (λ i, i ≠ id) (w_db w) w' ∧
    (r = Ok tt → cr_entryMap (w_db w') !! id = None ∧ schedules (cr_db (w_db w')) !! id = None
                 ∧ tasks (cr_db (w_db w')) = tasks (cr_db (w_db w)))).
Proof.
  intros Hinv. unfold DeleteTask. apply wp_bind, wp_attempt, wp_cron_db. unfold GetTask.
  apply wp_query; simpl.
  { intros e n _. split; [by apply post_same|done]. }
  rewrite with_db_same. intros row n Hrow. apply wp_bind. unfold wp at 1, get. simpl. apply wp_bind.
  eapply wp_mono; [by apply (unregister_spec id (mkWorld n (w_db w)))|].
  intros r v (-> & Hnone & Hdb & Hv & Hk). apply wp_cron_db. unfold Accounts.DeleteTask. simpl in *.
  apply wp_exec; simpl.
  - intros e m He. split; [|done]. rewrite with_db_same. by split.
  - intros m. split; [|intros _; split; [done|]; split; [apply lookup_delete_eq|by rewrite Hdb]]. split; simpl.
    + apply (unregistered_inv id); [done|done|]. intros j Hj. by rewrite lookup_delete_ne.
    + intros i Hi. eapply keeps_trans; [by apply Hk|]. split_and!; simpl; [done|by rewrite lookup_delete_ne|done].
Qed.

(** Deleting a schedule that is not there changes nothing. *)
Lemma delete_absent id (w : World CronManager) :
  schedules (cr_db (w_db w)) !! id = None → wp (DeleteTask id) w (λ _ w', w_db w' = w_db w).
Proof.
  intros Hno. unfold DeleteTask, GetTask. apply wp_bind, wp_attempt, wp_cron_db, wp_query; simpl; intros; rewrite with_db_same; [done|].
  by rewrite Hno in *.
Qed.

(** The schedule an operation is about, when it may (re)activate it. *)
Definition reschedules (op : cron_op) (id : string) : Prop :=
  match op with CSchedule newID i _ _ => id = (if bool_decide (i = "") then newID else i) | _ => False end.

Lemma op_spec op (w : World CronManager) :
  cron_inv (w_db w) →
  wp (run_cron op) w (λ _ w', cron_inv (w_db w') ∧
    ∀ i, cr_entryMap (w_db w) !! i = None → schedules (cr_db (w_db w)) !! i = None → ¬ reschedules op i →
      keeps i (w_db w) (w_db w')).
Proof.
  intros Hinv. destruct op as [|e newID|newID id|newID id enabled t|id]; simpl.
  - eapply wp_mono; [by apply start_spec|]. intros r v [? Hk]. auto.
  - eapply wp_mono; [by apply callback_spec|]. intros r v [? Hk]. auto.
  - apply wp_forget. eapply wp_mono; [by apply run_spec|]. intros r v [? Hk]. auto.
  - apply wp_forget. eapply wp_mono; [by apply schedule_spec|]. intros r v [? Hk]. auto.
  - destruct (schedules (cr_db (w_db w)) !! id) as [row|] eqn:Hrow.
    + eapply wp_mono; [by apply delete_spec|]. intros r v [[? Hk] _]. split; [done|]. intros i Hm Hs _. apply Hk. congruence.
    + eapply wp_mono; [by apply delete_absent|]. intros r v ->. by split.
Qed.

End CronLemmas.

(** * Properties *)

Definition initial_cron (d : Database) : CronManager := mkCron d ∅ ∅ ∅ 1.

Section CronProperties.
Context `{Urls} `{CronLib}.

Definition cron_step (op : cron_op) (c c' : CronManager) : Prop :=
  ∃ (E : Env) n r w', run_cron op (mkWorld n c) = (r, w') ∧ w_db w' = c'.
Definition cron_any (c c' : CronManager) : Prop := ∃ op, cron_step op c c'.

Lemma cron_step_inv op c c' :
  cron_inv c → cron_step op c c' → cron_inv c' ∧
    ∀ i, cr_entryMap c !! i = None → schedules (cr_db c) !! i = None → ¬ reschedules op i → keeps i c c'.
Proof.
  intros Hinv (E & n & r & w' & Hrun & <-).
  exact (wp_elim _ _ _ _ _ (op_spec op (mkWorld n c) Hinv) Hrun).
Qed.

(** C34: Whatever happens to the schedules (any order of starting,
    dispatched callbacks, manual runs, changes and deletions, with any failure of
    the database), every entry of the entry map is an active entry whose callback
    belongs to that schedule, the schedule exists and is enabled, and the
    operation, parameters and expression the callback captured are the stored
    ones and pass validation. *)
Theorem cron_consistent d c id e :
  rtc cron_any (initial_cron d) c → cr_entryMap c !! id = Some e →
  e ∈ cr_active c ∧ ∃ cl row, cr_closures c !! e = Some cl ∧ cl_id cl = id
    ∧ schedules (cr_db c) !! id = Some row ∧ captures cl row.
Proof.
  intros Hsteps Hid. assert (cron_inv (initial_cron d)) as Hinit by (split; simpl; [intros ??|intros ??]; by rewrite lookup_empty).
  assert (cron_inv c) as Hc; [|by apply Hc].
  clear Hid. revert Hinit. induction Hsteps as [|x y z [op Hop] _ IH]; [done|]. intros Hx.
  apply IH. by apply (cron_step_inv op x y Hx Hop).
Qed.

(** A deleted schedule never runs again. Once [DeleteTask] has
    succeeded, no later event short of scheduling that ID anew, not even a callback
    of its old entry that was already waiting, registers it, stores it or queues
    a task for it. *)
Theorem deleted_schedule_silent `{E : Env} c id n w' c' :
  cron_inv c → DeleteTask id (mkWorld n c) = (Ok tt, w') →
  rtc (λ c1 c2, ∃ op, ¬ reschedules op id ∧ cron_step op c1 c2) (w_db w') c' →
  cr_entryMap c' !! id = None ∧ schedules (cr_db c') !! id = None
  ∧ ∀ k t, tasks (cr_db c') !! k = Some t → AsyncTask.ScheduleID t = id → tasks (cr_db c) !! k = Some t.
Proof.
  intros Hinv Hdel Hsteps.
  destruct (wp_elim _ _ _ _ _ (delete_spec id (mkWorld n c) Hinv) Hdel) as [[Hinv' _] Hok].
  destruct (Hok eq_refl) as (Hm & Hs & Ht). simpl in Ht. rewrite <-Ht. clear Hdel Hok Ht.
  cut (cron_inv c' ∧ keeps id (w_db w') c').
  { intros (_ & H1' & H2' & H3'). rewrite H1', H2'. done. }
  induction Hsteps as [|c1 c2 c3 (op & Hop & Hstep) _ IH]; [by split|].
  destruct (cron_step_inv op c1 c2 Hinv' Hstep) as [Hinv2 Hk]. specialize (Hk id Hm Hs Hop).
  destruct Hk as (Hk1 & Hk2 & Hk3). destruct IH as [Hi3 Hk']; [done|congruence|congruence|].
  split; [done|]. by eapply keeps_trans.
Qed.

End CronProperties.

(** ** A sample: one schedule, created, dispatched and deleted *)

Definition sample_urls : Urls := {| url_parse := λ _, None; url_parse_request := λ _, None |}.
Definition sample_cron : CronLib := {| cron_parse := λ s, if bool_decide (s = "") then None else Some (λ t, (t + 60)%Z);
                                       decode_params := λ _, Ok ∅ |}.
Definition sample_schedule : ScheduledTask.t :=
  ScheduledTask.mk "emby_missing_posters" "posters" "0 0 3 * * *" "" 0 "" "" "" None None 0 0.

Definition scheduled : World CronManager :=
  (@run_cron quiet sample_urls sample_cron (CSchedule "" "s1" true sample_schedule) (mkWorld 0 (initial_cron empty_database))).2.
Definition dispatched : World CronManager := (@run_cron quiet sample_urls sample_cron (CCallback 1 "t1") scheduled).2.

Lemma scheduled_reachable : rtc (@cron_any sample_urls sample_cron) (initial_cron empty_database) (w_db scheduled).
Proof.
  apply rtc_once. exists (CSchedule "" "s1" true sample_schedule), quiet, 0.
  eexists _, _. split; [apply surjective_pairing|reflexivity].
Qed.

Lemma cron_consistent_witness :
  cr_entryMap (w_db scheduled) !! "s1" = Some 1%Z ∧ 1%Z ∈ cr_active (w_db scheduled).
Proof.
  assert (cr_entryMap (w_db scheduled) !! "s1" = Some 1%Z) as Hmap by (vm_compute; reflexivity).
  split; [exact Hmap|].
  destruct (@cron_consistent sample_urls sample_cron empty_database (w_db scheduled) "s1" 1 scheduled_reachable Hmap) as [Ha _].
  exact Ha.
Defined.

Lemma initial_cron_inv `{Urls} `{CronLib} d : cron_inv (initial_cron d).
Proof. split; simpl; [intros ??|intros ??]; by rewrite lookup_empty. Qed.

Lemma sample_step op (w : World CronManager) :
  @cron_step sample_urls sample_cron op (w_db w) (w_db (@run_cron quiet sample_urls sample_cron op w).2).
Proof.
  destruct w as [n c]. exists quiet, n. eexists _, _. split; [apply surjective_pairing|reflexivity].
Qed.

Lemma dispatched_inv : @cron_inv sample_urls sample_cron (w_db dispatched).
Proof.
  eapply (@cron_step_inv sample_urls sample_cron (CCallback 1 "t1") (w_db scheduled)); [|apply sample_step].
  eapply (@cron_step_inv sample_urls sample_cron (CSchedule "" "s1" true sample_schedule) (initial_cron empty_database));
    [apply initial_cron_inv|apply (sample_step _ (mkWorld 0 (initial_cron empty_database)))].
Qed.

Definition deleted : World CronManager := (@DeleteTask quiet "s1" dispatched).2.

Lemma deleted_schedule_silent_witness :
  (AsyncTask.ScheduleID <$> tasks (cr_db (w_db deleted)) !! "t1") = Some "s1"
  ∧ let late := (@run_cron quiet sample_urls sample_cron (CCallback 1 "t2") deleted).2 in
    cr_entryMap (w_db late) !! "s1" = None ∧ schedules (cr_db (w_db late)) !! "s1" = None
    ∧ ∀ k t, tasks (cr_db (w_db late)) !! k = Some t → AsyncTask.ScheduleID t = "s1" →
        tasks (cr_db (w_db dispatched)) !! k = Some t.
Proof.
  split; [vm_compute; reflexivity|]. intros late.
  apply (@deleted_schedule_silent sample_urls sample_cron quiet (w_db dispatched) "s1" (w_tick dispatched) deleted).
  - exact dispatched_inv.
  - transitivity (@DeleteTask quiet "s1" dispatched); [by destruct dispatched|].
    rewrite (surjective_pairing (@DeleteTask quiet "s1" dispatched)). f_equal.
  - apply rtc_once. exists (CCallback 1 "t2"). split; [intros []|apply sample_step].
Defined.
