(* ===== verification/ImportCheckpoint.v ===== *)
(** The download checkpoint of an import on the server
    ([crossDriveCheckpoint] of [src/internal/service/cross_drive_import.go]): the
    second implementation of the interface of [Checkpoint.v], on the segments
    table; the theorems on downloads hold of it too. *)
From S2P Require Import Prelude Sql Schema ImportStore FileSys Checkpoint.

Record crossDriveCheckpoint := mkImportCheckpoint {
  cc_db : World Database; cc_spool : string; cc_taskID : string; cc_owner : string
}.

Definition with_world (w : World Database) (c : crossDriveCheckpoint) : crossDriveCheckpoint :=
  mkImportCheckpoint w (cc_spool c) (cc_taskID c) (cc_owner c).

(** The segments recorded for a spool. *)
Definition spool_segments (d : Database) (spool : string) : Segments :=
  list_to_map (map (λ kr, (kr.1.2, kr.2)) (rows_where (λ k _, bool_decide (k.1 = spool)) (segments d))).

Lemma lookup_spool_segments d spool i : spool_segments d spool !! i = segments d !! (spool, i).
Proof.
  unfold spool_segments. set (l := map _ _).
  assert (∀ n, (i, n) ∈ l ↔ segments d !! (spool, i) = Some n) as Hl.
  { intros n. unfold l. rewrite list_elem_of_fmap. split.
    - intros (((s & j) & m) & Heq & Hin). simpl in Heq. injection Heq as -> ->.
      apply elem_of_rows_where in Hin as [Hs Hd]. simpl in Hd. apply bool_decide_eq_true in Hd as ->. done.
    - intros Hs. exists ((spool, i), n). split; [done|]. apply elem_of_rows_where. split; [done|]. by apply bool_decide_eq_true. }
  assert (NoDup l.*1) as Hnd.
  { unfold l. change (map ?f ?x) with (f <$> x). rewrite <-list_fmap_compose. apply NoDup_fmap_2_strong.
    - intros [[s1 i1] n1] [[s2 i2] n2] H1 H2. simpl. intros <-.
      apply elem_of_rows_where in H1 as [H1 E1], H2 as [H2 E2]. simpl in *. bools. subst. congruence.
    - unfold rows_where. apply NoDup_filter, NoDup_map_to_list. }
  destruct (segments d !! (spool, i)) as [n|] eqn:E.
  - apply elem_of_list_to_map; [done|]. by apply Hl.
  - apply not_elem_of_list_to_map. intros Hin. apply list_elem_of_fmap in Hin as ((j & n) & -> & Hin).
    apply Hl in Hin. congruence.
Qed.

Section ImportCheckpoint.
Context `{Env}.

#[export] Instance cross_drive_checkpoint : Checkpoint crossDriveCheckpoint := {
  ck_Load c := let '(r, w) := ListCrossDriveDownloadSegments (cc_spool c) (cc_db c) in (r, with_world w c);
  ck_Save i n c :=
    let '(r, w) := SaveCrossDriveDownloadSegment (cc_spool c) (cc_taskID c) (cc_owner c) i n (cc_db c) in (r, with_world w c)
}.

Definition import_view (c : crossDriveCheckpoint) : Segments := spool_segments (w_db (cc_db c)) (cc_spool c).

Lemma list_segments_spec spool (w : World Database) :
  wp (ListCrossDriveDownloadSegments spool) w (λ r w', w_db w' = w_db w ∧
    ∀ m, r = Ok m → m = spool_segments (w_db w) spool).
Proof.
  unfold ListCrossDriveDownloadSegments. apply wp_query; [done|]. intros m n [= <-]. split; [done|]. by intros ? [= <-].
Qed.

Lemma save_segment_spec spool taskID owner i n (w : World Database) :
  wp (SaveCrossDriveDownloadSegment spool taskID owner i n) w (λ r w', match r with
    | Ok _ => w_db w' = set_segments (<[(spool, i) := n]> (segments (w_db w))) (w_db w)
    | Err _ => w_db w' = w_db w
    end).
Proof.
  unfold SaveCrossDriveDownloadSegment. apply wp_bind, wp_exec; [done|]. intros m.
  destruct (run_owned taskID owner (w_db w)); simpl; done.
Qed.

Lemma segments_insert d spool i n :
  spool_segments (set_segments (<[(spool, i) := n]> (segments d)) d) spool = <[i := n]> (spool_segments d spool).
Proof.
  apply map_eq. intros j. rewrite lookup_spool_segments. simpl. destruct (decide (j = i)) as [->|Hne].
  - by rewrite !lookup_insert_eq.
  - rewrite !lookup_insert_ne by congruence. by rewrite lookup_spool_segments.
Qed.

#[local] Obligation Tactic := idtac.
#[export] Program Instance cross_drive_checkpoint_laws : CheckpointLaws crossDriveCheckpoint := { ck_view := import_view }.
Next Obligation.
  intros c m c' Hl. unfold ck_Load in Hl. simpl in Hl. pose proof (list_segments_spec (cc_spool c) (cc_db c)) as Hs.
  unfold wp in Hs. destruct (ListCrossDriveDownloadSegments _ _) as [r w]. destruct Hs as [_ Hs]. injection Hl as -> <-. by apply Hs.
Qed.
Next Obligation.
  intros c r c' Hl. unfold ck_Load in Hl. simpl in Hl. pose proof (list_segments_spec (cc_spool c) (cc_db c)) as Hs.
  unfold wp in Hs. destruct (ListCrossDriveDownloadSegments _ _) as [r' w]. destruct Hs as [Hs _]. injection Hl as <- <-.
  unfold import_view. simpl. by rewrite Hs.
Qed.
Next Obligation.
  intros i n c c' Hl. unfold ck_Save in Hl. simpl in Hl.
  pose proof (save_segment_spec (cc_spool c) (cc_taskID c) (cc_owner c) i n (cc_db c)) as Hs.
  unfold wp in Hs. destruct (SaveCrossDriveDownloadSegment _ _ _ _ _ _) as [r w]. injection Hl as -> <-.
  unfold import_view. simpl. rewrite Hs. apply segments_insert.
Qed.
Next Obligation.
  intros i n c e c' Hl. unfold ck_Save in Hl. simpl in Hl. left.
  pose proof (save_segment_spec (cc_spool c) (cc_taskID c) (cc_owner c) i n (cc_db c)) as Hs.
  unfold wp in Hs. destruct (SaveCrossDriveDownloadSegment _ _ _ _ _ _) as [r w]. injection Hl as -> <-.
  unfold import_view. simpl. by rewrite Hs.
Qed.

End ImportCheckpoint.
