(* ===== verification/Redaction.v ===== *)
(** Redaction of audit records ([src/internal/security/audit.go]).

    A Go [any] is its dynamic type: the types [RedactValue] distinguishes, and
    [ATyped] for every other type (a [[]string], a [url.Values], a struct) with the
    JSON value it encodes to.  [net/url] is the class [AuditUrls]. *)
From Stdlib Require Import Ascii.
From S2P Require Import Prelude GoStrings.

Inductive any :=
| ANull
| ABool (b : bool)
| ANumber (q : Q)
| AString (s : string)
| AArray (l : list any)
| AMap (fields : list (string * any))
| ATyped (json : any).

(** Induction through the elements of arrays and maps. *)
Section AnyInd.
Context (P : any → Prop)
  (Hnull : P ANull) (Hbool : ∀ b, P (ABool b)) (Hnum : ∀ q, P (ANumber q)) (Hstr : ∀ s, P (AString s))
  (Harr : ∀ l, Forall P l → P (AArray l)) (Hmap : ∀ l, Forall (λ kv, P kv.2) l → P (AMap l))
  (Htyped : ∀ j, P j → P (ATyped j)).

Fixpoint any_induction (v : any) : P v :=
  match v with
  | ANull => Hnull | ABool b => Hbool b | ANumber q => Hnum q | AString s => Hstr s
  | AArray l => Harr l ((fix go l : Forall P l :=
      match l with [] => Forall_nil_2 P | x :: l' => Forall_cons_2 P x l' (any_induction x) (go l') end) l)
  | AMap l => Hmap l ((fix go l : Forall (λ kv, P kv.2) l :=
      match l with [] => Forall_nil_2 _ | x :: l' => Forall_cons_2 _ x l' (any_induction x.2) (go l') end) l)
  | ATyped j => Htyped j (any_induction j)
  end.
End AnyInd.

(** A parsed URL: scheme, user information, query and everything else. *)
Record parsed := mkParsed { p_scheme : string; p_user : option string; p_query : gmap string (list string); p_rest : string }.

Class AuditUrls := {
  audit_parse : string → option parsed;   (* [url.Parse] *)
  audit_string : parsed → string          (* [parsed.String()] *)
}.

Definition redacted : string := "[redacted]".

Definition secret_markers : list string :=
  ["authorization"; "cookie"; "password"; "secret"; "token"; "stoken"; "api_key"; "apikey"; "receive_code";
   "download_url"; "signed_url"; "callback"].

Definition secretKey (key : string) : bool :=
  let key := to_lower key in existsb (λ marker, contains key marker) secret_markers.

Section Redaction.
Context `{AuditUrls}.

Definition redact_query (query : gmap string (list string)) : gmap string (list string) :=
  map_imap (λ key vs, Some (if secretKey key || bool_decide (key = "pwd") then [redacted] else vs)) query.

Definition is_http (scheme : string) : bool := bool_decide (scheme = "http") || bool_decide (scheme = "https").

Definition redactURL (value : string) : string :=
  match audit_parse value with
  | Some u =>
      if negb (is_http (p_scheme u)) then value
      else audit_string (mkParsed (p_scheme u) None (redact_query (p_query u)) (p_rest u))
  | None => value
  end.

Fixpoint RedactValue (v : any) : any :=
  match v with
  | AMap fields => AMap (map (λ kv, (kv.1, if secretKey kv.1 then AString redacted else RedactValue kv.2)) fields)
  | AArray l => AArray (map RedactValue l)
  | AString s => AString (redactURL s)
  | _ => v
  end.

(** What [json.Marshal] writes, as a value read back. *)
Fixpoint json_of (v : any) : any :=
  match v with
  | AMap fields => AMap (map (λ kv, (kv.1, json_of kv.2)) fields)
  | AArray l => AArray (map json_of l)
  | ATyped j => json_of j
  | _ => v
  end.

(** *** What a safe record is *)

(** A string that is an HTTP URL carries no user and no secret parameter. *)
Definition safe_url (s : string) : Prop :=
  ∀ u, audit_parse s = Some u → is_http (p_scheme u) = true →
    p_user u = None ∧ ∀ key vs, p_query u !! key = Some vs → secretKey key || bool_decide (key = "pwd") = true → vs = [redacted].

(** At any depth, a member with a secret key is redacted and strings are safe. *)
Fixpoint safe (v : any) : Prop :=
  match v with
  | AMap fields => (fix go l := match l with
      | [] => True
      | kv :: l' => (if secretKey kv.1 then kv.2 = AString redacted else safe kv.2) ∧ go l'
      end) fields
  | AArray l => (fix go l := match l with [] => True | x :: l' => safe x ∧ go l' end) l
  | AString s => safe_url s
  | ATyped j => safe j
  | _ => True
  end.

(** No value of another Go type inside. *)
Fixpoint plain_json (v : any) : Prop :=
  match v with
  | AMap fields => (fix go l := match l with [] => True | kv :: l' => plain_json kv.2 ∧ go l' end) fields
  | AArray l => (fix go l := match l with [] => True | x :: l' => plain_json x ∧ go l' end) l
  | ATyped _ => False
  | _ => True
  end.

(** [url.Values] as [ParseQuery] makes them: a key has a value. *)
Definition valued (query : gmap string (list string)) : Prop := map_Forall (λ _ vs, vs ≠ []) query.

(** What [net/url] documents: [Query] gives every key a value, and an HTTP URL that was parsed
    and lost its user, with a query of valued keys encoded into it, is parsed again to that
    scheme, no user and that query.  ([Encode] drops a key without values, and nothing is
    asked of the other parts.) *)
Record url_laws : Prop := {
  query_valued : ∀ s u, audit_parse s = Some u → valued (p_query u);
  url_reparsed : ∀ s u query, audit_parse s = Some u → is_http (p_scheme u) = true → valued query →
    ∃ rest, audit_parse (audit_string (mkParsed (p_scheme u) None query (p_rest u))) = Some (mkParsed (p_scheme u) None query rest)
}.

Lemma redact_valued query : valued query → valued (redact_query query).
Proof.
  intros Hv key vs. unfold redact_query. rewrite map_lookup_imap. destruct (query !! key) as [l|] eqn:E; [|done]. cbn.
  intros [= <-]. destruct (_ || _); [done|by apply (Hv key)].
Qed.

Lemma redactURL_safe s : url_laws → safe_url (redactURL s).
Proof.
  intros [Hv Hrt] u Hu Hs. unfold redactURL in Hu. destruct (audit_parse s) as [p|] eqn:Hp.
  - destruct (is_http (p_scheme p)) eqn:Hh; simpl in Hu.
    + destruct (Hrt s p (redact_query (p_query p)) Hp Hh) as [rest Hr]; [by eapply redact_valued, Hv|].
      rewrite Hr in Hu. injection Hu as <-. simpl. split; [done|]. intros key vs.
      unfold redact_query. rewrite map_lookup_imap. destruct (p_query p !! key); [|done]. simpl. intros [= <-] ->. done.
    + rewrite Hp in Hu. injection Hu as <-. congruence.
  - congruence.
Qed.

(** C40: What is stored of a JSON value is safe: at every depth, members whose key
    names a credential are redacted, and strings that are HTTP URLs have no user
    information and no credential parameter. *)
Theorem RedactValue_safe v :
  url_laws → plain_json v → safe (json_of (RedactValue v)).
Proof.
  intros Hrt. induction v as [| | |s|l IH|l IH|j IH] using any_induction; simpl; intros Hp; try done.
  - by apply redactURL_safe.
  - induction IH as [|x l Hx _ IHl]; simpl in *; [done|]. destruct Hp as [Hp1 Hp2]. split; [by apply Hx|by apply IHl].
  - induction IH as [|[k x] l Hx _ IHl]; simpl in *; [done|]. destruct Hp as [Hp1 Hp2]. split; [|by apply IHl].
    destruct (secretKey k); [done|by apply Hx].
Qed.

(** A value of another Go type is not looked into: the query parameters the HTTP
    middleware records ([map[string]any{"query": request.URL.Query()}], a
    [url.Values]) reach the audit log with their credentials. *)
Theorem typed_query_not_redacted secret :
  json_of (RedactValue (AMap [("query", ATyped (AMap [("password", AArray [AString secret])]))]))
  = AMap [("query", AMap [("password", AArray [AString secret])])].
Proof. reflexivity. Qed.

End Redaction.

(** ** A sample: the URLs of [net/url] without a fragment *)

Module SampleUrl.

Definition unreserved (a : ascii) : bool :=
  is_upper a || is_lower a || is_digit a || bool_decide (a ∈ ["-"; "_"; "."; "~"]%char).
Definition hex_digit (n : nat) : ascii := byte (if Nat.ltb n 10 then 48 + n else 55 + n).
Definition unhex (a : ascii) : option nat :=
  let n := nat_of_ascii a in
  if is_digit a then Some (n - 48) else if is_hex a then Some (if is_upper a then n - 55 else n - 87) else None.
Definition escape_byte (a : ascii) : list ascii :=
  if unreserved a then [a] else if bool_decide (a = " "%char) then ["+"%char]
  else ["%"%char; hex_digit (nat_of_ascii a / 16); hex_digit (nat_of_ascii a mod 16)].
Definition QueryEscape (l : list ascii) : list ascii := l ≫= escape_byte.
Fixpoint QueryUnescape (l : list ascii) : option (list ascii) :=
  match l with
  | [] => Some []
  | a :: l' =>
      if bool_decide (a = "%"%char) then
        match l' with
        | x :: y :: l'' => h ← unhex x; m ← unhex y; r ← QueryUnescape l''; Some (byte (16 * h + m) :: r)
        | _ => None
        end
      else r ← QueryUnescape l'; Some ((if bool_decide (a = "+"%char) then " "%char else a) :: r)
  end.

(** What comes before and after the first [sep]. *)
Fixpoint cut (sep : ascii) (l : list ascii) : list ascii * option (list ascii) :=
  match l with
  | [] => ([], None)
  | a :: l' => if bool_decide (a = sep) then ([], Some l') else let '(x, y) := cut sep l' in (a :: x, y)
  end.

Definition parse_pair (l : list ascii) : option (string * string) :=
  if bool_decide (l = [] ∨ ";"%char ∈ l) then None else
  let '(key, v) := cut "=" l in
  key ← QueryUnescape key; v ← QueryUnescape (default [] v); Some (of_chars key, of_chars v).
Definition add_value (m : gmap string (list string)) (kv : string * string) : gmap string (list string) :=
  <[kv.1 := default [] (m !! kv.1) ++ [kv.2]]> m.
Definition ParseQuery (l : list ascii) : gmap string (list string) := foldl add_value ∅ (omap parse_pair (split_chars "&" l)).
Definition pair_text (kv : string * string) : list ascii := QueryEscape (chars kv.1) ++ "="%char :: QueryEscape (chars kv.2).
Definition pairs (l : list (string * list string)) : list (string * string) := l ≫= λ kvs, (kvs.1,.) <$> kvs.2.
Definition key_before (x y : string * list string) : Prop := String.leb x.1 y.1 = true.
#[global] Instance key_before_dec x y : Decision (key_before x y) := bool_eq_dec _ _.
Definition sorted_pairs (m : gmap string (list string)) : list (string * string) := pairs (merge_sort key_before (map_to_list m)).
Fixpoint ampersands (l : list (list ascii)) : list ascii :=
  match l with [] => [] | [x] => x | x :: l' => x ++ "&"%char :: ampersands l' end.
Definition Encode (m : gmap string (list string)) : list ascii := ampersands (pair_text <$> sorted_pairs m).

(** A scheme, [//], user information before the last [@] of the authority, host and path, and
    a query. *)
Definition Parse (s : string) : option parsed :=
  let l := chars s in
  if bool_decide ("#"%char ∈ l) then None else
  match cut ":" l with
  | (scheme, Some (x :: y :: l)) =>
      if negb (bool_decide (x = "/"%char ∧ y = "/"%char)) then None else
      let '(l, query) := cut "?" l in
      let '(authority, path) := cut "/" l in
      let '(host, user) := cut "@" (reverse authority) in
      Some (mkParsed (to_lower (of_chars scheme)) (of_chars ∘ reverse <$> user) (ParseQuery (default [] query))
              (of_chars (reverse host ++ match path with Some p => "/"%char :: p | None => [] end)))
  | _ => None
  end.
Definition String_ (p : parsed) : string :=
  p_scheme p +:+ "://" +:+ match p_user p with Some u => u +:+ "@" | None => "" end +:+ p_rest p +:+
  (if bool_decide (p_query p = ∅) then "" else "?" +:+ of_chars (Encode (p_query p))).

#[global] Instance sample_urls : AuditUrls := {| audit_parse := Parse; audit_string := String_ |}.

(** *** The sample keeps the laws *)

(** Facts of every byte, by computation. *)
Lemma every_byte (P : ascii → bool) : forallb P (byte <$> seq 0 256) = true → ∀ a, P a = true.
Proof.
  intros Hall a. rewrite forallb_forall in Hall. apply Hall, list_elem_of_In, list_elem_of_fmap.
  exists (nat_of_ascii a). split; [symmetry; apply ascii_nat_embedding|]. apply elem_of_seq. pose proof (nat_ascii_bounded a). lia.
Qed.
Definition escape_check (a : ascii) : bool :=
  match escape_byte a with
  | [b] => bool_decide (b = a ∧ a ≠ "%"%char ∧ a ≠ "+"%char) || bool_decide (b = "+"%char ∧ a = " "%char)
  | [p; x; y] => bool_decide (p = "%"%char) &&
      match unhex x, unhex y with Some h, Some m => bool_decide (byte (16 * h + m) = a) | _, _ => false end
  | _ => false
  end.
Lemma escape_cases a :
  (escape_byte a = [a] ∧ a ≠ "%"%char ∧ a ≠ "+"%char) ∨ (escape_byte a = ["+"%char] ∧ a = " "%char) ∨
  ∃ x y h m, escape_byte a = ["%"%char; x; y] ∧ unhex x = Some h ∧ unhex y = Some m ∧ byte (16 * h + m) = a.
Proof.
  assert (escape_check a = true) as Hc by (revert a; apply every_byte; vm_compute; reflexivity).
  revert Hc. unfold escape_check. destruct (escape_byte a) as [|b [|x [|y [|]]]]; try done.
  - intros [[-> H']%bool_decide_eq_true_1|[-> ->]%bool_decide_eq_true_1]%orb_true_iff; [by left|by right; left].
  - destruct (unhex x) as [h|] eqn:Hx, (unhex y) as [m|] eqn:Hy; rewrite ?andb_false_r; try done.
    intros [->%bool_decide_eq_true_1 Ha%bool_decide_eq_true_1]%andb_true_iff. right; right. by exists x, y, h, m.
Qed.
Lemma unescape_byte a l : QueryUnescape (escape_byte a ++ l) = (a ::.) <$> QueryUnescape l.
Proof.
  destruct (escape_cases a) as [(-> & Hp & Hq)|[(-> & ->)|(x & y & h & m & -> & Hx & Hy & Ha)]]; cbn [app QueryUnescape].
  - rewrite !bool_decide_false by done. by destruct (QueryUnescape l).
  - rewrite bool_decide_false, bool_decide_true by done. by destruct (QueryUnescape l).
  - rewrite bool_decide_true, Hx, Hy by done. cbn [mbind option_bind]. rewrite Ha. by destruct (QueryUnescape l).
Qed.
Lemma unescape_escape l : QueryUnescape (QueryEscape l) = Some l.
Proof. induction l as [|a l IH]; [done|]. unfold QueryEscape in *. cbn [mbind list_bind]. by rewrite unescape_byte, IH. Qed.
Lemma escape_byte_plain a c : c ∈ escape_byte a → c ∉ ["&"; "="; ";"; "#"; "?"]%char.
Proof.
  assert (forallb (λ c, bool_decide (c ∉ ["&"; "="; ";"; "#"; "?"]%char)) (escape_byte a) = true) as Hc
    by (revert a; apply every_byte; vm_compute; reflexivity).
  rewrite forallb_forall in Hc. intros Hin%list_elem_of_In%Hc. by apply bool_decide_eq_true_1 in Hin.
Qed.
Lemma escape_plain l c : c ∈ ["&"; "="; ";"; "#"; "?"]%char → c ∉ QueryEscape l.
Proof. intros Hc (a & Hin & _)%list_elem_of_bind. by apply escape_byte_plain in Hin. Qed.

Lemma cut_no sep l : sep ∉ l → cut sep l = (l, None).
Proof. induction l as [|a l IH]; [done|]. intros [Hne Hl]%not_elem_of_cons. cbn. by rewrite bool_decide_false, IH. Qed.
Lemma cut_at sep l k : sep ∉ l → cut sep (l ++ sep :: k) = (l, Some k).
Proof.
  induction l as [|a l IH]; cbn; [by rewrite bool_decide_true|]. intros [Hne Hl]%not_elem_of_cons. by rewrite bool_decide_false, IH.
Qed.
Lemma cut_parts sep l x o : cut sep l = (x, o) → sep ∉ x ∧ l = x ++ match o with Some y => sep :: y | None => [] end.
Proof.
  revert x. induction l as [|a l IH]; intros x; cbn; [by intros [= <- <-]; split; [apply not_elem_of_nil|]|].
  case_bool_decide as E; [intros [= <- <-]; subst; split; [apply not_elem_of_nil|done]|].
  destruct (cut sep l) as [y o'] eqn:Ec. intros [= <- <-]. destruct (IH y eq_refl) as [Hy ->]. split; [by apply not_elem_of_cons|done].
Qed.

Lemma parse_pair_text kv : parse_pair (pair_text kv) = Some kv.
Proof.
  destruct kv as [k v]. unfold parse_pair, pair_text. rewrite bool_decide_false.
  - rewrite cut_at by (apply escape_plain; set_solver). cbn [from_option]. unfold id. rewrite !unescape_escape. cbn [mbind option_bind]. by rewrite !of_chars_chars.
  - intros [E|[Hin|[E|Hin]%elem_of_cons]%elem_of_app]; [by apply app_eq_nil in E as [_ ?]| |done|]; revert Hin; apply escape_plain; set_solver.
Qed.
Lemma pair_text_plain kv c : c ∈ ["&"; ";"; "#"; "?"]%char → c ∉ pair_text kv.
Proof.
  intros Hc. unfold pair_text. intros [Hin|[->|Hin]%elem_of_cons]%elem_of_app; [|set_solver|]; revert Hin; apply escape_plain; set_solver.
Qed.

Lemma ampersands_split l : l ≠ [] → (∀ x, x ∈ l → "&"%char ∉ x) → split_chars "&" (ampersands l) = l.
Proof.
  induction l as [|x [|y l] IH]; intros Hne Hl; [done| |].
  - apply split_chars_plain, Hl. by left.
  - change (ampersands (x :: y :: l)) with (x ++ "&"%char :: ampersands (y :: l)).
    rewrite split_chars_app, split_chars_plain, IH; [done|done| |by apply Hl; left]. intros z Hz. apply Hl. by right.
Qed.
Lemma ampersands_plain l c : c ≠ "&"%char → (∀ x, x ∈ l → c ∉ x) → c ∉ ampersands l.
Proof.
  intros Hc. induction l as [|x [|y l] IH]; intros Hl; [apply not_elem_of_nil|by apply Hl; left|].
  change (ampersands (x :: y :: l)) with (x ++ "&"%char :: ampersands (y :: l)).
  intros [Hin|[E|Hin]%elem_of_cons]%elem_of_app; [by apply (Hl x); [left|]|done|]. revert Hin. apply IH. intros z Hz. apply Hl. by right.
Qed.
Lemma encode_plain m c : c ∈ [";"; "#"; "?"]%char → c ∉ Encode m.
Proof.
  intros Hc. apply ampersands_plain; [set_solver|]. intros x (kv & -> & _)%list_elem_of_fmap. apply pair_text_plain. set_solver.
Qed.

Lemma add_values m k vs : vs ≠ [] → foldl add_value m ((k,.) <$> vs) = <[k := default [] (m !! k) ++ vs]> m.
Proof.
  revert m. induction vs as [|v [|v' vs] IH]; intros m Hne; [done|done|].
  change ((k,.) <$> v :: v' :: vs) with ((k, v) :: ((k,.) <$> v' :: vs)). cbn [foldl]. rewrite IH by done.
  unfold add_value. cbn [fst snd]. rewrite lookup_insert_eq, insert_insert_eq. cbn [from_option]. unfold id. by rewrite <-(assoc_L (++)).
Qed.
Lemma add_pairs m l : NoDup l.*1 → Forall (λ kvs, kvs.2 ≠ []) l → (∀ k, k ∈ l.*1 → m !! k = None) →
  foldl add_value m (pairs l) = list_to_map l ∪ m.
Proof.
  revert m. induction l as [|[k vs] l IH]; intros m Hnd Hne Hm; [cbn; by rewrite (left_id_L ∅ (∪))|].
  apply NoDup_cons in Hnd as [Hk Hnd]. apply Forall_cons in Hne as [Hv Hne]. unfold pairs. cbn [mbind list_bind fst snd].
  rewrite foldl_app, add_values, Hm by (done || by left). fold (pairs l). rewrite IH; [|done|done|].
  - cbn. rewrite <-insert_union_l, insert_union_r; [done|]. by apply not_elem_of_list_to_map_1.
  - intros k' Hk'. rewrite lookup_insert_ne; [apply Hm; by right|]. by intros ->.
Qed.

(** [Encode] and [ParseQuery], where every key has a value. *)
Lemma query_roundtrip m : valued m → ParseQuery (Encode m) = m.
Proof.
  intros Hv. unfold ParseQuery, Encode. set (l := sorted_pairs m).
  assert (omap parse_pair (split_chars "&" (ampersands (pair_text <$> l))) = l) as ->.
  { destruct (decide (l = [])) as [->|Hne]; [done|]. rewrite ampersands_split.
    - clear. induction l as [|kv l IH]; [done|]. cbn [fmap list_fmap omap list_omap]. by rewrite parse_pair_text, IH.
    - by destruct l.
    - intros x (kv & -> & _)%list_elem_of_fmap. apply pair_text_plain. set_solver. }
  unfold l, sorted_pairs. pose proof (merge_sort_Permutation key_before (map_to_list m)) as Hp.
  assert (NoDup (merge_sort key_before (map_to_list m)).*1) as Hnd by (rewrite Hp; apply NoDup_fst_map_to_list).
  rewrite add_pairs; [|done| |done].
  - rewrite (right_id_L ∅ (∪)), (list_to_map_proper _ _ Hnd Hp). apply list_to_map_to_list.
  - rewrite Hp. apply Forall_forall. intros [k vs] Hin%elem_of_map_to_list. by apply (Hv k vs).
Qed.

Lemma added_valued m l : valued m → valued (foldl add_value m l).
Proof.
  revert m. induction l as [|kv l IH]; intros m Hm; [done|]. apply IH. apply map_Forall_insert_2; [|done]. by destruct (default [] _).
Qed.

(** What [Parse] reads of a text with the authority [host], without user. *)
Lemma parse_text scheme host path q :
  scheme = "http" ∨ scheme = "https" → "/"%char ∉ host → "@"%char ∉ host →
  match path with Some p => "?"%char ∉ p | None => True end → "?"%char ∉ host →
  let rest := host ++ match path with Some p => "/"%char :: p | None => [] end in
  "#"%char ∉ rest → match q with Some q => "#"%char ∉ q | None => True end →
  Parse (of_chars (chars (scheme +:+ "://") ++ rest ++ match q with Some q => "?"%char :: q | None => [] end))
  = Some (mkParsed scheme None (ParseQuery (default [] q)) (of_chars rest)).
Proof.
  intros Hsch Hslash Hat Hpath Hq rest Hrest Hfq. unfold Parse. rewrite chars_of_chars.
  set (tail := rest ++ match q with Some q => "?"%char :: q | None => [] end).
  assert ("?"%char ∉ rest) as Hqr by (unfold rest; intros [Hin|Hin]%elem_of_app; [done|]; destruct path; [apply elem_of_cons in Hin as [?|?]; done|by apply not_elem_of_nil in Hin]).
  rewrite bool_decide_false.
  2:{ unfold tail. rewrite !elem_of_app. intros [Hin|[Hin|Hin]]; [| done |].
      - revert Hin. apply (bool_decide_eq_true_1 (_ ∉ _)). by destruct Hsch as [-> | ->].
      - destruct q; [apply elem_of_cons in Hin as [?|?]; done|by apply not_elem_of_nil in Hin]. }
  assert (cut ":" (chars (scheme +:+ "://") ++ tail) = (chars scheme, Some ("/"%char :: "/"%char :: tail)) ∧ to_lower (of_chars (chars scheme)) = scheme) as [-> El]
    by (destruct Hsch as [-> | ->]; split; reflexivity).
  rewrite bool_decide_true by done. cbn [negb].
  assert (cut "?" tail = (rest, q)) as ->.
  { unfold tail. destruct q as [q|]; [by apply cut_at|]. rewrite app_nil_r. by apply cut_no. }
  assert (cut "/" rest = (host, path)) as -> by (unfold rest; destruct path; [by apply cut_at|rewrite app_nil_r; by apply cut_no]).
  rewrite cut_no by (by rewrite elem_of_reverse). rewrite reverse_involutive, El. done.
Qed.

Lemma laws : url_laws.
Proof.
  split.
  - intros s u. cbn. unfold Parse. destruct (bool_decide _); [done|]. destruct (cut ":" _) as [scheme [[|x [|y l]]|]]; try done.
    destruct (negb _); [done|]. destruct (cut "?" l) as [l' q]. destruct (cut "/" l') as [a p]. destruct (cut "@" _) as [h us]. intros [= <-]. by apply added_valued.
  - intros s u query. cbn. unfold Parse at 1. case_bool_decide as Hh; [done|]. destruct (cut ":" _) as [scheme [[|x [|y l]]|]] eqn:Es; try done.
    destruct (negb _); [done|]. destruct (cut "?" l) as [l' q] eqn:Eq. destruct (cut "/" l') as [a p] eqn:Ep. destruct (cut "@" _) as [h us] eqn:Eu.
    intros [= <-] Hhttp Hv. cbn [p_scheme p_rest] in *. eexists. unfold String_. cbn [p_scheme p_user p_query p_rest].
    apply cut_parts in Es as [_ Es], Eq as [Hql Eq], Ep as [Hsl Ep], Eu as [Hat Eu]. apply (f_equal reverse) in Eu. rewrite reverse_involutive, reverse_app in Eu.
    assert (∀ c, c ∈ reverse h → c ∈ a) as Hha by (intros c Hc; rewrite Eu; apply elem_of_app; by right).
    assert (∀ c, c ∈ a → c ∈ l') as Hal by (intros c Hc; rewrite Ep; apply elem_of_app; by left).
    assert (∀ c, c ∈ l' → c ∈ chars s) as Hls by (intros c Hc; rewrite Es, Eq; rewrite !elem_of_app, !elem_of_cons, elem_of_app; tauto).
    pose proof (parse_text (to_lower (of_chars scheme)) (reverse h) p (if bool_decide (query = ∅) then None else Some (Encode query))) as Hp.
    assert (ParseQuery (default [] (if bool_decide (query = ∅) then None else Some (Encode query))) = query) as Eqy
      by (case_bool_decide as E; [by subst|by apply query_roundtrip]).
    rewrite Eqy in Hp. rewrite <-Hp.
    + f_equal. apply (inj chars). rewrite chars_of_chars, !chars_app, chars_of_chars. change (chars "") with (@nil ascii). cbn [app].
      assert (chars (if bool_decide (query = ∅) then "" else "?" +:+ of_chars (Encode query))
        = match (if bool_decide (query = ∅) then None else Some (Encode query)) with Some q => "?"%char :: q | None => [] end) as ->
        by (case_bool_decide; [done|]; rewrite chars_app, chars_of_chars; done).
      by rewrite <-!(assoc_L (++)).
    + apply orb_true_iff in Hhttp as [Hx|Hx]; apply bool_decide_eq_true_1 in Hx; auto.
    + intros Hin. by apply Hsl, Hha.
    + by rewrite elem_of_reverse.
    + destruct p; [|done]. intros Hin. apply Hql. rewrite Ep. apply elem_of_app. right. by right.
    + intros Hin. by apply Hql, Hal, Hha.
    + intros Hin. apply Hh, Hls. rewrite Ep. apply elem_of_app in Hin as [Hin|Hin]; apply elem_of_app; [left; by apply Hha|by right].
    + case_bool_decide; [done|]. apply encode_plain. set_solver.
Qed.

Definition share_url : string := "https://u:p@115.com/s/a?password=visible&name=a+b&pwd=x1".
End SampleUrl.

Lemma RedactValue_safe_witness :
  redactURL SampleUrl.share_url = "https://115.com/s/a?name=a+b&password=%5Bredacted%5D&pwd=%5Bredacted%5D" ∧
  safe (json_of (RedactValue
    (AMap [("password", AString "visible"); ("nested", AMap [("api_token", AString "visible"); ("url", AString SampleUrl.share_url)])]))).
Proof.
  split; [vm_compute; reflexivity|]. apply RedactValue_safe; [exact SampleUrl.laws|]. repeat split.
Defined.
