(* ===== verification/Remote.v ===== *)
(** The world outside the service: the drives, Emby, the NAS worker and the mounted
    drive, as the services of [src/internal/service] see them.

    [Remote] answers the requests of [drive.go], [provider_quark.go],
    [provider_115_upload.go], [emby.go], [clouddrive.go] and [nas_worker.go] once
    decoded.  An answer may depend on everything asked and answered before
    ([history]), so a provider that changes on its own, fails or lies is covered;
    nothing is assumed of it but where a theorem says so.

    The state of a service run is [Pipe]: the database, the local files and the log of
    the requests made, newest last.  [M Pipe] is the monad of [Sql.v]; a process that
    stops is an environment whose later calls all fail. *)
From S2P Require Import Prelude GoStrings GoPath Sql Schema Protocol FileSys.
From Stdlib Require Import Ascii.

(** ** What the providers talk about *)

Record DriveFile := mkFile {
  df_FileID : string; df_ParentID : string; df_Name : string; df_Size : Z; df_PickCode : string;
  df_Sha1 : string; df_Revision : string; df_IsFolder : bool; df_UpdatedTime : Z
}.

Record ShareEntry := mkEntry {
  se_ID : string; se_ParentID : string; se_Revision : string; se_ShareToken : string; se_Name : string;
  se_Size : Z; se_IsDir : bool; se_Ancestors : list string
}.

#[global] Instance DriveFile_eq_dec : EqDecision DriveFile.
Proof. solve_decision. Defined.
#[global] Instance ShareEntry_eq_dec : EqDecision ShareEntry.
Proof. solve_decision. Defined.

(** Emby ([domain/models.go], [emby.go]). *)
Record EmbyLibrary := mkLibrary { lb_ID : string; lb_Name : string; lb_Collection : string; lb_Locations : list string }.
Record EmbyMediaItem := mkMedia {
  mi_ID : string; mi_Name : string; mi_OriginalTitle : string; mi_Type : string; mi_Path : string;
  mi_PremiereDate : string; mi_HasPoster : bool; mi_HasBackdrop : bool; mi_ProviderIDs : gmap string string
}.
Record EmbyMissingEpisode := mkMissing {
  me_SeriesID : string; me_SeriesName : string; me_SeasonNumber : Z; me_EpisodeNumber : Z; me_PremiereDate : Z
}.

(** A CloudDrive2 mount; [ReadOnly] may be absent. *)
Record Mount := mkMount { mt_Status : string; mt_ReadOnly : option bool; mt_RemotePath : string; mt_MountPath : string }.

(** What the NAS worker process writes: its lines decoded, how reading and the
    process end, and the writes to its standard error. *)
Record nas_output := mkNas {
  no_lines : list (res Event); no_scan : option error; no_wait : option error; no_stderr : list (list ascii)
}.

(** The state of a Quark save task: its status, when it finished, the objects of its
    top level and of all levels, its error and message. *)
Record save_task := mkSaveTask {
  st_status : string; st_finished : string; st_top : list string; st_fids : list string;
  st_error : string; st_message : string
}.

(** The answer of 115 to an upload request. *)
Record upload_init := mkInit {
  in_Status : Z; in_SignKey : string; in_SignCheck : string; in_Bucket : string; in_Object : string;
  in_Value : option (string * string);     (* [Callback.Value]: callback and its variables *)
  in_Array : list (string * string)        (* [Callback.Array] *)
}.
Record upload_request := mkUpload {
  up_Name : string; up_Size : Z; up_Target : string; up_SHA1 : string; up_PreSHA1 : string;
  up_SignKey : string; up_SignVal : string
}.
(** A multipart upload: its bucket, its object, its ID. *)
Record multipart := mkMultipart { mp_Bucket : string; mp_Object : string; mp_UploadID : string }.
Record uploaded_part := mkUploaded { pt_Number : Z; pt_ETag : string; pt_Size : Z }.

(** One object of a page of a 115 share snapshot, its fields as [fmt.Sprint] writes them
    (["<nil>"] when absent), and the page. *)
Record snap_item := mkSnapItem {
  si_fid : string; si_cid : string; si_pid : string; si_name : string; si_size : string; si_revision : string
}.
Record snap_page := mkSnapPage {
  sp_State : bool; sp_Error : string; sp_Count : Z; sp_DataCount : Z; sp_ShareTitle : string; sp_FileName : string;
  sp_List : list snap_item
}.

(** An item of a series as Emby lists it ([replacement_state.go]), and a page of them with
    its total. *)
Record replacementItem := mkItem {
  ri_ID : string; ri_Type : string; ri_Path : string; ri_SeriesID : string;
  ri_IndexNumber : option Z; ri_IndexNumberEnd : option Z; ri_ParentIndexNumber : option Z; ri_IsMissing : bool
}.
Record item_page := mkPage { ip_Items : list replacementItem; ip_Total : option Z }.

Record replacementUserData := mkUserData {
  ud_Played : bool; ud_PlayCount : Z; ud_IsFavorite : bool; ud_Position : Z;
  ud_LastPlayed : option string; ud_Rating : option Q; ud_Likes : option bool
}.

(** What [os.Lstat] says of an object: its type, its permissions, its size and its identity
    ([os.SameFile] compares the device and the inode). *)
Inductive file_type := FDir | FRegular | FSymlink | FOther.
#[global] Instance file_type_eq_dec : EqDecision file_type.
Proof. solve_decision. Defined.
Record file_info := mkInfo { fi_type : file_type; fi_perm : Z; fi_size : Z; fi_ino : Z }.

(** What [filepath.WalkDir] meets below a directory, in its order: the path of each object
    below the root ([""] for the root), its type, and its size as [entry.Info] tells it; and
    the path and the error that end the walk, if any. *)
Record walk_entry := mkWalk { we_path : string; we_type : file_type; we_size : res Z }.
Abbreviation walk := (list walk_entry * option (string * error))%type.

(** The operations on the STRM tree, its backups and the mounted media. *)
Inductive local_op :=
| LStat (path : string)
| LLstat (path : string)
| LEval (path : string)                      (* [filepath.EvalSymlinks] *)
| LMkdir (path : string)
| LMkdirAll (path : string)
| LChmod (path : string) (mode : Z)
| LOpen (path : string)                       (* a directory, to sync it *)
| LReadFile (path : string)
| LReadDir (path : string)
| LWalk (path : string)
| LCreateTemp (directory pattern : string)
| LMkdirTemp (directory pattern : string)
| LWrite (path text : string)                (* on the open file *)
| LSync (path : string)
| LFchmod (path : string) (mode : Z)
| LClose (path : string)
| LRename (old new : string)
| LRemove (path : string)
| LRemoveAll (path : string).

(** A request to Emby with the credentials of a human ([src/internal/api/emby_deletion.go]):
    its query and its headers, and the answer: the status, the content type and the body,
    when it could be read. *)
Record native_request := mkNative {
  nq_method : string; nq_path : string; nq_query : gmap string (list string); nq_headers : gmap string string; nq_body : string
}.
Record native_answer := mkAnswer { na_status : Z; na_contentType : string; na_body : option string }.

(** ** Requests and their answers *)

Inductive action :=
| AList (provider account parent : string) (offset limit : Z) (answer : res (list DriveFile * Z))
| AMkdir (provider account parent name : string) (answer : res string)
| AShareToken (account share passcode : string) (answer : res (string * string))
| ASharePage (account share stoken parent : string) (page : Z) (answer : res (list ShareEntry))
| AShareSave (account share stoken : string) (ids tokens : list string) (parent : string) (answer : res (string * list string))
| ASaveTask (account task : string) (answer : res save_task)
| ANas (request : Request) (answer : res nas_output)
| ALibraries (answer : res (list EmbyLibrary))
| AItem (item : string) (answer : res EmbyMediaItem)
| AMissing (library : string) (at_ : Z) (answer : res (list EmbyMissingEpisode))
| ASync (library : string) (answer : res unit)
| AScan (answer : res unit)
| AMounts (answer : res (list Mount))
| AInit (account : string) (request : upload_request) (answer : res upload_init)
| AOssToken (account : string) (answer : res unit)
| AOssStart (bucket object : string) (answer : res string)
| AOssParts (upload : multipart) (answer : res (list uploaded_part))
| AOssPart (upload : multipart) (number : Z) (bytes : list ascii) (answer : res string)
| AOssComplete (upload : multipart) (ordered : list (Z * string)) (callback callbackVar : string) (answer : res unit)
| AOssAbort (upload : multipart) (answer : res unit)
| ASnap (account code receive cid : string) (offset : Z) (answer : res snap_page)
| AReceive (account code receive : string) (ids : list string) (target : string) (answer : res unit)
| ARename (account file name : string) (answer : res unit)
| AMove (account : string) (files : list string) (target : string) (answer : res unit)
| ADelete (account : string) (files : list string) (answer : res unit)
| ASearch (query disk : string) (limit : Z) (answer : res value)
| ASeries (library : string) (answer : res (list EmbyMediaItem))
| ARefresh (item : string) (answer : res unit)
| AInventory (series : string) (answer : list item_page * error)
| AUsers (answer : res (list string))
| AUserData (user item : string) (answer : res (string * option replacementUserData))
| ASetUserData (user item : string) (data : replacementUserData) (answer : res unit)
| ASessions (answer : res (list string))
| ANative (request : native_request) (answer : res native_answer)
| ADo (op : local_op) (answer : res unit)
| AInfo (op : local_op) (answer : res file_info)
| AText (op : local_op) (answer : res string)
| ANames (op : local_op) (answer : res (list string))
| AWalk (root : string) (answer : walk).

Abbreviation history := (list action).

Class Remote := {
  rm_list : history → string → string → string → Z → Z → res (list DriveFile * Z);
  rm_mkdir : history → string → string → string → string → res string;
  rm_share_token : history → string → string → string → res (string * string);
  rm_share_page : history → string → string → string → string → Z → res (list ShareEntry);
  rm_share_save : history → string → string → string → list string → list string → string → res (string * list string);
  rm_save_task : history → string → string → res save_task;
  rm_nas : history → Request → res nas_output;
  rm_libraries : history → res (list EmbyLibrary);
  rm_item : history → string → res EmbyMediaItem;
  rm_missing : history → string → Z → res (list EmbyMissingEpisode);
  rm_sync : history → string → res unit;
  rm_scan : history → res unit;
  rm_mounts : history → res (list Mount);
  rm_init : history → string → upload_request → res upload_init;
  rm_oss_token : history → string → res unit;
  rm_oss_client : string → res unit;       (* [oss.New] with the credentials of an account *)
  rm_oss_bucket : string → res unit;       (* [Client.Bucket] *)
  rm_oss_start : history → string → string → res string;
  rm_oss_parts : history → multipart → res (list uploaded_part);
  rm_oss_part : history → multipart → Z → list ascii → res string;
  rm_oss_complete : history → multipart → list (Z * string) → string → string → res unit;
  rm_oss_abort : history → multipart → res unit
}.

(** When a sleep of a given length that starts at a tick is over. *)
Class Sleep := { wake : nat → Z → nat }.

(** ** The state of a run *)

Record Pipe := mkPipe { pi_db : Database; pi_files : Files; pi_log : history }.

Definition second : Z := 10 ^ 9.
Definition minute : Z := 60 * second.
Definition hour : Z := 60 * minute.

Section Calls.
Context `{Env} `{Ctx} `{Sleep} `{Remote}.
Abbreviation Pi := (M Pipe).

(** A database operation, a file system operation, a request. *)
Definition on_db {A} (m : M Database A) : Pi A := λ w,
  let s := w_db w in
  let '(r, w1) := m (mkWorld (w_tick w) (pi_db s)) in
  (r, mkWorld (w_tick w1) (mkPipe (w_db w1) (pi_files s) (pi_log s))).

Definition on_files {A} (m : M Files A) : Pi A := λ w,
  let s := w_db w in
  let '(r, w1) := m (mkWorld (w_tick w) (pi_files s)) in
  (r, mkWorld (w_tick w1) (mkPipe (pi_db s) (w_db w1) (pi_log s))).

Definition call {A} (ask : history → res A) (record : res A → action) : Pi A := λ w,
  let s := w_db w in
  let r := ask (pi_log s) in
  (r, tick w (mkPipe (pi_db s) (pi_files s) (pi_log s ++ [record r]))).

(** [if err := ctx.Err(); err != nil { return err }], and [ctx.Err() != nil]. *)
Definition ctx_live : Pi unit := λ w,
  (if ctx_done (w_tick w) then Err ErrCanceled else Ok tt, tick w (w_db w)).
Definition ctx_over : Pi bool := λ w, (Ok (ctx_done (w_tick w)), tick w (w_db w)).

(** [sleepContext] ([provider_quark.go]). *)
Definition sleepContext (duration : Z) : Pi unit := λ w,
  if ctx_done (w_tick w) then (Err ErrCanceled, tick w (w_db w))
  else (Ok tt, mkWorld (wake (w_tick w) duration) (w_db w)).

(** [_ = call()]. *)
Definition try_ {A} (m : Pi A) : Pi unit := _ ← attempt m; mret tt.

End Calls.

(** * Lemmas *)

Section CallLemmas.
Context `{Env} `{Ctx} `{Sleep} `{Remote}.
Implicit Types w : World Pipe.

Lemma wp_on_db {A} (m : M Database A) w (Q : res A → World Pipe → Prop) :
  wp m (mkWorld (w_tick w) (pi_db (w_db w)))
    (λ r x, Q r (mkWorld (w_tick x) (mkPipe (w_db x) (pi_files (w_db w)) (pi_log (w_db w))))) →
  wp (on_db m) w Q.
Proof. unfold wp, on_db. by destruct (m _). Qed.

Lemma wp_on_files {A} (m : M Files A) w (Q : res A → World Pipe → Prop) :
  wp m (mkWorld (w_tick w) (pi_files (w_db w)))
    (λ r x, Q r (mkWorld (w_tick x) (mkPipe (pi_db (w_db w)) (w_db x) (pi_log (w_db w))))) →
  wp (on_files m) w Q.
Proof. unfold wp, on_files. by destruct (m _). Qed.

Lemma wp_call {A} (ask : history → res A) record w (Q : res A → World Pipe → Prop) :
  (∀ n, let s := w_db w in
    Q (ask (pi_log s)) (mkWorld n (mkPipe (pi_db s) (pi_files s) (pi_log s ++ [record (ask (pi_log s))])))) →
  wp (call ask record) w Q.
Proof. intros HQ. apply HQ. Qed.

Lemma wp_ctx_live w (Q : res unit → World Pipe → Prop) :
  (∀ n, Q (Err ErrCanceled) (mkWorld n (w_db w))) → (∀ n, Q (Ok tt) (mkWorld n (w_db w))) → wp ctx_live w Q.
Proof. intros He Ho. unfold wp, ctx_live. destruct (ctx_done _); [apply He|apply Ho]. Qed.

Lemma wp_ctx_over w (Q : res bool → World Pipe → Prop) :
  (∀ b n, Q (Ok b) (mkWorld n (w_db w))) → wp ctx_over w Q.
Proof. intros HQ. apply HQ. Qed.

Lemma wp_sleep d w (Q : res unit → World Pipe → Prop) :
  (∀ n, Q (Err ErrCanceled) (mkWorld n (w_db w))) → (∀ n, Q (Ok tt) (mkWorld n (w_db w))) → wp (sleepContext d) w Q.
Proof. intros He Ho. unfold wp, sleepContext. destruct (ctx_done _); [apply He|apply Ho]. Qed.

End CallLemmas.

(** ** Runs that keep a relation

    [keeps R m]: whatever happens, [m] ends in a state related to the one it started
    in.  For a preorder it follows from the leaves of [m]. *)

Definition keeps {D A} (R : D → D → Prop) (m : M D A) : Prop :=
  ∀ w, wp m w (λ _ w', R (w_db w) (w_db w')).

Section Keeps.
Context {D : Type} (R : D → D → Prop) `{!PreOrder R}.

Lemma keeps_ret {A} (a : A) : keeps R (mret a).
Proof. intros w. apply wp_ret. by reflexivity. Qed.

Lemma keeps_lift {A} (r : res A) : keeps R (lift r).
Proof. intros w. apply wp_lift. by reflexivity. Qed.

Lemma keeps_throw {A} e : keeps R (throw (A := A) e).
Proof. apply keeps_lift. Qed.

Lemma keeps_bind {A B} (m : M D A) (f : A → M D B) : keeps R m → (∀ a, keeps R (f a)) → keeps R (m ≫= f).
Proof.
  intros Hm Hf w. apply wp_bind. eapply wp_mono; [apply Hm|]. intros [a|e] w' Hw; [|done].
  eapply wp_mono; [apply Hf|]. intros r w'' Hw'. by etrans.
Qed.

Lemma keeps_attempt {A} (m : M D A) : keeps R m → keeps R (attempt m).
Proof. intros Hm w. apply wp_attempt. apply Hm. Qed.

Lemma keeps_wrap {A} p (m : M D A) : keeps R m → keeps R (wrap p m).
Proof. intros Hm w. apply wp_wrap. apply Hm. Qed.

Lemma keeps_now `{Env} : keeps R now.
Proof. intros w. apply wp_now. by reflexivity. Qed.

Lemma keeps_query `{Env} {A} (f : D → res A) : keeps R (query f).
Proof. intros w. apply wp_query; intros; by reflexivity. Qed.

Lemma keeps_stmt `{Env} {A} (f : D → res (A * D)) : (∀ d a d', f d = Ok (a, d') → R d d') → keeps R (stmt f).
Proof. intros Hf w. apply wp_stmt; [intros; by reflexivity|]. intros a d n Hd. by eapply Hf. Qed.

Lemma keeps_exec `{Env} {A} (f : D → A * D) : (∀ d, R d (f d).2) → keeps R (exec f).
Proof. intros Hf w. apply wp_exec; [intros; by reflexivity|]. intros n. apply Hf. Qed.

Lemma keeps_transaction `{Env} {A} (body : M D (txr A)) : keeps R body → keeps R (transaction body).
Proof.
  intros Hb w. apply wp_transaction; [intros; by reflexivity|]. intros n. eapply wp_mono; [apply Hb|].
  intros [[a|a]|e] w' Hw m; [done|by reflexivity..].
Qed.

Lemma keeps_fold {A S} (f : S → A → M D S) l : (∀ s x, x ∈ l → keeps R (f s x)) → ∀ s, keeps R (m_fold f l s).
Proof.
  induction l as [|x l IH]; intros Hf s; simpl; [apply keeps_ret|].
  apply keeps_bind; [apply Hf; by left|]. intros s'. apply IH. intros. apply Hf. by right.
Qed.

Lemma keeps_each {A} (f : A → M D unit) l : (∀ x, x ∈ l → keeps R (f x)) → keeps R (m_each f l).
Proof. intros Hf. apply keeps_fold. auto. Qed.

End Keeps.

Lemma keeps_weaken {D A} (R R' : D → D → Prop) (m : M D A) :
  (∀ s s', R s s' → R' s s') → keeps R m → keeps R' m.
Proof. intros HR Hm w. eapply wp_mono; [apply Hm|]. auto. Qed.

(** The relations on [Pipe]: the requests added are in [P], and the database changes
    by [RD]. *)
Definition grows (P : action → Prop) (s s' : Pipe) : Prop := ∃ l, pi_log s' = pi_log s ++ l ∧ Forall P l.

#[global] Instance grows_preorder P : PreOrder (grows P).
Proof.
  split.
  - intros s. exists []. by rewrite app_nil_r.
  - intros s1 s2 s3 (l1 & E1 & F1) (l2 & E2 & F2). exists (l1 ++ l2).
    rewrite E2, E1, app_assoc. split; [done|]. by apply Forall_app.
Qed.

Definition pipe_rel (P : action → Prop) (RD : Database → Database → Prop) (s s' : Pipe) : Prop :=
  grows P s s' ∧ RD (pi_db s) (pi_db s').

#[global] Instance pipe_rel_preorder P RD `{!PreOrder RD} : PreOrder (pipe_rel P RD).
Proof.
  split; [intros s; by split|]. intros s1 s2 s3 [G1 D1] [G2 D2]. split; [by etrans|by etrans].
Qed.

Section KeepsPipe.
Context (P : action → Prop) (RD : Database → Database → Prop) `{!PreOrder RD}.
Context `{Env} `{Ctx} `{Sleep} `{Remote}.

Lemma pipe_rel_same s s' : pi_log s' = pi_log s → pi_db s' = pi_db s → pipe_rel P RD s s'.
Proof. intros Hl Hd. split; [exists []; by rewrite Hl, app_nil_r|by rewrite Hd]. Qed.

Lemma keeps_on_db {A} (m : M Database A) : keeps RD m → keeps (pipe_rel P RD) (on_db m).
Proof.
  intros Hm w. apply wp_on_db. eapply wp_mono; [apply Hm|]. intros r w' Hd. split; [|done].
  exists []. by rewrite app_nil_r.
Qed.

Lemma keeps_on_files {A} (m : M Files A) : keeps (pipe_rel P RD) (on_files m).
Proof. intros w. apply wp_on_files, wp_intro. intros r w' _. by apply pipe_rel_same. Qed.

Lemma keeps_call {A} (ask : history → res A) record :
  (∀ r, P (record r)) → keeps (pipe_rel P RD) (call ask record).
Proof.
  intros HP w. apply wp_call. intros n. split; [|by reflexivity]. eexists. split; [done|]. by repeat constructor.
Qed.

Lemma keeps_ctx_live : keeps (pipe_rel P RD) ctx_live.
Proof. intros w. apply wp_ctx_live; intros; by reflexivity. Qed.
Lemma keeps_ctx_over : keeps (pipe_rel P RD) ctx_over.
Proof. intros w. apply wp_ctx_over; intros; by reflexivity. Qed.
Lemma keeps_sleep d : keeps (pipe_rel P RD) (sleepContext d).
Proof. intros w. apply wp_sleep; intros; by reflexivity. Qed.
Lemma keeps_try {A} (m : M Pipe A) : keeps (pipe_rel P RD) m → keeps (pipe_rel P RD) (try_ m).
Proof. intros Hm. apply keeps_bind; [apply _|by apply keeps_attempt|]. intros. apply keeps_ret, _. Qed.

End KeepsPipe.

Create HintDb keeps discriminated.
#[export] Hint Resolve keeps_ret keeps_lift keeps_throw keeps_attempt keeps_wrap keeps_now keeps_query
  keeps_on_db keeps_on_files keeps_call keeps_ctx_live keeps_ctx_over keeps_sleep keeps_try : keeps.
#[export] Hint Extern 1 (PreOrder _) => apply _ : keeps.

(** Splits a computation down to its leaves. *)
Ltac keeps_step :=
  match goal with
  | |- keeps _ (mbind _ _) => apply keeps_bind; [apply _| |intros ?]
  | |- keeps _ (attempt _) => apply keeps_attempt
  | |- keeps _ (transaction _) => apply keeps_transaction; [apply _|]
  | |- keeps _ (wrap _ _) => apply keeps_wrap
  | |- keeps _ (try_ _) => apply keeps_try; [apply _|]
  | |- keeps _ (m_fold _ _ _) => apply keeps_fold; [apply _|intros ? ? ?]
  | |- keeps _ (m_each _ _) => apply keeps_each; [apply _|intros ? ?]
  | |- keeps _ (if ?b then _ else _) => destruct b
  | |- keeps _ (match ?o with _ => _ end) => destruct o
  | |- keeps _ (let '(_, _) := ?p in _) => destruct p
  end.
Ltac keeps_run := repeat (keeps_step; simpl); try solve [auto with keeps].

(** [a] was asked between two states. *)
Definition during (s s' : Pipe) (a : action) : Prop := ∃ l, pi_log s' = pi_log s ++ l ∧ a ∈ l.

Lemma during_l P s s1 s2 a : during s s1 a → grows P s1 s2 → during s s2 a.
Proof.
  intros (l & E & Ha) (l' & E' & _). exists (l ++ l'). rewrite E', E, app_assoc. split; [done|]. apply elem_of_app. by left.
Qed.

Lemma during_r P s s1 s2 a : grows P s s1 → during s1 s2 a → during s s2 a.
Proof.
  intros (l & E & _) (l' & E' & Ha). exists (l ++ l'). rewrite E', E, app_assoc. split; [done|]. apply elem_of_app. by right.
Qed.

Lemma grows_weaken (P Q : action → Prop) s s' : (∀ a, P a → Q a) → grows P s s' → grows Q s s'.
Proof. intros HPQ (l & E & F). exists l. split; [done|]. by eapply Forall_impl. Qed.

(** ** Time

    Ticks never go back, so a clock that does not go back does not go back during a
    run. *)

Definition later {D A} (m : M D A) : Prop := ∀ w, w_tick w ≤ w_tick (m w).2.

Section Later.
Context `{Env} `{Ctx} `{Sleep} `{Remote} {D : Type}.

Lemma later_ret {A} (a : A) : later (D := D) (mret a).
Proof. by intros w. Qed.
Lemma later_lift {A} (r : res A) : later (D := D) (lift r).
Proof. by intros w. Qed.
Lemma later_throw {A} e : later (D := D) (throw (A := A) e).
Proof. by intros w. Qed.
Lemma later_now : later (D := D) now.
Proof. intros w. simpl. lia. Qed.

Lemma later_bind {A B} (m : M D A) (f : A → M D B) : later m → (∀ a, later (f a)) → later (m ≫= f).
Proof.
  intros Hm Hf w. specialize (Hm w). unfold mbind, m_bind. destruct (m w) as [[a|e] w']; simpl in *; [|done].
  specialize (Hf a w'). lia.
Qed.

Lemma later_attempt {A} (m : M D A) : later m → later (attempt m).
Proof. intros Hm w. specialize (Hm w). unfold attempt. by destruct (m w). Qed.
Lemma later_wrap {A} p (m : M D A) : later m → later (wrap p m).
Proof. intros Hm w. specialize (Hm w). unfold wrap. by destruct (m w). Qed.

Lemma later_stmt {A} (f : D → res (A * D)) : later (stmt f).
Proof. intros w. unfold stmt. repeat case_match; simpl; lia. Qed.
Lemma later_query {A} (f : D → res A) : later (query f).
Proof. apply later_stmt. Qed.
Lemma later_exec {A} (f : D → A * D) : later (exec f).
Proof. apply later_stmt. Qed.

Lemma later_transaction {A} (m : M D (txr A)) : later m → later (transaction m).
Proof.
  intros Hm w. unfold transaction. destruct (env_fault _); simpl; [lia|]. specialize (Hm (tick w (w_db w))). simpl in Hm.
  destruct (m _) as [[[a|a]|e] w1]; simpl in *; [destruct (env_fault _); simpl|..]; lia.
Qed.

Lemma later_fold {A S} (f : S → A → M D S) l : (∀ s x, later (f s x)) → ∀ s, later (m_fold f l s).
Proof.
  intros Hf. induction l as [|x l IH]; intros s; simpl; [apply later_ret|]. by apply later_bind.
Qed.

Lemma later_on_db {A} (m : M Database A) : later m → later (on_db m).
Proof. intros Hm w. specialize (Hm (mkWorld (w_tick w) (pi_db (w_db w)))). unfold on_db. by destruct (m _). Qed.
Lemma later_on_files {A} (m : M Files A) : later m → later (on_files m).
Proof. intros Hm w. specialize (Hm (mkWorld (w_tick w) (pi_files (w_db w)))). unfold on_files. by destruct (m _). Qed.
Lemma later_call {A} (ask : history → res A) record : later (call ask record).
Proof. intros w. simpl. lia. Qed.
Lemma later_ctx_over : later ctx_over.
Proof. intros w. simpl. lia. Qed.

End Later.

Lemma wp_later {D A} (m : M D A) (w : World D) (Q : res A → World D → Prop) :
  later m → (∀ r w', w_tick w ≤ w_tick w' → Q r w') → wp m w Q.
Proof. intros Hm HQ. unfold wp. specialize (Hm w). destruct (m w). by apply HQ. Qed.

#[export] Hint Resolve later_ret later_lift later_throw later_now later_attempt later_wrap later_query later_exec later_stmt
  later_transaction later_on_db later_on_files later_call later_ctx_over : keeps.

Ltac later_step :=
  match goal with
  | |- later (mbind _ _) => apply later_bind; [|intros ?]
  | |- later (attempt _) => apply later_attempt
  | |- later (wrap _ _) => apply later_wrap
  | |- later (transaction _) => apply later_transaction
  | |- later (on_db _) => apply later_on_db
  | |- later (on_files _) => apply later_on_files
  | |- later (m_fold _ _ _) => apply later_fold; intros ? ?
  | |- later (if ?b then _ else _) => destruct b
  | |- later (match ?o with _ => _ end) => destruct o
  | |- later (let '(_, _) := ?p in _) => destruct p
  end.
Ltac later_run := repeat (later_step; simpl); try solve [auto with keeps].

(** ** Concrete environments for the sample runs *)

Definition unreachable {A} : res A := Err (ErrText "unreachable").

(** Drives whose directories are [dir] and a share whose directories are [raw], which
    nobody changes; everything else is unreachable. *)
Definition static_remote (dir : string → list DriveFile) (raw : string → list ShareEntry) : Remote := {|
  rm_list _ _ _ parent offset limit :=
    Ok (take (Z.to_nat limit) (drop (Z.to_nat offset) (dir parent)), Z.of_nat (length (dir parent)));
  rm_mkdir _ _ _ _ _ := unreachable;
  rm_share_token _ _ _ _ := Ok ("stoken", "Share");
  rm_share_page _ _ _ _ parent page := Ok (take 100 (drop (100 * Z.to_nat (page - 1)) (raw parent)));
  rm_share_save _ _ _ _ _ _ _ := unreachable;
  rm_save_task _ _ _ := unreachable;
  rm_nas _ _ := unreachable;
  rm_libraries _ := unreachable;
  rm_item _ _ := unreachable;
  rm_missing _ _ _ := unreachable;
  rm_sync _ _ := unreachable;
  rm_scan _ := unreachable;
  rm_mounts _ := unreachable;
  rm_init _ _ _ := unreachable;
  rm_oss_token _ _ := unreachable;
  rm_oss_client _ := unreachable;
  rm_oss_bucket _ := unreachable;
  rm_oss_start _ _ _ := unreachable;
  rm_oss_parts _ _ := unreachable;
  rm_oss_part _ _ _ _ := unreachable;
  rm_oss_complete _ _ _ _ _ := unreachable;
  rm_oss_abort _ _ := unreachable
|}.

(** A sleep that takes one tick. *)
Definition short_sleep : Sleep := {| wake n _ := S n |}.
Definition calm : Ctx := {| ctx_done _ := false |}.
