(* ===== verification/Drive.v ===== *)
(** The drives behind one interface ([src/internal/service/drive_provider.go], the
    accounts and the listing of [drive.go], and [provider_quark.go]): choosing an
    account, listing directories page by page, walking and saving shares, creating
    destination directories, resolving what a user asked to delete.

    The SHA-256 of a share revision is the class [Sha256].  [int64] sums over listing
    offsets stay below 2^63 since offsets do not exceed [quarkMaxEntries]. *)
From S2P Require Import Prelude GoStrings GoPath Sql Schema Accounts Protocol FileSys Payload Remote.
From Stdlib Require Import Ascii.

Class Sha256 := { sha256_hex : string → string }.

Definition quarkMaxEntries : Z := 10000.
Definition quarkMaxDepth : Z := 20.

Abbreviation account := (string * DriveAccount.t)%type.

Record SavedShare := mkSaved { sv_Title : string; sv_RootIDs : list string; sv_Count : Z }.
Record ShareSnapshot := mkSnapshot { sn_Title : string; sn_Entries : list ShareEntry }.

(** ** Pure parts *)

Definition normalizeProvider (provider : string) : res string :=
  let provider := to_lower (trim_space provider) in
  if bool_decide (provider = "115") || bool_decide (provider = "quark") then Ok provider
  else Err (ErrText "provider must be 115 or quark").

Definition index_entry (byID : gmap string ShareEntry) (entry : ShareEntry) : res (gmap string ShareEntry) :=
  if bool_decide (se_ID entry = "") then Err (ErrText "share snapshot contains an entry without an ID")
  else match byID !! se_ID entry with
       | Some _ => Err (ErrText ("share snapshot contains duplicate entry ID " +:+ se_ID entry))
       | None => Ok (<[se_ID entry := entry]> byID)
       end.

(** One round of the selection loop: the entries selected so far, whose IDs are
    [seenIDs], and the output names taken, each with its ID. *)
Definition select_entry (byID : gmap string ShareEntry) (acc : list ShareEntry * gmap string string) (id : string)
    : res (list ShareEntry * gmap string string) :=
  let '(selected, seenNames) := acc in
  if bool_decide (trim_space id = "") then Err (ErrText "share selection contains an empty ID")
  else if bool_decide (id ∈ se_ID <$> selected) then Err (ErrText ("share selection contains duplicate ID " +:+ id))
  else match byID !! id with
  | None => Err (ErrText ("share selection ID " +:+ id +:+ " was not found in the fresh snapshot"))
  | Some entry =>
      if se_IsDir entry then Err (ErrText ("share selection ID " +:+ id +:+ " is a directory; select file leaves only"))
      else
        let nameKey := to_lower (trim_space (se_Name entry)) in
        if bool_decide (nameKey = "") then Err (ErrText ("share selection ID " +:+ id +:+ " has no output name"))
        else match seenNames !! nameKey with
        | Some previous => Err (ErrText ("share selection contains duplicate output name " +:+ se_Name entry +:+ " (IDs "
                                         +:+ previous +:+ " and " +:+ id +:+ ")"))
        | None => Ok (selected ++ [entry], <[nameKey := id]> seenNames)
        end
  end.

Definition selectShareEntries (entries : list ShareEntry) (selectedIDs : list string) : res (list ShareEntry) :=
  if bool_decide (length selectedIDs = 0) then Err (ErrText "share selection must contain at least one file")
  else
    byID ← res_fold index_entry entries ∅;
    acc ← res_fold (select_entry byID) selectedIDs ([], ∅);
    Ok acc.1.

(** What [selectShareSelections] compares of an entry and its selection. *)
Definition same_selection (expected : ShareSelection) (entry : ShareEntry) : bool :=
  negb (bool_decide (sel_Name expected = "")) && negb (bool_decide (sel_Revision expected = ""))
  && bool_decide (se_Name entry = sel_Name expected) && Z.eqb (se_Size entry) (sel_Size expected)
  && bool_decide (se_Revision entry = sel_Revision expected).

Definition selectShareSelections (entries : list ShareEntry) (selections : list ShareSelection) : res (list ShareEntry) :=
  selected ← selectShareEntries entries (sel_ID <$> selections);
  _ ← res_each (λ es, if same_selection es.2 es.1 then Ok tt
                      else Err (ErrText ("share selection identity changed for " +:+ sel_ID es.2)))
        (zip selected selections);
  Ok selected.

(** *** Quark *)

Definition quarkIDSlice (values : list string) : res (list string) :=
  _ ← res_each (λ id, fail_if (bool_decide (id = "")) (ErrText "Quark share save returned an invalid object ID")) values;
  Ok values.

(** A file of the target directory that may be the saved copy of [entry]. *)
Definition copy_of (entry : ShareEntry) (file : DriveFile) : bool :=
  bool_decide (df_Name file = se_Name entry) && Bool.eqb (df_IsFolder file) (se_IsDir entry)
  && (se_IsDir entry || Z.eqb (df_Size file) (se_Size entry)).

(** [afterByID[id]]: the last file with the ID. *)
Definition file_by_id (files : list DriveFile) (id : string) : option DriveFile :=
  find (λ f, bool_decide (df_FileID f = id)) (reverse files).

Definition provider_ids_valid (entries : list ShareEntry) (after : list DriveFile) (providerIDs : list string) : bool :=
  bool_decide (length providerIDs = length entries)
  && forallb (λ ie, match file_by_id after ie.1 with Some file => copy_of ie.2 file | None => false end)
       (zip providerIDs entries).

Definition resolve_entry (before after : list DriveFile) (entry : ShareEntry) : res string :=
  match filter (λ file, df_FileID file ∉ df_FileID <$> before ∧ copy_of entry file = true) after with
  | [file] => Ok (df_FileID file)
  | _ => Err (ErrText ("Quark saved object " +:+ se_Name entry +:+ " could not be identified unambiguously in the target directory"))
  end.

Definition resolveQuarkSavedRoots (entries : list ShareEntry) (before after : list DriveFile) (providerIDs : list string)
    : res (list string) :=
  if provider_ids_valid entries after providerIDs then Ok providerIDs
  else res_fold (λ resolved entry, id ← resolve_entry before after entry; Ok (resolved ++ [id])) entries [].

(** The save tokens of the entries to save. *)
Definition save_tokens (entries : list ShareEntry) : res (list string) :=
  res_fold (λ tokens e,
    let token := trim_space (se_ShareToken e) in
    if bool_decide (token = "") then Err (ErrText ("Quark share entry " +:+ se_ID e +:+ " did not include a save token"))
    else Ok (tokens ++ [token])) entries [].

Definition or_root (parent : string) : string := if bool_decide (parent = "") then "0" else parent.

Section Drive.
Context `{Env} `{Ctx} `{Sleep} `{Remote} `{Urls} `{Sha256}.
Abbreviation Pi := (M Pipe).

(** ** Accounts *)

Definition of_type (provider : string) (a : account) : bool := bool_decide (DriveAccount.Type_ a.2 = provider).
Definition is_active (a : account) : bool := bool_decide (DriveAccount.Status a.2 = "active").
Definition is_default (a : account) : bool := DriveAccount.IsDefault a.2.

(** The account the loops of [GetDefaultAccount] find. *)
Definition pick_account (provider : string) (accounts : list account) : option account :=
  match find (λ a, of_type provider a && (is_default a && is_active a)) accounts with
  | Some a => Some a
  | None =>
      match find (λ a, of_type provider a && is_active a) accounts with
      | Some a => Some a
      | None =>
          match find (λ a, of_type provider a && is_default a) accounts with
          | Some a => Some a
          | None => find (of_type provider) accounts
          end
      end
  end.

(** The fallback is the account as built; saving it stamps the stored row only. *)
Definition GetDefaultAccount (providerName : string) : Pi account :=
  provider ← lift (normalizeProvider providerName);
  accounts ← on_db ListAccounts;
  let missing := throw (ErrText ("no " +:+ provider +:+ " drive accounts configured")) in
  match pick_account provider accounts with
  | Some a => mret a
  | None =>
      if bool_decide (provider = "115") then
        setting ← attempt (on_db (GetSetting "115_cookie"));
        let cookie := match setting with Ok c => c | Err _ => "" end in
        if negb (bool_decide (cookie = "")) then
          n ← now;
          let fallback := DriveAccount.mk "115" "默认账号" cookie "" true "active" 0 0 0 None n n in
          _ ← on_db (SaveAccount "default" fallback);
          mret ("default", fallback)
        else missing
      else missing
  end.

Definition getAccountForProvider (provider id : string) : Pi account :=
  provider ← lift (normalizeProvider provider);
  if bool_decide (id = "") then GetDefaultAccount provider else
  accounts ← on_db ListAccounts;
  match find (λ a : account, bool_decide (a.1 = id)) accounts with
  | Some a =>
      if negb (of_type provider a) then
        throw (ErrText ("account " +:+ id +:+ " belongs to provider " +:+ DriveAccount.Type_ a.2 +:+ ", not " +:+ provider))
      else mret a
  | None => throw (ErrText (provider +:+ " account " +:+ id +:+ " was not found"))
  end.

Definition getAccount (id : string) : Pi account :=
  if bool_decide (id = "") then GetDefaultAccount "115" else
  accounts ← on_db ListAccounts;
  match find (λ a : account, bool_decide (a.1 = id)) accounts with
  | Some a => mret a
  | None => throw (ErrText ("115 account " +:+ id +:+ " was not found"))
  end.

(** ** Listing *)

(** [listFiles]: the directory of 115, its objects checked against the request. *)
Definition valid_name (name : string) : bool :=
  negb (bool_decide (name = "")) && negb (bool_decide (name = ".")) && negb (bool_decide (name = ".."))
  && negb (contains_any name [byte 47; nul]).

Definition listFiles (accountID cid : string) (offset limit : Z) : Pi (list DriveFile * Z) :=
  a ← getAccount accountID;
  let cid := or_root cid in
  let limit := if Z.leb limit 0 then 50%Z else limit in
  let offset := if Z.ltb offset 0 then 0%Z else offset in
  let limit := if Z.ltb 1000 limit then 1000%Z else limit in
  '(files, total) ← call (λ h, rm_list h "115" a.1 cid offset limit) (AList "115" a.1 cid offset limit);
  if Z.ltb total (Z.of_nat (length files)) then
    throw (ErrText "115 files response has an incomplete directory inventory")
  else
  _ ← lift (res_each (λ f,
        if bool_decide (df_FileID f = "") || bool_decide (df_FileID f = "0") || negb (bool_decide (df_ParentID f = cid))
           || negb (valid_name (df_Name f)) then
          Err (ErrText "115 files response contains an invalid or foreign-parent object")
        else fail_if (Z.ltb (df_Size f) 0) (ErrText ("115 object " +:+ df_FileID f +:+ " has an invalid file size"))) files);
  mret (files, total).

(** [ProviderQuark.ListFiles]. *)
Definition quark_ListFiles (a : account) (parent : string) (offset limit : Z) : Pi (list DriveFile * Z) :=
  let parent := or_root parent in
  let offset := if Z.ltb offset 0 then 0%Z else offset in
  let limit := if Z.leb limit 0 then 50%Z else limit in
  let limit := if Z.ltb 200 limit then 200%Z else limit in
  '(files, total) ← call (λ h, rm_list h "quark" a.1 parent offset limit) (AList "quark" a.1 parent offset limit);
  _ ← lift (res_fold (λ seen f,
        if bool_decide (df_FileID f = "") || negb (valid_name (df_Name f)) then
          Err (ErrText "quark file response contains an invalid object")
        else if negb (bool_decide (df_ParentID f = parent)) then
          Err (ErrText ("quark object " +:+ df_FileID f +:+ " belongs to parent " +:+ df_ParentID f +:+ ", not " +:+ parent))
        else if negb (df_IsFolder f) && Z.ltb (df_Size f) 0 then
          Err (ErrText ("quark object " +:+ df_FileID f +:+ " has an invalid file size"))
        else if bool_decide (df_FileID f ∈ seen) then
          Err (ErrText ("quark file page repeated object " +:+ df_FileID f))
        else Ok (df_FileID f :: seen)) files []);
  if Z.ltb total (offset + Z.of_nat (length files)) then throw (ErrText "quark file response has an invalid total")
  else mret (files, total).

Definition ListProviderFiles (provider accountID parent : string) (offset limit : Z) : Pi (list DriveFile * Z) :=
  a ← getAccountForProvider provider accountID;
  provider ← lift (normalizeProvider provider);
  if bool_decide (provider = "115") then listFiles a.1 parent offset limit else quark_ListFiles a parent offset limit.

(** The files of a page that are new to [result]. *)
Definition add_new (result files : list DriveFile) : list DriveFile :=
  foldl (λ result f, if bool_decide (df_FileID f ∈ df_FileID <$> result) then result else result ++ [f]) result files.

(** The loop of [listAllProviderFiles]: [rounds] pages from [offset] on. *)
Fixpoint list_all (provider accountID parent : string) (rounds : nat) (offset : Z) (result : list DriveFile)
    : Pi (list DriveFile) :=
  match rounds with
  | O => throw (ErrText (provider +:+ " directory exceeds " +:+ pretty quarkMaxEntries +:+ " entries"))
  | S rounds =>
      '(files, total) ← ListProviderFiles provider accountID parent offset 200;
      let result' := add_new result files in
      if bool_decide (length result' = length result) && bool_decide (0 < length files) then
        throw (ErrText (provider +:+ " listing made no progress"))
      else if bool_decide (length files = 0) || Z.leb total (offset + Z.of_nat (length files)) then mret result'
      else list_all provider accountID parent rounds (offset + 200) result'
  end.

(** [for offset := 0; offset < quarkMaxEntries; offset += page]. *)
Definition page_rounds (page : Z) : nat := Z.to_nat (quarkMaxEntries / page).

Definition listAllProviderFiles (provider accountID parent : string) : Pi (list DriveFile) :=
  list_all provider accountID parent (page_rounds 200) 0 [].

(** [listDirectoryAll] keeps repeated objects. *)
Fixpoint list_directory (a : account) (parent : string) (rounds : nat) (offset : Z) (result : list DriveFile)
    : Pi (list DriveFile) :=
  match rounds with
  | O => throw (ErrText ("Quark directory contains more than " +:+ pretty quarkMaxEntries +:+ " entries"))
  | S rounds =>
      '(files, total) ← quark_ListFiles a parent offset 200;
      if bool_decide (length files = 0) || Z.leb total (offset + Z.of_nat (length files)) then mret (result ++ files)
      else list_directory a parent rounds (offset + 200) (result ++ files)
  end.

Definition listDirectoryAll (a : account) (parent : string) : Pi (list DriveFile) :=
  list_directory a parent (page_rounds 200) 0 [].

(** *** Deletion targets *)

Definition to_target (f : DriveFile) : DestructiveTarget := mkTarget (df_FileID f) (df_Name f) (df_IsFolder f) (df_Size f).

Definition note_targets (wanted : list string) (found : gmap string DestructiveTarget) (files : list DriveFile)
    : gmap string DestructiveTarget :=
  foldl (λ found f, if bool_decide (df_FileID f ∈ wanted) then <[df_FileID f := to_target f]> found else found) found files.

Fixpoint find_targets (provider accountID parent : string) (wanted : list string) (rounds : nat) (offset : Z)
    (found : gmap string DestructiveTarget) : Pi (gmap string DestructiveTarget) :=
  match rounds with
  | O => mret found
  | S rounds =>
      if bool_decide (length wanted ≤ size found) then mret found else
      '(files, total) ← ListProviderFiles provider accountID parent offset 200;
      let found := note_targets wanted found files in
      if bool_decide (length files = 0) || Z.leb total (offset + Z.of_nat (length files)) then mret found
      else find_targets provider accountID parent wanted rounds (offset + 200) found
  end.

Definition ResolveProviderDeleteTargets (provider accountID parent : string) (fileIDs : list string)
    : Pi (string * list DestructiveTarget) :=
  if bool_decide (length fileIDs = 0) || bool_decide (100 < length fileIDs) then
    throw (ErrText "file_ids must contain 1 to 100 values")
  else
  a ← getAccountForProvider provider accountID;
  let parent := or_root parent in
  wanted ← lift (res_fold (λ wanted id,
      let id := trim_space id in
      if bool_decide (id = "") then Err (ErrText "file_ids must contain non-empty values")
      else if bool_decide (id ∈ wanted) then Err (ErrText "file_ids must not contain duplicates")
      else Ok (wanted ++ [id])) fileIDs []);
  found ← find_targets provider a.1 parent wanted (page_rounds 200) 0 ∅;
  targets ← lift (res_fold (λ targets id,
      match found !! trim_space id with
      | Some target => Ok (targets ++ [target])
      | None => Err (ErrText (provider +:+ " object " +:+ id +:+ " was not found in parent " +:+ parent))
      end) fileIDs []);
  mret (a.1, targets).

(** ** Directories *)

(** [MkdirProvider] on 115: [Provider115.Mkdir] is [makeDir]. *)
Definition makeDir (accountID pid name : string) : Pi string :=
  let name := trim_space name in
  let pid := trim_space pid in
  if bool_decide (name = "") then throw (ErrText "directory name is required") else
  let pid := or_root pid in
  a ← getAccount accountID;
  cid ← call (λ h, rm_mkdir h "115" a.1 pid name) (AMkdir "115" a.1 pid name);
  let cid := trim_space cid in
  if bool_decide (cid = "") || bool_decide (cid = "<nil>") then throw (ErrText "115 mkdir response did not contain a CID")
  else mret cid.

(** [ProviderQuark.Mkdir]. *)
Definition quark_Mkdir (a : account) (parent name : string) : Pi string :=
  let name := trim_space name in
  if bool_decide (name = "") || contains_any name [byte 47; nul] then throw (ErrText "directory name is invalid") else
  let parent := or_root parent in
  id ← call (λ h, rm_mkdir h "quark" a.1 parent name) (AMkdir "quark" a.1 parent name);
  let id := trim_space id in
  if bool_decide (id = "") then throw (ErrText "quark mkdir response did not contain an ID") else mret id.

Definition MkdirProvider (provider accountID parent name : string) : Pi string :=
  a ← getAccountForProvider provider accountID;
  provider ← lift (normalizeProvider provider);
  if bool_decide (provider = "115") then makeDir a.1 parent name else quark_Mkdir a parent name.

(** One segment of [resolveRelativeDestination]. *)
Definition resolve_segment (accountID current segment : string) : Pi string :=
  if bool_decide (segment = "..") || contains_any segment [nul; byte 47] then
    throw (ErrText "invalid destination path segment")
  else
  files ← listAllProviderFiles "115" accountID current;
  next ← match find (λ f, bool_decide (df_Name f = segment)) files with
         | Some f => if negb (df_IsFolder f) then
                       throw (ErrText ("115 destination path conflicts with file " +:+ segment))
                     else mret (df_FileID f)
         | None => mret ""
         end;
  if bool_decide (next = "") then
    created ← MkdirProvider "115" accountID current segment;
    files ← listAllProviderFiles "115" accountID current;
    match find (λ f, bool_decide (df_FileID f = created) && bool_decide (df_Name f = segment) && df_IsFolder f
                     && bool_decide (df_ParentID f = current)) files with
    | Some _ => if bool_decide (created = "") then
                  throw (ErrText ("115 mkdir result for " +:+ segment +:+ " could not be verified in parent " +:+ current))
                else mret created
    | None => throw (ErrText ("115 mkdir result for " +:+ segment +:+ " could not be verified in parent " +:+ current))
    end
  else mret next.

Definition resolveRelativeDestination (accountID base relative : string) : Pi string :=
  if bool_decide (relative = ".") || bool_decide (relative = "") then mret base else
  m_fold (λ current segment,
    if bool_decide (segment = "") || bool_decide (segment = ".") then mret current
    else resolve_segment accountID current segment) (split_on slash relative) base.

Definition resolveImportDestination (accountID : string) : Pi string :=
  resolveRelativeDestination accountID "0" (join_path ["emby"; "_待整理"]).

(** ** Shares of Quark *)

Definition shareTokenWithTitle (a : account) (rawURL password : string) : Pi (string * string * string) :=
  '(shareID, passcode) ← lift (parseQuarkShare rawURL password);
  '(stoken, title) ← call (λ h, rm_share_token h a.1 shareID passcode) (AShareToken a.1 shareID passcode);
  if bool_decide (stoken = "") then throw (ErrText "Quark share is expired or password is invalid")
  else mret (shareID, stoken, trim_space title).

(** [quarkShareRevision] of the object behind an entry; [strconv.FormatBool]. *)
Definition quarkShareRevision (e : ShareEntry) : string :=
  let revision := trim_space (se_Revision e) in
  if negb (bool_decide (revision = "")) then revision
  else "identity-v1:" +:+ sha256_hex (join nul_string [se_ID e; se_Name e; pretty (se_Size e);
         if se_IsDir e then "true" else "false"]).

(** One object of a page of [shareEntries]. *)
Definition accept_entry (parent : string) (entries : list ShareEntry) (item : ShareEntry) : res (list ShareEntry) :=
  if bool_decide (se_ID item = "") || negb (valid_name (se_Name item)) then
    Err (ErrText "quark file response contains an invalid object")
  else if negb (se_IsDir item) && Z.ltb (se_Size item) 0 then
    Err (ErrText ("quark object " +:+ se_ID item +:+ " has an invalid file size"))
  else if negb (bool_decide (parent = "0")) && negb (bool_decide (se_ParentID item = ""))
          && negb (bool_decide (se_ParentID item = "0")) && negb (bool_decide (se_ParentID item = parent)) then
    Err (ErrText ("quark object " +:+ se_ID item +:+ " belongs to parent " +:+ se_ParentID item +:+ ", not " +:+ parent))
  else if bool_decide (se_ID item ∈ se_ID <$> entries) then
    Err (ErrText ("Quark share snapshot repeated object " +:+ se_ID item))
  else
    let entry := mkEntry (se_ID item) (se_ParentID item) (quarkShareRevision item) (se_ShareToken item) (se_Name item)
                   (se_Size item) (se_IsDir item) [] in
    if Z.ltb quarkMaxEntries (Z.of_nat (length entries) + 1) then
      Err (ErrText ("Quark share contains more than " +:+ pretty quarkMaxEntries +:+ " entries"))
    else Ok (entries ++ [entry]).

(** The pages of [shareEntries]; a page adds at least one entry or ends the loop, so
    [quarkMaxEntries + 1] rounds are never exceeded ([share_entries_total]). *)
Fixpoint share_pages (a : account) (shareID stoken parent : string) (rounds : nat) (page : Z) (entries : list ShareEntry)
    : Pi (list ShareEntry) :=
  match rounds with
  | O => throw (ErrText "share pagination out of rounds")
  | S rounds =>
      list_ ← call (λ h, rm_share_page h a.1 shareID stoken parent page) (ASharePage a.1 shareID stoken parent page);
      if bool_decide (length list_ = 0) then mret entries else
      entries ← lift (res_fold (accept_entry parent) list_ entries);
      if bool_decide (length list_ < 100) then mret entries
      else share_pages a shareID stoken parent rounds (page + 1) entries
  end.

Definition share_rounds : nat := Z.to_nat quarkMaxEntries + 2.

Definition shareEntries (a : account) (shareID stoken parent : string) : Pi (list ShareEntry) :=
  share_pages a shareID stoken (or_root parent) share_rounds 1 [].

(** [snapshotShareTree]'s walk: [levels] is how many directory levels are still
    allowed; the directories and entries seen, newest last. *)
Record tree_state := mkTree { ts_dirs : list string; ts_entries : list ShareEntry }.

Definition placed (parent : string) (ancestors : list string) (e : ShareEntry) : ShareEntry :=
  mkEntry (se_ID e) parent (se_Revision e) (se_ShareToken e) (se_Name e) (se_Size e) (se_IsDir e) ancestors.

(** One object of a directory; [walk] visits a directory below it. *)
Definition visit_entry (walk : string → list string → tree_state → Pi tree_state) (parent : string)
    (ancestors : list string) (st : tree_state) (e : ShareEntry) : Pi tree_state :=
  if bool_decide (se_ID e ∈ se_ID <$> ts_entries st) then
    throw (ErrText ("Quark share tree repeated object " +:+ se_ID e))
  else if Z.ltb quarkMaxEntries (Z.of_nat (length (ts_entries st)) + 1) then
    throw (ErrText ("Quark share tree contains more than " +:+ pretty quarkMaxEntries +:+ " entries"))
  else
    let st := mkTree (ts_dirs st) (ts_entries st ++ [placed parent ancestors e]) in
    if se_IsDir e then walk (se_ID e) (ancestors ++ [se_Name e]) st else mret st.

Fixpoint share_walk (a : account) (shareID stoken : string) (levels : nat) (parent : string) (ancestors : list string)
    (st : tree_state) : Pi tree_state :=
  match levels with
  | O => throw (ErrText ("Quark share directory depth exceeds " +:+ pretty quarkMaxDepth))
  | S levels =>
      let parent := or_root parent in
      if bool_decide (parent ∈ ts_dirs st) then
        throw (ErrText ("Quark share directory " +:+ parent +:+ " was repeated"))
      else
      direct ← shareEntries a shareID stoken parent;
      m_fold (visit_entry (share_walk a shareID stoken levels) parent ancestors) direct
        (mkTree (ts_dirs st ++ [parent]) (ts_entries st))
  end.

Definition tree_levels : nat := Z.to_nat (quarkMaxDepth + 1).

Definition snapshotShareTree (a : account) (shareID stoken : string) : Pi (list ShareEntry) :=
  st ← share_walk a shareID stoken tree_levels "0" [] (mkTree [] []);
  mret (ts_entries st).

Definition quark_SnapshotShareTree (a : account) (rawURL password : string) : Pi ShareSnapshot :=
  '(shareID, stoken, title) ← shareTokenWithTitle a rawURL password;
  entries ← snapshotShareTree a shareID stoken;
  mret (mkSnapshot title entries).

(** [waitTask]: [rounds] polls are left. *)
Fixpoint wait_task (a : account) (taskID : string) (rounds : nat) : Pi (list string) :=
  match rounds with
  | O => throw (ErrText "Quark share save task did not complete before timeout")
  | S rounds =>
      t ← call (λ h, rm_save_task h a.1 taskID) (ASaveTask a.1 taskID);
      let status := to_lower (st_status t) in
      if bool_decide (status = "2") || bool_decide (status = "success") || negb (bool_decide (st_finished t = "")) then
        let ids := if bool_decide (length (st_top t) = 0) then st_fids t else st_top t in
        if bool_decide (length ids = 0) then throw (ErrText "Quark task completed without saved object IDs")
        else lift (quarkIDSlice ids)
      else if bool_decide (status = "3") || bool_decide (status = "failed") || negb (bool_decide (st_error t = "")) then
        throw (ErrText ("Quark share save failed: " +:+ (if bool_decide (st_error t = "") then st_message t else st_error t)))
      else
        _ ← sleepContext second;
        wait_task a taskID rounds
  end.
Definition waitTask (a : account) (taskID : string) : Pi (list string) := wait_task a taskID 120.

(** The loop that waits for the saved objects to appear: [rounds] attempts are left. *)
Fixpoint await_roots (a : account) (parent : string) (entries : list ShareEntry) (before : list DriveFile)
    (rootIDs : list string) (rounds : nat) : Pi (list string) :=
  match rounds with
  | O => throw (ErrText "Quark saved objects did not appear in the target directory")
  | S rounds =>
      after ← wrap "list Quark target after share save: " (listDirectoryAll a parent);
      match resolveQuarkSavedRoots entries before after rootIDs with
      | Ok resolved => mret resolved
      | Err e => if bool_decide (rounds = 0) then throw e
                 else _ ← sleepContext second; await_roots a parent entries before rootIDs rounds
      end
  end.

(** What [SaveShare] and [saveShareSelections] share, from the entries to save on. *)
Definition save_entries (a : account) (shareID stoken parent : string) (entries : list ShareEntry) : Pi (list string) :=
  let parent := or_root parent in
  before ← wrap "list Quark target before share save: " (listDirectoryAll a parent);
  tokens ← lift (save_tokens entries);
  '(taskID, fids) ← call (λ h, rm_share_save h a.1 shareID stoken (se_ID <$> entries) tokens parent)
                      (AShareSave a.1 shareID stoken (se_ID <$> entries) tokens parent);
  rootIDs ← lift (quarkIDSlice fids);
  rootIDs ← (if bool_decide (length rootIDs = 0) && negb (bool_decide (taskID = "")) then waitTask a taskID
             else mret rootIDs);
  await_roots a parent entries before rootIDs 30.

Definition quark_SaveShare (a : account) (rawURL password parent : string) : Pi SavedShare :=
  '(shareID, stoken, _) ← shareTokenWithTitle a rawURL password;
  entries ← shareEntries a shareID stoken "0";
  if bool_decide (length entries = 0) then throw (ErrText "Quark share is empty or expired") else
  resolved ← save_entries a shareID stoken parent entries;
  mret (mkSaved "" resolved (Z.of_nat (length resolved))).

Definition saveShareSelections (a : account) (rawURL password parent : string) (selections : list ShareSelection)
    (exact : bool) : Pi SavedShare :=
  '(shareID, stoken, title) ← shareTokenWithTitle a rawURL password;
  entries ← snapshotShareTree a shareID stoken;
  selected ← lift (if exact then selectShareSelections entries selections
                   else selectShareEntries entries (sel_ID <$> selections));
  resolved ← save_entries a shareID stoken parent selected;
  mret (mkSaved title resolved (Z.of_nat (length resolved))).

(** [SaveProviderShare] and [SaveProviderShareSelections] on Quark, the provider an
    import saves from. *)
Definition SaveProviderShare (accountID rawURL password parent : string) : Pi SavedShare :=
  a ← getAccountForProvider "quark" accountID;
  quark_SaveShare a rawURL password parent.
Definition SaveProviderShareSelections (accountID rawURL password parent : string) (selections : list ShareSelection)
    : Pi SavedShare :=
  a ← getAccountForProvider "quark" accountID;
  saveShareSelections a rawURL password parent selections true.

End Drive.
