(* ===== verification/DriveProofs.v ===== *)
(** Correctness of the drive layer ([Drive.v]): what its calls ask of the providers,
    listings are complete, a share is walked as its tree is defined, a selection is
    saved as previewed, deletion targets are objects that were listed. *)
From S2P Require Import Prelude GoStrings GoPath Sql Schema Accounts Protocol FileSys Payload Remote Drive.
From Stdlib Require Import Ascii.

(** ** Frame: what the calls ask, and what they do to the database *)

Section Frame.
Context `{Env} `{Ctx} `{Sleep} `{Remote} `{Urls} `{Sha256}.
Context (P : action → Prop) (RD : Database → Database → Prop) `{!PreOrder RD}.
Hypothesis Hsave : ∀ r, keeps RD (SaveAccount "default" r).
Hypothesis Hlist : ∀ p a d o l r, P (AList p a d o l r).
Abbreviation R := (pipe_rel P RD).

Lemma keeps_GetDefaultAccount p : keeps R (GetDefaultAccount p).
Proof. unfold GetDefaultAccount, ListAccounts, GetSetting. keeps_run. Qed.
Hint Resolve keeps_GetDefaultAccount : keeps.

Lemma keeps_getAccountForProvider p id : keeps R (getAccountForProvider p id).
Proof. unfold getAccountForProvider, ListAccounts. keeps_run. Qed.
Lemma keeps_getAccount id : keeps R (getAccount id).
Proof. unfold getAccount, ListAccounts. keeps_run. Qed.
Hint Resolve keeps_getAccountForProvider keeps_getAccount : keeps.

Lemma keeps_listFiles a d o l : keeps R (listFiles a d o l).
Proof. unfold listFiles. keeps_run. Qed.
Lemma keeps_quark_ListFiles a d o l : keeps R (quark_ListFiles a d o l).
Proof. unfold quark_ListFiles. keeps_run. Qed.
Hint Resolve keeps_listFiles keeps_quark_ListFiles : keeps.

Lemma keeps_ListProviderFiles p a d o l : keeps R (ListProviderFiles p a d o l).
Proof. unfold ListProviderFiles. keeps_run. Qed.
Hint Resolve keeps_ListProviderFiles : keeps.

Lemma keeps_listAllProviderFiles p a d : keeps R (listAllProviderFiles p a d).
Proof.
  unfold listAllProviderFiles. generalize (@nil DriveFile), 0%Z.
  induction (page_rounds 200) as [|n IH]; intros result offset; simpl; keeps_run; apply IH.
Qed.
Lemma keeps_listDirectoryAll a d : keeps R (listDirectoryAll a d).
Proof.
  unfold listDirectoryAll. generalize (@nil DriveFile), 0%Z.
  induction (page_rounds 200) as [|n IH]; intros result offset; simpl; keeps_run; apply IH.
Qed.
Hint Resolve keeps_listAllProviderFiles keeps_listDirectoryAll : keeps.

Section Mkdir.
Hypothesis Hmkdir : ∀ p a d n r, P (AMkdir p a d n r).

Lemma keeps_MkdirProvider p a d n : keeps R (MkdirProvider p a d n).
Proof. unfold MkdirProvider, makeDir, quark_Mkdir. keeps_run. Qed.
Hint Resolve keeps_MkdirProvider : keeps.

Lemma keeps_resolveRelativeDestination a base relative : keeps R (resolveRelativeDestination a base relative).
Proof. unfold resolveRelativeDestination, resolve_segment. keeps_run. Qed.
End Mkdir.

Section Shares.
Hypothesis Htoken : ∀ a s p r, P (AShareToken a s p r).
Hypothesis Hpage : ∀ a s t d p r, P (ASharePage a s t d p r).

Lemma keeps_shareTokenWithTitle a u p : keeps R (shareTokenWithTitle a u p).
Proof. unfold shareTokenWithTitle. keeps_run. Qed.
Hint Resolve keeps_shareTokenWithTitle : keeps.

Lemma keeps_shareEntries a s t d : keeps R (shareEntries a s t d).
Proof.
  unfold shareEntries. generalize (@nil ShareEntry), 1%Z, (or_root d).
  induction share_rounds as [|n IH]; intros entries page dir; simpl; keeps_run; apply IH.
Qed.
Hint Resolve keeps_shareEntries : keeps.

Lemma keeps_share_walk a s t n d anc st : keeps R (share_walk a s t n d anc st).
Proof. revert d anc st. induction n as [|n IH]; intros d anc st; simpl; unfold visit_entry; keeps_run; apply IH. Qed.
Hint Resolve keeps_share_walk : keeps.
Lemma keeps_snapshotShareTree a s t : keeps R (snapshotShareTree a s t).
Proof.
  unfold snapshotShareTree. apply keeps_bind; [apply _|apply keeps_share_walk|]. intros. apply keeps_ret, _.
Qed.
Hint Resolve keeps_snapshotShareTree : keeps.

Hypothesis Htask : ∀ a t r, P (ASaveTask a t r).

Lemma keeps_waitTask a t : keeps R (waitTask a t).
Proof. unfold waitTask. induction (120 : nat) as [|n IH]; simpl; keeps_run. Qed.
Lemma keeps_await_roots a d es before roots n : keeps R (await_roots a d es before roots n).
Proof. induction n as [|n IH]; simpl; keeps_run. Qed.
Hint Resolve keeps_waitTask keeps_await_roots : keeps.

Hypothesis Hsaves : ∀ a s t ids tokens d r, P (AShareSave a s t ids tokens d r).

Lemma keeps_save_entries a s t d es : keeps R (save_entries a s t d es).
Proof. unfold save_entries. keeps_run. Qed.
Hint Resolve keeps_save_entries : keeps.

Lemma keeps_SaveProviderShareSelections a u p d sel : keeps R (SaveProviderShareSelections a u p d sel).
Proof. unfold SaveProviderShareSelections, saveShareSelections. keeps_run. Qed.
Lemma keeps_SaveProviderShare a u p d : keeps R (SaveProviderShare a u p d).
Proof. unfold SaveProviderShare, quark_SaveShare. keeps_run. Qed.
End Shares.

End Frame.

(** ** Selections *)

Definition output_key (e : ShareEntry) : string := to_lower (trim_space (se_Name e)).

Lemma index_loop entries m m' :
  res_fold index_entry entries m = Ok m' ↔
  Forall (λ e, se_ID e ≠ "") entries ∧ NoDup (se_ID <$> entries) ∧ (∀ e, e ∈ entries → m !! se_ID e = None)
  ∧ m' = foldl (λ m e, <[se_ID e := e]> m) m entries.
Proof.
  revert m. induction entries as [|e entries IH]; intros m; simpl.
  - split; [intros [= <-]|intros (_ & _ & _ & ->); done]. repeat split; try constructor. intros e He. by apply not_elem_of_nil in He.
  - rewrite NoDup_cons, Forall_cons. unfold index_entry at 1. case_bool_decide as Hid; [split; [done|naive_solver]|].
    destruct (m !! se_ID e) as [x|] eqn:Em.
    { split; [done|]. intros (_ & _ & Hm & _). rewrite Hm in Em by (by left). done. }
    rewrite IH. split.
    + intros (Hf & Hn & Hm & ->). split; [done|]. split; [split; [|done]|split; [|done]].
      * intros (e' & He & Hin)%list_elem_of_fmap. specialize (Hm e' Hin). rewrite <-He, lookup_insert_eq in Hm. done.
      * intros e' [->|He']%elem_of_cons; [done|]. specialize (Hm e' He'). apply lookup_insert_None in Hm. naive_solver.
    + intros ([_ Hf] & [Hnin Hn] & Hm & ->). split; [done|]. split; [done|]. split; [|done].
      intros e' He'. rewrite lookup_insert_ne; [apply Hm; by right|]. intros Heq. apply Hnin. rewrite Heq. by apply list_elem_of_fmap_2.
Qed.

Lemma indexed_lookup entries (m : gmap string ShareEntry) id :
  NoDup (se_ID <$> entries) →
  foldl (λ m e, <[se_ID e := e]> m) m entries !! id =
  match find (λ e, bool_decide (se_ID e = id)) entries with Some e => Some e | None => m !! id end.
Proof.
  revert m. induction entries as [|e entries IH]; intros m Hn; csimpl; [done|].
  apply NoDup_cons in Hn as [Hnin Hn]. rewrite IH by done. case_bool_decide as He.
  - destruct (find _ entries) as [e'|] eqn:Ef; [|by rewrite He, lookup_insert_eq].
    apply find_some in Ef as [Hin Hb]. bools. destruct Hnin. rewrite He, <-Hb. apply list_elem_of_fmap_2, list_elem_of_In, Hin.
  - destruct (find _ entries); [done|]. by rewrite lookup_insert_ne.
Qed.

Lemma find_unique {A} (f : A → string) l x :
  NoDup (f <$> l) → find (λ y, bool_decide (f y = f x)) l = Some x ↔ x ∈ l.
Proof.
  intros Hn. split.
  - intros [Hin _]%find_some. by apply list_elem_of_In.
  - intros Hin. induction l as [|y l IH]; [by apply not_elem_of_nil in Hin|]. apply NoDup_cons in Hn as [Hnin Hn]. simpl.
    case_bool_decide as Hy.
    + apply elem_of_cons in Hin as [->|Hin]; [done|]. destruct Hnin. rewrite Hy. by apply list_elem_of_fmap_2.
    + apply elem_of_cons in Hin as [->|Hin]; [done|]. by apply IH.
Qed.

(** What a requested ID must select. *)
Definition leaf_for (byID : gmap string ShareEntry) (id : string) (e : ShareEntry) : Prop :=
  byID !! id = Some e ∧ trim_space id ≠ "" ∧ se_IsDir e = false ∧ output_key e ≠ "".

#[local] Arguments select_entry : simpl never.

#[local] Ltac refuse :=
  right; split; [let e := fresh in intros e ((? & ? & ? & ?) & ? & ?); congruence|by eexists].

Lemma select_loop byID ids sel names out :
  (∀ id e, byID !! id = Some e → se_ID e = id) →
  (∀ k, is_Some (names !! k) ↔ k ∈ output_key <$> sel) →
  NoDup (se_ID <$> sel) → NoDup (output_key <$> sel) →
  (∃ names', res_fold (select_entry byID) ids (sel, names) = Ok (out, names')) ↔
  ∃ new, out = sel ++ new ∧ Forall2 (leaf_for byID) ids new ∧ NoDup (se_ID <$> out) ∧ NoDup (output_key <$> out).
Proof.
  intros Hid. revert sel names out. induction ids as [|id ids IH]; intros sel names out Hnames Hn1 Hn2; simpl.
  { split.
    - intros (names' & [= <- <-]). exists []. by rewrite app_nil_r.
    - intros (new & -> & Hf & _). inversion_clear Hf. rewrite app_nil_r. eauto. }
  set (good e := leaf_for byID id e ∧ id ∉ se_ID <$> sel ∧ output_key e ∉ output_key <$> sel).
  assert ((∃ e, good e ∧ select_entry byID (sel, names) id = Ok (sel ++ [e], <[output_key e := id]> names))
          ∨ (∀ e, ¬ good e) ∧ ∃ err, select_entry byID (sel, names) id = Err err) as [(e & (Hl & Hi & Hk) & ->)|[Hbad (err & ->)]].
  { unfold select_entry, good, leaf_for. case_bool_decide as H1; [refuse|].
    case_bool_decide as H2; [refuse|].
    destruct (byID !! id) as [e|] eqn:Eb; [|refuse].
    destruct (se_IsDir e) eqn:Ed; [refuse|]. fold (output_key e).
    case_bool_decide as H3; [refuse|].
    destruct (names !! output_key e) as [pr|] eqn:En.
    - right. split; [|eauto]. intros e' ((Hb & _) & _ & Hk). simplify_eq. apply Hk, Hnames. eauto.
    - left. exists e. split; [|done]. split; [done|]. split; [done|]. intros Hk%Hnames. rewrite En in Hk. by destruct Hk. }
  - rewrite IH.
    + split.
      * intros (new & -> & Hf & Ho). exists (e :: new). rewrite <-app_assoc in *. split; [done|]. split; [by constructor|done].
      * intros (new & -> & Hf & Ho). inversion Hf as [|? e' ? new' He' Hf']; subst. destruct He' as [He' _].
        destruct Hl as [Hl _]. assert (e' = e) as -> by congruence. exists new'. rewrite <-app_assoc. done.
    + intros k. rewrite fmap_app, elem_of_app. simpl. rewrite list_elem_of_singleton, <-Hnames.
      destruct (decide (k = output_key e)) as [->|Hke]; [rewrite lookup_insert_eq; naive_solver|rewrite lookup_insert_ne by done; naive_solver].
    + rewrite fmap_app. apply NoDup_app. split; [done|]. split; [|apply NoDup_singleton].
      intros x Hx ->%list_elem_of_singleton. destruct Hl as [Hl _]. by rewrite (Hid _ _ Hl) in Hx.
    + rewrite fmap_app. apply NoDup_app. split; [done|]. split; [|apply NoDup_singleton]. by intros x Hx ->%list_elem_of_singleton.
  - split; [by intros (? & ?)|]. intros (new & -> & Hf & Ho1 & Ho2). inversion Hf as [|? e ? new' He Hf']; subst.
    destruct (Hbad e). split; [done|]. rewrite !fmap_app in *. simpl in *. pose proof He as [Hb _]. apply Hid in Hb.
    apply NoDup_app in Ho1 as (_ & Ho1 & _), Ho2 as (_ & Ho2 & _).
    split; intros Hx; [eapply (Ho1 _ Hx)|eapply (Ho2 _ Hx)]; rewrite ?Hb; by left.
Qed.

(** What is required of a share before anything can be selected from it. *)
Definition well_indexed (entries : list ShareEntry) : Prop :=
  Forall (λ e, se_ID e ≠ "") entries ∧ NoDup (se_ID <$> entries).

Lemma selectShareEntries_ok entries ids selected :
  selectShareEntries entries ids = Ok selected ↔
  ids ≠ [] ∧ well_indexed entries ∧ NoDup ids ∧ NoDup (output_key <$> selected) ∧
  Forall2 (λ id e, se_ID e = id ∧ e ∈ entries ∧ trim_space id ≠ "" ∧ se_IsDir e = false ∧ output_key e ≠ "") ids selected.
Proof.
  unfold selectShareEntries. case_bool_decide as Hlen.
  { split; [done|]. intros [Hn _]. by apply length_zero_iff_nil in Hlen. }
  assert (ids ≠ []) as Hne by (intros ->; done).
  rewrite res_bind_ok. split.
  - intros (m & (Hf & Hnd & _ & ->)%index_loop & Hsel). apply res_bind_ok in Hsel as ([out names'] & Hfold & [= <-]). simpl.
    set (byID := foldl _ _ _) in *.
    assert (∀ id e, byID !! id = Some e ↔ e ∈ entries ∧ se_ID e = id) as Hby.
    { intros id e. unfold byID. rewrite indexed_lookup by done. destruct (find _ entries) as [e'|] eqn:Ef.
      - pose proof (find_some _ _ Ef) as [Hin Hb]. bools. split.
        + intros [= <-]. split; [by apply list_elem_of_In|done].
        + intros [Hin' <-]. rewrite <-(find_unique se_ID) in Hin' by done. simpl in *. congruence.
      - rewrite lookup_empty. split; [done|]. intros [Hin' <-]. rewrite <-(find_unique se_ID) in Hin' by done. simpl in *. congruence. }
    destruct (proj1 (select_loop byID ids [] ∅ out ltac:(intros id e [_ ?]%Hby; done)
      ltac:(intros k; rewrite lookup_empty; simpl; split; [by intros []|by intros ?%not_elem_of_nil])
      (NoDup_nil_2) (NoDup_nil_2)) ltac:(eauto)) as (new & -> & Hall & Ho1 & Ho2).
    assert (Forall2 (λ id e, se_ID e = id ∧ e ∈ entries ∧ trim_space id ≠ "" ∧ se_IsDir e = false ∧ output_key e ≠ "") ids new) as Hall'.
    { eapply Forall2_impl; [exact Hall|]. intros id e (Hb & ? & ? & ?). apply Hby in Hb as [? ?]. done. }
    split; [done|]. split; [done|]. split; [|done]. simpl in Ho1. replace ids with (se_ID <$> new); [done|].
    clear -Hall'. induction Hall' as [|id e ids new (He & _) Hall IH]; csimpl; [done|]. by rewrite He, IH.
  - intros (_ & [Hf Hnd] & Hids & Hnames & Hall). eexists. split; [apply index_loop; split_and!; [done|done|intros; apply lookup_empty|reflexivity]|].
    set (byID := foldl _ _ _). apply res_bind_ok.
    assert (∀ id e, byID !! id = Some e → se_ID e = id) as Hid.
    { intros id e. unfold byID. rewrite indexed_lookup by done. destruct (find _ entries) as [e'|] eqn:Ef; [|by rewrite lookup_empty].
      apply find_some in Ef as [_ Hb]. bools. by intros [= <-]. }
    destruct (proj2 (select_loop byID ids [] ∅ selected Hid
      ltac:(intros k; rewrite lookup_empty; simpl; split; [by intros []|by intros ?%not_elem_of_nil])
      (NoDup_nil_2) (NoDup_nil_2))) as (names' & Hfold).
    { exists selected. split; [done|]. split; [|split; [|done]].
      - eapply Forall2_impl; [exact Hall|]. intros id e (<- & Hin & ? & ? & ?). split; [|done].
        unfold byID. rewrite indexed_lookup by done. by rewrite (proj2 (find_unique se_ID entries e Hnd) Hin).
      - replace (se_ID <$> selected) with ids; [done|]. clear -Hall. induction Hall as [|id e ids new (He & _) Hall IH]; csimpl; [done|].
        by rewrite He, IH. }
    exists (selected, names'). by split.
Qed.

(** A saved selection is the previewed one: selecting succeeds exactly when the
    fresh snapshot has usable IDs and every selection names, in order, one file leaf of
    it with the previewed name, size and revision, no ID twice and no two output names
    that differ in case or surrounding space only; then those leaves are what is saved. *)
Theorem selection_exact entries selections selected :
  selectShareSelections entries selections = Ok selected ↔
  selections ≠ [] ∧ well_indexed entries ∧ NoDup (sel_ID <$> selections) ∧ NoDup (output_key <$> selected) ∧
  Forall2 (λ s e, e ∈ entries ∧ se_IsDir e = false ∧ se_ID e = sel_ID s ∧ trim_space (sel_ID s) ≠ "" ∧ output_key e ≠ "" ∧
    se_Name e = sel_Name s ∧ se_Size e = sel_Size s ∧ se_Revision e = sel_Revision s ∧ sel_Name s ≠ "" ∧ sel_Revision s ≠ "")
    selections selected.
Proof.
  unfold selectShareSelections. rewrite res_bind_ok. setoid_rewrite selectShareEntries_ok.
  assert (∀ s e, same_selection s e = true ↔ sel_Name s ≠ "" ∧ sel_Revision s ≠ "" ∧ se_Name e = sel_Name s
    ∧ se_Size e = sel_Size s ∧ se_Revision e = sel_Revision s) as Hsame.
  { intros s e. unfold same_selection. rewrite !andb_true_iff, !negb_true_iff, !bool_decide_eq_false, !bool_decide_eq_true, Z.eqb_eq. tauto. }
  split.
  - intros (sel & (Hne & Hw & Hn & Hk & Hall) & Heach). apply res_bind_ok in Heach as ([] & Heach & [= <-]).
    rewrite res_each_ok in Heach. split; [intros ->; by destruct Hne|]. do 3 (split; [done|]).
    assert (length selections = length sel) as Hlen by (rewrite <-(Forall2_length _ _ _ Hall); by rewrite length_fmap).
    apply Forall2_same_length_lookup. split; [done|]. intros i s e Hs He.
    rewrite Forall2_lookup in Hall. specialize (Hall i). rewrite list_lookup_fmap, Hs, He in Hall. inversion Hall as [? ? (? & ? & ? & ? & ?)|]; subst.
    specialize (Heach (e, s)). simpl in Heach. destruct (same_selection s e) eqn:E.
    + apply Hsame in E as (? & ? & ? & ? & ?). by split_and!.
    + discriminate Heach. apply list_elem_of_lookup. exists i. by rewrite lookup_zip_with, He, Hs.
  - intros (Hne & Hw & Hn & Hk & Hall). exists selected. split.
    + split; [by destruct selections|]. do 3 (split; [done|]). apply Forall2_fmap_l. eapply Forall2_impl; [exact Hall|].
      intros s e (? & ? & ? & ? & ? & _). by split_and!.
    + apply res_bind_ok. exists tt. split; [|done]. apply res_each_ok. intros [e s] Hin. simpl.
      apply list_elem_of_lookup in Hin as [i Hi]. rewrite lookup_zip_with in Hi.
      destruct (selected !! i) as [e'|] eqn:He; [|done]. simpl in Hi. destruct (selections !! i) as [s'|] eqn:Hs; [|done]. simplify_eq/=.
      rewrite Forall2_lookup in Hall. specialize (Hall i). rewrite Hs, He in Hall. inversion Hall as [? ? Hse|]; subst.
      destruct Hse as (_ & _ & _ & _ & _ & ? & ? & ? & ? & ?). rewrite (proj2 (Hsame s e)); [done|]. by split_and!.
Qed.

(** ** Listings *)

Lemma wp_bind_any {D A B} (m : M D A) (f : A → M D B) w Q :
  (∀ a w', wp (f a) w' Q) → (∀ e w', Q (Err e) w') → wp (m ≫= f) w Q.
Proof. intros Hf He. apply wp_bind, wp_intro. intros [a|e] w' _; auto. Qed.

(** A provider whose directories do not change. *)
Definition serves `{Remote} (provider : string) (dir : string → list DriveFile) : Prop :=
  ∀ h a parent offset limit, rm_list h provider a parent offset limit =
    Ok (take (Z.to_nat limit) (drop (Z.to_nat offset) (dir parent)), Z.of_nat (length (dir parent))).

(** What a directory of a drive is like. *)
Record directory (parent : string) (l : list DriveFile) : Prop := {
  dir_parent : ∀ f, f ∈ l → df_ParentID f = parent;
  dir_ids : NoDup (df_FileID <$> l);
  dir_valid : ∀ f, f ∈ l → df_FileID f ≠ "" ∧ df_FileID f ≠ "0" ∧ valid_name (df_Name f) = true ∧ (0 ≤ df_Size f)%Z;
  dir_size : (Z.of_nat (length l) ≤ quarkMaxEntries)%Z
}.

Lemma add_new_fresh result files :
  NoDup (df_FileID <$> result ++ files) → add_new result files = result ++ files.
Proof.
  unfold add_new. revert result. induction files as [|f files IH]; intros result Hn; simpl; [by rewrite app_nil_r|].
  rewrite bool_decide_false.
  - rewrite IH; rewrite <-app_assoc; done.
  - intros Hin. rewrite fmap_app in Hn. apply NoDup_app in Hn as (_ & Hd & _). eapply Hd; [done|]. by left.
Qed.

Lemma NoDup_fmap_take {A B} (f : A → B) (l : list A) n : NoDup (f <$> l) → NoDup (f <$> take n l).
Proof. intros Hn. rewrite <-(take_drop n l), fmap_app in Hn. by apply NoDup_app in Hn as [? _]. Qed.

Lemma take_next {A} (l : list A) n m : take n l ++ take m (drop n l) = take (n + m) l.
Proof.
  revert n. induction l as [|x l IH]; intros [|n]; simpl; rewrite ?take_nil, ?drop_nil; try done.
  by rewrite IH.
Qed.

Section Listings.
Context `{Env} `{Ctx} `{Sleep} `{Remote} `{Urls} `{Sha256}.
Context (p : string) (dir : string → list DriveFile).
Hypothesis Hp : normalizeProvider p = Ok p.
Hypothesis Hserves : serves p dir.

Lemma provider_name : p = "115" ∨ p = "quark".
Proof.
  pose proof Hp as Hn. unfold normalizeProvider in Hn. destruct (_ || _) eqn:E; [|done]. injection Hn as Hn. rewrite Hn in E.
  apply orb_true_iff in E. rewrite !bool_decide_eq_true in E. done.
Qed.

(** A page, when one is returned, is that of the directory. *)
Lemma page_served acct parent offset w :
  (0 ≤ offset)%Z →
  wp (ListProviderFiles p acct parent offset 200) w (λ r _, ∀ files total, r = Ok (files, total) →
    files = take 200 (drop (Z.to_nat offset) (dir (or_root parent))) ∧ total = Z.of_nat (length (dir (or_root parent)))).
Proof.
  intros Hoff. unfold ListProviderFiles. apply wp_bind_any; [|done]. intros a w1. apply wp_bind, wp_lift. rewrite Hp.
  assert (Z.ltb offset 0 = false) as Hlt by (apply Z.ltb_ge; done).
  destruct provider_name as [Hn|Hn]; rewrite Hn in *; simpl.
  - unfold listFiles. apply wp_bind_any; [|done]. intros a' w2. apply wp_bind, wp_call. intros n. simpl. rewrite Hlt, Hserves. simpl.
    wp_step; [by apply wp_throw|]. apply wp_bind, wp_lift. destruct (res_each _ _); [|done]. apply wp_ret.
    intros files total [= <- <-]. done.
  - unfold quark_ListFiles. apply wp_bind, wp_call. intros n. simpl. rewrite Hlt, Hserves. simpl. apply wp_bind, wp_lift.
    destruct (res_fold _ _ _); [|done]. wp_step; [by apply wp_throw|]. apply wp_ret. intros files total [= <- <-]. done.
Qed.

Lemma list_all_served acct parent rounds k w :
  NoDup (df_FileID <$> dir (or_root parent)) →
  wp (list_all p acct parent rounds (200 * Z.of_nat k) (take (200 * k) (dir (or_root parent)))) w
    (λ r _, ∀ l, r = Ok l → l = dir (or_root parent)).
Proof.
  intros Hn. revert k w. induction rounds as [|rounds IH]; intros k w; cbn [list_all]; [done|].
  apply wp_bind. eapply wp_mono; [apply page_served; lia|]. intros [[files total]|e] w1 Hpage; [|done].
  destruct (Hpage files total eq_refl) as [Hf ->]. replace (Z.to_nat (200 * Z.of_nat k)) with (200 * k) in Hf by lia.
  set (L := dir (or_root parent)) in *.
  assert (add_new (take (200 * k) L) files = take (200 * S k) L) as Hadd.
  { rewrite Hf, add_new_fresh; rewrite take_next; [f_equal; lia|by apply NoDup_fmap_take]. }
  rewrite Hadd. destruct (_ && _); [by apply wp_throw|].
  destruct (_ || _) eqn:Hend.
  - apply wp_ret. intros l [= <-]. apply take_ge. rewrite Hf in Hend.
    apply orb_true_iff in Hend. rewrite bool_decide_eq_true, Z.leb_le, length_take, length_drop in Hend. lia.
  - replace (200 * Z.of_nat k + 200)%Z with (200 * Z.of_nat (S k))%Z by lia. apply IH.
Qed.

(** A listing that is returned is the whole directory. *)
Lemma listing_exact acct parent w :
  NoDup (df_FileID <$> dir (or_root parent)) →
  wp (listAllProviderFiles p acct parent) w (λ r _, ∀ l, r = Ok l → l = dir (or_root parent)).
Proof. intros Hn. by apply (list_all_served acct parent _ 0). Qed.


(** *** Without failures *)

Hypothesis Hnf : ∀ n, env_fault n = None.

Lemma find_account l id (row : DriveAccount.t) :
  NoDup l.*1 → (id, row) ∈ l → find (λ a : account, bool_decide (a.1 = id)) l = Some (id, row).
Proof. intros Hn Hin. by apply (find_unique fst l (id, row)). Qed.

Lemma account_found d id row :
  accounts d !! id = Some row →
  find (λ a : account, bool_decide (a.1 = id)) (select (λ _ _, true) default_first (accounts d)) = Some (id, row).
Proof.
  intros Hid. apply find_account; [|by apply elem_of_select].
  unfold select. rewrite merge_sort_Permutation. unfold rows_where. eapply sublist_NoDup; [apply (NoDup_fst_map_to_list (accounts d))|].
  apply fmap_sublist, sublist_filter.
Qed.

Lemma account_total id row w :
  id ≠ "" → accounts (pi_db (w_db w)) !! id = Some row → DriveAccount.Type_ row = p →
  wp (getAccountForProvider p id) w (λ r w', r = Ok (id, row) ∧ pi_db (w_db w') = pi_db (w_db w)) ∧
  wp (getAccount id) w (λ r w', r = Ok (id, row) ∧ pi_db (w_db w') = pi_db (w_db w)).
Proof.
  intros Hid Hrow Ht. unfold getAccountForProvider, getAccount, ListAccounts. split.
  - apply wp_bind, wp_lift. rewrite Hp, bool_decide_false by done. apply wp_bind, wp_on_db, wp_query; [intros; no_faults Hnf; done|].
    intros l n [= <-]. simpl. rewrite (account_found _ _ _ Hrow). unfold of_type. simpl. rewrite bool_decide_true by done. by apply wp_ret.
  - rewrite bool_decide_false by done. apply wp_bind, wp_on_db, wp_query; [intros; no_faults Hnf; done|].
    intros l n [= <-]. simpl. rewrite (account_found _ _ _ Hrow). by apply wp_ret.
Qed.

Lemma page_total id row parent offset w :
  id ≠ "" → accounts (pi_db (w_db w)) !! id = Some row → DriveAccount.Type_ row = p →
  directory (or_root parent) (dir (or_root parent)) → (0 ≤ offset ≤ Z.of_nat (length (dir (or_root parent))))%Z →
  wp (ListProviderFiles p id parent offset 200) w (λ r w',
    r = Ok (take 200 (drop (Z.to_nat offset) (dir (or_root parent))), Z.of_nat (length (dir (or_root parent))))
    ∧ pi_db (w_db w') = pi_db (w_db w)).
Proof.
  intros Hid Hrow Ht [Dp Di Dv Ds] Hoff. set (L := dir (or_root parent)) in *.
  set (page := take 200 (drop (Z.to_nat offset) L)).
  assert (∀ f, f ∈ page → f ∈ L) as Hsub.
  { intros f Hf. eapply elem_of_submseteq; [exact Hf|]. apply sublist_submseteq. unfold page.
    etrans; [apply sublist_take|apply sublist_drop]. }
  assert (Z.of_nat (length page) + offset ≤ Z.of_nat (length L))%Z as Hlen by (unfold page; rewrite length_take, length_drop; lia).
  unfold ListProviderFiles. apply wp_bind. destruct (account_total id row w Hid Hrow Ht) as [Ha _].
  eapply wp_mono; [exact Ha|]. intros r w1 [-> Hdb]. apply wp_bind, wp_lift. rewrite Hp.
  assert (Z.ltb offset 0 = false) as Hlt by (apply Z.ltb_ge; lia).
  destruct provider_name as [Hn|Hn]; rewrite Hn in Hserves |- *; simpl.
  - unfold listFiles. apply wp_bind. destruct (account_total id row w1 Hid ltac:(by rewrite Hdb) Ht) as [_ Hg].
    eapply wp_mono; [exact Hg|]. intros r w2 [-> Hdb2]. apply wp_bind, wp_call. intros n. simpl. rewrite Hlt, Hserves. simpl.
    change (Z.to_nat 200) with (200 : nat). fold L page.
    rewrite (proj2 (Z.ltb_ge (Z.of_nat (length L)) (Z.of_nat (length page)))) by lia. apply wp_bind, wp_lift.
    match goal with |- context [res_each ?f page] => assert (res_each f page = Ok tt) as -> end.
    { apply res_each_ok. intros f Hf%Hsub. destruct (Dv f Hf) as (Hv1 & Hv2 & Hv3 & Hv4). rewrite (Dp f Hf), Hv3.
      rewrite !bool_decide_false, bool_decide_true by done. simpl. unfold fail_if. by rewrite (proj2 (Z.ltb_ge _ _)). }
    apply wp_ret. simpl. by rewrite Hdb2.
  - unfold quark_ListFiles. apply wp_bind, wp_call. intros n. simpl. rewrite Hlt, Hserves. simpl. change (Z.to_nat 200) with (200 : nat). fold L page. apply wp_bind, wp_lift.
    match goal with |- context [res_fold ?f page []] => assert (∃ seen, res_fold f page [] = Ok seen) as [seen ->] end.
    { assert (NoDup (df_FileID <$> page)) as Hnd.
      { eapply sublist_NoDup; [exact Di|]. apply fmap_sublist. etrans; [apply sublist_take|apply sublist_drop]. }
      assert (∀ x, x ∈ df_FileID <$> page → x ∉ @nil string) as Hfresh by (intros ? ?; apply not_elem_of_nil).
      revert Hsub Hnd Hfresh. clearbody page. clear Hlen. generalize (@nil string).
      induction page as [|f l IH]; intros seen Hsub Hnd Hfresh; [by exists seen|]. cbn [res_fold].
      assert (f ∈ L) as Hf by (apply Hsub; by left). destruct (Dv f Hf) as (Hv1 & Hv2 & Hv3 & Hv4).
      apply NoDup_cons in Hnd as [Hnin Hnd]. rewrite Hv3, (Dp f Hf), (bool_decide_false (df_FileID f = "")) by done. simpl.
      rewrite (bool_decide_true (or_root parent = or_root parent)) by done. rewrite (proj2 (Z.ltb_ge _ _)) by done. simpl.
      rewrite andb_false_r, (bool_decide_false (df_FileID f ∈ seen)) by (apply Hfresh; by left). apply IH; [intros; apply Hsub; by right|done|].
      intros x Hx [->|Hs]%elem_of_cons; [done|]. by apply (Hfresh x); [right|]. }
    rewrite (proj2 (Z.ltb_ge (Z.of_nat (length L)) (offset + Z.of_nat (length page)))) by lia. by apply wp_ret.
Qed.

Lemma list_all_total id row parent rounds k w :
  id ≠ "" → accounts (pi_db (w_db w)) !! id = Some row → DriveAccount.Type_ row = p →
  directory (or_root parent) (dir (or_root parent)) →
  200 * k ≤ length (dir (or_root parent)) → k = 0 ∨ 200 * k < length (dir (or_root parent)) →
  length (dir (or_root parent)) ≤ 200 * (k + rounds) → 0 < rounds →
  wp (list_all p id parent rounds (200 * Z.of_nat k) (take (200 * k) (dir (or_root parent)))) w
    (λ r w', r = Ok (dir (or_root parent)) ∧ pi_db (w_db w') = pi_db (w_db w)).
Proof.
  intros Hid Hrow Ht Hdir. revert k w Hrow. induction rounds as [|rounds IH]; intros k w Hrow Hk Hk' Hr Hpos; cbn [list_all]; [lia|].
  apply wp_bind. eapply wp_mono; [apply (page_total id row); [done..|lia]|]. intros r w1 [-> Hdb].
  replace (Z.to_nat (200 * Z.of_nat k)) with (200 * k) by lia.
  set (L := dir (or_root parent)) in *. set (files := take 200 (drop (200 * k) L)).
  assert (add_new (take (200 * k) L) files = take (200 * S k) L) as ->.
  { unfold files. rewrite add_new_fresh; rewrite take_next; [f_equal; lia|apply NoDup_fmap_take, Hdir]. }
  assert (length files = Nat.min 200 (length L - 200 * k)) as Hfl by (unfold files; by rewrite length_take, length_drop).
  match goal with |- wp (if ?b then _ else _) _ _ => destruct b eqn:Hstuck end.
  { exfalso. bools. rewrite !length_take in *. destruct Hk' as [->|?]; lia. }
  match goal with |- wp (if ?b then _ else _) _ _ => destruct b eqn:Hend end.
  - apply wp_ret. split; [|done]. f_equal. apply take_ge. apply orb_true_iff in Hend. rewrite bool_decide_eq_true, Z.leb_le in Hend. lia.
  - bools. replace (200 * Z.of_nat k + 200)%Z with (200 * Z.of_nat (S k))%Z by lia.
    eapply wp_mono; [apply IH; [by rewrite Hdb|lia..]|]. intros r w2 [-> Hdb2]. by rewrite Hdb2.
Qed.

(** Listing is complete: on a drive whose directory holds at most
    [quarkMaxEntries] valid, distinct objects and does not change, listing it page by
    page returns exactly its contents, in order. *)
Theorem listing_complete id row parent w :
  id ≠ "" → accounts (pi_db (w_db w)) !! id = Some row → DriveAccount.Type_ row = p →
  directory (or_root parent) (dir (or_root parent)) →
  ∃ w', listAllProviderFiles p id parent w = (Ok (dir (or_root parent)), w').
Proof.
  intros Hid Hrow Ht Hdir. pose proof (dir_size _ _ Hdir) as Hs. unfold quarkMaxEntries in Hs.
  unfold listAllProviderFiles. change (page_rounds 200) with (50 : nat).
  destruct (list_all _ _ _ _ _ _ w) as [r w'] eqn:Hrun. exists w'. f_equal.
  refine (proj1 (wp_elim _ _ (λ r _, r = Ok (dir (or_root parent)) ∧ _) _ _ _ Hrun)).
  apply (list_all_total id row parent 50 0); try done; [lia|by left|lia|lia].
Qed.

End Listings.

Lemma or_root_idem d : or_root (or_root d) = or_root d.
Proof. unfold or_root. by repeat case_bool_decide. Qed.

(** ** The tree of a share

    [raw] is what the share holds: the objects of each directory, as the provider
    sends them. *)

Section Tree.
Context `{Env} `{Ctx} `{Sleep} `{Remote} `{Urls} `{Sha256}.
Context (shareID stoken : string) (raw : string → list ShareEntry).

(** A share that does not change, sent in pages of 100. *)
Definition serves_share : Prop := ∀ h a parent page,
  rm_share_page h a shareID stoken parent page = Ok (take 100 (drop (100 * Z.to_nat (page - 1)) (raw parent))).

(** An object as [shareEntries] keeps it. *)
Definition kept_entry (e : ShareEntry) : ShareEntry :=
  mkEntry (se_ID e) (se_ParentID e) (quarkShareRevision e) (se_ShareToken e) (se_Name e) (se_Size e) (se_IsDir e) [].

(** The reference: the objects of the first [n] levels below [parent], each directory
    followed by what is in it. *)
Fixpoint tree_entries (n : nat) (parent : string) (ancestors : list string) : list ShareEntry :=
  match n with
  | O => []
  | S n => flat_map (λ e, placed (or_root parent) ancestors e ::
             if se_IsDir e then tree_entries n (se_ID e) (ancestors ++ [se_Name e]) else [])
             (kept_entry <$> raw (or_root parent))
  end.

(** No directory is deeper than [n] levels below [parent]. *)
Fixpoint within (n : nat) (parent : string) : Prop :=
  match n with
  | O => False
  | S n => ∀ e, e ∈ raw (or_root parent) → se_IsDir e = true → within n (se_ID e)
  end.

(** What [shareEntries] accepts of the objects of a directory. *)
Definition acceptable (parent : string) (e : ShareEntry) : Prop :=
  se_ID e ≠ "" ∧ valid_name (se_Name e) = true ∧ (se_IsDir e = true ∨ (0 ≤ se_Size e)%Z)
  ∧ (parent = "0" ∨ se_ParentID e = "" ∨ se_ParentID e = "0" ∨ se_ParentID e = parent).

(** A share within the limits of the code. *)
Record share_fits : Prop := {
  fits_depth : within tree_levels "0";
  fits_entries : ∀ parent e, e ∈ raw parent → acceptable parent e;
  fits_ids : NoDup ("0" :: (se_ID <$> tree_entries tree_levels "0" []));
  fits_size : (Z.of_nat (length (tree_entries tree_levels "0" [])) ≤ quarkMaxEntries)%Z
}.

Lemma accept_loop parent entries items out :
  res_fold (accept_entry parent) items entries = Ok out → out = entries ++ (kept_entry <$> items).
Proof.
  revert entries. induction items as [|e items IH]; intros entries; cbn [res_fold].
  - intros [= <-]. by rewrite app_nil_r.
  - destruct (accept_entry parent entries e) as [entries'|] eqn:E; [|done]. intros Hf. rewrite (IH _ Hf).
    unfold accept_entry in E. repeat (case_match; try done). injection E as <-. by rewrite <-app_assoc.
Qed.

Lemma accept_total parent entries items :
  (∀ e, e ∈ items → acceptable parent e) → NoDup (se_ID <$> entries ++ items) →
  (Z.of_nat (length (entries ++ items)) ≤ quarkMaxEntries)%Z →
  res_fold (accept_entry parent) items entries = Ok (entries ++ (kept_entry <$> items)).
Proof.
  revert entries. induction items as [|e items IH]; intros entries Hacc Hn Hlen; cbn [res_fold].
  - by rewrite app_nil_r.
  - destruct (Hacc e) as (Hid & Hname & Hsize & Hparent); [by left|].
    assert (accept_entry parent entries e = Ok (entries ++ [kept_entry e])) as ->.
    { unfold accept_entry. rewrite Hname, (bool_decide_false (se_ID e = "")) by done. simpl.
      assert (negb (se_IsDir e) && Z.ltb (se_Size e) 0 = false) as ->.
      { destruct Hsize as [->|Hs]; [done|]. rewrite (proj2 (Z.ltb_ge _ _)) by done. apply andb_false_r. }
      match goal with |- (if ?b then _ else _) = _ => assert (b = false) as -> end.
      { rewrite !andb_false_iff, !negb_false_iff, !bool_decide_eq_true. tauto. }
      rewrite bool_decide_false.
      - rewrite (proj2 (Z.ltb_ge _ _)); [done|]. rewrite length_app in Hlen. simpl in Hlen. lia.
      - intros Hin. rewrite fmap_app in Hn. apply NoDup_app in Hn as (_ & Hd & _). eapply Hd; [done|]. by left. }
    rewrite IH; [by rewrite <-app_assoc|intros; apply Hacc; by right| |].
    + rewrite <-app_assoc. simpl. by rewrite !fmap_app in *.
    + rewrite !length_app in *. simpl in *. lia.
Qed.

Hypothesis Hserves : serves_share.

Lemma share_pages_exact a parent rounds k w :
  wp (share_pages a shareID stoken parent rounds (Z.of_nat k + 1) (kept_entry <$> take (100 * k) (raw parent))) w
    (λ r _, ∀ l, r = Ok l → l = kept_entry <$> raw parent).
Proof.
  revert k w. induction rounds as [|rounds IH]; intros k w; cbn [share_pages]; [done|].
  apply wp_bind, wp_call. intros n. cbv beta zeta. rewrite Hserves. replace (100 * Z.to_nat (Z.of_nat k + 1 - 1)) with (100 * k) by lia.
  case_bool_decide as Hz.
  - apply wp_ret. intros l [= <-]. rewrite length_take, length_drop in Hz. by rewrite take_ge by lia.
  - apply wp_bind, wp_lift. destruct (res_fold _ _ _) as [es|] eqn:Ef; [|done]. apply accept_loop in Ef.
    rewrite <-fmap_app, take_next in Ef. subst es. case_bool_decide as Hend.
    + apply wp_ret. intros l [= <-]. rewrite length_take, length_drop in Hend. by rewrite take_ge by lia.
    + replace (Z.of_nat k + 1 + 1)%Z with (Z.of_nat (S k) + 1)%Z by lia. replace (100 * k + 100) with (100 * S k) by lia. apply IH.
Qed.

Lemma share_pages_total a parent rounds k w :
  (∀ e, e ∈ raw parent → acceptable parent e) → NoDup (se_ID <$> raw parent) →
  (Z.of_nat (length (raw parent)) ≤ quarkMaxEntries)%Z → 100 * k ≤ length (raw parent) < 100 * (k + rounds) →
  wp (share_pages a shareID stoken parent rounds (Z.of_nat k + 1) (kept_entry <$> take (100 * k) (raw parent))) w
    (λ r _, r = Ok (kept_entry <$> raw parent)).
Proof.
  intros Hacc Hn Hlen. revert k w. induction rounds as [|rounds IH]; intros k w Hk; cbn [share_pages]; [lia|].
  apply wp_bind, wp_call. intros n. cbv beta zeta. rewrite Hserves. replace (100 * Z.to_nat (Z.of_nat k + 1 - 1)) with (100 * k) by lia.
  case_bool_decide as Hz.
  - apply wp_ret. rewrite length_take, length_drop in Hz. by rewrite take_ge by lia.
  - apply wp_bind, wp_lift. rewrite accept_total.
    + rewrite <-fmap_app, take_next. case_bool_decide as Hend.
      * apply wp_ret. rewrite length_take, length_drop in Hend. by rewrite take_ge by lia.
      * rewrite length_take, length_drop in Hend. replace (Z.of_nat k + 1 + 1)%Z with (Z.of_nat (S k) + 1)%Z by lia.
        replace (100 * k + 100) with (100 * S k) by lia. apply IH. lia.
    + intros e He. apply Hacc. eapply elem_of_submseteq; [exact He|]. apply sublist_submseteq.
      etrans; [apply sublist_take|apply sublist_drop].
    + rewrite fmap_app, <-list_fmap_compose, <-fmap_app, take_next. by apply NoDup_fmap_take.
    + rewrite length_app, length_fmap, !length_take, length_drop. lia.
Qed.

Lemma share_entries_exact a parent w :
  wp (shareEntries a shareID stoken parent) w (λ r _, ∀ l, r = Ok l → l = kept_entry <$> raw (or_root parent)).
Proof. apply (share_pages_exact a (or_root parent) _ 0). Qed.

(** Listing the direct objects of a directory never runs out of rounds. *)
Lemma share_entries_total a parent w :
  (∀ e, e ∈ raw (or_root parent) → acceptable (or_root parent) e) → NoDup (se_ID <$> raw (or_root parent)) →
  (Z.of_nat (length (raw (or_root parent))) ≤ quarkMaxEntries)%Z →
  wp (shareEntries a shareID stoken parent) w (λ r _, r = Ok (kept_entry <$> raw (or_root parent))).
Proof.
  intros Hacc Hn Hlen. unfold shareEntries, share_rounds.
  apply (share_pages_total a (or_root parent) _ 0); try done. unfold quarkMaxEntries in *. lia.
Qed.

(** *** The walk *)

Lemma share_walk_exact a n parent anc st w :
  wp (share_walk a shareID stoken n parent anc st) w (λ r _, ∀ st', r = Ok st' →
    ∀ m, n ≤ m → ts_entries st' = ts_entries st ++ tree_entries m parent anc).
Proof.
  revert parent anc st w. induction n as [|n IH]; intros parent anc st w; cbn [share_walk]; [done|]. simpl.
  case_bool_decide; [done|]. apply wp_bind. eapply wp_mono; [apply share_entries_exact|]. intros [direct|e] w1 Hd; [|done].
  specialize (Hd direct eq_refl). rewrite or_root_idem in Hd.
  cut (∀ l st0 w0, wp (m_fold (visit_entry (share_walk a shareID stoken n) (or_root parent) anc) l st0) w0
    (λ r _, ∀ st', r = Ok st' → ∀ m, n ≤ m → ts_entries st' = ts_entries st0 ++
     flat_map (λ e, placed (or_root parent) anc e ::
       if se_IsDir e then tree_entries m (se_ID e) (anc ++ [se_Name e]) else []) l)).
  { intros Hloop. eapply wp_mono; [apply Hloop|]. intros r w2 Hr st' Hst' [|m] Hm; [lia|]. cbn [tree_entries].
    rewrite (Hr st' Hst' m) by lia. by rewrite <-Hd. }
  induction l as [|e l IHl]; intros st0 w0; cbn [m_fold].
  { apply wp_ret. intros st' [= <-] m _. by rewrite app_nil_r. }
  apply wp_bind. unfold visit_entry at 1. case_bool_decide; [done|]. wp_step; [by apply wp_throw|]. simpl. destruct (se_IsDir e) eqn:Edir.
  - eapply wp_mono; [apply IH|]. intros [st1|] w2 Hst1; [|done]. eapply wp_mono; [apply IHl|]. intros r w3 Hr st' Hst' m Hm.
    rewrite (Hr st' Hst' m Hm), (Hst1 st1 eq_refl m Hm). simpl. by rewrite <-!app_assoc.
  - apply wp_ret. eapply wp_mono; [apply IHl|]. intros r w3 Hr st' Hst' m Hm. rewrite (Hr st' Hst' m Hm). simpl. by rewrite <-app_assoc.
Qed.


(** One directory level of the reference. *)
Definition below (n : nat) (parent : string) (anc : list string) (l : list ShareEntry) : list ShareEntry :=
  flat_map (λ e, placed parent anc e :: if se_IsDir e then tree_entries n (se_ID e) (anc ++ [se_Name e]) else []) l.

Lemma below_direct n parent anc l : placed parent anc <$> l `sublist_of` below n parent anc l.
Proof.
  unfold below. induction l as [|e l IH]; simpl; [done|]. constructor. etrans; [exact IH|]. by apply sublist_inserts_l.
Qed.

Abbreviation ids_of l := (se_ID <$> l).

(** [st] may be extended by [new]: fresh IDs, the limit, directories that were entered
    only once. *)
Record extends (st : tree_state) (new : list ShareEntry) : Prop := {
  ext_ids : NoDup ("0" :: ids_of (ts_entries st ++ new));
  ext_size : (Z.of_nat (length (ts_entries st ++ new)) ≤ quarkMaxEntries)%Z;
  ext_dirs : ∀ d, d ∈ ts_dirs st → d = "0" ∨ d ∈ ids_of (ts_entries st)
}.

Definition walked (st : tree_state) (dirs : list string) (new : list ShareEntry) (r : res tree_state) : Prop :=
  ∃ st', r = Ok st' ∧ ts_entries st' = ts_entries st ++ new ∧
    ∀ d, d ∈ ts_dirs st' → d ∈ ts_dirs st ∨ d ∈ dirs ∨ d ∈ ids_of new.

Lemma fresh_id st e new : extends st (e :: new) → se_ID e ∉ ids_of (ts_entries st) ∧ se_ID e ∉ ts_dirs st.
Proof.
  intros [Hn _ Hd]. apply NoDup_cons in Hn as [H0' Hn]. rewrite fmap_app in *. apply NoDup_app in Hn as (_ & Hdis & _).
  assert (se_ID e ∉ ids_of (ts_entries st)) as Hfresh by (intros Hin; eapply Hdis; [done|by left]).
  split; [done|]. intros [He|He]%Hd; [|done]. apply H0'. rewrite <-He. apply elem_of_app. right. by left.
Qed.

Lemma extends_prefix st new1 new2 : extends st (new1 ++ new2) → extends st new1.
Proof.
  intros [Hn Hs Hd]. split; [| |done].
  - rewrite app_assoc, fmap_app, app_comm_cons in Hn. by apply NoDup_app in Hn as [Hn _].
  - rewrite !length_app in *. lia.
Qed.

Lemma visit_total a n parent anc e new st w :
  (∀ d anc st w, within n d → or_root d ∉ ts_dirs st → or_root d = "0" ∨ or_root d ∈ ids_of (ts_entries st) →
     extends st (tree_entries n d anc) →
     wp (share_walk a shareID stoken n d anc st) w (λ r _, walked st [or_root d] (tree_entries n d anc) r)) →
  (se_IsDir e = true → within n (se_ID e)) → se_ID e ≠ "" →
  extends st (below n parent anc [e] ++ new) →
  wp (visit_entry (share_walk a shareID stoken n) parent anc st e) w (λ r _, walked st [] (below n parent anc [e]) r).
Proof.
  intros IH Hwithin Hid Hext. unfold below in *. simpl in *. rewrite app_nil_r in *.
  destruct (fresh_id _ _ _ Hext) as [Hi Hd]. pose proof (extends_prefix _ (_ :: _) _ Hext) as Hext'.
  pose proof Hext as [Hn Hs Hdirs]. simpl in Hi, Hd.
  unfold visit_entry. rewrite bool_decide_false by done. rewrite (proj2 (Z.ltb_ge _ _)).
  2:{ rewrite length_app in Hs. simpl in Hs. lia. }
  simpl. destruct (se_IsDir e) eqn:Edir.
  - assert (or_root (se_ID e) = se_ID e) as Hroot by (unfold or_root; by rewrite bool_decide_false).
    eapply wp_mono; [apply IH; rewrite ?Hroot; simpl|].
    + by apply Hwithin.
    + done.
    + right. rewrite fmap_app. apply elem_of_app. right. by left.
    + destruct Hext' as [Hn' Hs' _]. simpl in Hn', Hs'. split; simpl; rewrite <-?app_assoc; [done|done|].
      intros d Hin. destruct (Hdirs d Hin) as [?|?]; [by left|right]. rewrite fmap_app. apply elem_of_app. by left.
    + intros r _ (st' & -> & He & Hds). simpl in *. exists st'. split; [done|]. split; [by rewrite He, <-app_assoc|].
      intros d [?|[->%list_elem_of_singleton|?]]%Hds; [by left|right; right; rewrite Hroot; by left|right; right; by right].
  - apply wp_ret. eexists. split; [done|]. split; [done|]. simpl. by left.
Qed.

Lemma extends_split st st' new1 new2 (dirs : list string) :
  extends st (new1 ++ new2) → ts_entries st' = ts_entries st ++ new1 →
  (∀ d, d ∈ ts_dirs st' → d ∈ ts_dirs st ∨ d ∈ dirs ∨ d ∈ ids_of new1) → (∀ d, d ∈ dirs → d = "0" ∨ d ∈ ids_of (ts_entries st)) →
  extends st' new2.
Proof.
  intros [Hn Hs Hd] He Hds Hdirs. split; rewrite ?He, <-?app_assoc; [done|done|].
  intros d Hin. rewrite fmap_app, elem_of_app. destruct (Hds d Hin) as [?%Hd|[?%Hdirs|?]]; tauto.
Qed.

Lemma below_total a n parent anc l st w :
  (∀ d anc st w, within n d → or_root d ∉ ts_dirs st → or_root d = "0" ∨ or_root d ∈ ids_of (ts_entries st) →
     extends st (tree_entries n d anc) →
     wp (share_walk a shareID stoken n d anc st) w (λ r _, walked st [or_root d] (tree_entries n d anc) r)) →
  (∀ e, e ∈ l → (se_IsDir e = true → within n (se_ID e)) ∧ se_ID e ≠ "") → extends st (below n parent anc l) →
  wp (m_fold (visit_entry (share_walk a shareID stoken n) parent anc) l st) w (λ r _, walked st [] (below n parent anc l) r).
Proof.
  intros IH. revert st w. induction l as [|e l IHl]; intros st w Hl Hext; cbn [m_fold].
  { apply wp_ret. exists st. unfold below. simpl. rewrite app_nil_r. split; [done|]. split; [done|]. by left. }
  assert (below n parent anc (e :: l) = below n parent anc [e] ++ below n parent anc l) as Hb.
  { unfold below. simpl. by rewrite app_nil_r. }
  rewrite Hb in *. destruct (Hl e ltac:(by left)) as [Hw Hid].
  apply wp_bind. eapply wp_mono; [by eapply (visit_total a n parent anc e _ st w IH Hw Hid Hext)|].
  intros r w1 (st1 & -> & He1 & Hd1). eapply wp_mono; [apply IHl|].
  - intros; apply Hl; by right.
  - eapply extends_split; [exact Hext|done|exact Hd1|]. by intros d ?%not_elem_of_nil.
  - intros r w2 (st2 & -> & He2 & Hd2). exists st2. split; [done|]. split; [by rewrite He2, He1, app_assoc|].
    intros d [Hin|[Hin|Hin]]%Hd2; [|by apply not_elem_of_nil in Hin|].
    + apply Hd1 in Hin as [?|[Hin|?]]; [by left|by apply not_elem_of_nil in Hin|]. right; right. rewrite fmap_app. apply elem_of_app. by left.
    + right; right. rewrite fmap_app. apply elem_of_app. by right.
Qed.

Lemma share_walk_total a n :
  (∀ d e, e ∈ raw d → acceptable d e) →
  ∀ parent anc st w, within n parent → or_root parent ∉ ts_dirs st →
  or_root parent = "0" ∨ or_root parent ∈ ids_of (ts_entries st) → extends st (tree_entries n parent anc) →
  wp (share_walk a shareID stoken n parent anc st) w (λ r _, walked st [or_root parent] (tree_entries n parent anc) r).
Proof.
  intros Hacc. induction n as [|n IH]; intros parent anc st w Hw Hd Hroot Hext; [done|]. cbn [share_walk]. simpl.
  rewrite bool_decide_false by done.
  change (tree_entries (S n) parent anc) with (below n (or_root parent) anc (kept_entry <$> raw (or_root parent))) in *.
  set (direct := kept_entry <$> raw (or_root parent)) in *.
  assert (ids_of direct = ids_of (raw (or_root parent))) as Hids by (unfold direct; by rewrite <-list_fmap_compose).
  pose proof (below_direct n (or_root parent) anc direct) as Hsub.
  apply wp_bind. eapply wp_mono.
  { apply share_entries_total; rewrite ?or_root_idem.
    - intros e. apply Hacc.
    - pose proof (ext_ids _ _ Hext) as Hn. apply NoDup_cons in Hn as [_ Hn]. rewrite fmap_app in Hn. apply NoDup_app in Hn as (_ & _ & Hn).
      rewrite <-Hids. eapply sublist_NoDup; [exact Hn|]. apply (fmap_sublist se_ID) in Hsub. by rewrite <-list_fmap_compose in Hsub.
    - pose proof (ext_size _ _ Hext) as Hs. apply sublist_length in Hsub. unfold direct in Hsub. rewrite !length_fmap in Hsub.
      rewrite length_app in Hs. fold direct in Hsub. unfold direct in *. lia. }
  intros r w1 ->. rewrite or_root_idem. fold direct. eapply wp_mono.
  - apply below_total; [exact IH| |].
    + intros e (e0 & -> & He0)%list_elem_of_fmap. split; [apply (Hw e0 He0)|]. by apply (Hacc _ _ He0).
    + pose proof Hext as [Hn Hs Hds]. split; simpl; [done|done|].
      intros d Hin. apply elem_of_app in Hin as [Hin|Hin]; [by apply Hds|]. apply list_elem_of_singleton in Hin as ->. done.
  - intros r w2 (st' & -> & He & Hdirs). exists st'. split; [done|]. split; [exact He|]. simpl in Hdirs.
    intros d Hin. apply Hdirs in Hin as [Hin|[Hin|?]]; [|by apply not_elem_of_nil in Hin|by right; right].
    apply elem_of_app in Hin as [?|Hin]; [by left|]. right; by left.
Qed.

(** The snapshot of a share is its tree: walking a share that does not change
    returns exactly its objects in pre-order, each with its directory and its ancestors,
    whenever it returns at all, no level being cut off; and it does return when the share
    keeps to the limits on depth, size and identities. *)
Theorem share_snapshot_exact a w :
  (∀ l w', snapshotShareTree a shareID stoken w = (Ok l, w') →
     ∀ m, tree_levels ≤ m → l = tree_entries m "0" []) ∧
  (share_fits → ∃ w', snapshotShareTree a shareID stoken w = (Ok (tree_entries tree_levels "0" []), w')).
Proof.
  split.
  - intros l w' Hrun m Hm. refine (wp_elim _ _ (λ r _, ∀ l, r = Ok l → l = tree_entries m "0" []) _ _ _ Hrun l eq_refl).
    unfold snapshotShareTree. apply wp_bind. eapply wp_mono; [apply share_walk_exact|].
    intros [st|e] w1 Hst; [|done]. apply wp_ret. intros l' [= <-]. by rewrite (Hst st eq_refl m Hm).
  - intros [Hdepth Hacc Hids Hsize]. destruct (snapshotShareTree a shareID stoken w) as [r w'] eqn:Hrun. exists w'. f_equal.
    refine (wp_elim _ _ (λ r _, r = Ok _) _ _ _ Hrun). unfold snapshotShareTree. apply wp_bind. eapply wp_mono.
    + apply share_walk_total; [done|done|by apply not_elem_of_nil|by left|]. split; [done|done|]. by intros d ?%not_elem_of_nil.
    + intros r1 w1 (st' & -> & He & _). apply wp_ret. by rewrite He.
Qed.

End Tree.

(** ** A sample drive and a sample share *)

Definition sample_row : DriveAccount.t := DriveAccount.mk "115" "main" "cookie" "" true "active" 0 0 0 None 0 0.
Definition sample_db : Database := set_accounts {["acc" := sample_row]} empty_database.
Definition sample_dir (parent : string) : list DriveFile :=
  [mkFile "1" parent "a.mkv" 5 "p1" "AA" "" false 0; mkFile "2" parent "Season 1" 0 "p2" "" "" true 0].

(** A directory with a file in it, and a file beside it. *)
Definition sample_share (parent : string) : list ShareEntry :=
  if bool_decide (parent = "0") then
    [mkEntry "d" "0" "" "t1" "Show" 0 true []; mkEntry "f" "0" "r" "t2" "b.mkv" 7 false []]
  else if bool_decide (parent = "d") then [mkEntry "e" "d" "r" "t3" "a.mkv" 5 false []]
  else [].

Lemma sample_directory parent : directory parent (sample_dir parent).
Proof.
  split; simpl; [| |intros f|done].
  - intros f Hf. repeat (apply elem_of_cons in Hf as [->|Hf]; [done|]). by apply not_elem_of_nil in Hf.
  - apply (bool_decide_eq_true_1 _). by vm_compute.
  - intros Hf. repeat (apply elem_of_cons in Hf as [->|Hf]; [by vm_compute|]). by apply not_elem_of_nil in Hf.
Defined.

#[local] Existing Instance quiet.
#[local] Existing Instance calm.
#[local] Existing Instance short_sleep.
#[local] Instance sample_provider : Remote := static_remote sample_dir sample_share.
#[local] Instance sample_urls : Urls := {| url_parse _ := None; url_parse_request _ := None |}.
#[local] Instance sample_sha : Sha256 := {| sha256_hex s := s |}.

Lemma listing_complete_witness :
  ∃ w', listAllProviderFiles "115" "acc" "7" (mkWorld 0 (mkPipe sample_db ∅ [])) = (Ok (sample_dir "7"), w').
Proof.
  apply (listing_complete "115" sample_dir) with (row := sample_row); try done. apply sample_directory.
Defined.

Lemma share_snapshot_exact_witness :
  ∃ l w', snapshotShareTree ("acc", sample_row) "share" "stoken" (mkWorld 0 (mkPipe sample_db ∅ [])) = (Ok l, w')
    ∧ se_Name <$> l = ["Show"; "a.mkv"; "b.mkv"].
Proof.
  assert (serves_share "share" "stoken" sample_share) as Hserves by (intros h a parent page; reflexivity).
  destruct (share_snapshot_exact "share" "stoken" sample_share Hserves ("acc", sample_row)
    (mkWorld 0 (mkPipe sample_db ∅ []))) as [_ Hfits].
  destruct Hfits as [w' Hw'].
  - split.
    + unfold tree_levels. simpl. intros e He Hd. repeat (apply elem_of_cons in He as [->|He]; [try done|]); [|by apply not_elem_of_nil in He].
      simpl. intros e He Hd'. repeat (apply elem_of_cons in He as [->|He]; [try done|]). by apply not_elem_of_nil in He.
    + intros parent e He. unfold sample_share in He. repeat case_bool_decide; subst;
        repeat (apply elem_of_cons in He as [->|He]; [split_and!; [done|done| |]; simpl; auto; right; lia|]); by apply not_elem_of_nil in He.
    + apply (bool_decide_eq_true_1 _). by vm_compute.
    + by vm_compute.
  - eexists _, w'. split; [exact Hw'|]. by vm_compute.
Defined.
