(* ===== verification/Destination.v ===== *)
(** The destination on 115 ([src/internal/service/provider_115_upload.go],
    [clouddrive_upload.go]): looking for the object an upload should become,
    comparing it with the source, waiting for it, uploading through the open platform
    or through the directory CloudDrive2 mounts.

    The open platform and the object store are requests of [Remote.v]; [oss.New] and
    [Client.Bucket] are its functions [rm_oss_client] and [rm_oss_bucket].  The
    callbacks [OnSession] and [OnPart] are arguments; the session [OnSession] hands to
    the closure of the caller is the first component of what [UploadFile] returns.
    Error texts leave out the elapsed time. *)
From S2P Require Import Prelude GoStrings GoPath Sql Schema Accounts Protocol FileSys Checkpoint Download.
From S2P Require Import Payload Worker Remote Drive.
From Stdlib Require Import Ascii.

Definition uploadPartSize : Z := 16 * 2 ^ 20.

Record UploadSource := mkSource {
  us_Path : string; us_Name : string; us_Size : Z; us_SHA1 : string; us_PreSHA1 : string;
  us_UploadID : string; us_Bucket : string; us_Object : string
}.
Record UploadResult := mkUploadResult { ur_FileID : string; ur_Rapid : bool; ur_Transferred : Z }.

(** The access token of a JSON credential; [None]: not a credential. *)
Class Credential := { json_access_token : string → option string }.

(** ** Comparing an object with the source *)

Inductive destinationState := destinationVerified | destinationUnsettled | destinationForeign.

#[global] Instance destination_state_eq_dec : EqDecision destinationState.
Proof. solve_decision. Defined.

Definition classifyDestination (file : option DriveFile) (source : UploadSource) (parent : string) : destinationState :=
  match file with
  | None => destinationUnsettled
  | Some f =>
      if df_IsFolder f || negb (bool_decide (df_ParentID f = parent)) || negb (bool_decide (df_Name f = us_Name source)) then
        destinationForeign
      else if bool_decide (trim_space (df_Sha1 f) = "") || negb (Z.eqb (df_Size f) (us_Size source))
              || negb (equal_fold (df_Sha1 f) (us_SHA1 source)) then destinationForeign
      else destinationVerified
  end.

Definition destinationVerifyBaseTimeout : Z := 2 * minute.
Definition destinationVerifyTimeoutCap : Z := 30 * minute.
Definition destinationVerifyCeiling : Z := 4 * hour.

(** [time.Duration] is an [int64]. *)
Definition destinationVerifyTimeout (size : Z) : Z :=
  let timeout := wrap64 (destinationVerifyBaseTimeout + wrap64 (Z.quot size (2 ^ 20) * second)) in
  if Z.ltb destinationVerifyTimeoutCap timeout then destinationVerifyTimeoutCap else timeout.

Definition identity_failed (name : string) : error :=
  ErrText ("115 destination identity verification failed for " +:+ name).
Definition name_conflict (name : string) : error :=
  ErrText ("same-name destination conflict: 115 destination identity verification failed for " +:+ name).

(** ** The digest 115 asks for *)

Section Digests.
Context `{Env} `{Hash}.

Definition sign_error : error := ErrText "115 upload requested an invalid sign range".

(** [io.CopyN] of [n] bytes: a negative count copies nothing. *)
Definition copy_n (n : Z) (data : list ascii) : res (list ascii) :=
  if Z.leb n 0 then Ok []
  else if Z.ltb (Z.of_nat (length data)) n then Err (ErrText "EOF") else Ok (take (Z.to_nat n) data).

Definition drop_z (n : Z) (data : list ascii) : list ascii :=
  if Z.ltb (Z.of_nat (length data)) n then [] else drop (Z.to_nat n) data.

Definition hashFileRange (path specification : string) : M Files string :=
  match split_on (byte 45) specification with
  | [first; last_] =>
      match parse_int first, parse_int last_ with
      | Some start, Some end_ =>
          if Z.ltb start 0 || Z.ltb end_ start then throw sign_error else
          data ← read_file path;
          bytes ← lift (copy_n (wrap64 (wrap64 (end_ - start) + 1)) (drop_z start data));
          mret (stringsUpperHex (sha1 bytes))
      | _, _ => throw sign_error
      end
  | _ => throw sign_error
  end.

(** [hashPathSHA1]. *)
Definition hashPathSHA1 (path : string) : M Files string :=
  data ← read_file path; mret (stringsUpperHex (sha1 data)).

(** [io.CopyBuffer] into the file at [path], by chunks of [buffer] bytes: the bytes
    written and the error. *)
Fixpoint copy_buffer (fuel : nat) (path : string) (buffer : nat) (source : list ascii) (written : Z)
    : M Files (Z * option error) :=
  match fuel with
  | O => mret (written, None)
  | S fuel =>
      let chunk := take buffer source in
      if bool_decide (chunk = []) then mret (written, None) else
      wrote ← attempt (append path chunk);
      match wrote with
      | Err e => mret (written, Some e)
      | Ok _ => copy_buffer fuel path buffer (drop buffer source) (written + Z.of_nat (length chunk))%Z
      end
  end.

(** [unix.Access(path, W_OK)]. *)
Definition access_writable (path : string) : M Files unit :=
  query (λ fs, match fs !! path with
               | Some (NDir true) => Ok tt
               | Some _ => Err (ErrText "permission denied")
               | None => Err (ErrNotExist path)
               end).

End Digests.

Definition copy_buffer_size : nat := Z.to_nat (2 ^ 20).

(** [callbackValues]. *)
Definition callbackValues (init : upload_init) : string * string :=
  match in_Value init with
  | Some v => v
  | None => match in_Array init with v :: _ => v | [] => ("", "") end
  end.

Section Destination.
Context `{Env} `{Ctx} `{Sleep} `{Remote} `{Urls} `{Sha256} `{Hash} `{Credential}.
Abbreviation Pi := (M Pipe).

(** ** Looking for an object *)

(** The pages of [findDestinationFile] and [cloudDriveUploadPlaceholder]: the first
    object of the directory that satisfies [wanted]. *)
Fixpoint scan_destination (a : account) (parent : string) (wanted : DriveFile → bool) (rounds : nat) (offset : Z)
    : Pi (option DriveFile) :=
  match rounds with
  | O => throw (ErrText ("115 destination contains more than " +:+ pretty quarkMaxEntries +:+ " objects"))
  | S rounds =>
      '(files, total) ← listFiles a.1 parent offset 1000;
      match find wanted files with
      | Some f => mret (Some f)
      | None =>
          if bool_decide (length files = 0) || Z.leb total (offset + Z.of_nat (length files)) then mret None
          else scan_destination a parent wanted rounds (offset + 1000)
      end
  end.

Definition findDestinationFile (a : account) (parent name : string) : Pi (option DriveFile) :=
  scan_destination a parent (λ f, bool_decide (df_Name f = name)) (page_rounds 1000) 0.

Definition cloudDriveUploadPlaceholder (a : account) (parent name : string) : Pi bool :=
  found ← scan_destination a parent (λ f, has_prefix (df_Name f) name && has_suffix (df_Name f) "..uploading")
            (page_rounds 1000) 0;
  mret (bool_decide (is_Some found)).

(** [if err != nil { if ctx.Err() != nil { return ctx.Err() }; return err }]. *)
Definition or_cancelled {A} (m : Pi A) : Pi A :=
  r ← attempt m;
  match r with
  | Ok x => mret x
  | Err e => over ← ctx_over; throw (if over : bool then ErrCanceled else e)
  end.

(** ** Waiting for it *)

(** The loop of [waitForVerifiedDestination]; [None]: out of [rounds]. *)
Fixpoint verify_rounds (a : account) (parent : string) (source : UploadSource) (rapid : bool) (transferred : Z)
    (idleTimeout started ceiling : Z) (rounds : nat) (deadline interval : Z) : Pi (option UploadResult) :=
  match rounds with
  | O => mret None
  | S rounds =>
      file ← or_cancelled (findDestinationFile a parent (us_Name source));
      match classifyDestination file source parent, file with
      | destinationVerified, Some f => mret (Some (mkUploadResult (df_FileID f) rapid transferred))
      | destinationForeign, _ => throw (identity_failed (us_Name source))
      | _, _ =>
          pending ← or_cancelled (cloudDriveUploadPlaceholder a parent (us_Name source));
          deadline ← (if pending : bool then t ← now; mret (t + idleTimeout)%Z else mret deadline);
          late ← (t ← now; if Z.ltb deadline t then mret true else t ← now; mret (Z.ltb ceiling t));
          if late : bool then throw (ErrText ("115 did not finish verifying " +:+ us_Name source)) else
          t ← now;
          let interval := if Z.ltb minute (t - started) then (5 * second)%Z else interval in
          _ ← sleepContext interval;
          verify_rounds a parent source rapid transferred idleTimeout started ceiling rounds deadline interval
      end
  end.

(** Every round sleeps a second at least, so the ceiling ends the loop
    ([wait_terminates]). *)
Definition verify_fuel : nat := Z.to_nat (destinationVerifyCeiling / second) + 2.

Definition waitForVerifiedDestination (a : account) (parent : string) (source : UploadSource) (rapid : bool)
    (transferred : Z) : Pi (option UploadResult) :=
  let idleTimeout := destinationVerifyTimeout (us_Size source) in
  started ← now;
  verify_rounds a parent source rapid transferred idleTimeout started (started + destinationVerifyCeiling) verify_fuel
    (started + idleTimeout) second.

#[global] Arguments verify_fuel : simpl never.

Definition unfinished : error := ErrText "wait out of rounds".
Definition finished_wait {A} (m : Pi (option A)) : Pi A :=
  r ← m; match r with Some x => mret x | None => throw unfinished end.

(** ** The open platform *)

(** [c115SDK]: the client needs an access token. *)
Definition c115SDK (a : account) : res unit :=
  let missing := Err (ErrText "115 Open Platform access token is required for verified upload") in
  let raw := trim_space (DriveAccount.Token a.2) in
  if bool_decide (raw = "") then missing
  else
    token ← (if has_prefix raw "{" then
               match json_access_token raw with
               | Some token => Ok token
               | None => Err (ErrText "invalid 115 upload credential")
               end
             else Ok raw);
    if bool_decide (trim_space token = "") then missing else Ok tt.

(** [UploadInit]. *)
Definition UploadInit (a : account) (request : upload_request) : Pi upload_init :=
  call (λ h, rm_init h a.1 request) (AInit a.1 request).

(** [oss.New] with the answer of [UploadGetToken]. *)
Definition oss_client (a : account) : Pi unit :=
  _ ← wrap "get 115 OSS credentials: " (call (λ h, rm_oss_token h a.1) (AOssToken a.1));
  wrap "initialize 115 OSS client: " (lift (rm_oss_client a.1)).

(** The sizes of the parts of a file, and the bytes of part [number]. *)
Definition part_count (size : Z) : Z := Z.quot (size + uploadPartSize - 1) uploadPartSize.
Definition part_start (number : Z) : Z := (number - 1) * uploadPartSize.
Definition part_size (size number : Z) : Z := Z.min uploadPartSize (size - part_start number).
Definition part_bytes (data : list ascii) (size number : Z) : list ascii :=
  take (Z.to_nat (part_size size number)) (drop (Z.to_nat (part_start number)) data).

(** One round of the upload loop: the parts the object store holds, with their tags. *)
Definition upload_part (mp : multipart) (data : list ascii) (size : Z) (onPart : Z → string → Z → Pi unit)
    (parts : gmap Z string) (number : Z) : Pi (gmap Z string) :=
  _ ← ctx_live;
  match parts !! number with
  | Some _ => mret parts
  | None =>
      let bytes := part_bytes data size number in
      etag ← wrap ("upload 115 multipart part " +:+ pretty number +:+ ": ")
               (call (λ h, rm_oss_part h mp number bytes) (AOssPart mp number bytes));
      _ ← onPart number etag (part_size size number);
      mret (<[number := etag]> parts)
  end.

(** [sort.Sort(oss.UploadParts(ordered))]: part numbers are distinct. *)
Definition ordered_parts (parts : gmap Z string) : list (Z * string) :=
  merge_sort (λ x y : Z * string, Z.leb x.1 y.1 = true) (map_to_list parts).

(** From [ListUploadedParts] to [CompleteMultipartUpload]. *)
Definition upload_session (a : account) (parent : string) (source : UploadSource) (init : upload_init) (mp : multipart)
    (onPart : Z → string → Z → Pi unit) : Pi UploadResult :=
  listed ← wrap "list 115 multipart parts: " (call (λ h, rm_oss_parts h mp) (AOssParts mp));
  let parts : gmap Z string := list_to_map (reverse ((λ p, (pt_Number p, pt_ETag p)) <$> listed)) in
  _ ← m_each (λ p, try_ (onPart (pt_Number p) (pt_ETag p) (pt_Size p))) listed;
  data ← on_files (read_file (us_Path source));
  parts ← m_fold (upload_part mp data (us_Size source) onPart) (seqZ 1 (part_count (us_Size source))) parts;
  let ordered := ordered_parts parts in
  let '(callback, callbackVar) := callbackValues init in
  _ ← wrap "complete 115 multipart upload: "
        (call (λ h, rm_oss_complete h mp ordered callback callbackVar) (AOssComplete mp ordered callback callbackVar));
  finished_wait (waitForVerifiedDestination a parent source false (us_Size source)).

(** [UploadFile] up to the multipart coordinates: either the result, or the answer of
    115 with the bucket and object to upload to. *)
Definition trimmed_source (source : UploadSource) : UploadSource :=
  mkSource (us_Path source) (trim_space (us_Name source)) (us_Size source) (to_upper (trim_space (us_SHA1 source)))
    (to_upper (trim_space (us_PreSHA1 source))) (us_UploadID source) (us_Bucket source) (us_Object source).

Definition valid_source (source : UploadSource) : bool :=
  negb (bool_decide (us_Path source = "") || bool_decide (us_Name source = "") || contains_any (us_Name source) [slash; nul]
        || Z.ltb (us_Size source) 0 || negb (ValidSHA1 (us_SHA1 source)) || negb (ValidSHA1 (us_PreSHA1 source))).

Definition init_request (source : UploadSource) (parent signKey signVal : string) : upload_request :=
  mkUpload (us_Name source) (us_Size source) parent (us_SHA1 source) (us_PreSHA1 source) signKey signVal.

Definition begin_upload (a : account) (parent : string) (source : UploadSource)
    : Pi (UploadResult + (upload_init * string * string)) :=
  if negb (valid_source source) then
    throw (ErrText "validated spool path, name, size, SHA-1 and pre-SHA-1 are required")
  else
  stat ← on_files (lstat (us_Path source));
  _ ← match stat with
      | NFile data => if Z.eqb (Z.of_nat (length data)) (us_Size source) then mret tt
                      else throw (ErrText "spool file size changed before upload")
      | _ => throw (ErrText "spool file size changed before upload")
      end;
  existing ← findDestinationFile a parent (us_Name source);
  match existing with
  | Some f =>
      match classifyDestination existing source parent with
      | destinationVerified => mret (inl (mkUploadResult (df_FileID f) true 0))
      | destinationForeign => throw (name_conflict (us_Name source))
      | destinationUnsettled => r ← finished_wait (waitForVerifiedDestination a parent source true 0); mret (inl r)
      end
  | None =>
      _ ← lift (c115SDK a);
      init ← wrap "initialize 115 upload: " (UploadInit a (init_request source parent "" ""));
      init ← (if Z.eqb (in_Status init) 7 && negb (bool_decide (in_SignCheck init = "")) then
                signValue ← on_files (hashFileRange (us_Path source) (in_SignCheck init));
                wrap "complete 115 rapid-upload challenge: "
                  (UploadInit a (init_request source parent (in_SignKey init) signValue))
              else mret init);
      if Z.eqb (in_Status init) 2 then r ← finished_wait (waitForVerifiedDestination a parent source true 0); mret (inl r)
      else if bool_decide (in_Bucket init = "") || bool_decide (in_Object init = "") then
        throw (ErrText "115 upload initialization returned neither rapid success nor multipart coordinates")
      else
      _ ← oss_client a;
      if negb (bool_decide (us_UploadID source = "")) then
        if bool_decide (us_Bucket source = "") || bool_decide (us_Object source = "") then
          throw (ErrText "115 multipart checkpoint is incomplete")
        else
          _ ← lift (rm_oss_bucket (us_Bucket source));
          mret (inr (init, us_Bucket source, us_Object source))
      else
        _ ← lift (rm_oss_bucket (in_Bucket init));
        mret (inr (init, in_Bucket init, in_Object init))
  end.

(** [UploadFile]: the session it opened, if any, and its outcome. *)
Definition UploadFile (a : account) (parentCID : string) (source : UploadSource)
    (onSession : string → string → string → Pi unit) (onPart : Z → string → Z → Pi unit)
    : Pi (option multipart * res UploadResult) :=
  let parent := or_root parentCID in
  let source := trimmed_source source in
  begun ← attempt (begin_upload a parent source);
  match begun with
  | Err e => mret (None, Err e)
  | Ok (inl result) => mret (None, Ok result)
  | Ok (inr (init, bucket, object)) =>
      if negb (bool_decide (us_UploadID source = "")) then
        r ← attempt (upload_session a parent source init (mkMultipart bucket object (us_UploadID source)) onPart);
        mret (None, r)
      else
      started ← attempt (wrap "initiate 115 multipart upload: "
                  (call (λ h, rm_oss_start h bucket object) (AOssStart bucket object)));
      match started with
      | Err e => mret (None, Err e)
      | Ok uploadID =>
          let mp := mkMultipart bucket object uploadID in
          saved ← attempt (onSession uploadID bucket object);
          match saved with
          | Err e => _ ← try_ (call (λ h, rm_oss_abort h mp) (AOssAbort mp)); mret (Some mp, Err e)
          | Ok _ => r ← attempt (upload_session a parent source init mp onPart); mret (Some mp, r)
          end
      end
  end.

(** [AbortUpload]: the errors of the credentials are not wrapped here. *)
Definition AbortUpload (a : account) (source : UploadSource) : Pi unit :=
  if bool_decide (us_UploadID source = "") || bool_decide (us_Bucket source = "") || bool_decide (us_Object source = "") then
    throw (ErrText "complete multipart coordinates are required")
  else
  _ ← lift (c115SDK a);
  _ ← call (λ h, rm_oss_token h a.1) (AOssToken a.1);
  _ ← lift (rm_oss_client a.1);
  _ ← lift (rm_oss_bucket (us_Bucket source));
  let mp := mkMultipart (us_Bucket source) (us_Object source) (us_UploadID source) in
  call (λ h, rm_oss_abort h mp) (AOssAbort mp).

(** ** The mounted directory *)

Definition cloudDriveUploadWait : Z := 2 * minute.

(** The loop of [waitForLocalDirectory]; [None]: out of [rounds]. *)
Fixpoint local_rounds (directory : string) (deadline : Z) (rounds : nat) : Pi (option unit) :=
  match rounds with
  | O => mret None
  | S rounds =>
      info ← attempt (on_files (lstat directory));
      match info with
      | Ok (NDir _) => mret (Some tt)
      | _ =>
          _ ← match info with Err e => if is_not_exist e then mret tt else throw e | Ok _ => mret tt end;
          t ← now;
          if Z.ltb deadline t then throw (ErrText ("CloudDrive2 destination directory did not appear: " +:+ directory))
          else _ ← sleepContext second; local_rounds directory deadline rounds
      end
  end.

Definition local_fuel : nat := Z.to_nat (cloudDriveUploadWait / second) + 2.

#[global] Arguments local_fuel : simpl never.

Definition waitForLocalDirectory (directory : string) : Pi unit :=
  t ← now; finished_wait (local_rounds directory (t + cloudDriveUploadWait) local_fuel).

(** [*mount.ReadOnly], read-only when unknown. *)
Definition usable_mount (m : Mount) : bool :=
  bool_decide (mt_Status m = "mounted") && negb (default true (mt_ReadOnly m))
  && bool_decide (clean (mt_RemotePath m) = "/115open/emby").

Definition cloudDrive115Mount (accountID : string) : Pi string :=
  bound ← on_db (GetSetting "clouddrive_c115_account_id");
  if bool_decide (trim_space bound = "") || negb (bool_decide (trim_space bound = accountID)) then
    throw (ErrText ("clouddrive_c115_account_id must bind this mount to 115 account " +:+ accountID))
  else
  mounts ← call rm_mounts AMounts;
  match find usable_mount mounts with
  | Some m => mret (clean (mt_MountPath m))
  | None => throw (ErrText "no writable mounted CloudDrive2 path is bound to /115open/emby")
  end.

Definition cloudDriveStagingDirectory (a : account) : Pi string :=
  mountRoot ← cloudDrive115Mount a.1;
  let directory := join_path [mountRoot; "_待整理"] in
  _ ← waitForLocalDirectory directory;
  _ ← wrap ("CloudDrive2 staging directory " +:+ directory +:+ " is not writable: ") (on_files (access_writable directory));
  mret directory.

(** Copying the spool to the staging file. *)
Definition write_staging (spoolPath stagingPath : string) (size : Z) : M Files unit :=
  data ← read_file spoolPath;
  _ ← create_exclusive stagingPath;
  '(written, copyErr) ← copy_buffer (S (length data)) stagingPath copy_buffer_size data 0;
  syncErr ← attempt sync;
  closeErr ← attempt close;
  match copyErr with
  | Some e => throw e
  | None =>
      if negb (Z.eqb written size) then
        throw (ErrText ("CloudDrive2 wrote " +:+ pretty written +:+ " of " +:+ pretty size +:+ " bytes"))
      else _ ← lift syncErr; lift closeErr
  end.

(** The staging file: the one an earlier attempt left, verified, or a new copy. *)
Definition stage_file (spoolPath stagingPath : string) (size : Z) (sha : string) : M Files unit :=
  info ← attempt (lstat stagingPath);
  match info with
  | Ok (NFile data) =>
      if negb (Z.eqb (Z.of_nat (length data)) size) then throw (ErrText "CloudDrive2 staging file has ambiguous size")
      else
        actual ← hashPathSHA1 stagingPath;
        if equal_fold actual sha then mret tt else throw (ErrText "CloudDrive2 staging file has ambiguous content")
  | Ok _ => throw (ErrText "CloudDrive2 staging file has ambiguous size")
  | Err e => if is_not_exist e then write_staging spoolPath stagingPath size else throw e
  end.

(** The name of the staging file: the digest of the source's ID, in lower case. *)
Definition staging_name (sourceFileID : string) : string :=
  ".embymedia-quark-" +:+ hex_lower (sha1 (chars sourceFileID)) +:+ ".uploading".

(** The item as [uploadViaCloudDriveDirectory] reads it. *)
Definition uploadViaCloudDriveDirectory (sourceFileID : string) (source : UploadSource) (a : account)
    (parentCID destinationDirectory : string) : Pi UploadResult :=
  if negb (ValidSHA1 (us_SHA1 source)) then throw (ErrText "verified spool SHA-1 is required before upload") else
  existing ← findDestinationFile a parentCID (us_Name source);
  match existing with
  | Some f =>
      match classifyDestination existing source parentCID with
      | destinationVerified => mret (mkUploadResult (df_FileID f) true 0)
      | destinationForeign => throw (name_conflict (us_Name source))
      | destinationUnsettled => finished_wait (waitForVerifiedDestination a parentCID source false (us_Size source))
      end
  | None =>
      _ ← waitForLocalDirectory destinationDirectory;
      let stagingPath := join_path [destinationDirectory; staging_name sourceFileID] in
      let finalPath := join_path [destinationDirectory; us_Name source] in
      info ← attempt (on_files (lstat finalPath));
      match info with
      | Ok (NFile _) => finished_wait (waitForVerifiedDestination a parentCID source false (us_Size source))
      | Ok _ => throw (ErrText ("CloudDrive2 destination " +:+ finalPath +:+ " is not a regular file"))
      | Err e =>
          if negb (is_not_exist e) then throw e else
          _ ← on_files (stage_file (us_Path source) stagingPath (us_Size source) (us_SHA1 source));
          _ ← ctx_live;
          _ ← wrap "publish CloudDrive2 upload: " (on_files (rename stagingPath finalPath));
          finished_wait (waitForVerifiedDestination a parentCID source false (us_Size source))
      end
  end.

End Destination.
