(* ===== verification/DestinationProofs.v ===== *)
(** Correctness of the destination ([Destination.v]): an upload is reported done only
    when a listing made in the same call shows the object with the name, size and digest
    of the source; nothing is uploaded over an existing object; waiting ends; a
    multipart upload sends the bytes of the file. *)
From S2P Require Import Prelude GoStrings GoPath Sql Schema Accounts Protocol FileSys Checkpoint Download.
From S2P Require Import Payload Worker Remote Drive DriveProofs Destination.
From Stdlib Require Import Ascii.


Definition any_db (d d' : Database) : Prop := True.
#[global] Instance any_db_preorder : PreOrder any_db.
Proof. by split. Qed.

(** Anything may be asked and changed. *)
Abbreviation anything := (pipe_rel (λ _ : action, True) any_db).

Lemma keeps_any {D A} (m : M D A) : keeps (λ _ _, True) m.
Proof. intros w. by apply wp_intro. Qed.

(** The requests that only look. *)
Definition looking (a : action) : Prop :=
  match a with AList _ _ _ _ _ _ | AMounts _ => True | _ => False end.

(** ** Classification *)

(** [f] is the object the source should become. *)
Definition identical (f : DriveFile) (source : UploadSource) (parent : string) : Prop :=
  df_IsFolder f = false ∧ df_ParentID f = parent ∧ df_Name f = us_Name source ∧ df_Size f = us_Size source
  ∧ trim_space (df_Sha1 f) ≠ "" ∧ equal_fold (df_Sha1 f) (us_SHA1 source) = true.

Lemma classify_verified file source parent :
  classifyDestination file source parent = destinationVerified ↔ ∃ f, file = Some f ∧ identical f source parent.
Proof.
  unfold classifyDestination, identical. destruct file as [f|]; [|split; [done|by intros (? & ? & _)]].
  destruct (df_IsFolder f) eqn:E1; simpl; [split; [done|]; intros (? & [= <-] & ? & _); congruence|].
  destruct (negb _ || negb _) eqn:E2; [split; [done|]; intros (? & [= <-] & _ & Hp & Hn & _)|].
  { rewrite !bool_decide_true in E2 by done. done. }
  destruct (_ || _ || _) eqn:E3; bools.
  - split; [done|]. intros (? & [= <-] & _ & _ & _ & Hs & Ht & He). rewrite He, bool_decide_false in E3 by done. simpl in E3.
    rewrite Hs, Z.eqb_refl in E3. done.
  - split; [intros _; exists f; split_and!; done|done].
Qed.

Lemma classify_unsettled file source parent :
  classifyDestination file source parent = destinationUnsettled ↔ file = None.
Proof. unfold classifyDestination. destruct file as [f|]; [|done]. split; [|done]. by repeat case_match. Qed.

Section Looking.
Context `{Env} `{Ctx} `{Sleep} `{Remote} `{Urls} `{Sha256} `{Hash} `{Credential}.
Implicit Types w : World Pipe.

(** ** Listings of the destination *)

(** [f] was in an answered listing of [parent] between two states. *)
Definition listed_file (s s' : Pipe) (parent : string) (f : DriveFile) : Prop :=
  ∃ a offset limit files total, during s s' (AList "115" a parent offset limit (Ok (files, total))) ∧ f ∈ files.

(** The pages of a directory, from [offset] on, none with a [wanted] object, up to the end. *)
Inductive absent_pages (wanted : DriveFile → bool) (parent : string) : Z → history → Prop :=
| absent_last a offset limit files total :
    Forall (λ f, wanted f = false) files → files = [] ∨ (total ≤ offset + Z.of_nat (length files))%Z →
    absent_pages wanted parent offset [AList "115" a parent offset limit (Ok (files, total))]
| absent_more a offset limit files total l :
    Forall (λ f, wanted f = false) files → absent_pages wanted parent (offset + 1000) l →
    absent_pages wanted parent offset (AList "115" a parent offset limit (Ok (files, total)) :: l).

Lemma list_page a parent offset limit w :
  (0 ≤ offset)%Z →
  wp (listFiles a parent offset limit) w (λ r w', grows looking (w_db w) (w_db w') ∧
    ∀ files total, r = Ok (files, total) → ∃ a' limit', pi_log (w_db w') = pi_log (w_db w) ++
      [AList "115" a' (or_root parent) offset limit' (Ok (files, total))]).
Proof.
  intros Hoff. unfold listFiles. apply wp_bind.
  eapply wp_mono; [apply (keeps_getAccount (λ _, False) any_db); [by intros; apply keeps_any]|].
  intros [acct|] w1 [(l & Hl & Hno) _]; (destruct l as [|? ?]; [|by inversion Hno]); rewrite app_nil_r in Hl.
  2:{ split; [exists []; by rewrite app_nil_r|done]. }
  apply wp_bind, wp_call. intros n. cbv beta zeta. rewrite (proj2 (Z.ltb_ge _ _)) by done.
  match goal with |- context [rm_list ?h "115" ?a ?p ?o ?l] => destruct (rm_list h "115" a p o l) as [[files total]|e] eqn:Hr;
    set (lim := l) in * end.
  all: simpl; assert (∀ x, grows looking (w_db w) (mkPipe (pi_db (w_db w1)) (pi_files (w_db w1)) (pi_log (w_db w1) ++ [AList "115" acct.1 (or_root parent) offset lim x]))) as Hg
    by (intros x; eexists; rewrite <-Hl; split; [done|by repeat constructor]).
  2:{ split; [apply Hg|done]. }
  wp_step; [apply wp_throw; split; [apply Hg|done]|]. apply wp_bind, wp_lift. destruct (res_each _ _); [|split; [apply Hg|done]].
  apply wp_ret. split; [apply Hg|]. intros ? ? [= <- <-]. exists acct.1, lim. simpl. by rewrite <-Hl.
Qed.

Lemma keeps_scan a parent wanted rounds offset :
  keeps (pipe_rel looking any_db) (scan_destination a parent wanted rounds offset).
Proof.
  revert offset. induction rounds as [|rounds IH]; intros offset; simpl; keeps_run; try apply IH.
  apply keeps_listFiles; [apply _|by intros; apply keeps_any|done].
Qed.

Lemma find_absent {A} (p : A → bool) l : find p l = None → Forall (λ x, p x = false) l.
Proof.
  intros Hf. apply Forall_forall. intros x Hx. destruct (p x) eqn:E; [|done].
  by rewrite (find_none _ _ Hf x (proj1 (list_elem_of_In _ _) Hx)) in E.
Qed.

(** What a scan of the destination returns is what the listings showed. *)
Lemma scan_spec a parent wanted rounds offset w :
  (0 ≤ offset)%Z →
  wp (scan_destination a parent wanted rounds offset) w (λ r w', grows looking (w_db w) (w_db w') ∧ match r with
    | Ok (Some f) => wanted f = true ∧ listed_file (w_db w) (w_db w') (or_root parent) f
    | Ok None => ∃ l, pi_log (w_db w') = pi_log (w_db w) ++ l ∧ absent_pages wanted (or_root parent) offset l
    | Err _ => True
    end).
Proof.
  revert offset w. induction rounds as [|rounds IH]; intros offset w Hoff; cbn [scan_destination].
  { apply wp_throw. by split. }
  apply wp_bind. eapply wp_mono; [by apply list_page|]. intros [[files total]|e] w1 [Hg Hl]; [|by split].
  destruct (Hl _ _ eq_refl) as (a' & lim & Hlog). simpl. destruct (find wanted files) as [f|] eqn:Hf.
  - apply wp_ret. split; [done|]. apply find_some in Hf as [Hin Hw]. split; [done|].
    exists a', offset, lim, files, total. split; [|by apply list_elem_of_In]. eexists. split; [done|]. by left.
  - apply find_absent in Hf. match goal with |- wp (if ?b then _ else _) _ _ => destruct b eqn:Hend end.
    + apply wp_ret. split; [done|]. eexists. split; [done|]. apply absent_last; [done|].
      apply orb_true_iff in Hend as [He|He]; bools; [left; by apply nil_length_inv|by right].
    + eapply wp_mono; [apply IH; lia|]. intros r w2 [Hg2 Hr]. split; [by etrans|]. destruct r as [[f|]|e]; [| |done].
      * destruct Hr as (Hw & ac & o & li & fs & t & Hd & Hin). split; [done|]. exists ac, o, li, fs, t. split; [|done]. by eapply during_r.
      * destruct Hr as (l & El & Hab). eexists. rewrite El, Hlog, <-app_assoc. split; [done|]. by apply absent_more.
Qed.

Lemma find_spec a parent name w :
  wp (findDestinationFile a parent name) w (λ r w', grows looking (w_db w) (w_db w') ∧ match r with
    | Ok (Some f) => df_Name f = name ∧ listed_file (w_db w) (w_db w') (or_root parent) f
    | Ok None => ∃ l, pi_log (w_db w') = pi_log (w_db w) ++ l
        ∧ absent_pages (λ f, bool_decide (df_Name f = name)) (or_root parent) 0 l
    | Err _ => True
    end).
Proof.
  eapply wp_mono; [by apply scan_spec|]. intros [[f|]|e] w' [Hg Hr]; (split; [done|]); [|done|done].
  destruct Hr as [Hn%bool_decide_eq_true Hl]. done.
Qed.

(** ** Waiting *)

Lemma wp_or_cancelled {A} (m : M Pipe A) w (Q : res A → World Pipe → Prop) :
  wp m w (λ r w', match r with Ok x => Q (Ok x) w' | Err _ => ∀ e n, Q (Err e) (mkWorld n (w_db w')) end) →
  wp (or_cancelled m) w Q.
Proof.
  intros Hm. unfold or_cancelled. apply wp_bind, wp_attempt. eapply wp_mono; [exact Hm|].
  intros [x|e] w' HQ; [by apply wp_ret|]. apply wp_bind, wp_ctx_over. intros b n. by apply wp_throw.
Qed.

(** [x] is the object of the source, shown in a listing between two states. *)
Definition settled (s s' : Pipe) (parent : string) (source : UploadSource) (x : UploadResult) : Prop :=
  ∃ f, listed_file s s' (or_root parent) f ∧ identical f source parent ∧ ur_FileID x = df_FileID f.

Lemma listed_r P s s1 s2 parent f : grows P s s1 → listed_file s1 s2 parent f → listed_file s s2 parent f.
Proof. intros Hg (a & o & l & fs & t & Hd & Hin). exists a, o, l, fs, t. split; [|done]. by eapply during_r. Qed.
Lemma listed_l P s s1 s2 parent f : listed_file s s1 parent f → grows P s1 s2 → listed_file s s2 parent f.
Proof. intros (a & o & l & fs & t & Hd & Hin) Hg. exists a, o, l, fs, t. split; [|done]. by eapply during_l. Qed.

Lemma settled_r P s s1 s2 parent source x : grows P s s1 → settled s1 s2 parent source x → settled s s2 parent source x.
Proof. intros Hg (f & Hl & Hi). exists f. split; [by eapply listed_r|done]. Qed.
Lemma settled_l P s s1 s2 parent source x : settled s s1 parent source x → grows P s1 s2 → settled s s2 parent source x.
Proof. intros (f & Hl & Hi) Hg. exists f. split; [by eapply listed_l|done]. Qed.

Lemma keeps_or_cancelled {A} P RD `{!PreOrder RD} (m : M Pipe A) :
  keeps (pipe_rel P RD) m → keeps (pipe_rel P RD) (or_cancelled m).
Proof. intros Hm. unfold or_cancelled. keeps_run. Qed.
Hint Resolve keeps_or_cancelled keeps_scan : keeps.

Lemma keeps_placeholder a parent name : keeps (pipe_rel looking any_db) (cloudDriveUploadPlaceholder a parent name).
Proof. apply keeps_bind; [apply _|apply keeps_scan|]. intros. apply keeps_ret, _. Qed.

Lemma verify_rounds_spec a parent source rapid transferred idle started ceiling rounds deadline interval w :
  wp (verify_rounds a parent source rapid transferred idle started ceiling rounds deadline interval) w
    (λ r w', grows looking (w_db w) (w_db w') ∧
      ∀ x, r = Ok (Some x) → settled (w_db w) (w_db w') parent source x ∧ ur_Rapid x = rapid ∧ ur_Transferred x = transferred).
Proof.
  revert deadline interval w. induction rounds as [|rounds IH]; intros deadline interval w; cbn [verify_rounds].
  { apply wp_ret. by split. }
  apply wp_bind, wp_or_cancelled. eapply wp_mono; [apply find_spec|]. intros [file|e] w1 [Hg Hf]; [|intros; by split].
  assert (∀ k, (∀ w2, grows looking (w_db w) (w_db w2) → wp k w2 (λ r w', grows looking (w_db w) (w_db w') ∧ ∀ x, r = Ok (Some x) →
     settled (w_db w) (w_db w') parent source x ∧ ur_Rapid x = rapid ∧ ur_Transferred x = transferred)) →
    wp (match classifyDestination file source parent, file with
        | destinationVerified, Some f => mret (Some (mkUploadResult (df_FileID f) rapid transferred))
        | destinationForeign, _ => throw (identity_failed (us_Name source))
        | _, _ => k end) w1
      (λ r w', grows looking (w_db w) (w_db w') ∧ ∀ x, r = Ok (Some x) →
         settled (w_db w) (w_db w') parent source x ∧ ur_Rapid x = rapid ∧ ur_Transferred x = transferred)) as Hcase.
  { intros k Hk. destruct (classifyDestination file source parent) eqn:Ec; [destruct file as [f|]|..]; try by apply Hk.
    - apply wp_ret. split; [done|]. intros x [= <-]. split; [|done]. exists f. destruct Hf as [_ Hl]. split; [done|].
      apply classify_verified in Ec as (? & [= <-] & Hi). done.
    - apply wp_throw. by split. }
  apply Hcase. clear Hcase. intros w2 Hg2. apply wp_bind, wp_or_cancelled.
  eapply wp_mono; [apply keeps_placeholder|]. intros r w3 [Hg3' _]. assert (grows looking (w_db w) (w_db w3)) as Hg3 by (by etrans).
  clear Hg3'. revert r.
  intros [pending|e]; [|intros; by split]. apply wp_bind.
  assert (∀ b w', wp (if b : bool then t ← now; mret (t + idle)%Z else mret deadline) w' (λ r w'', w_db w'' = w_db w' ∧ is_ok r = true)) as Hdl.
  { intros [] w'; wp_run; done. }
  eapply wp_mono; [apply Hdl|]. intros [dl|] w4 [Hq4 _]; [|rewrite Hq4; by split]. rewrite <-Hq4 in Hg3. clear Hq4.
  apply wp_bind. apply wp_bind, wp_now. intros t n. eapply wp_mono with (P := λ r w', w_db w' = w_db w4).
  { wp_run; done. }
  intros [late|] w5 Hq5; [|rewrite Hq5; by split]. rewrite <-Hq5 in Hg3. clear Hq5. destruct late; [apply wp_throw; by split|].
  apply wp_bind, wp_now. intros t' n'. apply wp_bind, wp_sleep; intros m; [by split|].
  eapply wp_mono; [apply IH|]. simpl. intros r w6 [Hg6 Hr]. split; [by etrans|]. intros x Hx. destruct (Hr x Hx) as [Hs Hrest].
  split; [|done]. by eapply settled_r.
Qed.

Lemma wait_spec a parent source rapid transferred w :
  wp (waitForVerifiedDestination a parent source rapid transferred) w
    (λ r w', grows looking (w_db w) (w_db w') ∧
      ∀ x, r = Ok (Some x) → settled (w_db w) (w_db w') parent source x ∧ ur_Rapid x = rapid ∧ ur_Transferred x = transferred).
Proof. unfold waitForVerifiedDestination. apply wp_bind, wp_now. intros t n. eapply wp_mono; [apply verify_rounds_spec|]. done. Qed.

Lemma finished_spec a parent source rapid transferred w :
  wp (finished_wait (waitForVerifiedDestination a parent source rapid transferred)) w
    (λ r w', grows looking (w_db w) (w_db w') ∧ ∀ x, r = Ok x → settled (w_db w) (w_db w') parent source x).
Proof.
  unfold finished_wait. apply wp_bind. eapply wp_mono; [apply wait_spec|]. intros [[x|]|e] w' [Hg Hr]; [|by split..].
  apply wp_ret. split; [done|]. intros ? [= <-]. by apply Hr.
Qed.

(** *** It ends *)

Lemma later_getAccount id : later (getAccount id).
Proof.
  unfold getAccount, GetDefaultAccount, ListAccounts, GetSetting, SaveAccount. later_run.
Qed.
Hint Resolve later_getAccount : keeps.

Lemma later_listFiles a d o l : later (listFiles a d o l).
Proof. unfold listFiles. later_run. Qed.
Hint Resolve later_listFiles : keeps.

Lemma later_scan a parent wanted rounds offset : later (scan_destination a parent wanted rounds offset).
Proof. revert offset. induction rounds as [|rounds IH]; intros offset; simpl; later_run. Qed.
Hint Resolve later_scan : keeps.

Lemma later_or_cancelled {A} (m : M Pipe A) : later m → later (or_cancelled m).
Proof. intros Hm. unfold or_cancelled. later_run. Qed.

Lemma wp_now_at {D} (v : World D) (Q : res Z → World D → Prop) :
  Q (Ok (env_now (w_tick v))) (tick v (w_db v)) → wp now v Q.
Proof. done. Qed.

(** A clock that does not go back, and sleeps that last as long as they should. *)
Record fair_clock : Prop := {
  clock_monotone : ∀ n m, n ≤ m → (env_now n ≤ env_now m)%Z;
  clock_sleep : ∀ n d, n ≤ wake n d ∧ (env_now n + d ≤ env_now (wake n d))%Z
}.

Lemma verify_total a parent source rapid transferred idle started ceiling rounds deadline interval w :
  fair_clock → (second ≤ interval)%Z → (ceiling - env_now (w_tick w) < (Z.of_nat rounds - 1) * second)%Z →
  wp (verify_rounds a parent source rapid transferred idle started ceiling rounds deadline interval) w
    (λ r _, r ≠ Ok None) ∨ (rounds = 0).
Proof.
  intros [Hmono Hsleep]. revert deadline interval w.
  induction rounds as [|rounds IH]; intros deadline interval w Hint Hceil; [by right|left]; cbn [verify_rounds].
  apply wp_bind, wp_later; [apply later_or_cancelled, later_scan|]. intros [file|e] w1 Hq1; [|done].
  assert (∀ k, wp k w1 (λ r _, r ≠ Ok None) →
    wp (match classifyDestination file source parent, file with
        | destinationVerified, Some f => mret (Some (mkUploadResult (df_FileID f) rapid transferred))
        | destinationForeign, _ => throw (identity_failed (us_Name source))
        | _, _ => k end) w1 (λ r _, r ≠ Ok None)) as Hcase.
  { intros k Hk. by destruct (classifyDestination file source parent), file. }
  apply Hcase. clear Hcase. apply wp_bind, wp_later; [apply later_or_cancelled, later_bind; [apply later_scan|intros; apply later_ret]|].
  intros [pending|e] w2 Hq2; [|done]. apply wp_bind, wp_later; [later_run|]. intros [dl|] w3 Hq3; [|done].
  apply wp_bind, wp_bind, wp_now_at. destruct (Z.ltb dl (env_now (w_tick w3))); [by apply wp_ret, wp_throw|].
  apply wp_bind, wp_now_at, wp_ret. simpl. destruct (Z.ltb ceiling (env_now (S (w_tick w3)))) eqn:Elate; [by apply wp_throw|].
  apply Z.ltb_ge in Elate. apply wp_bind, wp_now_at, wp_bind. unfold wp at 1, sleepContext. simpl. destruct (ctx_done _); [done|].
  set (interval' := if Z.ltb minute _ then _ else _).
  assert (second ≤ interval')%Z as Hint' by (unfold interval'; case_match; [unfold second; lia|done]).
  set (w4 := mkWorld _ _). assert (env_now (w_tick w) + second ≤ env_now (w_tick w4))%Z as Hnow.
  { unfold w4. simpl. pose proof (proj2 (Hsleep (S (S (S (w_tick w3)))) interval')). pose proof (Hmono (w_tick w) (S (S (S (w_tick w3)))) ltac:(lia)). lia. }
  destruct (IH dl interval' w4 Hint') as [Hw| ->]; [lia|exact Hw|].
  exfalso. pose proof (Hmono (w_tick w) (S (w_tick w3)) ltac:(lia)). unfold second in *. lia.
Qed.

(** Waiting for the destination ends: with a clock that does not go back and sleeps
    that last as long as asked, the loop is over within its rounds, four hours of seconds,
    whatever 115 answers and however often the upload placeholder renews the deadline. *)
Theorem wait_terminates a parent source rapid transferred w :
  fair_clock → (waitForVerifiedDestination a parent source rapid transferred w).1 ≠ Ok None.
Proof.
  intros Hclock. cut (wp (waitForVerifiedDestination a parent source rapid transferred) w (λ r _, r ≠ Ok None)).
  { unfold wp. by destruct (waitForVerifiedDestination _ _ _ _ _ w). }
  unfold waitForVerifiedDestination. apply wp_bind, wp_now_at. set (w1 := tick w (w_db w)).
  match goal with |- wp (verify_rounds _ _ _ _ _ ?idle ?started ?ceiling ?n ?d ?i) _ _ =>
    destruct (verify_total a parent source rapid transferred idle started ceiling n d i w1 Hclock ltac:(reflexivity)) as [Hw|Hz]
  end; [|exact Hw|unfold verify_fuel in Hz; lia].
  pose proof (clock_monotone Hclock (w_tick w) (S (w_tick w)) ltac:(lia)). change (w_tick w1) with (S (w_tick w)).
  assert (Z.of_nat verify_fuel = 14402)%Z as ->.
  { unfold verify_fuel. change (destinationVerifyCeiling / second)%Z with 14400%Z. lia. }
  change destinationVerifyCeiling with (14400 * second)%Z. unfold second. lia.
Qed.

(** ** Uploading *)

Lemma grows_anything P RD s s' : pipe_rel P RD s s' → anything s s'.
Proof. intros [Hg _]. split; [by eapply grows_weaken|done]. Qed.

Lemma looking_anything s s' : grows looking s s' → anything s s'.
Proof. intros Hg. split; [by eapply grows_weaken|done]. Qed.

(** Between two states the directory was searched to its end first, and held no object
    of the name. *)
Definition searched (parent name : string) (s s' : Pipe) : Prop :=
  ∃ l1 l2, pi_log s' = pi_log s ++ l1 ++ l2 ∧ absent_pages (λ f, bool_decide (df_Name f = name)) parent 0 l1.

(** Nothing but listings was asked, or the name was searched for first. *)
Definition never_over (parent name : string) (s s' : Pipe) : Prop :=
  grows looking s s' ∨ searched parent name s s'.

Lemma searched_l parent name s s1 s2 : searched parent name s s1 → anything s1 s2 → searched parent name s s2.
Proof.
  intros (l1 & l2 & Hl & Ha) [(l' & Hl' & _) _]. exists l1, (l2 ++ l'). rewrite Hl', Hl, <-!app_assoc. done.
Qed.

(** The common shape of the uploads: look for the name; if it is there, classify it; if
    not, go on. *)
Lemma upload_shape {A} a parent source (conflict : error) (found : option DriveFile → DriveFile → M Pipe A)
    (wait : M Pipe A) (go : M Pipe A) (good good' : Pipe → Pipe → A → Prop) w :
  (∀ s s1 s2 x, grows looking s s1 → good s1 s2 x → good s s2 x) →
  (∀ s s1 s2 x, grows looking s s1 → good' s1 s2 x → good' s s2 x) →
  (∀ f w1, settled (w_db w) (w_db w1) parent source (mkUploadResult (df_FileID f) true 0) →
     wp (found (Some f) f) w1 (λ r w', grows looking (w_db w1) (w_db w') ∧ ∀ x, r = Ok x → good (w_db w) (w_db w') x)) →
  (∀ w1, wp wait w1 (λ r w', grows looking (w_db w1) (w_db w') ∧ ∀ x, r = Ok x → good (w_db w1) (w_db w') x)) →
  (∀ w1, wp go w1 (λ r w', anything (w_db w1) (w_db w') ∧ ∀ x, r = Ok x → good' (w_db w1) (w_db w') x)) →
  wp (existing ← findDestinationFile a parent (us_Name source);
      match existing with
      | Some f =>
          match classifyDestination existing source parent with
          | destinationVerified => found existing f
          | destinationForeign => throw conflict
          | destinationUnsettled => wait
          end
      | None => go
      end) w (λ r w',
        (grows looking (w_db w) (w_db w') ∧ ∀ x, r = Ok x → good (w_db w) (w_db w') x)
        ∨ (searched (or_root parent) (us_Name source) (w_db w) (w_db w') ∧ ∀ x, r = Ok x → good' (w_db w) (w_db w') x)).
Proof.
  intros Hgood Hgood' Hfound Hwait Hgo. apply wp_bind. eapply wp_mono; [apply find_spec|].
  intros [[f|]|e] w1 [Hg Hf]; [| |by left].
  - destruct Hf as [_ Hl]. destruct (classifyDestination (Some f) source parent) eqn:Ec.
    + apply classify_verified in Ec as (? & [= <-] & Hi). eapply wp_mono.
      * apply Hfound. exists f. done.
      * intros r w2 [Hg2 Hr]. left. split; [by etrans|done].
    + eapply wp_mono; [apply Hwait|]. intros r w2 [Hg2 Hr]. left. split; [by etrans|].
      intros x Hx. eapply Hgood; [exact Hg|by apply Hr].
    + apply wp_throw. by left.
  - destruct Hf as (l & Hlog & Hab). eapply wp_mono; [apply Hgo|]. intros r w2 [Hg2 Hr]. right. split.
    + eapply searched_l; [|exact Hg2]. exists l, []. by rewrite app_nil_r.
    + intros x Hx. eapply Hgood'; [exact Hg|by apply Hr].
Qed.

Lemma keeps_oss_client a : keeps anything (oss_client a).
Proof. unfold oss_client. keeps_run. Qed.
Hint Resolve keeps_oss_client : keeps.

Lemma keeps_wait_finished a parent source rapid transferred :
  keeps anything (finished_wait (waitForVerifiedDestination a parent source rapid transferred)).
Proof. intros w. eapply wp_mono; [apply finished_spec|]. intros r w' [Hg _]. by apply looking_anything. Qed.
Hint Resolve keeps_wait_finished : keeps.

Section Callbacks.
Context (onSession : string → string → string → M Pipe unit) (onPart : Z → string → Z → M Pipe unit).
Hypothesis HonSession : ∀ u b o, keeps anything (onSession u b o).
Hypothesis HonPart : ∀ n t z, keeps anything (onPart n t z).

Lemma keeps_upload_part mp data size parts n : keeps anything (upload_part mp data size onPart parts n).
Proof. unfold upload_part. keeps_run. Qed.

Lemma session_spec a parent source init mp w :
  wp (upload_session a parent source init mp onPart) w (λ r w', anything (w_db w) (w_db w') ∧
    ∀ x, r = Ok x → settled (w_db w) (w_db w') parent source x).
Proof.
  unfold upload_session. apply wp_bind. eapply wp_mono; [refine ((_ : keeps anything _) w); keeps_run|].
  intros [listed|e] w1 Hr1; [|by split]. apply wp_bind. eapply wp_mono; [refine ((_ : keeps anything _) w1); keeps_run|].
  intros [[]|e] w2 Hr2; [|split; [by etrans|done]]. apply wp_bind. eapply wp_mono; [refine ((_ : keeps anything _) w2); keeps_run|].
  intros [data|e] w3 Hr3; [|split; [do 2 (etrans; [done|]); done|done]]. apply wp_bind.
  eapply wp_mono; [refine (keeps_fold anything _ _ _ _ w3); intros; apply keeps_upload_part|].
  intros [parts|e] w4 Hr4; [|split; [do 3 (etrans; [done|]); done|done]].
  destruct (callbackValues init) as [cb var]. apply wp_bind. eapply wp_mono; [refine ((_ : keeps anything _) w4); keeps_run|].
  assert (∀ s, anything (w_db w4) s → anything (w_db w) s) as Hrest by (intros s Hs; do 4 (etrans; [done|]); done).
  intros [[]|e] w5 Hr5; [|split; [by apply Hrest|done]]. eapply wp_mono; [apply finished_spec|].
  intros r w6 [Hg Hr]. split; [apply Hrest; etrans; [done|by apply looking_anything]|]. intros x Hx.
  eapply settled_r; [|by apply Hr]. apply Hrest. done.
Qed.

(** What [begin_upload] gives: the object of the source, or coordinates to upload to. *)
Definition begun (parent : string) (source : UploadSource) (s s' : Pipe) (x : UploadResult + (upload_init * string * string)) : Prop :=
  match x with inl r => settled s s' parent source r | inr _ => True end.

Lemma keeps_UploadInit a request : keeps anything (UploadInit a request).
Proof. unfold UploadInit. keeps_run. Qed.
Hint Resolve keeps_UploadInit : keeps.

Lemma wp_keeps_bind {A B} (m : M Pipe A) (f : A → M Pipe B) w (good : Pipe → Pipe → B → Prop) :
  keeps anything m → (∀ s s1 s2 x, anything s s1 → good s1 s2 x → good s s2 x) →
  (∀ a w1, wp (f a) w1 (λ r w', anything (w_db w1) (w_db w') ∧ ∀ x, r = Ok x → good (w_db w1) (w_db w') x)) →
  wp (m ≫= f) w (λ r w', anything (w_db w) (w_db w') ∧ ∀ x, r = Ok x → good (w_db w) (w_db w') x).
Proof.
  intros Hm Hgood Hf. apply wp_bind. eapply wp_mono; [apply Hm|]. intros [a|e] w1 Hr1; [|by split].
  eapply wp_mono; [apply Hf|]. intros r w2 [Hr2 Hr]. split; [by etrans|]. intros x Hx. by eapply Hgood; [|apply Hr].
Qed.

Lemma begun_r parent source s s1 s2 x : anything s s1 → begun parent source s1 s2 x → begun parent source s s2 x.
Proof. intros [Hg _]. destruct x; [|done]. by apply settled_r with (P := λ _, True). Qed.

Lemma begin_spec a parent source w :
  wp (begin_upload a parent source) w (λ r w',
    (grows looking (w_db w) (w_db w') ∧ ∀ x, r = Ok x → ∃ y, x = inl y ∧ settled (w_db w) (w_db w') parent source y)
    ∨ (searched (or_root parent) (us_Name source) (w_db w) (w_db w') ∧ ∀ x, r = Ok x → begun parent source (w_db w) (w_db w') x)).
Proof.
  unfold begin_upload. destruct (negb _); [apply wp_throw; by left|].
  assert (∀ m, grows looking (w_db w) (w_db (mkWorld m (mkPipe (pi_db (w_db w)) (pi_files (w_db w)) (pi_log (w_db w)))))) as Hno.
  { intros m. exists []. by rewrite app_nil_r. }
  apply wp_bind, wp_on_files. unfold lstat. apply wp_query; simpl; [intros; left; split; [exists []; by rewrite app_nil_r|done]|]. intros stat n Hs. apply wp_bind.
  assert (∀ w1, w_db w1 = mkPipe (pi_db (w_db w)) (pi_files (w_db w)) (pi_log (w_db w)) → w_db w1 = w_db w) as Hsame by (intros; by destruct (w_db w)).
  destruct stat as [data| | |]; try (apply wp_throw; left; split; [apply Hno|done]).
  destruct (Z.eqb _ _); [|apply wp_throw; left; split; [apply Hno|done]].
  apply wp_ret. set (w1 := mkWorld _ _). assert (w_db w1 = w_db w) as Hw1 by (by apply Hsame). rewrite <-Hw1. clearbody w1. clear Hno Hsame Hw1.
  eapply (upload_shape a parent source (name_conflict (us_Name source)) (λ _ f, mret (inl (mkUploadResult (df_FileID f) true 0)))
    (r ← finished_wait (waitForVerifiedDestination a parent source true 0); mret (inl r)) _
    (λ s s' x, ∃ y, x = inl y ∧ settled s s' parent source y) (begun parent source)).
  - intros s s1 s2 x Hg (y & -> & Hy). exists y. split; [done|]. by eapply settled_r.
  - intros s s1 s2 x Hg. apply begun_r. by apply looking_anything.
  - intros f w2 Hset. apply wp_ret. split; [done|]. intros x [= <-]. eauto.
  - intros w2. apply wp_bind. eapply wp_mono; [apply finished_spec|]. intros [x|e] w3 [Hg Hr]; [|by split].
    apply wp_ret. split; [done|]. intros ? [= <-]. eauto.
  - intros w2. apply wp_keeps_bind; [keeps_run|intros ????; apply begun_r|]. intros _ w3.
    apply wp_keeps_bind; [keeps_run|intros ????; apply begun_r|]. intros init w4.
    apply wp_keeps_bind; [keeps_run|intros ????; apply begun_r|]. intros init' w5. destruct (Z.eqb _ 2).
    { apply wp_bind. eapply wp_mono; [apply finished_spec|]. intros [x|e] w6 [Hg Hr]; (split; [by apply looking_anything|]); [|done].
      intros ? [= <-]. by apply Hr. }
    destruct (_ || _); [by apply wp_throw|]. apply wp_keeps_bind; [keeps_run|intros ????; apply begun_r|]. intros _ w6.
    destruct (negb _).
    + destruct (_ || _); [by apply wp_throw|]. apply wp_keeps_bind; [keeps_run|intros ????; apply begun_r|].
      intros _ w7. apply wp_ret. split; [done|]. by intros ? [= <-].
    + apply wp_keeps_bind; [keeps_run|intros ????; apply begun_r|]. intros _ w7. apply wp_ret. split; [done|]. by intros ? [= <-].
Qed.

(** [UploadFile]: what it asked, and what it reports. *)
Lemma upload_file_spec a parentCID source w :
  wp (UploadFile a parentCID source onSession onPart) w (λ r w',
    never_over (or_root parentCID) (trim_space (us_Name source)) (w_db w) (w_db w') ∧
    ∀ o x, r = Ok (o, Ok x) → settled (w_db w) (w_db w') (or_root parentCID) (trimmed_source source) x).
Proof.
  unfold UploadFile. set (src := trimmed_source source). change (trim_space (us_Name source)) with (us_Name src).
  apply wp_bind, wp_attempt. eapply wp_mono; [apply begin_spec|]. rewrite or_root_idem.
  intros r1 w1 [[Hg Hb]|[Hse Hb]].
  { destruct r1 as [x|e]; [destruct (Hb x eq_refl) as (y & -> & Hy)|]; apply wp_ret; (split; [by left|]); [|by intros].
    intros o z [= <- <-]. done. }
  assert (anything (w_db w) (w_db w1)) as Hq1.
  { destruct Hse as (l1 & l2 & Hl & _). split; [|done]. eexists. split; [exact Hl|]. by apply Forall_true. }
  assert (∀ s, anything (w_db w1) s → never_over (or_root parentCID) (us_Name src) (w_db w) s) as Hover.
  { intros s Hs. right. by eapply searched_l. }
  destruct r1 as [[x|[[init bucket] object]]|e]; [|destruct (negb _)|].
  - apply wp_ret. split; [by apply Hover|]. intros o y [= <- <-]. by apply (Hb (inl x)).
  - apply wp_bind, wp_attempt. eapply wp_mono; [apply session_spec|]. intros r w2 [Hg Hr]. apply wp_ret.
    split; [by apply Hover|]. intros o x [= <- Hx]. destruct r as [y|]; [|done]. injection Hx as <-.
    eapply settled_r; [apply Hq1|by apply Hr].
  - apply wp_bind, wp_attempt. eapply wp_mono; [refine ((_ : keeps anything _) w1); keeps_run|].
    intros [id|e] w2 Hr2; [|apply wp_ret; split; [by apply Hover|by intros]]. apply wp_bind, wp_attempt.
    eapply wp_mono; [apply HonSession|]. intros [[]|e] w3 Hr3; (assert (anything (w_db w1) (w_db w3)) as Hq3 by (by etrans)).
    + apply wp_bind, wp_attempt. eapply wp_mono; [apply session_spec|]. intros r w4 [Hg Hr]. apply wp_ret.
      split; [apply Hover; by etrans|]. intros o x [= <- Hx]. destruct r as [y|]; [|done]. injection Hx as <-.
      assert (anything (w_db w) (w_db w3)) as [Hq3' _] by (by etrans). eapply settled_r; [exact Hq3'|by apply Hr].
    + apply wp_bind. eapply wp_mono; [refine ((_ : keeps anything _) w3); keeps_run|].
      intros [[]|e'] w4 Hr4; [apply wp_ret|]; (split; [apply Hover; by etrans|by intros]).
  - apply wp_ret. split; [by apply Hover|]. by intros.
Qed.

End Callbacks.

(** ** The mounted directory *)

Definition same_files (s s' : Pipe) : Prop := pi_files s' = pi_files s.
#[global] Instance same_files_preorder : PreOrder same_files.
Proof. split; [by intros s|]. intros s1 s2 s3 F1 F2. unfold same_files in *. congruence. Qed.

Lemma sf_on_db {A} (m : M Database A) : keeps same_files (on_db m).
Proof. intros w. by apply wp_on_db, wp_intro. Qed.
Lemma sf_on_files {A} (m : M Files A) : keeps eq m → keeps same_files (on_files m).
Proof. intros Hm w. apply wp_on_files. eapply wp_mono; [apply Hm|]. intros r w' Heq. simpl in Heq. by subst. Qed.
Lemma sf_call {A} (ask : history → res A) record : keeps same_files (call ask record).
Proof. intros w. by apply wp_call. Qed.
Lemma sf_ctx_over : keeps same_files ctx_over.
Proof. intros w. by apply wp_ctx_over. Qed.
Lemma sf_sleep d : keeps same_files (sleepContext d).
Proof. intros w. by apply wp_sleep. Qed.
Lemma sf_lstat p : keeps eq (lstat p).
Proof. apply keeps_query, _. Qed.
Hint Resolve sf_on_db sf_on_files sf_call sf_ctx_over sf_sleep sf_lstat : keeps.

Lemma sf_listFiles a d o l : keeps same_files (listFiles a d o l).
Proof. unfold listFiles, getAccount, GetDefaultAccount. keeps_run. Qed.
Hint Resolve sf_listFiles : keeps.
Lemma sf_scan a parent wanted rounds offset : keeps same_files (scan_destination a parent wanted rounds offset).
Proof. revert offset. induction rounds as [|rounds IH]; intros offset; simpl; keeps_run. Qed.
Hint Resolve sf_scan : keeps.

Lemma sf_or_cancelled {A} (m : M Pipe A) : keeps same_files m → keeps same_files (or_cancelled m).
Proof. intros Hm. unfold or_cancelled. keeps_run. Qed.
Hint Resolve sf_or_cancelled : keeps.

Lemma sf_placeholder a parent name : keeps same_files (cloudDriveUploadPlaceholder a parent name).
Proof. apply keeps_bind; [apply _|apply sf_scan|]. intros. apply keeps_ret, _. Qed.
Hint Resolve sf_placeholder : keeps.

Lemma sf_wait a parent source rapid transferred :
  keeps same_files (finished_wait (waitForVerifiedDestination a parent source rapid transferred)).
Proof.
  unfold finished_wait. apply keeps_bind; [apply _| |intros [?|]; keeps_run].
  unfold waitForVerifiedDestination. apply keeps_bind; [apply _|apply keeps_now, _|intros started].
  generalize verify_fuel as n, (started + destinationVerifyTimeout (us_Size source))%Z as deadline, second as interval.
  induction n as [|n IH]; intros deadline interval; cbn [verify_rounds]; [apply keeps_ret, _|].
  apply keeps_bind; [apply _|apply sf_or_cancelled, sf_scan|intros file].
  assert (∀ k, keeps same_files k → keeps same_files
    (match classifyDestination file source parent, file with
     | destinationVerified, Some f => mret (Some (mkUploadResult (df_FileID f) rapid transferred))
     | destinationForeign, _ => throw (identity_failed (us_Name source))
     | _, _ => k end)) as Hcase by (intros k Hk; destruct (classifyDestination _ _ _), file; auto with keeps).
  apply Hcase. keeps_run; apply IH.
Qed.

(** *** The copy *)

Implicit Types f : World Files.

Lemma copy_buffer_spec fuel path buffer source written old f :
  w_db f !! path = Some (NFile old) → length source < fuel → 0 < buffer →
  wp (copy_buffer fuel path buffer source written) f (λ r f', only_touches path (w_db f) (w_db f') ∧ ∃ n e, r = Ok (n, e) ∧
    (e = None → n = (written + Z.of_nat (length source))%Z ∧ w_db f' !! path = Some (NFile (old ++ source)))).
Proof.
  intros Hp Hfuel Hbuf. revert source written old f Hp Hfuel.
  induction fuel as [|fuel IH]; intros source written old f Hp Hfuel; [lia|]; cbn [copy_buffer].
  case_bool_decide as Hc.
  { apply wp_ret. split; [done|]. exists written, None. split; [done|]. intros _. destruct source as [|x l]; [|destruct buffer; [lia|done]].
    rewrite app_nil_r. split; [simpl; lia|done]. }
  apply wp_bind, wp_attempt. eapply wp_mono; [by apply append_spec|]. intros [[]|e] f1 [Ht Hr].
  - assert (0 < length (take buffer source)) by (destruct (take buffer source); [done|simpl; lia]). rewrite length_take in *.
    eapply wp_mono; [apply (IH _ _ (old ++ take buffer source)); [done|rewrite length_drop; lia]|].
    intros r f2 (Ht2 & n & e & -> & Hn). split; [by eapply only_touches_trans|]. exists n, e. split; [done|]. intros He.
    destruct (Hn He) as [-> Hf]. rewrite <-app_assoc, take_drop in Hf. split; [|done]. rewrite ?length_take, length_drop. lia.
  - apply wp_ret. split; [done|]. by exists written, (Some e).
Qed.

(** [fs'] is [fs] with the staging file holding what is to be published. *)
Definition staged (spool S : string) (size : Z) (sha : string) (fs fs' : Files) : Prop :=
  ∃ data, fs' !! S = Some (NFile data) ∧ Z.of_nat (length data) = size ∧
    (fs !! spool = Some (NFile data) ∨ equal_fold (stringsUpperHex (sha1 data)) sha = true).

Lemma stage_spec spool S size sha f :
  wp (stage_file spool S size sha) f (λ r f', only_touches S (w_db f) (w_db f') ∧ (r = Ok tt → staged spool S size sha (w_db f) (w_db f'))).
Proof.
  unfold stage_file. apply wp_bind, wp_attempt, wp_lstat.
  - intros e n He. destruct (is_not_exist e); [|by apply wp_throw]. unfold write_staging. apply wp_bind. unfold read_file.
    apply wp_query; [by intros|]. intros data m Hd. assert (w_db f !! spool = Some (NFile data)) as Hsp.
    { simpl in Hd. destruct (w_db f !! spool) as [[]|]; simplify_eq. done. }
    apply wp_bind. eapply wp_mono; [apply create_spec|]. intros [[]|e'] f1 [Ht Hr]; cbn [w_db] in *; [|by split]. destruct Hr as [_ Hr].
    apply wp_bind. eapply wp_mono; [eapply copy_buffer_spec; [exact Hr|lia|unfold copy_buffer_size; lia]|].
    intros r f2 (Ht2 & written & err & -> & Hn). assert (only_touches S (w_db f) (w_db f2)) as Ht12 by (by eapply only_touches_trans).
    apply wp_bind, wp_attempt. eapply wp_mono; [apply noop_spec|]. intros sy f3 H3f. apply wp_bind, wp_attempt.
    eapply wp_mono; [apply noop_spec|]. intros cl f4 H4f. assert (w_db f4 = w_db f2) as H42 by congruence.
    destruct err as [err|]; [apply wp_throw; by rewrite H42|]. destruct (Hn eq_refl) as [-> Hf].
    destruct (negb _) eqn:Hz; [apply wp_throw; by rewrite H42|]. bools. apply wp_bind, wp_lift.
    destruct sy as [[]|e']; [|by rewrite H42]. apply wp_lift. rewrite H42. split; [done|]. intros _. exists data. split; [done|].
    split; [lia|by left].
  - intros x n Hx. destruct x as [data| | |]; try by apply wp_throw. destruct (negb _) eqn:Hz; [by apply wp_throw|]. bools.
    unfold hashPathSHA1. apply wp_bind, wp_bind. unfold read_file. apply wp_query; [by intros|]. intros data' m Hd. simpl in Hd.
    rewrite Hx in Hd. injection Hd as <-. apply wp_ret. destruct (equal_fold _ _) eqn:He; [|by apply wp_throw]. apply wp_ret.
    split; [done|]. intros _. exists data. split; [done|]. split; [done|by right].
Qed.

(** What an upload through the mounted directory may do to the files. *)
Definition mounted_post (spool S F : string) (size : Z) (sha : string) (fs fs' : Files) : Prop :=
  (∀ q, q ≠ S → q ≠ F → fs' !! q = fs !! q) ∧
  (fs' !! F = fs !! F ∨ fs !! F = None ∧ ∃ data, fs' !! F = Some (NFile data) ∧ Z.of_nat (length data) = size ∧
     (fs !! spool = Some (NFile data) ∨ equal_fold (stringsUpperHex (sha1 data)) sha = true)).

Lemma mounted_same spool S F size sha fs : mounted_post spool S F size sha fs fs.
Proof. split; [done|by left]. Qed.

Lemma sf_local directory : keeps same_files (waitForLocalDirectory directory).
Proof.
  unfold waitForLocalDirectory, finished_wait. apply keeps_bind; [apply _|apply keeps_now, _|intros t].
  apply keeps_bind; [apply _| |intros [?|]; keeps_run]. generalize local_fuel as n.
  induction n as [|n IH]; simpl; keeps_run.
Qed.

Lemma keeps_still_bind {A B} (m : M Pipe A) (g : A → M Pipe B) w (Q : Files → Prop) :
  keeps same_files m → (∀ a w1, pi_files (w_db w1) = pi_files (w_db w) → wp (g a) w1 (λ _ w', Q (pi_files (w_db w')))) →
  Q (pi_files (w_db w)) → wp (m ≫= g) w (λ _ w', Q (pi_files (w_db w'))).
Proof.
  intros Hm Hg HQ. apply wp_bind. eapply wp_mono; [apply Hm|]. intros [a|e] w1 Hw1; [by apply Hg|]. by rewrite Hw1.
Qed.

(** C37: An upload through the mounted directory never overwrites: apart from its own
    staging file it changes at most the final path, and that only when nothing was there;
    what is there afterwards is complete: the bytes of the spool, or a staged copy with the
    digest of the source. *)
Theorem mounted_upload_safe sourceFileID source a parentCID directory w w' r :
  let S := join_path [directory; staging_name sourceFileID] in
  let F := join_path [directory; us_Name source] in
  S ≠ F → uploadViaCloudDriveDirectory sourceFileID source a parentCID directory w = (r, w') →
  mounted_post (us_Path source) S F (us_Size source) (us_SHA1 source) (pi_files (w_db w)) (pi_files (w_db w')).
Proof.
  intros S F HSF Hrun. set (fs := pi_files (w_db w)). set (Q := mounted_post (us_Path source) S F (us_Size source) (us_SHA1 source) fs).
  assert (Q fs) as HQ by apply mounted_same.
  refine (wp_elim _ _ (λ _ w', Q (pi_files (w_db w'))) _ _ _ Hrun). clear Hrun r w'.
  assert (∀ rapid t v, Q (pi_files (w_db v)) →
    wp (finished_wait (waitForVerifiedDestination a parentCID source rapid t)) v (λ _ w', Q (pi_files (w_db w')))) as Hwait.
  { intros rapid t v Hv. eapply wp_mono; [apply sf_wait|]. intros ? ? ->. done. }
  unfold uploadViaCloudDriveDirectory. destruct (negb _); [by apply wp_throw|].
  apply keeps_still_bind; [apply sf_scan| |done]. intros existing w1 Hw1. fold fs in Hw1.
  destruct existing as [x|].
  { destruct (classifyDestination _ _ _); [apply wp_ret|apply Hwait|apply wp_throw]; by rewrite Hw1. }
  apply keeps_still_bind; [apply sf_local| |by rewrite Hw1]. intros _ w2 Hw2. rewrite Hw1 in Hw2. fold S F.
  apply wp_bind, wp_attempt, wp_on_files, wp_lstat; simpl; rewrite Hw2.
  2:{ intros x n Hx. destruct x; [apply Hwait; simpl|..]; by apply wp_throw || done. }
  intros e n He. destruct (is_not_exist e) eqn:Hne; simpl; [|by apply wp_throw].
  apply wp_bind, wp_on_files. eapply wp_mono; [apply stage_spec|]. simpl. intros r1 f1 [Ht Hst].
  assert (w_db f1 !! F = fs !! F) as HF by (by apply Ht).
  assert (Q (w_db f1)) as HQ1.
  { split; [intros q Hq1 Hq2; by apply Ht|by left]. }
  destruct r1 as [[]|e1]; [|done]. destruct (Hst eq_refl) as (data & Hd & Hlen & Hor).
  apply wp_bind, wp_ctx_live; intros m; [done|]. apply wp_bind, wp_wrap, wp_on_files. unfold rename.
  apply wp_stmt; simpl; [by intros|]. intros [] d m' Hren. rewrite Hd in Hren. injection Hren as <-.
  apply Hwait. simpl. split.
  - intros q Hq1 Hq2. rewrite lookup_insert_ne, lookup_delete_ne by done. by apply Ht.
  - destruct (fs !! F) as [x|] eqn:HF0.
    + destruct He as [(k & msg & _ & ->)|[-> HeF]]; [done|congruence].
    + right. split; [done|]. exists data. rewrite lookup_insert_eq. done.
Qed.

(** ** The parts of a multipart upload *)

Lemma part_bytes_full data size n :
  Z.of_nat (length data) = size → (1 ≤ n)%Z →
  part_bytes data size n = take (Z.to_nat uploadPartSize) (drop (Z.to_nat (part_start n)) data).
Proof.
  intros Hlen Hn. unfold part_bytes, part_size. set (s := part_start n). set (d := drop (Z.to_nat s) data).
  assert (0 ≤ s)%Z by (unfold s, part_start, uploadPartSize; lia). assert (0 < uploadPartSize)%Z by done.
  assert (length d = length data - Z.to_nat s) as Hd by apply length_drop.
  destruct (Z.le_gt_cases uploadPartSize (size - s)) as [Hle|Hgt]; [by rewrite Z.min_l by lia|].
  rewrite Z.min_r by lia. rewrite !take_ge; [done|lia|lia].
Qed.

(** The parts of a file, one after the other, are the file. *)
Lemma parts_cover data size :
  Z.of_nat (length data) = size → concat (part_bytes data size <$> seqZ 1 (part_count size)) = data.
Proof.
  intros Hlen. assert (0 < uploadPartSize)%Z as HP by done.
  assert (∀ k : nat, concat (part_bytes data size <$> seqZ 1 (Z.of_nat k)) = take (k * Z.to_nat uploadPartSize) data) as Hk.
  { induction k as [|k IH]; [by rewrite take_0|]. rewrite seqZ_S, fmap_app, concat_app, IH by lia. cbn [concat fmap list_fmap].
    rewrite app_nil_r, part_bytes_full by lia. unfold part_start. clear IH. revert HP. generalize uploadPartSize as P. intros P HP.
    replace (Z.to_nat ((1 + Z.of_nat k - 1) * P)) with (k * Z.to_nat P) by nia.
    rewrite take_next. f_equal. lia. }
  assert (0 ≤ part_count size)%Z by (unfold part_count; apply Z.quot_pos; lia).
  rewrite <-(Z2Nat.id (part_count size)), Hk by done. apply take_ge.
  assert (size ≤ part_count size * uploadPartSize)%Z as Hle; [|revert HP Hle; generalize uploadPartSize as P; nia]. unfold part_count.
  rewrite Z.quot_div_nonneg by lia. pose proof (Z.div_mod (size + uploadPartSize - 1) uploadPartSize ltac:(lia)).
  pose proof (Z.mod_pos_bound (size + uploadPartSize - 1) uploadPartSize ltac:(lia)). lia.
Qed.

#[local] Instance number_total : Total (λ x y : Z * string, Z.leb x.1 y.1 = true).
Proof. intros x y. rewrite !Z.leb_le. lia. Qed.
#[local] Instance number_trans : Transitive (λ x y : Z * string, Z.leb x.1 y.1 = true).
Proof. intros x y z. rewrite !Z.leb_le. lia. Qed.

Lemma elem_of_ordered parts n tag : (n, tag) ∈ ordered_parts parts ↔ parts !! n = Some tag.
Proof. unfold ordered_parts. by rewrite merge_sort_Permutation, elem_of_map_to_list. Qed.

Lemma ordered_sorted parts : StronglySorted (λ p q : Z * string, (p.1 ≤ q.1)%Z) (ordered_parts parts).
Proof.
  assert (StronglySorted (λ x y : Z * string, Z.leb x.1 y.1 = true) (ordered_parts parts)) as Hs by (apply StronglySorted_merge_sort; apply _).
  induction Hs as [|y l Hs IH Hf]; constructor; [done|]. eapply Forall_impl; [exact Hf|]. intros z. apply Z.leb_le.
Qed.

Section Parts.
Context (mp : multipart) (data : list ascii) (size : Z) (onPart : Z → string → Z → M Pipe unit).
Hypothesis HonPart : ∀ n t z, keeps anything (onPart n t z).

Definition uploaded (s s' : Pipe) (n : Z) (tag : string) : Prop :=
  during s s' (AOssPart mp n (part_bytes data size n) (Ok tag)).

Lemma upload_part_spec parts n w :
  wp (upload_part mp data size onPart parts n) w (λ r w', anything (w_db w) (w_db w') ∧ ∀ parts', r = Ok parts' →
    is_Some (parts' !! n) ∧ (∀ m, is_Some (parts !! m) → is_Some (parts' !! m)) ∧
    ∀ m tag, parts' !! m = Some tag → parts !! m = Some tag ∨ m = n ∧ uploaded (w_db w) (w_db w') m tag).
Proof.
  unfold upload_part. apply wp_bind, wp_ctx_live; intros k; [by split|]. destruct (parts !! n) as [tag|] eqn:Hn.
  { apply wp_ret. split; [done|]. intros ? [= <-]. split; [by rewrite Hn|]. split; [done|]. auto. }
  apply wp_bind, wp_wrap, wp_call. intros k'. simpl. destruct (rm_oss_part _ _ _ _) as [tag|e] eqn:He; simpl.
  2:{ split; [|done]. split; [|done]. eexists. split; [done|]. by repeat constructor. }
  set (w1 := mkWorld k' _). assert (during (w_db w) (w_db w1) (AOssPart mp n (part_bytes data size n) (Ok tag))) as Hd.
  { eexists. simpl. split; [done|]. by left. }
  assert (anything (w_db w) (w_db w1)) as Hq1 by (split; [|done]; eexists; split; [done|]; by repeat constructor).
  apply wp_bind. eapply wp_mono; [apply HonPart|]. intros [[]|e'] w2 Hq2; [|split; [by etrans|done]].
  apply wp_ret. split; [by etrans|]. intros ? [= <-]. split; [by rewrite lookup_insert_eq|]. split.
  - intros m Hm. destruct (decide (m = n)) as [->|]; [by rewrite lookup_insert_eq|by rewrite lookup_insert_ne].
  - intros m t Hm. destruct (decide (m = n)) as [->|Hne].
    + rewrite lookup_insert_eq in Hm. injection Hm as <-. right. split; [done|]. by eapply during_l; [|apply Hq2].
    + rewrite lookup_insert_ne in Hm by done. by left.
Qed.

Lemma upload_loop l parts w :
  wp (m_fold (upload_part mp data size onPart) l parts) w (λ r w', anything (w_db w) (w_db w') ∧ ∀ parts', r = Ok parts' →
    (∀ n, n ∈ l → is_Some (parts' !! n)) ∧ (∀ m, is_Some (parts !! m) → is_Some (parts' !! m)) ∧
    ∀ m tag, parts' !! m = Some tag → parts !! m = Some tag ∨ m ∈ l ∧ uploaded (w_db w) (w_db w') m tag).
Proof.
  revert parts w. induction l as [|n l IH]; intros parts w; simpl.
  { apply wp_ret. split; [done|]. intros ? [= <-]. split; [by intros n ?%not_elem_of_nil|]. auto. }
  apply wp_bind. eapply wp_mono; [apply upload_part_spec|]. intros [parts1|e] w1 [Hq1 Hp1]; [|by split].
  destruct (Hp1 _ eq_refl) as (Hin & Hmono & Hfrom). eapply wp_mono; [apply IH|]. intros r w2 [Hq2 Hp2]. split; [by etrans|].
  intros parts' ->. destruct (Hp2 _ eq_refl) as (Hin2 & Hmono2 & Hfrom2). split; [|split].
  - intros m [->|Hm]%elem_of_cons; auto.
  - auto.
  - intros m tag Hm. destruct (Hfrom2 m tag Hm) as [Hm1|[Hml Hu]].
    + destruct (Hfrom m tag Hm1) as [?|[-> Hu]]; [by left|right]. split; [by left|]. eapply during_l; [exact Hu|apply Hq2].
    + right. split; [by right|]. eapply during_r; [apply Hq1|exact Hu].
Qed.

End Parts.

(** A multipart upload is the file: when it is reported done, the object store was told
    to assemble, in order of their numbers, parts that include every part of the file, each
    either already listed by the store or sent with exactly the bytes of the file at its
    place; and the parts of a file of the announced size, put together, are the file. *)
Theorem multipart_exact a parent source init mp onPart w x w' :
  (∀ n t z, keeps anything (onPart n t z)) → (∀ n t z, keeps same_files (onPart n t z)) →
  upload_session a parent source init mp onPart w = (Ok x, w') →
  ∃ data listed ordered cb var,
    pi_files (w_db w) !! us_Path source = Some (NFile data) ∧
    during (w_db w) (w_db w') (AOssParts mp (Ok listed)) ∧
    during (w_db w) (w_db w') (AOssComplete mp ordered cb var (Ok tt)) ∧
    StronglySorted (λ p q, (p.1 ≤ q.1)%Z) ordered ∧ NoDup ordered.*1 ∧
    (∀ n, (1 ≤ n ≤ part_count (us_Size source))%Z → ∃ tag, (n, tag) ∈ ordered) ∧
    (∀ n tag, (n, tag) ∈ ordered → (∃ z, mkUploaded n tag z ∈ listed) ∨
       (1 ≤ n ≤ part_count (us_Size source))%Z ∧
       during (w_db w) (w_db w') (AOssPart mp n (part_bytes data (us_Size source) n) (Ok tag))) ∧
    (Z.of_nat (length data) = us_Size source → concat (part_bytes data (us_Size source) <$> seqZ 1 (part_count (us_Size source))) = data).
Proof.
  intros HonPart Hsame Hrun. revert x w' Hrun. cut (wp (upload_session a parent source init mp onPart) w (λ r w', ∀ x, r = Ok x →
    ∃ data listed ordered cb var,
    pi_files (w_db w) !! us_Path source = Some (NFile data) ∧
    during (w_db w) (w_db w') (AOssParts mp (Ok listed)) ∧
    during (w_db w) (w_db w') (AOssComplete mp ordered cb var (Ok tt)) ∧
    StronglySorted (λ p q, (p.1 ≤ q.1)%Z) ordered ∧ NoDup ordered.*1 ∧
    (∀ n, (1 ≤ n ≤ part_count (us_Size source))%Z → ∃ tag, (n, tag) ∈ ordered) ∧
    (∀ n tag, (n, tag) ∈ ordered → (∃ z, mkUploaded n tag z ∈ listed) ∨
       (1 ≤ n ≤ part_count (us_Size source))%Z ∧
       during (w_db w) (w_db w') (AOssPart mp n (part_bytes data (us_Size source) n) (Ok tag))) ∧
    (Z.of_nat (length data) = us_Size source → concat (part_bytes data (us_Size source) <$> seqZ 1 (part_count (us_Size source))) = data))).
  { intros Hw x w' Hrun. exact (wp_elim _ _ _ _ _ Hw Hrun x eq_refl). }
  unfold upload_session. apply wp_bind, wp_wrap, wp_call. intros n1. simpl.
  destruct (rm_oss_parts _ _) as [listed|e] eqn:Hl; simpl; [|done]. set (w1 := mkWorld n1 _).
  assert (during (w_db w) (w_db w1) (AOssParts mp (Ok listed))) as Hd1 by (eexists; simpl; split; [done|by left]).
  assert (anything (w_db w) (w_db w1)) as Hq1 by (split; [|done]; eexists; split; [done|]; by repeat constructor).
  assert (pi_files (w_db w1) = pi_files (w_db w)) as Hf1 by done. clearbody w1. apply wp_bind.
  eapply wp_mono; [apply wp_and with (P := λ _ v, anything (w_db w1) (w_db v)) (Q := λ _ v, same_files (w_db w1) (w_db v))|].
  { refine (keeps_each anything _ _ _ w1). intros. apply keeps_try; [apply _|apply HonPart]. }
  { refine (keeps_each same_files _ _ _ w1). intros. unfold try_. apply keeps_bind; [apply _| |intros; apply keeps_ret, _].
    apply keeps_attempt, Hsame. }
  intros [[]|e] w2 [Hq2 Hf2]; [|done]. unfold same_files in Hf2. apply wp_bind.
  eapply wp_mono.
  { apply wp_and with (Q := λ r _, match r with Ok d => pi_files (w_db w2) !! us_Path source = Some (NFile d) | Err _ => True end);
      [apply (keeps_on_files (λ _, True) any_db (read_file (us_Path source)))|].
    apply wp_on_files. unfold read_file. apply wp_query; [done|]. intros d n Hd. simpl in Hd.
    destruct (pi_files (w_db w2) !! us_Path source) as [[]|]; simplify_eq. done. }
  intros [data|e] w3 [Hq3 Hdata]; [|done]. rewrite Hf2, Hf1 in Hdata. apply wp_bind. eapply wp_mono; [by apply upload_loop|].
  intros [parts|e] w4 [Hq4 Hp]; [|done]. destruct (Hp _ eq_refl) as (Hin & _ & Hfrom). clear Hp.
  destruct (callbackValues init) as [cb var]. apply wp_bind, wp_wrap, wp_call. intros n5. simpl.
  destruct (rm_oss_complete _ _ _ _ _) as [[]|e] eqn:Hc; simpl; [|done]. set (w5 := mkWorld n5 _).
  assert (during (w_db w4) (w_db w5) (AOssComplete mp (ordered_parts parts) cb var (Ok tt))) as Hd5 by (eexists; simpl; split; [done|by left]).
  clearbody w5. eapply wp_mono; [apply finished_spec|]. intros r w6 [Hg6 _] x _.
  assert (anything (w_db w1) (w_db w3)) as Hq13 by (by transitivity (w_db w2)).
  assert (anything (w_db w) (w_db w3)) as Hq03 by (by transitivity (w_db w1)).
  assert (anything (w_db w) (w_db w4)) as Hq04 by (by transitivity (w_db w3)).
  exists data, listed, (ordered_parts parts), cb, var. split; [done|].
  assert (∀ b, during (w_db w) (w_db w5) b → during (w_db w) (w_db w6) b) as Hlast by (intros b Hb; by eapply during_l).
  assert (anything (w_db w4) (w_db w5)) as Hq45.
  { destruct Hd5 as (l & Hl5 & _). split; [|done]. exists l. split; [done|]. by apply Forall_true. }
  split; [apply Hlast; eapply during_l; [exact Hd1|]; destruct Hq45 as [? _], Hq4 as [? _], Hq13 as [? _]; by do 2 (etrans; [done|])|].
  split; [apply Hlast; eapply during_r; [apply Hq04|done]|]. split_and!.
  - apply ordered_sorted.
  - unfold ordered_parts. rewrite merge_sort_Permutation. apply NoDup_fst_map_to_list.
  - intros n Hn. destruct (Hin n) as [tag Ht]; [apply elem_of_seqZ; lia|]. exists tag. by apply elem_of_ordered.
  - intros n tag Hn%elem_of_ordered. destruct (Hfrom n tag Hn) as [Hl0|[Hn' Hu]].
    + left. apply elem_of_list_to_map_2, elem_of_reverse, list_elem_of_fmap in Hl0 as ([pn pt pz] & [= -> ->] & Hp). by exists pz.
    + right. apply elem_of_seqZ in Hn'. split; [lia|]. apply Hlast. eapply during_l; [|apply Hq45]. eapply during_r; [apply Hq03|exact Hu].
  - intros Hlen. by apply parts_cover.
Qed.

End Looking.

(** ** A sample *)

#[local] Existing Instance quiet.
#[local] Existing Instance calm.
#[local] Existing Instance empty_digest.

(** Ticks are nanoseconds: a sleep skips as many. *)
#[local] Instance exact_sleep : Sleep := {| wake n d := n + Z.to_nat d |}.
#[local] Instance no_urls : Urls := {| url_parse _ := None; url_parse_request _ := None |}.
#[local] Instance no_sha : Sha256 := {| sha256_hex s := s |}.
#[local] Instance no_credential : Credential := {| json_access_token _ := None |}.

Definition sample_digest : string := stringsUpperHex (sha1 []).
Definition sample_object : DriveFile := mkFile "9" "7" "a.mkv" 3 "" sample_digest "" false 0.
Definition sample_source : UploadSource := mkSource "/spool/k.part" "a.mkv" 3 sample_digest sample_digest "" "" "".

(** The directory of 115 is empty at first, and holds the object afterwards. *)
#[local] Instance sample_115 : Remote :=
  let r := static_remote (λ _, []) (λ _, []) in {|
  rm_list h _ _ _ _ _ := if bool_decide (h = []) then Ok ([], 0%Z) else Ok ([sample_object], 1%Z);
  rm_mkdir := @rm_mkdir r; rm_share_token := @rm_share_token r; rm_share_page := @rm_share_page r;
  rm_share_save := @rm_share_save r; rm_save_task := @rm_save_task r; rm_nas := @rm_nas r;
  rm_libraries := @rm_libraries r; rm_item := @rm_item r; rm_missing := @rm_missing r; rm_sync := @rm_sync r;
  rm_scan := @rm_scan r; rm_mounts := @rm_mounts r; rm_init := @rm_init r; rm_oss_token := @rm_oss_token r;
  rm_oss_client := @rm_oss_client r; rm_oss_bucket := @rm_oss_bucket r; rm_oss_start := @rm_oss_start r;
  rm_oss_parts _ _ := Ok []; rm_oss_part _ _ _ _ := Ok "etag"; rm_oss_complete _ _ _ _ _ := Ok tt;
  rm_oss_abort := @rm_oss_abort r |}.

Definition sample_spool : Files := {[ "/spool/k.part" := NFile (chars "abc"); "/mnt/emby" := NDir true ]}.
Definition sample_world : World Pipe := mkWorld 0 (mkPipe sample_db sample_spool []).

Lemma wait_terminates_witness :
  (waitForVerifiedDestination ("acc", sample_row) "7" sample_source true 0 sample_world).1 ≠ Ok None.
Proof.
  apply wait_terminates. split.
  - intros n m Hnm. simpl. lia.
  - intros n d. simpl. lia.
Defined.

Lemma mounted_upload_safe_witness :
  (uploadViaCloudDriveDirectory "src" sample_source ("acc", sample_row) "7" "/mnt/emby" sample_world).1
    = Ok (mkUploadResult "9" false 3) ∧
  mounted_post "/spool/k.part" (join_path ["/mnt/emby"; staging_name "src"]) "/mnt/emby/a.mkv" 3 sample_digest
    sample_spool (pi_files (w_db (uploadViaCloudDriveDirectory "src" sample_source ("acc", sample_row) "7" "/mnt/emby" sample_world).2)).
Proof.
  split; [by vm_compute|].
  apply (mounted_upload_safe "src" sample_source ("acc", sample_row) "7" "/mnt/emby" sample_world _
    (uploadViaCloudDriveDirectory "src" sample_source ("acc", sample_row) "7" "/mnt/emby" sample_world).1); [|apply surjective_pairing].
  apply (bool_decide_eq_true_1 _). by vm_compute.
Defined.

Definition no_part (n : Z) (tag : string) (z : Z) : M Pipe unit := mret tt.
Definition sample_init : upload_init := mkInit 1 "" "" "bucket" "object" None [].

Lemma multipart_exact_witness :
  ∃ w', upload_session ("acc", sample_row) "7" sample_source sample_init (mkMultipart "bucket" "object" "u") no_part sample_world
      = (Ok (mkUploadResult "9" false 3), w') ∧
    ∃ data ordered cb var, pi_files (w_db sample_world) !! "/spool/k.part" = Some (NFile data) ∧
      during (w_db sample_world) (w_db w') (AOssComplete (mkMultipart "bucket" "object" "u") ordered cb var (Ok tt)).
Proof.
  eexists. split; [by vm_compute|].
  destruct (multipart_exact ("acc", sample_row) "7" sample_source sample_init (mkMultipart "bucket" "object" "u") no_part sample_world
    (mkUploadResult "9" false 3)
    (upload_session ("acc", sample_row) "7" sample_source sample_init (mkMultipart "bucket" "object" "u") no_part sample_world).2)
    as (data & listed & ordered & cb & var & Hdata & _ & Hc & _).
  - intros. apply keeps_ret, _.
  - intros. apply keeps_ret, _.
  - by vm_compute.
  - exists data, ordered, cb, var. split; [done|]. exact Hc.
Defined.
