(* ===== verification/Nas.v ===== *)
(** The NAS transfer worker as the server uses it: the client of the worker process
    ([src/internal/service/nas_worker.go]), the check of its destination and the
    transfer of one item ([nas_cross_drive.go]).

    What the process answers is [nas_output] of [Remote.v]: the lines of its standard
    output once decoded (a line that is not one JSON object is an error with the text of
    the code), the error of the scanner, the exit status and the writes to standard
    error.  Killing the process on an early return is not modelled.  Percentages are
    rationals. *)
From S2P Require Import Prelude GoStrings GoPath Sql Schema TaskStore ImportStore Accounts Protocol FileSys Checkpoint.
From S2P Require Import Download Payload Worker Remote Drive Destination.
From Stdlib Require Import Ascii.

(** ** The client *)

(** [limitedBuffer.Write]: what is kept of the writes to standard error. *)
Definition stderr_limit : nat := 64 * 1024.
Definition buffer_write (data value : list ascii) : list ascii :=
  data ++ take (Nat.min (length value) (stderr_limit - length data)) value.
Definition stderr_text (writes : list (list ascii)) : string := of_chars (foldl buffer_write [] writes).

Definition with_operation (operation : string) (r : Request) : Request := {|
  Version := ProtocolVersion; Operation := operation; JobID := JobID r; AccountID := AccountID r;
  SourceFileID := SourceFileID r; SourceRevision := SourceRevision r; Name := Name r; Size := Size r;
  ExpectedSHA1 := ExpectedSHA1 r; QuarkCookie := QuarkCookie r; Destination := Destination r; Replace := Replace r;
  Connections := Connections r; RequiredFreeBytes := RequiredFreeBytes r |}.

Definition check_request (jobID destination : string) (required : Z) : Request := {|
  Version := ProtocolVersion; Operation := OperationCheck; JobID := jobID; AccountID := ""; SourceFileID := "";
  SourceRevision := ""; Name := ""; Size := 0; ExpectedSHA1 := ""; QuarkCookie := ""; Destination := destination;
  Replace := false; Connections := 0; RequiredFreeBytes := required |}.
Definition commit_request (jobID accountID sourceFileID : string) : Request := {|
  Version := ProtocolVersion; Operation := OperationCommit; JobID := jobID; AccountID := accountID;
  SourceFileID := sourceFileID; SourceRevision := ""; Name := ""; Size := 0; ExpectedSHA1 := ""; QuarkCookie := "";
  Destination := ""; Replace := false; Connections := 0; RequiredFreeBytes := 0 |}.

(** The variables of the loop over the lines: the completion event and the worker's error. *)
Record nas_loop := mkLoop { nl_completed : option Event; nl_error : string }.

Section Nas.
Context `{Env} `{Ctx} `{Sleep} `{Remote} `{Urls} `{Sha256} `{Hash} `{Credential}.
Abbreviation Pi := (M Pipe).

Definition nas_line (progress : option (Event → Pi unit)) (st : nas_loop) (line : res Event) : Pi nas_loop :=
  event ← lift line;
  if negb (Z.eqb (ev_Version event) ProtocolVersion) then
    throw (ErrText ("NAS worker returned protocol version " +:+ pretty (ev_Version event)))
  else if bool_decide (ev_Type event = "progress") then
    match progress with Some f => _ ← f event; mret st | None => mret st end
  else if bool_decide (ev_Type event = "completed") then
    match nl_completed st with
    | Some _ => throw (ErrText "NAS worker returned multiple completion events")
    | None => mret (mkLoop (Some event) (nl_error st))
    end
  else if bool_decide (ev_Type event = "error") then mret (mkLoop (nl_completed st) (trim_space (ev_Error event)))
  else throw (ErrText ("NAS worker returned unknown event type " +:+ ev_Type event)).

(** What the end of the process means. *)
Definition nas_verdict (out : nas_output) (st : nas_loop) : res Event :=
  match no_scan out with
  | Some e => Err (ErrWrap "read NAS worker output: " e)
  | None =>
      if negb (bool_decide (nl_error st = "")) then Err (ErrText ("NAS worker: " +:+ nl_error st))
      else match no_wait out with
      | Some e =>
          let message := trim_space (stderr_text (no_stderr out)) in
          if bool_decide (message = "") then Err (ErrWrap "NAS worker exited: " e)
          else Err (ErrText ("NAS worker exited: " +:+ error_text e +:+ ": " +:+ message))
      | None => match nl_completed st with
                | Some event => Ok event
                | None => Err (ErrText "NAS worker exited without a completion event")
                end
      end
  end.

(** [NASWorkerClient.run]. *)
Definition nas_run (request : Request) (progress : option (Event → Pi unit)) : Pi Event :=
  _ ← lift (Validate request);
  out ← wrap "start NAS transfer worker: " (call (λ h, rm_nas h request) (ANas request));
  st ← m_fold (nas_line progress) (no_lines out) (mkLoop None "");
  _ ← ctx_live;
  lift (nas_verdict out st).

Definition nas_Check (jobID destination : string) (required : Z) : Pi unit :=
  _ ← nas_run (check_request jobID destination required) None; mret tt.
Definition nas_Download (request : Request) (progress : Event → Pi unit) : Pi Event :=
  nas_run (with_operation OperationDownload request) (Some progress).
Definition nas_Publish (request : Request) (progress : Event → Pi unit) : Pi Event :=
  nas_run (with_operation OperationPublish request) (Some progress).
Definition nas_Commit (jobID accountID sourceFileID : string) : Pi unit :=
  _ ← nas_run (commit_request jobID accountID sourceFileID) None; mret tt.

(** ** The destination of an import *)

Definition nasDestination (state : CrossDriveImport.t) : string :=
  if negb (bool_decide (CrossDriveImport.AutofillSeriesID state = "")) then
    trim_space (CrossDriveImport.AutofillLibraryName state) +:+ "/" +:+ trim_space (CrossDriveImport.AutofillSeriesFolder state)
  else "_待整理".

Definition is_canary (parent : string) (f : DriveFile) : bool :=
  bool_decide (df_ParentID f = parent) && bool_decide (df_Name f = WorkerCanaryName) && negb (df_IsFolder f)
  && Z.eqb (df_Size f) 0 && equal_fold (df_Sha1 f) EmptySHA1.

(** [nas] says whether a worker is configured. *)
Definition checkNASDestination (nas : bool) (taskID : string) (state : CrossDriveImport.t) : Pi unit :=
  if negb nas then mret tt else
  a ← getAccountForProvider "115" (CrossDriveImport.C115AccountID state);
  canaryParent ← wrap "resolve NAS worker canary parent: " (resolveImportDestination a.1);
  files ← wrap "read NAS worker canary: " (listAllProviderFiles "115" a.1 canaryParent);
  if negb (bool_decide (length (filter (λ f, is_canary canaryParent f = true) files) = 1)) then
    throw (ErrText "NAS worker canary does not identify the configured 115 account")
  else wrap "validate NAS transfer worker before Quark save: " (nas_Check (taskID +:+ ":preflight") (nasDestination state) 0).

(** ** One item *)

Definition quarkDownloadDefaultConnections : Z := 4.

Definition quarkDownloadConnections : Pi Z :=
  configured ← attempt (on_db (GetSetting "quark_download_connections"));
  match configured with
  | Err _ => mret quarkDownloadDefaultConnections
  | Ok text =>
      match parse_int (trim_space text) with
      | Some n => if Z.ltb n 1 || Z.ltb 8 n then mret quarkDownloadDefaultConnections else mret n
      | None => mret quarkDownloadDefaultConnections
      end
  end.

(** The percentage of a download. *)
Definition download_progress (totalBytes verifiedBytes downloaded : Z) : Q :=
  qmin 59 (if Z.ltb 0 totalBytes then (20 + 39 * inject_Z (verifiedBytes + downloaded) / inject_Z totalBytes)%Q else 20%Q).

(** The import, its run and its counters, as the transfers of its items use them. *)
Record run_state := mkRun {
  rs_task : string; rs_owner : string; rs_import : CrossDriveImport.t; rs_total : Z; rs_verified : Z
}.
Abbreviation item := (Z * CrossDriveItem.t)%type.

(** The progress callback of the download. *)
Definition nas_downloading (r : run_state) (i : item) (event : Event) : Pi unit :=
  if negb (bool_decide (ev_Phase event = "downloading")) || negb (Z.eqb (ev_Size event) (CrossDriveItem.Size i.2))
     || Z.ltb (ev_DownloadedBytes event) 0 || Z.ltb (CrossDriveItem.Size i.2) (ev_DownloadedBytes event) then
    throw (ErrText "NAS worker returned invalid download progress")
  else
    _ ← on_db (UpdateCrossDriveItemDownload i.1 (rs_task r) (rs_owner r) "downloading" "" (ev_DownloadedBytes event));
    on_db (UpdateAsyncTaskProgress (rs_task r) (download_progress (rs_total r) (rs_verified r) (ev_DownloadedBytes event))).

Definition nas_uploading (size : Z) (sha : string) (event : Event) : Pi unit :=
  if negb (bool_decide (ev_Phase event = "uploading")) || negb (Z.eqb (ev_Size event) size)
     || negb (equal_fold (ev_SHA1 event) sha) then throw (ErrText "NAS worker returned invalid upload progress")
  else mret tt.

Definition nas_request (jobID : string) (q : account) (i : CrossDriveItem.t) (sha cookie destination : string)
    (replace : bool) (connections : Z) : Request := {|
  Version := 0; Operation := ""; JobID := jobID; AccountID := q.1; SourceFileID := CrossDriveItem.SourceFileID i;
  SourceRevision := CrossDriveItem.SourceRevision i; Name := CrossDriveItem.Name i; Size := CrossDriveItem.Size i;
  ExpectedSHA1 := sha; QuarkCookie := cookie; Destination := destination; Replace := replace;
  Connections := connections; RequiredFreeBytes := 0 |}.

(** The download and its checks: the digests of the item. *)
Definition nas_fetch (r : run_state) (i : item) (q : account) : Pi (string * string) :=
  let size := CrossDriveItem.Size i.2 in
  let jobID := rs_task r +:+ ":" +:+ CrossDriveItem.SourceFileID i.2 in
  connections ← quarkDownloadConnections;
  downloaded ← nas_Download (nas_request jobID q i.2 (CrossDriveItem.SHA1 i.2) (DriveAccount.Cookie q.2) "" false connections)
                 (nas_downloading r i);
  if negb (bool_decide (ev_Phase downloaded = "downloaded")) || negb (Z.eqb (ev_Size downloaded) size)
     || negb (Z.eqb (ev_DownloadedBytes downloaded) size) || negb (ValidSHA1 (ev_SHA1 downloaded))
     || negb (ValidSHA1 (ev_PreSHA1 downloaded)) then
    throw (ErrText "NAS worker returned an invalid completed download")
  else if negb (bool_decide (CrossDriveItem.SHA1 i.2 = "")) && negb (equal_fold (CrossDriveItem.SHA1 i.2) (ev_SHA1 downloaded)) then
    throw (ErrText ("NAS worker source SHA-1 changed for " +:+ CrossDriveItem.RelativePath i.2))
  else
    _ ← on_db (UpdateCrossDriveItemHashes i.1 (rs_task r) (rs_owner r) (ev_SHA1 downloaded) (ev_PreSHA1 downloaded));
    mret (ev_SHA1 downloaded, ev_PreSHA1 downloaded).

(** The publication, when the destination holds no object of the name. *)
Definition nas_place (r : run_state) (i : item) (q a : account) (parentCID sha : string) (source : UploadSource) : Pi UploadResult :=
  let size := CrossDriveItem.Size i.2 in
  let jobID := rs_task r +:+ ":" +:+ CrossDriveItem.SourceFileID i.2 in
  let dest := CrossDriveImport.DestinationCID (rs_import r) in
  let path := CrossDriveItem.RelativePath i.2 in
  _ ← on_db (UpdateCrossDriveImport (rs_task r) (rs_owner r) "uploading" dest path "");
  replace ← cloudDriveUploadPlaceholder a parentCID (CrossDriveItem.Name i.2);
  published ← nas_Publish (nas_request jobID q i.2 sha "" (nasDestination (rs_import r)) replace 0) (nas_uploading size sha);
  if negb (bool_decide (ev_Phase published = "published")) || negb (Z.eqb (ev_Size published) size)
     || negb (equal_fold (ev_SHA1 published) sha) then
    throw (ErrText "NAS worker returned an invalid publish result")
  else
    _ ← on_db (UpdateCrossDriveImport (rs_task r) (rs_owner r) "verifying" dest path "");
    result ← finished_wait (waitForVerifiedDestination a parentCID source false size);
    _ ← nas_Commit jobID q.1 (CrossDriveItem.SourceFileID i.2);
    mret result.

Definition transferQuarkItemViaNAS (r : run_state) (i : item) (q a : account) (parentCID : string) : Pi UploadResult :=
  let size := CrossDriveItem.Size i.2 in
  let jobID := rs_task r +:+ ":" +:+ CrossDriveItem.SourceFileID i.2 in
  '(sha, pre) ← nas_fetch r i q;
  let source := mkSource "" (CrossDriveItem.Name i.2) size sha pre "" "" "" in
  existing ← findDestinationFile a parentCID (us_Name source);
  match existing with
  | Some f =>
      match classifyDestination existing source parentCID with
      | destinationVerified =>
          _ ← nas_Commit jobID q.1 (CrossDriveItem.SourceFileID i.2); mret (mkUploadResult (df_FileID f) true 0)
      | destinationForeign => throw (name_conflict (us_Name source))
      | destinationUnsettled =>
          result ← finished_wait (waitForVerifiedDestination a parentCID source false size);
          _ ← nas_Commit jobID q.1 (CrossDriveItem.SourceFileID i.2); mret result
      end
  | None => nas_place r i q a parentCID sha source
  end.

End Nas.
