(* ===== verification/Regexp.v ===== *)
(** Go's [regexp] package as the sources use it: patterns with numbered capturing
    groups, matched leftmost-first on the runes of a string.

    A string is decoded as [unicode/utf8] does, an invalid byte being the rune U+FFFD.
    [run] is the backtracking reading of a pattern, whose first match is the one
    [regexp] returns; a repetition stops when an iteration consumes nothing. *)
From S2P Require Import Prelude GoStrings.
From Stdlib Require Import Ascii.

(** ** Runes *)

Record rune := mkRune { r_code : Z; r_bytes : list ascii }.

Definition code (a : ascii) : Z := Z.of_nat (nat_of_ascii a).
Definition between (lo hi z : Z) : bool := Z.leb lo z && Z.leb z hi.
Definition continuation (a : ascii) : bool := between 128 191 (code a).

Definition error_code : Z := 65533.

(** [utf8.DecodeRune] at the start of [a :: l]: the rune, whose bytes are its width. *)
Definition decode_rune (a : ascii) (l : list ascii) : rune :=
  let c := code a in
  let bad := mkRune error_code [a] in
  if Z.ltb c 128 then mkRune c [a]
  else if between 194 223 c then
    match l with
    | b :: _ => if continuation b then mkRune (Z.land c 31 * 64 + Z.land (code b) 63) [a; b] else bad
    | [] => bad
    end
  else if between 224 239 c then
    match l with
    | b :: d :: _ =>
        let lo := if Z.eqb c 224 then 160%Z else 128%Z in
        let hi := if Z.eqb c 237 then 159%Z else 191%Z in
        if between lo hi (code b) && continuation d then
          mkRune (Z.land c 15 * 4096 + Z.land (code b) 63 * 64 + Z.land (code d) 63) [a; b; d]
        else bad
    | _ => bad
    end
  else if between 240 244 c then
    match l with
    | b :: d :: e :: _ =>
        let lo := if Z.eqb c 240 then 144%Z else 128%Z in
        let hi := if Z.eqb c 244 then 143%Z else 191%Z in
        if between lo hi (code b) && continuation d && continuation e then
          mkRune (Z.land c 7 * 262144 + Z.land (code b) 63 * 4096 + Z.land (code d) 63 * 64 + Z.land (code e) 63) [a; b; d; e]
        else bad
    | _ => bad
    end
  else bad.

Fixpoint decode (fuel : nat) (l : list ascii) : list rune :=
  match fuel, l with
  | S fuel, a :: l' => let r := decode_rune a l' in r :: decode fuel (drop (length (r_bytes r)) l)
  | _, _ => []
  end.

Definition runes (s : string) : list rune := decode (length (chars s)) (chars s).
Definition of_runes (l : list rune) : string := of_chars (concat (r_bytes <$> l)).

(** ** Patterns *)

Inductive re :=
| Eps
| Chr (accepts : Z → bool)
| Cat (a b : re)
| Alt (a b : re)
| Star (a : re)
| Cap (n : nat) (a : re)
| Begin
| End_
| Boundary.

(** [x?] and [x+]. *)
Definition Opt (a : re) : re := Alt a Eps.
Definition Plus (a : re) : re := Cat a (Star a).
(** [x{1,n}]. *)
Fixpoint upto (n : nat) (a : re) : re := match n with O => Eps | S n => Opt (Cat a (upto n a)) end.
Definition Up1 (n : nat) (a : re) : re := Cat a (upto (n - 1) a).
Definition seq_re (l : list re) : re := foldr Cat Eps l.
Definition alt_re (l : list re) : re := match l with [] => Eps | a :: l => foldl Alt a l end.

Definition is_word (c : Z) : bool := between 48 57 c || between 65 90 c || between 97 122 c || Z.eqb c 95.
Definition digit_class : re := Chr (between 48 57).
(** [\s]. *)
Definition space_class : re := Chr (λ c, bool_decide (c ∈ [9; 10; 12; 13; 32]%Z)).
Definition any_of (s : string) : re := Chr (λ c, bool_decide (c ∈ (r_code <$> runes s))).
(** [[^[:alnum:]]] without case: the two runes that fold to a letter are excluded too. *)
Definition not_alnum : re :=
  Chr (λ c, negb (between 48 57 c || between 65 90 c || between 97 122 c || Z.eqb c 8490 || Z.eqb c 383)).
(** [.], which excludes the newline. *)
Definition any_char : re := Chr (λ c, negb (Z.eqb c 10)).

(** A literal; without case ([(?i)]), [k] also stands for U+212A and [s] for U+017F. *)
Definition lower_code (c : Z) : Z := if between 65 90 c then c + 32 else c.
Definition fold_code (c : Z) : Z :=
  if Z.eqb c 8490 then 107 else if Z.eqb c 383 then 115 else lower_code c.
Definition lit (s : string) : re := seq_re ((λ r, Chr (Z.eqb (r_code r))) <$> runes s).
Definition ilit (s : string) : re := seq_re ((λ r, Chr (λ c, Z.eqb (fold_code c) (fold_code (r_code r)))) <$> runes s).

(** ** Matching *)

(** The rune before the position, the runes after it, the position and the captures,
    newest first. *)
Abbreviation captures := (list (nat * (nat * nat))).
Record mstate := mkMatch { ms_prev : option Z; ms_rest : list rune; ms_pos : nat; ms_cap : captures }.

Definition advance (s : mstate) (r : rune) (rest : list rune) : mstate :=
  mkMatch (Some (r_code r)) rest (S (ms_pos s)) (ms_cap s).

Definition at_boundary (s : mstate) : bool :=
  let word o := match o with Some c => is_word c | None => false end in
  xorb (word (ms_prev s)) (word (r_code <$> head (ms_rest s))).

Fixpoint run (p : re) (k : mstate → option mstate) (s : mstate) : option mstate :=
  match p with
  | Eps => k s
  | Chr accepts =>
      match ms_rest s with
      | r :: rest => if accepts (r_code r) then k (advance s r rest) else None
      | [] => None
      end
  | Cat a b => run a (run b k) s
  | Alt a b => match run a k s with Some x => Some x | None => run b k s end
  | Star a =>
      (fix star (n : nat) (s : mstate) : option mstate :=
         match n with
         | O => k s
         | S n => match run a (λ s', if Nat.ltb (ms_pos s) (ms_pos s') then star n s' else None) s with
                  | Some x => Some x
                  | None => k s
                  end
         end) (S (length (ms_rest s))) s
  | Cap n a => run a (λ s', k (mkMatch (ms_prev s') (ms_rest s') (ms_pos s') ((n, (ms_pos s, ms_pos s')) :: ms_cap s'))) s
  | Begin => if Nat.eqb (ms_pos s) 0 then k s else None
  | End_ => match ms_rest s with [] => k s | _ => None end
  | Boundary => if at_boundary s then k s else None
  end.

(** The leftmost match from a position on: where it starts and the state after it. *)
Fixpoint search (fuel : nat) (p : re) (s : mstate) : option (nat * mstate) :=
  match run p Some (mkMatch (ms_prev s) (ms_rest s) (ms_pos s) []) with
  | Some s' => Some (ms_pos s, s')
  | None =>
      match fuel, ms_rest s with
      | S fuel, r :: rest => search fuel p (advance s r rest)
      | _, _ => None
      end
  end.

Definition start_state (l : list rune) : mstate := mkMatch None l 0 [].

(** A match: its start, its end, its captures. *)
Record found := mkMatched { m_start : nat; m_end : nat; m_groups : captures }.

(** The span of group [n]. *)
Definition m_group (m : found) (n : nat) : option (nat * nat) := (list_to_map (m_groups m) : gmap nat (nat * nat)) !! n.

Definition as_found (x : nat * mstate) : found := mkMatched x.1 (ms_pos x.2) (ms_cap x.2).

(** [FindStringSubmatchIndex]. *)
Definition find_re (p : re) (l : list rune) : option found := as_found <$> search (length l) p (start_state l).

(** [FindAll]: the next search starts where the match ended; the patterns of the
    sources match no empty text. *)
Fixpoint find_from (fuel : nat) (p : re) (s : mstate) : list found :=
  match fuel with
  | O => []
  | S fuel =>
      match search (length (ms_rest s)) p s with
      | Some x => if Nat.ltb (ms_pos s) (ms_pos x.2) then as_found x :: find_from fuel p x.2 else [as_found x]
      | None => []
      end
  end.
Definition find_all (p : re) (l : list rune) : list found := find_from (S (length l)) p (start_state l).

Definition slice (l : list rune) (a b : nat) : list rune := take (b - a) (drop a l).
Definition group_text (l : list rune) (m : found) (n : nat) : string :=
  match m_group m n with Some (a, b) => of_runes (slice l a b) | None => "" end.

(** [ReplaceAllString], for a replacement without [$]. *)
Definition replace_all (p : re) (replacement : list rune) (l : list rune) : list rune :=
  let '(out, last_) := foldl (λ '(out, from) m, (out ++ slice l from (m_start m) ++ replacement, m_end m)) ([], 0) (find_all p l) in
  out ++ drop last_ l.
