(* ===== verification/Episodes.v ===== *)
(** Episodes named in file names ([episodeKey], [episodeKeysFromName] and the labels of
    [src/internal/service/autofill.go]). *)
From S2P Require Import Prelude GoStrings Regexp.
From Stdlib Require Import Ascii.

Record episodeKey := mkKey { Season : Z; Episode : Z }.

#[global] Instance episode_key_eq_dec : EqDecision episodeKey.
Proof. solve_decision. Defined.
#[global] Instance episode_key_countable : Countable episodeKey.
Proof. refine (inj_countable' (λ k, (Season k, Episode k)) (λ p, mkKey p.1 p.2) _). by intros []. Defined.

(** [%02d] of a number that is not negative. *)
Definition two_digits (n : Z) : string :=
  if Z.ltb n 10 then "0" +:+ pretty n else pretty n.
Definition key_String (k : episodeKey) : string := "S" +:+ two_digits (Season k) +:+ "E" +:+ two_digits (Episode k).

Definition seasonEpisodePattern : re :=
  seq_re [ilit "S"; Cap 1 (Up1 2 digit_class); Star (any_of " ._-"); ilit "E"; Cap 2 (Up1 4 digit_class)].
Definition episodeOnlyPattern : re :=
  seq_re [Alt Begin not_alnum; ilit "E"; Opt (ilit "P"); Opt (any_of " ._-"); Cap 1 (Up1 4 digit_class); Alt not_alnum End_].
Definition chineseEpisodePattern : re :=
  seq_re [lit "第"; Star space_class; Cap 1 (Up1 4 digit_class); Star space_class; lit "集"].

(** [strconv.Atoi], the error ignored. *)
Definition atoi (s : string) : Z := default 0%Z (parse_int s).

(** The keys of the matches, each once, in order. *)
Definition add_key (keys : list episodeKey) (k : episodeKey) : list episodeKey :=
  if bool_decide (k ∈ keys) then keys else keys ++ [k].

Definition season_keys (l : list rune) : list episodeKey :=
  (λ m, mkKey (atoi (group_text l m 1)) (atoi (group_text l m 2))) <$> find_all seasonEpisodePattern l.

Definition plain_keys (l : list rune) : list episodeKey :=
  p ← [episodeOnlyPattern; chineseEpisodePattern]; (λ m, mkKey 1 (atoi (group_text l m 1))) <$> find_all p l.

Definition episodeKeysFromName (name : string) : list episodeKey :=
  let l := runes name in
  let keys := foldl add_key [] (season_keys l) in
  if bool_decide (0 < length keys) then keys else foldl add_key keys (plain_keys l).

Example keys_1 : episodeKeysFromName "Show.S02E10-s2.e11.S02E10.mkv" = [mkKey 2 10; mkKey 2 11].
Proof. by vm_compute. Qed.
Example keys_2 : episodeKeysFromName "第 3 集 EP04.E5 E6" = [mkKey 1 4; mkKey 1 6; mkKey 1 3].
Proof. vm_compute. reflexivity. Qed.
Example keys_3 : episodeKeysFromName "E1集E2" = [mkKey 1 1].
Proof. by vm_compute. Qed.
