(* ===== verification/Pipeline.v ===== *)
(** The import of a Quark share to 115 ([src/internal/service/cross_drive_import.go]):
    saving the share, discovering what was saved, moving every file, verifying it, over
    the stores of [ImportStore.v], the drives of [Drive.v] and the destination of
    [Destination.v] and [Nas.v].

    [Ranged] is what a download asks of the provider and how its connections are
    scheduled ([Download.v]), with the progress reports it makes.  What they write (the
    item and the task) is disjoint from what the download writes (the spool and the
    segments), so they are run before and after it; a report that fails meanwhile is a
    failed attempt of its segment, which is in the schedule.  A schedule that does not
    finish fails the item.  Go's order of map iteration is [Ranging].  The
    JSON of the setting [c115_cid_map] is decoded by [CidMap].  [nas] says whether a NAS
    worker is configured, [owner] is the new run owner, [uuid5] names the follow-up task.
    The library synchronisation and the Emby scan are requests of [Remote.v]. *)
From S2P Require Import Prelude GoStrings GoPath Sql Schema TaskStore ImportStore Accounts Protocol FileSys Checkpoint.
From S2P Require Import Download ImportCheckpoint Payload Queue Worker Remote Drive Destination Nas Episodes.
From Stdlib Require Import Ascii.

Class Ranged := {
  rg_open : string → string → nat → Z → Z → res body;   (* account, file, call, offset, length *)
  rg_schedule : string → list event;                    (* of the download of a file *)
  rg_present : string → Z;                              (* the bytes reported when it starts *)
  rg_reports : string → list Z;                         (* the bytes reported meanwhile *)
  rg_fetched : string → option Z                        (* and at its end, when anything was fetched *)
}.

Class Ranging := {
  range_over {A : Type} : list A → list A;
  range_perm {A : Type} (l : list A) : range_over l ≡ₚ l
}.

Class CidMap := { decode_cid_map : string → option (gmap string string) }.

(** ** The request *)

(** [text, _ := stringPayload(..)]. *)
Definition text_of (p : payload) (key : string) (required : bool) : string :=
  match stringPayload p key required with Ok s => s | Err _ => "" end.

Record import_request := mkRequest {
  rq_quarkAccount : string; rq_quarkTarget : string; rq_url : string; rq_password : string; rq_c115Account : string;
  rq_prior : string; rq_parent : string; rq_all : bool; rq_selections : list ShareSelection;
  rq_state : CrossDriveImport.t
}.

(** The checks on the payload, before anything is read or asked. *)
Definition parse_import (p : payload) : res import_request :=
  parentTaskID ← stringPayload p "parent_task_id" false;
  importAll ← booleanPayload p "import_all" false;
  selectedIDs ← optionalStringSlicePayload p "selected_source_ids";
  selections ← shareSelectionsPayload p "selected_source_manifest";
  _ ← fail_if (importAll && bool_decide (0 < length selections))
        (ErrText "import_all cannot be combined with selected_source_manifest");
  _ ← fail_if (importAll && bool_decide (0 < length selectedIDs))
        (ErrText "import_all cannot be combined with selected_source_ids");
  _ ← (if negb importAll then
         _ ← fail_if (bool_decide (length selections = 0))
               (ErrText "selected_source_manifest is required unless import_all:true is explicit");
         _ ← fail_if (negb (bool_decide (length selectedIDs = length selections)))
               (ErrText "selected_source_manifest does not match selected_source_ids");
         fail_if (negb (same_order selections selectedIDs))
           (ErrText "selected_source_manifest order does not match selected_source_ids")
       else Ok tt);
  expected ← optionalStringSlicePayload p "expected_episodes";
  let t := text_of p in
  Ok (mkRequest (t "quark_account_id" true) (t "quark_target_id" true) (t "share_url" true) (t "share_password" false)
    (t "c115_account_id" true) (t "prior_import_task_id" false) parentTaskID importAll selections
    (CrossDriveImport.mk (t "prior_import_task_id" false) "saving_share" (t "quark_account_id" true)
       (t "quark_target_id" true) (t "c115_account_id" true) selectedIDs (t "autofill_library_name" false)
       (t "autofill_library_id" false) (t "autofill_library_cid" false) (t "autofill_series_id" false)
       (t "autofill_tmdb_id" false) (t "autofill_series_folder" false) expected [] "" 0 0 0 0 "" false None ""
       time_zero time_zero)).

Definition set_destination (cid : string) (s : CrossDriveImport.t) : CrossDriveImport.t :=
  CrossDriveImport.set_progress (CrossDriveImport.Phase s) (CrossDriveImport.SavedRootIDs s) cid
    (CrossDriveImport.CurrentFile s) (CrossDriveImport.Error s) (CrossDriveImport.RunOwner s) (CrossDriveImport.UpdatedAt s) s.
Definition set_roots (roots : list string) (s : CrossDriveImport.t) : CrossDriveImport.t :=
  CrossDriveImport.set_progress (CrossDriveImport.Phase s) roots (CrossDriveImport.DestinationCID s)
    (CrossDriveImport.CurrentFile s) (CrossDriveImport.Error s) (CrossDriveImport.RunOwner s) (CrossDriveImport.UpdatedAt s) s.

Definition is_bound (s : CrossDriveImport.t) : bool := negb (bool_decide (CrossDriveImport.AutofillSeriesID s = "")).

(** [sameCrossDriveBinding]: the same fields as [crossDriveBindingEqual] of the store. *)
Definition sameCrossDriveBinding (a b : CrossDriveImport.t) : bool :=
  bool_decide (CrossDriveImport.QuarkAccountID a = CrossDriveImport.QuarkAccountID b)
  && bool_decide (CrossDriveImport.QuarkTargetID a = CrossDriveImport.QuarkTargetID b)
  && bool_decide (CrossDriveImport.C115AccountID a = CrossDriveImport.C115AccountID b)
  && bool_decide (CrossDriveImport.AutofillLibraryName a = CrossDriveImport.AutofillLibraryName b)
  && bool_decide (CrossDriveImport.AutofillLibraryID a = CrossDriveImport.AutofillLibraryID b)
  && bool_decide (CrossDriveImport.AutofillLibraryCID a = CrossDriveImport.AutofillLibraryCID b)
  && bool_decide (CrossDriveImport.AutofillSeriesID a = CrossDriveImport.AutofillSeriesID b)
  && bool_decide (CrossDriveImport.AutofillTMDBID a = CrossDriveImport.AutofillTMDBID b)
  && bool_decide (CrossDriveImport.AutofillSeriesFolder a = CrossDriveImport.AutofillSeriesFolder b)
  && bool_decide (join nul_string (CrossDriveImport.SelectedSourceIDs a) = join nul_string (CrossDriveImport.SelectedSourceIDs b))
  && bool_decide (join nul_string (CrossDriveImport.ExpectedEpisodes a) = join nul_string (CrossDriveImport.ExpectedEpisodes b)).

(** [loadAutoFillCIDMap] ([autofill.go]). *)
Definition loadAutoFillCIDMap `{CidMap} (setting : string) (libraries : list string) : res (gmap string string) :=
  match decode_cid_map setting with
  | None => Err (ErrText "c115_cid_map must be configured as a JSON object")
  | Some cids =>
      _ ← res_each (λ library, fail_if (bool_decide (trim_space (default "" (cids !! library)) = ""))
            (ErrText ("c115_cid_map is missing " +:+ library))) libraries;
      Ok cids
  end.

(** ** Discovery, the pure part *)

(** The files found so far: the IDs visited and the items, by key. *)
Record discovery := mkDiscovery { di_visited : list string; di_items : gmap string found_item }.

Definition file_key (f : DriveFile) : string := df_Name f +:+ nul_string +:+ pretty (df_Size f).

Definition item_at (f : DriveFile) (relative : string) : found_item :=
  mkFound (df_FileID f) (df_Revision f) relative (df_Name f) (df_Size f) (df_Sha1 f).

(** The checks of [walk] on one object. *)
Definition visit_file (wanted : gmap string ShareSelection) (importAll : bool) (st : discovery) (f : DriveFile) (relative : string)
    : res discovery :=
  if bool_decide (df_FileID f ∈ di_visited st) then Err (ErrText ("Quark saved tree repeats object " +:+ df_FileID f))
  else
    let visited := di_visited st ++ [df_FileID f] in
    if Z.ltb quarkMaxEntries (Z.of_nat (length visited)) then
      Err (ErrText ("Quark saved share exceeds " +:+ pretty quarkMaxEntries +:+ " entries"))
    else if df_IsFolder f then Ok (mkDiscovery visited (di_items st))
    else if importAll then Ok (mkDiscovery visited (<[df_FileID f := item_at f relative]> (di_items st)))
    else
      let key := file_key f in
      match wanted !! key with
      | None => Err (ErrText ("selected source manifest contains an unexpected saved file " +:+ df_Name f))
      | Some _ =>
          match di_items st !! key with
          | Some _ => Err (ErrText ("selected source manifest contains duplicate saved file " +:+ df_Name f))
          | None => Ok (mkDiscovery visited (<[key := item_at f relative]> (di_items st)))
          end
      end.

Definition wanted_map (selections : list ShareSelection) : gmap string ShareSelection :=
  foldl (λ m s, <[name_key s := s]> m) ∅ selections.

(** ** Reading settings *)

(** [fmt.Sscan] into an [int64]: white space, a sign, a base prefix or a leading zero,
    digits and underscores; what follows them is not read. *)
Definition digit_value (a : ascii) : Z :=
  let c := Z.of_nat (nat_of_ascii a) in
  if Z.leb 48 c && Z.leb c 57 then (c - 48)%Z
  else if Z.leb 97 c && Z.leb c 102 then (c - 87)%Z
  else if Z.leb 65 c && Z.leb c 70 then (c - 55)%Z else 99%Z.
Definition underscore : ascii := byte 95.

Fixpoint take_digits (base : Z) (l : list ascii) : list ascii :=
  match l with
  | a :: l' => if bool_decide (a = underscore) || Z.ltb (digit_value a) base then a :: take_digits base l' else []
  | [] => []
  end.

(** [underscoreOK]: [digit] says whether the last character was a digit or the prefix. *)
Fixpoint underscores_ok (digit : bool) (l : list ascii) : bool :=
  match l with
  | [] => true
  | a :: l' => if bool_decide (a = underscore) then
                 digit && match l' with [] => false | b :: _ => negb (bool_decide (b = underscore)) end && underscores_ok false l'
               else underscores_ok true l'
  end.

Definition digits_value (base : Z) (prefixed : bool) (l : list ascii) : option Z :=
  if bool_decide (l = []) || negb (underscores_ok prefixed l) then None
  else Some (foldl (λ n a, if bool_decide (a = underscore) then n else (base * n + digit_value a)%Z) 0%Z l).

Definition scan_unsigned (l : list ascii) : option Z :=
  match l with
  | a :: rest =>
      if bool_decide (a = byte 48) then
        match rest with
        | x :: rest' =>
            if bool_decide (x = byte 98 ∨ x = byte 66) then digits_value 2 true (take_digits 2 rest')
            else if bool_decide (x = byte 111 ∨ x = byte 79) then digits_value 8 true (take_digits 8 rest')
            else if bool_decide (x = byte 120 ∨ x = byte 88) then digits_value 16 true (take_digits 16 rest')
            else digits_value 8 false (a :: take_digits 8 rest)
        | [] => Some 0%Z
        end
      else digits_value 10 false (take_digits 10 l)
  | [] => None
  end.

Definition sscan_int64 (s : string) : option Z :=
  match trim_left (chars s) with
  | a :: l => if bool_decide (a = byte 45) then z ← scan_unsigned l; in_int64 (- z)
              else if bool_decide (a = byte 43) then z ← scan_unsigned l; in_int64 z
              else z ← scan_unsigned (a :: l); in_int64 z
  | [] => None
  end.

Example scan_1 : sscan_int64 " 10GB" = Some 10%Z. Proof. by vm_compute. Qed.
Example scan_2 : sscan_int64 "1_0" = Some 10%Z. Proof. by vm_compute. Qed.
Example scan_3 : sscan_int64 "010" = Some 8%Z. Proof. by vm_compute. Qed.
Example scan_4 : sscan_int64 "-0x1f" = Some (-31)%Z. Proof. by vm_compute. Qed.
Example scan_5 : sscan_int64 "1__0" = None. Proof. by vm_compute. Qed.

Definition defaultTransferTempDir : string := "/srv/embymedia/data/transfers".
Definition defaultTransferMinFreeBytes : Z := 10 * 2 ^ 30.
Definition quarkDownloadSegmentSize : Z := 10 * 2 ^ 20.

(** The result map of a finished import. *)
Record import_result := mkImportResult {
  ir_cid : string; ir_path : string; ir_files : Z; ir_bytes : Z; ir_stage : string; ir_next : option string
}.

Section Pipeline.
Context `{Env} `{Ctx} `{Sleep} `{Remote} `{Urls} `{Sha256} `{Hash} `{Credential} `{Host} `{Ranged} `{Ranging} `{CidMap}.
Abbreviation Pi := (M Pipe).

(** ** Settings *)

Definition transferSettings : Pi (string * Z) :=
  directory ← on_db (GetSetting "transfer_temp_dir");
  let directory := if bool_decide (trim_space directory = "") then defaultTransferTempDir else directory in
  if negb (is_abs directory) then throw (ErrText "transfer_temp_dir must be absolute") else
  minimumText ← on_db (GetSetting "transfer_min_free_bytes");
  if bool_decide (trim_space minimumText = "") then mret (directory, defaultTransferMinFreeBytes)
  else match sscan_int64 minimumText with
       | Some minimum => if Z.ltb minimum 0 then throw (ErrText "transfer_min_free_bytes is invalid")
                         else mret (directory, minimum)
       | None => throw (ErrText "transfer_min_free_bytes is invalid")
       end.

Definition requireTransferSpace (directory : string) (required : Z) : Pi unit :=
  '(bavail, bsize) ← on_files (query (λ _, statfs directory));
  let free := wrap64 (wrap64 bavail * wrap64 bsize) in
  if Z.ltb free required then
    throw (ErrText ("transfer spool has " +:+ pretty free +:+ " free bytes; " +:+ pretty required +:+ " required"))
  else mret tt.

(** ** The autofill destination *)

Definition incomplete_binding (s : CrossDriveImport.t) : bool :=
  bool_decide (CrossDriveImport.AutofillLibraryName s = "") || bool_decide (CrossDriveImport.AutofillLibraryID s = "")
  || bool_decide (CrossDriveImport.AutofillLibraryCID s = "") || bool_decide (CrossDriveImport.AutofillSeriesID s = "")
  || bool_decide (CrossDriveImport.AutofillTMDBID s = "") || bool_decide (CrossDriveImport.AutofillSeriesFolder s = "").

(** The loop over the objects of the library directory. *)
Definition find_folder (cid name : string) (found : string) (f : DriveFile) : res string :=
  if bool_decide (df_ParentID f = cid) && bool_decide (df_Name f = name) && df_IsFolder f then
    if negb (bool_decide (found = "")) && negb (bool_decide (found = df_FileID f)) then
      Err (ErrText "115 autofill Series destination is ambiguous")
    else Ok (df_FileID f)
  else Ok found.

(** The checks on what Emby says. *)
Definition check_library (s : CrossDriveImport.t) (libraries : list EmbyLibrary) : res unit :=
  match find (λ l, bool_decide (lb_ID l = CrossDriveImport.AutofillLibraryID s)
                   && bool_decide (lb_Name l = CrossDriveImport.AutofillLibraryName s)) libraries with
  | Some l => fail_if (negb (bool_decide (lb_Collection l = "tvshows"))) (ErrText "autofill Emby library identity changed")
  | None => Err (ErrText "autofill Emby library identity changed")
  end.

Definition check_series (s : CrossDriveImport.t) (series : EmbyMediaItem) : res unit :=
  if negb (bool_decide (mi_Type series = "Series"))
     || negb (bool_decide (trim_space (default "" (mi_ProviderIDs series !! "Tmdb")) = CrossDriveImport.AutofillTMDBID s)) then
    Err (ErrText "autofill canonical Emby Series identity changed")
  else
    let path := clean (mi_Path series) in
    if negb (bool_decide (base path = CrossDriveImport.AutofillSeriesFolder s))
       || negb (bool_decide (base (dir path) = CrossDriveImport.AutofillLibraryName s)) then
      Err (ErrText "autofill canonical Series path changed")
    else Ok tt.

Definition resolveAutofillDestination (s : CrossDriveImport.t) : Pi string :=
  if incomplete_binding s then throw (ErrText "autofill destination binding is incomplete") else
  rawCIDMap ← on_db (GetSetting "c115_cid_map");
  cids ← lift (loadAutoFillCIDMap rawCIDMap [CrossDriveImport.AutofillLibraryName s]);
  let cid := CrossDriveImport.AutofillLibraryCID s in
  if negb (bool_decide (default "" (cids !! CrossDriveImport.AutofillLibraryName s) = cid)) then
    throw (ErrText "configured 115 library CID changed")
  else
  libraries ← call rm_libraries ALibraries;
  _ ← lift (check_library s libraries);
  series ← call (λ h, rm_item h (CrossDriveImport.AutofillSeriesID s)) (AItem (CrossDriveImport.AutofillSeriesID s));
  _ ← lift (check_series s series);
  files ← listAllProviderFiles "115" (CrossDriveImport.C115AccountID s) cid;
  found ← lift (res_fold (find_folder cid (CrossDriveImport.AutofillSeriesFolder s)) files "");
  if bool_decide (found = "") then
    throw (ErrText ("115 autofill Series folder " +:+ CrossDriveImport.AutofillSeriesFolder s
                    +:+ " was not found under library CID " +:+ cid))
  else mret found.

(** The labels of the expected episodes, in their normal form. *)
Definition expected_labels (s : CrossDriveImport.t) : list string :=
  label ← CrossDriveImport.ExpectedEpisodes s;
  match episodeKeysFromName label with
  | [] => [trim_space label]
  | keys => key_String <$> keys
  end.

Definition missing_label (e : EmbyMissingEpisode) : string := key_String (mkKey (me_SeasonNumber e) (me_EpisodeNumber e)).

Definition finalizeAutofillImport (accountID : string) (s : CrossDriveImport.t) : Pi unit :=
  configured ← on_db (GetSetting "clouddrive_c115_account_id");
  _ ← (if negb (bool_decide (trim_space configured = "")) then
         _ ← wrap "verify CloudDrive mount visibility: " (cloudDrive115Mount accountID); mret tt
       else mret tt);
  let library := CrossDriveImport.AutofillLibraryName s in
  _ ← wrap "sync STRM after Quark autofill: " (call (λ h, rm_sync h library) (ASync library));
  _ ← wrap "scan Emby after Quark autofill: " (call rm_scan AScan);
  _ ← wrap "canonical Series changed after Emby scan: " (resolveAutofillDestination s);
  if bool_decide (length (CrossDriveImport.ExpectedEpisodes s) = 0) then mret tt else
  t ← now;
  missing ← call (λ h, rm_missing h (CrossDriveImport.AutofillLibraryID s) t) (AMissing (CrossDriveImport.AutofillLibraryID s) t);
  match find (λ e, bool_decide (me_SeriesID e = CrossDriveImport.AutofillSeriesID s)
                   && bool_decide (missing_label e ∈ expected_labels s)) missing with
  | Some e => throw (ErrText ("Emby still reports expected episode " +:+ missing_label e +:+ " as missing"))
  | None => mret tt
  end.

(** ** Discovery *)

(** [walk] on one object; [levels] is how many directory levels are still allowed. *)
Fixpoint discover_walk (accountID : string) (wanted : gmap string ShareSelection) (importAll : bool) (levels : nat)
    (f : DriveFile) (relative : string) (st : discovery) : Pi discovery :=
  match levels with
  | O => throw (ErrText ("Quark saved share exceeds " +:+ pretty quarkMaxDepth +:+ " directory levels"))
  | S levels =>
      st ← lift (visit_file wanted importAll st f relative);
      if negb (df_IsFolder f) then mret st else
      children ← listAllProviderFiles "quark" accountID (df_FileID f);
      m_fold (λ st child, discover_walk accountID wanted importAll levels child (join_path [relative; df_Name child]) st)
        children st
  end.

Definition discoverQuarkImport (taskID owner accountID targetID : string) (rootIDs : list string)
    (selections : list ShareSelection) (importAll : bool) : Pi unit :=
  let wantedRoots : gset string := list_to_set rootIDs in
  let wanted := wanted_map selections in
  roots ← listAllProviderFiles "quark" accountID targetID;
  '(found, st) ← m_fold (λ '(found, st) root,
      if bool_decide (df_FileID root ∈ wantedRoots) then
        st ← discover_walk accountID wanted importAll tree_levels root (df_Name root) st; mret (S found, st)
      else mret (found, st)) roots (0, mkDiscovery [] ∅);
  if negb (bool_decide (found = size wantedRoots)) then
    throw (ErrText "Quark saved roots are not all visible in target directory")
  else
  _ ← (if negb importAll then
         if negb (bool_decide (size (di_items st) = size wanted)) then
           throw (ErrText "selected source manifest is missing saved files")
         else match find (λ kv, bool_decide (di_items st !! kv.1 = None)) (range_over (map_to_list wanted)) with
              | Some kv => throw (ErrText ("selected source manifest is missing saved file " +:+ sel_Name kv.2))
              | None => mret tt
              end
       else mret tt);
  m_each (λ kv, on_db (UpsertCrossDriveItem taskID owner kv.2)) (range_over (map_to_list (di_items st))).

(** ** Downloading one item *)

Abbreviation item := (Z * CrossDriveItem.t)%type.

(** [reportQuarkDownload]. *)
Definition reportQuarkDownload (r : run_state) (i : item) (spool : string) (downloaded : Z) : Pi unit :=
  _ ← on_db (UpdateCrossDriveItemDownload i.1 (rs_task r) (rs_owner r) "downloading" spool downloaded);
  on_db (UpdateAsyncTaskProgress (rs_task r) (download_progress (rs_total r) (rs_verified r) downloaded)).

(** [transfer.Download] with the checkpoint of the import, on the spool among the files. *)
Definition download_spool (r : run_state) (o : DownloadOptions) (openRange : nat → Z → Z → res body) (sched : list event)
    : Pi DownloadResult := λ w,
  let s := w_db w in
  let c := mkImportCheckpoint (mkWorld (w_tick w) (pi_db s)) (o_Path o) (rs_task r) (rs_owner r) in
  let '(x, w1) := Download openRange o sched (mkWorld (w_tick w) (mkTransfer (pi_files s !! o_Path o) c)) in
  let db := cc_db (t_checkpoint (w_db w1)) in
  let files := match t_spool (w_db w1) with Some n => <[o_Path o := n]> (pi_files s) | None => pi_files s end in
  (match x with Ok (Some d) => Ok d | Ok None => Err (ErrText "the download did not finish") | Err e => Err e end,
   mkWorld (Nat.max (w_tick w1) (w_tick db)) (mkPipe (w_db db) files (pi_log s))).

Definition downloadQuarkItem (r : run_state) (accountID : string) (i : item) : Pi (string * string * string) :=
  let row := i.2 in
  let source := CrossDriveItem.SourceFileID row in
  '(directory, minimum) ← transferSettings;
  _ ← on_files (mkdir_all directory);
  _ ← requireTransferSpace directory (wrap64 (CrossDriveItem.Size row + minimum));
  spool ← (if negb (bool_decide (nstr (CrossDriveItem.SpoolPath row) = "")) then mret (nstr (CrossDriveItem.SpoolPath row))
           else
             reusable ← on_db (FindReusableCrossDriveSpool source (CrossDriveItem.Size row));
             if negb (bool_decide (reusable = "")) then mret reusable
             else mret (join_path [directory; SourceKey accountID source +:+ ".part"]));
  connections ← quarkDownloadConnections;
  let o := mkOptions spool (CrossDriveItem.Name row) (CrossDriveItem.Size row) (CrossDriveItem.SHA1 row) quarkDownloadSegmentSize
             connections 4 (2 ^ 20) in
  _ ← wrap "Quark " (reportQuarkDownload r i spool (rg_present source));
  _ ← m_each (λ n, try_ (reportQuarkDownload r i spool n)) (rg_reports source);
  result ← wrap "Quark " (download_spool r o (rg_open accountID source) (rg_schedule source));
  _ ← (match rg_fetched source with Some n => wrap "Quark " (reportQuarkDownload r i spool n) | None => mret tt end);
  _ ← on_db (UpdateCrossDriveItemHashes i.1 (rs_task r) (rs_owner r) (r_SHA1 result) (r_PreSHA1 result));
  mret (r_Path result, r_SHA1 result, r_PreSHA1 result).

(** [reconcileVerifiedItem]. *)
Definition reconcileVerifiedItem (accountID : string) (i : CrossDriveItem.t) : Pi unit :=
  a ← getAccountForProvider "115" accountID;
  file ← findDestinationFile a (nstr (CrossDriveItem.DestinationParent i)) (CrossDriveItem.Name i);
  let changed := ErrText "provider state is ambiguous; destination checkpoint no longer matches" in
  match file with
  | Some f => if negb (bool_decide (df_FileID f = nstr (CrossDriveItem.DestinationID i)))
                 || negb (Z.eqb (df_Size f) (CrossDriveItem.Size i))
                 || negb (equal_fold (df_Sha1 f) (CrossDriveItem.SHA1 i)) then throw changed else mret tt
  | None => throw changed
  end.

(** ** One item of the import *)

(** How a run moves its items: what it knows besides [run_state]. *)
Record plan := mkPlan {
  pl_nas : bool; pl_bound : bool; pl_quark : string; pl_c115 : string; pl_cid : string;
  pl_directory : string   (* [boundCloudDriveDestination] *)
}.

Definition blank_token (a : account) : bool := bool_decide (trim_space (DriveAccount.Token a.2) = "").

(** [_ = s.db.MarkCrossDriveItemFailed(..); return err]. *)
Definition fail_item {A} (r : run_state) (i : item) (e : error) : Pi A :=
  _ ← try_ (on_db (MarkCrossDriveItemFailed i.1 (rs_task r) (rs_owner r) (error_text e))); throw e.

(** The upload of a downloaded item: through the mounted directory, or by the platform. *)
Definition upload_item (r : run_state) (p : plan) (i : item) (a : account) (parent directory spool sha pre : string)
    : Pi (option multipart * res UploadResult) :=
  let row := i.2 in
  let source := mkSource spool (CrossDriveItem.Name row) (CrossDriveItem.Size row) sha pre (nstr (CrossDriveItem.UploadID row))
                  (nstr (CrossDriveItem.UploadBucket row)) (nstr (CrossDriveItem.UploadObject row)) in
  if blank_token a then
    x ← attempt (uploadViaCloudDriveDirectory (CrossDriveItem.SourceFileID row) source a parent
                   (if pl_bound p then pl_directory p else directory));
    mret (None, x)
  else UploadFile a parent source
         (λ u b o, on_db (SaveCrossDriveUploadSession i.1 (rs_task r) (rs_owner r) u b o))
         (λ n etag z, on_db (SaveCrossDriveUploadPart i.1 n etag z)).

(** What the run does when the upload failed. *)
Definition abort_item (r : run_state) (i : item) (a : account) (spool : string) (session : option multipart) (e : error)
    : Pi UploadResult :=
  let row := i.2 in
  let '(bucket, object, id) :=
    match session with
    | Some mp => (mp_Bucket mp, mp_Object mp, mp_UploadID mp)
    | None => (nstr (CrossDriveItem.UploadBucket row), nstr (CrossDriveItem.UploadObject row), nstr (CrossDriveItem.UploadID row))
    end in
  over ← ctx_over;
  if over && negb (bool_decide (id = "")) then
    aborted ← attempt (AbortUpload a (mkSource spool (CrossDriveItem.Name row) (CrossDriveItem.Size row) "" "" id bucket object));
    match aborted with
    | Ok _ => _ ← try_ (on_db (ResetCrossDriveUpload i.1 (rs_task r) (rs_owner r))); throw e
    | Err ae => throw (ErrThen e ("; abort multipart safely: " +:+ error_text ae))
    end
  else fail_item r i e.

(** The transfer of an item through the server: the upload, the spool. *)
Definition move_local (r : run_state) (p : plan) (i : item) (a : account) (parent directory : string) : Pi (UploadResult * string) :=
  fetched ← attempt (downloadQuarkItem r (pl_quark p) i);
  match fetched with
  | Err e => fail_item r i e
  | Ok (spool, sha, pre) =>
      _ ← on_db (UpdateCrossDriveImport (rs_task r) (rs_owner r) "uploading" (pl_cid p) (CrossDriveItem.RelativePath i.2) "");
      '(session, outcome) ← upload_item r p i a parent directory spool sha pre;
      upload ← match outcome with Ok u => mret u | Err e => abort_item r i a spool session e end;
      mret (upload, spool)
  end.

(** The transfer of an item through the NAS worker. *)
Definition move_nas (r : run_state) (p : plan) (i : item) (a : account) (parent : string) : Pi (UploadResult * string) :=
  q ← getAccountForProvider "quark" (pl_quark p);
  moved ← attempt (transferQuarkItemViaNAS r i q a parent);
  match moved with
  | Err e => fail_item r i e
  | Ok upload => mret (upload, "")
  end.

(** The percentage after item [index] of [count]. *)
Definition item_progress (total verified : Z) (index count : nat) : Q :=
  qmin 99 (if Z.ltb 0 total then (20 + 79 * inject_Z verified / inject_Z total)%Q
           else (20 + 79 * inject_Z (Z.of_nat index + 1) / inject_Z (Z.max 1 (Z.of_nat count)))%Q).

(** The body of the loop over the items: the bytes verified so far. *)
Definition import_item (taskID owner : string) (p : plan) (total : Z) (count : nat) (verified : Z) (ii : nat * item) : Pi Z :=
  let '(index, i) := ii in
  let row := i.2 in
  let path := CrossDriveItem.RelativePath row in
  _ ← ctx_live;
  state ← on_db (GetCrossDriveImport taskID);
  if CrossDriveImport.CancelRequested state then throw ErrCanceled else
  if bool_decide (CrossDriveItem.State row = "verified") then
    _ ← wrap ("reconcile verified " +:+ path +:+ ": ") (reconcileVerifiedItem (pl_c115 p) row);
    mret verified
  else
  _ ← on_db (UpdateCrossDriveImport taskID owner "downloading" (pl_cid p) path "");
  a ← getAccountForProvider "115" (pl_c115 p);
  '(parent, directory) ←
    (if negb (pl_nas p) && negb (pl_bound p) then
       if blank_token a then d ← cloudDriveStagingDirectory a; mret (pl_cid p, d)
       else c ← resolveImportDestination (pl_c115 p); mret (c, "")
     else mret (pl_cid p, ""));
  let r := mkRun taskID owner state total verified in
  '(upload, spool) ← (if pl_nas p then move_nas r p i a parent else move_local r p i a parent directory);
  _ ← on_db (UpdateCrossDriveImport taskID owner "verifying" (pl_cid p) path "");
  _ ← on_db (MarkCrossDriveItemVerified i.1 taskID owner parent (ur_FileID upload));
  _ ← (if negb (bool_decide (spool = "")) then wrap "remove verified spool file: " (on_files (remove_if_exists spool)) else mret tt);
  let verified := (verified + CrossDriveItem.Size row)%Z in
  _ ← on_db (UpdateAsyncTaskProgress taskID (item_progress total verified index count));
  mret verified.

(** ** The run *)

(** The checks of an autofill import before anything is saved: the destination and, when
    the files go through CloudDrive2, its directory. *)
Definition check_parent (rq : import_request) : Pi unit :=
  target ← on_db (GetSetting "quark_autofill_target_id");
  if bool_decide (trim_space target = "") then
    throw (ErrText "quark_autofill_target_id must be configured for autofill transfer")
  else if negb (bool_decide (trim_space target = rq_quarkTarget rq)) then
    throw (ErrText "quark_to_115_import target does not match quark_autofill_target_id")
  else
  parent ← wrap "read autofill parent task: " (on_db (GetAsyncTask (rq_parent rq)));
  if negb (bool_decide (AsyncTask.Type_ parent = "series_auto_fill")) || negb (bool_decide (AsyncTask.Status parent = "completed")) then
    throw (ErrText ("autofill parent task is " +:+ AsyncTask.Status parent +:+ "; refusing child provider writes"))
  else mret tt.

Definition prevalidate (nas : bool) (rq : import_request) : Pi (string * string) :=
  let s := rq_state rq in
  if negb (is_bound s) then mret ("", "") else
  _ ← check_parent rq;
  cid ← wrap "validate autofill destination before Quark save: " (resolveAutofillDestination s);
  a ← getAccountForProvider "115" (rq_c115Account rq);
  if negb nas && blank_token a then
    mountRoot ← wrap "validate CloudDrive upload before Quark save: " (cloudDrive115Mount a.1);
    let directory := join_path [mountRoot; CrossDriveImport.AutofillLibraryName s; CrossDriveImport.AutofillSeriesFolder s] in
    _ ← wrap "validate CloudDrive Series directory before Quark save: " (waitForLocalDirectory directory);
    _ ← wrap "CloudDrive Series directory is not writable: " (on_files (access_writable directory));
    mret (cid, directory)
  else mret (cid, "").

(** The roots a retry takes over from the prior import. *)
Definition prior_roots (rq : import_request) (taskID owner : string) (state : CrossDriveImport.t) : Pi CrossDriveImport.t :=
  if negb (bool_decide (rq_prior rq = "")) && bool_decide (length (CrossDriveImport.SavedRootIDs state) = 0) then
    found ← attempt (on_db (GetCrossDriveImport (rq_prior rq)));
    match found with
    | Ok prior =>
        if negb (sameCrossDriveBinding prior state) then
          throw (ErrText "retry checkpoint source or destination binding changed")
        else if bool_decide (length (CrossDriveImport.SavedRootIDs prior) = 0) then
          throw (ErrText "prior import has no reconciled Quark saved-root checkpoint; refusing to resubmit the share")
        else
        priorTask ← wrap "read prior import task: " (on_db (GetAsyncTask (rq_prior rq)));
        _ ← (match booleanPayload (AsyncTask.Payload priorTask) "import_all" false with
             | Ok b => if Bool.eqb b (rq_all rq) then mret tt else throw (ErrText "retry import mode changed")
             | Err _ => throw (ErrText "retry import mode changed")
             end);
        _ ← (match shareSelectionsPayload (AsyncTask.Payload priorTask) "selected_source_manifest" with
             | Ok m => if sameShareSelectionManifest m (rq_selections rq) then mret tt
                       else throw (ErrText "retry selected source manifest changed")
             | Err _ => throw (ErrText "retry selected source manifest changed")
             end);
        _ ← on_db (SaveCrossDriveRoots taskID owner (CrossDriveImport.SavedRootIDs prior));
        mret (set_roots (CrossDriveImport.SavedRootIDs prior) state)
    | Err e => if error_is e ErrNoRows then mret state else throw (ErrWrap "read prior import checkpoints: " e)
    end
  else mret state.

(** Saving the share, once: never again after a start that may have done it. *)
Definition save_share (rq : import_request) (taskID owner : string) (attempts : Z) (state : CrossDriveImport.t) : Pi CrossDriveImport.t :=
  if negb (bool_decide (length (CrossDriveImport.SavedRootIDs state) = 0)) then mret state
  else if Z.ltb 0 attempts then
    throw (ErrText "Quark share save may have completed before restart; refusing to submit it again")
  else
  _ ← on_db (UpdateCrossDriveImport taskID owner "saving_share" "" "" "");
  let selected := CrossDriveImport.SelectedSourceIDs state in
  saved ← (if bool_decide (0 < length selected) then
             if negb (bool_decide (length (rq_selections rq) = length selected)) then
               throw (ErrText "selected_source_manifest does not match selected_source_ids")
             else if negb (bool_decide ((sel_ID <$> rq_selections rq) = selected)) then
               throw (ErrText "selected_source_manifest order does not match selected_source_ids")
             else SaveProviderShareSelections (rq_quarkAccount rq) (rq_url rq) (rq_password rq) (rq_quarkTarget rq) (rq_selections rq)
           else SaveProviderShare (rq_quarkAccount rq) (rq_url rq) (rq_password rq) (rq_quarkTarget rq));
  _ ← wrap "persist Quark saved roots: " (on_db (SaveCrossDriveRoots taskID owner (sv_RootIDs saved)));
  _ ← on_db (UpdateAsyncTaskProgress taskID 12);
  mret (set_roots (sv_RootIDs saved) state).

(** The destination the files go to, checked against the one recorded. *)
Definition choose_destination (rq : import_request) (state : CrossDriveImport.t) : Pi string :=
  let recorded := CrossDriveImport.DestinationCID state in
  cid ← (if is_bound state then
           c ← resolveAutofillDestination state;
           if bool_decide (recorded = "") || negb (bool_decide (recorded = c)) then
             throw (ErrText "persisted autofill destination CID changed")
           else mret c
         else resolveImportDestination (rq_c115Account rq));
  if negb (bool_decide (recorded = "")) && negb (bool_decide (recorded = cid)) then
    throw (ErrText ("persisted destination CID changed from " +:+ recorded +:+ " to " +:+ cid))
  else mret cid.

(** [filepath.ToSlash] is the identity on Unix. *)
Definition finish_import (uuid5 : string → string) (rq : import_request) (taskID : string) (bound : bool)
    (state : CrossDriveImport.t) (cid : string) (count : nat) (total : Z) : Pi import_result :=
  if bound then
    _ ← finalizeAutofillImport (rq_c115Account rq) state;
    mret (mkImportResult cid ("/" +:+ join_path [CrossDriveImport.AutofillLibraryName state; CrossDriveImport.AutofillSeriesFolder state])
            (Z.of_nat count) total "emby_verified" None)
  else
    ingest ← wrap "enqueue automatic media ingest: " (on_db (enqueueMediaIngest uuid5 taskID));
    mret (mkImportResult cid "/emby/_待整理" (Z.of_nat count) total "transfer_verified" (Some ingest.1)).

(** The run while it owns the import. *)
Definition owned_run (nas : bool) (uuid5 : string → string) (rq : import_request) (taskID owner : string) (attempts : Z)
    (directory : string) : Pi import_result :=
  state ← on_db (GetCrossDriveImport taskID);
  if CrossDriveImport.CancelRequested state then throw ErrCanceled else
  state ← prior_roots rq taskID owner state;
  state ← save_share rq taskID owner attempts state;
  _ ← on_db (UpdateCrossDriveImport taskID owner "discovering" "" "" "");
  _ ← discoverQuarkImport taskID owner (rq_quarkAccount rq) (rq_quarkTarget rq) (CrossDriveImport.SavedRootIDs state)
        (rq_selections rq) (rq_all rq);
  _ ← on_db (FinalizeCrossDriveDiscovery taskID owner);
  _ ← on_db (UpdateAsyncTaskProgress taskID 20);
  cid ← choose_destination rq state;
  _ ← on_db (UpdateCrossDriveImport taskID owner "downloading" cid "" "");
  items ← on_db (ListCrossDriveItems taskID);
  stored ← on_db (GetCrossDriveImport taskID);
  let total := CrossDriveImport.TotalBytes stored in
  let p := mkPlan nas (is_bound state) (rq_quarkAccount rq) (rq_c115Account rq) cid directory in
  _ ← m_fold (import_item taskID owner p total (length items)) (imap pair items) (CrossDriveImport.CompletedBytes stored);
  _ ← on_db (UpdateCrossDriveImport taskID owner "verified" cid "" "");
  finish_import uuid5 rq taskID (is_bound state) stored cid (length items) total.

(** [runQuarkTo115Import] of the task [taskID] whose row was read as [task]. *)
Definition runQuarkTo115Import (nas : bool) (owner : string) (uuid5 : string → string) (taskID : string) (task : AsyncTask.t)
    : Pi import_result :=
  rq ← lift (parse_import (AsyncTask.Payload task));
  '(cid, directory) ← prevalidate nas rq;
  let state := if is_bound (rq_state rq) then set_destination cid (rq_state rq) else rq_state rq in
  _ ← checkNASDestination nas taskID state;
  _ ← on_db (CreateCrossDriveImport taskID state);
  _ ← on_db (ClaimCrossDriveImport taskID owner);
  r ← attempt (owned_run nas uuid5 rq taskID owner (AsyncTask.Attempts task) directory);
  _ ← try_ (on_db (ReleaseCrossDriveImport taskID owner));
  lift r.

End Pipeline.
