(* ===== verification/Frames.v ===== *)
(** What the calls of an import may ask and change: frame lemmas for the destination
    ([Destination.v]) and the NAS client ([Nas.v]), for any relation on databases that
    saving the default account keeps.  None of them saves a share. *)
From S2P Require Import Prelude GoStrings GoPath Sql Schema TaskStore ImportStore Accounts Protocol FileSys Checkpoint Download.
From S2P Require Import Payload Worker Remote Drive DriveProofs Destination DestinationProofs Nas.
From Stdlib Require Import Ascii.

Definition is_save (a : action) : bool :=
  match a with AShareSave _ _ _ _ _ _ _ => true | _ => false end.
Definition no_save (a : action) : Prop := is_save a = false.
#[export] Hint Extern 1 (no_save _) => reflexivity : keeps.

Section Frames.
Context `{Env} `{Ctx} `{Sleep} `{Remote} `{Urls} `{Sha256} `{Hash} `{Credential}.
Context (RD : Database → Database → Prop) `{!PreOrder RD}.
Hypothesis Hsave : ∀ r, keeps RD (SaveAccount "default" r).
Abbreviation R := (pipe_rel no_save RD).

Lemma fr_GetSetting key : keeps RD (GetSetting key).
Proof. unfold GetSetting. keeps_run. Qed.
Hint Resolve fr_GetSetting : keeps.
Lemma fr_listFiles a d o l : keeps R (listFiles a d o l).
Proof. by apply keeps_listFiles. Qed.
Lemma fr_getAccountForProvider p id : keeps R (getAccountForProvider p id).
Proof. by apply keeps_getAccountForProvider. Qed.
Lemma fr_listAll p a d : keeps R (listAllProviderFiles p a d).
Proof. by apply keeps_listAllProviderFiles. Qed.
Lemma fr_resolveImport a : keeps R (resolveImportDestination a).
Proof. by apply keeps_resolveRelativeDestination. Qed.
Hint Resolve fr_listFiles fr_getAccountForProvider fr_listAll fr_resolveImport : keeps.

(** ** The destination *)

Lemma fr_scan a parent wanted rounds offset : keeps R (scan_destination a parent wanted rounds offset).
Proof. revert offset. induction rounds as [|rounds IH]; intros offset; simpl; keeps_run; apply IH. Qed.
Hint Resolve fr_scan : keeps.
Lemma fr_find a parent name : keeps R (findDestinationFile a parent name).
Proof. apply fr_scan. Qed.
Lemma fr_placeholder a parent name : keeps R (cloudDriveUploadPlaceholder a parent name).
Proof. unfold cloudDriveUploadPlaceholder. keeps_run. Qed.
Lemma fr_or_cancelled {A} (m : M Pipe A) : keeps R m → keeps R (or_cancelled m).
Proof. intros Hm. unfold or_cancelled. keeps_run. Qed.
Hint Resolve fr_find fr_placeholder fr_or_cancelled : keeps.

Lemma fr_rounds a parent source rapid transferred idle started ceiling rounds deadline interval :
  keeps R (verify_rounds a parent source rapid transferred idle started ceiling rounds deadline interval).
Proof.
  revert deadline interval. induction rounds as [|rounds IH]; intros deadline interval; cbn [verify_rounds]; keeps_run; apply IH.
Qed.
Hint Resolve fr_rounds : keeps.
Lemma fr_wait a parent source rapid transferred :
  keeps R (finished_wait (waitForVerifiedDestination a parent source rapid transferred)).
Proof.
  unfold finished_wait. apply keeps_bind; [apply _| |intros [?|]; keeps_run].
  unfold waitForVerifiedDestination. apply keeps_bind; [apply _|apply keeps_now, _|intros started]. apply fr_rounds.
Qed.
Hint Resolve fr_wait : keeps.

Lemma fr_begin a parent source : keeps R (begin_upload a parent source).
Proof. unfold begin_upload, oss_client, UploadInit. keeps_run. Qed.
Lemma fr_abort a source : keeps R (AbortUpload a source).
Proof. unfold AbortUpload. keeps_run. Qed.
Hint Resolve fr_begin fr_abort : keeps.

Section Callbacks.
Context (onSession : string → string → string → M Pipe unit) (onPart : Z → string → Z → M Pipe unit).
Hypothesis HonSession : ∀ u b o, keeps R (onSession u b o).
Hypothesis HonPart : ∀ n t z, keeps R (onPart n t z).

Lemma fr_session a parent source init mp : keeps R (upload_session a parent source init mp onPart).
Proof. unfold upload_session, upload_part. keeps_run. Qed.
Hint Resolve fr_session : keeps.
Lemma fr_UploadFile a parent source : keeps R (UploadFile a parent source onSession onPart).
Proof. unfold UploadFile. keeps_run. Qed.
End Callbacks.

Lemma fr_local_rounds directory deadline rounds : keeps R (local_rounds directory deadline rounds).
Proof. induction rounds as [|rounds IH]; simpl; keeps_run. Qed.
Hint Resolve fr_local_rounds : keeps.
Lemma fr_local directory : keeps R (waitForLocalDirectory directory).
Proof.
  unfold waitForLocalDirectory, finished_wait. apply keeps_bind; [apply _|apply keeps_now, _|intros t].
  apply keeps_bind; [apply _|apply fr_local_rounds|intros [?|]; keeps_run].
Qed.
Lemma fr_mount a : keeps R (cloudDrive115Mount a).
Proof. unfold cloudDrive115Mount. keeps_run. Qed.
Hint Resolve fr_local fr_mount : keeps.
Lemma fr_staging a : keeps R (cloudDriveStagingDirectory a).
Proof. unfold cloudDriveStagingDirectory. keeps_run. Qed.
Lemma fr_mounted sourceFileID source a parent directory :
  keeps R (uploadViaCloudDriveDirectory sourceFileID source a parent directory).
Proof. unfold uploadViaCloudDriveDirectory. keeps_run. Qed.

(** ** The NAS client *)

Lemma fr_nas_run request progress :
  (∀ f e, progress = Some f → keeps R (f e)) → keeps R (nas_run request progress).
Proof.
  intros Hp. unfold nas_run. apply keeps_bind; [apply _|auto with keeps|]. intros _.
  apply keeps_bind; [apply _|by apply keeps_wrap, keeps_call|]. intros out.
  apply keeps_bind; [apply _|apply keeps_fold; [apply _|]; intros st line _|]; [|intros; keeps_run].
  unfold nas_line. destruct progress as [f|]; keeps_run.
Qed.
Lemma fr_nas_Commit job account source : keeps R (nas_Commit job account source).
Proof. apply keeps_bind; [apply _|by apply fr_nas_run|]. intros. apply keeps_ret, _. Qed.
Lemma fr_nas_Check job destination required : keeps R (nas_Check job destination required).
Proof. apply keeps_bind; [apply _|by apply fr_nas_run|]. intros. apply keeps_ret, _. Qed.
Lemma fr_nas_Publish request size sha : keeps R (nas_Publish request (nas_uploading size sha)).
Proof. apply fr_nas_run. intros f e [= <-]. unfold nas_uploading. keeps_run. Qed.
Hint Resolve fr_nas_Commit fr_nas_Check fr_nas_Publish : keeps.

Lemma fr_checkNAS nas task state : keeps R (checkNASDestination nas task state).
Proof. unfold checkNASDestination. keeps_run. Qed.

Lemma fr_connections : keeps R quarkDownloadConnections.
Proof. unfold quarkDownloadConnections. keeps_run. Qed.

Section Item.
Context (r : run_state) (i : Z * CrossDriveItem.t).
Hypothesis Hdownload : ∀ state spool n, keeps RD (UpdateCrossDriveItemDownload i.1 (rs_task r) (rs_owner r) state spool n).
Hypothesis Hprogress : ∀ p, keeps RD (UpdateAsyncTaskProgress (rs_task r) p).
Hypothesis Hphase : ∀ phase cid current err, keeps RD (UpdateCrossDriveImport (rs_task r) (rs_owner r) phase cid current err).

Lemma fr_nas_Download request : keeps R (nas_Download request (nas_downloading r i)).
Proof.
  apply fr_nas_run. intros f e [= <-]. unfold nas_downloading. destruct (_ || _); [apply keeps_throw, _|].
  apply keeps_bind; [apply _|by apply keeps_on_db|]. intros _. by apply keeps_on_db.
Qed.

Lemma fr_nas_place q a parent sha source : keeps R (nas_place r i q a parent sha source).
Proof.
  unfold nas_place. apply keeps_bind; [apply _|by apply keeps_on_db|]. intros _.
  apply keeps_bind; [apply _|auto with keeps|]. intros replace.
  apply keeps_bind; [apply _|auto with keeps|]. intros published. destruct (_ || _); [apply keeps_throw, _|].
  apply keeps_bind; [apply _|by apply keeps_on_db|]. intros _. keeps_run.
Qed.

End Item.

End Frames.
