(* ===== verification/ImportSample.v ===== *)
(** An import evaluated from its task to the verified object ([Pipeline.v] on concrete
    drives): a share of one file is saved, the copy is downloaded in one segment and 115
    takes the upload as known content. *)
From S2P Require Import Prelude GoStrings GoPath Sql Schema TaskStore TaskProofs ImportStore ImportProofs ImportRetry Accounts.
From S2P Require Import FileSys Checkpoint Download Payload Queue Worker Remote Drive DriveProofs Destination DestinationProofs.
From S2P Require Import Nas Episodes Pipeline.
From Stdlib Require Import Ascii.

#[local] Existing Instance quiet.
#[local] Existing Instance calm.
#[local] Existing Instance exact_sleep.
#[local] Existing Instance empty_digest.
#[local] Existing Instance no_sha.
#[local] Existing Instance no_credential.
#[local] Instance share_urls : Urls := {| url_parse s := Some (mkUrl "https" "pan.quark.cn" false "/s/abc" (λ _, ""));
  url_parse_request _ := None |}.
#[local] Instance roomy : Host := {| cwd := Ok "/"; statfs _ := Ok (2 ^ 30, 4096)%Z |}.
#[local] Instance in_order : Ranging := {| range_over A l := l; range_perm A l := reflexivity l |}.
#[local] Instance no_cids : CidMap := {| decode_cid_map _ := None |}.

Definition sample_bytes : list ascii := chars "abc".
#[local] Instance one_segment : Ranged := {|
  rg_open _ _ _ offset len := Ok (mkBody (take (Z.to_nat len) (drop (Z.to_nat offset) sample_bytes)) None None);
  rg_schedule _ := [Received 0; Opened 0; ReadChunk 0 None None; Closed 0 None; Saved 0; Quit 0; Quit 1; Quit 2; Quit 3];
  rg_present _ := 0%Z; rg_reports _ := [3%Z]; rg_fetched _ := Some 3%Z |}.

(** The share holds one file.  The target shows its copy once the share has been saved,
    the destination of 115 shows the object once its upload was announced; 115 knows the
    content already. *)
Definition saved (h : history) : bool := existsb (λ a, match a with AShareSave _ _ _ _ _ _ _ => true | _ => false end) h.
Definition announced (h : history) : bool := existsb (λ a, match a with AInit _ _ _ => true | _ => false end) h.

Definition folder (id parent name : string) : DriveFile := mkFile id parent name 0 "" "" "" true 0.
Definition drives (h : history) (parent : string) : list DriveFile :=
  if bool_decide (parent = "0") then [folder "e" "0" "emby"]
  else if bool_decide (parent = "e") then [folder "w" "e" "_待整理"]
  else if bool_decide (parent = "w") then
    if announced h then [mkFile "9" "w" "a.mkv" 3 "" sample_digest "" false 0] else []
  else if bool_decide (parent = "target") then
    if saved h then [mkFile "r1" "target" "a.mkv" 3 "" "" "v1" false 0] else []
  else [].

#[local] Instance sample_drives : Remote :=
  let r := static_remote (λ _, []) (λ _, []) in {|
  rm_list h _ _ parent offset limit :=
    Ok (take (Z.to_nat limit) (drop (Z.to_nat offset) (drives h parent)), Z.of_nat (length (drives h parent)));
  rm_mkdir := @rm_mkdir r; rm_share_token _ _ _ _ := Ok ("stoken", "Show");
  rm_share_page _ _ _ _ _ page := Ok (if Z.eqb page 1 then [mkEntry "f1" "0" "v1" "tok" "a.mkv" 3 false []] else []);
  rm_share_save _ _ _ _ _ _ _ := Ok ("job", ["r1"]); rm_save_task := @rm_save_task r; rm_nas := @rm_nas r;
  rm_libraries := @rm_libraries r; rm_item := @rm_item r; rm_missing := @rm_missing r; rm_sync := @rm_sync r;
  rm_scan := @rm_scan r; rm_mounts := @rm_mounts r; rm_init _ _ _ := Ok (mkInit 2 "" "" "" "" None []);
  rm_oss_token := @rm_oss_token r;
  rm_oss_client := @rm_oss_client r; rm_oss_bucket := @rm_oss_bucket r; rm_oss_start := @rm_oss_start r;
  rm_oss_parts := @rm_oss_parts r; rm_oss_part := @rm_oss_part r; rm_oss_complete := @rm_oss_complete r;
  rm_oss_abort := @rm_oss_abort r |}.

Definition sample_selection : value := VObject [("id", VString "f1"); ("revision", VString "v1"); ("name", VString "a.mkv"); ("size", VFloat 3)].
Definition one_file : payload :=
  <["quark_account_id" := VString "q"]> (<["quark_target_id" := VString "target"]>
  (<["share_url" := VString "https://pan.quark.cn/s/abc"]> (<["c115_account_id" := VString "c"]>
  (<["selected_source_ids" := VStrings ["f1"]]> (<["selected_source_manifest" := VArray [sample_selection]]> ∅))))).

Definition import_task : AsyncTask.t :=
  AsyncTask.mk "quark_to_115_import" "" one_file "running" 0 "" "" 0 1 1 time_zero.
Definition account_row (type : string) : DriveAccount.t := DriveAccount.mk type "main" "cookie" "token" true "active" 0 0 0 None 0 0.
Definition started : World Pipe :=
  mkWorld 0 (mkPipe (set_accounts {["q" := account_row "quark"; "c" := account_row "115"]}
    (after [IQueue (QCreate "t1" import_task)] empty_database)) ∅ []).
Definition import_run := runQuarkTo115Import false "run" (λ x, x) "t1" import_task started.

Lemma started_inv : import_inv (pi_db (w_db started)).
Proof.
  assert (import_inv empty_database) as Q by (split; intros *; rewrite ?lookup_empty; done).
  destruct (import_steps_sound _ _ (after_any [IQueue (QCreate "t1" import_task)] empty_database) Q) as [Qb _].
  destruct Qb. by split.
Qed.

Example import_runs : import_run.1 = Ok (mkImportResult "w" "/emby/_待整理" 1 3 "transfer_verified" (Some "media-ingest:t1")).
Proof. by vm_compute. Qed.

Lemma import_run_ok : import_run =
  (Ok (mkImportResult "w" "/emby/_待整理" 1 3 "transfer_verified" (Some "media-ingest:t1")), import_run.2).
Proof. pose proof (surjective_pairing import_run) as Hrun. by rewrite import_runs in Hrun. Qed.
