(* ===== verification/ImportRun.v ===== *)
(** The parts of an import run ([Pipeline.v]): what its calls change in the database, the
    digests a download reports, the transfers of one item through the server and through
    the NAS worker, and the loop over the items. *)
From S2P Require Import Prelude GoStrings GoPath Sql Schema TaskStore TaskProofs ImportStore ImportProofs Accounts Protocol.
From S2P Require Import FileSys Checkpoint Download DownloadProofs DownloadRuns ImportCheckpoint Payload Queue Worker.
From S2P Require Import Remote Drive DriveProofs Destination DestinationProofs Nas Frames Episodes Pipeline.
From Stdlib Require Import Ascii.

(** ** What a run changes *)

Section Relations.
Context (task owner : string).
Implicit Types d : Database.

(** Nothing of the items; the import stays the run's. *)
Definition items_same d d' : Prop :=
  (run_owned task owner d = true → run_owned task owner d' = true) ∧ items d' = items d.

(** Of the items only [k], in a way that [K] allows. *)
Definition item_rel (K : CrossDriveItem.t → CrossDriveItem.t → Prop) (k : Z) d d' : Prop :=
  (run_owned task owner d = true → run_owned task owner d' = true) ∧
  (∀ n, n ≠ k → items d' !! n = items d !! n) ∧ option_Forall2 K (items d !! k) (items d' !! k).

#[global] Instance items_same_preorder : PreOrder items_same.
Proof. split; [by intros d|]. intros d1 d2 d3 [O1 I1] [O2 I2]. split; [auto|congruence]. Qed.

#[global] Instance option_Forall2_preorder {A} (K : A → A → Prop) `{!PreOrder K} : PreOrder (option_Forall2 K).
Proof. split; apply _. Qed.

#[global] Instance item_rel_preorder K k `{!PreOrder K} : PreOrder (item_rel K k).
Proof.
  split; [intros d; split; [done|]; split; [done|by reflexivity]|].
  intros d1 d2 d3 (O1 & I1 & F1) (O2 & I2 & F2). split; [auto|]. split; [|by etrans].
  intros n Hn. rewrite I2, I1 by done. done.
Qed.

Lemma items_same_rel K k d d' : Reflexive K → items_same d d' → item_rel K k d d'.
Proof. intros HK [Ho Hi]. split; [done|]. rewrite Hi. split; [done|]. by destruct (items d !! k); constructor. Qed.

Lemma keeps_items_rel {A} K k (m : M Database A) : Reflexive K → keeps items_same m → keeps (item_rel K k) m.
Proof. intros HK. apply keeps_weaken. intros d d'. by apply items_same_rel. Qed.

Lemma items_same_imports d d' : imports d' = imports d → items d' = items d → items_same d d'.
Proof. intros Hi Ht. split; [|done]. unfold run_owned. by rewrite Hi. Qed.

Lemma items_same_update Q f d :
  (∀ r, CrossDriveImport.RunOwner (f r) = CrossDriveImport.RunOwner r) → items_same d (update_import task Q f d).2.
Proof.
  intros Hf. split; [|done]. unfold run_owned, update_import. simpl. rewrite lookup_update_by_key.
  destruct (imports d !! task) as [r|]; simpl; [|done]. destruct (_ && _); [|done]. unfold owned_by. by rewrite Hf.
Qed.

(** *** The operations *)

Context `{Env}.

(** Statements that touch neither table. *)
Ltac items_leaf :=
  match goal with
  | |- keeps _ (exec _) => apply keeps_exec; [apply _|]; intros d; simpl; repeat case_match; by apply items_same_imports
  | |- keeps _ (stmt _) =>
      apply keeps_stmt; [apply _|]; intros d u d' Hs; simpl in Hs; repeat case_match; simplify_eq/=; by apply items_same_imports
  end.
Ltac items_run := keeps_run; try items_leaf.

Lemma keeps_save_account id a : keeps items_same (SaveAccount id a).
Proof. unfold SaveAccount, put_account. items_run. Qed.

Lemma keeps_progress id p : keeps items_same (UpdateAsyncTaskProgress id p).
Proof. unfold UpdateAsyncTaskProgress. items_run. Qed.

Lemma keeps_create_task id t : keeps items_same (CreateAsyncTask id t).
Proof. unfold CreateAsyncTask, prepareAsyncTask, insertAsyncTask. items_run. Qed.

Lemma keeps_ingest uuid5 source : keeps items_same (enqueueMediaIngest uuid5 source).
Proof.
  unfold enqueueMediaIngest, GetAsyncTask. pose proof keeps_create_task. items_run.
Qed.

Lemma keeps_phase phase cid current err : keeps items_same (UpdateCrossDriveImport task owner phase cid current err).
Proof.
  unfold UpdateCrossDriveImport. keeps_run. apply keeps_exec; [apply _|]. intros d. by apply items_same_update.
Qed.

Lemma keeps_roots roots : keeps items_same (SaveCrossDriveRoots task owner roots).
Proof. unfold SaveCrossDriveRoots. keeps_run. apply keeps_exec; [apply _|]. intros d. by apply items_same_update. Qed.

Lemma keeps_finalize : keeps items_same (FinalizeCrossDriveDiscovery task owner).
Proof.
  unfold FinalizeCrossDriveDiscovery. keeps_run. apply keeps_exec; [apply _|]. intros d. by apply items_same_update.
Qed.

Lemma keeps_part k n etag z : keeps items_same (SaveCrossDriveUploadPart k n etag z).
Proof. unfold SaveCrossDriveUploadPart. items_run. Qed.

Lemma keeps_segment spool t o n z : keeps items_same (SaveCrossDriveDownloadSegment spool t o n z).
Proof. unfold SaveCrossDriveDownloadSegment. items_run. Qed.

(** An update of one item by its run. *)
Lemma item_rel_update (K : CrossDriveItem.t → CrossDriveItem.t → Prop) k f d :
  Reflexive K → (∀ r, K r (f r)) → item_rel K k d (update_item k task owner f d).2.
Proof.
  intros HK Hf. split; [done|]. unfold update_item. simpl. split.
  - intros n Hn. rewrite lookup_update_by_key. destruct (items d !! n); simpl; [|done]. by rewrite bool_decide_false.
  - rewrite lookup_update_by_key. destruct (items d !! k) as [r|]; simpl; constructor. destruct (_ && _); auto.
Qed.

(** The identity of the item and its digest. *)
Definition digest_kept (r r' : CrossDriveItem.t) : Prop :=
  item_kept r r' ∧ CrossDriveItem.SHA1 r' = CrossDriveItem.SHA1 r.
#[global] Instance digest_kept_preorder : PreOrder digest_kept.
Proof. split; [by intros r|]. intros r1 r2 r3 [K1 S1] [K2 S2]. split; [by etrans|congruence]. Qed.

Lemma keeps_item_download k state spool n : keeps (item_rel digest_kept k) (UpdateCrossDriveItemDownload k task owner state spool n).
Proof.
  unfold UpdateCrossDriveItemDownload. keeps_run. apply keeps_exec; [apply _|]. intros d. by apply item_rel_update; [apply _|].
Qed.
Lemma keeps_item_session k u b o : keeps (item_rel digest_kept k) (SaveCrossDriveUploadSession k task owner u b o).
Proof.
  unfold SaveCrossDriveUploadSession. keeps_run. apply keeps_exec; [apply _|]. intros d. by apply item_rel_update; [apply _|].
Qed.
Lemma keeps_item_hashes k sha pre : keeps (item_rel item_kept k) (UpdateCrossDriveItemHashes k task owner sha pre).
Proof.
  unfold UpdateCrossDriveItemHashes. keeps_run. apply keeps_exec; [apply _|]. intros d. by apply item_rel_update; [apply _|].
Qed.
Lemma keeps_item_failed k message : keeps (item_rel digest_kept k) (MarkCrossDriveItemFailed k task owner message).
Proof.
  unfold MarkCrossDriveItemFailed. keeps_run. apply keeps_exec; [apply _|]. intros d. by apply item_rel_update; [apply _|].
Qed.
Lemma keeps_item_reset k : keeps (item_rel digest_kept k) (ResetCrossDriveUpload k task owner).
Proof.
  unfold ResetCrossDriveUpload. keeps_run.
  - apply keeps_exec; [apply _|]. intros d. apply items_same_rel; [apply _|]. by apply items_same_imports.
  - apply keeps_exec; [apply _|]. intros d. by apply item_rel_update; [apply _|].
Qed.

End Relations.

(** ** The download *)

Section DownloadFrame.
Context {C : Type} `{Checkpoint C} `{Env} `{Hash}.
Context (RC : C → C → Prop) `{!PreOrder RC}.
Hypothesis Hload : ∀ c, RC c (ck_Load c).2.
Hypothesis Hstore : ∀ i n c, RC c (ck_Save i n c).2.
Context (openRange : nat → Z → Z → res body) (o : DownloadOptions).

Lemma retry_checkpoint w index attempt written e d :
  d_checkpoint (retry_segment (C := C) o w index attempt written e d) = d_checkpoint d.
Proof. unfold retry_segment, fail_segment. by repeat case_match. Qed.

Lemma consume_checkpoint w index attempt written b write report d :
  d_checkpoint (consume_chunk (C := C) o w index attempt written b write report d) = d_checkpoint d.
Proof. unfold consume_chunk. repeat case_match; by rewrite ?retry_checkpoint. Qed.

Lemma step_checkpoint d ev d' : step openRange o d ev = Some d' → RC (d_checkpoint d) (d_checkpoint d').
Proof.
  destruct ev; simpl; intros Hs; repeat case_match; simplify_eq/=; rewrite ?retry_checkpoint, ?consume_checkpoint;
    try by reflexivity.
  all: match goal with E : ck_Save ?i ?n ?c = _ |- _ => pose proof (Hstore i n c) as Hk; rewrite E in Hk; exact Hk end.
Qed.

Lemma schedule_checkpoint sched d : RC (d_checkpoint d) (d_checkpoint (run_schedule openRange o sched d)).
Proof.
  revert d. induction sched as [|ev sched IH]; intros d; simpl; [by reflexivity|].
  destruct (step openRange o d ev) as [d'|] eqn:E; simpl; [|apply IH]. etrans; [by eapply step_checkpoint|apply IH].
Qed.

Definition checkpoint_rel (t t' : Transfer C) : Prop := RC (t_checkpoint t) (t_checkpoint t').
#[local] Instance checkpoint_rel_preorder : PreOrder checkpoint_rel.
Proof. split; [intros t; unfold checkpoint_rel; by reflexivity|]. intros t1 t2 t3. unfold checkpoint_rel. by etrans. Qed.

Lemma keeps_load : keeps checkpoint_rel (on_checkpoint ck_Load).
Proof. intros w. unfold wp, on_checkpoint. pose proof (Hload (t_checkpoint (w_db w))) as Hl. by destruct (ck_Load _). Qed.

Lemma keeps_await sched pending downloaded : keeps checkpoint_rel (await_workers openRange o sched pending downloaded).
Proof.
  intros w. unfold wp, await_workers. set (d := run_schedule _ _ _ _).
  assert (RC (t_checkpoint (w_db w)) (d_checkpoint d)) as Hd by (exact (schedule_checkpoint sched (start_workers o _ _ _ _ _))).
  by repeat case_match; simplify_eq/=.
Qed.

Lemma keeps_Download sched : keeps checkpoint_rel (Download openRange o sched).
Proof.
  unfold Download, fetch_and_verify, fetch_pending, verify_spool, report_progress, Hashes. pose proof keeps_load. pose proof keeps_await.
  keeps_run; apply keeps_exec; try apply _; intros t; unfold checkpoint_rel; simpl; try case_match; by reflexivity.
Qed.

(** The digest of a result is that of some bytes. *)
Definition hashed (r : res (option DownloadResult)) : Prop :=
  ∀ x, r = Ok (Some x) → ∃ data, r_SHA1 x = stringsUpperHex (sha1 data).

Lemma wp_bind_hashed {S A} (m : M S A) (f : A → M S (option DownloadResult)) w :
  (∀ a v, wp (f a) v (λ r _, hashed r)) → wp (m ≫= f) w (λ r _, hashed r).
Proof. intros Hf. apply wp_bind, wp_intro. intros [a|e] w' _; [apply Hf|by intros x]. Qed.

Lemma download_hashed sched w : wp (Download openRange o sched) w (λ r _, hashed r).
Proof.
  unfold Download. destruct (_ || _); [by apply wp_throw|].
  do 5 (apply wp_bind_hashed; intros ? ?). unfold fetch_and_verify. apply wp_bind_hashed. intros [downloaded pending] ?.
  do 3 (apply wp_bind_hashed; intros ? ?). destruct (negb _); [by apply wp_ret|].
  unfold verify_spool. apply wp_bind_hashed. intros _ w1. unfold Hashes. apply wp_bind, wp_query; [by intros|].
  intros [sha pre] n [= <- <-]. destruct (_ && _); [by apply wp_throw|]. apply wp_ret. intros x [= <-]. by eexists.
Qed.

End DownloadFrame.

(** ** Text of digests *)

Definition upper_hex (a : ascii) : bool :=
  bool_decide (48 ≤ nat_of_ascii a ≤ 57) || bool_decide (65 ≤ nat_of_ascii a ≤ 70).

Lemma upper_hex_same a : upper_hex a = true → upper_byte a = a.
Proof. destruct a as [[] [] [] [] [] [] [] []]; vm_compute; done. Qed.

Lemma hex_digit_upper n : n < 16 → upper_hex (hex_digit n) = true.
Proof. intros Hn. do 16 (destruct n as [|n]; [by vm_compute|]). lia. Qed.

Lemma chars_upper_hex data a : a ∈ chars (stringsUpperHex data) → upper_hex a = true.
Proof.
  unfold stringsUpperHex. rewrite chars_of_chars. induction data as [|b data IH]; cbn [flat_map app]; [by intros ?%not_elem_of_nil|].
  assert (nat_of_ascii b < 256) as Hb by apply nat_ascii_bounded.
  intros [->|[->|Ha]%elem_of_cons]%elem_of_cons; [apply hex_digit_upper|apply hex_digit_upper|by apply IH].
  - apply Nat.Div0.div_lt_upper_bound. lia.
  - by apply Nat.mod_upper_bound.
Qed.

(** A text whose bytes are no part of white space is its own trimmed form. *)
Lemma strip_any_head runes a l :
  forallb (λ r, match r with b :: _ => negb (bool_decide (b = a)) | [] => false end) runes = true →
  strip_any runes (a :: l) = None.
Proof.
  induction runes as [|r runes IH]; simpl; [done|]. intros [Hr Hrs]%andb_true_iff. destruct r as [|b r]; [done|].
  simpl. bools. rewrite bool_decide_false by done. auto.
Qed.

Lemma hex_not_space a : upper_hex a = true →
  forallb (λ r, match r with b :: _ => negb (bool_decide (b = a)) | [] => false end) space_runes = true ∧
  forallb (λ r, match r with b :: _ => negb (bool_decide (b = a)) | [] => false end) (reverse <$> space_runes) = true.
Proof. destruct a as [[] [] [] [] [] [] [] []]; vm_compute; done. Qed.

Lemma trim_upper_hex s : (∀ a, a ∈ chars s → upper_hex a = true) → trim_space s = s.
Proof.
  intros Hs. unfold trim_space. assert (trim_left (chars s) = chars s) as ->.
  { unfold trim_left. apply strip_all_stop. destruct (chars s) as [|a l] eqn:El; [by vm_compute|].
    apply strip_any_head, hex_not_space, Hs. by left. }
  assert (trim_right (chars s) = chars s) as ->; [|apply of_chars_chars].
  unfold trim_right. rewrite strip_all_stop; [by rewrite reverse_involutive|].
  destruct (reverse (chars s)) as [|a l] eqn:El; [by vm_compute|].
  apply strip_any_head, hex_not_space, Hs. apply elem_of_reverse. rewrite El. by left.
Qed.

Lemma upper_upper_hex s : (∀ a, a ∈ chars s → upper_hex a = true) → to_upper s = s.
Proof.
  intros Hs. unfold to_upper. rewrite <-(of_chars_chars s) at 2. f_equal. revert Hs. generalize (chars s) as l.
  induction l as [|a l IH]; intros Hl; [done|]. csimpl. rewrite upper_hex_same, IH; [done| |apply Hl; by left].
  intros b Hb. apply Hl. by right.
Qed.

Lemma trimmed_digest data : to_upper (trim_space (stringsUpperHex data)) = stringsUpperHex data.
Proof. pose proof (chars_upper_hex data). by rewrite trim_upper_hex, upper_upper_hex. Qed.

(** ** The transfers of one item *)

Section Transfers.
Context `{Env} `{Ctx} `{Sleep} `{Remote} `{Urls} `{Sha256} `{Hash} `{Credential} `{Host} `{Ranged} `{Ranging} `{CidMap}.
Implicit Types w : World Pipe.

(** Between two states 115 listed an object with this name, size, digest and ID. *)
Definition landed (s s' : Pipe) (name : string) (size : Z) (sha id : string) : Prop :=
  ∃ parent f, listed_file s s' parent f ∧ trim_space (df_Name f) = trim_space name ∧ df_Size f = size
    ∧ equal_fold (df_Sha1 f) sha = true ∧ df_FileID f = id.

Lemma landed_r P s s1 s2 name size sha id : grows P s s1 → landed s1 s2 name size sha id → landed s s2 name size sha id.
Proof. intros Hg (p & f & Hl & Hrest). exists p, f. split; [by eapply listed_r|done]. Qed.
Lemma landed_l P s s1 s2 name size sha id : landed s s1 name size sha id → grows P s1 s2 → landed s s2 name size sha id.
Proof. intros (p & f & Hl & Hrest) Hg. exists p, f. split; [by eapply listed_l|done]. Qed.

Lemma settled_landed s s' parent source x :
  settled s s' parent source x → landed s s' (us_Name source) (us_Size source) (us_SHA1 source) (ur_FileID x).
Proof. intros (f & Hl & (_ & _ & Hn & Hs & _ & Hh) & Hid). exists (or_root parent), f. by rewrite Hn. Qed.

Lemma mounted_spec sourceFileID source a parent directory w :
  wp (uploadViaCloudDriveDirectory sourceFileID source a parent directory) w (λ r w', anything (w_db w) (w_db w') ∧
    ∀ x, r = Ok x → settled (w_db w) (w_db w') parent source x).
Proof.
  set (good := λ s s' x, settled s s' parent source x).
  assert (∀ P s s1 s2 x, grows P s s1 → good s1 s2 x → good s s2 x) as Hgood by (intros; by eapply settled_r).
  unfold uploadViaCloudDriveDirectory. destruct (negb _); [by apply wp_throw|]. eapply wp_mono.
  { apply (upload_shape a parent source _ (λ _ f, mret (mkUploadResult (df_FileID f) true 0)) _ _ good good).
    - intros s s1 s2 x. apply Hgood.
    - intros s s1 s2 x. apply Hgood.
    - intros f w1 Hs. apply wp_ret. split; [done|]. intros x [= <-]. exact Hs.
    - intros w1. apply finished_spec.
    - intros w1. assert (∀ w2, wp (finished_wait (waitForVerifiedDestination a parent source false (us_Size source))) w2
        (λ r w', anything (w_db w2) (w_db w') ∧ ∀ x, r = Ok x → good (w_db w2) (w_db w') x)) as Hwait.
      { intros w2. eapply wp_mono; [apply finished_spec|]. intros r w3 [Hg Hr]. split; [by apply looking_anything|done]. }
      assert (∀ s s1 s2 x, anything s s1 → good s1 s2 x → good s s2 x) as Hg2 by (intros s s1 s2 x [Hg _]; by apply Hgood with (P := λ _, True)).
      apply wp_keeps_bind; [|done|intros _ w2]; [refine (keeps_weaken _ _ _ (grows_anything _ _) (fr_local any_db directory))|].
      apply wp_keeps_bind; [keeps_run|done|intros info w3]. destruct info as [[]|e]; try by (apply wp_throw; split).
      + apply Hwait.
      + destruct (negb _); [by apply wp_throw|]. do 3 (apply wp_keeps_bind; [keeps_run|done|intros _ ?]). apply Hwait. }
  intros r w' [[Hg Hr]|[(l1 & l2 & Hl & _) Hr]]; (split; [|done]); [by apply looking_anything|].
  split; [|done]. eexists. split; [exact Hl|]. by apply Forall_true.
Qed.

Lemma wp_rel_bind {A B} (R : Pipe → Pipe → Prop) `{!PreOrder R} (m : M Pipe A) (f : A → M Pipe B) w (good : Pipe → Pipe → B → Prop) :
  keeps R m → (∀ s s1 s2 x, R s s1 → good s1 s2 x → good s s2 x) →
  (∀ a w1, wp (f a) w1 (λ r w', R (w_db w1) (w_db w') ∧ ∀ x, r = Ok x → good (w_db w1) (w_db w') x)) →
  wp (m ≫= f) w (λ r w', R (w_db w) (w_db w') ∧ ∀ x, r = Ok x → good (w_db w) (w_db w') x).
Proof.
  intros Hm Hgood Hf. apply wp_bind. eapply wp_mono; [apply Hm|]. intros [a|e] w1 Hr1; [|by split].
  eapply wp_mono; [apply Hf|]. intros r w2 [Hr2 Hr]. split; [by etrans|]. intros x Hx. by eapply Hgood; [|apply Hr].
Qed.

Section OneItem.
Context (r : run_state) (i : Z * CrossDriveItem.t).
Abbreviation task := (rs_task r).
Abbreviation owner := (rs_owner r).
Abbreviation k := (i.1).
Abbreviation row := (i.2).
(** The requests save no share; of the items only this one changes, not its identity
    ([kept_rel]), nor its digest ([fixed_rel]). *)
Abbreviation kept_rel := (pipe_rel no_save (item_rel task owner item_kept k)).
Abbreviation fixed_rel := (pipe_rel no_save (item_rel task owner digest_kept k)).

Lemma fixed_kept s s' : fixed_rel s s' → kept_rel s s'.
Proof.
  intros [Hg (Ho & Hn & Hf)]. split; [done|]. split; [done|]. split; [done|].
  destruct Hf as [x y [Hxy _]|]; by constructor.
Qed.

Lemma fr_save_account K a : Reflexive K → keeps (item_rel task owner K k) (SaveAccount "default" a).
Proof. intros HK. apply keeps_items_rel, keeps_save_account. done. Qed.
Lemma fr_phase K phase cid current err : Reflexive K → keeps (item_rel task owner K k) (UpdateCrossDriveImport task owner phase cid current err).
Proof. intros HK. apply keeps_items_rel, keeps_phase. done. Qed.
Lemma fr_progress K p : Reflexive K → keeps (item_rel task owner K k) (UpdateAsyncTaskProgress task p).
Proof. intros HK. apply keeps_items_rel, keeps_progress. done. Qed.
Lemma fr_item_part K n etag z : Reflexive K → keeps (item_rel task owner K k) (SaveCrossDriveUploadPart k n etag z).
Proof. intros HK. apply keeps_items_rel, keeps_part. done. Qed.

(** The digest is in the row of the item. *)
Definition recorded (s s' : Pipe) (sha : string) : Prop :=
  run_owned task owner (pi_db s) = true → ∀ x, items (pi_db s) !! k = Some x → CrossDriveItem.TaskID x = task →
  ∃ x', items (pi_db s') !! k = Some x' ∧ CrossDriveItem.SHA1 x' = sha.

Lemma recorded_l s s1 s2 sha : recorded s s1 sha → fixed_rel s1 s2 → recorded s s2 sha.
Proof.
  intros Hr [_ (_ & _ & Hf)] Ho x Hx Ht. destruct (Hr Ho x Hx Ht) as (x1 & Hq1 & Hs).
  rewrite Hq1 in Hf. inversion Hf as [? x2 [_ Hq2] E1 E2|]. exists x2. split; [done|congruence].
Qed.

Lemma recorded_r s s1 s2 sha : kept_rel s s1 → recorded s1 s2 sha → recorded s s2 sha.
Proof.
  intros [_ (Ho & _ & Hf)] Hr Hown x Hx Ht. rewrite Hx in Hf. inversion Hf as [? x1 Hk E1 E2|]. subst.
  apply (Hr (Ho Hown) x1); [done|]. destruct Hk as [-> _]. done.
Qed.

Lemma hashes_recorded sha pre w :
  wp (on_db (UpdateCrossDriveItemHashes k task owner sha pre)) w (λ y w', kept_rel (w_db w) (w_db w') ∧
    (is_ok y = true → recorded (w_db w) (w_db w') sha)).
Proof.
  apply wp_and; [apply keeps_on_db, keeps_item_hashes|].
  apply wp_on_db. unfold UpdateCrossDriveItemHashes. apply wp_bind, wp_now. intros t n. apply wp_bind, wp_exec; [done|].
  intros m. apply wp_ret. simpl. intros _ Ho x Hx Ht. unfold update_item. simpl. rewrite lookup_update_by_key, Hx. simpl.
  rewrite bool_decide_true by done. simpl. rewrite (bool_decide_true _ Ht), Ho. simpl. eexists. split; [done|]. by destruct x.
Qed.

Definition moved (s s' : Pipe) (u : UploadResult) : Prop :=
  ∃ sha, recorded s s' sha ∧ landed s s' (CrossDriveItem.Name row) (CrossDriveItem.Size row) sha (ur_FileID u).

Lemma fr_item_digest k' K d d' : Reflexive K → (∀ x y, digest_kept x y → K x y) →
  item_rel task owner digest_kept k' d d' → item_rel task owner K k' d d'.
Proof. intros HR HK (Ho & Hn & Hf). split; [done|]. split; [done|]. destruct Hf; constructor. auto. Qed.

Lemma nas_fetch_spec q w :
  wp (nas_fetch r i q) w (λ y w', kept_rel (w_db w) (w_db w') ∧ ∀ x, y = Ok x → recorded (w_db w) (w_db w') x.1).
Proof.
  unfold nas_fetch. set (good := λ s s' (x : string * string), recorded s s' x.1).
  assert (∀ s s1 s2 x, kept_rel s s1 → good s1 s2 x → good s s2 x) as Hgood by (intros; by eapply recorded_r).
  apply (wp_rel_bind kept_rel) with (good := good); [apply fr_connections, _|done|intros connections w1].
  apply (wp_rel_bind kept_rel) with (good := good); [|done|intros event w2].
  - apply fr_nas_Download; [apply _|intros; eapply keeps_weaken; [|apply keeps_item_download]|intros; by apply fr_progress].
    intros d d'. apply fr_item_digest; [apply _|]. by intros x y [].
  - destruct (_ || _); [by apply wp_throw|]. destruct (_ && _); [by apply wp_throw|].
    apply wp_bind. eapply wp_mono; [apply hashes_recorded|]. intros [[]|e] w3 [Hk Hr]; [|by split].
    apply wp_ret. split; [done|]. intros x [= <-]. by apply Hr.
Qed.

(** The end of every transfer: waiting, then a commit that changes nothing here. *)
Lemma wait_commit a parent source rapid transferred job q source_id w :
  wp (x ← finished_wait (waitForVerifiedDestination a parent source rapid transferred); _ ← nas_Commit job q source_id; mret x) w
    (λ y w', fixed_rel (w_db w) (w_db w') ∧ ∀ x, y = Ok x → settled (w_db w) (w_db w') parent source x).
Proof.
  apply wp_and; [refine (keeps_bind _ _ _ _ _ w); [|intros; apply keeps_bind; [apply _| |intros; apply keeps_ret, _]]|].
  - apply fr_wait; [apply _|intros; by apply fr_save_account].
  - apply fr_nas_Commit, _.
  - apply wp_bind. eapply wp_mono; [apply finished_spec|]. intros [x|e] w1 [Hg Hs]; [|done].
    apply wp_bind. eapply wp_mono; [apply (fr_nas_Commit any_db)|]. intros [[]|e] w2 [Hg2 _]; [|done].
    apply wp_ret. intros y [= <-]. eapply settled_l; [by apply Hs|exact Hg2].
Qed.

Lemma nas_place_spec q a parent sha source w :
  wp (nas_place r i q a parent sha source) w (λ y w', fixed_rel (w_db w) (w_db w') ∧
    ∀ x, y = Ok x → settled (w_db w) (w_db w') parent source x).
Proof.
  set (good := λ s s' x, settled s s' parent source x).
  assert (∀ s s1 s2 x, fixed_rel s s1 → good s1 s2 x → good s s2 x) as Hgood
    by (intros s s1 s2 x [Hg _]; by eapply settled_r).
  unfold nas_place. apply (wp_rel_bind fixed_rel) with (good := good); [apply keeps_on_db; by apply fr_phase|done|intros _ w1].
  apply (wp_rel_bind fixed_rel) with (good := good); [apply fr_placeholder; [apply _|intros; by apply fr_save_account]|done|intros replace w2].
  apply (wp_rel_bind fixed_rel) with (good := good); [apply fr_nas_Publish, _|done|intros published w3].
  destruct (_ || _); [by apply wp_throw|].
  apply (wp_rel_bind fixed_rel) with (good := good); [apply keeps_on_db; by apply fr_phase|done|intros _ w4].
  apply wait_commit.
Qed.

(** After the digest is recorded, an upload that keeps it ends the move. *)
Lemma moved_after s s1 s2 source u :
  recorded s s1 (us_SHA1 source) → kept_rel s s1 → fixed_rel s1 s2 →
  trim_space (us_Name source) = trim_space (CrossDriveItem.Name row) → us_Size source = CrossDriveItem.Size row →
  (∃ parent, settled s1 s2 parent source u) → moved s s2 u.
Proof.
  intros Hr [Hg _] Hf Hn Hs (parent & Hset). exists (us_SHA1 source). split; [by eapply recorded_l|].
  eapply landed_r; [exact Hg|]. destruct (settled_landed _ _ _ _ _ Hset) as (p & f & Hl & Hnm & Hrest).
  exists p, f. rewrite <-Hn, <-Hs. done.
Qed.

Lemma transfer_spec q a parent w :
  wp (transferQuarkItemViaNAS r i q a parent) w (λ y w', kept_rel (w_db w) (w_db w') ∧ ∀ u, y = Ok u → moved (w_db w) (w_db w') u).
Proof.
  unfold transferQuarkItemViaNAS. apply wp_bind. eapply wp_mono; [apply nas_fetch_spec|].
  intros [[sha pre]|e] w1 [Hk Hrec]; [|by split]. specialize (Hrec _ eq_refl). simpl in Hrec. set (source := mkSource _ _ _ _ _ _ _ _).
  eapply wp_mono with (P := λ y w', fixed_rel (w_db w1) (w_db w') ∧ ∀ u, y = Ok u → settled (w_db w1) (w_db w') parent source u).
  - apply wp_bind. eapply wp_mono; [apply wp_and; [apply find_spec|apply (fr_find (item_rel task owner digest_kept k)); intros; by apply fr_save_account]|].
    assert (∀ s s1 s2 x, fixed_rel s s1 → settled s1 s2 parent source x → settled s s2 parent source x) as Hgood
      by (intros s s1 s2 x [Hg _]; by eapply settled_r).
    intros [[f|]|e] w2 [[Hg Hf] Hfix]; [| |by split].
    + destruct (classifyDestination (Some f) source parent) eqn:Ec.
      * apply wp_bind. eapply wp_mono; [apply (fr_nas_Commit (item_rel task owner digest_kept k))|]. intros [[]|e] w3 Hc; [|split; [by etrans|done]].
        apply wp_ret. split; [by etrans|]. intros u [= <-]. apply classify_verified in Ec as (? & [= <-] & Hid).
        destruct Hf as [_ Hl]. exists f. split; [|done]. eapply listed_l; [exact Hl|apply Hc].
      * eapply wp_mono; [apply wait_commit|]. intros y w3 [Hw Hy]. split; [by etrans|]. intros u Hu. eapply Hgood; [exact Hfix|by apply Hy].
      * by apply wp_throw.
    + eapply wp_mono; [apply nas_place_spec|]. intros y w3 [Hw Hy]. split; [by etrans|]. intros u Hu. eapply Hgood; [exact Hfix|by apply Hy].
  - intros y w2 [Hf Hy]. split; [etrans; [exact Hk|by apply fixed_kept]|]. intros u Hu. apply (moved_after _ (w_db w1) _ source); [done..|]. eauto.
Qed.

(** *** Through the server *)

Lemma fr_report spool n : keeps fixed_rel (reportQuarkDownload r i spool n).
Proof.
  unfold reportQuarkDownload. apply keeps_bind; [apply _|apply keeps_on_db, keeps_item_download|]. intros _.
  apply keeps_on_db. by apply fr_progress.
Qed.

Lemma fr_spool o openRange sched : keeps fixed_rel (download_spool r o openRange sched).
Proof.
  intros w. unfold wp, download_spool. set (c := mkImportCheckpoint _ _ _ _).
  assert (wp (Download openRange o sched) (mkWorld (w_tick w) (mkTransfer (pi_files (w_db w) !! o_Path o) c))
    (λ _ v, items_same task owner (pi_db (w_db w)) (w_db (cc_db (t_checkpoint (w_db v)))))) as Hd.
  { set (RC := λ x y, items_same task owner (w_db (cc_db x)) (w_db (cc_db y))).
    assert (PreOrder RC) as HRC by (split; [intros x; unfold RC; by reflexivity|]; intros x y z; unfold RC; by etrans).
    refine (keeps_Download RC _ _ openRange o sched (mkWorld _ (mkTransfer _ c))).
    - intros x. unfold RC. simpl. pose proof (list_segments_spec (cc_spool x) (cc_db x)) as Hl. unfold wp in Hl.
      destruct (ListCrossDriveDownloadSegments _ _) as [y z]. simpl. destruct Hl as [-> _]. by reflexivity.
    - intros n m x. unfold RC. simpl. pose proof (keeps_segment task owner (cc_spool x) (cc_taskID x) (cc_owner x) n m (cc_db x)) as Hl.
      unfold wp in Hl. by destruct (SaveCrossDriveDownloadSegment _ _ _ _ _ _). }
  unfold wp in Hd. destruct (Download _ _ _ _) as [y w1]. split; [exists []; by rewrite app_nil_r|].
  simpl. apply items_same_rel; [apply _|exact Hd].
Qed.

Lemma spool_hashed o openRange sched w :
  wp (download_spool r o openRange sched) w (λ y _, ∀ x, y = Ok x → ∃ data, r_SHA1 x = stringsUpperHex (sha1 data)).
Proof.
  unfold wp, download_spool. set (v := mkWorld (w_tick w) _). pose proof (download_hashed openRange o sched v) as Hd.
  unfold wp in Hd. destruct (Download _ _ _ _) as [[[x|]|e] w1]; [|done..]. intros y [= <-]. by apply Hd.
Qed.

Lemma item_download_spec q w :
  wp (downloadQuarkItem r q i) w (λ y w', kept_rel (w_db w) (w_db w') ∧
    ∀ x, y = Ok x → recorded (w_db w) (w_db w') x.1.2 ∧ to_upper (trim_space x.1.2) = x.1.2).
Proof.
  set (good := λ s s' (x : string * string * string), recorded s s' x.1.2 ∧ to_upper (trim_space x.1.2) = x.1.2).
  assert (∀ s s1 s2 x, kept_rel s s1 → good s1 s2 x → good s s2 x) as Hgood
    by (intros s s1 s2 x Hk [Hr Hh]; split; [by eapply recorded_r|done]).
  assert (∀ A (m : M Pipe A), keeps fixed_rel m → keeps kept_rel m) as Hfk by (intros A m; apply keeps_weaken, fixed_kept).
  unfold downloadQuarkItem.
  apply (wp_rel_bind kept_rel) with (good := good); [unfold transferSettings, GetSetting; keeps_run|done|intros [directory minimum] w1].
  apply (wp_rel_bind kept_rel) with (good := good); [keeps_run|done|intros _ w2].
  apply (wp_rel_bind kept_rel) with (good := good); [unfold requireTransferSpace; keeps_run|done|intros _ w3].
  apply (wp_rel_bind kept_rel) with (good := good); [unfold FindReusableCrossDriveSpool; keeps_run|done|intros spool w4].
  apply (wp_rel_bind kept_rel) with (good := good); [apply fr_connections, _|done|intros connections w5].
  apply (wp_rel_bind kept_rel) with (good := good); [apply Hfk, keeps_wrap, fr_report|done|intros _ w6].
  apply (wp_rel_bind kept_rel) with (good := good); [apply Hfk, keeps_each; [apply _|]; intros; apply keeps_try, fr_report; apply _|done|intros _ w7].
  apply wp_bind. eapply wp_mono.
  { apply wp_and with (Q := λ y _, ∀ x, y = Ok x → ∃ data, r_SHA1 x = stringsUpperHex (sha1 data));
      [refine (Hfk _ _ _ w7); apply keeps_wrap, fr_spool|]. apply wp_wrap. eapply wp_mono; [apply spool_hashed|].
    intros [x|e] w8 Hy z Hz; [|done]. by apply Hy. }
  intros [result|e] w8 [Hk Hh]; [|by split]. destruct (Hh _ eq_refl) as [data Hsha].
  eapply wp_mono with (P := λ y w', kept_rel (w_db w8) (w_db w') ∧ ∀ x, y = Ok x → good (w_db w8) (w_db w') x).
  2:{ intros y w9 [Hk9 Hy]. split; [by etrans|]. intros x Hx. eapply Hgood; [exact Hk|by apply Hy]. }
  apply (wp_rel_bind kept_rel) with (good := good); [|done|intros _ w9].
  { destruct (rg_fetched _); [apply Hfk, keeps_wrap, fr_report|apply keeps_ret, _]. }
  apply wp_bind. eapply wp_mono; [apply hashes_recorded|]. intros [[]|e] w10 [Hk10 Hr]; [|by split].
  apply wp_ret. split; [done|]. intros x [= <-]. unfold good. simpl. rewrite Hsha. split; [|apply trimmed_digest]. rewrite <-Hsha. by apply Hr.
Qed.

Lemma fail_spec {A} e w : wp (fail_item (A := A) r i e) w (λ y w', fixed_rel (w_db w) (w_db w') ∧ is_ok y = false).
Proof.
  assert (keeps fixed_rel (try_ (on_db (MarkCrossDriveItemFailed k task owner (error_text e))))) as Hm
    by (apply keeps_try, keeps_on_db, keeps_item_failed; apply _).
  unfold fail_item. apply wp_bind. eapply wp_mono; [apply Hm|]. intros [[]|e'] w1 Hk; [by apply wp_throw|]. done.
Qed.

(** Reported done: the object of the item, with this digest, was listed. *)
Definition uploaded_as (sha : string) (s s' : Pipe) (u : UploadResult) : Prop :=
  ∃ source parent, settled s s' parent source u ∧ us_SHA1 source = sha ∧
    trim_space (us_Name source) = trim_space (CrossDriveItem.Name row) ∧ us_Size source = CrossDriveItem.Size row.

Lemma upload_item_spec p a parent directory spool sha pre w :
  to_upper (trim_space sha) = sha →
  wp (upload_item r p i a parent directory spool sha pre) w (λ y w', fixed_rel (w_db w) (w_db w') ∧
    ∀ o u, y = Ok (o, Ok u) → uploaded_as sha (w_db w) (w_db w') u).
Proof.
  intros Hsha. assert (∀ b, keeps (item_rel task owner digest_kept k) (SaveAccount "default" b)) as Hacc by (intros; by apply fr_save_account).
  unfold upload_item. destruct (blank_token a).
  - apply wp_bind, wp_attempt. eapply wp_mono; [apply wp_and; [by apply (fr_mounted (item_rel task owner digest_kept k))|apply mounted_spec]|].
    intros y w1 [Hf [_ Hs]]. apply wp_ret. split; [done|]. intros o u [= <- ->]. eexists _, _. split; [by apply Hs|done].
  - assert (∀ u b o, keeps fixed_rel (on_db (SaveCrossDriveUploadSession k task owner u b o))) as HS by (intros; apply keeps_on_db, keeps_item_session).
    assert (∀ n etag z, keeps fixed_rel (on_db (SaveCrossDriveUploadPart k n etag z))) as HP by (intros; apply keeps_on_db; by apply fr_item_part).
    eapply wp_mono; [apply wp_and; [by apply (fr_UploadFile (item_rel task owner digest_kept k))|apply upload_file_spec]|].
    + intros. eapply keeps_weaken; [apply grows_anything|apply HS].
    + intros. eapply keeps_weaken; [apply grows_anything|apply HP].
    + intros y w1 [Hf [_ Hs]]. split; [done|]. intros o u ->. eexists _, _. split; [by eapply Hs|].
      simpl. rewrite trim_space_idemp. done.
Qed.

Lemma abort_spec a spool session e w :
  wp (abort_item r i a spool session e) w (λ y w', fixed_rel (w_db w) (w_db w') ∧ is_ok y = false).
Proof.
  assert (keeps fixed_rel (try_ (on_db (ResetCrossDriveUpload k task owner)))) as Hm
    by (apply keeps_try, keeps_on_db, keeps_item_reset; apply _).
  unfold abort_item. set (coords := match session with Some _ => _ | None => _ end). destruct coords as [[bucket object] id].
  apply wp_bind, wp_ctx_over. intros over n. destruct (_ && _); [|exact (fail_spec e (mkWorld n (w_db w)))].
  apply wp_bind, wp_attempt. eapply wp_mono; [apply (fr_abort (item_rel task owner digest_kept k)); intros; by apply fr_save_account|].
  intros [[]|e'] w1 Hf; [|apply wp_throw; by split]. apply wp_bind. eapply wp_mono; [apply Hm|].
  intros [[]|e'] w2 Hf2; [apply wp_throw|]; (split; [by etrans|done]).
Qed.

Lemma move_local_spec p a parent directory w :
  wp (move_local r p i a parent directory) w (λ y w', kept_rel (w_db w) (w_db w') ∧ ∀ x, y = Ok x → moved (w_db w) (w_db w') x.1).
Proof.
  unfold move_local. apply wp_bind, wp_attempt. eapply wp_mono; [apply item_download_spec|].
  intros [[[spool sha] pre]|e] w1 [Hk Hrec].
  2:{ eapply wp_mono; [apply fail_spec|]. intros y w2 [Hf Hy]. split; [etrans; [exact Hk|by apply fixed_kept]|]. by intros x ->. }
  destruct (Hrec _ eq_refl) as [Hr Hsha]. simpl in Hr, Hsha.
  apply wp_bind. eapply wp_mono; [apply (keeps_on_db no_save); by apply (fr_phase digest_kept)|]. intros [[]|e] w2 Hk2.
  2:{ split; [etrans; [exact Hk|by apply fixed_kept]|done]. }
  apply wp_bind. eapply wp_mono; [by apply upload_item_spec|]. intros [[session outcome]|e] w3 [Hk3 Hup].
  2:{ split; [etrans; [exact Hk|apply fixed_kept; by etrans]|done]. }
  assert (fixed_rel (w_db w1) (w_db w3)) as Hk13 by (by etrans). destruct outcome as [u|e].
  - apply wp_bind, wp_ret, wp_ret. split; [etrans; [exact Hk|by apply fixed_kept]|]. intros x [= <-]. simpl.
    destruct (Hup _ _ eq_refl) as (source & pa & Hset & <- & Hn & Hs). apply (moved_after _ (w_db w1) _ source); [done..|].
    exists pa. eapply settled_r; [apply Hk2|exact Hset].
  - apply wp_bind. eapply wp_mono; [apply abort_spec|]. intros [x|e'] w4 [Hk4 Hy]; [done|].
    split; [|done]. etrans; [exact Hk|apply fixed_kept; by etrans].
Qed.

Lemma move_nas_spec p a parent w :
  wp (move_nas r p i a parent) w (λ y w', kept_rel (w_db w) (w_db w') ∧ ∀ x, y = Ok x → moved (w_db w) (w_db w') x.1).
Proof.
  unfold move_nas. apply (wp_rel_bind kept_rel) with (good := λ s s' (x : UploadResult * string), moved s s' x.1).
  - apply fr_getAccountForProvider; [apply _|]. intros. by apply fr_save_account.
  - intros s s1 s2 x Hk (sha & Hr & Hl). exists sha. split; [by eapply recorded_r|]. by eapply landed_r; [apply Hk|].
  - intros q w1. apply wp_bind, wp_attempt. eapply wp_mono; [apply transfer_spec|]. intros [u|e] w2 [Hk Hm].
    + apply wp_ret. split; [done|]. intros x [= <-]. by apply Hm.
    + eapply wp_mono; [apply fail_spec|]. intros y w3 [Hf Hy]. split; [etrans; [exact Hk|by apply fixed_kept]|]. by intros x ->.
Qed.

End OneItem.

(** ** The loop over the items *)

Section Loop.
Context (task owner : string).

(** Row [k] is verified: 115 listed its object between the two states. *)
Definition row_verified (s s' : Pipe) (k : Z) : Prop :=
  ∃ x, items (pi_db s') !! k = Some x ∧ CrossDriveItem.State x = "verified" ∧
    landed s s' (CrossDriveItem.Name x) (CrossDriveItem.Size x) (CrossDriveItem.SHA1 x) (nstr (CrossDriveItem.DestinationID x)).

Abbreviation kept k := (pipe_rel no_save (item_rel task owner item_kept k)).

Lemma mark_spec k parent destination (v : World Database) :
  wp (MarkCrossDriveItemVerified k task owner parent destination) v (λ y v', item_rel task owner digest_kept k (w_db v) (w_db v') ∧
    (is_ok y = true → ∃ x, items (w_db v') !! k = Some x ∧ CrossDriveItem.State x = "verified"
       ∧ nstr (CrossDriveItem.DestinationID x) = destination)).
Proof.
  unfold MarkCrossDriveItemVerified. apply wp_transaction; [intros; by split|]. intros n.
  apply wp_bind, wp_now. intros t n1. apply wp_bind, wp_exec; [intros e n2 _ n3; by split|]. intros n2.
  set (d1 := (update_item _ _ _ _ _).2). destruct (negb _) eqn:Hm; [apply wp_throw; by split|]. bools.
  apply wp_bind, wp_now. intros t' n3. apply wp_bind, wp_exec; [intros e n4 _ n5; by split|]. intros n4. apply wp_ret. intros n5. simpl.
  assert (item_rel task owner digest_kept k (w_db v) d1) as Hd by (by apply item_rel_update; [apply _|]).
  split.
  - etrans; [exact Hd|]. apply items_same_rel; [apply _|]. 
    refine (items_same_update task owner (owned_by owner) _ d1 _). done.
  - intros _. unfold update_item in Hm, d1. simpl in Hm. rewrite count_by_key in Hm. simpl. unfold d1. simpl.
    rewrite lookup_update_by_key. destruct (items (w_db v) !! k) as [x|]; [|done]. destruct (_ && run_owned _ _ _) eqn:E; [|done].
    simpl. rewrite bool_decide_true, E by done. simpl. by eexists.
Qed.

Lemma reconcile_spec account k x w :
  CrossDriveItem.State x = "verified" →
  wp (reconcileVerifiedItem account x) w (λ y w', pipe_rel no_save (items_same task owner) (w_db w) (w_db w') ∧
    (is_ok y = true → items (pi_db (w_db w)) !! k = Some x → row_verified (w_db w) (w_db w') k)).
Proof.
  intros Hv. assert (∀ a, keeps (items_same task owner) (SaveAccount "default" a)) as Hacc by (intros; apply keeps_save_account).
  unfold reconcileVerifiedItem. apply wp_bind. eapply wp_mono; [by apply (fr_getAccountForProvider (items_same task owner))|].
  intros [a|e] w1 Hk1; [|by split]. apply wp_bind. eapply wp_mono; [apply wp_and; [apply find_spec|by apply (fr_find (items_same task owner))]|].
  intros [[f|]|e] w2 [[Hg Hf] Hk2]; [| |split; [by etrans|done]]; (assert (pipe_rel no_save (items_same task owner) (w_db w) (w_db w2)) as Hk by (by etrans)).
  - destruct (_ || _) eqn:E; [by apply wp_throw|]. apply wp_ret. split; [done|]. intros _ Hx. bools. destruct Hf as [Hn Hl].
    exists x. destruct Hk as [Hgk [_ Hi]]. rewrite Hi. split; [done|]. split; [done|]. eexists _, f.
    split; [eapply listed_r; [apply Hk1|exact Hl]|]. by rewrite Hn.
  - by apply wp_throw.
Qed.

Lemma verified_r P s s1 s2 k : grows P s s1 → row_verified s1 s2 k → row_verified s s2 k.
Proof. intros Hg (x & Hx & Hv & Hl). exists x. split; [done|]. split; [done|]. by eapply landed_r. Qed.
Lemma verified_l P s s1 s2 k :
  row_verified s s1 k → grows P s1 s2 → items (pi_db s2) !! k = items (pi_db s1) !! k → row_verified s s2 k.
Proof. intros (x & Hx & Hv & Hl) Hg Hi. exists x. rewrite Hi. split; [done|]. split; [done|]. by eapply landed_l. Qed.

(** The item was moved, then marked. *)
Lemma moved_verified r k x s s1 s2 u :
  rs_task r = task → rs_owner r = owner → run_owned task owner (pi_db s) = true → items (pi_db s) !! k = Some x →
  CrossDriveItem.TaskID x = task → kept k s s1 → moved r (k, x) s s1 u →
  pipe_rel no_save (item_rel task owner digest_kept k) s1 s2 →
  (∃ y, items (pi_db s2) !! k = Some y ∧ CrossDriveItem.State y = "verified" ∧ nstr (CrossDriveItem.DestinationID y) = ur_FileID u) →
  row_verified s s2 k.
Proof.
  intros <- <- Ho Hx Ht [_ (_ & _ & Hk)] (sha & Hr & Hl) [Hg (_ & _ & Hd)] (y & Hy & Hv & Hid).
  destruct (Hr Ho x Hx Ht) as (x1 & Hx1 & Hsha). simpl in *. rewrite Hx, Hx1 in Hk. rewrite Hx1, Hy in Hd.
  inversion Hk as [? ? Hk1|]. inversion Hd as [? ? [Hk2 Hs2]|]. subst. exists y. split; [done|]. split; [done|].
  destruct Hk1 as (_ & _ & _ & _ & Hn1 & Hz1), Hk2 as (_ & _ & _ & _ & Hn2 & Hz2). rewrite Hn2, Hn1, Hz2, Hz1, Hs2, Hid.
  by eapply landed_l.
Qed.

Lemma same_kept k s s' : pipe_rel no_save (items_same task owner) s s' → kept k s s'.
Proof. intros [Hg Hs]. split; [done|]. apply items_same_rel; [apply _|done]. Qed.

Abbreviation item_post k x s y s' := (kept k s s' ∧
  (is_ok y = true → run_owned task owner (pi_db s) = true → items (pi_db s) !! k = Some x → CrossDriveItem.TaskID x = task →
   row_verified s s' k)).

(** Steps before the move, which change no item. *)
Lemma item_before {A B} (m : M Pipe A) (f : A → M Pipe B) k x w :
  keeps (pipe_rel no_save (items_same task owner)) m →
  (∀ a w1, wp (f a) w1 (λ y w', item_post k x (w_db w1) y (w_db w'))) →
  wp (m ≫= f) w (λ y w', item_post k x (w_db w) y (w_db w')).
Proof.
  intros Hm Hf. apply wp_bind. eapply wp_mono; [apply Hm|]. intros [a|e] w1 Hk; [|split; [by apply same_kept|done]].
  eapply wp_mono; [apply Hf|]. intros y w2 [Hk2 Hy]. split; [etrans; [by apply same_kept|exact Hk2]|].
  intros Hok Ho Hx Ht. destruct Hk as [Hg [Ho1 Hi]]. eapply verified_r; [exact Hg|]. apply Hy; [done|by apply Ho1|by rewrite Hi|done].
Qed.

Lemma import_item_spec p total count verified index k x w :
  wp (import_item task owner p total count verified (index, (k, x))) w (λ y w', item_post k x (w_db w) y (w_db w')).
Proof.
  assert (∀ a, keeps (items_same task owner) (SaveAccount "default" a)) as Hacc by (intros; apply keeps_save_account).
  assert (∀ phase cid current err, keeps (pipe_rel no_save (items_same task owner)) (on_db (UpdateCrossDriveImport task owner phase cid current err))) as Hphase
    by (intros; apply keeps_on_db, keeps_phase).
  cbn [import_item]. apply item_before; [apply keeps_ctx_live, _|intros _ w1].
  apply item_before; [apply keeps_on_db; unfold GetCrossDriveImport; keeps_run|intros state w2].
  destruct (CrossDriveImport.CancelRequested state); [by apply wp_throw|]. cbn [snd].
  case_bool_decide as Hstate.
  { apply wp_bind, wp_wrap. eapply wp_mono; [by apply (reconcile_spec (pl_c115 p) k x)|].
    intros [[]|e] w3 [Hk Hv]; [apply wp_ret|]; (split; [by apply same_kept|]); [|done]. intros _ _ Hx _. by apply Hv. }
  apply item_before; [apply Hphase|intros _ w3]. apply item_before; [by apply (fr_getAccountForProvider (items_same task owner))|intros a w4].
  apply item_before; [|intros [parent directory] w5].
  { destruct (_ && _); [|apply keeps_ret, _]. destruct (blank_token a); apply keeps_bind; try apply _; try (intros; apply keeps_ret, _);
      [by apply (fr_staging (items_same task owner))|by apply (fr_resolveImport (items_same task owner))]. }
  set (r := mkRun task owner state total verified). apply wp_bind.
  eapply wp_mono with (P := λ y w', kept k (w_db w5) (w_db w') ∧ ∀ z, y = Ok z → moved r (k, x) (w_db w5) (w_db w') z.1).
  { destruct (pl_nas p); [apply (move_nas_spec r (k, x))|apply (move_local_spec r (k, x))]. }
  intros [[u spool]|e] w6 [Hk6 Hm]; [|by split]. specialize (Hm _ eq_refl). simpl in Hm.
  apply wp_bind. eapply wp_mono; [apply Hphase|]. intros [[]|e] w7 Hk7; [|split; [etrans; [exact Hk6|by apply same_kept]|done]].
  apply wp_bind, wp_on_db. eapply wp_mono; [apply mark_spec|]. intros y v [Hd Hv].
  set (w8 := mkWorld _ _). assert (pipe_rel no_save (item_rel task owner digest_kept k) (w_db w7) (w_db w8)) as Hk8.
  { split; [exists []; by rewrite app_nil_r|exact Hd]. }
  assert (pipe_rel no_save (item_rel task owner digest_kept k) (w_db w6) (w_db w8)) as Hk68.
  { etrans; [|exact Hk8]. destruct Hk7 as [Hg7 Hs7]. split; [done|]. apply items_same_rel; [apply _|done]. }
  assert (kept k (w_db w5) (w_db w8)) as Hk58 by (etrans; [exact Hk6|exact (fixed_kept r (k, x) _ _ Hk68)]).
  destruct y as [[]|e]; [|by split]. specialize (Hv eq_refl).
  eapply wp_mono with (P := λ _ w', pipe_rel no_save (items_same task owner) (w_db w8) (w_db w')).
  { refine ((_ : keeps (pipe_rel no_save (items_same task owner)) _) w8).
    apply keeps_bind; [apply _| |intros _; apply keeps_bind; [apply _| |intros _; apply keeps_ret, _]].
    - destruct (negb _); keeps_run.
    - apply keeps_on_db, keeps_progress. }
  intros y w9 Hk9. split; [etrans; [exact Hk58|by apply same_kept]|]. intros _ Ho Hx Ht.
  destruct Hk9 as [Hg9 [_ Hi9]]. eapply verified_l; [|exact Hg9|by rewrite Hi9].
  eapply (moved_verified r k x _ (w_db w6)); [done..|exact Hv].
Qed.

(** Of the items only [ks], and not their identity. *)
Definition items_rel (ks : list Z) (d d' : Database) : Prop :=
  (run_owned task owner d = true → run_owned task owner d' = true) ∧
  (∀ n, n ∉ ks → items d' !! n = items d !! n) ∧ ∀ n, option_Forall2 item_kept (items d !! n) (items d' !! n).

#[local] Instance items_rel_preorder ks : PreOrder (items_rel ks).
Proof.
  split; [intros d; split; [done|]; split; [done|]; intros n; by reflexivity|].
  intros d1 d2 d3 (O1 & N1 & K1) (O2 & N2 & K2). split; [auto|]. split; [|intros n; transitivity (items d2 !! n); auto].
  intros n Hn. by rewrite N2, N1.
Qed.

Lemma item_items_rel k ks d d' : k ∈ ks → item_rel task owner item_kept k d d' → items_rel ks d d'.
Proof.
  intros Hk (Ho & Hn & Hf). split; [done|]. split; [intros n Hnk; apply Hn; set_solver|].
  intros n. destruct (decide (n = k)) as [->|Hne]; [done|]. rewrite Hn by done. by reflexivity.
Qed.

Lemma items_rel_weaken ks ks' d d' : ks ⊆ ks' → items_rel ks d d' → items_rel ks' d d'.
Proof. intros Hs (Ho & Hn & Hf). split; [done|]. split; [|done]. intros n Hnk. apply Hn. set_solver. Qed.

Definition item_id (ii : nat * (Z * CrossDriveItem.t)) : Z := ii.2.1.
Definition as_listed (d : Database) (ii : nat * (Z * CrossDriveItem.t)) : Prop :=
  items d !! item_id ii = Some ii.2.2 ∧ CrossDriveItem.TaskID ii.2.2 = task.

Lemma loop_spec p total count l verified w :
  NoDup (item_id <$> l) →
  wp (m_fold (import_item task owner p total count) l verified) w (λ y w',
    pipe_rel no_save (items_rel (item_id <$> l)) (w_db w) (w_db w') ∧
    (is_ok y = true → run_owned task owner (pi_db (w_db w)) = true → Forall (as_listed (pi_db (w_db w))) l →
     Forall (λ ii, row_verified (w_db w) (w_db w') (item_id ii)) l)).
Proof.
  revert verified w. induction l as [|[index [k x]] l IH]; intros verified w Hnd; cbn [m_fold].
  { apply wp_ret. split; [by reflexivity|]. by constructor. }
  csimpl in Hnd. apply NoDup_cons in Hnd as [Hk Hnd]. apply wp_bind. eapply wp_mono; [apply import_item_spec|].
  intros y w1 [[Hg1 Hk1] Hv1]. assert (items_rel (item_id <$> ((index, (k, x)) :: l)) (pi_db (w_db w)) (pi_db (w_db w1))) as Hr1
    by (eapply item_items_rel; [|exact Hk1]; csimpl; left).
  destruct y as [verified'|e]; [|by split].
  eapply wp_mono; [by apply IH|]. intros y w2 [[Hg2 Hr2] Hv2]. split.
  { split; [by etrans|]. etrans; [exact Hr1|]. eapply items_rel_weaken; [|exact Hr2]. csimpl. set_solver. }
  intros Hok Ho Hl. apply Forall_cons in Hl as [[Hx Ht] Hl]. unfold item_id in Hx at 1. simpl in Hx, Ht. constructor.
  - destruct Hr2 as (_ & Hn2 & _). eapply verified_l; [by apply Hv1|exact Hg2|]. by apply Hn2.
  - destruct Hk1 as (Ho1 & Hn1 & _). assert (Forall (as_listed (pi_db (w_db w1))) l) as Hl1.
    { apply Forall_forall. intros ii Hii. rewrite Forall_forall in Hl. destruct (Hl ii Hii) as [Hi Hti]. split; [|done].
      rewrite Hn1; [done|]. intros Heq. apply Hk. rewrite <-Heq. exact (list_elem_of_fmap_2 item_id l ii Hii). }
    specialize (Hv2 Hok (Ho1 Ho) Hl1). eapply Forall_impl; [exact Hv2|]. intros ii. by apply verified_r with (P := no_save).
Qed.

End Loop.

End Transfers.
