(* ===== verification/PipelineProofs.v ===== *)
(** Correctness of an import run ([Pipeline.v]): a run that succeeds leaves every file of
    the import verified against an object that 115 listed during the run, and, with a
    manifest, a file for every selection; the share is saved at most once and never after
    a start that may have saved it; nothing is written to 115 over an existing object. *)
From S2P Require Import Prelude GoStrings GoPath Sql Schema TaskStore TaskProofs ImportStore ImportProofs Accounts Protocol.
From S2P Require Import FileSys Checkpoint Download ImportCheckpoint Payload Queue Worker.
From S2P Require Import Remote Drive DriveProofs Destination DestinationProofs Nas Frames Episodes Pipeline ImportSample ImportRun.
From stdpp Require Import pretty.
From Stdlib Require Import Ascii.

(** ** Name and size as one text *)

Lemma pretty_N_go_plain x s : nul ∉ chars s → nul ∉ chars (pretty_N_go x s).
Proof.
  revert s. induction (N.lt_wf_0 x) as [x _ IH]; intros s Hs. destruct (decide (x = 0%N)) as [->|Hx]; [done|].
  rewrite pretty_N_go_step by lia. apply IH; [apply N.div_lt; lia|]. intros [Hc|Hc]%elem_of_cons; [|done].
  revert Hc. unfold pretty_N_char. repeat case_match; done.
Qed.

Lemma pretty_plain (z : Z) : nul ∉ chars (pretty z).
Proof.
  assert (∀ p : positive, nul ∉ chars (pretty p)) as Hp.
  { intros p. unfold pretty, pretty_positive, pretty, pretty_N. apply pretty_N_go_plain. apply not_elem_of_nil. }
  destruct z as [|p|p]; [by apply (bool_decide_eq_true_1 _)|apply Hp|]. unfold pretty at 1, pretty_Z.
  rewrite chars_app. intros [Hc|Hc]%elem_of_app; [|by apply (Hp p)]. by apply list_elem_of_singleton in Hc.
Qed.

Lemma last_nul_split (l1 l2 m1 m2 : list ascii) :
  nul ∉ m1 → nul ∉ m2 → l1 ++ nul :: m1 = l2 ++ nul :: m2 → l1 = l2 ∧ m1 = m2.
Proof.
  intros H1 H2. revert l2. induction l1 as [|a l1 IH]; intros [|b l2]; simpl; intros Heq; simplify_eq; try done.
  - exfalso. apply H1. apply elem_of_app. right. by left.
  - exfalso. apply H2. apply elem_of_app. right. by left.
  - destruct (IH l2) as [-> ->]; done.
Qed.

Lemma name_size_inj n n' (z z' : Z) :
  n +:+ nul_string +:+ pretty z = n' +:+ nul_string +:+ pretty z' → n = n' ∧ z = z'.
Proof.
  intros Heq. apply (f_equal chars) in Heq. unfold nul_string in Heq. rewrite !chars_app, !chars_of_chars in Heq. simpl in Heq.
  apply last_nul_split in Heq as [Hn Hz]; [|apply pretty_plain..]. split; [by apply chars_inj|]. by apply (inj pretty), chars_inj.
Qed.

(** ** The state of a run before its loop *)

Section Prefix.
Context `{Env} (task owner : string).
Hypothesis Howner : owner ≠ "".

(** Sound changes that leave the import to its run. *)
Definition prefix_rel (d d' : Database) : Prop :=
  sound d d' ∧ (owner_is task owner d → owner_is task owner d').

#[local] Instance prefix_rel_preorder : PreOrder prefix_rel.
Proof. split; [intros d; split; [by reflexivity|done]|]. intros d1 d2 d3 [S1 O1] [S2 O2]. split; [by etrans|auto]. Qed.

Lemma keeps_operation op : disowns task owner op = false → keeps prefix_rel (run_import op).
Proof.
  intros Hd w. apply wp_and.
  - pose proof (run_import_sound op w) as Hs. unfold wp in *. destruct (run_import op w) as [r w']. intros Q. by apply Hs.
  - pose proof (owner_preserved task owner op w Howner Hd) as Ho. unfold wp in *. by destruct (run_import op w).
Qed.

Lemma prefix_save_account id a : keeps prefix_rel (SaveAccount id a).
Proof.
  unfold SaveAccount, put_account. keeps_run.
  - apply keeps_exec; [apply _|]. intros d. split; [|done]. apply released_sound, imports_untouched; done.
  - apply keeps_stmt; [apply _|]. intros d u d' Hs. simpl in Hs. repeat case_match; simplify_eq/=.
    all: split; [|done]; apply released_sound, imports_untouched; done.
Qed.

Implicit Types v : World Database.

(** The row of a discovered file. *)
Definition has_row (name : string) (size : Z) (d : Database) : Prop :=
  ∃ k x, items d !! k = Some x ∧ CrossDriveItem.TaskID x = task ∧ CrossDriveItem.Name x = name ∧ CrossDriveItem.Size x = size.

Lemma has_row_kept name size d d' : import_inv d → prefix_rel d d' → has_row name size d → has_row name size d'.
Proof.
  intros Q [Hs _] (k & x & Hx & Ht & Hn & Hz). destruct (Hs Q) as (_ & _ & Hk).
  destruct (Hk k x Hx) as (x' & Hx' & Ht' & _ & _ & _ & Hn' & Hz'). exists k, x'. split; [done|]. split_and!; congruence.
Qed.

Lemma upsert_row i v :
  wp (UpsertCrossDriveItem task owner i) v (λ y v', is_ok y = true → has_row (fi_Name i) (fi_Size i) (w_db v')).
Proof.
  unfold UpsertCrossDriveItem. destruct (bool_decide _); [by apply wp_throw|].
  apply wp_bind, wp_query; [done|]. intros row n [= <-]. apply wp_bind.
  destruct (item_of task (fi_SourceFileID i) (items (w_db v))) as [[k x]|] eqn:Hrow.
  - destruct (identity_changed x i) eqn:Hid; [by apply wp_throw|]. apply wp_ret. apply wp_bind, wp_now. intros t m.
    apply wp_bind, wp_stmt; [done|]. intros changed d n' Hu. simpl in Hu. unfold upsert_item in Hu. rewrite Hrow in Hu.
    destruct (run_owned task owner (w_db v)); [|by injection Hu as <- <-]. injection Hu as <- <-. apply wp_ret. intros _.
    apply item_of_some in Hrow as (Hx & Ht & _). unfold identity_changed in Hid. bools.
    eexists k, _. simpl. rewrite lookup_insert_eq. split; [done|]. simpl. done.
  - apply wp_ret. apply wp_bind, wp_now. intros t m. apply wp_bind, wp_stmt; [done|]. intros changed d n' Hu. simpl in Hu.
    unfold upsert_item in Hu. rewrite Hrow in Hu. destruct (run_owned task owner (w_db v)); [|by injection Hu as <- <-].
    apply res_bind_ok in Hu as (d' & Hi & [= <- <-]). apply wp_ret. intros _.
    apply insert_item_tables in Hi as (_ & _ & _ & _ & Hi & _). eexists _, _. simpl. rewrite Hi, lookup_insert_eq. done.
Qed.

End Prefix.

(** ** Loops *)

Lemma fold_value {D A S} (Q : S → Prop) (f : S → A → M D S) l s (w : World D) :
  Q s → (∀ s x w, Q s → wp (f s x) w (λ y _, ∀ s', y = Ok s' → Q s')) →
  wp (m_fold f l s) w (λ y _, ∀ s', y = Ok s' → Q s').
Proof.
  intros Hs Hf. revert s w Hs. induction l as [|x l IH]; intros s w Hs; simpl; [apply wp_ret; by intros s' [= <-]|].
  apply wp_bind. eapply wp_mono; [by apply Hf|]. intros [s1|e] w1 Hs1; [|done]. apply IH. by apply Hs1.
Qed.

(** A loop that establishes [Q x] for every element, under an invariant [I]. *)
Lemma each_spec {D A} (R : D → D → Prop) `{!PreOrder R} (I : D → Prop) (Q : A → D → Prop) (f : A → M D unit) l (w : World D) :
  (∀ x, keeps R (f x)) → (∀ s s', I s → R s s' → I s') →
  (∀ x (w : World D), wp (f x) w (λ y w', is_ok y = true → Q x (w_db w'))) →
  (∀ x s s', I s → R s s' → Q x s → Q x s') → I (w_db w) →
  wp (m_each f l) w (λ y w', is_ok y = true → ∀ x, x ∈ l → Q x (w_db w')).
Proof.
  intros Hf HI HQ Hk. revert w. unfold m_each. induction l as [|x l IH]; intros w Hw; simpl; [apply wp_ret; by intros _ x ?%not_elem_of_nil|].
  apply wp_bind. eapply wp_mono; [apply wp_and; [apply Hf|apply HQ]|]. intros [[]|e] w1 [Hr Hq]; [|done].
  assert (I (w_db w1)) as Hw1 by eauto.
  eapply wp_mono; [apply wp_and; [by apply IH|apply (keeps_each R f l); intros; apply Hf]|].
  intros y w2 [Hall Hr2] Hok z [->|Hz]%elem_of_cons; [|by apply Hall]. eapply Hk; [exact Hw1|exact Hr2|by apply Hq].
Qed.

(** ** Discovery *)

Section Discovery.
Context `{Env} `{Ctx} `{Sleep} `{Remote} `{Urls} `{Sha256} `{Hash} `{Credential} `{Host} `{Ranged} `{Ranging} `{CidMap}.
Context (task owner : string).
Hypothesis Howner : owner ≠ "".
Implicit Types w : World Pipe.
Abbreviation PR := (pipe_rel no_save (prefix_rel task owner)).
#[local] Existing Instance prefix_rel_preorder.

Lemma pr_save_account a : keeps (prefix_rel task owner) (SaveAccount "default" a).
Proof. by apply prefix_save_account. Qed.
Hint Resolve pr_save_account fr_listAll fr_GetSetting : keeps.

Lemma pr_walk account wanted all levels f relative st : keeps PR (discover_walk account wanted all levels f relative st).
Proof. revert f relative st. induction levels as [|levels IH]; intros f relative st; simpl; keeps_run; apply IH. Qed.
Hint Resolve pr_walk : keeps.

Lemma pr_upsert i : keeps PR (on_db (UpsertCrossDriveItem task owner i)).
Proof. apply keeps_on_db, (keeps_operation task owner Howner (IUpsert task owner i)). done. Qed.
Hint Resolve pr_upsert : keeps.

Lemma pr_discover account target roots selections all : keeps PR (discoverQuarkImport task owner account target roots selections all).
Proof.
  unfold discoverQuarkImport. apply keeps_bind; [apply _|auto with keeps|intros listed].
  apply keeps_bind; [apply _| |intros [found st]].
  { apply keeps_fold; [apply _|]. intros [found st] root _. destruct (bool_decide _); [|apply keeps_ret, _].
    apply keeps_bind; [apply _|apply pr_walk|]. intros. apply keeps_ret, _. }
  destruct (negb _); [apply keeps_throw, _|]. apply keeps_bind; [apply _| |intros _].
  - destruct (negb _); [|apply keeps_ret, _]. destruct (negb _); [apply keeps_throw, _|].
    destruct (find _ _); [apply keeps_throw, _|apply keeps_ret, _].
  - apply keeps_each; [apply _|]. intros. apply pr_upsert.
Qed.

Definition keyed (st : discovery) : Prop :=
  ∀ key i, di_items st !! key = Some i → key = fi_Name i +:+ nul_string +:+ pretty (fi_Size i).

Lemma visit_keyed wanted st f relative st' : keyed st → visit_file wanted false st f relative = Ok st' → keyed st'.
Proof.
  unfold visit_file. intros Hst Hv. repeat case_match; simplify_eq/=; try done. intros key i.
  simpl. intros [[<- <-]|[_ Hi]]%lookup_insert_Some; [done|by apply Hst].
Qed.

Lemma walk_keyed account wanted levels f relative st w :
  keyed st → wp (discover_walk account wanted false levels f relative st) w (λ y _, ∀ st', y = Ok st' → keyed st').
Proof.
  revert f relative st w. induction levels as [|levels IH]; intros f relative st w Hst; simpl; [by apply wp_throw|].
  apply wp_bind, wp_lift. destruct (visit_file _ _ _ _ _) as [st1|] eqn:Hv; [|done]. apply visit_keyed in Hv; [|done].
  destruct (negb _); [apply wp_ret; by intros st' [= <-]|]. apply wp_bind, wp_intro. intros [children|e] w1 _; [|done].
  apply fold_value; [done|]. intros s x w2 Hs. by apply IH.
Qed.

Lemma wanted_lookup (m : gmap string ShareSelection) selections s :
  s ∈ selections → is_Some (foldl (λ m s, <[name_key s := s]> m) m selections !! name_key s).
Proof.
  revert m. induction selections as [|x l IH]; intros m; [by intros ?%not_elem_of_nil|]. intros [->|Hs]%elem_of_cons; simpl; [|by apply IH].
  assert (∀ m : gmap string ShareSelection, is_Some (m !! name_key x) → is_Some (foldl (λ m s, <[name_key s := s]> m) m l !! name_key x)) as Hk.
  { clear. induction l as [|y l IH]; intros m Hm; simpl; [done|]. apply IH. destruct (decide (name_key y = name_key x)) as [->|Hne];
      [by rewrite lookup_insert_eq|by rewrite lookup_insert_ne]. }
  apply Hk. by rewrite lookup_insert_eq.
Qed.

Lemma discover_spec account target roots selections w :
  import_inv (pi_db (w_db w)) →
  wp (discoverQuarkImport task owner account target roots selections false) w (λ y w', is_ok y = true →
    ∀ s, s ∈ selections → has_row task (sel_Name s) (sel_Size s) (pi_db (w_db w'))).
Proof.
  intros Q. unfold discoverQuarkImport. apply wp_bind. eapply wp_mono; [by apply (fr_listAll (prefix_rel task owner)); auto with keeps|].
  intros [listed|e] w1 [_ [Hs1 _]]; [|done]. apply wp_bind.
  eapply wp_mono; [apply wp_and; [refine (keeps_fold PR _ _ _ _ w1)|
    apply (fold_value (λ p : nat * discovery, keyed p.2)); [by intros key i|]]|].
  { intros [found st] root _. destruct (bool_decide _); [|apply keeps_ret, _].
    apply keeps_bind; [apply _|apply pr_walk|]. intros. apply keeps_ret, _. }
  { intros [found st] root w2 Hst. cbn [negb]. destruct (bool_decide _); [|apply wp_ret; by intros ? [= <-]].
    apply wp_bind. eapply wp_mono; [by apply walk_keyed|]. intros [st'|e] w3 Hk; [|done]. apply wp_ret. intros ? [= <-]. by apply Hk. }
  intros [[found st]|e] w2 [[_ [Hs2 _]] Hkeyed]; [|done]. specialize (Hkeyed _ eq_refl). simpl in Hkeyed.
  destruct (negb _); [by apply wp_throw|]. simpl. apply wp_bind. destruct (negb _); [by apply wp_throw|].
  destruct (find _ _) eqn:Hfind; [by apply wp_throw|]. apply wp_ret.
  assert (import_inv (pi_db (w_db w2))) as Q2 by (by apply Hs2, Hs1).
  eapply wp_mono.
  { apply (each_spec PR (λ s, import_inv (pi_db s)) (λ kv s, has_row task (fi_Name kv.2) (fi_Size kv.2) (pi_db s))).
    - intros x. apply pr_upsert.
    - intros s s' Qs [_ [Hss _]]. by apply Hss.
    - intros x w3. apply wp_on_db. eapply wp_mono; [apply upsert_row|]. done.
    - intros x s s' Qs [_ Hr]. by eapply has_row_kept.
    - done. }
  intros y w3 Hall Hok s Hs. specialize (Hall Hok).
  destruct (wanted_lookup ∅ selections s Hs) as [s' Hw]. apply elem_of_map_to_list in Hw.
  rewrite <-(range_perm (map_to_list (wanted_map selections))) in Hw. apply list_elem_of_In in Hw.
  pose proof (find_none _ _ Hfind _ Hw) as Hne. apply bool_decide_eq_false in Hne. simpl in Hne.
  destruct (di_items st !! name_key s) as [i|] eqn:Hi; [|done].
  destruct (name_size_inj _ _ _ _ (Hkeyed _ _ Hi)) as [-> ->].
  apply (Hall (name_key s, i)). rewrite range_perm. by apply elem_of_map_to_list.
Qed.

End Discovery.

(** ** The whole run *)

Lemma select_unique {R} P le (t : gmap Z R) : NoDup (select P le t).*1.
Proof.
  unfold select. rewrite merge_sort_Permutation. unfold rows_where.
  apply (sublist_NoDup _ (map_to_list t).*1); [apply NoDup_fst_map_to_list|]. apply fmap_sublist, sublist_filter.
Qed.

Lemma listed_ids (l : list (Z * CrossDriveItem.t)) : item_id <$> imap pair l = l.*1.
Proof. rewrite fmap_imap. rewrite <-(imap_const fst l). by apply imap_ext. Qed.

Section Run.
Context `{Env} `{Ctx} `{Sleep} `{Remote} `{Urls} `{Sha256} `{Hash} `{Credential} `{Host} `{Ranged} `{Ranging} `{CidMap}.
Context (task owner : string).
Hypothesis Howner : owner ≠ "".
Implicit Types w : World Pipe.
#[local] Existing Instance prefix_rel_preorder.
Abbreviation PR := (pipe_rel no_save (prefix_rel task owner)).
Abbreviation PT := (pipe_rel (λ _, True) (prefix_rel task owner)).

Lemma pr_pt s s' : PR s s' → PT s s'.
Proof. intros [Hg Hr]. split; [by eapply grows_weaken|done]. Qed.

Lemma pt_of_pr {A} (m : M Pipe A) : keeps PR m → keeps PT m.
Proof. apply keeps_weaken, pr_pt. Qed.

Lemma pr_operation op : disowns task owner op = false → keeps PR (on_db (run_import op)).
Proof. intros Hd. by apply keeps_on_db, keeps_operation. Qed.

Lemma pr_phase phase cid current err : keeps PR (on_db (UpdateCrossDriveImport task owner phase cid current err)).
Proof. by apply (pr_operation (IUpdate task owner phase cid current err)). Qed.
Lemma pr_roots roots : keeps PR (on_db (SaveCrossDriveRoots task owner roots)).
Proof. by apply (pr_operation (IRoots task owner roots)). Qed.
Lemma pr_finalize : keeps PR (on_db (FinalizeCrossDriveDiscovery task owner)).
Proof. by apply (pr_operation (IFinalize task owner)). Qed.
Lemma pr_progress p : keeps PR (on_db (UpdateAsyncTaskProgress task p)).
Proof. by apply (pr_operation (IQueue (QProgress task p))). Qed.
Lemma pr_get_import t : keeps PR (on_db (GetCrossDriveImport t)).
Proof. unfold GetCrossDriveImport. keeps_run. Qed.
Lemma pr_get_task t : keeps PR (on_db (GetAsyncTask t)).
Proof. unfold GetAsyncTask. keeps_run. Qed.
Lemma pr_list t : keeps PR (on_db (ListCrossDriveItems t)).
Proof. unfold ListCrossDriveItems. keeps_run. Qed.
Lemma pr_save_default a : keeps (prefix_rel task owner) (SaveAccount "default" a).
Proof. by apply prefix_save_account. Qed.
Hint Resolve pr_phase pr_roots pr_finalize pr_progress pr_get_import pr_get_task pr_list pr_save_default fr_GetSetting fr_listAll
  fr_getAccountForProvider fr_mount fr_local fr_resolveImport : keeps.

Lemma pr_prior rq state : keeps PR (prior_roots rq task owner state).
Proof. unfold prior_roots. keeps_run. Qed.

Lemma pr_resolve state : keeps PR (resolveAutofillDestination state).
Proof. unfold resolveAutofillDestination. keeps_run. Qed.
Hint Resolve pr_resolve : keeps.

Lemma pr_choose rq state : keeps PR (choose_destination rq state).
Proof. unfold choose_destination. keeps_run. Qed.

Lemma pt_save rq attempts state : keeps PT (save_share rq task owner attempts state).
Proof.
  unfold save_share. destruct (negb _); [apply keeps_ret, _|]. destruct (Z.ltb _ _); [apply keeps_throw, _|].
  apply keeps_bind; [apply _|apply pt_of_pr, pr_phase|intros _]. apply keeps_bind; [apply _| |intros saved].
  - destruct (bool_decide _).
    + destruct (negb _); [apply keeps_throw, _|]. destruct (negb _); [apply keeps_throw, _|].
      by apply keeps_SaveProviderShareSelections; [apply _|auto with keeps|..].
    + by apply keeps_SaveProviderShare; [apply _|auto with keeps|..].
  - apply keeps_bind; [apply _|apply keeps_wrap, pt_of_pr, pr_roots|intros _].
    apply keeps_bind; [apply _|apply pt_of_pr, pr_progress|]. intros. apply keeps_ret, _.
Qed.

(** *** From the loop on *)

Abbreviation SR := (pipe_rel no_save (items_same task owner)).
Lemma sr_save_account a : keeps (items_same task owner) (SaveAccount "default" a).
Proof. apply keeps_save_account. Qed.
Lemma sr_ingest uuid5 : keeps SR (on_db (enqueueMediaIngest uuid5 task)).
Proof. apply keeps_on_db, keeps_ingest. Qed.
Hint Resolve sr_save_account sr_ingest : keeps.

Lemma sr_finish uuid5 rq bound state cid count total : keeps SR (finish_import uuid5 rq task bound state cid count total).
Proof. unfold finish_import, finalizeAutofillImport, resolveAutofillDestination. keeps_run. Qed.

(** Every file of the import is verified: 115 listed its object between the two states. *)
Definition all_verified (s s' : Pipe) : Prop :=
  ∀ k x, items (pi_db s') !! k = Some x → CrossDriveItem.TaskID x = task → row_verified s s' k.

Lemma verified_same P s s1 s2 : all_verified s s1 → grows P s1 s2 → items (pi_db s2) = items (pi_db s1) → all_verified s s2.
Proof. intros Ha Hg Hi k x Hx Ht. rewrite Hi in Hx. eapply verified_l; [by eapply Ha|exact Hg|by rewrite Hi]. Qed.

Lemma items_loop_spec p total count l w verified :
  l = select (of_import task) by_path (items (pi_db (w_db w))) →
  wp (m_fold (import_item task owner p total count) (imap pair l) verified) w (λ y w',
    is_ok y = true → run_owned task owner (pi_db (w_db w)) = true →
    grows no_save (w_db w) (w_db w') ∧ all_verified (w_db w) (w_db w') ∧ run_owned task owner (pi_db (w_db w')) = true ∧
    ∀ name size, has_row task name size (pi_db (w_db w)) → has_row task name size (pi_db (w_db w'))).
Proof.
  intros ->. eapply wp_mono; [apply loop_spec; rewrite listed_ids; apply select_unique|].
  intros y w1 [[Hg (Ho & Hn & Hf)] Hv] Hok Hown. split; [done|]. split_and!.
  - intros k x' Hx' Ht. specialize (Hf k). rewrite Hx' in Hf.
    destruct (items (pi_db (w_db w)) !! k) as [x|] eqn:Hx; [|by inversion Hf]. assert (item_kept x x') as Hk by (by inversion Hf).
    assert (Forall (as_listed task (pi_db (w_db w))) (imap pair (select (of_import task) by_path (items (pi_db (w_db w)))))) as Hl.
    { apply Forall_forall. intros [index [n z]] Hin. apply elem_of_lookup_imap in Hin as (j & [n' z'] & [= -> -> ->] & Hj).
      apply list_elem_of_lookup_2, elem_of_select in Hj as [Hj HP]. split; [done|]. unfold of_import in HP. by bools. }
    specialize (Hv Hok Hown Hl). rewrite Forall_forall in Hv.
    assert ((k, x) ∈ select (of_import task) by_path (items (pi_db (w_db w)))) as Hin.
    { apply elem_of_select. split; [done|]. unfold of_import. apply bool_decide_eq_true. destruct Hk as [<- _]. done. }
    apply list_elem_of_lookup in Hin as [j Hj]. apply (Hv (j, (k, x))).
    apply elem_of_lookup_imap. by exists j, (k, x).
  - auto.
  - intros name size (k & x & Hx & Ht & Hname & Hsize). specialize (Hf k). rewrite Hx in Hf.
    destruct (items (pi_db (w_db w1)) !! k) as [x'|] eqn:Hx'; [|by inversion Hf]. assert (item_kept x x') as Hk by (by inversion Hf).
    exists k, x'. split; [done|]. destruct Hk as (-> & _ & _ & _ & -> & ->). done.
Qed.

(** *** The chain of steps *)

(** A run that succeeds from a state that satisfies [pre] leaves every file verified and
    a file for each of [rows]. *)
Definition rows_in (rows : list ShareSelection) (s : Pipe) : Prop :=
  ∀ x, x ∈ rows → has_row task (sel_Name x) (sel_Size x) (pi_db s).
Definition run_post (pre : Pipe → Prop) (rows : list ShareSelection) (s : Pipe) (ok : bool) (s' : Pipe) : Prop :=
  ok = true → import_inv (pi_db s) → owner_is task owner (pi_db s) → pre s → all_verified s s' ∧ rows_in rows s'.
Definition kept_by_run (pre : Pipe → Prop) : Prop := ∀ s s', import_inv (pi_db s) → PT s s' → pre s → pre s'.

Lemma all_verified_r P s s1 s2 : grows P s s1 → all_verified s1 s2 → all_verified s s2.
Proof. intros Hg Ha k x Hx Ht. eapply verified_r; [exact Hg|by eapply Ha]. Qed.

Lemma run_step {A B} pre rows (m : M Pipe A) (f : A → M Pipe B) w :
  kept_by_run pre → keeps PT m → (∀ a w1, wp (f a) w1 (λ y w', run_post pre rows (w_db w1) (is_ok y) (w_db w'))) →
  wp (m ≫= f) w (λ y w', run_post pre rows (w_db w) (is_ok y) (w_db w')).
Proof.
  intros Hpre Hm Hf. apply wp_bind. eapply wp_mono; [apply Hm|]. intros [a|e] w1 HPT; [|done].
  eapply wp_mono; [apply Hf|]. intros y w2 Hy Hok Q Ho Hp. pose proof HPT as [Hg [Hs Hown]].
  destruct Hy as [Hv Hr]; [done|by apply Hs|by apply Hown|by eapply Hpre|]. split; [by eapply all_verified_r|done].
Qed.

Lemma kept_true : kept_by_run (λ _, True).
Proof. done. Qed.
Lemma kept_rows rows : kept_by_run (rows_in rows).
Proof. intros s s' Q [_ Hr] Hrows x Hx. eapply has_row_kept; [exact Q|exact Hr|by apply Hrows]. Qed.
Hint Resolve kept_true kept_rows : keeps.

Lemma owner_run_owned d : owner_is task owner d → run_owned task owner d = true.
Proof. intros (i & Hi & Ho). unfold run_owned, owned_by, null_eq. rewrite Hi, Ho. by apply bool_decide_eq_true. Qed.

(** From the listing of the items to the end. *)
Lemma last_stage_spec (uuid5 : string → string) rq nas state cid directory rows w :
  wp (items ← on_db (ListCrossDriveItems task);
      stored ← on_db (GetCrossDriveImport task);
      let total := CrossDriveImport.TotalBytes stored in
      let p := mkPlan nas (is_bound state) (rq_quarkAccount rq) (rq_c115Account rq) cid directory in
      _ ← m_fold (import_item task owner p total (length items)) (imap pair items) (CrossDriveImport.CompletedBytes stored);
      _ ← on_db (UpdateCrossDriveImport task owner "verified" cid "" "");
      finish_import uuid5 rq task (is_bound state) stored cid (length items) total) w
    (λ y w', run_post (rows_in rows) rows (w_db w) (is_ok y) (w_db w')).
Proof.
  apply wp_bind, wp_on_db. unfold ListCrossDriveItems. apply wp_query; [done|]. intros l n [= <-]. cbn [w_db].
  apply wp_bind, wp_on_db. unfold GetCrossDriveImport. apply wp_query; [done|]. intros stored m _. cbn [w_db]. cbv zeta.
  set (w1 := mkWorld _ _). assert (w_db w1 = w_db w) as Hw1 by (unfold w1; simpl; by destruct (w_db w)).
  apply wp_bind. eapply wp_mono; [apply (items_loop_spec _ _ _ _ w1); by rewrite Hw1|]. intros [verified|e] w2 Hl; [|done].
  eapply wp_mono with (P := λ _ w', SR (w_db w2) (w_db w')).
  { refine ((_ : keeps SR _) w2). apply keeps_bind; [apply _|apply keeps_on_db, keeps_phase|intros _]. apply sr_finish. }
  intros y w3 [Hg3 [_ Hi3]] _ Q Ho Hrows. rewrite Hw1 in Hl.
  destruct (Hl eq_refl (owner_run_owned _ Ho)) as (Hg2 & Hv & _ & Hr). split; [by eapply verified_same|].
  intros x Hx. destruct (Hr _ _ (Hrows x Hx)) as (k & z & Hz & Hrest). exists k, z. by rewrite Hi3.
Qed.

Lemma owned_run_spec nas uuid5 rq attempts directory w :
  let rows := if rq_all rq then [] else rq_selections rq in
  wp (owned_run nas uuid5 rq task owner attempts directory) w (λ y w', run_post (λ _, True) rows (w_db w) (is_ok y) (w_db w')).
Proof.
  intros rows. unfold owned_run. apply run_step; [apply kept_true|apply pt_of_pr, pr_get_import|intros state w1].
  destruct (CrossDriveImport.CancelRequested state); [by apply wp_throw|].
  apply run_step; [apply kept_true|apply pt_of_pr, pr_prior|intros state1 w2].
  apply run_step; [apply kept_true|apply pt_save|intros state2 w3].
  apply run_step; [apply kept_true|apply pt_of_pr, pr_phase|intros _ w4].
  apply wp_bind. eapply wp_mono with (P := λ y w', PR (w_db w4) (w_db w') ∧ (import_inv (pi_db (w_db w4)) → is_ok y = true → rows_in rows (w_db w'))).
  { apply wp_and; [by apply pr_discover|]. apply wp_intro. intros y w5 Hd Q Hok. unfold rows.
    destruct (rq_all rq) eqn:Hall; [by intros x ?%not_elem_of_nil|]. intros x Hx.
    pose proof (discover_spec task owner Howner (rq_quarkAccount rq) (rq_quarkTarget rq) (CrossDriveImport.SavedRootIDs state2) (rq_selections rq) w4 Q) as Hs.
    exact (wp_elim _ _ _ _ _ Hs Hd Hok x Hx). }
  intros [[]|e] w5 [HPR Hrows]; [|done].
  eapply wp_mono with (P := λ y w', run_post (rows_in rows) rows (w_db w5) (is_ok y) (w_db w')).
  - apply run_step; [apply kept_rows|apply pt_of_pr, pr_finalize|intros _ w6].
    apply run_step; [apply kept_rows|apply pt_of_pr, pr_progress|intros _ w7].
    apply run_step; [apply kept_rows|apply pt_of_pr, pr_choose|intros cid w8].
    apply run_step; [apply kept_rows|apply pt_of_pr, pr_phase|intros _ w9]. apply last_stage_spec.
  - intros y w6 Hy Hok Q Ho _. destruct HPR as [Hg [Hs Hown]]. destruct (Hy Hok) as [Hv Hr]; [by apply Hs|by apply Hown|by apply Hrows|].
    split; [by eapply all_verified_r|done].
Qed.

(** *** The run and its claim *)

Lemma pr_prevalidate nas rq : keeps PR (prevalidate nas rq).
Proof. unfold prevalidate, check_parent. keeps_run. Qed.

Lemma pr_checkNAS nas state : keeps PR (checkNASDestination nas task state).
Proof. apply fr_checkNAS; auto with keeps. Qed.

Lemma release_items : keeps (pipe_rel no_save (λ d d', items d' = items d)) (try_ (on_db (ReleaseCrossDriveImport task owner))).
Proof.
  assert (PreOrder (λ d d' : Database, items d' = items d)) as HP by (split; [by intros d|]; intros d1 d2 d3; congruence).
  apply keeps_try; [done|]. apply keeps_on_db. unfold ReleaseCrossDriveImport. keeps_run. apply keeps_exec; [done|]. done.
Qed.

(** Claiming, running and releasing the import. *)
Lemma claimed_spec nas uuid5 rq attempts directory rows w :
  rows = (if rq_all rq then [] else rq_selections rq) →
  wp (_ ← on_db (ClaimCrossDriveImport task owner);
      r ← attempt (owned_run nas uuid5 rq task owner attempts directory);
      _ ← try_ (on_db (ReleaseCrossDriveImport task owner));
      lift r) w
    (λ y w', is_ok y = true → import_inv (pi_db (w_db w)) → all_verified (w_db w) (w_db w') ∧ rows_in rows (w_db w')).
Proof.
  intros ->. apply wp_bind. eapply wp_mono.
  { apply wp_and with (Q := λ y w1, match y with Ok _ => owner_is task owner (pi_db (w_db w1)) | Err _ => True end).
    - by apply (pr_operation (IClaim task owner)).
    - apply wp_on_db. eapply wp_mono; [apply claim_effect|]. by intros [[]|e] v; simpl; [intros [? _]|]. }
  intros [[]|e] w1 [[Hg1 [Hs1 _]] Hown]; [|done].
  apply wp_bind, wp_attempt. eapply wp_mono; [apply owned_run_spec|]. intros y w2 Hy. apply wp_bind.
  eapply wp_mono; [apply release_items|]. intros [[]|e] w3 [Hg3 Hi3]; [|done]. apply wp_lift. intros Hok Q.
  destruct (Hy Hok) as [Hv Hr]; [by apply Hs1|done|done|]. split.
  - eapply all_verified_r; [exact Hg1|]. by eapply verified_same.
  - intros x Hx. destruct (Hr x Hx) as (k & z & Hz & Hrest). exists k, z. by rewrite Hi3.
Qed.

End Run.

(** C1: A run that succeeds has moved everything: every file of the import is verified, and
    for each 115 listed, during the run, an object with its name, its size, the digest the
    file has and the ID recorded; and unless the whole share was asked for, every selected
    file is among them, with its name and size.  This holds whatever the drives answer,
    whatever fails on the way, with and without the NAS worker. *)
Theorem import_verified `{Env} `{Ctx} `{Sleep} `{Remote} `{Urls} `{Sha256} `{Hash} `{Credential} `{Host} `{Ranged} `{Ranging} `{CidMap}
    nas owner uuid5 taskID task w x w' :
  owner ≠ "" → import_inv (pi_db (w_db w)) →
  runQuarkTo115Import nas owner uuid5 taskID task w = (Ok x, w') →
  (∀ k i, items (pi_db (w_db w')) !! k = Some i → CrossDriveItem.TaskID i = taskID →
     CrossDriveItem.State i = "verified" ∧ landed (w_db w) (w_db w') (CrossDriveItem.Name i) (CrossDriveItem.Size i)
       (CrossDriveItem.SHA1 i) (nstr (CrossDriveItem.DestinationID i))) ∧
  ∃ rq, parse_import (AsyncTask.Payload task) = Ok rq ∧ (rq_all rq = false → ∀ s, s ∈ rq_selections rq →
     ∃ k i, items (pi_db (w_db w')) !! k = Some i ∧ CrossDriveItem.TaskID i = taskID ∧
       CrossDriveItem.Name i = sel_Name s ∧ CrossDriveItem.Size i = sel_Size s).
Proof.
  intros Howner Q Hrun. unfold runQuarkTo115Import in Hrun.
  destruct (parse_import _) as [rq|e] eqn:Hp; [|done].
  set (post := λ (y : res import_result) (w' : World Pipe), is_ok y = true →
    all_verified taskID (w_db w) (w_db w') ∧ rows_in taskID (if rq_all rq then [] else rq_selections rq) (w_db w')).
  cut (post (Ok x) w').
  { intros Hpost. destruct (Hpost eq_refl) as [Hv Hr]. split.
    - intros k i Hi Ht. destruct (Hv k i Hi Ht) as (i' & Hi' & Hstate & Hl). by simplify_eq.
    - exists rq. split; [done|]. intros Hall s Hs. rewrite Hall in Hr. by apply Hr. }
  refine (wp_elim _ _ post _ _ _ Hrun). clear Hrun x w'. pose proof (prefix_rel_preorder taskID owner) as HPO.
  apply wp_bind, wp_lift. apply wp_bind. eapply wp_mono; [by apply (pr_prevalidate taskID owner)|]. intros [[cid directory]|e] w1 HPR1; [|done].
  apply wp_bind. eapply wp_mono; [by apply (pr_checkNAS taskID owner)|]. intros [[]|e] w2 HPR2; [|done].
  apply wp_bind. eapply wp_mono; [by apply (pr_operation taskID owner Howner (ICreate taskID _))|]. intros [[]|e] w3 HPR3; [|done].
  assert (pipe_rel no_save (prefix_rel taskID owner) (w_db w) (w_db w3)) as [Hg [Hs _]] by (do 2 (etrans; [done|]); done).
  eapply wp_mono; [by eapply claimed_spec|]. intros y w4 Hy Hok. destruct (Hy Hok) as [Hv Hr]; [by apply Hs|].
  split; [by eapply all_verified_r|done].
Qed.

#[local] Existing Instances quiet calm exact_sleep sample_drives share_urls no_sha empty_digest no_credential roomy one_segment
  in_order no_cids.

Lemma import_verified_witness :
  ∃ i, items (pi_db (w_db import_run.2)) !! 1%Z = Some i ∧ CrossDriveItem.State i = "verified" ∧
    landed (w_db started) (w_db import_run.2) "a.mkv" 3 sample_digest "9".
Proof.
  destruct (import_verified false "run" (λ x, x) "t1" import_task started
    (mkImportResult "w" "/emby/_待整理" 1 3 "transfer_verified" (Some "media-ingest:t1")) import_run.2) as [Hall _].
  - discriminate.
  - exact started_inv.
  - exact import_run_ok.
  - destruct (items (pi_db (w_db import_run.2)) !! 1%Z) as [i|] eqn:Hi; [|vm_compute in Hi; discriminate Hi].
    exists i. split; [reflexivity|].
    assert ((CrossDriveItem.TaskID i, CrossDriveItem.Name i, CrossDriveItem.Size i, CrossDriveItem.SHA1 i,
             nstr (CrossDriveItem.DestinationID i)) = ("t1", "a.mkv", 3%Z, sample_digest, "9")) as Hrow.
    { assert ((λ i, (CrossDriveItem.TaskID i, CrossDriveItem.Name i, CrossDriveItem.Size i, CrossDriveItem.SHA1 i,
             nstr (CrossDriveItem.DestinationID i))) <$> items (pi_db (w_db import_run.2)) !! 1%Z
        = Some ("t1", "a.mkv", 3%Z, sample_digest, "9")) as H' by (vm_compute; reflexivity).
      rewrite Hi in H'. exact (f_equal (default ("", "", 0%Z, "", "")) H'). }
    injection Hrow as Ht Hn Hz Hs Hd. destruct (Hall 1%Z i Hi Ht) as [Hstate Hl]. split; [exact Hstate|].
    rewrite <-Hn, <-Hz, <-Hs, <-Hd. exact Hl.
Defined.
