(* ===== verification/SaveOnce.v ===== *)
(** How often and how an import saves the share ([Pipeline.v]): at most once in a run,
    never after a start that may have done it, and then exactly what was selected, into
    the target asked for. *)
From S2P Require Import Prelude GoStrings GoPath Sql Schema TaskStore TaskProofs ImportStore ImportProofs Accounts Protocol.
From S2P Require Import FileSys Checkpoint Download ImportCheckpoint Payload Queue QueueProofs Worker.
From S2P Require Import Remote Drive DriveProofs Destination DestinationProofs Nas Frames Episodes Pipeline ImportSample ImportRun.
From S2P Require Import PipelineProofs.
From Stdlib Require Import Ascii.

(** ** The saves of a run *)

Definition saves_in (l : history) : history := filter (λ a, is_save a = true) l.

(** The saves asked between two states satisfy [Q]. *)
Definition saving (Q : history → Prop) (s s' : Pipe) : Prop := ∃ l, pi_log s' = pi_log s ++ l ∧ Q (saves_in l).

Lemma no_saves l : Forall no_save l → saves_in l = [].
Proof.
  induction 1 as [|a l Ha Hl IH]; [done|]. unfold saves_in in *. rewrite filter_cons, IH. unfold no_save in Ha. by rewrite Ha.
Qed.

Lemma grows_same P s s' : pi_log s' = pi_log s → grows P s s'.
Proof. intros Hl. exists []. by rewrite Hl, app_nil_r. Qed.

Lemma saving_none Q s s' : grows no_save s s' → Q [] → saving Q s s'.
Proof. intros (l & E & F) HQ. exists l. split; [done|]. by rewrite no_saves. Qed.

Lemma saving_after Q s s1 s2 : grows no_save s s1 → saving Q s1 s2 → saving Q s s2.
Proof.
  intros (l & E & F) (l' & E' & HQ). exists (l ++ l'). rewrite E', E, app_assoc. split; [done|].
  unfold saves_in in *. rewrite filter_app. fold (saves_in l). by rewrite no_saves.
Qed.

Lemma saving_before Q s s1 s2 : saving Q s s1 → grows no_save s1 s2 → saving Q s s2.
Proof.
  intros (l & E & HQ) (l' & E' & F). exists (l ++ l'). rewrite E', E, app_assoc. split; [done|].
  unfold saves_in in *. rewrite filter_app. fold (saves_in l'). by rewrite (no_saves l'), app_nil_r.
Qed.

Lemma saving_weaken (Q Q' : history → Prop) s s' : (∀ l, Q l → Q' l) → saving Q s s' → saving Q' s s'.
Proof. intros HQ (l & E & Hl). exists l. auto. Qed.

Abbreviation NS := (pipe_rel no_save any_db).

Section Saving.
Context `{Env} `{Ctx} `{Sleep} `{Remote}.
Implicit Types w : World Pipe.

Lemma keeps_any_db {A} (m : M Database A) : keeps any_db m.
Proof. intros w. apply wp_intro. done. Qed.

Lemma saving_first {A B} Q (m : M Pipe A) (f : A → M Pipe B) w :
  keeps NS m → (∀ a w1, wp (f a) w1 (λ _ w', saving Q (w_db w1) (w_db w'))) → Q [] →
  wp (m ≫= f) w (λ _ w', saving Q (w_db w) (w_db w')).
Proof.
  intros Hm Hf HQ. apply wp_bind. eapply wp_mono; [apply Hm|]. intros [a|e] w1 [Hg _]; [|by apply saving_none].
  eapply wp_mono; [apply Hf|]. intros y w2 Hy. by eapply saving_after.
Qed.

Lemma saving_then {A B} Q (m : M Pipe A) (f : A → M Pipe B) w :
  wp m w (λ _ w', saving Q (w_db w) (w_db w')) → (∀ a, keeps NS (f a)) →
  wp (m ≫= f) w (λ _ w', saving Q (w_db w) (w_db w')).
Proof.
  intros Hm Hf. apply wp_bind. eapply wp_mono; [apply Hm|]. intros [a|e] w1 Hs; [|done].
  eapply wp_mono; [apply Hf|]. intros y w2 [Hg _]. by eapply saving_before.
Qed.

Lemma saving_kept {A} Q (m : M Pipe A) w : keeps NS m → Q [] → wp m w (λ _ w', saving Q (w_db w) (w_db w')).
Proof. intros Hm HQ. eapply wp_mono; [apply Hm|]. intros y w' [Hg _]. by apply saving_none. Qed.

End Saving.

(** ** One request *)

(** The save the request asks for. *)
Definition save_of (rq : import_request) (a : action) : Prop :=
  match a with
  | AShareSave account _ _ ids _ parent _ =>
      account = rq_quarkAccount rq ∧ parent = or_root (rq_quarkTarget rq) ∧ (rq_all rq = false → ids = sel_ID <$> rq_selections rq)
  | _ => False
  end.
Definition at_most_one (rq : import_request) (l : history) : Prop := length l ≤ 1 ∧ Forall (save_of rq) l.

Lemma at_most_none rq : at_most_one rq [].
Proof. split; [simpl; lia|done]. Qed.
#[export] Hint Resolve at_most_none : keeps.

Section One.
Context `{Env} `{Ctx} `{Sleep} `{Remote} `{Urls} `{Sha256}.
Implicit Types w : World Pipe.

Lemma ns_save_account r : keeps any_db (SaveAccount "default" r).
Proof. apply keeps_any_db. Qed.
Hint Resolve ns_save_account keeps_any_db : keeps.
Hint Resolve keeps_listDirectoryAll keeps_shareTokenWithTitle keeps_shareEntries keeps_snapshotShareTree keeps_waitTask
  keeps_await_roots keeps_getAccountForProvider : keeps.

(** What a save of [ids] by [a] into [parent] asks. *)
Definition this_save (a : account) (ids : list string) (parent : string) (l : history) : Prop :=
  l = [] ∨ ∃ share stoken tokens answer, l = [AShareSave a.1 share stoken ids tokens (or_root parent) answer].

Lemma save_entries_asks a shareID stoken parent entries w :
  wp (save_entries a shareID stoken parent entries) w
    (λ _ w', saving (this_save a (se_ID <$> entries) parent) (w_db w) (w_db w')).
Proof.
  unfold save_entries. apply saving_first; [apply keeps_wrap, keeps_listDirectoryAll; auto with keeps| |by left].
  intros before w1. apply saving_first; [apply keeps_lift, _| |by left]. intros tokens w2.
  apply saving_then.
  - apply wp_call. intros n. eexists. simpl. split; [done|]. right. by repeat eexists.
  - intros [taskID fids]. keeps_run.
Qed.
Hint Resolve save_entries_asks : keeps.

Lemma account_named id w : id ≠ "" →
  wp (getAccountForProvider "quark" id) w (λ y w', grows no_save (w_db w) (w_db w') ∧ ∀ a, y = Ok a → a.1 = id).
Proof.
  intros Hid. apply wp_and.
  { eapply wp_mono; [apply (keeps_getAccountForProvider no_save any_db); auto with keeps|]. by intros y w' [Hg _]. }
  unfold getAccountForProvider. apply wp_bind, wp_lift. destruct (normalizeProvider _); [|done]. rewrite bool_decide_false by done.
  apply wp_bind, wp_on_db, wp_intro. intros [l|e] w1 _; [|done]. destruct (find _ l) as [b|] eqn:Hf; [|by apply wp_throw].
  destruct (negb _); [by apply wp_throw|]. apply wp_ret. intros a' [= <-].
  apply find_some in Hf as [_ Hf]. by apply bool_decide_eq_true in Hf.
Qed.

Lemma selected_named entries selections selected :
  selectShareSelections entries selections = Ok selected → se_ID <$> selected = sel_ID <$> selections.
Proof.
  unfold selectShareSelections. intros (l & Hl & Hr)%res_bind_ok. apply res_bind_ok in Hr as ([] & _ & [= <-]).
  apply selectShareEntries_ok in Hl as (_ & _ & _ & _ & Hall).
  clear -Hall. remember (sel_ID <$> selections) as ids eqn:Hids. clear Hids.
  induction Hall as [|id e ids new (He & _) Hall IH]; csimpl; [done|]. by rewrite He, IH.
Qed.

Lemma save_selections_asks rq w :
  rq_quarkAccount rq ≠ "" →
  wp (SaveProviderShareSelections (rq_quarkAccount rq) (rq_url rq) (rq_password rq) (rq_quarkTarget rq) (rq_selections rq)) w
    (λ _ w', saving (at_most_one rq) (w_db w) (w_db w')).
Proof.
  intros Hid. unfold SaveProviderShareSelections. apply wp_bind. eapply wp_mono; [by apply account_named|].
  intros [a|e] w1 [Hg Ha]; [|by apply saving_none; auto with keeps]. specialize (Ha _ eq_refl).
  eapply wp_mono with (P := λ _ w', saving (at_most_one rq) (w_db w1) (w_db w')); [|intros; by eapply saving_after].
  unfold saveShareSelections. apply saving_first; [apply keeps_shareTokenWithTitle; auto with keeps| |auto with keeps].
  intros [[shareID stoken] title] w2. apply saving_first; [apply keeps_snapshotShareTree; auto with keeps| |auto with keeps].
  intros entries w3. apply wp_bind, wp_lift. destruct (selectShareSelections _ _) as [selected|e] eqn:Hsel;
    [|apply saving_none; [by reflexivity|auto with keeps]].
  apply saving_then; [|intros; apply keeps_ret, _]. eapply wp_mono; [apply save_entries_asks|]. intros y w4.
  apply saving_weaken. intros l [->|(share & st & tokens & answer & ->)]; [auto with keeps|]. split; [simpl; lia|].
  constructor; [|done]. split_and!; [done|done|]. intros _. by apply selected_named in Hsel.
Qed.

Lemma save_whole_asks rq w :
  rq_quarkAccount rq ≠ "" → rq_all rq = true →
  wp (SaveProviderShare (rq_quarkAccount rq) (rq_url rq) (rq_password rq) (rq_quarkTarget rq)) w
    (λ _ w', saving (at_most_one rq) (w_db w) (w_db w')).
Proof.
  intros Hid Hall. unfold SaveProviderShare. apply wp_bind. eapply wp_mono; [by apply account_named|].
  intros [a|e] w1 [Hg Ha]; [|by apply saving_none; auto with keeps]. specialize (Ha _ eq_refl).
  eapply wp_mono with (P := λ _ w', saving (at_most_one rq) (w_db w1) (w_db w')); [|intros; by eapply saving_after].
  unfold quark_SaveShare. apply saving_first; [apply keeps_shareTokenWithTitle; auto with keeps| |auto with keeps].
  intros [[shareID stoken] title] w2. apply saving_first; [apply keeps_shareEntries; auto with keeps| |auto with keeps].
  intros entries w3. destruct (bool_decide _); [apply saving_kept; [apply keeps_throw, _|auto with keeps]|].
  apply saving_then; [|intros; apply keeps_ret, _]. eapply wp_mono; [apply save_entries_asks|]. intros y w4.
  apply saving_weaken. intros l [->|(share & st & tokens & answer & ->)]; [auto with keeps|]. split; [simpl; lia|].
  constructor; [|done]. split_and!; [done|done|]. congruence.
Qed.

End One.

(** ** The rows of the imports before the save *)

Definition rows_kept (d d' : Database) : Prop := ∀ k i, imports d !! k = Some i → ∃ i', imports d' !! k = Some i' ∧
  CrossDriveImport.SavedRootIDs i' = CrossDriveImport.SavedRootIDs i ∧
  CrossDriveImport.SelectedSourceIDs i' = CrossDriveImport.SelectedSourceIDs i.

#[global] Instance rows_kept_preorder : PreOrder rows_kept.
Proof.
  split; [by intros d k i Hi; exists i|]. intros d1 d2 d3 H1 H2 k i (i1 & Hi1 & R1 & S1)%H1.
  apply H2 in Hi1 as (i2 & Hi2 & R2 & S2). exists i2. split_and!; congruence.
Qed.

Lemma rows_same d d' : imports d' = imports d → rows_kept d d'.
Proof. intros Hi k i Hk. exists i. by rewrite Hi. Qed.

Section Rows.
Context `{Env}.

Lemma rows_save_account id a : keeps rows_kept (SaveAccount id a).
Proof.
  unfold SaveAccount, put_account. keeps_run.
  - apply keeps_exec; [apply _|]. intros d. by apply rows_same.
  - apply keeps_stmt; [apply _|]. intros d u d' Hs. simpl in Hs. repeat case_match; simplify_eq/=; by apply rows_same.
Qed.

Lemma copy_items_imports task prior t d d' : copy_items task prior t d = Ok d' → imports d' = imports d.
Proof.
  unfold copy_items. generalize (map (λ kr, retried_item task t kr.2) (select (of_import prior) id_asc (items d))).
  intros l. revert d. induction l as [|x l IH]; intros d; simpl; [by intros [= <-]|].
  intros (d1 & Hi & Hr)%res_bind_ok. apply insert_item_tables in Hi as (Hi & _). rewrite <-Hi. by apply IH.
Qed.

Lemma copies_rows task prior t d d' : (d1 ← copy_items task prior t d; Ok (tt, d1)) = Ok (tt, d') → rows_kept d d'.
Proof. intros (d1 & Hc & [= <-])%res_bind_ok. by eapply rows_same, copy_items_imports. Qed.

Lemma rows_create task s : keeps rows_kept (CreateCrossDriveImport task s).
Proof.
  unfold CreateCrossDriveImport. destruct (_ || _); [apply keeps_throw, _|].
  apply keeps_bind; [apply _|destruct (Z.eqb _ _); auto with keeps|intros created].
  apply keeps_bind; [apply _|auto with keeps|intros updated]. intros v. apply wp_bind, wp_query; [intros; by reflexivity|].
  intros row n [= <-]. destruct (imports (w_db v) !! task) as [i|] eqn:Hrow.
  { destruct (negb _); [apply wp_throw|apply wp_ret]; by reflexivity. }
  apply wp_transaction; [intros; by reflexivity|]. intros m. apply wp_bind, wp_stmt; [intros; by reflexivity|].
  intros u d0 m' Hins. simpl in Hins. destruct (tasks (w_db v) !! task); [|done]. injection Hins as <- <-.
  match goal with |- wp _ (mkWorld _ ?D) _ => set (d := D) in *; assert (rows_kept (w_db v) d) as Hd end.
  { intros k i Hk. exists i. split; [|done]. unfold d. simpl. rewrite lookup_insert_ne; [done|]. congruence. }
  clearbody d. eapply wp_mono with (P := λ _ w', rows_kept d (w_db w')).
  - refine ((_ : keeps rows_kept _) (mkWorld _ d)). destruct (negb _); [|apply keeps_ret, _]. keeps_run.
    + apply keeps_stmt; [apply _|]. intros d1 [] d2. apply copies_rows.
    + apply keeps_stmt; [apply _|]. intros d1 [] d2 (d3 & Hc & [= <-])%res_bind_ok. by eapply rows_same, ImportRetry.copy_parts_imports.
  - intros [[b|b]|e] w' Hr; intros; simpl; [by etrans|by reflexivity..].
Qed.

Lemma rows_claim task owner : keeps rows_kept (ClaimCrossDriveImport task owner).
Proof.
  unfold ClaimCrossDriveImport. keeps_run. apply keeps_exec; [apply _|]. intros d k i Hk. unfold update_import. simpl.
  rewrite lookup_update_where, Hk. simpl. eexists. split; [done|]. by destruct (by_key _ _ _ _).
Qed.

(** Creating an import leaves a row with the selection asked for. *)
Lemma create_row task s v :
  wp (CreateCrossDriveImport task s) v (λ y v', is_ok y = true → CrossDriveImport.QuarkAccountID s ≠ "" ∧
    ∃ i, imports (w_db v') !! task = Some i ∧
      join nul_string (CrossDriveImport.SelectedSourceIDs i) = join nul_string (CrossDriveImport.SelectedSourceIDs s)).
Proof.
  unfold CreateCrossDriveImport. destruct (_ || _) eqn:Hblank; [by apply wp_throw|]. bools.
  apply wp_bind, wp_intro. intros [created|e] v1 _; [|done]. apply wp_bind, wp_now. intros updated n.
  apply wp_bind, wp_query; [done|]. intros row n' [= <-]. simpl. destruct (imports (w_db v1) !! task) as [i|] eqn:Hrow.
  { destruct (crossDriveBindingEqual i s) eqn:Hb; simpl; [|by apply wp_throw]. apply wp_ret. intros _. split; [done|].
    exists i. split; [done|]. unfold crossDriveBindingEqual in Hb. repeat case_match; try done. bools. done. }
  apply wp_transaction; [done|]. intros m. apply wp_bind, wp_stmt; [done|].
  intros u d0 m' Hins. simpl in Hins. destruct (tasks (w_db v1) !! task); [|done]. injection Hins as <- <-.
  match goal with |- wp _ (mkWorld _ ?D) _ => set (d := D) in *; assert (imports d !! task = Some (inserted_import created updated
    (if bool_decide (CrossDriveImport.Phase s = "") then "saving_share" else CrossDriveImport.Phase s) s)) as Hd end.
  { unfold d. simpl. by rewrite lookup_insert_eq. }
  clearbody d. destruct (negb _); [|apply wp_ret; intros k _; split; [done|by eexists]].
  apply wp_bind, wp_now. intros at_ k. apply wp_bind, wp_stmt; [done|]. intros [] d1 k1 (d2 & Hc & [= <-])%res_bind_ok.
  apply wp_bind, wp_stmt; [done|]. intros [] d3 k2 (d4 & Hp & [= <-])%res_bind_ok. apply wp_ret. intros k3 _. split; [done|].
  simpl in *. eexists. rewrite (ImportRetry.copy_parts_imports _ _ _ _ Hp), (copy_items_imports _ _ _ _ _ Hc). done.
Qed.

End Rows.

(** ** The run *)

Section Run.
Context `{Env} `{Ctx} `{Sleep} `{Remote} `{Urls} `{Sha256} `{Hash} `{Credential} `{Host} `{Ranged} `{Ranging} `{CidMap}.
Context (task owner : string).
Hypothesis Howner : owner ≠ "".
Implicit Types w : World Pipe.

Definition has_roots (s : CrossDriveImport.t) : Prop := CrossDriveImport.SavedRootIDs s ≠ [].

(** The database says the share was saved already: by this import, or by the one it
    retries. *)
Definition saved_before (prior : string) (d : Database) : Prop :=
  (∃ i, imports d !! task = Some i ∧ has_roots i) ∨ prior ≠ "" ∧ is_Some (imports d !! prior).

Lemma saved_before_kept prior d d' : rows_kept d d' → saved_before prior d → saved_before prior d'.
Proof.
  intros Hk [(i & Hi & Hr)|[Hp [i Hi]]].
  - left. apply Hk in Hi as (i' & Hi' & Hr' & _). exists i'. unfold has_roots in *. by rewrite Hr'.
  - right. apply Hk in Hi as (i' & Hi' & _). split; [done|by eexists].
Qed.

Lemma ns_of {RD A} (m : M Pipe A) : keeps (pipe_rel no_save RD) m → keeps NS m.
Proof. apply keeps_weaken. by intros s s' [Hg _]. Qed.

(** The import with the roots it takes over. *)
Lemma prior_roots_spec rq state w :
  wp (prior_roots rq task owner state) w (λ y w', ∀ state', y = Ok state' →
    CrossDriveImport.SelectedSourceIDs state' = CrossDriveImport.SelectedSourceIDs state ∧
    (has_roots state ∨ rq_prior rq ≠ "" ∧ is_Some (imports (pi_db (w_db w)) !! rq_prior rq) → has_roots state')).
Proof.
  unfold prior_roots. destruct (_ && _) eqn:Htake; cbn [negb].
  2: { apply wp_ret. intros state' [= <-]. split; [done|]. intros [Hr|[Hp _]]; [done|]. unfold has_roots.
       intros Hnil. rewrite Hnil in Htake. by rewrite bool_decide_false in Htake. }
  apply andb_true_iff in Htake as [Hp Hnil]. bools. apply length_zero_iff_nil in Hnil.
  apply wp_bind, wp_attempt, wp_on_db. unfold GetCrossDriveImport. apply wp_query.
  { intros e n [(k & m & Hf & ->)|Hf]; simpl; [by apply wp_throw|]. simpl in Hf.
    destruct (imports (pi_db (w_db w)) !! rq_prior rq) as [i|] eqn:Hi; [done|]. injection Hf as <-.
    apply wp_ret. intros state' [= <-]. split; [done|]. by intros [Hr|[_ [? Hx]]]. }
  intros prior n Hprior. simpl in Hprior. destruct (imports (pi_db (w_db w)) !! rq_prior rq) as [i|]; [|done]. injection Hprior as <-.
  destruct (negb _); [by apply wp_throw|]. destruct (bool_decide _) eqn:Hempty; [by apply wp_throw|]. bools.
  apply wp_bind, wp_intro. intros [pt|e] w1 _; [|done]. apply wp_bind, wp_intro. intros [[]|e] w2 _; [|done].
  apply wp_bind, wp_intro. intros [[]|e] w3 _; [|done]. apply wp_bind, wp_intro. intros [[]|e] w4 _; [|done].
  apply wp_ret. intros state' [= <-]. split; [done|]. intros _. unfold has_roots. simpl. intros Hz. by rewrite Hz in Hempty.
Qed.

(** Saving the share: at most once, and not at all when there are roots or the run is
    not the first. *)
Lemma save_share_asks (known : Prop) rq attempts state w :
  rq_quarkAccount rq ≠ "" → (rq_all rq = false → CrossDriveImport.SelectedSourceIDs state ≠ []) → (known → has_roots state) →
  wp (save_share rq task owner attempts state) w
    (λ _ w', saving (λ l, at_most_one rq l ∧ ((0 < attempts)%Z ∨ known → l = [])) (w_db w) (w_db w')).
Proof.
  intros Hid Hsel Hknown. unfold save_share. destruct (negb _) eqn:Hroots.
  { apply saving_kept; [apply keeps_ret, _|]. by split; [auto with keeps|]. }
  destruct (Z.ltb 0 attempts) eqn:Ha; [apply saving_kept; [apply keeps_throw, _|]; by split; [auto with keeps|]|].
  bools. apply length_zero_iff_nil in Hroots.
  apply saving_first; [apply keeps_on_db, keeps_any_db| |by split; [auto with keeps|]]. intros _ w1.
  apply saving_then.
  - eapply wp_mono with (P := λ _ w', saving (at_most_one rq) (w_db w1) (w_db w')).
    + destruct (bool_decide _) eqn:Hlen; bools.
      * destruct (negb _); [apply saving_kept; [apply keeps_throw, _|auto with keeps]|].
        destruct (negb _); [apply saving_kept; [apply keeps_throw, _|auto with keeps]|]. by apply save_selections_asks.
      * apply save_whole_asks; [done|]. destruct (rq_all rq); [done|]. exfalso. apply Hsel; [done|].
        apply length_zero_iff_nil. lia.
    + intros y w2. apply saving_weaken. intros l Hl. split; [done|]. intros [Hc|Hc]; [lia|]. by apply Hknown in Hc.
  - intros saved. keeps_run; apply keeps_on_db, keeps_any_db.
Qed.

(** The loop and what follows it. *)
Lemma ns_after (uuid5 : string → string) nas rq state cid directory :
  keeps NS (_ ← on_db (UpdateCrossDriveImport task owner "downloading" cid "" "");
      items ← on_db (ListCrossDriveItems task);
      stored ← on_db (GetCrossDriveImport task);
      let total := CrossDriveImport.TotalBytes stored in
      let p := mkPlan nas (is_bound state) (rq_quarkAccount rq) (rq_c115Account rq) cid directory in
      _ ← m_fold (import_item task owner p total (length items)) (imap pair items) (CrossDriveImport.CompletedBytes stored);
      _ ← on_db (UpdateCrossDriveImport task owner "verified" cid "" "");
      finish_import uuid5 rq task (is_bound state) stored cid (length items) total).
Proof.
  apply keeps_bind; [apply _|apply keeps_on_db, keeps_any_db|intros _]. intros w. apply wp_bind, wp_on_db.
  unfold ListCrossDriveItems. apply wp_query; [intros; split; [by apply grows_same|done]|].
  intros l n [= <-]. simpl.
  match goal with |- wp _ ?W _ => set (w1 := W); assert (grows no_save (w_db w) (w_db w1)) as Hg1 by (by apply grows_same) end.
  clearbody w1. eapply wp_mono with (P := λ _ w', NS (w_db w1) (w_db w')); [|intros y w' [Hg _]; split; [by etrans|done]].
  refine ((_ : keeps NS _) w1). apply keeps_bind; [apply _|apply keeps_on_db, keeps_any_db|intros stored]. cbv zeta.
  apply keeps_bind; [apply _| |intros _].
  - intros w2. eapply wp_mono; [apply loop_spec; rewrite listed_ids; apply select_unique|]. by intros y w3 [[Hg _] _].
  - apply keeps_bind; [apply _|apply keeps_on_db, keeps_any_db|intros _]. by eapply ns_of, (sr_finish task owner).
Qed.

Lemma owned_run_asks nas uuid5 rq attempts directory w :
  rq_quarkAccount rq ≠ "" →
  (rq_all rq = false → ∃ i, imports (pi_db (w_db w)) !! task = Some i ∧ CrossDriveImport.SelectedSourceIDs i ≠ []) →
  wp (owned_run nas uuid5 rq task owner attempts directory) w (λ _ w',
    saving (λ l, at_most_one rq l ∧ ((0 < attempts)%Z ∨ saved_before (rq_prior rq) (pi_db (w_db w)) → l = [])) (w_db w) (w_db w')).
Proof.
  intros Hid Hsel. unfold owned_run.
  assert (∀ known : Prop, at_most_one rq [] ∧ ((0 < attempts)%Z ∨ known → @nil action = [])) as Hnone by (by split; [auto with keeps|]).
  apply wp_bind, wp_on_db. unfold GetCrossDriveImport. apply wp_query.
  { intros e n _. apply saving_none; [by apply grows_same|done]. }
  intros state n Hstate. simpl in *. destruct (imports (pi_db (w_db w)) !! task) as [i|] eqn:Hi; [|done]. injection Hstate as <-.
  match goal with |- wp _ ?W _ => set (w1 := W); assert (pi_db (w_db w1) = pi_db (w_db w)) as Hdb by done;
    assert (grows no_save (w_db w) (w_db w1)) as Hg1 by (by apply grows_same) end.
  clearbody w1. destruct (CrossDriveImport.CancelRequested i); [apply wp_throw; by apply saving_none|].
  apply wp_bind. eapply wp_mono; [apply wp_and; [apply (pr_prior task owner Howner)|apply prior_roots_spec]|].
  intros [state|e] w2 [[Hg2 _] Hprior]; [|apply saving_none; [by etrans|done]].
  destruct (Hprior _ eq_refl) as [Hselected Hroots]. rewrite Hdb in Hroots.
  eapply wp_mono with (P := λ _ w', saving (λ l, at_most_one rq l ∧ ((0 < attempts)%Z ∨ saved_before (rq_prior rq) (pi_db (w_db w)) → l = []))
    (w_db w2) (w_db w')); [|intros y w' Hs; do 2 (eapply saving_after; [done|]); done].
  apply saving_then.
  - apply save_share_asks; [done|intros Hall; rewrite Hselected; by destruct (Hsel Hall) as (i' & [= <-] & Hne)|].
    intros [(i' & Hi' & Hr)|Hp]; apply Hroots; [left; congruence|by right].
  - intros state'. apply keeps_bind; [apply _|apply keeps_on_db, keeps_any_db|intros _].
    apply keeps_bind; [apply _|by eapply ns_of, (pr_discover task owner Howner)|intros _].
    apply keeps_bind; [apply _|apply keeps_on_db, keeps_any_db|intros _].
    apply keeps_bind; [apply _|apply keeps_on_db, keeps_any_db|intros _].
    apply keeps_bind; [apply _|by eapply ns_of, (pr_choose task owner Howner)|intros cid]. apply ns_after.
Qed.

End Run.

Section Prevalidate.
Context `{Env} `{Ctx} `{Sleep} `{Remote}.

Lemma rows_save_default r : keeps rows_kept (SaveAccount "default" r).
Proof. apply rows_save_account. Qed.
Hint Resolve rows_save_default fr_GetSetting fr_getAccountForProvider fr_listAll fr_mount fr_local : keeps.

Lemma rows_prevalidate `{CidMap} nas rq : keeps (pipe_rel no_save rows_kept) (prevalidate nas rq).
Proof. unfold prevalidate, check_parent, resolveAutofillDestination, GetAsyncTask. keeps_run. Qed.
End Prevalidate.

(** The selection an accepted request records, which is not empty unless the whole share
    is asked for. *)
Lemma parse_selection p rq : parse_import p = Ok rq →
  CrossDriveImport.QuarkAccountID (rq_state rq) = rq_quarkAccount rq ∧
  (rq_all rq = false → join nul_string (CrossDriveImport.SelectedSourceIDs (rq_state rq)) ≠ "").
Proof.
  unfold parse_import. intros (parent & _ & Hp)%res_bind_ok. apply res_bind_ok in Hp as (all & _ & Hp).
  apply res_bind_ok in Hp as (ids & _ & Hp). apply res_bind_ok in Hp as (selections & Hs & Hp).
  apply selections_cleaned in Hs as [[_ Hs] _].
  apply res_bind_ok in Hp as (u1 & _ & Hp). apply res_bind_ok in Hp as (u2 & _ & Hp). apply res_bind_ok in Hp as (u3 & Hchk & Hp).
  apply res_bind_ok in Hp as (expected & _ & Hp). injection Hp as <-. cbn [rq_state rq_quarkAccount rq_all]. split; [done|].
  intros ->. simpl in Hchk. apply res_bind_ok in Hchk as ([] & Hne & Hchk). apply res_bind_ok in Hchk as ([] & Hlen & Hord).
  unfold fail_if in *. repeat case_match; try done. bools.
  destruct selections as [|s selections]; [done|]. destruct ids as [|id ids]; [done|]. simpl in *. bools. subst id.
  destruct (Hs (sel_ID s)) as [Hid _]; [by left|]. destruct ids; simpl; [done|]. by destruct (sel_ID s).
Qed.

(** C2: A run asks Quark to save the share at most once, from the account and into the
    target of the request and, unless the whole share is wanted, exactly the selected
    objects in their order.  It never asks when the task was started before, when the
    import already has saved roots, or when the import it retries exists: a save whose
    answer was lost is not repeated. *)
Theorem share_saved_once `{Env} `{Ctx} `{Sleep} `{Remote} `{Urls} `{Sha256} `{Hash} `{Credential} `{Host} `{Ranged} `{Ranging} `{CidMap}
    nas owner uuid5 taskID task w x w' :
  owner ≠ "" → runQuarkTo115Import nas owner uuid5 taskID task w = (x, w') →
  ∃ l, pi_log (w_db w') = pi_log (w_db w) ++ l ∧
    match parse_import (AsyncTask.Payload task) with
    | Ok rq => length (saves_in l) ≤ 1 ∧ Forall (save_of rq) (saves_in l) ∧
        ((0 < AsyncTask.Attempts task)%Z ∨ saved_before taskID (rq_prior rq) (pi_db (w_db w)) → saves_in l = [])
    | Err _ => l = []
    end.
Proof.
  intros Howner Hrun. unfold runQuarkTo115Import in Hrun. destruct (parse_import _) as [rq|e] eqn:Hp.
  2: { injection Hrun as <- <-. exists []. by rewrite app_nil_r. }
  destruct (parse_selection _ _ Hp) as [Haccount Hselected].
  set (known := saved_before taskID (rq_prior rq) (pi_db (w_db w))).
  set (Q := λ l, at_most_one rq l ∧ ((0 < AsyncTask.Attempts task)%Z ∨ known → l = [])).
  cut (saving Q (w_db w) (w_db w')).
  { intros (l & Hl & [Hlen Hall] & Hno). by exists l. }
  assert (Q []) as HQ by (by split; [auto with keeps|]).
  refine (wp_elim _ _ (λ _ w', saving Q (w_db w) (w_db w')) _ _ _ Hrun). clear Hrun x w'.
  apply wp_bind, wp_lift. apply wp_bind.
  eapply wp_mono; [apply rows_prevalidate|].
  intros [[cid directory]|e] w1 [Hg1 Hk1]; [|by apply saving_none]. apply wp_bind.
  eapply wp_mono; [apply (fr_checkNAS rows_kept); intros; apply rows_save_account|]. intros [[]|e] w2 [Hg2 Hk2]; [|apply saving_none; [by etrans|done]].
  apply wp_bind, wp_on_db. eapply wp_mono; [apply wp_and; [apply rows_create|apply create_row]|].
  intros [[]|e] v3 [Hk3 Hrow]; [|apply saving_none; [etrans; [done|]; etrans; [done|]; by apply grows_same|done]].
  destruct (Hrow eq_refl) as (Hid & i & Hi & Hjoin).
  apply wp_bind, wp_on_db. eapply wp_mono; [apply rows_claim|]. intros [[]|e] v4 Hk4; simpl in *;
    [|apply saving_none; [etrans; [done|]; etrans; [done|]; by apply grows_same|done]].
  match goal with |- wp _ ?W _ => set (w4 := W); assert (grows no_save (w_db w) (w_db w4)) as Hg4
    by (etrans; [done|]; etrans; [done|]; by apply grows_same) end.
  assert (rows_kept (pi_db (w_db w)) (pi_db (w_db w4))) as Hk by (etrans; [exact Hk1|]; etrans; [exact Hk2|]; by etrans).
  apply Hk4 in Hi as (i4 & Hi4 & _ & Hsel4).
  assert (rq_quarkAccount rq ≠ "" ∧ (rq_all rq = false → CrossDriveImport.SelectedSourceIDs i4 ≠ [])) as [Hid4 Hne].
  { rewrite <-Haccount. destruct (is_bound (rq_state rq)); (split; [done|]); intros Hall Hnil;
      apply (Hselected Hall); rewrite <-Hsel4, Hnil in Hjoin; done. }
  eapply wp_mono with (P := λ _ w', saving Q (w_db w4) (w_db w')); [|intros y w5; by apply saving_after].
  apply wp_bind, wp_attempt. eapply wp_mono.
  { apply (owned_run_asks taskID owner Howner); [done|]. intros Hall. exists i4. split; [done|auto]. }
  intros y w5 Hy. apply wp_bind. eapply wp_mono; [apply (keeps_try no_save any_db), keeps_on_db, keeps_any_db|].
  assert (saving Q (w_db w4) (w_db w5)) as Hs5.
  { eapply saving_weaken; [|exact Hy]. intros l [Hl Hno]. split; [done|]. intros [Ha|Hkn]; apply Hno; [by left|right].
    by eapply saved_before_kept. }
  intros [[]|e] w6 [Hg6 _]; [apply wp_lift|]; by eapply saving_before.
Qed.

#[local] Existing Instances quiet calm exact_sleep sample_drives share_urls no_sha empty_digest no_credential roomy one_segment
  in_order no_cids.

Definition sample_save : action :=
  AShareSave "q" "abc" "stoken" ["f1"] ["tok"] "target" (Ok ("job", ["r1"])).

Lemma share_saved_once_witness :
  saves_in (pi_log (w_db import_run.2)) = [sample_save] ∧
  ∃ l rq, pi_log (w_db import_run.2) = [] ++ l ∧ parse_import one_file = Ok rq ∧ Forall (save_of rq) (saves_in l).
Proof.
  split; [vm_compute; reflexivity|].
  destruct (share_saved_once false "run" (λ x, x) "t1" import_task started _ _ ltac:(discriminate) import_run_ok) as (l & Hl & Hp).
  change (AsyncTask.Payload import_task) with one_file in Hp.
  destruct (parse_import one_file) as [rq|e] eqn:Hparse; [|vm_compute in Hparse; discriminate Hparse].
  exists l, rq. split; [exact Hl|]. split; [reflexivity|]. exact (proj1 (proj2 Hp)).
Defined.
