(* ===== verification/Identity.v ===== *)
(** Which series a label names ([src/internal/service/autofill_identity.go], and
    [normalizeMediaTitle] of [autofill.go]): parsing release names into title, year and
    season, and the checks that the labels of a candidate agree with the series of the
    library.  The tables of package [unicode] are the class [Unicode]. *)
From S2P Require Import Prelude GoStrings GoPath Regexp Episodes Remote.
From Stdlib Require Import Ascii.

Class Unicode := {
  is_letter : Z → bool;          (* [unicode.IsLetter] *)
  is_number : Z → bool;          (* [unicode.IsNumber] *)
  rune_lower : Z → Z             (* [unicode.ToLower] *)
}.

(** ** Text *)

(** [utf8.AppendRune]. *)
Definition byte_z (z : Z) : ascii := ascii_of_nat (Z.to_nat z).
Definition encode_rune (c : Z) : list ascii :=
  if Z.ltb c 0 || Z.ltb 1114111 c || (Z.leb 55296 c && Z.leb c 57343) then byte_z <$> [239; 191; 189]%Z
  else if Z.ltb c 128 then [byte_z c]
  else if Z.ltb c 2048 then [byte_z (192 + Z.shiftr c 6); byte_z (128 + Z.land c 63)]
  else if Z.ltb c 65536 then
    [byte_z (224 + Z.shiftr c 12); byte_z (128 + Z.land (Z.shiftr c 6) 63); byte_z (128 + Z.land c 63)]
  else [byte_z (240 + Z.shiftr c 18); byte_z (128 + Z.land (Z.shiftr c 12) 63); byte_z (128 + Z.land (Z.shiftr c 6) 63);
        byte_z (128 + Z.land c 63)].

Definition normalizeMediaTitle `{Unicode} (value : string) : string :=
  of_chars (concat ((λ r, if is_letter (r_code r) || is_number (r_code r) then encode_rune (rune_lower (r_code r)) else [])
    <$> runes value)).

(** [videoExtensions] ([media.go]). *)
Definition videoExtensions : list string :=
  [".avi"; ".flv"; ".iso"; ".m2ts"; ".m4v"; ".mkv"; ".mov"; ".mp4"; ".mpeg"; ".mpg"; ".rm"; ".rmvb"; ".ts"; ".vob"; ".webm"; ".wmv"].
Definition is_video (name : string) : bool := bool_decide (to_lower (ext name) ∈ videoExtensions).

(** [strings.TrimSuffix(s, filepath.Ext(s))]. *)
Definition stem (s : string) : string := of_chars (take (length (chars s) - length (chars (ext s))) (chars s)).

(** [strings.NewReplacer(".", " ", "_", " ").Replace]. *)
Definition dots_to_spaces (s : string) : string :=
  of_chars ((λ a, if bool_decide (a = byte 46) || bool_decide (a = byte 95) then byte 32 else a) <$> chars s).

Definition replace_string (p : re) (replacement s : string) : string := of_runes (replace_all p (runes replacement) (runes s)).

(** ** Patterns *)

Definition tmdb_separator : re :=
  Chr (λ c, bool_decide (c ∈ [9; 10; 12; 13; 32]%Z) || bool_decide (c ∈ (r_code <$> runes "._:=-[]{}"))).
Definition tmdb_before_id : re :=
  Chr (λ c, bool_decide (c ∈ [9; 10; 12; 13; 32]%Z) || bool_decide (c ∈ (r_code <$> runes "._-"))).
Definition autoFillTMDBPattern : re :=
  Cat (Alt (seq_re [ilit "tmdb"; Opt (Cat (Star tmdb_before_id) (ilit "id")); Star tmdb_separator])
           (seq_re [ilit "themoviedb.org/"; Alt (ilit "tv") (ilit "movie"); ilit "/"]))
      (Cap 1 (Plus digit_class)).
Definition autoFillYearPattern : re :=
  seq_re [Alt Begin (any_of " ._(["); Cap 1 (seq_re [Alt (lit "19") (lit "20"); digit_class; digit_class]); Alt End_ (any_of " ._)]")].
Definition autoFillSeasonPattern : re :=
  seq_re [alt_re [Cat Boundary (ilit "S"); seq_re [Boundary; ilit "Season"; Star (any_of " ._-")]; Cat (lit "第") (Star space_class)];
          Cap 1 (Up1 2 digit_class);
          alt_re [Boundary; Cat (ilit "E") digit_class; Cat (Star space_class) (lit "季")]].
(** [metadataCutPattern] ([metadata.go]). *)
Definition metadataCutPattern : re :=
  seq_re [alt_re [seq_re [Boundary; ilit "S"; Up1 2 digit_class;
                          Opt (seq_re [Star space_class; any_of "-–"; Star space_class; Opt (ilit "S"); Up1 2 digit_class]); Boundary];
                  seq_re [Boundary; alt_re [lit "720"; lit "1080"; lit "2160"]; ilit "p"; Boundary];
                  seq_re [Boundary; alt_re [ilit "WEB"; ilit "BluRay"; ilit "NF"; ilit "UHD"]; Boundary]];
          Star any_char; End_].

(** ** Labels *)

(** [autoFillLabelIdentity]; no year or season is 0. *)
Record labelIdentity := mkIdentity { li_title : string; li_year : Z; li_season : Z }.

(** The IDs of TMDB in a label. *)
Definition label_ids (label : string) : list string :=
  let l := runes label in (λ m, group_text l m 1) <$> find_all autoFillTMDBPattern l.

(** Where the title ends: before the season and before any episode. *)
Definition title_cut (l : list rune) : nat * Z :=
  let '(cut, season) :=
    match find_re autoFillSeasonPattern l with
    | Some m => (m_start m, atoi (group_text l m 1))
    | None => (length l, 0%Z)
    end in
  (foldl (λ cut p, match find_re p l with Some m => if Nat.ltb (m_start m) cut then m_start m else cut | None => cut end)
     cut [seasonEpisodePattern; episodeOnlyPattern; chineseEpisodePattern], season).

Section Labels.
Context `{Unicode}.

Definition parseAutoFillLabel (label : string) : labelIdentity :=
  let label := if is_video label then stem label else label in
  let label := replace_string autoFillTMDBPattern "" label in
  let '(year, label) :=
    match find_re autoFillYearPattern (runes label) with
    | Some m => (atoi (group_text (runes label) m 1), replace_string autoFillYearPattern " " label)
    | None => (0%Z, label)
    end in
  let '(cut, season) := title_cut (runes label) in
  let label := dots_to_spaces (of_runes (take cut (runes label))) in
  mkIdentity (normalizeMediaTitle (replace_string metadataCutPattern "" label)) year season.

Definition autoFillGenericLabel (title : string) : bool :=
  bool_decide (title ∈ [""; "合集"; "电视剧合集"; "综艺合集"; "complete"; "completepack"]).

(** ** Evidence *)

(** [autoFillIdentityEvidence]. *)
Record evidence := mkEvidence { ev_title : bool; ev_id : bool; ev_year : bool; ev_canonicalYear : Z }.

(** What the library says of the series: its ID, its titles, its year and season. *)
Record identity := mkSeries { id_tmdb : string; id_title : string; id_original : string; id_year : Z; id_season : Z }.

(** [strconv.Atoi(series.PremiereDate[:4])]. *)
Definition premiere_year (date : string) : Z :=
  if Nat.leb 4 (String.length date) then atoi (of_chars (take 4 (chars date))) else 0%Z.

Definition first_nonzero (l : list Z) : Z := foldr (λ z rest, if Z.eqb z 0 then rest else z) 0%Z l.

Definition series_identity (s : EmbyMediaItem) : identity :=
  let canonical := parseAutoFillLabel (mi_Name s) in
  let folder := parseAutoFillLabel (base (clean (mi_Path s))) in
  mkSeries (trim_space (default "" (mi_ProviderIDs s !! "Tmdb"))) (li_title canonical)
    (li_title (parseAutoFillLabel (mi_OriginalTitle s)))
    (first_nonzero [li_year canonical; li_year folder; premiere_year (mi_PremiereDate s)])
    (first_nonzero [li_season canonical; li_season folder]).

(** The state of the loop over the labels. *)
Record label_state := mkLabels { ls_evidence : evidence; ls_season : Z; ls_year : Z }.

(** The check of a year or season against the one known so far. *)
Definition agrees (known seen : Z) : bool := Z.eqb seen 0 || Z.eqb known 0 || Z.eqb seen known.
Definition known_now (known seen : Z) : Z := if Z.eqb seen 0 then known else seen.

Definition names_series (i : identity) (title : string) : bool :=
  bool_decide (title = id_title i) || bool_decide (title = id_original i).

Definition ids_ok (i : identity) (ids : list string) : bool :=
  forallb (λ id, negb (bool_decide (id_tmdb i = "")) && bool_decide (id = id_tmdb i)) ids.

(** One round of the loop: [None] is the return of [false]. *)
Definition check_label (i : identity) (rejectOtherTitles : bool) (st : label_state) (label : string) : option label_state :=
  let ids := label_ids label in
  if negb (ids_ok i ids) then None else
  let labelID := bool_decide (0 < length ids) in
  let l := parseAutoFillLabel label in
  if negb (agrees (ls_year st) (li_year l)) then None else
  if negb (agrees (ls_season st) (li_season l)) then None else
  let e := ls_evidence st in
  let named := negb (autoFillGenericLabel (li_title l)) && names_series i (li_title l) in
  if negb (autoFillGenericLabel (li_title l)) && negb (names_series i (li_title l)) && negb labelID && rejectOtherTitles then None else
  Some (mkLabels (mkEvidence (ev_title e || named) (ev_id e || labelID) (ev_year e || negb (Z.eqb (li_year l) 0)) (ev_canonicalYear e))
          (known_now (ls_season st) (li_season l)) (known_now (ls_year st) (li_year l))).

Fixpoint check_labels (i : identity) (reject : bool) (st : label_state) (labels : list string) : option label_state :=
  match labels with
  | [] => Some st
  | label :: labels => st ← check_label i reject st label; check_labels i reject st labels
  end.

Definition collectAutoFillIdentityEvidence (series : option EmbyMediaItem) (rejectOtherTitles : bool) (labels : list string)
    : option evidence :=
  s ← series;
  let i := series_identity s in
  if bool_decide (id_title i = "") then None else
  ls_evidence <$> check_labels i rejectOtherTitles
    (mkLabels (mkEvidence false false false (id_year i)) (id_season i) (id_year i)) labels.

Definition autoFillIdentityMatches (series : option EmbyMediaItem) (labels : list string) : bool :=
  match collectAutoFillIdentityEvidence series true labels with
  | Some e => ev_id e || (ev_title e && negb (Z.eqb (ev_canonicalYear e) 0) && ev_year e)
  | None => false
  end.

(** [autoFillLeaf]: a file of a share. *)
Record autoFillLeaf := mkLeaf { lf_ID : string; lf_Revision : string; lf_Name : string; lf_Size : Z; lf_Ancestors : list string }.

Definition autoFillLeafSeasonMatches (leaf : autoFillLeaf) : bool :=
  forallb (λ label, let season := li_season (parseAutoFillLabel label) in
    Z.eqb season 0 || forallb (λ k, Z.eqb (Season k) season) (episodeKeysFromName (lf_Name leaf))) (lf_Ancestors leaf).

Definition live_labels (leaf : autoFillLeaf) : list string := lf_Ancestors leaf ++ [lf_Name leaf].

Definition autoFillLeafIdentityMatches (series : option EmbyMediaItem) (leaf : autoFillLeaf) : bool :=
  autoFillIdentityMatches series (live_labels leaf) && autoFillLeafSeasonMatches leaf.

Definition autoFillEpisodeIdentityMatches (series : option EmbyMediaItem) (candidateTitle shareTitle : string) (leaf : autoFillLeaf)
    : bool :=
  match collectAutoFillIdentityEvidence series true (live_labels leaf) with
  | Some live =>
      if negb (ev_title live) && negb (ev_id live) then false else
      match collectAutoFillIdentityEvidence series false ([candidateTitle; shareTitle] ++ live_labels leaf) with
      | Some all =>
          if negb (ev_id all) && (Z.eqb (ev_canonicalYear all) 0 || negb (ev_year all)) then false
          else autoFillLeafSeasonMatches leaf
      | None => false
      end
  | None => false
  end.
End Labels.

#[global] Arguments parseAutoFillLabel : simpl never.
#[global] Arguments label_ids : simpl never.
#[global] Arguments episodeKeysFromName : simpl never.
#[global] Arguments autoFillGenericLabel : simpl never.
#[local] Opaque parseAutoFillLabel label_ids autoFillGenericLabel episodeKeysFromName.

(** ** What the checks mean *)

(** All years, or all seasons, that are given are the same. *)
Definition consistent (l : list Z) : Prop := ∀ x y, x ∈ l → y ∈ l → x ≠ 0%Z → y ≠ 0%Z → x = y.

Lemma consistent_step k x l : consistent (k :: x :: l) ↔ agrees k x = true ∧ consistent (known_now k x :: l).
Proof.
  unfold agrees, known_now, consistent. setoid_rewrite elem_of_cons. setoid_rewrite elem_of_cons.
  destruct (Z.eqb_spec x 0) as [->|Hx]; simpl.
  - split; [intros Hc; split; [done|naive_solver]|]. intros [_ Hc] y z Hy Hz. naive_solver.
  - destruct (Z.eqb_spec k 0) as [->|Hk]; simpl.
    + split; [intros Hc; split; [done|naive_solver]|]. intros [_ Hc] y z Hy Hz. naive_solver.
    + rewrite Z.eqb_eq. split.
      * intros Hc. assert (x = k) as -> by (apply Hc; auto). split; [done|naive_solver].
      * intros [-> Hc] y z Hy Hz. naive_solver.
Qed.

Lemma consistent_incl l l' : l' ⊆ l → consistent l → consistent l'.
Proof. intros Hl Hc x y Hx Hy. apply Hc; by apply Hl. Qed.

Section Meaning.
Context `{Unicode}.
Implicit Types i : identity.

Definition label_year (label : string) : Z := li_year (parseAutoFillLabel label).
Definition label_season (label : string) : Z := li_season (parseAutoFillLabel label).
Definition label_title (label : string) : string := li_title (parseAutoFillLabel label).

(** The label gives an ID; it gives no ID but the series' own; it gives its title. *)
Definition gives_id (label : string) : Prop := label_ids label ≠ [].
Definition ids_agree i (label : string) : Prop := ∀ id, id ∈ label_ids label → id_tmdb i ≠ "" ∧ id = id_tmdb i.
Definition is_generic (label : string) : Prop := autoFillGenericLabel (label_title label) = true.
Definition gives_title i (label : string) : Prop :=
  ¬ is_generic label ∧ (label_title label = id_title i ∨ label_title label = id_original i).
Definition gives_year (label : string) : Prop := label_year label ≠ 0%Z.

Definition acceptable i (reject : bool) (label : string) : Prop :=
  ids_agree i label ∧ (reject = true → is_generic label ∨ gives_title i label ∨ gives_id label).

#[global] Instance is_generic_dec label : Decision (is_generic label).
Proof. unfold is_generic. apply _. Defined.
#[global] Instance gives_title_dec i label : Decision (gives_title i label).
Proof. unfold gives_title. apply _. Defined.
#[global] Instance gives_id_dec label : Decision (gives_id label).
Proof. unfold gives_id. apply _. Defined.
#[global] Instance gives_year_dec label : Decision (gives_year label).
Proof. unfold gives_year. apply _. Defined.

Definition add_evidence i (e : evidence) (label : string) : evidence :=
  mkEvidence (ev_title e || bool_decide (gives_title i label)) (ev_id e || bool_decide (gives_id label))
    (ev_year e || bool_decide (gives_year label)) (ev_canonicalYear e).

Lemma check_label_spec i reject st label st' :
  check_label i reject st label = Some st' ↔
  acceptable i reject label ∧ agrees (ls_year st) (label_year label) = true ∧ agrees (ls_season st) (label_season label) = true ∧
  st' = mkLabels (add_evidence i (ls_evidence st) label) (known_now (ls_season st) (label_season label))
          (known_now (ls_year st) (label_year label)).
Proof.
  unfold check_label, acceptable. fold (label_year label) (label_season label) (label_title label).
  remember (negb (autoFillGenericLabel (label_title label)) && names_series i (label_title label)) as named eqn:Hdef.
  assert (named = bool_decide (gives_title i label)) as Hnamed.
  { rewrite Hdef. apply eq_iff_eq_true. unfold names_series.
    rewrite andb_true_iff, negb_true_iff, orb_true_iff, !bool_decide_eq_true. unfold gives_title, is_generic.
    by rewrite not_true_iff_false. }
  assert (ids_ok i (label_ids label) = true ↔ ids_agree i label) as Hids.
  { unfold ids_ok. rewrite forallb_forall. unfold ids_agree. setoid_rewrite <-list_elem_of_In. setoid_rewrite andb_true_iff.
    setoid_rewrite negb_true_iff. setoid_rewrite bool_decide_eq_false. by setoid_rewrite bool_decide_eq_true. }
  assert (bool_decide (0 < length (label_ids label)) = bool_decide (gives_id label)) as Hid.
  { apply bool_decide_ext. unfold gives_id. destruct (label_ids label); simpl; split; [lia|done|done|lia]. }
  assert (negb (Z.eqb (label_year label) 0) = bool_decide (gives_year label)) as Hy.
  { apply eq_iff_eq_true. rewrite negb_true_iff, Z.eqb_neq, bool_decide_eq_true. done. }
  destruct (ids_ok i (label_ids label)) eqn:Hf; simpl; [|split; [done|]; intros [[Ha _] _]; apply Hids in Ha; congruence].
  apply proj1 in Hids. specialize (Hids eq_refl).
  destruct (agrees (ls_year st) _); simpl; [|naive_solver]. destruct (agrees (ls_season st) _); simpl; [|naive_solver].
  rewrite Hid, Hy, Hnamed. unfold add_evidence.
  destruct (negb (autoFillGenericLabel (label_title label)) && negb (names_series i (label_title label))
            && negb (bool_decide (gives_id label)) && reject) eqn:Hrej.
  - rewrite !andb_true_iff, !negb_true_iff in Hrej. destruct Hrej as [[[Hg Hn] Hi] ->].
    split; [done|]. intros [[_ Hr] _]. exfalso. apply bool_decide_eq_false in Hi. destruct (Hr eq_refl) as [Hg'|[Ht|Hi']]; [|..|done].
    + unfold is_generic in Hg'. congruence.
    + apply (bool_decide_eq_true_2 _) in Ht. rewrite <-Hnamed, Hdef, Hn, andb_false_r in Ht. done.
  - split; [|by intros (_ & _ & _ & ->)]. intros [= <-]. split_and!; try done. intros ->. rewrite andb_true_r in Hrej.
    unfold is_generic. destruct (autoFillGenericLabel _) eqn:Hg; [by left|]. simpl in Hrej.
    apply andb_false_iff in Hrej as [Hn|Hi]; apply negb_false_iff in Hn || apply negb_false_iff in Hi.
    + right. left. apply (bool_decide_eq_true_1 (gives_title i label)). rewrite <-Hnamed, Hdef. by rewrite Hn.
    + right. right. by apply bool_decide_eq_true in Hi.
Qed.

Lemma check_labels_spec i reject st labels e :
  ls_evidence <$> check_labels i reject st labels = Some e ↔
  Forall (acceptable i reject) labels ∧ consistent (ls_year st :: (label_year <$> labels)) ∧
  consistent (ls_season st :: (label_season <$> labels)) ∧ e = foldl (add_evidence i) (ls_evidence st) labels.
Proof.
  revert st. induction labels as [|label labels IH]; intros st; csimpl.
  { assert (∀ z, consistent [z]) as Hone by (intros z x y ->%list_elem_of_singleton ->%list_elem_of_singleton; done).
    naive_solver. }
  rewrite !consistent_step, Forall_cons. destruct (check_label i reject st label) as [st'|] eqn:Hc; simpl.
  - apply check_label_spec in Hc as (Ha & Hy & Hs & ->). rewrite IH. simpl. naive_solver.
  - split; [done|]. intros ([Ha Hr] & [Hy _] & [Hs _] & _).
    pose proof (proj2 (check_label_spec i reject st label _) (conj Ha (conj Hy (conj Hs eq_refl)))) as Hc'. congruence.
Qed.

Lemma added_evidence i e labels :
  let e' := foldl (add_evidence i) e labels in
  (ev_title e' = true ↔ ev_title e = true ∨ ∃ l, l ∈ labels ∧ gives_title i l) ∧
  (ev_id e' = true ↔ ev_id e = true ∨ ∃ l, l ∈ labels ∧ gives_id l) ∧
  (ev_year e' = true ↔ ev_year e = true ∨ ∃ l, l ∈ labels ∧ gives_year l) ∧ ev_canonicalYear e' = ev_canonicalYear e.
Proof.
  revert e. induction labels as [|label labels IH]; intros e; simpl.
  { setoid_rewrite elem_of_nil. naive_solver. }
  destruct (IH (add_evidence i e label)) as (Ht & Hi & Hy & Hc). setoid_rewrite elem_of_cons.
  rewrite Ht, Hi, Hy, Hc. simpl. rewrite !orb_true_iff, !bool_decide_eq_true. naive_solver.
Qed.

(** The labels agree with the series and each other. *)
Definition agreeable i (reject : bool) (labels : list string) : Prop :=
  id_title i ≠ "" ∧ Forall (acceptable i reject) labels ∧ consistent (id_year i :: (label_year <$> labels)) ∧
  consistent (id_season i :: (label_season <$> labels)).
Definition summary i (labels : list string) : evidence := foldl (add_evidence i) (mkEvidence false false false (id_year i)) labels.

Lemma collect_spec s reject labels e :
  collectAutoFillIdentityEvidence (Some s) reject labels = Some e ↔
  agreeable (series_identity s) reject labels ∧ e = summary (series_identity s) labels.
Proof.
  unfold collectAutoFillIdentityEvidence, agreeable, summary. simpl. case_bool_decide; [naive_solver|].
  rewrite check_labels_spec. simpl. naive_solver.
Qed.

Lemma collect_none s reject labels :
  collectAutoFillIdentityEvidence (Some s) reject labels = None → ¬ agreeable (series_identity s) reject labels.
Proof. intros Hn Ha. pose proof (proj2 (collect_spec s reject labels _) (conj Ha eq_refl)) as Hc. congruence. Qed.

Lemma summary_spec i labels :
  (ev_title (summary i labels) = true ↔ ∃ l, l ∈ labels ∧ gives_title i l) ∧
  (ev_id (summary i labels) = true ↔ ∃ l, l ∈ labels ∧ gives_id l) ∧
  (ev_year (summary i labels) = true ↔ ∃ l, l ∈ labels ∧ gives_year l) ∧ ev_canonicalYear (summary i labels) = id_year i.
Proof.
  destruct (added_evidence i (mkEvidence false false false (id_year i)) labels) as (Ht & Hi & Hy & Hc). simpl in *.
  unfold summary. rewrite Ht, Hi, Hy, Hc. naive_solver.
Qed.

Lemma agreeable_incl i (reject : bool) labels labels' :
  labels' ⊆ labels → (reject = true → ∀ l, l ∈ labels' → is_generic l ∨ gives_title i l ∨ gives_id l) →
  agreeable i false labels → agreeable i reject labels'.
Proof.
  intros Hsub Hr (Ht & Hacc & Hy & Hs). rewrite Forall_forall in Hacc.
  assert (∀ (f : string → Z) z, (z :: (f <$> labels')) ⊆ (z :: (f <$> labels))) as Hf.
  { intros f z x. rewrite !elem_of_cons, !list_elem_of_fmap. naive_solver. }
  split; [done|]. split; [apply Forall_forall; intros l Hl; split; [by apply Hacc, Hsub|auto]|].
  split; (eapply consistent_incl; [apply Hf|done]).
Qed.

Lemma leaf_season_spec leaf :
  autoFillLeafSeasonMatches leaf = true ↔
  ∀ label, label ∈ lf_Ancestors leaf → label_season label = 0%Z ∨ ∀ k, k ∈ episodeKeysFromName (lf_Name leaf) → Season k = label_season label.
Proof.
  unfold autoFillLeafSeasonMatches. rewrite forallb_forall. setoid_rewrite <-list_elem_of_In. setoid_rewrite orb_true_iff.
  setoid_rewrite Z.eqb_eq. setoid_rewrite forallb_forall. setoid_rewrite <-list_elem_of_In. by setoid_rewrite Z.eqb_eq.
Qed.

(** C31: A file is taken for an episode of a series exactly when its path names the series:
    every label of the path is generic, gives the title of the series or a TMDB ID; no
    label, those of the candidate included, gives another ID, year or season than the
    library and the other labels; the path gives the title or the ID at least once; the ID
    or the year is given somewhere; and no ancestor gives another season than an episode of
    the file's name. *)
Theorem episode_identity_exact s candidateTitle shareTitle leaf :
  let i := series_identity s in
  let live := live_labels leaf in
  let all := candidateTitle :: shareTitle :: live in
  autoFillEpisodeIdentityMatches (Some s) candidateTitle shareTitle leaf = true ↔
  id_title i ≠ "" ∧ (∀ l, l ∈ all → ids_agree i l) ∧ consistent (id_year i :: (label_year <$> all)) ∧
  consistent (id_season i :: (label_season <$> all)) ∧
  (∀ l, l ∈ live → is_generic l ∨ gives_title i l ∨ gives_id l) ∧ (∃ l, l ∈ live ∧ (gives_title i l ∨ gives_id l)) ∧
  ((∃ l, l ∈ all ∧ gives_id l) ∨ id_year i ≠ 0%Z ∧ ∃ l, l ∈ all ∧ gives_year l) ∧
  (∀ l, l ∈ lf_Ancestors leaf → label_season l = 0%Z ∨ ∀ k, k ∈ episodeKeysFromName (lf_Name leaf) → Season k = label_season l).
Proof.
  intros i live all. unfold autoFillEpisodeIdentityMatches. fold live. change ([candidateTitle; shareTitle] ++ live) with all.
  destruct (summary_spec i live) as (Ht & Hi & _). destruct (summary_spec i all) as (_ & Hia & Hya & Hca).
  assert (live ⊆ all) as Hsub by (intros x Hx; by do 2 apply list_elem_of_further).
  assert (∀ labels, (∀ l, l ∈ labels → ids_agree i l) → Forall (acceptable i false) labels) as Hfree.
  { intros labels Hl. apply Forall_forall. intros l Hin. split; [auto|done]. }
  destruct (collectAutoFillIdentityEvidence (Some s) true live) as [e|] eqn:Hlive.
  2: { split; [done|]. intros (Htitle & Hids & Hy & Hs & Hnames & _). exfalso. apply (collect_none _ _ _ Hlive).
       apply (agreeable_incl i true all); [done|auto|]. split_and!; auto. }
  apply collect_spec in Hlive as [(Htitle & Hacc & _) ->]. fold i in Htitle, Hacc |- *. rewrite Forall_forall in Hacc.
  destruct (negb _ && negb _) eqn:Hsome.
  { split; [done|]. intros (_ & _ & _ & _ & _ & (l & Hl & Hex) & _). rewrite andb_true_iff, !negb_true_iff in Hsome.
    destruct Hsome as [Hnt Hni], Hex as [Hex|Hex]; [rewrite (proj2 Ht) in Hnt by eauto|rewrite (proj2 Hi) in Hni by eauto]; done. }
  rewrite andb_false_iff, !negb_false_iff, Ht, Hi in Hsome.
  destruct (collectAutoFillIdentityEvidence (Some s) false all) as [e|] eqn:Hall.
  2: { split; [done|]. intros (_ & Hids & Hy & Hs & _). exfalso. apply (collect_none _ _ _ Hall). split_and!; auto. }
  apply collect_spec in Hall as [(_ & Hacc' & Hy & Hs) ->]. fold i in Hacc', Hy, Hs |- *. rewrite Forall_forall in Hacc'. rewrite Hca.
  destruct (negb _ && _) eqn:Hkey.
  { split; [done|]. intros (_ & _ & _ & _ & _ & _ & Hex & _). apply andb_true_iff in Hkey as [Hni Hny].
    apply negb_true_iff in Hni. destruct Hex as [Hex|[Hz Hex]]; [by rewrite (proj2 Hia) in Hni|].
    apply Z.eqb_neq in Hz. rewrite Hz in Hny. simpl in Hny. by rewrite (proj2 Hya) in Hny. }
  rewrite andb_false_iff, orb_false_iff, !negb_false_iff, Hia, Hya, Z.eqb_neq in Hkey. rewrite leaf_season_spec.
  split; [|naive_solver]. intros Hseason. split_and!; try done; [intros l Hl; by apply Hacc'|intros l Hl; by apply Hacc|naive_solver].
Qed.

End Meaning.
