(* ===== verification/Service.v ===== *)
(** The requests beyond an import ([src/internal/service/drive.go], [emby.go],
    [replacement_state.go]): snapshots of 115 shares, receiving them, renaming, moving and
    recycling objects of 115, the resource index, and Emby's series, users and play state.
    [Providers] is what each of them answers after a history of requests, as [Remote] is for
    an import.  [SnapshotProviderShareTree] joins the two providers.

    The pacing of 115 snapshots ([share_snapshot_interval_ms]) only delays requests and is
    not modelled. *)
From S2P Require Import Prelude GoStrings GoPath Sql Schema Accounts Payload FileSys Remote Drive.
From Stdlib Require Import Ascii.

Class Providers := {
  sv_snap : history → string → string → string → string → Z → res snap_page;
  sv_receive : history → string → string → string → list string → string → res unit;
  sv_rename : history → string → string → string → res unit;
  sv_move : history → string → list string → string → res unit;
  sv_delete : history → string → list string → res unit;
  sv_search : history → string → string → Z → res value;
  sv_series : history → string → res (list EmbyMediaItem);
  sv_refresh : history → string → res unit;
  sv_inventory : history → string → list item_page * error;   (* the pages, then the error of the next request *)
  sv_users : history → res (list string);
  sv_user_data : history → string → string → res (string * option replacementUserData);
  sv_set_user_data : history → string → string → replacementUserData → res unit;
  sv_sessions : history → res (list string)
}.

Section Service.
Context `{Env} `{Ctx} `{Sleep} `{Remote} `{Providers} `{Urls} `{Sha256}.
Abbreviation Pi := (M Pipe).

(** ** Shares of 115 *)

Definition absent : string := "<nil>".
Definition blank (s : string) : bool := bool_decide (s = "") || bool_decide (s = absent).

Definition parseShareEntrySize (text : string) : res Z :=
  let text := trim_space text in
  if blank text then Ok 0%Z else
  match parse_int text with
  | Some n => if Z.ltb n 0 then Err (ErrText "115 share entry has an invalid size") else Ok n
  | None => Err (ErrText "115 share entry has an invalid size")
  end.

Definition snapPageSize : Z := 1000.
Definition snapMaxEntries : Z := 50000.

(** One object of a page, after the entries listed before. *)
Definition add_snap_item (cid : string) (entries : list ShareEntry) (i : snap_item) : res (list ShareEntry) :=
  let fid := trim_space (si_fid i) in
  let isDirectory := blank fid in
  let id := if isDirectory then trim_space (si_cid i) else fid in
  if blank id then Ok entries
  else if bool_decide (id ∈ se_ID <$> entries) then Err (ErrText ("115 share snapshot repeated object " +:+ id))
  else
    let parentID := trim_space (si_pid i) in
    let parentID := if blank parentID then cid else parentID in
    size ← (if isDirectory then Ok 0%Z else parseShareEntrySize (si_size i));
    let revision := trim_space (si_revision i) in
    let revision := if bool_decide (revision = absent) then "" else revision in
    let entries := entries ++ [mkEntry id parentID revision "" (si_name i) size isDirectory []] in
    if Z.ltb snapMaxEntries (Z.of_nat (length entries)) then
      Err (ErrText ("115 share contains more than " +:+ pretty snapMaxEntries +:+ " top-level entries"))
    else Ok entries.

(** The loop over the pages.  A round adds an entry or ends it, so there are at most
    [snapMaxEntries + 2] of them.  The title comes with an error too; what was listed before
    an error is not used by any caller. *)
Fixpoint snap_pages (a : account) (shareCode receiveCode cid : string) (rounds : nat) (offset : Z) (title : string)
    (entries : list ShareEntry) : Pi (string * res (list ShareEntry)) :=
  match rounds with
  | O => mret (title, Err (ErrText "out of rounds"))
  | S rounds =>
      answer ← attempt (call (λ h, sv_snap h a.1 shareCode receiveCode cid offset) (ASnap a.1 shareCode receiveCode cid offset));
      match answer with
      | Err e => mret (title, Err e)
      | Ok p =>
          if negb (sp_State p) then mret (title, Err (ErrText ("115 分享预检被拒绝: " +:+ sp_Error p))) else
          let title := if negb (bool_decide (title = "")) then title
                       else if bool_decide (sp_ShareTitle p = "") then sp_FileName p else sp_ShareTitle p in
          let stop e := mret (title, Err e) in
          match res_fold (add_snap_item cid) (sp_List p) entries with
          | Err e => stop e
          | Ok listed =>
              let count := Z.of_nat (length listed) in
              let total := if Z.eqb (sp_DataCount p) 0 then sp_Count p else sp_DataCount p in
              if bool_decide (0 < length (sp_List p)) && bool_decide (length listed = length entries) then
                stop (ErrText "115 share snapshot pagination made no progress")
              else if Z.ltb snapMaxEntries total then
                stop (ErrText ("115 share contains " +:+ pretty total +:+ " top-level entries; maximum is " +:+ pretty snapMaxEntries))
              else if Z.ltb 0 total && Z.leb total count then mret (title, Ok listed)
              else if Z.ltb (Z.of_nat (length (sp_List p))) snapPageSize then
                if Z.ltb 0 total && Z.ltb count total then
                  stop (ErrText ("115 share snapshot ended at " +:+ pretty count +:+ " of " +:+ pretty total +:+ " entries"))
                else mret (title, Ok listed)
              else snap_pages a shareCode receiveCode cid rounds (offset + Z.of_nat (length (sp_List p))) title listed
          end
      end
  end.

Definition snap_rounds : nat := Z.to_nat snapMaxEntries + 2.

Definition snapshotShareEntries (a : account) (shareCode receiveCode cid : string) : Pi (string * res (list ShareEntry)) :=
  snap_pages a shareCode receiveCode cid snap_rounds 0 "" [].

(** Its use by callers that give up on an error. *)
Definition shareEntries115 (a : account) (shareCode receiveCode cid : string) : Pi (string * list ShareEntry) :=
  '(title, listed) ← snapshotShareEntries a shareCode receiveCode cid;
  entries ← lift listed;
  mret (title, entries).

(** *** The tree of a share *)

Definition treeMaxEntries : Z := 10000.
Definition treeMaxDepth : Z := 20.

(** The directories met, the title and the entries. *)
Record tree115 := mkTree115 { t5_dirs : list string; t5_title : string; t5_entries : list ShareEntry }.

(** A loop whose rounds may end it with an error, keeping the state. *)
Fixpoint fold_until {A S} (f : S → A → Pi (S * option error)) (l : list A) (s : S) : Pi (S * option error) :=
  match l with
  | [] => mret (s, None)
  | x :: l => '(s, e) ← f s x; match e with Some e => mret (s, Some e) | None => fold_until f l s end
  end.

Definition visit115 (walk : string → list string → tree115 → Pi (tree115 * option error)) (cid : string) (ancestors : list string)
    (st : tree115) (e : ShareEntry) : Pi (tree115 * option error) :=
  if bool_decide (se_ID e ∈ se_ID <$> t5_entries st) then
    mret (st, Some (ErrText ("115 share tree repeated object " +:+ se_ID e)))
  else
    let e := mkEntry (se_ID e) cid (se_Revision e) (se_ShareToken e) (se_Name e) (se_Size e) (se_IsDir e) ancestors in
    let st := mkTree115 (t5_dirs st) (t5_title st) (t5_entries st ++ [e]) in
    if Z.ltb treeMaxEntries (Z.of_nat (length (t5_entries st))) then
      mret (st, Some (ErrText ("115 share tree contains more than " +:+ pretty treeMaxEntries +:+ " entries")))
    else if se_IsDir e then walk (se_ID e) (ancestors ++ [se_Name e]) st else mret (st, None).

(** [levels] is how many directory levels are still allowed. *)
Fixpoint walk115 (a : account) (shareCode receiveCode : string) (levels : nat) (cid : string) (ancestors : list string)
    (st : tree115) : Pi (tree115 * option error) :=
  match levels with
  | O => mret (st, Some (ErrText ("115 share directory depth exceeds " +:+ pretty treeMaxDepth)))
  | S levels =>
      let cid := or_root cid in
      if bool_decide (cid ∈ t5_dirs st) then mret (st, Some (ErrText ("115 share directory " +:+ cid +:+ " was repeated"))) else
      '(title, listed) ← snapshotShareEntries a shareCode receiveCode cid;
      let st := mkTree115 (t5_dirs st ++ [cid]) (if bool_decide (t5_title st = "") then title else t5_title st) (t5_entries st) in
      match listed with
      | Err e => mret (st, Some e)
      | Ok direct => fold_until (visit115 (walk115 a shareCode receiveCode levels) cid ancestors) direct st
      end
  end.

(** [snapshotShareTreeEntries]: the title, also with an error, and the entries. *)
Definition snapshotShareTreeEntries (a : account) (shareCode receiveCode : string) : Pi (string * res (list ShareEntry)) :=
  '(st, e) ← walk115 a shareCode receiveCode (Z.to_nat (treeMaxDepth + 1)) "0" [] (mkTree115 [] "" []);
  mret (t5_title st, match e with Some e => Err e | None => Ok (t5_entries st) end).

(** [SnapshotShareTree] of the two providers: the title, also with an error, and the
    entries. *)
Definition SnapshotShareTree (provider : string) (a : account) (rawURL password : string) : Pi (string * res (list ShareEntry)) :=
  if bool_decide (provider = "quark") then
    token ← attempt (shareTokenWithTitle a rawURL password);
    match token with
    | Err e => mret ("", Err e)
    | Ok (shareID, stoken, title) => entries ← attempt (snapshotShareTree a shareID stoken); mret (title, entries)
    end
  else
    match ParseShareCode rawURL password with
    | Err e => mret ("", Err e)
    | Ok (code, receive) => snapshotShareTreeEntries a code receive
    end.

Definition SnapshotProviderShareTree (provider accountID rawURL password : string) : Pi (string * res (list ShareEntry)) :=
  a ← attempt (getAccountForProvider provider accountID);
  match a with
  | Err e => mret ("", Err e)
  | Ok a => SnapshotShareTree provider a rawURL password
  end.

(** ** Changes *)

Definition receiveShareEntriesCtx (a : account) (shareCode receiveCode : string) (ids : list string) (targetCID title : string)
    : Pi (Z * string) :=
  if bool_decide (length ids = 0) then throw (ErrText "115 分享没有可转存的条目") else
  let target := or_root targetCID in
  _ ← call (λ h, sv_receive h a.1 shareCode receiveCode ids target) (AReceive a.1 shareCode receiveCode ids target);
  mret (Z.of_nat (length ids), title).

Definition SaveShareCtx (accountID rawURL password targetCid : string) : Pi (Z * string) :=
  a ← getAccount accountID;
  '(code, receive) ← lift (ParseShareCode rawURL password);
  '(title, files) ← shareEntries115 a code receive "0";
  if bool_decide (length files = 0) then throw (ErrText "115 分享内容为空或已失效") else
  receiveShareEntriesCtx a code receive (se_ID <$> files) targetCid title.

Definition RenameCtx (accountID fileID newName : string) : Pi unit :=
  let fileID := trim_space fileID in
  let newName := trim_space newName in
  if bool_decide (fileID = "") || bool_decide (newName = "") then throw (ErrText "file ID and new name are required") else
  a ← getAccount accountID;
  call (λ h, sv_rename h a.1 fileID newName) (ARename a.1 fileID newName).

Definition trimmed_ids (fileIDs : list string) : res (list string) :=
  res_fold (λ l id, let id := trim_space id in
    if bool_decide (id = "") then Err (ErrText "file IDs must not be empty") else Ok (l ++ [id])) fileIDs [].

Definition MoveCtx (accountID : string) (fileIDs : list string) (targetPID : string) : Pi unit :=
  let target := trim_space targetPID in
  if bool_decide (target = "") || bool_decide (length fileIDs = 0) then throw (ErrText "file IDs and target CID are required") else
  a ← getAccount accountID;
  ids ← lift (trimmed_ids fileIDs);
  call (λ h, sv_move h a.1 ids target) (AMove a.1 ids target).

Definition DeleteCtx (accountID : string) (fileIDs : list string) : Pi unit :=
  if bool_decide (length fileIDs = 0) then throw (ErrText "file IDs are required") else
  a ← getAccount accountID;
  ids ← lift (trimmed_ids fileIDs);
  call (λ h, sv_delete h a.1 ids) (ADelete a.1 ids).

End Service.
