(* ===== verification/Local.v ===== *)
(** The STRM tree, its backups and the mounted media as the services see them
    ([src/internal/service/media.go], [replacement.go]): the calls of packages [os] and
    [path/filepath], each answered by the operating system.

    CloudDrive2, Emby and the administrator change these trees at any time, so an answer may
    be anything: [Local] gives it after a history of requests, as [Remote] does for the
    providers.  What the download and upload paths do to files of their own is in
    [FileSys.v]. *)
From S2P Require Import Prelude GoStrings GoPath Sql Schema Accounts FileSys Remote.
From Stdlib Require Import Ascii.

Class Local := {
  lo_do : history → local_op → res unit;
  lo_info : history → local_op → res file_info;
  lo_text : history → local_op → res string;
  lo_names : history → local_op → res (list string);
  lo_walk : history → string → walk;
  lo_cwd : string                              (* the working directory, for [filepath.Abs] *)
}.

Section Local.
Context `{Env} `{Ctx} `{Sleep} `{Remote} `{Local}.
Abbreviation Pi := (M Pipe).

(** An answer that is not a Go result. *)
Definition observe {A} (ask : history → A) (record : A → action) : Pi A := λ w,
  let s := w_db w in
  let r := ask (pi_log s) in
  (Ok r, tick w (mkPipe (pi_db s) (pi_files s) (pi_log s ++ [record r]))).

Definition os_do (op : local_op) : Pi unit := call (λ h, lo_do h op) (ADo op).
Definition os_info (op : local_op) : Pi file_info := call (λ h, lo_info h op) (AInfo op).
Definition os_text (op : local_op) : Pi string := call (λ h, lo_text h op) (AText op).
Definition os_names (op : local_op) : Pi (list string) := call (λ h, lo_names h op) (ANames op).
Definition walk_dir (root : string) : Pi walk := observe (λ h, lo_walk h root) (AWalk root).

Definition is_dir (i : file_info) : bool := bool_decide (fi_type i = FDir).
Definition is_symlink (t : file_type) : bool := bool_decide (t = FSymlink).

(** [result, _ := m]. *)
Definition or_zero {A} (zero : A) (m : Pi A) : Pi A := r ← attempt m; mret match r with Ok a => a | Err _ => zero end.

(** ** Roots *)

(** [permissions&0055 == 0055]. *)
Definition readable_bits : Z := 45.
Definition ensureReadableDirectory (path : string) (i : file_info) : Pi unit :=
  if Z.eqb (Z.land (fi_perm i) readable_bits) readable_bits then mret tt
  else os_do (LChmod path (Z.lor (fi_perm i) readable_bits)).

(** [filepath.Abs]. *)
Definition absolute (path : string) : string := if is_abs path then clean path else join_path [lo_cwd; path].

Definition canonicalRoot (path : string) (create : bool) : Pi string :=
  let absolute := absolute path in
  _ ← (if create then os_do (LMkdirAll absolute) else mret tt);
  resolved ← os_text (LEval absolute);
  _ ← (if create then i ← os_info (LStat resolved); ensureReadableDirectory resolved i else mret tt);
  mret resolved.

End Local.

(** * Orderly runs

    [orderly J m]: every request [m] makes is allowed by [J], which sees all requests made
    before it. *)

Definition orderly (J : history → action → Prop) (s s' : Pipe) : Prop :=
  ∃ l, pi_log s' = pi_log s ++ l ∧ ∀ l1 a l2, l = l1 ++ a :: l2 → J (pi_log s ++ l1) a.

#[global] Instance orderly_preorder J : PreOrder (orderly J).
Proof.
  split.
  - intros s. exists []. split; [by rewrite app_nil_r|]. intros [|? ?] ? ? [=].
  - intros s1 s2 s3 (l & E & HJ) (l' & E' & HJ'). exists (l ++ l'). rewrite E', E, app_assoc. split; [done|].
    intros l1 a l2 Hl. symmetry in Hl. apply app_eq_inv in Hl as [(k & -> & Hk)|(k & -> & Hk)].
    + specialize (HJ' k a l2 Hk). by rewrite E, <-app_assoc in HJ'.
    + destruct k as [|b k]; simplify_eq/=; [|by eapply HJ].
      rewrite app_nil_r in E. specialize (HJ' [] a l2 eq_refl). by rewrite E, app_nil_r in HJ'.
Qed.

Lemma orderly_nil J s s' : pi_log s' = pi_log s → orderly J s s'.
Proof. intros E. exists []. split; [by rewrite E, app_nil_r|]. intros [|? ?] ? ? [=]. Qed.

Lemma orderly_one J s s' a : pi_log s' = pi_log s ++ [a] → J (pi_log s) a → orderly J s s'.
Proof.
  intros E Ha. exists [a]. split; [done|]. intros [|b l1] a' l2 Hl; simplify_eq/=; [by rewrite app_nil_r|].
  by destruct l1.
Qed.

(** The same, after a state that is already there. *)
Lemma orderly_snoc J s s1 s2 a : orderly J s s1 → pi_log s2 = pi_log s1 ++ [a] → J (pi_log s1) a → orderly J s s2.
Proof. intros Hs E Ha. etrans; [exact Hs|]. by eapply orderly_one. Qed.

Lemma orderly_weaken (J J' : history → action → Prop) s s' : (∀ h a, J h a → J' h a) → orderly J s s' → orderly J' s s'.
Proof. intros HJ (l & E & Hl). exists l. split; [done|]. eauto. Qed.

Section Orderly.
Context (J : history → action → Prop) `{Env} `{Ctx} `{Sleep} `{Remote} `{Local}.

Lemma ord_call {A} (ask : history → res A) record : (∀ h r, J h (record r)) → keeps (orderly J) (call ask record).
Proof. intros HJ w. apply wp_call. intros n. by eapply orderly_one. Qed.

Lemma ord_observe {A} (ask : history → A) record : (∀ h r, J h (record r)) → keeps (orderly J) (observe ask record).
Proof. intros HJ w. unfold wp, observe. simpl. by eapply orderly_one. Qed.

Lemma ord_on_db {A} (m : M Database A) : keeps (orderly J) (on_db m).
Proof. intros w. apply wp_on_db, wp_intro. intros r w' _. by apply orderly_nil. Qed.

Lemma ord_ctx_live : keeps (orderly J) ctx_live.
Proof. intros w. apply wp_ctx_live; intros; by apply orderly_nil. Qed.
Lemma ord_ctx_over : keeps (orderly J) ctx_over.
Proof. intros w. apply wp_ctx_over; intros; by apply orderly_nil. Qed.
Lemma ord_sleep d : keeps (orderly J) (sleepContext d).
Proof. intros w. apply wp_sleep; intros; by apply orderly_nil. Qed.
Lemma ord_try {A} (m : M Pipe A) : keeps (orderly J) m → keeps (orderly J) (try_ m).
Proof. intros Hm. apply keeps_bind; [apply _|by apply keeps_attempt|]. intros. apply keeps_ret, _. Qed.
Lemma ord_or_zero {A} (z : A) (m : M Pipe A) : keeps (orderly J) m → keeps (orderly J) (or_zero z m).
Proof. intros Hm. apply keeps_bind; [apply _|by apply keeps_attempt|]. intros. apply keeps_ret, _. Qed.
End Orderly.

#[export] Hint Resolve ord_call ord_observe ord_on_db ord_ctx_live ord_ctx_over ord_sleep ord_try ord_or_zero : keeps.
