(* ===== verification/Autofill.v ===== *)
(** Finding the missing episodes of a series ([src/internal/service/autofill.go]): the
    candidates of the resource index, the files of their shares, the episode each file is
    taken for, and which candidate provides which episode.  [AutofillRun.v] is the task
    that uses them.

    [Format] is how Go prints a [float64] with [strconv.FormatFloat(x, 'f', -1, 64)] and a
    composite value with [fmt.Sprint]. *)
From S2P Require Import Prelude GoStrings GoPath Regexp Sql Schema Accounts Payload FileSys Episodes Remote Drive Destination.
From S2P Require Import Identity Service Local.
From Stdlib Require Import Ascii.

Class Format := { format_float : Q → string; sprint : value → string }.

(** ** Candidates *)

Record autoFillCandidate := mkCandidate {
  ac_ID : string; ac_Provider : string; ac_Title : string; ac_URL : string; ac_Password : string; ac_DiscoveryError : string
}.

Definition or_115 (provider : string) : string :=
  let provider := to_lower (trim_space provider) in if bool_decide (provider = "") then "115" else provider.

(** A field of a JSON object, and [text, _ := object[key].(string)]. *)
Definition member (v : value) (key : string) : option value :=
  match v with VObject fields => (list_to_map fields : gmap string value) !! key | _ => None end.
Definition text_member (v : value) (key : string) : string :=
  match member v key with Some (VString s) => s | _ => "" end.

Definition id_text `{Format} (v : option value) : string :=
  match v with
  | Some (VFloat q) => format_float q
  | Some (VString s) => s
  | Some (VBool b) => if b then "true" else "false"
  | Some VNull | None => absent
  | Some v => sprint v
  end.

Definition add_candidate `{Format} (providerName : string) (candidates : list autoFillCandidate) (link : value)
    : list autoFillCandidate :=
  let rawURL := text_member link "url" in
  let title := text_member link "title" in
  if bool_decide (rawURL = "") || bool_decide (title = "") then candidates
  else if bool_decide (rawURL ∈ ac_URL <$> candidates) then candidates
  else candidates ++ [mkCandidate (id_text (member link "id")) providerName title rawURL (text_member link "password") ""].

Definition parseAutoFillCandidates `{Format} (result : value) (providerName : string) : list autoFillCandidate :=
  let links := match member result "links" with Some (VArray l) => l | _ => [] end in
  foldl (add_candidate (or_115 providerName)) [] links.

(** The loop that alternates the two providers. *)
Definition alternate (limit : nat) (xs ys : list autoFillCandidate) : list autoFillCandidate :=
  foldl (λ candidates index,
    if bool_decide (limit ≤ length candidates) then candidates else
    let candidates := candidates ++ option_list (xs !! index) in
    if bool_decide (length candidates < limit) then candidates ++ option_list (ys !! index) else candidates)
    [] (seq 0 (length xs `max` length ys)).

(** ** Errors *)

(** [errors.As] for [*url.Error], and for [*ProviderHTTPError] with its status: the first
    one met. *)
Fixpoint is_transport (e : error) : bool :=
  match e with
  | ErrTransport _ => true
  | ErrWrap _ i | ErrThen i _ => is_transport i
  | ErrBoth e1 e2 => is_transport e1 || is_transport e2
  | _ => false
  end.
Fixpoint http_status (e : error) : option Z :=
  match e with
  | ErrStatus _ status => Some status
  | ErrWrap _ i | ErrThen i _ => http_status i
  | ErrBoth e1 e2 => match http_status e1 with Some z => Some z | None => http_status e2 end
  | _ => None
  end.

Definition stopAutoFillShareProbes (e : error) : bool :=
  if error_is e ErrCanceled || error_is e ErrDeadline then true
  else if is_transport e then true
  else match http_status e with
       | None => false
       | Some status => Z.eqb status 401 || Z.eqb status 405 || Z.eqb status 429 || Z.leb 500 status
       end.

(** [strings.ReplaceAll] of a text that is not empty. *)
Fixpoint replace_chars (fuel : nat) (old new l : list ascii) : list ascii :=
  match fuel, l with
  | S fuel, a :: l' =>
      match strip_prefix old l with
      | Some rest => new ++ replace_chars fuel old new rest
      | None => a :: replace_chars fuel old new l'
      end
  | _, _ => []
  end.
Definition replace_text (s old new : string) : string :=
  of_chars (replace_chars (length (chars s)) (chars old) (chars new) (chars s)).

Definition publicAutoFillError (c : autoFillCandidate) (e : error) : string :=
  foldl (λ message secret, if bool_decide (secret = "") then message else replace_text message secret "[redacted]")
    (error_text e) [ac_URL c; ac_Password c].

(** [errors.Join] of errors that may be absent, and of a list. *)
Definition join_errors (a b : option error) : option error :=
  match a, b with
  | Some a, Some b => Some (ErrBoth a b)
  | Some a, None => Some a
  | None, b => b
  end.
Definition joined (l : list error) : option error := foldl (λ r e, join_errors r (Some e)) None l.
Definition failed {A} (r : res A) : option error := match r with Ok _ => None | Err e => Some e end.

(** ** Episodes *)

#[global] Instance key_le_dec (x y : episodeKey) :
  Decision (Season x < Season y ∨ Season x = Season y ∧ Episode x ≤ Episode y)%Z.
Proof. apply _. Defined.
Definition key_le (x y : episodeKey) : Prop := (Season x < Season y ∨ Season x = Season y ∧ Episode x ≤ Episode y)%Z.
#[global] Instance key_le_decision : RelDecision key_le.
Proof. intros x y. apply key_le_dec. Defined.

Definition sort_keys (l : list episodeKey) : list episodeKey := merge_sort key_le l.
Definition sortedEpisodeLabels (keys : gset episodeKey) : list string := key_String <$> sort_keys (elements keys).

Definition missing_key (e : EmbyMissingEpisode) : episodeKey := mkKey (me_SeasonNumber e) (me_EpisodeNumber e).

(** [gapsBySeries]: the series in the order met, the gaps and the name of each. *)
Record series_gaps := mkGaps { ga_order : list string; ga_gaps : gmap string (gset episodeKey); ga_names : gmap string string }.
Definition add_gap (g : series_gaps) (e : EmbyMissingEpisode) : series_gaps :=
  let id := me_SeriesID e in
  let old := ga_gaps g !! id in
  mkGaps (if old is Some _ then ga_order g else ga_order g ++ [id])
    (<[id := {[missing_key e]} ∪ default ∅ old]> (ga_gaps g))
    (if old is Some _ then ga_names g else <[id := me_SeriesName e]> (ga_names g)).
Definition gapsBySeries (episodes : list EmbyMissingEpisode) : series_gaps := foldl add_gap (mkGaps [] ∅ ∅) episodes.

Definition filterAutoFillMissingEpisodes (episodes : list EmbyMissingEpisode) (seriesIDs : list string) : list EmbyMissingEpisode :=
  if bool_decide (length seriesIDs = 0) then episodes
  else base.filter (λ e, me_SeriesID e ∈ seriesIDs) episodes.

(** ** The choice of files *)

(** [candidateMatch]: the parallel slices of the selection are one list. *)
Record candidateMatch := mkMatch {
  cm_candidate : autoFillCandidate; cm_shareTitle : string; cm_selected : list (episodeKey * autoFillLeaf)
}.
Definition cm_keys (m : candidateMatch) : list episodeKey := (cm_selected m).*1.

(** One file: it is taken for the first episode of its name that is missing and not yet
    provided by this candidate. *)
Definition claim_leaf `{Unicode} (gaps : gset episodeKey) (series : option EmbyMediaItem) (candidateTitle shareTitle : string)
    (selected : list (episodeKey * autoFillLeaf)) (leaf : autoFillLeaf) : list (episodeKey * autoFillLeaf) :=
  if negb (autoFillEpisodeIdentityMatches series candidateTitle shareTitle leaf) then selected else
  match find (λ key, bool_decide (key ∈ gaps) && negb (bool_decide (key ∈ selected.*1))) (episodeKeysFromName (lf_Name leaf)) with
  | Some key => selected ++ [(key, leaf)]
  | None => selected
  end.

Definition inspect_leaves `{Unicode} (gaps : gset episodeKey) (series : option EmbyMediaItem) (c : autoFillCandidate)
    (shareTitle : string) (leaves : list autoFillLeaf) : candidateMatch :=
  mkMatch c shareTitle (foldl (claim_leaf gaps series (ac_Title c) shareTitle) [] leaves).

(** [byEpisode]: for each episode the candidates that provide it, in their order. *)
Definition add_match (m : gmap episodeKey (list nat)) (ic : nat * candidateMatch) : gmap episodeKey (list nat) :=
  foldl (λ m key, <[key := default [] (m !! key) ++ [ic.1]]> m) m (cm_keys ic.2).
Definition byEpisode (inspected : list candidateMatch) : gmap episodeKey (list nat) :=
  foldl add_match ∅ (imap pair inspected).

Record AutoFillConflict := mkConflict { cf_Episode : string; cf_ResourceIDs : list string }.

(** What the loop over the episodes decides. *)
Record selection := mkChoice {
  sl_chosen : gmap nat (list episodeKey); sl_matched : gset episodeKey; sl_conflicts : list AutoFillConflict;
  sl_overrideMatched : bool
}.

Definition qualified (c : autoFillCandidate) : string := ac_Provider c +:+ ":" +:+ ac_ID c.
Definition overridden (override : string) (c : autoFillCandidate) : bool :=
  bool_decide (ac_ID c = override) || bool_decide (qualified c = override).

Definition candidate_at (inspected : list candidateMatch) (index : nat) : option autoFillCandidate :=
  cm_candidate <$> inspected !! index.
Definition overridden_at (override : string) (inspected : list candidateMatch) (index : nat) : bool :=
  match candidate_at inspected index with Some c => overridden override c | None => false end.

Definition choose_one (key : episodeKey) (index : nat) (viaOverride : bool) (s : selection) : selection :=
  mkChoice (<[index := default [] (sl_chosen s !! index) ++ [key]]> (sl_chosen s)) ({[key]} ∪ sl_matched s)
    (sl_conflicts s) (sl_overrideMatched s || viaOverride).
Definition add_conflict (key : episodeKey) (ids : list string) (s : selection) : selection :=
  mkChoice (sl_chosen s) (sl_matched s) (sl_conflicts s ++ [mkConflict (key_String key) ids]) (sl_overrideMatched s).

Definition choose_episode (override : string) (inspected : list candidateMatch) (m : gmap episodeKey (list nat))
    (s : selection) (key : episodeKey) : selection :=
  let refs := default [] (m !! key) in
  if negb (bool_decide (override = "")) then
    match find (overridden_at override inspected) refs with
    | Some index => choose_one key index true s
    | None => add_conflict key [override] s
    end
  else match refs with
  | [index] => choose_one key index false s
  | _ => add_conflict key (merge_sort (λ x y, String.leb x y = true) (qualified <$> omap (candidate_at inspected) refs)) s
  end.

Definition choose_episodes (override : string) (inspected : list candidateMatch) : selection :=
  let m := byEpisode inspected in
  foldl (choose_episode override inspected m) (mkChoice ∅ ∅ [] false) (sort_keys (map_to_list m).*1).

(** The part of the selection of a candidate that was chosen: the entries of the episodes
    [keys]. *)
Definition chosen_entries (m : candidateMatch) (keys : list episodeKey) : list (episodeKey * autoFillLeaf) :=
  e ← cm_selected m; _ ← base.filter (λ k, k = e.1) keys; [e].

(** ** Requests *)

Section Autofill.
Context `{Env} `{Ctx} `{Sleep} `{Remote} `{Providers} `{Local} `{Urls} `{Sha256} `{Format}.
Abbreviation Pi := (M Pipe).

(** [SearchResourcesCtx] with the query the search makes. *)
Definition SearchResourcesCtx (query disk : string) (limit : Z) : Pi value :=
  call (λ h, sv_search h query disk limit) (ASearch query disk limit).

(** The candidates, and the errors that only lose candidates. *)
Definition searchAutoFillCandidates (seriesName : string) (limit : Z) : Pi (list autoFillCandidate * list error) :=
  result ← SearchResourcesCtx seriesName "115" limit;
  let c115 := parseAutoFillCandidates result "115" in
  account ← attempt (GetDefaultAccount "quark");
  '(quark, isolated) ←
    match account with
    | Err _ => mret ([], [])
    | Ok _ =>
        result ← attempt (SearchResourcesCtx seriesName "quark" limit);
        mret match result with
        | Ok result => (parseAutoFillCandidates result "quark", [])
        | Err e => ([], [ErrWrap "quark resource discovery: " e])
        end
    end;
  mret (alternate (Z.to_nat limit) c115 quark, isolated).

(** The video files of a snapshot. *)
Definition leaf_of (e : ShareEntry) : autoFillLeaf := mkLeaf (se_ID e) (se_Revision e) (se_Name e) (se_Size e) (se_Ancestors e).
Definition leaves_of (entries : list ShareEntry) : list autoFillLeaf :=
  leaf_of <$> base.filter (λ e, negb (se_IsDir e) && is_video (se_Name e) = true) entries.

(** [scanAutoFillShare]: the title, also with an error, and the files. *)
Definition scanAutoFillShare (c : autoFillCandidate) : Pi (string * res (list autoFillLeaf)) :=
  let provider := if bool_decide (or_115 (ac_Provider c) = "quark") then "quark" else "115" in
  account ← attempt (GetDefaultAccount provider);
  match account with
  | Err e => mret ("", Err e)
  | Ok a =>
      '(title, entries) ← SnapshotProviderShareTree provider a.1 (ac_URL c) (ac_Password c);
      mret (title, leaves_of <$> entries)
  end.

Definition autoFillMountWait : Z := 2 * minute.
Definition autoFillFolderVisibilityAttempts : nat := 30.

(** The listing of one attempt; nothing bounds the total a drive may claim, so [rounds]
    bounds the pages and [None] is a listing that is not over. *)
Fixpoint folder_pages (libraryCID folderName : string) (rounds : nat) (offset : Z) (matches : list string)
    : Pi (option (list string)) :=
  match rounds with
  | O => mret None
  | S rounds =>
      '(files, total) ← listFiles "" libraryCID offset 1000;
      let matches := matches ++ (df_FileID <$> base.filter (λ f, df_IsFolder f && bool_decide (df_Name f = folderName) = true) files) in
      let offset := (offset + Z.of_nat (length files))%Z in
      if bool_decide (length files = 0) || Z.leb total offset then mret (Some matches)
      else folder_pages libraryCID folderName rounds offset matches
  end.

Fixpoint folder_attempts (libraryCID folderName : string) (rounds attempts : nat) : Pi (option string) :=
  match attempts with
  | O => throw (ErrText ("expected one 115 folder named " +:+ folderName +:+ " under the library, found 0 after waiting 29s"))
  | S attempts =>
      matches ← folder_pages libraryCID folderName rounds 0 [];
      match matches with
      | None => mret None
      | Some [cid] => mret (Some cid)
      | Some [] => _ ← (if bool_decide (attempts = 0) then mret tt else sleepContext second);
                   folder_attempts libraryCID folderName rounds attempts
      | Some l => throw (ErrText ("expected one 115 folder named " +:+ folderName +:+ " under the library, found "
                                  +:+ pretty (length l)))
      end
  end.

Definition resolveAutoFillFolder (rounds : nat) (libraryCID folderName : string) : Pi string :=
  finished_wait (folder_attempts libraryCID folderName rounds autoFillFolderVisibilityAttempts).

(** A loop that sleeps [pause] between its rounds until a round is done or the deadline is
    over, which fails with the error the last round gives for it; [None]: out of [rounds]. *)
Fixpoint poll {A} (round : Pi (A + error)) (pause deadline : Z) (rounds : nat) : Pi (option A) :=
  match rounds with
  | O => mret None
  | S rounds =>
      r ← round;
      match r with
      | inl a => mret (Some a)
      | inr late =>
          t ← now;
          if Z.ltb deadline t then throw late else _ ← sleepContext pause; poll round pause deadline rounds
      end
  end.

Definition poll_fuel : nat := Z.to_nat (autoFillMountWait / (2 * second)) + 2.

Definition poll_mount {A} (round : Pi (A + error)) : Pi A :=
  t ← now; finished_wait (poll round (2 * second) (t + autoFillMountWait) poll_fuel).

(** How many of the files are not there. *)
Definition missing_files (paths : list string) : Pi Z :=
  m_fold (λ missing path,
    r ← attempt (os_info (LStat path));
    match r with
    | Ok _ => mret missing
    | Err e => if is_not_exist e then mret (missing + 1)%Z else throw e
    end) paths 0%Z.

Definition waitForAutoFillFiles (paths : list string) : Pi unit :=
  poll_mount
    (missing ← missing_files paths;
     mret (if Z.eqb missing 0 then inl tt
           else inr (ErrText (pretty missing +:+ " transferred file(s) did not appear in CloudDrive within 2m0s")))).

End Autofill.

#[global] Arguments poll_fuel : simpl never.
#[local] Opaque episodeKeysFromName autoFillEpisodeIdentityMatches.

(** * Properties *)

Section Choice.
Context `{Unicode}.

(** A file names a missing episode of the series. *)
Definition wanted_by (gaps : gset episodeKey) (series : option EmbyMediaItem) (c : autoFillCandidate) (shareTitle : string)
    (leaf : autoFillLeaf) (key : episodeKey) : Prop :=
  autoFillEpisodeIdentityMatches series (ac_Title c) shareTitle leaf = true ∧ key ∈ gaps ∧ key ∈ episodeKeysFromName (lf_Name leaf).

Definition claims_well gaps series c shareTitle (leaves : list autoFillLeaf) (selected : list (episodeKey * autoFillLeaf)) : Prop :=
  NoDup selected.*1 ∧
  (∀ key leaf, (key, leaf) ∈ selected → leaf ∈ leaves ∧ wanted_by gaps series c shareTitle leaf key) ∧
  (∀ leaf key, leaf ∈ leaves → wanted_by gaps series c shareTitle leaf key → key ∈ selected.*1 ∨ leaf ∈ selected.*2) ∧
  sublist selected.*2 leaves.

Lemma claim_step gaps series c shareTitle leaves selected leaf :
  claims_well gaps series c shareTitle leaves selected →
  claims_well gaps series c shareTitle (leaves ++ [leaf]) (claim_leaf gaps series (ac_Title c) shareTitle selected leaf).
Proof.
  intros (Hnd & Hs & Hc & Hsub). unfold claim_leaf, wanted_by in *.
  assert (sublist selected.*2 (leaves ++ [leaf])) as Hsub' by (by apply sublist_inserts_r).
  destruct (autoFillEpisodeIdentityMatches _ _ _ leaf) eqn:Hid; simpl.
  2: { split_and!; [done| |intros l k [Hl| ->%list_elem_of_singleton]%elem_of_app Hw; [eauto|by destruct Hw as [? _]; congruence]|done].
       intros k l Hk. destruct (Hs k l Hk). split; [apply elem_of_app; by left|done]. }
  destruct (find _ _) as [key|] eqn:Hf.
  - apply find_some in Hf as [Hin Hb]. apply list_elem_of_In in Hin.
    rewrite andb_true_iff, negb_true_iff, bool_decide_eq_true, bool_decide_eq_false in Hb. destruct Hb as [Hg Hn].
    split; [|split; [|split]].
    + rewrite fmap_app. apply NoDup_app. split_and!; [done| |apply NoDup_singleton].
      intros k Hk ->%list_elem_of_singleton. done.
    + intros k l [Hk|[= -> ->]%list_elem_of_singleton]%elem_of_app.
      * destruct (Hs k l Hk). split; [apply elem_of_app; by left|done].
      * split; [apply elem_of_app; right; by left|done].
    + intros l k Hl Hw. rewrite !fmap_app, !elem_of_app. apply elem_of_app in Hl as [Hl| ->%list_elem_of_singleton].
      * destruct (Hc l k Hl Hw); [left; by left|right; by left].
      * right. right. by left.
    + rewrite fmap_app. by apply sublist_app.
  - split; [done|]. split; [|split; [|done]].
    + intros k l Hk. destruct (Hs k l Hk). split; [apply elem_of_app; by left|done].
    + intros l k [Hl| ->%list_elem_of_singleton]%elem_of_app Hw; [eauto|]. left. destruct Hw as (_ & Hg & Hk).
      destruct (decide (k ∈ selected.*1)) as [|Hno]; [done|]. exfalso. apply list_elem_of_In in Hk.
      eapply find_none in Hf; [|exact Hk]. rewrite andb_false_iff, negb_false_iff, bool_decide_eq_false, bool_decide_eq_true in Hf.
      naive_solver.
Qed.

Lemma inspect_well gaps series c shareTitle leaves :
  claims_well gaps series c shareTitle leaves (cm_selected (inspect_leaves gaps series c shareTitle leaves)).
Proof.
  unfold inspect_leaves; simpl. induction leaves as [|leaf leaves IH] using rev_ind; simpl.
  - split_and!; [apply NoDup_nil_2|intros ? ? []%elem_of_nil|intros ? ? []%elem_of_nil|done].
  - rewrite foldl_app. simpl. by apply claim_step.
Qed.

Definition share_files : Type := autoFillCandidate * string * list autoFillLeaf.
Definition inspect_all gaps series (shares : list share_files) : list candidateMatch :=
  (λ s, inspect_leaves gaps series s.1.1 s.1.2 s.2) <$> shares.

(** From the files of a share the auto-fill takes a file for an episode only if the
    episode is missing, is in the name of the file, and the file names the series; it takes
    one file for an episode and one episode from a file; and it leaves no file it could take
    for an episode no other file was taken for. *)
Theorem files_claimed gaps series c shareTitle leaves :
  claims_well gaps series c shareTitle leaves (cm_selected (inspect_leaves gaps series c shareTitle leaves)).
Proof. apply inspect_well. Qed.
End Choice.

(** ** Which candidate provides an episode *)

Definition provides (inspected : list candidateMatch) (i : nat) (key : episodeKey) : Prop :=
  ∃ m, inspected !! i = Some m ∧ key ∈ cm_keys m.
#[global] Instance provides_dec inspected i key : Decision (provides inspected i key).
Proof.
  refine (match inspected !! i as o return inspected !! i = o → _ with
          | Some m => λ E, cast_if (decide (key ∈ cm_keys m)) | None => λ E, right _ end eq_refl);
    unfold provides; naive_solver.
Defined.

Definition providers (inspected : list candidateMatch) (key : episodeKey) : list nat :=
  base.filter (λ i, provides inspected i key) (seq 0 (length inspected)).

Lemma elem_of_providers inspected key i : i ∈ providers inspected key ↔ provides inspected i key.
Proof.
  unfold providers. rewrite list_elem_of_filter, elem_of_seq. split; [tauto|]. intros Hp. split; [done|].
  destruct Hp as (m & Hm & _). apply lookup_lt_Some in Hm. lia.
Qed.

Lemma filter_agree {A} (P Q : A → Prop) `{!∀ x, Decision (P x), !∀ x, Decision (Q x)} (l : list A) :
  (∀ x, x ∈ l → P x ↔ Q x) → base.filter P l = base.filter Q l.
Proof.
  induction l as [|x l IH]; intros HPQ; [done|]. rewrite !filter_cons, IH by (intros; apply HPQ; by right).
  assert (P x ↔ Q x) by (apply HPQ; by left). repeat case_decide; naive_solver.
Qed.

Lemma providers_app inspected m key :
  providers (inspected ++ [m]) key =
  providers inspected key ++ (if decide (key ∈ cm_keys m) then [length inspected] else []).
Proof.
  unfold providers. rewrite length_app, seq_app, filter_app. f_equal.
  - apply filter_agree. intros i Hi. apply elem_of_seq in Hi. unfold provides.
    rewrite lookup_app_l by lia. done.
  - cbn [length seq Nat.add]. rewrite filter_cons, filter_nil.
    assert (provides (inspected ++ [m]) (length inspected) key ↔ key ∈ cm_keys m) as Hp.
    { unfold provides. rewrite lookup_app_r, Nat.sub_diag by lia. naive_solver. }
    repeat case_decide; naive_solver.
Qed.

Lemma add_match_spec m i c key :
  NoDup (cm_keys c) →
  default [] (add_match m (i, c) !! key) = default [] (m !! key) ++ (if decide (key ∈ cm_keys c) then [i] else []) ∧
  (is_Some (add_match m (i, c) !! key) ↔ is_Some (m !! key) ∨ key ∈ cm_keys c).
Proof.
  unfold add_match. simpl. revert m. induction (cm_keys c) as [|k l IH]; intros m Hnd; simpl.
  { rewrite app_nil_r, elem_of_nil. tauto. }
  apply NoDup_cons in Hnd as [Hk Hnd]. destruct (IH (<[k:=default [] (m !! k) ++ [i]]> m) Hnd) as [-> ->].
  destruct (decide (key = k)) as [->|Hne].
  - rewrite lookup_insert_eq. split.
    + rewrite (decide_False (P := k ∈ l)), app_nil_r by done. by rewrite decide_True by (by left).
    + rewrite elem_of_cons. naive_solver.
  - rewrite lookup_insert_ne by done. split; [|rewrite elem_of_cons; naive_solver]. f_equal.
    repeat case_decide; rewrite ?elem_of_cons in *; naive_solver.
Qed.

Lemma byEpisode_spec inspected key :
  Forall (λ m, NoDup (cm_keys m)) inspected →
  default [] (byEpisode inspected !! key) = providers inspected key ∧
  (is_Some (byEpisode inspected !! key) ↔ ∃ i, provides inspected i key).
Proof.
  intros Hnd. unfold byEpisode. induction inspected as [|m inspected IH] using rev_ind.
  { simpl. rewrite lookup_empty. split; [done|]. split; [intros [? [=]]|intros (i & m & Hm & _)]. by rewrite lookup_nil in Hm. }
  apply Forall_app in Hnd as [Hnd Hm]. rewrite Forall_singleton in Hm. destruct (IH Hnd) as [IH1 IH2].
  rewrite imap_app, foldl_app. simpl.
  destruct (add_match_spec (foldl add_match ∅ (imap pair inspected)) (length inspected + 0) m key Hm) as [-> ->].
  rewrite Nat.add_0_r, IH1, IH2, providers_app. split; [done|].
  setoid_rewrite <-elem_of_providers. rewrite providers_app.
  setoid_rewrite elem_of_app. case_decide as Hin; [|setoid_rewrite elem_of_nil; naive_solver].
  setoid_rewrite list_elem_of_singleton. naive_solver.
Qed.

(** What the loop does with an episode. *)
Definition decided (override : string) (inspected : list candidateMatch) (key : episodeKey) : option nat :=
  if bool_decide (override = "") then match providers inspected key with [i] => Some i | _ => None end
  else find (overridden_at override inspected) (providers inspected key).
Definition conflict_of (override : string) (inspected : list candidateMatch) (key : episodeKey) : AutoFillConflict :=
  mkConflict (key_String key)
    (if bool_decide (override = "")
     then merge_sort (λ x y, String.leb x y = true) (qualified <$> omap (candidate_at inspected) (providers inspected key))
     else [override]).

Lemma choose_episode_decided override inspected m s key :
  default [] (m !! key) = providers inspected key →
  choose_episode override inspected m s key =
  match decided override inspected key with
  | Some i => choose_one key i (negb (bool_decide (override = ""))) s
  | None => add_conflict key (cf_ResourceIDs (conflict_of override inspected key)) s
  end.
Proof.
  intros E. unfold choose_episode, decided, conflict_of. rewrite E. destruct (bool_decide (override = "")); simpl.
  - by repeat case_match; simplify_eq.
  - by case_match.
Qed.

Lemma choose_all_spec override inspected m keys s :
  (∀ key, default [] (m !! key) = providers inspected key) →
  let s' := foldl (choose_episode override inspected m) s keys in
  (∀ i, default [] (sl_chosen s' !! i) =
        default [] (sl_chosen s !! i) ++ base.filter (λ key, decided override inspected key = Some i) keys) ∧
  (∀ key, key ∈ sl_matched s' ↔ key ∈ sl_matched s ∨ key ∈ keys ∧ is_Some (decided override inspected key)) ∧
  sl_conflicts s' = sl_conflicts s ++
    (conflict_of override inspected <$> base.filter (λ key, decided override inspected key = None) keys) ∧
  (sl_overrideMatched s' = true ↔
   sl_overrideMatched s = true ∨ override ≠ "" ∧ ∃ key, key ∈ keys ∧ is_Some (decided override inspected key)).
Proof.
  intros Hm. revert s. induction keys as [|key keys IH]; intros s; simpl.
  { setoid_rewrite elem_of_nil. setoid_rewrite app_nil_r. naive_solver. }
  rewrite choose_episode_decided by done. setoid_rewrite elem_of_cons.
  destruct (decided override inspected key) as [j|] eqn:Hd; simpl.
  - destruct (IH (choose_one key j (negb (bool_decide (override = ""))) s)) as (Hc & Hk & Hf & Ho). simpl in *.
    split; [|split; [|split]].
    + intros i. rewrite Hc, filter_cons. destruct (decide (i = j)) as [->|Hne].
      * rewrite lookup_insert_eq, decide_True by done. simpl. by rewrite <-app_assoc.
      * rewrite lookup_insert_ne, decide_False by congruence. done.
    + intros k. rewrite Hk. set_unfold. split; [|naive_solver]. intros [[->|?]|?]; [right|..]; naive_solver.
    + by rewrite Hf, filter_cons, decide_False by congruence.
    + rewrite Ho, orb_true_iff, negb_true_iff, bool_decide_eq_false. naive_solver.
  - destruct (IH (add_conflict key (cf_ResourceIDs (conflict_of override inspected key)) s)) as (Hc & Hk & Hf & Ho). simpl in *.
    split; [|split; [|split]].
    + intros i. by rewrite Hc, filter_cons, decide_False by congruence.
    + intros k. rewrite Hk. split; [naive_solver|]. intros [?|[[->|?] [? ?]]]; [by left|congruence|right; eauto].
    + rewrite Hf, filter_cons, decide_True by done. by rewrite <-app_assoc.
    + rewrite Ho. split; [naive_solver|]. intros [?|(? & k & [->|?] & [? ?])]; [by left|congruence|right; eauto].
Qed.

(** A candidate is the one an episode is taken from. *)
Definition decides (override : string) (inspected : list candidateMatch) (i : nat) (key : episodeKey) : Prop :=
  provides inspected i key ∧
  if decide (override = "") then ∀ j, provides inspected j key → j = i
  else overridden_at override inspected i = true ∧
       ∀ j, provides inspected j key → overridden_at override inspected j = true → i ≤ j.

Lemma providers_sorted inspected key : StronglySorted lt (providers inspected key).
Proof.
  unfold providers. generalize (length inspected). intros n.
  assert (∀ a, StronglySorted lt (seq a n)) as Hseq.
  { induction n as [|n IH]; intros a; simpl; [constructor|]. constructor; [apply IH|].
    apply Forall_forall. intros x Hx%elem_of_seq. lia. }
  specialize (Hseq 0). induction Hseq as [|x l _ IH Hx]; [constructor|]. rewrite filter_cons. case_decide; [|done].
  constructor; [done|]. apply Forall_forall. intros y [_ Hy]%list_elem_of_filter. by eapply Forall_forall in Hx.
Qed.

Lemma find_first (P : nat → bool) l i :
  StronglySorted lt l → find P l = Some i ↔ i ∈ l ∧ P i = true ∧ ∀ j, j ∈ l → P j = true → i ≤ j.
Proof.
  induction 1 as [|x l _ IH Hx]; simpl; [setoid_rewrite elem_of_nil; naive_solver|]. setoid_rewrite elem_of_cons.
  rewrite Forall_forall in Hx. destruct (P x) eqn:HP.
  - split; [intros [= ->]; split_and!; [by left|done|]; intros j [->|Hj] _; [lia|apply Hx in Hj; lia]|].
    intros ([->|Hi] & _ & Hmin); [done|]. specialize (Hmin x (or_introl eq_refl) HP). apply Hx in Hi. lia.
  - rewrite IH. split.
    + intros (Hi & HPi & Hmin). split_and!; [by right|done|]. intros j [->|Hj] HPj; [congruence|auto].
    + intros ([->|Hi] & HPi & Hmin); [congruence|]. split_and!; [done..|]. auto.
Qed.

Lemma decided_spec override inspected i key :
  decided override inspected key = Some i ↔ decides override inspected i key.
Proof.
  unfold decided, decides. pose proof (providers_sorted inspected key) as Hs.
  destruct (decide (override = "")) as [->|Hne]; setoid_rewrite <-elem_of_providers.
  - rewrite bool_decide_true by done. destruct (providers inspected key) as [|a [|b l]].
    + split; [done|]. by intros [?%elem_of_nil _].
    + split; [intros [= ->]; split; [by left|by intros j ->%list_elem_of_singleton]|by intros [->%list_elem_of_singleton _]].
    + split; [done|]. intros [_ Hall]. inversion Hs as [|? ? _ Hab]; simplify_eq. apply Forall_cons in Hab as [Hab _].
      rewrite (Hall a), (Hall b) in Hab; [lia|right; by left|by left].
  - rewrite bool_decide_false by done. by rewrite find_first.
Qed.

Lemma decided_none override inspected key :
  decided override inspected key = None ↔ ¬ ∃ i, decides override inspected i key.
Proof. setoid_rewrite <-decided_spec. destruct (decided override inspected key); naive_solver. Qed.

Section Chosen.
Context `{Unicode}.

(** C32: An episode is taken from a candidate exactly when that candidate alone provides it,
    or, when the caller named a resource, when it is the first of that resource to provide
    it.  The episodes of a candidate are each listed once; an episode someone provides that
    is taken from nobody is a conflict, with the resources in question; nothing else is. *)
Theorem choice_exact gaps series override (shares : list share_files) :
  let inspected := inspect_all gaps series shares in
  let s := choose_episodes override inspected in
  (∀ i key, key ∈ default [] (sl_chosen s !! i) ↔ decides override inspected i key) ∧
  (∀ i, NoDup (default [] (sl_chosen s !! i))) ∧
  (∀ key, key ∈ sl_matched s ↔ ∃ i, decides override inspected i key) ∧
  (∀ c, c ∈ sl_conflicts s ↔
    ∃ key, (∃ i, provides inspected i key) ∧ (¬ ∃ i, decides override inspected i key) ∧ c = conflict_of override inspected key) ∧
  (sl_overrideMatched s = true ↔ override ≠ "" ∧ ∃ i key, decides override inspected i key).
Proof.
  intros inspected s.
  assert (Forall (λ m, NoDup (cm_keys m)) inspected) as Hnd.
  { apply Forall_forall. intros m (sh & -> & _)%list_elem_of_fmap. apply (inspect_well gaps series sh.1.1 sh.1.2 sh.2). }
  set (keys := sort_keys (map_to_list (byEpisode inspected)).*1).
  assert (∀ key, key ∈ keys ↔ ∃ i, provides inspected i key) as Hkeys.
  { intros key. unfold keys, sort_keys. rewrite (merge_sort_Permutation key_le), <-(proj2 (byEpisode_spec inspected key Hnd)).
    rewrite list_elem_of_fmap. split.
    - intros ([k v] & -> & Hv%elem_of_map_to_list). eauto.
    - intros [v Hv%elem_of_map_to_list]. by exists (key, v). }
  assert (NoDup keys) as Hnk.
  { unfold keys, sort_keys. rewrite (merge_sort_Permutation key_le). apply NoDup_fst_map_to_list. }
  destruct (choose_all_spec override inspected (byEpisode inspected) keys (mkChoice ∅ ∅ [] false)) as (Hc & Hm & Hf & Ho).
  { intros key. by apply byEpisode_spec. }
  change (foldl (choose_episode override inspected (byEpisode inspected)) (mkChoice ∅ ∅ [] false) keys) with s in Hc, Hm, Hf, Ho.
  clearbody s. simpl in Hc, Hm, Hf, Ho.
  assert (∀ i key, decides override inspected i key → key ∈ keys) as Hdk.
  { intros i key [Hp _]. apply Hkeys. eauto. }
  split; [|split; [|split; [|split]]].
  - intros i key. rewrite Hc, lookup_empty. simpl. rewrite list_elem_of_filter, decided_spec. naive_solver.
  - intros i. rewrite Hc, lookup_empty. by apply NoDup_filter.
  - intros key. rewrite Hm. unfold is_Some. setoid_rewrite decided_spec. set_solver.
  - intros c. rewrite Hf, list_elem_of_fmap. setoid_rewrite list_elem_of_filter. setoid_rewrite decided_none.
    setoid_rewrite Hkeys. naive_solver.
  - rewrite Ho. unfold is_Some. setoid_rewrite decided_spec. naive_solver.
Qed.
End Chosen.
