(* ===== verification/Media.v ===== *)
(** The STRM tree ([src/internal/service/media.go] and [media_series.go]): where the STRM
    file of a media file belongs, the scan that plans the tree of a library, writing it,
    removing what is stale, and verifying the targets.

    Every operation on files is a request of [Local.v].  The two workers of
    [processConcurrently] are a schedule, [Workers]: the order in which the jobs are done,
    and which are still done after a failure; the operations of two jobs may interleave,
    which only changes what the operating system answers to each.  [Names] decodes a JSON
    list of strings. *)
From S2P Require Import Prelude GoStrings GoPath Regexp Sql Schema Accounts Payload FileSys Remote Episodes Identity Local.
From S2P Require Import Pipeline.
From Stdlib Require Import Ascii.

Class Names := { decode_names : string → option (list string) }.

Class Workers := {
  wk_order : nat → nat → list nat;          (* at a tick, for a number of jobs *)
  wk_perm t n : wk_order t n ≡ₚ seq 0 n;
  wk_late : nat → nat → bool                (* whether a job is still done after a failure *)
}.

Record STRMResult := mkSTRM {
  rs_MediaFiles : Z; rs_Created : Z; rs_Updated : Z; rs_Unchanged : Z; rs_Removed : Z; rs_RemovedDirectories : Z;
  rs_Valid : Z; rs_Missing : Z; rs_Invalid : Z; rs_Examples : list string; rs_PruneStatus : string
}.

(** ** Paths in the STRM tree *)

Definition legacySTRMSeasonPattern : re := seq_re [Begin; ilit "SE"; Cap 1 (Up1 2 digit_class); End_].
Definition legacySTRMEpisodePattern : re :=
  seq_re [ilit "SE"; Cap 1 (Up1 2 digit_class); lit "."; Cap 2 (Up1 4 digit_class)].

Definition legacySTRMSeason (directory : string) : option Z :=
  let l := runes directory in (λ m, atoi (group_text l m 1)) <$> find_re legacySTRMSeasonPattern l.

Definition canonicalSTRMDirectory (relative : string) : string :=
  let '(parent, directory) := split_path relative in
  match legacySTRMSeason directory with
  | None => relative
  | Some season => parent +:+ "Season " +:+ two_digits season
  end.

Section Series.
Context `{Unicode}.

(** The text between two positions is not part of a longer word. *)
Definition word_rune (o : option rune) : bool :=
  match o with Some r => is_letter (r_code r) || is_number (r_code r) | None => false end.
Definition strmEpisodeTokenBoundary (name : list rune) (start end_ : nat) : bool :=
  negb (bool_decide (0 < start) && word_rune (name !! (start - 1)))
  && negb (bool_decide (end_ < length name) && word_rune (name !! end_)).

(** The tokens that number an episode. *)
Definition episode_tokens (name : list rune) : list (nat * nat * episodeKey) :=
  p ← [seasonEpisodePattern; legacySTRMEpisodePattern];
  m ← find_all p name;
  if strmEpisodeTokenBoundary name (m_start m) (m_end m)
  then [(m_start m, m_end m, mkKey (atoi (group_text name m 1)) (atoi (group_text name m 2)))] else [].

Definition trim_suffix_slash (s : string) : string :=
  if has_suffix s "/" then of_chars (take (length (chars s) - 1) (chars s)) else s.

Definition canonicalSTRMPath (sourceRelative : string) : res string :=
  let '(directory, filename) := split_path sourceRelative in
  let stem := stem filename in
  let seasonDirectory := trim_suffix_slash directory in
  match legacySTRMSeason (base seasonDirectory) with
  | None => Ok (directory +:+ stem +:+ ".strm")
  | Some season =>
      let name := runes stem in
      match episode_tokens name with
      | [] => Err (ErrText ("missing explicit season/episode numbering in " +:+ sourceRelative))
      | [(start, end_, key)] =>
          if negb (Z.eqb (Season key) season) then
            Err (ErrText ("filename season " +:+ pretty (Season key) +:+ " disagrees with directory season " +:+ pretty season
                          +:+ " in " +:+ sourceRelative))
          else if Z.eqb (Episode key) 0 then Err (ErrText ("episode zero in " +:+ sourceRelative))
          else Ok (canonicalSTRMDirectory seasonDirectory +:+ "/" +:+ of_runes (take start name) +:+ key_String key
                   +:+ of_runes (drop end_ name) +:+ ".strm")
      | _ => Err (ErrText ("ambiguous season/episode numbering in " +:+ sourceRelative))
      end
  end.

(** ** The plan of a library *)

Record strmSyncJob := mkJob { sj_output : string; sj_contents : list string; sj_normalized : bool }.
Record strmRelocation := mkRelocation { sr_output : string; sr_contents : string }.

(** What the scan has found: the media files counted, the paths that belong in the tree,
    the files to write, the old paths of those that move, and the directories skipped. *)
Record scan := mkScan {
  sc_media : Z; sc_expected : gset string; sc_jobs : list strmSyncJob; sc_relocations : gmap string strmRelocation;
  sc_skipped : list string
}.

(** [path] of [filepath.WalkDir], and [entry.Name()]. *)
Definition entry_path (root : string) (e : walk_entry) : string :=
  if bool_decide (we_path e = "") then root else join_path [root; we_path e].
Definition entry_name (root : string) (e : walk_entry) : string := base (entry_path root e).
Definition entry_is_dir (e : walk_entry) : bool := bool_decide (we_type e = FDir).

Definition below_skipped (skipped : list string) (e : walk_entry) : bool :=
  existsb (λ d, has_prefix (we_path e) (d +:+ "/")) skipped.

(** The jobs with one more content: [None] when it may not share its output. *)
Fixpoint add_content (output content : string) (normalized : bool) (jobs : list strmSyncJob) : option (list strmSyncJob) :=
  match jobs with
  | [] => Some [mkJob output [content] normalized]
  | j :: jobs =>
      if bool_decide (sj_output j = output) then
        if normalized || sj_normalized j then None
        else Some (mkJob output (sj_contents j ++ [content]) (sj_normalized j) :: jobs)
      else cons j <$> add_content output content normalized jobs
  end.

(** [filepath.Join(filepath.Clean(library), relative)], or [relative] for all libraries. *)
Definition target_relative (library relative : string) : string :=
  if bool_decide (trim_space library = "") then relative else join_path [clean library; relative].

Definition strm_content (embyPrefix target : string) : string := embyPrefix +:+ "/" +:+ target +:+ newline.
Definition original_relative (target : string) : string :=
  of_chars (take (length (chars target) - length (chars (ext target))) (chars target)) +:+ ".strm".

(** One media file of the library. *)
Definition scan_file (strmRoot embyPrefix library : string) (st : scan) (relative : string) : res scan :=
  let target := target_relative library relative in
  outputRelative ← canonicalSTRMPath target;
  cleanOutput ← match cleanRelative outputRelative "STRM output" with
                | Ok c => if bool_decide (c = "") then Err (ErrText "invalid STRM output path") else Ok c
                | Err _ => Err (ErrText "invalid STRM output path")
                end;
  let output := join_path [strmRoot; cleanOutput] in
  let content := strm_content embyPrefix target in
  let original := original_relative target in
  let normalized := negb (bool_decide (cleanOutput = original)) in
  match add_content cleanOutput content normalized (sc_jobs st) with
  | None => Err (ErrText ("different media sources map to canonical STRM " +:+ cleanOutput))
  | Some jobs =>
      Ok (mkScan (sc_media st) ({[output]} ∪ sc_expected st) jobs
            (if normalized then <[join_path [strmRoot; original] := mkRelocation output content]> (sc_relocations st)
             else sc_relocations st) (sc_skipped st))
  end.
End Series.

(** ** Requests *)

Section Media.
Context `{Env} `{Ctx} `{Sleep} `{Remote} `{Local} `{Names} `{Ranging} `{Workers} `{Unicode}.
Abbreviation Pi := (M Pipe).
Abbreviation reporter := (option (Q → string → Pi unit)).

Definition drop_trailing_slashes (s : string) : string := of_chars (reverse (drop_slashes (reverse (chars s)))).

(** [MediaService.paths]: the media root, the library below it, the same in the STRM tree,
    and the prefix of the targets. *)
Definition paths (subpath : string) : Pi (string * string * string * string) :=
  mediaSetting ← or_zero "" (on_db (GetSetting "media_root"));
  strmSetting ← or_zero "" (on_db (GetSetting "strm_root"));
  prefix ← or_zero "" (on_db (GetSetting "emby_media_prefix"));
  if bool_decide (mediaSetting = "") || bool_decide (strmSetting = "") then
    throw (ErrText "media_root and strm_root must be configured")
  else
  let embyPrefix := if bool_decide (prefix = "") then "/media" else prefix in
  library ← lift (cleanRelative subpath "library");
  mediaRoot ← wrap "resolve media_root: " (canonicalRoot mediaSetting false);
  mediaBase ← wrap "resolve media library: " (os_text (LEval (join_path [mediaRoot; library])));
  if negb (inside mediaRoot mediaBase) then throw (ErrText "media library resolves outside media_root") else
  strmRoot ← wrap "resolve strm_root: " (canonicalRoot strmSetting true);
  let strmBase := join_path [strmRoot; canonicalSTRMDirectory library] in
  resolved ← attempt (os_text (LEval strmBase));
  match resolved with
  | Ok resolved =>
      if negb (inside strmRoot resolved) then throw (ErrText "STRM library resolves outside strm_root")
      else mret (mediaRoot, mediaBase, resolved, drop_trailing_slashes embyPrefix)
  | Err e =>
      if is_not_exist e then mret (mediaRoot, mediaBase, strmBase, drop_trailing_slashes embyPrefix)
      else throw (ErrWrap "resolve STRM library: " e)
  end.

Definition parseMediaExcludedRoots (raw : string) : res (gset string) :=
  if bool_decide (trim_space raw = "") then Ok ∅ else
  match decode_names raw with
  | None => Err (ErrText "decode media_excluded_roots")
  | Some names =>
      res_fold (λ (excluded : gset string) name,
        match cleanRelative name "excluded media root" with
        | Ok c =>
            if bool_decide (c = "") || negb (bool_decide (dir c = ".")) then
              Err (ErrText "media_excluded_roots must contain immediate directory names")
            else if bool_decide (c ∈ excluded) then Err (ErrText "media_excluded_roots must not contain duplicates")
            else Ok ({[c]} ∪ excluded)
        | Err _ => Err (ErrText "media_excluded_roots must contain immediate directory names")
        end) names ∅
  end.

Definition excludedRoots (library : string) : Pi (gset string) :=
  if negb (bool_decide (trim_space library = "")) then mret ∅ else
  raw ← or_zero "" (on_db (GetSetting "media_excluded_roots"));
  lift (parseMediaExcludedRoots raw).

(** *** Writing *)

Definition is_exist (e : error) : bool := match e with ErrExist _ => true | _ => false end.

(** One parent of an output. *)
Definition ensure_parent (current segment : string) : Pi string :=
  let current := join_path [current; segment] in
  info ← attempt (os_info (LLstat current));
  info ← match info with
         | Ok i => mret i
         | Err e =>
             if is_not_exist e then
               made ← attempt (os_do (LMkdir current));
               _ ← match made with Err e => if is_exist e then mret tt else throw e | Ok _ => mret tt end;
               os_info (LLstat current)
             else throw e
         end;
  if is_symlink (fi_type info) || negb (is_dir info) then
    throw (ErrText ("STRM output parent " +:+ current +:+ " is not a real directory"))
  else
  _ ← ensureReadableDirectory current info;
  mret current.

Definition safeOutputPath (root relative : string) : Pi string :=
  match cleanRelative relative "STRM output" with
  | Err _ => throw (ErrText "invalid STRM output path")
  | Ok c =>
      if bool_decide (c = "") then throw (ErrText "invalid STRM output path") else
      _ ← (if bool_decide (dir c = ".") then mret root else m_fold ensure_parent (split_on slash (dir c)) root);
      let output := join_path [root; c] in
      info ← attempt (os_info (LLstat output));
      match info with
      | Ok i => if is_symlink (fi_type i) then throw (ErrText ("STRM output " +:+ output +:+ " is a symbolic link")) else mret output
      | Err e => if is_not_exist e then mret output else throw e
      end
  end.

(** [if err := m; err != nil { cleanup; return err }]. *)
Definition or_clean {A} (m : Pi A) (cleanup : list local_op) : Pi A :=
  r ← attempt m;
  match r with
  | Ok a => mret a
  | Err e => _ ← m_each (λ op, try_ (os_do op)) cleanup; throw e
  end.

Definition file_mode : Z := 420.   (* 0644 *)

Definition writeAtomic (path content : string) : Pi unit :=
  temporary ← os_text (LCreateTemp (dir path) ".strm-*");
  _ ← or_clean (os_do (LWrite temporary content)) [LClose temporary; LRemove temporary];
  _ ← or_clean (os_do (LFchmod temporary file_mode)) [LClose temporary; LRemove temporary];
  _ ← or_clean (os_do (LClose temporary)) [LRemove temporary];
  or_clean (os_do (LRename temporary path)) [LRemove temporary].

(** *** Workers *)

Definition first_error (failure : option error) (e : option error) : option error :=
  match failure with Some _ => failure | None => e end.

(** [processConcurrently]: the state is what the jobs share. *)
Definition processConcurrently {A S} (items : list A) (process : S → A → Pi (S * option error)) (s : S) : Pi (S * option error) :=
  λ w, (
    let order := wk_order (w_tick w) (length items) in
    let work (sf : S * option error) (index : nat) : Pi (S * option error) :=
      match items !! index with
      | None => mret sf
      | Some item =>
          over ← ctx_over;
          let failure := first_error sf.2 (if (over : bool) then Some ErrCanceled else @None error) in
          if bool_decide (is_Some failure) && negb (wk_late (w_tick w) index) then mret (sf.1, failure)
          else r ← process sf.1 item; mret (r.1, first_error failure r.2)
      end in
    sf ← m_fold work order (s, @None error);
    over ← ctx_over;
    mret (sf.1, first_error sf.2 (if (over : bool) then Some ErrCanceled else @None error))) w.

Definition report (update : reporter) (progress : Q) (message : string) : Pi unit :=
  match update with Some update => update progress message | None => mret tt end.

(** The counters the workers share, and when the next report is due. *)
Record counters := mkCounters { ct_created : Z; ct_updated : Z; ct_unchanged : Z; ct_completed : Z; ct_next : Z }.

Definition fold_errors {A S} (f : S → A → Pi (S * option error)) : list A → S → Pi (S * option error) :=
  fix go l s := match l with
  | [] => mret (s, None)
  | x :: l => '(s, e) ← f s x; match e with Some e => mret (s, Some e) | None => go l s end
  end.

Definition of_attempt {A} (m : Pi A) : Pi (option error) := r ← attempt m; mret match r with Ok _ => None | Err e => Some e end.

(** The end of one content: the count, and the report that may be due. *)
Definition finish_content (update : reporter) (mediaFiles : Z) (c : counters) : Pi (counters * option error) :=
  let count := (ct_completed c + 1)%Z in
  if Z.ltb count (ct_next c) then mret (mkCounters (ct_created c) (ct_updated c) (ct_unchanged c) count (ct_next c), None) else
  let progress := if Z.ltb 0 mediaFiles then (30 + inject_Z (30 * count) / inject_Z mediaFiles)%Q else 30%Q in
  e ← of_attempt (report update progress ("STRM output reconciliation processed " +:+ pretty count +:+ " files"));
  mret (mkCounters (ct_created c) (ct_updated c) (ct_unchanged c) count (Z.quot count 1000 * 1000 + 1000)%Z, e).

(** One content of an output. *)
Definition sync_content (update : reporter) (mediaFiles : Z) (output : string) (normalized : bool) (c : counters) (content : string)
    : Pi (counters * option error) :=
  let write (c' : counters) :=
    e ← of_attempt (writeAtomic output content);
    match e with Some e => mret (c, Some e) | None => finish_content update mediaFiles c' end in
  existing ← attempt (os_text (LReadFile output));
  match existing with
  | Ok old =>
      if bool_decide (old = content) then
        finish_content update mediaFiles (mkCounters (ct_created c) (ct_updated c) (ct_unchanged c + 1) (ct_completed c) (ct_next c))
      else if normalized then
        mret (c, Some (ErrText ("canonical STRM " +:+ output +:+ " already references a different source")))
      else write (mkCounters (ct_created c) (ct_updated c + 1) (ct_unchanged c) (ct_completed c) (ct_next c))
  | Err e =>
      if is_not_exist e then write (mkCounters (ct_created c + 1) (ct_updated c) (ct_unchanged c) (ct_completed c) (ct_next c))
      else mret (c, Some e)
  end.

Definition sync_job (update : reporter) (mediaFiles : Z) (strmRoot : string) (c : counters) (j : strmSyncJob)
    : Pi (counters * option error) :=
  output ← attempt (safeOutputPath strmRoot (sj_output j));
  match output with
  | Err e => mret (c, Some e)
  | Ok output => fold_errors (sync_content update mediaFiles output (sj_normalized j)) (sj_contents j) c
  end.

(** *** Stale files *)

(** The STRM files of a walk: the callback stops at an error of the walk, and asks whether
    the task is cancelled at every object. *)
Definition is_strm (root : string) (e : walk_entry) : bool := bool_decide (to_lower (ext (entry_name root e)) = ".strm").

Record pruned := mkPruned { pr_removed : Z; pr_emptied : list string }.

(** The directories above a removed file, up to the base. *)
Fixpoint parents_below (base_ : string) (fuel : nat) (directory : string) : list string :=
  match fuel with
  | O => []
  | S fuel =>
      if negb (bool_decide (directory = base_)) && inside base_ directory
      then directory :: parents_below base_ fuel (dir directory) else []
  end.

(** The checks on a file that is not in the plan: [true] when it may be removed. *)
Definition stale_moved (path content : string) (r : strmRelocation) : Pi bool :=
  if negb (bool_decide (content = sr_contents r)) then mret false else
  info ← os_info (LLstat (sr_output r));
  if negb (bool_decide (fi_type info = FRegular)) then
    throw (ErrText ("canonical STRM " +:+ sr_output r +:+ " is not a regular file"))
  else
  replacement ← os_text (LReadFile (sr_output r));
  if negb (bool_decide (content = replacement)) then
    throw (ErrText ("canonical STRM " +:+ sr_output r +:+ " no longer references the original source"))
  else mret true.

Definition stale_target (mediaRoot embyPrefix content : string) : Pi bool :=
  let target := trim_space content in
  let prefix := embyPrefix +:+ "/" in
  if negb (has_prefix target prefix) then mret false else
  match cleanRelative (trim_prefix target prefix) "STRM target" with
  | Err _ => mret false
  | Ok relative =>
      if bool_decide (relative = "") then mret false else
      resolved ← attempt (os_text (LEval (join_path [mediaRoot; relative])));
      match resolved with
      | Ok _ => mret false
      | Err e => if is_not_exist e then mret true else throw e
      end
  end.

Definition prune_entry (mediaRoot strmBase embyPrefix : string) (expected : gset string) (relocations : gmap string strmRelocation)
    (st : pruned) (e : walk_entry) : Pi pruned :=
  _ ← ctx_live;
  let path := entry_path strmBase e in
  if entry_is_dir e || negb (is_strm strmBase e) then mret st
  else if is_symlink (we_type e) then mret st
  else if bool_decide (path ∈ expected) then mret st
  else
  content ← os_text (LReadFile path);
  stale ← match relocations !! path with
          | Some r => stale_moved path content r
          | None => stale_target mediaRoot embyPrefix content
          end;
  if negb stale then mret st else
  _ ← os_do (LRemove path);
  let above := parents_below strmBase (String.length path) (dir path) in
  let base_ := match relocations !! path with
               | Some r => if bool_decide (dir path = strmBase) && negb (bool_decide (dir (sr_output r) = strmBase)) then [strmBase] else []
               | None => []
               end in
  mret (mkPruned (pr_removed st + 1) (remove_dups (above ++ base_ ++ pr_emptied st))).

Definition prune_directory (removed : Z) (directory : string) : Pi Z :=
  entries ← attempt (os_names (LReadDir directory));
  match entries with
  | Err e => if is_not_exist e then mret removed else throw e
  | Ok (_ :: _) => mret removed
  | Ok [] =>
      r ← attempt (os_do (LRemove directory));
      match r with
      | Err e => if is_not_exist e then mret (removed + 1)%Z else throw e
      | Ok _ => mret (removed + 1)%Z
      end
  end.

(** The walk of a root whose absence is no error. *)
Definition walk_error (root : string) (e : option (string * error)) : Pi unit :=
  match e with
  | None => mret tt
  | Some (path, e) => if bool_decide (path = root) && is_not_exist e then mret tt else throw e
  end.

Definition health_canary : string := ".embymedia-health-canary".

(** The files removed, the directories removed and the status. *)
Definition pruneStaleSTRM (mediaRoot strmBase embyPrefix : string) (expected : gset string)
    (relocations : gmap string strmRelocation) : Pi (Z * Z * string) :=
  canary ← attempt (os_info (LStat (join_path [mediaRoot; health_canary])));
  let mounted := match canary with Ok i => bool_decide (fi_type i = FRegular) | Err _ => false end in
  if negb mounted then mret (0%Z, 0%Z, "skipped_no_mount_canary") else
  '(entries, failure) ← walk_dir strmBase;
  st ← m_fold (prune_entry mediaRoot strmBase embyPrefix expected relocations) entries (mkPruned 0 []);
  _ ← walk_error strmBase failure;
  let directories := merge_sort (λ x y, Nat.leb (String.length y) (String.length x) = true) (range_over (pr_emptied st)) in
  removed ← m_fold prune_directory directories 0%Z;
  mret (pr_removed st, removed, "completed").

(** *** Verification *)

Inductive strmTargetState := strmTargetValid | strmTargetMissing | strmTargetInvalid.

(** The directories resolved so far. *)
Abbreviation resolutions := (gmap string (res string)).

Definition resolve_parent (directories : resolutions) (parent : string) : Pi (resolutions * res string) :=
  match directories !! parent with
  | Some r => mret (directories, r)
  | None => r ← attempt (os_text (LEval parent)); mret (<[parent := r]> directories, r)
  end.

Definition inspectSTRMTarget (mediaRoot relative : string) (directories : resolutions) : Pi (resolutions * res strmTargetState) :=
  let candidate := join_path [mediaRoot; relative] in
  '(directories, directory) ← resolve_parent directories (dir candidate);
  match directory with
  | Err e => mret (directories, if is_not_exist e then Ok strmTargetMissing else Err e)
  | Ok directory =>
      if negb (inside mediaRoot directory) then mret (directories, Ok strmTargetInvalid) else
      let leaf := join_path [directory; base candidate] in
      info ← attempt (os_info (LLstat leaf));
      match info with
      | Err e => mret (directories, if is_not_exist e then Ok strmTargetMissing else Err e)
      | Ok i =>
          if negb (is_symlink (fi_type i)) then mret (directories, Ok strmTargetValid) else
          resolved ← attempt (os_text (LEval leaf));
          mret (directories,
            match resolved with
            | Err e => if is_not_exist e then Ok strmTargetMissing else Err e
            | Ok resolved => Ok (if inside mediaRoot resolved then strmTargetValid else strmTargetInvalid)
            end)
      end
  end.

Record strmVerifyJob := mkVerify { vj_path : string; vj_linked : bool }.
Record verified := mkVerified {
  vf_valid : Z; vf_missing : Z; vf_invalid : Z; vf_completed : Z; vf_next : Z; vf_examples : list string; vf_directories : resolutions
}.

(** [addConcurrentExample]. *)
Definition add_example (examples : list string) (value : string) : list string :=
  take 20 (merge_sort (λ x y, String.leb x y = true) (examples ++ [value])).

Definition count_target (st : verified) (path target : string) (state : strmTargetState) : verified :=
  let '(mkVerified v m i c n ex d) := st in
  match state with
  | strmTargetValid => mkVerified (v + 1) m i c n ex d
  | strmTargetMissing => mkVerified v (m + 1) i c n (add_example ex (path +:+ ": missing " +:+ target)) d
  | strmTargetInvalid => mkVerified v m (i + 1) c n (add_example ex (path +:+ ": target resolves outside media_root")) d
  end.
Definition count_invalid (st : verified) (path why : string) : verified :=
  let '(mkVerified v m i c n ex d) := st in mkVerified v m (i + 1) c n (add_example ex (path +:+ why)) d.
Definition with_directories (st : verified) (d : resolutions) : verified :=
  mkVerified (vf_valid st) (vf_missing st) (vf_invalid st) (vf_completed st) (vf_next st) (vf_examples st) d.

Definition verify_target (mediaRoot embyPrefix : string) (st : verified) (j : strmVerifyJob) : Pi (verified * option error) :=
  if vj_linked j then mret (count_invalid st (vj_path j) ": symbolic link is not allowed", None) else
  content ← attempt (os_text (LReadFile (vj_path j)));
  match content with
  | Err e => mret (st, Some e)
  | Ok content =>
      let target := trim_space content in
      let prefix := embyPrefix +:+ "/" in
      if negb (has_prefix target prefix) then mret (count_invalid st (vj_path j) ": invalid target", None) else
      match cleanRelative (trim_prefix target prefix) "STRM target" with
      | Err _ => mret (count_invalid st (vj_path j) ": target escapes media_root", None)
      | Ok relative =>
          if bool_decide (relative = "") then mret (count_invalid st (vj_path j) ": target escapes media_root", None) else
          '(directories, state) ← inspectSTRMTarget mediaRoot relative (vf_directories st);
          mret match state with
               | Ok state => (count_target (with_directories st directories) (vj_path j) target state, None)
               | Err e => (with_directories st directories, Some e)
               end
      end
  end.

Definition verify_job (update : reporter) (mediaRoot embyPrefix : string) (total : nat) (st : verified) (j : strmVerifyJob)
    : Pi (verified * option error) :=
  '(st, e) ← verify_target mediaRoot embyPrefix st j;
  match e with
  | Some e => mret (st, Some e)
  | None =>
      let '(mkVerified v m i c n ex d) := st in
      let count := (c + 1)%Z in
      if Z.ltb count n then mret (mkVerified v m i count n ex d, None) else
      let progress := if bool_decide (0 < total) then (5 + inject_Z (94 * count) / inject_Z (Z.of_nat total))%Q else 5%Q in
      e ← of_attempt (report update progress ("STRM verification checked " +:+ pretty count +:+ " files"));
      mret (mkVerified v m i count (Z.quot count 2000 * 2000 + 2000)%Z ex d, e)
  end.

(** The jobs of each directory, in the order met. *)
Fixpoint add_to_group (j : strmVerifyJob) (groups : list (string * list strmVerifyJob)) : list (string * list strmVerifyJob) :=
  match groups with
  | [] => [(dir (vj_path j), [j])]
  | g :: groups => if bool_decide (g.1 = dir (vj_path j)) then (g.1, g.2 ++ [j]) :: groups else g :: add_to_group j groups
  end.

Definition verify_entry (strmBase : string) (jobs : list strmVerifyJob) (e : walk_entry) : Pi (list strmVerifyJob) :=
  _ ← ctx_live;
  mret (if entry_is_dir e || negb (is_strm strmBase e) then jobs
        else jobs ++ [mkVerify (entry_path strmBase e) (is_symlink (we_type e))]).

(** [if walkErr != nil { return walkErr }]. *)
Definition walk_failed (e : option (string * error)) : Pi unit :=
  match e with None => mret tt | Some (_, e) => throw e end.

Definition VerifySTRMWithProgress (library : string) (update : reporter) : Pi STRMResult :=
  '(mediaRoot, _, strmBase, embyPrefix) ← paths library;
  _ ← report update 0 "STRM verification started";
  '(entries, failure) ← walk_dir strmBase;
  jobs ← m_fold (verify_entry strmBase) entries [];
  _ ← walk_failed failure;
  _ ← report update 5 ("STRM verification found " +:+ pretty (length jobs) +:+ " files");
  let groups := snd <$> foldl (λ groups j, add_to_group j groups) [] jobs in
  '(st, failure) ← processConcurrently groups (λ st group, fold_errors (verify_job update mediaRoot embyPrefix (length jobs)) group st)
                     (mkVerified 0 0 0 0 2000 [] ∅);
  match failure with
  | Some e => throw e
  | None =>
      _ ← report update 100 ("STRM verification completed after " +:+ pretty (length jobs) +:+ " files");
      mret (mkSTRM 0 0 0 0 0 0 (vf_valid st) (vf_missing st) (vf_invalid st) (vf_examples st) "")
  end.

(** *** Synchronisation *)

Definition countSTRMFiles (root : string) : Pi Z :=
  '(entries, failure) ← walk_dir root;
  count ← m_fold (λ count e, _ ← ctx_live;
    mret (if negb (entry_is_dir e) && equal_fold (ext (entry_name root e)) ".strm" then count + 1 else count)%Z) entries 0%Z;
  match failure with
  | None => mret count
  | Some (_, e) => if is_not_exist e then mret 0%Z else throw e
  end.

Definition count_media (st : scan) : scan :=
  mkScan (sc_media st + 1) (sc_expected st) (sc_jobs st) (sc_relocations st) (sc_skipped st).
Definition skip_directory (d : string) (st : scan) : scan :=
  mkScan (sc_media st) (sc_expected st) (sc_jobs st) (sc_relocations st) (d :: sc_skipped st).

(** The callback of the scan of the library. *)
Definition scan_entry (update : reporter) (estimated : Z) (excluded : gset string) (mediaBase strmRoot embyPrefix library : string)
    (st : scan) (e : walk_entry) : Pi scan :=
  if below_skipped (sc_skipped st) e then mret st else
  _ ← ctx_live;
  if entry_is_dir e then
    mret (if negb (bool_decide (we_path e = "")) && bool_decide (dir (we_path e) = ".") && bool_decide (we_path e ∈ excluded)
          then skip_directory (we_path e) st else st)
  else if is_symlink (we_type e) then throw (ErrText ("media file " +:+ entry_path mediaBase e +:+ " is a symbolic link"))
  else if negb (is_video (entry_name mediaBase e)) then mret st
  else
  let st := count_media st in
  _ ← (if Z.eqb (Z.rem (sc_media st) 500) 0 then
         let ratio := (inject_Z (sc_media st) / inject_Z estimated)%Q in
         let progress := if Z.ltb 0 estimated then (5 + 24 * (if Qle_bool 1 ratio then 1 else ratio))%Q else 10%Q in
         report update progress ("STRM source scan processed " +:+ pretty (sc_media st) +:+ " media files")
       else mret tt);
  lift (scan_file strmRoot embyPrefix library st (we_path e)).

(** The scan: the roots, the prefix and the plan. *)
Definition plan_library (library : string) (update : reporter) : Pi (string * string * string * string * scan) :=
  '(mediaRoot, mediaBase, strmBase, embyPrefix) ← paths library;
  excluded ← excludedRoots library;
  _ ← report update 5 "STRM source scan started";
  setting ← or_zero "" (on_db (GetSetting "strm_root"));
  strmRoot ← canonicalRoot setting true;
  if negb (inside strmRoot strmBase) || negb (inside strmRoot (join_path [strmRoot; clean library])) then
    throw (ErrText "STRM library escapes strm_root")
  else
  estimated ← countSTRMFiles strmBase;
  '(entries, failure) ← walk_dir mediaBase;
  plan ← m_fold (scan_entry update estimated excluded mediaBase strmRoot embyPrefix library) entries (mkScan 0 ∅ [] ∅ []);
  _ ← walk_failed failure;
  _ ← report update 30 ("STRM source scan found " +:+ pretty (sc_media plan) +:+ " media files");
  mret (mediaRoot, strmRoot, strmBase, embyPrefix, plan).

(** Writing the plan, removing what is stale and verifying the result. *)
Definition apply_plan (update : reporter) (library mediaRoot strmRoot strmBase embyPrefix : string) (plan : scan) : Pi STRMResult :=
  let originalBase := join_path [strmRoot; clean library] in
  '(c, failure) ← processConcurrently (sc_jobs plan) (sync_job update (sc_media plan) strmRoot) (mkCounters 0 0 0 0 1000);
  match failure with
  | Some e => throw e
  | None =>
      _ ← report update 60 ("STRM source scan completed with " +:+ pretty (sc_media plan) +:+ " media files");
      '(removed, removedDirectories, status) ←
        pruneStaleSTRM mediaRoot originalBase embyPrefix (sc_expected plan) (sc_relocations plan);
      '(removed, removedDirectories, status) ←
        (if negb (bool_decide (originalBase = strmBase)) then
           '(more, moreDirectories, status) ← pruneStaleSTRM mediaRoot strmBase embyPrefix (sc_expected plan) (sc_relocations plan);
           mret (removed + more, removedDirectories + moreDirectories, status)%Z
         else mret (removed, removedDirectories, status));
      _ ← report update 70 ("STRM stale reconciliation removed " +:+ pretty removed +:+ " files and " +:+ pretty removedDirectories
            +:+ " empty directories with status " +:+ status);
      v ← VerifySTRMWithProgress library
            (Some (λ progress message, report update (75 + progress * (24 # 100))%Q message));
      _ ← report update 100 "STRM synchronization and verification completed";
      mret (mkSTRM (sc_media plan) (ct_created c) (ct_updated c) (ct_unchanged c) removed removedDirectories
              (rs_Valid v) (rs_Missing v) (rs_Invalid v) (rs_Examples v) status)
  end.

Definition SyncSTRMWithProgress (library : string) (update : reporter) : Pi STRMResult :=
  '(mediaRoot, strmRoot, strmBase, embyPrefix, plan) ← plan_library library update;
  apply_plan update library mediaRoot strmRoot strmBase embyPrefix plan.

End Media.
