(* ===== verification/Roots.v ===== *)
(** Where the media and the STRM tree are ([paths] and [excludedRoots] of [media.go]): the
    settings that were read and the answers of the operating system that resolved them.

    Of a run that leaves the settings alone ([fixed]) these say which directories its plan is
    about; the synchronisation ([MediaProofs.v]) and the deletions of Emby
    ([EmbyDeletionProofs.v]) share them. *)
From S2P Require Import Prelude GoStrings GoPath Sql Schema TaskStore Accounts Payload Queue FileSys Remote Local Pipeline Media.
From Stdlib Require Import Ascii.

(** The value of a setting; one that was never stored is empty. *)
Definition stored (d : Database) (key : string) : string := match settings d !! key with Some (v, _) => v | None => "" end.

Definition same_settings (d d' : Database) : Prop := settings d' = settings d.
#[global] Instance same_settings_preorder : PreOrder same_settings.
Proof. split; [done|]. intros d1 d2 d3 E1 E2. unfold same_settings in *. congruence. Qed.
Lemma same_stored d d' key : same_settings d d' → stored d' key = stored d key.
Proof. intros E. unfold stored. by rewrite E. Qed.

(** A run that stores no setting. *)
Abbreviation fixed := (pipe_rel (λ _ : action, True) same_settings).
Lemma during_fixed s s1 s2 a : during s s1 a → fixed s1 s2 → during s s2 a.
Proof. intros Hd [Hg _]. by eapply during_l. Qed.
Lemma fixed_during s s1 s2 a : fixed s s1 → during s1 s2 a → during s s2 a.
Proof. intros [Hg _] Hd. by eapply during_r. Qed.

Section Roots.
Context `{Env} `{Ctx} `{Sleep} `{Remote} `{Local} `{Names}.
Implicit Types (w : World Pipe) (s : Pipe).

(** The code takes a setting that could not be read for one that is empty. *)
Definition read_as (d : Database) (key value : string) : Prop :=
  value = stored d key ∨ value = "" ∧ ∃ k, is_Some (env_fault k).

Definition prefix_of (setting : string) : string := drop_trailing_slashes (if bool_decide (setting = "") then "/media" else setting).

(** The roots of a library: the configured media root and the library's directory in it, and
    the directory of the library in the configured STRM root, as the operating system
    resolved them between [s] and [s']; and the configured prefix. *)
Record rooted (library : string) (s s' : Pipe) (mediaRoot mediaBase strmBase prefix : string) : Prop := {
  rt_media : stored (pi_db s) "media_root" ≠ "" ∧
    during s s' (AText (LEval (absolute (stored (pi_db s) "media_root"))) (Ok mediaRoot));
  rt_base : ∃ relative, cleanRelative library "library" = Ok relative ∧ inside mediaRoot mediaBase = true ∧
    during s s' (AText (LEval (join_path [mediaRoot; relative])) (Ok mediaBase));
  rt_strm : ∃ relative strmRoot resolved, cleanRelative library "library" = Ok relative ∧ stored (pi_db s) "strm_root" ≠ "" ∧
    let expected := join_path [strmRoot; canonicalSTRMDirectory relative] in
    during s s' (AText (LEval (absolute (stored (pi_db s) "strm_root"))) (Ok strmRoot)) ∧
    during s s' (AText (LEval expected) resolved) ∧
    match resolved with
    | Ok path => strmBase = path ∧ inside strmRoot path = true
    | Err e => strmBase = expected ∧ is_not_exist e = true
    end;
  rt_prefix : ∃ setting, read_as (pi_db s) "emby_media_prefix" setting ∧ prefix = prefix_of setting
}.

Lemma rooted_later library s s1 s2 mr mb sb px : rooted library s s1 mr mb sb px → grows (λ _, True) s1 s2 → rooted library s s2 mr mb sb px.
Proof.
  intros [[Hm1 Hm2] (rel & Hb1 & Hb2 & Hb3) (rel' & sr & res & Hs1 & Hs2 & Hs3 & Hs4 & Hs5) Hp] Hf. split; [|exists rel|exists rel', sr, res|done].
  all: cbv zeta; split_and!; try done; by eapply during_l.
Qed.
Lemma read_same d d' key v : same_settings d d' → read_as d' key v → read_as d key v.
Proof. intros E [->|Hv]; [left; by apply same_stored|by right]. Qed.
Lemma rooted_from library s0 s s' mr mb sb px : fixed s0 s → rooted library s s' mr mb sb px → rooted library s0 s' mr mb sb px.
Proof.
  intros Hf [[Hm1 Hm2] (rel & Hb1 & Hb2 & Hb3) (rel' & sr & res & Hs1 & Hs2 & Hs3 & Hs4 & Hs5) (v & Hv & Hp)].
  pose proof (proj2 Hf) as E. rewrite (same_stored _ _ _ E) in Hm1, Hm2. rewrite !(same_stored _ _ _ E) in Hs2, Hs3.
  split; [|exists rel|exists rel', sr, res|exists v]. all: cbv zeta; split_and!; try done; try (by eapply fixed_during). by eapply read_same.
Qed.

Lemma stored_effect key w : wp (on_db (GetSetting key)) w (λ r w', fixed (w_db w) (w_db w') ∧ match r with
  | Ok v => v = stored (pi_db (w_db w)) key
  | Err _ => ∃ k, is_Some (env_fault k)
  end).
Proof.
  assert (∀ s, fixed s (mkPipe (pi_db s) (pi_files s) (pi_log s))) as Hsame by (intros s; split; [exists []; split; [by rewrite app_nil_r|done]|done]).
  apply wp_on_db, wp_query; cbn [w_db]; intros e n He.
  - split; [apply Hsame|]. destruct He as [(k & m & Hk & _)|He]; [|done]. exists k. by exists m.
  - split; [apply Hsame|]. by injection He as <-.
Qed.
Lemma zero_setting_effect key w : wp (or_zero "" (on_db (GetSetting key))) w (λ r w', fixed (w_db w) (w_db w') ∧
  ∃ v, r = Ok v ∧ read_as (pi_db (w_db w)) key v).
Proof.
  unfold or_zero. apply wp_bind, wp_attempt. eapply wp_mono; [apply stored_effect|].
  intros [v|e] w1 [Hf Hv]; apply wp_ret; (split; [done|]); eexists; (split; [done|]); [by left|by right].
Qed.
Lemma text_effect op w : wp (os_text op) w (λ r w', fixed (w_db w) (w_db w') ∧ during (w_db w) (w_db w') (AText op r)).
Proof.
  unfold os_text. apply wp_call. intros n. cbv zeta. split.
  - split; [|done]. eexists. split; [done|]. by repeat constructor.
  - eexists. split; [done|]. by left.
Qed.
Lemma fixed_do op : keeps fixed (os_do op).
Proof. unfold os_do. apply keeps_call; [apply _|done]. Qed.
Lemma fixed_info op : keeps fixed (os_info op).
Proof. unfold os_info. apply keeps_call; [apply _|done]. Qed.
Hint Resolve fixed_do fixed_info : keeps.

Lemma root_effect path create w : wp (canonicalRoot path create) w (λ r w', fixed (w_db w) (w_db w') ∧
  ∀ root, r = Ok root → during (w_db w) (w_db w') (AText (LEval (absolute path)) (Ok root))).
Proof.
  unfold canonicalRoot. cbv zeta. apply wp_bind. eapply (wp_mono _ _ (λ _ w', fixed (w_db w) (w_db w'))).
  { destruct create; [apply fixed_do|by apply wp_ret]. }
  intros [[]|e] w1 Hf1; [|done]. apply wp_bind. eapply wp_mono; [apply text_effect|]. intros [root|e] w2 [Hf2 Hd]; [|split; [by etrans|done]].
  apply wp_bind. eapply (wp_mono _ _ (λ _ w', fixed (w_db w2) (w_db w'))).
  { destruct create; [|by apply wp_ret]. unfold ensureReadableDirectory.
    assert (keeps fixed (i ← os_info (LStat root); if Z.eqb (Z.land (fi_perm i) readable_bits) readable_bits then mret tt
      else os_do (LChmod root (Z.lor (fi_perm i) readable_bits)))) as Hk by keeps_run. apply Hk. }
  intros [[]|e] w3 Hf3; [apply wp_ret|]; (split; [by do 2 (etrans; [done|])|]); [|done].
  intros root' [= <-]. eapply during_fixed; [|done]. by eapply fixed_during.
Qed.

Lemma paths_effect library w : wp (paths library) w (λ r w', fixed (w_db w) (w_db w') ∧
  ∀ mr mb sb px, r = Ok (mr, mb, sb, px) → rooted library (w_db w) (w_db w') mr mb sb px).
Proof.
  unfold paths. set (s := w_db w).
  apply wp_bind. eapply wp_mono; [apply zero_setting_effect|]. intros r w1 (Hf1 & media & -> & Hmedia). fold s in Hmedia, Hf1.
  apply wp_bind. eapply wp_mono; [apply zero_setting_effect|]. intros r w2 (Hf2 & strm & -> & Hstrm).
  apply wp_bind. eapply wp_mono; [apply zero_setting_effect|]. intros r w3 (Hf3 & prefix & -> & Hprefix).
  apply (read_same _ _ _ _ (proj2 Hf1)) in Hstrm. assert (fixed s (w_db w2)) as Hf02 by (by etrans). apply (read_same _ _ _ _ (proj2 Hf02)) in Hprefix.
  assert (fixed s (w_db w3)) as Hf by (by etrans). clear Hf1 Hf2 Hf3 Hf02 w1 w2.
  destruct (_ || _) eqn:Hne; [by apply wp_lift|]. bools. cbv zeta.
  assert (media = stored (pi_db s) "media_root") as -> by (by destruct Hmedia as [?|[? _]]).
  assert (strm = stored (pi_db s) "strm_root") as -> by (by destruct Hstrm as [?|[? _]]). clear Hmedia Hstrm.
  apply wp_bind, wp_lift. destruct (cleanRelative library "library") as [relative|e] eqn:Hrel; [|done].
  apply wp_bind, wp_wrap. eapply wp_mono; [apply root_effect|]. intros [mr|e] w4 [Hf4 Hmr]; cbn [wrap_err]; [|split; [by etrans|done]].
  specialize (Hmr _ eq_refl). apply (fixed_during _ _ _ _ Hf) in Hmr.
  assert (fixed s (w_db w4)) as Hf' by (by etrans). clear Hf Hf4.
  apply wp_bind, wp_wrap. eapply wp_mono; [apply text_effect|]. intros [mb|e] w5 [Hf5 Hmb]; cbn [wrap_err]; [|split; [by etrans|done]].
  apply (fixed_during _ _ _ _ Hf') in Hmb. apply (during_fixed _ _ _ _ Hmr) in Hf5 as Hmr5. assert (fixed s (w_db w5)) as Hf by (by etrans). clear Hf' Hf5 Hmr.
  destruct (inside mr mb) eqn:Hin; [|by apply wp_lift]. cbn [negb].
  apply wp_bind, wp_wrap. eapply wp_mono; [apply root_effect|]. intros [sr|e] w6 [Hf6 Hsr]; cbn [wrap_err]; [|split; [by etrans|done]].
  specialize (Hsr _ eq_refl). apply (fixed_during _ _ _ _ Hf) in Hsr.
  assert (fixed s (w_db w6)) as Hf' by (by etrans). clear Hf.
  apply wp_bind, wp_attempt. eapply wp_mono; [apply text_effect|]. intros resolved w7 [Hf7 Hres]. apply (fixed_during _ _ _ _ Hf') in Hres.
  assert (fixed s (w_db w7)) as Hf by (by etrans).
  assert (∀ sb, match resolved with Ok path => sb = path ∧ inside sr path = true
      | Err e => sb = join_path [sr; canonicalSTRMDirectory relative] ∧ is_not_exist e = true end →
    rooted library s (w_db w7) mr mb sb (prefix_of prefix)) as Hrooted.
  { intros sb Hsb. split.
    - split; [done|]. eapply during_fixed; [by eapply during_fixed|done].
    - exists relative. split_and!; [done|done|]. eapply during_fixed; [by eapply during_fixed|done].
    - exists relative, sr, resolved. cbv zeta. split_and!; try done. by eapply during_fixed.
    - by exists prefix. }
  destruct resolved as [path|e].
  - destruct (inside sr path) eqn:Hins; [|by apply wp_lift]. apply wp_ret. split; [done|]. intros ? ? ? ? [= <- <- <- <-]. by apply Hrooted.
  - destruct (is_not_exist e) eqn:Hne; [|by apply wp_lift]. apply wp_ret. split; [done|]. intros ? ? ? ? [= <- <- <- <-]. by apply Hrooted.
Qed.

(** The top directories a synchronisation of everything leaves out. *)
Definition excluded_as (d : Database) (library : string) (excluded : gset string) : Prop :=
  trim_space library ≠ "" ∧ excluded = ∅ ∨
  trim_space library = "" ∧ ∃ raw, read_as d "media_excluded_roots" raw ∧ parseMediaExcludedRoots raw = Ok excluded.
Lemma excluded_effect library w : wp (excludedRoots library) w (λ r w', fixed (w_db w) (w_db w') ∧
  ∀ excluded, r = Ok excluded → excluded_as (pi_db (w_db w)) library excluded).
Proof.
  unfold excludedRoots, excluded_as. case_bool_decide as Hl; cbn [negb].
  - apply wp_bind. eapply wp_mono; [apply zero_setting_effect|]. intros r w1 (Hf & raw & -> & Hraw). apply wp_lift.
    split; [done|]. intros excluded Hex. right. split; [done|]. by exists raw.
  - apply wp_ret. split; [done|]. intros excluded [= <-]. by left.
Qed.
Lemma excluded_same d d' library excluded : same_settings d d' → excluded_as d' library excluded → excluded_as d library excluded.
Proof. intros E [?|(? & raw & Hr & ?)]; [by left|]. right. split; [done|]. exists raw. split; [by eapply read_same|done]. Qed.

(** The reports of a task leave the settings alone. *)
Lemma progress_fixed id q : keeps same_settings (UpdateAsyncTaskProgress id q).
Proof. unfold UpdateAsyncTaskProgress. keeps_run; apply keeps_exec; try apply _; intros d; cbn; by repeat case_match. Qed.
Lemma log_fixed id m : keeps same_settings (AppendTaskLog id m).
Proof. unfold AppendTaskLog. keeps_run; apply keeps_exec; try apply _; intros d; cbn; by repeat case_match. Qed.
Lemma progress_settings id start end_ q m : keeps same_settings (taskProgress id start end_ q m).
Proof. unfold taskProgress. keeps_run; [apply progress_fixed|apply log_fixed]. Qed.
End Roots.
