(* ===== verification/MediaProofs.v ===== *)
(** Properties of the STRM tree ([Media.v]): what the scan of a library plans, what
    synchronising it writes, and what it removes. *)
From S2P Require Import Prelude GoStrings GoPath Regexp Sql Schema Accounts Payload FileSys Remote Episodes Identity Local.
From S2P Require Import TaskStore Queue Pipeline Media Roots.
From Stdlib Require Import Ascii.

#[local] Opaque canonicalSTRMPath cleanRelative join_path.
#[global] Arguments canonicalSTRMPath : simpl never.

(** * The plan *)

Section Plan.
Context `{Unicode} (strmRoot embyPrefix library : string).

(** Where the STRM file of a media file belongs, below the root of the tree. *)
Definition output_of (relative : string) : option string :=
  match canonicalSTRMPath (target_relative library relative) with
  | Ok out => match cleanRelative out "STRM output" with
              | Ok c => if bool_decide (c = "") then None else Some c
              | Err _ => None
              end
  | Err _ => None
  end.
Definition content_of (relative : string) : string := strm_content embyPrefix (target_relative library relative).
Definition old_output (relative : string) : string := original_relative (target_relative library relative).

Record plan_ok (relatives : list string) (st : scan) : Prop := {
  po_job : ∀ rel, rel ∈ relatives → ∃ out j, output_of rel = Some out ∧ j ∈ sc_jobs st ∧ sj_output j = out ∧
    content_of rel ∈ sj_contents j ∧ (sj_normalized j = true ↔ out ≠ old_output rel);
  po_unique : NoDup (sj_output <$> sc_jobs st);
  po_source : ∀ j c, j ∈ sc_jobs st → c ∈ sj_contents j →
    ∃ rel, rel ∈ relatives ∧ output_of rel = Some (sj_output j) ∧ c = content_of rel;
  po_moved : ∀ j, j ∈ sc_jobs st → sj_normalized j = true → ∃ c, sj_contents j = [c];
  po_expected : ∀ p, p ∈ sc_expected st ↔ ∃ rel out, rel ∈ relatives ∧ output_of rel = Some out ∧ p = join_path [strmRoot; out];
  po_relocated : ∀ p r, sc_relocations st !! p = Some r → ∃ rel out, rel ∈ relatives ∧ output_of rel = Some out ∧
    out ≠ old_output rel ∧ p = join_path [strmRoot; old_output rel] ∧ r = mkRelocation (join_path [strmRoot; out]) (content_of rel)
}.

Lemma scan_file_inv st relative st' :
  scan_file strmRoot embyPrefix library st relative = Ok st' →
  ∃ out jobs, output_of relative = Some out ∧
    add_content out (content_of relative) (negb (bool_decide (out = old_output relative))) (sc_jobs st) = Some jobs ∧
    st' = mkScan (sc_media st) ({[join_path [strmRoot; out]]} ∪ sc_expected st) jobs
      (if negb (bool_decide (out = old_output relative))
       then <[join_path [strmRoot; old_output relative] := mkRelocation (join_path [strmRoot; out]) (content_of relative)]> (sc_relocations st)
       else sc_relocations st) (sc_skipped st).
Proof.
  unfold scan_file, output_of, content_of, old_output. intros Hs.
  destruct (canonicalSTRMPath _) as [o|]; [|done]. simpl in Hs.
  destruct (cleanRelative o _) as [c|]; [|done]. simpl in Hs.
  destruct (bool_decide (c = "")); [done|]. simpl in Hs. destruct (add_content _ _ _ _) as [jobs|] eqn:E; [|done].
  exists c, jobs. split; [done|]. split; [done|]. by injection Hs.
Qed.

(** What adding a content does to the jobs: a new job at the end, or one more content for
    a job that no other source may claim alone. *)
Lemma add_content_spec out c n jobs jobs' :
  add_content out c n jobs = Some jobs' →
  (out ∉ sj_output <$> jobs ∧ jobs' = jobs ++ [mkJob out [c] n]) ∨
  (∃ l1 j l2, jobs = l1 ++ j :: l2 ∧ sj_output j = out ∧ sj_normalized j = false ∧ n = false ∧
     jobs' = l1 ++ mkJob out (sj_contents j ++ [c]) false :: l2).
Proof.
  revert jobs'. induction jobs as [|j jobs IH]; intros jobs' Ha; simpl in Ha.
  { left. injection Ha as <-. split; [apply not_elem_of_nil|done]. }
  case_bool_decide as Hj.
  - destruct n; [done|]. destruct (sj_normalized j) eqn:Hn; [done|]. injection Ha as <-.
    right. by exists [], j, jobs.
  - destruct (add_content out c n jobs) as [l|]; [|done]. injection Ha as <-. destruct (IH l eq_refl) as [[Ho ->]|(l1 & k & l2 & -> & ? & ? & ? & ->)].
    + left. split; [|done]. csimpl. rewrite not_elem_of_cons. by split.
    + right. by exists (j :: l1), k, l2.
Qed.

Lemma plan_empty : plan_ok [] (mkScan 0 ∅ [] ∅ []).
Proof.
  split; simpl.
  - by intros rel ?%elem_of_nil.
  - apply NoDup_nil_2.
  - by intros j c ?%elem_of_nil.
  - by intros j ?%elem_of_nil.
  - intros p. split; [set_solver|]. by intros (? & ? & ?%elem_of_nil & _).
  - intros p r. by rewrite lookup_empty.
Qed.

Lemma plan_job relatives st out c n jobs rel o j :
  plan_ok relatives st → add_content out c n (sc_jobs st) = Some jobs →
  j ∈ sc_jobs st → sj_output j = o → content_of rel ∈ sj_contents j → (sj_normalized j = true ↔ o ≠ old_output rel) →
  ∃ j', j' ∈ jobs ∧ sj_output j' = o ∧ content_of rel ∈ sj_contents j' ∧ (sj_normalized j' = true ↔ o ≠ old_output rel).
Proof.
  intros Hp Ha Hj Hjo Hc Hn. apply add_content_spec in Ha as [[_ ->]|(l1 & k & l2 & Hjobs & Hk & Hkn & -> & ->)].
  { exists j. split_and!; try done. apply elem_of_app. by left. }
  rewrite Hjobs, elem_of_app, elem_of_cons in Hj. setoid_rewrite elem_of_app. setoid_rewrite elem_of_cons.
  destruct Hj as [Hj|[->|Hj]]; [exists j; naive_solver| |exists j; naive_solver].
  exists (mkJob out (sj_contents k ++ [c]) false). simpl. rewrite elem_of_app.
  split_and!; [right; by left|congruence|by left|by rewrite <-Hn, Hkn].
Qed.

Lemma plan_new_job out c n jobs jobs' :
  add_content out c n jobs = Some jobs' →
  ∃ j, j ∈ jobs' ∧ sj_output j = out ∧ c ∈ sj_contents j ∧ sj_normalized j = n.
Proof.
  intros [[_ ->]|(l1 & k & l2 & _ & _ & _ & -> & ->)]%add_content_spec.
  - exists (mkJob out [c] n). simpl. split_and!; [apply elem_of_app; right; by left|done|by left|done].
  - exists (mkJob out (sj_contents k ++ [c]) false). simpl. rewrite !elem_of_app. split_and!; [right; by left|done|right; by left|done].
Qed.

Lemma add_content_unique out c n jobs jobs' :
  add_content out c n jobs = Some jobs' → NoDup (sj_output <$> jobs) → NoDup (sj_output <$> jobs').
Proof.
  intros [[Hnin ->]|(l1 & k & l2 & -> & <- & _ & _ & ->)]%add_content_spec Hnd.
  - rewrite fmap_app. apply NoDup_app. split_and!; [done| |apply NoDup_singleton]. by intros o Ho ->%list_elem_of_singleton.
  - by rewrite fmap_app, fmap_cons in *.
Qed.

Lemma add_content_source out c n jobs jobs' j x :
  add_content out c n jobs = Some jobs' → j ∈ jobs' → x ∈ sj_contents j →
  (sj_output j = out ∧ x = c) ∨ ∃ k, k ∈ jobs ∧ sj_output k = sj_output j ∧ x ∈ sj_contents k.
Proof.
  intros [[_ ->]|(l1 & k & l2 & -> & <- & _ & _ & ->)]%add_content_spec Hj Hx.
  - apply elem_of_app in Hj as [Hj| ->%list_elem_of_singleton]; [right; eauto|].
    simpl in Hx. apply list_elem_of_singleton in Hx as ->. by left.
  - apply elem_of_app in Hj as [Hj|[->|Hj]%elem_of_cons];
      [right; exists j; rewrite elem_of_app; tauto| |right; exists j; rewrite elem_of_app, elem_of_cons; tauto].
    simpl in Hx. apply elem_of_app in Hx as [Hx| ->%list_elem_of_singleton]; [|by left].
    right. exists k. rewrite elem_of_app, elem_of_cons. tauto.
Qed.

Lemma add_content_moved out c n jobs jobs' j :
  add_content out c n jobs = Some jobs' → j ∈ jobs' → sj_normalized j = true →
  (n = true ∧ sj_contents j = [c]) ∨ j ∈ jobs.
Proof.
  intros [[_ ->]|(l1 & k & l2 & -> & <- & _ & _ & ->)]%add_content_spec Hj Hn.
  - apply elem_of_app in Hj as [Hj| ->%list_elem_of_singleton]; [by right|by left].
  - apply elem_of_app in Hj as [Hj|[->|Hj]%elem_of_cons]; [|done|]; right; rewrite elem_of_app, elem_of_cons; tauto.
Qed.

Lemma plan_step relatives st relative st' :
  plan_ok relatives st → scan_file strmRoot embyPrefix library st relative = Ok st' → plan_ok (relatives ++ [relative]) st'.
Proof.
  intros Hp (out & jobs & Ho & Ha & ->)%scan_file_inv.
  assert (∀ (P : string → Prop), (∃ rel, rel ∈ relatives ++ [relative] ∧ P rel) ↔ (∃ rel, rel ∈ relatives ∧ P rel) ∨ P relative) as Hex.
  { intros P. setoid_rewrite elem_of_app. setoid_rewrite list_elem_of_singleton. naive_solver. }
  split; cbn [sc_jobs sc_expected sc_relocations].
  - intros rel [Hrel| ->%list_elem_of_singleton]%elem_of_app.
    + destruct (po_job _ _ Hp rel Hrel) as (o & j & Ho' & Hj & Hjo & Hc & Hn).
      edestruct plan_job as (j' & ?); [exact Hp|exact Ha|exact Hj|exact Hjo|exact Hc|exact Hn|]. exists o, j'. naive_solver.
    + destruct (plan_new_job _ _ _ _ _ Ha) as (j & Hj & Hjo & Hc & Hn). exists out, j. split_and!; try done.
      by rewrite Hn, negb_true_iff, bool_decide_eq_false.
  - eapply add_content_unique; [exact Ha|apply Hp].
  - intros j c Hj Hc. apply Hex. destruct (add_content_source _ _ _ _ _ _ _ Ha Hj Hc) as [[-> ->]|(k & Hk & <- & Hck)]; [by right|left].
    by apply (po_source _ _ Hp k).
  - intros j Hj Hn. destruct (add_content_moved _ _ _ _ _ _ Ha Hj Hn) as [[_ ->]|Hj']; [eauto|by apply (po_moved _ _ Hp)].
  - intros p. rewrite elem_of_union, elem_of_singleton, (po_expected _ _ Hp).
    split; [intros [->|(rel & o & Hr & H1 & H2)]|intros (rel & o & [Hr| ->%list_elem_of_singleton]%elem_of_app & H1 & H2)].
    + exists relative, out. split_and!; try done. apply elem_of_app. right. by left.
    + exists rel, o. split_and!; try done. apply elem_of_app. by left.
    + right. eauto.
    + left. congruence.
  - assert (∀ p r, sc_relocations st !! p = Some r → ∃ rel o, rel ∈ relatives ++ [relative] ∧ output_of rel = Some o ∧
      o ≠ old_output rel ∧ p = join_path [strmRoot; old_output rel] ∧ r = mkRelocation (join_path [strmRoot; o]) (content_of rel)) as Hold.
    { intros p r Hr. destruct (po_relocated _ _ Hp p r Hr) as (rel & o & Hrel & ?). exists rel, o. split; [|done]. apply elem_of_app. by left. }
    case_bool_decide as Hne; simpl; [done|]. intros p r. destruct (decide (p = join_path [strmRoot; old_output relative])) as [->|Hp'].
    + rewrite lookup_insert_eq. intros [= <-]. exists relative, out. split_and!; try done. apply elem_of_app. right. by left.
    + rewrite lookup_insert_ne by done. apply Hold.
Qed.

Lemma plan_same relatives st st' :
  plan_ok relatives st → sc_jobs st' = sc_jobs st → sc_expected st' = sc_expected st → sc_relocations st' = sc_relocations st →
  plan_ok relatives st'.
Proof. intros [] E1 E2 E3. split; rewrite ?E1, ?E2, ?E3; done. Qed.
End Plan.

(** ** The scan *)

(** The directories skipped and the media files met, after the objects of a walk. *)
Definition collect (excluded : gset string) (mediaBase : string) (st : list string * list string) (e : walk_entry)
    : list string * list string :=
  if below_skipped st.1 e then st
  else if entry_is_dir e then
    (if negb (bool_decide (we_path e = "")) && bool_decide (dir (we_path e) = ".") && bool_decide (we_path e ∈ excluded)
     then we_path e :: st.1 else st.1, st.2)
  else if is_symlink (we_type e) || negb (is_video (entry_name mediaBase e)) then st
  else (st.1, st.2 ++ [we_path e]).
Definition media_of (excluded : gset string) (mediaBase : string) (entries : list walk_entry) : list string :=
  (foldl (collect excluded mediaBase) ([], []) entries).2.

Section Scan.
Context `{Env} `{Ctx} `{Sleep} `{Remote} `{Local} `{Unicode}.
Context (update : option (Q → string → M Pipe unit)) (estimated : Z) (excluded : gset string).
Context (mediaBase strmRoot embyPrefix library : string).

Definition scanned (st : list string * list string) (plan : scan) : Prop :=
  plan_ok strmRoot embyPrefix library st.2 plan ∧ sc_skipped plan = st.1.

Lemma scan_entry_ok st plan e w :
  scanned st plan →
  wp (scan_entry update estimated excluded mediaBase strmRoot embyPrefix library plan e) w
    (λ r _, ∀ plan', r = Ok plan' → scanned (collect excluded mediaBase st e) plan').
Proof.
  intros [Hp Hs]. unfold scan_entry, collect. rewrite Hs. destruct (below_skipped _ _); [apply wp_ret; by intros ? [= <-]|].
  apply wp_bind, wp_ctx_live; intros n; [done|]. destruct (entry_is_dir e).
  { apply wp_ret. intros plan' [= <-]. destruct (_ && _); [|by split]. split; [by eapply plan_same|]. cbn [fst sc_skipped skip_directory]. by rewrite Hs. }
  destruct (is_symlink _); [by apply wp_lift|]. cbn [orb]. destruct (is_video _); cbn [negb]; [|apply wp_ret; by intros ? [= <-]].
  apply wp_bind, wp_intro. intros [[]|e'] w' _; [|done]. apply wp_lift. intros plan' Hf. split; cbn [fst snd].
  - eapply plan_step; [|exact Hf]. by eapply plan_same.
  - apply scan_file_inv in Hf as (? & ? & _ & _ & ->). exact Hs.
Qed.

Lemma scan_fold_ok entries st plan w :
  scanned st plan →
  wp (m_fold (scan_entry update estimated excluded mediaBase strmRoot embyPrefix library) entries plan) w
    (λ r _, ∀ plan', r = Ok plan' → scanned (foldl (collect excluded mediaBase) st entries) plan').
Proof.
  revert st plan w. induction entries as [|e entries IH]; intros st plan w Hst; simpl.
  { apply wp_ret. by intros ? [= <-]. }
  apply wp_bind. eapply wp_mono; [by apply scan_entry_ok|]. intros [plan'|e'] w' Hr; [|done]. apply IH. by apply Hr.
Qed.

(** The plan of a library, when the scan of it succeeds: every media file has one job,
    whose output is the canonical path of the file and which writes the target of the file;
    no two jobs have the same output; every content of a job is the target of a media file
    whose canonical path is the output, and a file that moves to a new path has its job for
    itself; the expected paths are those of the outputs; and a path is only relocated to
    the new path of the file it was for. *)
Theorem scan_plans entries w :
  wp (m_fold (scan_entry update estimated excluded mediaBase strmRoot embyPrefix library) entries (mkScan 0 ∅ [] ∅ [])) w
    (λ r _, ∀ plan, r = Ok plan → let files := media_of excluded mediaBase entries in
      (∀ f, f ∈ files → ∃ out j, output_of library f = Some out ∧ j ∈ sc_jobs plan ∧ sj_output j = out ∧
         content_of embyPrefix library f ∈ sj_contents j ∧
         (out ≠ old_output library f → sj_contents j = [content_of embyPrefix library f])) ∧
      NoDup (sj_output <$> sc_jobs plan) ∧
      (∀ j c, j ∈ sc_jobs plan → c ∈ sj_contents j →
         ∃ f, f ∈ files ∧ output_of library f = Some (sj_output j) ∧ c = content_of embyPrefix library f) ∧
      (∀ p, p ∈ sc_expected plan ↔ ∃ f out, f ∈ files ∧ output_of library f = Some out ∧ p = join_path [strmRoot; out]) ∧
      (∀ p r, sc_relocations plan !! p = Some r → ∃ f out, f ∈ files ∧ output_of library f = Some out ∧
         out ≠ old_output library f ∧ p = join_path [strmRoot; old_output library f] ∧
         r = mkRelocation (join_path [strmRoot; out]) (content_of embyPrefix library f))).
Proof.
  eapply wp_mono; [apply (scan_fold_ok entries ([], [])); split; [apply plan_empty|done]|].
  intros r w' Hr plan Hplan files. destruct (Hr plan Hplan) as [Hp _]. split; [|split; [|split; [|split]]]; try apply Hp.
  intros f Hf. destruct (po_job _ _ _ _ _ Hp f Hf) as (out & j & Ho & Hj & Hjo & Hc & Hn). exists out, j. split_and!; try done.
  intros Hmv%Hn. destruct (po_moved _ _ _ _ _ Hp j Hj Hmv) as [c Hsole]. rewrite Hsole in Hc |- *.
  by apply list_elem_of_singleton in Hc as ->.
Qed.
End Scan.

(** * Removals *)

Section Prune.
Context `{Env} `{Ctx} `{Sleep} `{Remote} `{Local} `{Ranging}.
Context (mediaRoot strmBase embyPrefix : string) (expected : gset string) (relocations : gmap string strmRelocation).

(** The media file a STRM file points to. *)
Definition target_path (content : string) : option string :=
  let target := trim_space content in
  if has_prefix target (embyPrefix +:+ "/") then
    match cleanRelative (trim_prefix target (embyPrefix +:+ "/")) "STRM target" with
    | Ok c => if bool_decide (c = "") then None else Some (join_path [mediaRoot; c])
    | Err _ => None
    end
  else None.

(** A file may go: its target was just found missing, or it just was found to be a copy of
    the file that takes its place. *)
Definition target_gone (before : history) (p : string) : Prop :=
  ∃ h content c e, before = h ++ [AText (LReadFile p) (Ok content); AText (LEval c) (Err e)] ∧
    is_not_exist e = true ∧ target_path content = Some c ∧ relocations !! p = None.
Definition moved_to (before : history) (p : string) : Prop :=
  ∃ h r i, before = h ++ [AText (LReadFile p) (Ok (sr_contents r)); AInfo (LLstat (sr_output r)) (Ok i);
                         AText (LReadFile (sr_output r)) (Ok (sr_contents r))] ∧
    fi_type i = FRegular ∧ relocations !! p = Some r.

Definition strm_file (p : string) : Prop :=
  ∃ e, p = entry_path strmBase e ∧ is_strm strmBase e = true ∧ entry_is_dir e = false ∧ is_symlink (we_type e) = false.

(** What is asked: nothing is changed but by removals; of directories just found empty, and
    of STRM files of the tree that are not expected and may go. *)
Definition prune_ok (before : history) (a : action) : Prop :=
  match a with
  | ADo (LRemove p) _ =>
      (∃ h, before = h ++ [ANames (LReadDir p) (Ok [])]) ∨
      (p ∉ expected ∧ strm_file p ∧ (target_gone before p ∨ moved_to before p))
  | ADo _ _ => False
  | AInfo _ _ | AText _ _ | ANames _ _ | AWalk _ _ => True
  | _ => False
  end.

Lemma prune_text op : keeps (orderly prune_ok) (os_text op).
Proof. apply ord_call. done. Qed.
Lemma prune_info op : keeps (orderly prune_ok) (os_info op).
Proof. apply ord_call. done. Qed.

Lemma stale_target_ok content w :
  wp (stale_target mediaRoot embyPrefix content) w (λ r w', orderly prune_ok (w_db w) (w_db w') ∧
    (r = Ok true → ∃ c e, pi_log (w_db w') = pi_log (w_db w) ++ [AText (LEval c) (Err e)] ∧ is_not_exist e = true ∧
       target_path content = Some c)).
Proof.
  unfold stale_target, target_path. destruct (has_prefix _ _); cbn [negb]; [|apply wp_ret; by split; [apply orderly_nil|]].
  destruct (cleanRelative _ _) as [c|]; [|apply wp_ret; by split; [apply orderly_nil|]].
  destruct (bool_decide _); [apply wp_ret; by split; [apply orderly_nil|]|].
  apply wp_bind, wp_attempt, wp_call. intros n. simpl.
  assert (∀ r, orderly prune_ok (w_db w) (mkPipe (pi_db (w_db w)) (pi_files (w_db w))
    (pi_log (w_db w) ++ [AText (LEval (join_path [mediaRoot; c])) r]))) as Hord by (intros; by eapply orderly_one).
  destruct (lo_text _ _) as [x|e]; [apply wp_ret; by split; [apply Hord|]|].
  destruct (is_not_exist e) eqn:He; [|apply wp_lift; by split; [apply Hord|]]. apply wp_ret. split; [apply Hord|]. intros _. eauto 10.
Qed.

Lemma stale_moved_ok path content r w :
  wp (stale_moved path content r) w (λ x w', orderly prune_ok (w_db w) (w_db w') ∧
    (x = Ok true → content = sr_contents r ∧ ∃ i, fi_type i = FRegular ∧
       pi_log (w_db w') = pi_log (w_db w) ++ [AInfo (LLstat (sr_output r)) (Ok i); AText (LReadFile (sr_output r)) (Ok content)])).
Proof.
  unfold stale_moved. case_bool_decide as Hc; cbn [negb]; [|apply wp_ret; by split; [apply orderly_nil|]].
  apply wp_bind, wp_call. intros n. simpl. destruct (lo_info _ _) as [i|e]; [|by split; [eapply orderly_one|]].
  case_bool_decide as Hi; cbn [negb]; [|apply wp_lift; by split; [eapply orderly_one|]].
  apply wp_bind, wp_call. intros n'. simpl.
  assert (∀ a db fs, orderly prune_ok (w_db w) (mkPipe db fs
    ((pi_log (w_db w) ++ [AInfo (LLstat (sr_output r)) (Ok i)]) ++ [AText (LReadFile (sr_output r)) a]))) as Hord.
  { intros a db fs. eapply (orderly_snoc _ _ (mkPipe db fs (pi_log (w_db w) ++ [AInfo (LLstat (sr_output r)) (Ok i)]))); [by eapply orderly_one|done..]. }
  destruct (lo_text _ _) as [x|e]; [|by split; [apply Hord|]].
  case_bool_decide as Hx; cbn [negb]; [|apply wp_lift; by split; [apply Hord|]].
  apply wp_ret. split; [apply Hord|]. intros _. split; [done|]. exists i. split; [done|]. simpl. by rewrite <-app_assoc, Hx.
Qed.

Lemma prune_entry_ok st e : keeps (orderly prune_ok) (prune_entry mediaRoot strmBase embyPrefix expected relocations st e).
Proof.
  intros w. unfold prune_entry. apply wp_bind, wp_ctx_live; intros n; [by apply orderly_nil|].
  set (path := entry_path strmBase e). destruct (entry_is_dir e || _) eqn:Hkind; [by apply wp_ret, orderly_nil|].
  apply orb_false_iff in Hkind as [Hdir Hstrm%negb_false_iff].
  destruct (is_symlink _) eqn:Hlink; [by apply wp_ret, orderly_nil|].
  case_bool_decide as Hexp; [by apply wp_ret, orderly_nil|].
  apply wp_bind, wp_call. intros m. simpl. destruct (lo_text _ _) as [content|e']; [|by eapply orderly_one].
  set (w1 := mkWorld m _). assert (orderly prune_ok (w_db w) (w_db w1)) as Ho1 by (by eapply orderly_one).
  apply wp_bind. eapply (wp_mono _ _ (λ r w', orderly prune_ok (w_db w1) (w_db w') ∧
    (r = Ok true → target_gone (pi_log (w_db w')) path ∨ moved_to (pi_log (w_db w')) path))).
  - destruct (relocations !! path) as [r|] eqn:Hr.
    + eapply wp_mono; [apply stale_moved_ok|]. intros x w' [Ho Hx]. split; [done|]. intros (-> & i & Hi & ->)%Hx. right.
      exists (pi_log (w_db w)), r, i. simpl. by rewrite <-app_assoc.
    + eapply wp_mono; [apply stale_target_ok|]. intros x w' [Ho Hx]. split; [done|]. intros (c & e1 & -> & He & Hc)%Hx. left.
      exists (pi_log (w_db w)), content, c, e1. simpl. by rewrite <-app_assoc.
  - intros x w2 [Ho2 Hx]. assert (orderly prune_ok (w_db w) (w_db w2)) as Ho3 by (by etrans).
    destruct x as [[]|]; [|by apply wp_ret|done]. specialize (Hx eq_refl). cbn [negb].
    apply wp_bind, wp_call. intros n2. simpl.
    assert (∀ a db fs, orderly prune_ok (w_db w) (mkPipe db fs (pi_log (w_db w2) ++ [ADo (LRemove path) a]))) as Hord.
    { intros a db fs. eapply orderly_snoc; [exact Ho3|done|]. right. split; [done|]. split; [by exists e|done]. }
    destruct (lo_do _ _); [|by apply Hord]. apply wp_ret. by apply Hord.
Qed.

Lemma prune_directory_ok removed d : keeps (orderly prune_ok) (prune_directory removed d).
Proof.
  intros w. unfold prune_directory. apply wp_bind, wp_attempt, wp_call. intros n. simpl.
  assert (∀ a db fs, orderly prune_ok (w_db w) (mkPipe db fs (pi_log (w_db w) ++ [ANames (LReadDir d) a]))) as Hord
    by (intros; by eapply orderly_one).
  destruct (lo_names _ _) as [[|? ?]|e]; [|apply wp_ret, Hord|destruct (is_not_exist e); [apply wp_ret, Hord|apply wp_lift, Hord]].
  apply wp_bind, wp_attempt, wp_call. intros m. simpl.
  assert (∀ a db fs, orderly prune_ok (w_db w) (mkPipe db fs ((pi_log (w_db w) ++ [ANames (LReadDir d) (Ok [])]) ++ [ADo (LRemove d) a])))
    as Hord'.
  { intros a db fs. eapply (orderly_snoc _ _ (mkPipe db fs _)); [apply (Hord (Ok []))|done|]. left. by eexists. }
  destruct (lo_do _ _) as [[]|e]; [apply wp_ret, Hord'|]. destruct (is_not_exist e); [apply wp_ret, Hord'|apply wp_lift, Hord'].
Qed.

(** C33: Pruning a library removes nothing unless the canary of the media mount was seen at
    its start.  A directory is only removed when it was just listed as empty; a file only
    when it is a STRM file of the library that is not in the plan, and it was just read and
    either its target is missing from the mount, or it moves and the file at its new path
    is there with the same content.  Nothing else is changed. *)
Theorem prune_safe w :
  wp (pruneStaleSTRM mediaRoot strmBase embyPrefix expected relocations) w (λ _ w', ∃ l, pi_log (w_db w') = pi_log (w_db w) ++ l ∧
    ∀ l1 op r l2, l = l1 ++ ADo op r :: l2 →
      (∃ i l', fi_type i = FRegular ∧ l = AInfo (LStat (join_path [mediaRoot; health_canary])) (Ok i) :: l') ∧
      ∃ p, op = LRemove p ∧
        let before := pi_log (w_db w) ++ l1 in
        ((∃ h, before = h ++ [ANames (LReadDir p) (Ok [])]) ∨
         (p ∉ expected ∧ strm_file p ∧ (target_gone before p ∨ moved_to before p)))).
Proof.
  unfold pruneStaleSTRM. apply wp_bind, wp_attempt, wp_call. intros n. cbn zeta.
  set (c := AInfo _ _). set (w1 := mkWorld n _).
  assert (∀ l1 op r l2, [c] ≠ l1 ++ ADo op r :: l2) as Hno by (intros [|? [|? ?]] op r l2 [=]).
  destruct (lo_info _ _) as [i|e] eqn:Hi; [|apply wp_ret; exists [c]; split; [done|]; intros; exfalso; by eapply Hno].
  case_bool_decide as Hreg; cbn [negb]; [|apply wp_ret; exists [c]; split; [done|]; intros; exfalso; by eapply Hno].
  set (rest := walk_dir strmBase ≫= _).
  assert (keeps (orderly prune_ok) rest) as Hrest.
  { apply keeps_bind; [apply _|by apply ord_observe|]. intros [entries failure].
    apply keeps_bind; [apply _|apply keeps_fold; [apply _|intros; apply prune_entry_ok]|]. intros st.
    apply keeps_bind; [apply _|unfold walk_error; keeps_run|]. intros _.
    apply keeps_bind; [apply _|apply keeps_fold; [apply _|intros; apply prune_directory_ok]|]. intros. apply keeps_ret, _. }
  eapply wp_mono; [apply Hrest|]. intros _ w2 (l & E & Hl). exists (c :: l). split; [by rewrite E; simpl; rewrite <-app_assoc|].
  intros [|c' l1] op r l2 Heq; [by simplify_eq|]. injection Heq as <- ->. specialize (Hl l1 (ADo op r) l2 eq_refl).
  split; [by exists i, (l1 ++ ADo op r :: l2)|]. simpl in Hl. rewrite <-app_assoc in Hl. destruct op; try done. by exists path.
Qed.
End Prune.

(** * Writes *)

Section Write.
Context `{Env} `{Ctx} `{Sleep} `{Remote} `{Local}.
Context (strmRoot : string) (jobs : list strmSyncJob).

(** A temporary file this run made. *)
Definition temporary_of (before : history) (t : string) : Prop :=
  ∃ d, AText (LCreateTemp d ".strm-*") (Ok t) ∈ before.

(** The file renamed into place was just written in full, for a job of the plan, next to a
    path that held nothing or, if the job does not move a file, something else. *)
Definition complete_write (before : history) (t p : string) : Prop :=
  ∃ j c content h old, j ∈ jobs ∧ content ∈ sj_contents j ∧ cleanRelative (sj_output j) "STRM output" = Ok c ∧
    p = join_path [strmRoot; c] ∧
    before = h ++ [AText (LReadFile p) old; AText (LCreateTemp (dir p) ".strm-*") (Ok t); ADo (LWrite t content) (Ok tt);
                   ADo (LFchmod t file_mode) (Ok tt); ADo (LClose t) (Ok tt)] ∧
    match old with Ok text => text ≠ content ∧ sj_normalized j = false | Err e => is_not_exist e = true end.

Definition write_ok (before : history) (a : action) : Prop :=
  match a with
  | ADo op _ =>
      match op with
      | LMkdir _ | LMkdirAll _ | LChmod _ _ => True
      | LWrite t _ | LFchmod t _ | LClose t | LRemove t => temporary_of before t
      | LRename t p => complete_write before t p
      | _ => False
      end
  | AInfo _ _ | AText _ _ | ANames _ _ | AWalk _ _ => True
  | _ => False
  end.

Lemma write_text op : keeps (orderly write_ok) (os_text op).
Proof. apply ord_call. done. Qed.
Lemma write_info op : keeps (orderly write_ok) (os_info op).
Proof. apply ord_call. done. Qed.
Lemma write_mkdir p : keeps (orderly write_ok) (os_do (LMkdir p)).
Proof. apply ord_call. done. Qed.
Lemma write_mkdir_all p : keeps (orderly write_ok) (os_do (LMkdirAll p)).
Proof. apply ord_call. done. Qed.
Lemma write_chmod p m : keeps (orderly write_ok) (os_do (LChmod p m)).
Proof. apply ord_call. done. Qed.
Hint Resolve write_text write_info write_mkdir write_mkdir_all write_chmod : keeps.

Lemma write_readable p i : keeps (orderly write_ok) (ensureReadableDirectory p i).
Proof. unfold ensureReadableDirectory. keeps_run. Qed.
Hint Resolve write_readable : keeps.

Lemma safe_output_orderly relative : keeps (orderly write_ok) (safeOutputPath strmRoot relative).
Proof.
  unfold safeOutputPath. destruct (cleanRelative _ _) as [c|]; [|keeps_run]. destruct (bool_decide _); [keeps_run|].
  apply keeps_bind; [apply _| |intros; keeps_run]. destruct (bool_decide _); [keeps_run|]. apply keeps_fold; [apply _|].
  intros. unfold ensure_parent. keeps_run.
Qed.

Lemma safe_output_path relative w :
  wp (safeOutputPath strmRoot relative) w (λ r _, ∀ p, r = Ok p → ∃ c, cleanRelative relative "STRM output" = Ok c ∧ p = join_path [strmRoot; c]).
Proof.
  unfold safeOutputPath. destruct (cleanRelative _ _) as [c|]; [|by apply wp_lift]. destruct (bool_decide _); [by apply wp_lift|].
  apply wp_bind, wp_intro. intros [?|?] w' _; [|done]. apply wp_bind, wp_intro. intros [info|?] w'' _; [|done].
  destruct info as [i|e]; [destruct (is_symlink _)|destruct (is_not_exist e)]; (apply wp_lift || apply wp_ret); naive_solver.
Qed.

(** One step of the write of a temporary file: what was allowed stays allowed, and the
    clean-up only touches it. *)
Lemma or_clean_ok (op : local_op) (cleanup : list local_op) (t : string) w (Q : res unit → World Pipe → Prop) s0 :
  orderly write_ok s0 (w_db w) → temporary_of (pi_log (w_db w)) t →
  write_ok (pi_log (w_db w)) (ADo op (lo_do (pi_log (w_db w)) op)) →
  Forall (λ c, c = LClose t ∨ c = LRemove t) cleanup →
  (∀ w' e, orderly write_ok s0 (w_db w') → Q (Err e) w') →
  (∀ w', orderly write_ok s0 (w_db w') → pi_log (w_db w') = pi_log (w_db w) ++ [ADo op (Ok tt)] → Q (Ok tt) w') →
  wp (or_clean (os_do op) cleanup) w Q.
Proof.
  intros H0' Ht Hop Hc HE HO. unfold or_clean. apply wp_bind, wp_attempt, wp_call. intros n. simpl.
  assert (orderly write_ok s0 (mkPipe (pi_db (w_db w)) (pi_files (w_db w)) (pi_log (w_db w) ++ [ADo op (lo_do (pi_log (w_db w)) op)])))
    as H1' by (by eapply orderly_snoc).
  destruct (lo_do _ op) as [[]|e]; [by apply wp_ret, HO|].
  apply wp_bind. eapply (wp_mono _ _ (λ _ w', orderly write_ok s0 (w_db w'))); [|intros [?|?] w' Hw'; [by apply wp_lift, HE|by apply HE]].
  set (w1 := mkWorld n _). assert (temporary_of (pi_log (w_db w1)) t) as Ht1.
  { destruct Ht as [d Hd]. exists d. simpl. apply elem_of_app. by left. }
  change (orderly write_ok s0 (w_db w1)) in H1'. clearbody w1. clear H0' Hop HE HO Ht n. revert w1 H1' Ht1.
  unfold m_each. generalize tt. induction Hc as [|c cleanup Hc _ IH]; intros u w1 H1' Ht1; simpl; [by apply wp_ret|].
  apply wp_bind, wp_bind, wp_attempt, wp_call. intros m. apply wp_ret. apply IH.
  - eapply orderly_snoc; [exact H1'|done|]. by destruct Hc as [->| ->].
  - destruct Ht1 as [d Hd]. exists d. simpl. apply elem_of_app. by left.
Qed.

Lemma write_atomic_ok j c content p old h w :
  j ∈ jobs → content ∈ sj_contents j → cleanRelative (sj_output j) "STRM output" = Ok c → p = join_path [strmRoot; c] →
  pi_log (w_db w) = h ++ [AText (LReadFile p) old] →
  match old with Ok text => text ≠ content ∧ sj_normalized j = false | Err e => is_not_exist e = true end →
  wp (writeAtomic p content) w (λ _ w', orderly write_ok (w_db w) (w_db w')).
Proof.
  intros Hj Hcon Hc Hp Hlog Hold. unfold writeAtomic. apply wp_bind, wp_call. intros n. simpl.
  destruct (lo_text _ _) as [t|e]; [|by eapply orderly_one]. set (w1 := mkWorld n _).
  assert (orderly write_ok (w_db w) (w_db w1)) as Ho1 by (by eapply orderly_one).
  assert (pi_log (w_db w1) = pi_log (w_db w) ++ [AText (LCreateTemp (dir p) ".strm-*") (Ok t)]) as E1 by done. clearbody w1.
  assert (∀ l, temporary_of (pi_log (w_db w1) ++ l) t) as Ht.
  { intros l. exists (dir p). rewrite E1, !elem_of_app. left. right. by left. }
  assert (temporary_of (pi_log (w_db w1)) t) as Ht1 by (by rewrite <-(app_nil_r (pi_log (w_db w1)))).
  apply wp_bind, (or_clean_ok _ _ t w1 _ (w_db w)); [done|done|done|by repeat constructor; auto|done|]. intros w2 Ho2 E2.
  assert (temporary_of (pi_log (w_db w2)) t) as Ht2 by (rewrite E2; apply Ht).
  apply wp_bind, (or_clean_ok _ _ t w2 _ (w_db w)); [done|done|done|by repeat constructor; auto|done|]. intros w3 Ho3 E3.
  assert (temporary_of (pi_log (w_db w3)) t) as Ht3 by (rewrite E3, E2, <-app_assoc; apply Ht).
  apply wp_bind, (or_clean_ok _ _ t w3 _ (w_db w)); [done|done|done|by repeat constructor; auto|done|]. intros w4 Ho4 E4.
  apply (or_clean_ok _ _ t w4 _ (w_db w)); [done|rewrite E4, E3, E2, <-!app_assoc; apply Ht| |by repeat constructor; auto|done|done].
  exists j, c, content, h, old. split_and!; try done. rewrite E4, E3, E2, E1, Hlog. by rewrite <-!app_assoc.
Qed.

Lemma keeps_fold_errors {A S} (f : S → A → M Pipe (S * option error)) l s :
  (∀ s x, x ∈ l → keeps (orderly write_ok) (f s x)) → keeps (orderly write_ok) (fold_errors f l s).
Proof.
  intros Hf. revert s. induction l as [|x l IH]; intros s; simpl; [apply keeps_ret, _|].
  apply keeps_bind; [apply _|apply Hf; by left|]. intros [s' [e|]]; [apply keeps_ret, _|]. apply IH. intros. apply Hf. by right.
Qed.

(** Reports that only write to the database. *)
Definition db_reporter (update : option (Q → string → M Database unit)) : option (Q → string → M Pipe unit) :=
  (λ f progress message, on_db (f progress message)) <$> update.

Lemma report_orderly J update progress message : keeps (orderly J) (report (db_reporter update) progress message).
Proof. destruct update; [apply ord_on_db|apply keeps_ret, _]. Qed.

Lemma sync_content_ok update media j c p counts content :
  j ∈ jobs → content ∈ sj_contents j → cleanRelative (sj_output j) "STRM output" = Ok c → p = join_path [strmRoot; c] →
  keeps (orderly write_ok) (sync_content (db_reporter update) media p (sj_normalized j) counts content).
Proof.
  intros Hj Hcon Hc Hp w. unfold sync_content. cbv zeta.
  assert (∀ c0, keeps (orderly write_ok) (finish_content (db_reporter update) media c0)) as Hfin.
  { intros c0. unfold finish_content. destruct (Z.ltb _ _); [apply keeps_ret, _|].
    apply keeps_bind; [apply _|apply keeps_bind; [apply _|apply keeps_attempt, report_orderly|intros; apply keeps_ret, _]|].
    intros. apply keeps_ret, _. }
  apply wp_bind, wp_attempt, wp_call. intros n. cbv beta zeta.
  set (w1 := mkWorld n _). assert (pi_log (w_db w1) = pi_log (w_db w) ++ [AText (LReadFile p) (lo_text (pi_log (w_db w)) (LReadFile p))]) as E1 by done.
  assert (orderly write_ok (w_db w) (w_db w1)) as Ho1 by (by eapply orderly_one). clearbody w1.
  assert (∀ c0, wp (finish_content (db_reporter update) media c0) w1 (λ _ w', orderly write_ok (w_db w) (w_db w'))) as Hfin1.
  { intros c0. eapply wp_mono; [apply Hfin|]. intros r w' Hw'. by etrans. }
  destruct (lo_text _ _) as [old|e].
  - case_bool_decide as Hsame; [apply Hfin1|]. destruct (sj_normalized j) eqn:Hn; [by apply wp_ret|].
    apply wp_bind, wp_bind, wp_attempt. eapply wp_mono; [by eapply write_atomic_ok|]. intros r w2 Ho2.
    assert (orderly write_ok (w_db w) (w_db w2)) as Ho3 by (by etrans). apply wp_ret.
    destruct r; [|by apply wp_ret]. eapply wp_mono; [apply Hfin|]. intros r w' Hw'. by etrans.
  - destruct (is_not_exist e) eqn:He; [|by apply wp_ret].
    apply wp_bind, wp_bind, wp_attempt. eapply wp_mono; [by eapply write_atomic_ok|]. intros r w2 Ho2.
    assert (orderly write_ok (w_db w) (w_db w2)) as Ho3 by (by etrans). apply wp_ret.
    destruct r; [|by apply wp_ret]. eapply wp_mono; [apply Hfin|]. intros r w' Hw'. by etrans.
Qed.

Lemma sync_job_ok update media counts j :
  j ∈ jobs → keeps (orderly write_ok) (sync_job (db_reporter update) media strmRoot counts j).
Proof.
  intros Hj w. unfold sync_job. apply wp_bind, wp_attempt.
  eapply wp_mono; [apply wp_and; [apply safe_output_orderly|apply safe_output_path]|].
  intros [p|e] w1 [Ho Hp]; [|by apply wp_ret]. destruct (Hp p eq_refl) as (c & Hc & ->).
  eapply wp_mono; [apply keeps_fold_errors; intros; by eapply sync_content_ok|]. intros r w' Hw'. by etrans.
Qed.

Lemma process_orderly `{Workers} {S} (process : S → strmSyncJob → M Pipe (S * option error)) s :
  (∀ s j, j ∈ jobs → keeps (orderly write_ok) (process s j)) → keeps (orderly write_ok) (processConcurrently jobs process s).
Proof.
  intros Hp w. unfold processConcurrently. apply wp_bind. eapply wp_mono; [apply (keeps_fold (orderly write_ok))|].
  - intros [s' f] i _. simpl. destruct (jobs !! i) as [j|] eqn:Hj; [|apply keeps_ret, _].
    apply keeps_bind; [apply _|apply ord_ctx_over|]. intros over. destruct (_ && _); [apply keeps_ret, _|].
    apply keeps_bind; [apply _|apply Hp; by eapply list_elem_of_lookup_2|]. intros. apply keeps_ret, _.
  - intros [[s' f]|e] w1 Ho; [|done]. apply wp_bind, wp_ctx_over. intros over n. by apply wp_ret.
Qed.
End Write.

(** * Synchronisation *)

(** Nothing is changed but the directories of the tree made, and made readable. *)
Definition calm_ok (before : history) (a : action) : Prop :=
  match a with
  | ADo op _ => match op with LMkdirAll _ | LChmod _ _ => True | _ => False end
  | AInfo _ _ | AText _ _ | ANames _ _ | AWalk _ _ => True
  | _ => False
  end.

Section Calm.
Context `{Env} `{Ctx} `{Sleep} `{Remote} `{Local} `{Names} `{Ranging} `{Workers} `{Unicode}.

Lemma calm_text op : keeps (orderly calm_ok) (os_text op).
Proof. apply ord_call. done. Qed.
Lemma calm_info op : keeps (orderly calm_ok) (os_info op).
Proof. apply ord_call. done. Qed.
Lemma calm_walk root : keeps (orderly calm_ok) (walk_dir root).
Proof. by apply ord_observe. Qed.
Lemma calm_mkdir_all p : keeps (orderly calm_ok) (os_do (LMkdirAll p)).
Proof. apply ord_call. done. Qed.
Lemma calm_chmod p m : keeps (orderly calm_ok) (os_do (LChmod p m)).
Proof. apply ord_call. done. Qed.
Lemma calm_db_read {A} (m : M Database A) : keeps (orderly calm_ok) (on_db m).
Proof. apply ord_on_db. Qed.
Lemma calm_live : keeps (orderly calm_ok) ctx_live.
Proof. apply ord_ctx_live. Qed.
Lemma calm_report update q m : keeps (orderly calm_ok) (report (db_reporter update) q m).
Proof. apply report_orderly. Qed.
Hint Resolve calm_text calm_info calm_walk calm_mkdir_all calm_chmod calm_db_read calm_live calm_report : keeps.

Lemma calm_or_zero {A} (z : A) (m : M Pipe A) : keeps (orderly calm_ok) m → keeps (orderly calm_ok) (or_zero z m).
Proof. apply ord_or_zero. Qed.

Lemma calm_root path create : keeps (orderly calm_ok) (canonicalRoot path create).
Proof. unfold canonicalRoot, ensureReadableDirectory. keeps_run. Qed.
Hint Resolve calm_or_zero calm_root : keeps.

Lemma calm_paths library : keeps (orderly calm_ok) (paths library).
Proof. unfold paths. keeps_run. Qed.

Lemma calm_excluded library : keeps (orderly calm_ok) (excludedRoots library).
Proof. unfold excludedRoots. keeps_run. Qed.

Lemma calm_count root : keeps (orderly calm_ok) (countSTRMFiles root).
Proof. unfold countSTRMFiles. keeps_run. Qed.

Lemma calm_scan update estimated excluded mediaBase strmRoot prefix library st e :
  keeps (orderly calm_ok) (scan_entry (db_reporter update) estimated excluded mediaBase strmRoot prefix library st e).
Proof.
  unfold scan_entry. destruct (below_skipped _ _); [apply keeps_ret, _|].
  apply keeps_bind; [apply _|apply calm_live|]. intros _. destruct (entry_is_dir e); [apply keeps_ret, _|].
  destruct (is_symlink _); [apply keeps_throw, _|]. destruct (is_video _); [|apply keeps_ret, _].
  apply keeps_bind; [apply _| |intros; apply keeps_lift, _]. destruct (Z.eqb _ _); [apply calm_report|apply keeps_ret, _].
Qed.

Lemma calm_fold_errors {A S} (f : S → A → M Pipe (S * option error)) l s :
  (∀ s x, keeps (orderly calm_ok) (f s x)) → keeps (orderly calm_ok) (fold_errors f l s).
Proof.
  intros Hf. revert s. induction l as [|x l IH]; intros s; simpl; [apply keeps_ret, _|].
  apply keeps_bind; [apply _|apply Hf|]. intros [s' [e|]]; [apply keeps_ret, _|]. apply IH.
Qed.

Lemma calm_verify_job update mediaRoot prefix total st j :
  (∀ q m, keeps (orderly calm_ok) (report update q m)) →
  keeps (orderly calm_ok) (verify_job update mediaRoot prefix total st j).
Proof.
  intros Hup. unfold verify_job. apply keeps_bind; [apply _| |].
  - unfold verify_target, inspectSTRMTarget, resolve_parent. cbv zeta. keeps_run.
  - intros [st' [e|]]; [apply keeps_ret, _|]. destruct st'. cbv zeta. destruct (Z.ltb _ _); [apply keeps_ret, _|].
    apply keeps_bind; [apply _|apply keeps_bind; [apply _|apply keeps_attempt, Hup|intros; apply keeps_ret, _]|].
    intros. apply keeps_ret, _.
Qed.

Lemma calm_process {A S} (items : list A) (process : S → A → M Pipe (S * option error)) s :
  (∀ s x, keeps (orderly calm_ok) (process s x)) → keeps (orderly calm_ok) (processConcurrently items process s).
Proof.
  intros Hp w. unfold processConcurrently. apply wp_bind. eapply wp_mono; [apply (keeps_fold (orderly calm_ok))|].
  - intros [s' f] i _. cbn [fst snd]. destruct (items !! i) as [j|]; [|apply keeps_ret, _].
    apply keeps_bind; [apply _|apply ord_ctx_over|]. intros over. destruct (_ && _); [apply keeps_ret, _|].
    apply keeps_bind; [apply _|apply Hp|]. intros. apply keeps_ret, _.
  - intros [[s' f]|e] w1 Ho; [|done]. apply wp_bind, wp_ctx_over. intros over n. by apply wp_ret.
Qed.

Lemma calm_verify_entry strmBase jobs e : keeps (orderly calm_ok) (verify_entry strmBase jobs e).
Proof. unfold verify_entry. apply keeps_bind; [apply _|apply calm_live|]. intros _. apply keeps_ret, _. Qed.

Lemma calm_verify library update :
  (∀ q m, keeps (orderly calm_ok) (report update q m)) → keeps (orderly calm_ok) (VerifySTRMWithProgress library update).
Proof.
  intros Hup. unfold VerifySTRMWithProgress. apply keeps_bind; [apply _|apply calm_paths|]. intros [[[mediaRoot ?] strmBase] prefix].
  apply keeps_bind; [apply _|apply Hup|]. intros _. apply keeps_bind; [apply _|apply calm_walk|]. intros [entries failure].
  apply keeps_bind; [apply _|apply keeps_fold; [apply _|intros; apply calm_verify_entry]|]. intros jobs.
  apply keeps_bind; [apply _|unfold walk_failed; keeps_run|]. intros _. apply keeps_bind; [apply _|apply Hup|]. intros _.
  cbv zeta. apply keeps_bind; [apply _|apply calm_process; intros; apply calm_fold_errors; intros; by apply calm_verify_job|].
  intros [st [e|]]; [apply keeps_throw, _|]. apply keeps_bind; [apply _|apply Hup|]. intros. apply keeps_ret, _.
Qed.
End Calm.

(** What synchronising a library asks, for the plan it made. *)
Definition sync_ok (mediaRoot strmRoot prefix : string) (plan : scan) (before : history) (a : action) : Prop :=
  match a with
  | ADo op _ =>
      match op with
      | LMkdir _ | LMkdirAll _ | LChmod _ _ => True
      | LWrite t _ | LFchmod t _ | LClose t => temporary_of before t
      | LRename t p => complete_write strmRoot (sc_jobs plan) before t p
      | LRemove p =>
          temporary_of before p ∨ (∃ h, before = h ++ [ANames (LReadDir p) (Ok [])]) ∨
          p ∉ sc_expected plan ∧ (target_gone mediaRoot prefix (sc_relocations plan) before p ∨ moved_to (sc_relocations plan) before p)
      | _ => False
      end
  | AInfo _ _ | AText _ _ | ANames _ _ | AWalk _ _ => True
  | _ => False
  end.

Section Sync.
Context `{Env} `{Ctx} `{Sleep} `{Remote} `{Local} `{Names} `{Ranging} `{Workers} `{Unicode}.

(** The plan is that of the media files which the walk of the library met, but for the top
    directories the settings exclude. *)
Definition planned_from (library : string) (s s' : Pipe) (mediaBase strmRoot prefix : string) (files : list string) (plan : scan) : Prop :=
  plan_ok strmRoot prefix library files plan ∧
  ∃ excluded entries, excluded_as (pi_db s) library excluded ∧ during s s' (AWalk mediaBase (entries, None)) ∧
    files = media_of excluded mediaBase entries.

(** The STRM root as the scan read it again: the answer for the setting, around the directory
    of the library. *)
Definition strm_root_read (s s' : Pipe) (strmBase strmRoot : string) : Prop :=
  ∃ setting, read_as (pi_db s) "strm_root" setting ∧ during s s' (AText (LEval (absolute setting)) (Ok strmRoot)) ∧ inside strmRoot strmBase = true.

Lemma calm_sync mediaRoot strmRoot prefix plan s s' : orderly calm_ok s s' → orderly (sync_ok mediaRoot strmRoot prefix plan) s s'.
Proof. apply orderly_weaken. intros h [] Ha; try done. by destruct op. Qed.
Lemma write_sync mediaRoot strmRoot prefix plan s s' :
  orderly (write_ok strmRoot (sc_jobs plan)) s s' → orderly (sync_ok mediaRoot strmRoot prefix plan) s s'.
Proof. apply orderly_weaken. intros h [] Ha; try done. destruct op; try done. by left. Qed.
Lemma prune_sync mediaRoot strmRoot prefix plan base_ s s' :
  orderly (prune_ok mediaRoot base_ prefix (sc_expected plan) (sc_relocations plan)) s s' →
  orderly (sync_ok mediaRoot strmRoot prefix plan) s s'.
Proof. apply orderly_weaken. intros h [] Ha; try done. destruct op; try done. right. destruct Ha as [?|(? & _ & ?)]; [by left|by right]. Qed.

Lemma prune_orderly mediaRoot base_ prefix expected relocations :
  keeps (orderly (prune_ok mediaRoot base_ prefix expected relocations)) (pruneStaleSTRM mediaRoot base_ prefix expected relocations).
Proof.
  unfold pruneStaleSTRM. apply keeps_bind; [apply _|apply keeps_attempt, prune_info|]. intros canary. cbv zeta.
  destruct (negb _); [apply keeps_ret, _|]. apply keeps_bind; [apply _|by apply ord_observe|]. intros [entries failure].
  apply keeps_bind; [apply _|apply keeps_fold; [apply _|intros; apply prune_entry_ok]|]. intros st.
  apply keeps_bind; [apply _|unfold walk_error; keeps_run|]. intros _.
  apply keeps_bind; [apply _|apply keeps_fold; [apply _|intros; apply prune_directory_ok]|]. intros. apply keeps_ret, _.
Qed.

Lemma apply_plan_ok update library mediaRoot strmRoot strmBase prefix plan :
  keeps (orderly (sync_ok mediaRoot strmRoot prefix plan))
    (apply_plan (db_reporter update) library mediaRoot strmRoot strmBase prefix plan).
Proof.
  assert (∀ q m, keeps (orderly (sync_ok mediaRoot strmRoot prefix plan)) (report (db_reporter update) q m)) as Hup
    by (intros; apply report_orderly).
  assert (∀ b, keeps (orderly (sync_ok mediaRoot strmRoot prefix plan)) (pruneStaleSTRM mediaRoot b prefix (sc_expected plan) (sc_relocations plan)))
    as Hprune by (intros b; eapply keeps_weaken; [apply prune_sync|apply prune_orderly]).
  unfold apply_plan. cbv zeta. apply keeps_bind; [apply _| |].
  { eapply keeps_weaken; [apply write_sync|]. apply process_orderly. intros. by apply sync_job_ok. }
  intros [c [e|]]; [apply keeps_throw, _|]. apply keeps_bind; [apply _|apply Hup|]. intros _.
  apply keeps_bind; [apply _|apply Hprune|]. intros [[removed rd] status].
  apply keeps_bind; [apply _| |].
  { destruct (negb _); [|apply keeps_ret, _]. apply keeps_bind; [apply _|apply Hprune|]. intros [[? ?] ?]. apply keeps_ret, _. }
  intros [[removed' rd'] status']. apply keeps_bind; [apply _|apply Hup|]. intros _. apply keeps_bind; [apply _| |].
  { eapply keeps_weaken; [apply calm_sync|]. apply calm_verify. intros. apply calm_report. }
  intros v. apply keeps_bind; [apply _|apply Hup|]. intros. apply keeps_ret, _.
Qed.

Lemma calm_plan library update : keeps (orderly calm_ok) (plan_library library (db_reporter update)).
Proof.
  unfold plan_library. apply keeps_bind; [apply _|apply calm_paths|]. intros [[[mediaRoot mediaBase] strmBase] prefix].
  apply keeps_bind; [apply _|apply calm_excluded|]. intros excluded. apply keeps_bind; [apply _|apply calm_report|]. intros _.
  apply keeps_bind; [apply _|apply calm_or_zero, calm_db_read|]. intros setting.
  apply keeps_bind; [apply _|apply calm_root|]. intros strmRoot. destruct (_ || _); [apply keeps_throw, _|].
  apply keeps_bind; [apply _|apply calm_count|]. intros estimated. apply keeps_bind; [apply _|apply calm_walk|]. intros [entries failure].
  apply keeps_bind; [apply _|apply keeps_fold; [apply _|intros; apply calm_scan]|]. intros plan.
  apply keeps_bind; [apply _|unfold walk_failed; keeps_run|]. intros _. apply keeps_bind; [apply _|apply calm_report|].
  intros _. apply keeps_ret, _.
Qed.

(** A computation that makes no request but those of an orderly run only adds to the log. *)
Lemma orderly_during J s s1 s2 a : during s s1 a → orderly J s1 s2 → during s s2 a.
Proof.
  intros (l & E & Ha) (l' & E' & _). exists (l ++ l'). rewrite E', E, app_assoc. split; [done|]. apply elem_of_app. by left.
Qed.
Lemma orderly_grows J s s' : orderly J s s' → grows (λ _, True) s s'.
Proof. intros (l & E & _). exists l. split; [done|by apply Forall_true]. Qed.
Lemma during_orderly J s s1 s2 a : orderly J s s1 → during s1 s2 a → during s s2 a.
Proof.
  intros (l & E & _) (l' & E' & Ha). exists (l ++ l'). rewrite E', E, app_assoc. split; [done|]. apply elem_of_app. by right.
Qed.

End Sync.

(** * Counts *)

Definition sum_z (l : list Z) : Z := foldr Z.add 0%Z l.
Lemma sum_z_cons z l : sum_z (z :: l) = (z + sum_z l)%Z.
Proof. done. Qed.
Lemma sum_z_app l k : sum_z (l ++ k) = (sum_z l + sum_z k)%Z.
Proof. unfold sum_z. induction l as [|z l IH]; simpl; lia. Qed.
Lemma sum_z_perm l k : l ≡ₚ k → sum_z l = sum_z k.
Proof. unfold sum_z. induction 1; simpl; lia. Qed.

Section Counts.
Context `{Env} `{Ctx} `{Sleep} `{Remote} `{Local} `{Workers}.

(** What each job adds to a total, when none fails, is added for all of them. *)
Section Process.
Context {A S : Type} (items : list A) (process : S → A → M Pipe (S * option error)) (total : S → Z) (weight : A → Z).
Hypothesis Hprocess : ∀ s x w, x ∈ items →
  wp (process s x) w (λ r _, ∀ s', r = Ok (s', None) → total s' = (total s + weight x)%Z).

Definition weight_at (i : nat) : Z := match items !! i with Some x => weight x | None => 0%Z end.

Lemma work_total (late : nat → bool) order s failure w :
  wp (m_fold (λ (sf : S * option error) i,
        match items !! i with
        | None => mret sf
        | Some item =>
            over ← ctx_over;
            let failure := first_error sf.2 (if (over : bool) then Some ErrCanceled else None) in
            if bool_decide (is_Some failure) && negb (late i) then mret (sf.1, failure)
            else r ← process sf.1 item; mret (r.1, first_error failure r.2)
        end) order (s, failure)) w
    (λ r _, ∀ s', r = Ok (s', None) → failure = None ∧ total s' = (total s + sum_z (weight_at <$> order))%Z).
Proof.
  revert s failure w. induction order as [|i order IH]; intros s failure w; cbn [m_fold].
  { apply wp_ret. intros s' [= -> ->]. split; [done|]. unfold sum_z. simpl. lia. }
  assert (sum_z (weight_at <$> i :: order) = (weight_at i + sum_z (weight_at <$> order))%Z) as -> by done.
  apply wp_bind. destruct (items !! i) as [x|] eqn:Hx; cbn [fst snd].
  2: { apply wp_ret. eapply wp_mono; [apply IH|]. intros r w' Hr s' Hs. destruct (Hr s' Hs) as [-> ->].
       split; [done|]. unfold weight_at at 2. rewrite Hx. lia. }
  apply wp_bind, wp_ctx_over. intros over n. cbv beta zeta.
  destruct (_ && _) eqn:Hskip.
  { apply wp_ret. eapply wp_mono; [apply IH|]. intros r w' Hr s' Hs. destruct (Hr s' Hs) as [E _]. rewrite E in Hskip. done. }
  apply wp_bind. eapply wp_mono; [apply Hprocess; by eapply list_elem_of_lookup_2|]. intros [[s1 e]|e] w1 Hs1; [|done].
  apply wp_ret. eapply wp_mono; [apply IH|]. intros r w' Hr s' Hs. destruct (Hr s' Hs) as [E ->]. cbn [fst snd] in *.
  destruct failure as [f|]; [by destruct over|]. destruct over; [done|]. simpl in E. subst e. rewrite (Hs1 s1 eq_refl).
  split; [done|]. unfold weight_at at 2. rewrite Hx. lia.
Qed.

Lemma weights_seq : sum_z (weight_at <$> seq 0 (length items)) = sum_z (weight <$> items).
Proof.
  f_equal. apply list_eq. intros i. rewrite !list_lookup_fmap. destruct (decide (i < length items)) as [Hi|Hi].
  - rewrite lookup_seq_lt by done. unfold weight_at. simpl. destruct (lookup_lt_is_Some_2 items i Hi) as [x ->]. done.
  - rewrite lookup_seq_ge, lookup_ge_None_2 by lia. done.
Qed.

Lemma process_total s w :
  wp (processConcurrently items process s) w (λ r _, ∀ s', r = Ok (s', None) →
    total s' = (total s + sum_z (weight <$> items))%Z).
Proof.
  unfold processConcurrently. apply wp_bind. eapply wp_mono; [apply work_total|]. intros [[s1 f]|e] w1 Hr; [|done].
  apply wp_bind, wp_ctx_over. intros over n. apply wp_ret. intros s' [= -> Hf]. simpl in Hf. destruct f; [done|].
  destruct (Hr s' eq_refl) as [_ ->]. f_equal. rewrite <-weights_seq. apply sum_z_perm. by rewrite wk_perm.
Qed.
End Process.

(** *** The files written *)

Definition written (c : counters) : Z := (ct_created c + ct_updated c + ct_unchanged c)%Z.

Lemma finish_total update media c w :
  wp (finish_content update media c) w (λ r _, ∀ c', r = Ok (c', None) → written c' = written c).
Proof.
  unfold finish_content. cbv zeta. destruct (Z.ltb _ _); [apply wp_ret; by intros c' [= <-]|].
  apply wp_bind, wp_intro. intros [e|?] w' _; [|done]. apply wp_ret. by intros c' [= <- _].
Qed.

Lemma content_total update media output normalized c content w :
  wp (sync_content update media output normalized c content) w (λ r _, ∀ c', r = Ok (c', None) → written c' = (written c + 1)%Z).
Proof.
  unfold sync_content. cbv zeta. apply wp_bind, wp_intro. intros [existing|?] w1 _; [|done].
  assert (∀ c1 w1, written c1 = (written c + 1)%Z →
    wp (e ← of_attempt (writeAtomic output content); match e with Some e => mret (c, Some e) | None => finish_content update media c1 end) w1
      (λ r _, ∀ c', r = Ok (c', None) → written c' = (written c + 1)%Z)) as Hwrite.
  { intros c1 w2 Hc1. apply wp_bind, wp_intro. intros [[e|]|?] w3 _; [apply wp_ret; done| |done].
    eapply wp_mono; [apply finish_total|]. intros r w4 Hr c' ->. by rewrite (Hr c' eq_refl). }
  destruct existing as [old|e].
  - case_bool_decide.
    + eapply wp_mono; [apply finish_total|]. intros r w4 Hr c' ->. rewrite (Hr c' eq_refl). unfold written. simpl. lia.
    + destruct normalized; [by apply wp_ret|]. apply Hwrite. unfold written. simpl. lia.
  - destruct (is_not_exist e); [|by apply wp_ret]. apply Hwrite. unfold written. simpl. lia.
Qed.

Lemma job_total update media strmRoot c j w :
  wp (sync_job update media strmRoot c j) w (λ r _, ∀ c', r = Ok (c', None) →
    written c' = (written c + Z.of_nat (length (sj_contents j)))%Z).
Proof.
  unfold sync_job. apply wp_bind, wp_intro. intros [[output|e]|?] w1 _; [|by apply wp_ret|done].
  generalize (sj_contents j) as l. intros l. revert c w1. induction l as [|content l IH]; intros c w1; simpl.
  { apply wp_ret. intros c' [= ->]. lia. }
  apply wp_bind. eapply wp_mono; [apply content_total|]. intros [[c1 [e|]]|e] w2 Hc; [by apply wp_ret| |done].
  eapply wp_mono; [apply IH|]. intros r w3 Hr c' ->. rewrite (Hr c' eq_refl), (Hc c1 eq_refl). lia.
Qed.

(** *** The files verified *)

Definition judged (v : verified) : Z := (vf_valid v + vf_missing v + vf_invalid v)%Z.

Lemma judged_invalid v p why : judged (count_invalid v p why) = (judged v + 1)%Z.
Proof. destruct v. unfold judged. simpl. lia. Qed.
Lemma judged_target v p t s d : judged (count_target (with_directories v d) p t s) = (judged v + 1)%Z.
Proof. destruct v, s; unfold judged; simpl; lia. Qed.

Lemma target_total mediaRoot prefix st j w :
  wp (verify_target mediaRoot prefix st j) w (λ r _, ∀ st', r = Ok (st', None) → judged st' = (judged st + 1)%Z).
Proof.
  unfold verify_target. cbv zeta. destruct (vj_linked j); [apply wp_ret; intros st' [= <-]; apply judged_invalid|].
  apply wp_bind, wp_intro. intros [[content|e]|?] w1 _; [|by apply wp_ret|done].
  destruct (has_prefix _ _); cbn [negb]; [|apply wp_ret; intros st' [= <-]; apply judged_invalid].
  destruct (cleanRelative _ _) as [c|]; [|apply wp_ret; intros st' [= <-]; apply judged_invalid].
  destruct (bool_decide _); [apply wp_ret; intros st' [= <-]; apply judged_invalid|].
  apply wp_bind, wp_intro. intros [[d [state|e]]|?] w2 _; [|by apply wp_ret|done].
  apply wp_ret. intros st' [= <-]. apply judged_target.
Qed.

Lemma verify_job_total update mediaRoot prefix n st j w :
  wp (verify_job update mediaRoot prefix n st j) w (λ r _, ∀ st', r = Ok (st', None) → judged st' = (judged st + 1)%Z).
Proof.
  unfold verify_job. apply wp_bind. eapply wp_mono; [apply target_total|]. intros [[st1 [e|]]|e] w1 Hst; [by apply wp_ret| |done].
  specialize (Hst st1 eq_refl). destruct st1. cbv zeta. destruct (Z.ltb _ _); [apply wp_ret; by intros st' [= <-]|].
  apply wp_bind, wp_intro. intros [e|?] w2 _; [|done]. apply wp_ret. by intros st' [= <- _].
Qed.

Lemma group_total update mediaRoot prefix n st group w :
  wp (fold_errors (verify_job update mediaRoot prefix n) group st) w (λ r _, ∀ st', r = Ok (st', None) →
    judged st' = (judged st + Z.of_nat (length group))%Z).
Proof.
  revert st w. induction group as [|j group IH]; intros st w; simpl; [apply wp_ret; intros st' [= ->]; lia|].
  apply wp_bind. eapply wp_mono; [apply verify_job_total|]. intros [[st1 [e|]]|e] w2 Hc; [by apply wp_ret| |done].
  eapply wp_mono; [apply IH|]. intros r w3 Hr st' ->. rewrite (Hr st' eq_refl), (Hc st1 eq_refl). lia.
Qed.
End Counts.

(** *** The result of a synchronisation *)

Definition contents_count (jobs : list strmSyncJob) : Z := sum_z ((λ j, Z.of_nat (length (sj_contents j))) <$> jobs).
Definition counted (st : scan) : Prop := contents_count (sc_jobs st) = sc_media st.

Lemma add_content_count out c n jobs jobs' :
  add_content out c n jobs = Some jobs' → contents_count jobs' = (contents_count jobs + 1)%Z.
Proof.
  unfold contents_count. intros [[_ ->]|(l1 & k & l2 & -> & _ & _ & _ & ->)]%add_content_spec;
    rewrite !fmap_app, !sum_z_app; unfold sum_z; csimpl; rewrite ?length_app; simpl; lia.
Qed.

Section Result.
Context `{Env} `{Ctx} `{Sleep} `{Remote} `{Local} `{Names} `{Ranging} `{Workers} `{Unicode}.

(** The media files of a walk are those the plan counts. *)
Lemma scan_entry_counted update estimated excluded mediaBase strmRoot prefix library relatives st e w :
  counted st ∧ sc_media st = Z.of_nat (length relatives.2) ∧ sc_skipped st = relatives.1 →
  wp (scan_entry update estimated excluded mediaBase strmRoot prefix library st e) w (λ r _, ∀ st', r = Ok st' →
    let relatives' := collect excluded mediaBase relatives e in
    counted st' ∧ sc_media st' = Z.of_nat (length relatives'.2) ∧ sc_skipped st' = relatives'.1).
Proof.
  intros (Hc & Hm & Hs). unfold scan_entry, collect. rewrite Hs.
  destruct (below_skipped _ _); [apply wp_ret; by intros ? [= <-]|].
  apply wp_bind, wp_ctx_live; intros n; [done|]. destruct (entry_is_dir e).
  { apply wp_ret. intros st' [= <-]. destruct (_ && _); [|done]. split_and!; [done..|]. cbn [fst sc_skipped skip_directory]. by rewrite Hs. }
  destruct (is_symlink _); [by apply wp_lift|]. cbn [orb]. destruct (is_video _); cbn [negb]; [|apply wp_ret; by intros ? [= <-]].
  apply wp_bind, wp_intro. intros [[]|e'] w' _; [|done]. apply wp_lift. intros st' (out & jobs & _ & Ha & ->)%scan_file_inv.
  unfold counted in *. cbn [sc_jobs sc_media sc_skipped count_media fst snd] in *. apply add_content_count in Ha as ->.
  rewrite length_app. simpl length. split_and!; [lia|lia|done].
Qed.

Lemma scan_fold_counted update estimated excluded mediaBase strmRoot prefix library entries relatives st w :
  counted st ∧ sc_media st = Z.of_nat (length relatives.2) ∧ sc_skipped st = relatives.1 →
  wp (m_fold (scan_entry update estimated excluded mediaBase strmRoot prefix library) entries st) w (λ r _, ∀ st', r = Ok st' →
    counted st' ∧ sc_media st' = Z.of_nat (length (foldl (collect excluded mediaBase) relatives entries).2)).
Proof.
  revert relatives st w. induction entries as [|e entries IH]; intros relatives st w Hst; cbn [m_fold foldl].
  { apply wp_ret. intros ? [= <-]. tauto. }
  apply wp_bind. eapply wp_mono; [by apply scan_entry_counted|]. intros [st'|e'] w' Hr; [|done]. apply IH. by apply Hr.
Qed.

(** The plan counts what was walked. *)
Definition media_walked (s s' : Pipe) (n : Z) : Prop :=
  ∃ mediaBase excluded entries, during s s' (AWalk mediaBase (entries, None)) ∧ n = Z.of_nat (length (media_of excluded mediaBase entries)).

Lemma wp_walk root w (Q : res walk → World Pipe → Prop) :
  (∀ l w', orderly calm_ok (w_db w) (w_db w') → during (w_db w) (w_db w') (AWalk root l) → Q (Ok l) w') → wp (walk_dir root) w Q.
Proof. intros HQ. apply HQ; [by eapply orderly_one|]. eexists. split; [done|by left]. Qed.

Lemma wp_walk_failed failure w (Q : res unit → World Pipe → Prop) :
  (∀ e, Q (Err e) w) → (failure = None → Q (Ok tt) w) → wp (walk_failed failure) w Q.
Proof. intros HE HO. destruct failure as [[p e]|]; [apply wp_lift, HE|by apply wp_ret, HO]. Qed.

(** Reports of a task, or none. *)
Definition quiet_reports (update : option (Q → string → M Database unit)) : Prop :=
  match update with Some f => ∀ q m, keeps same_settings (f q m) | None => True end.
(** The reports of a task, if any. *)
Definition progress_of (task : option (string * Q * Q)) : option (Q → string → M Database unit) :=
  (λ t, taskProgress t.1.1 t.1.2 t.2) <$> task.
Lemma progress_quiet task : quiet_reports (progress_of task).
Proof. destruct task; [|done]. intros q m. apply progress_settings. Qed.
Lemma report_fixed update q m : quiet_reports update → keeps fixed (report (db_reporter update) q m).
Proof. intros Hup. destruct update as [f|]; [apply keeps_on_db, Hup|apply keeps_ret, _]. Qed.

(** What is known of the plan when it is made. *)
Record planned (update : option (Q → string → M Database unit)) (library : string) (s s' : Pipe)
    (mediaRoot mediaBase strmRoot strmBase prefix : string) (files : list string) (plan : scan) : Prop := {
  pd_plan : planned_from library s s' mediaBase strmRoot prefix files plan;
  pd_counted : counted plan;
  pd_media : sc_media plan = Z.of_nat (length files);
  pd_roots : rooted library s s' mediaRoot mediaBase strmBase prefix;
  pd_strm : quiet_reports update → strm_root_read s s' strmBase strmRoot
}.

Lemma wp_plan_library library update w (Q : res (string * string * string * string * scan) → World Pipe → Prop) :
  (∀ e w', orderly calm_ok (w_db w) (w_db w') → Q (Err e) w') →
  (∀ mr sr sb px mediaBase files plan w', orderly calm_ok (w_db w) (w_db w') →
     planned update library (w_db w) (w_db w') mr mediaBase sr sb px files plan → Q (Ok (mr, sr, sb, px, plan)) w') →
  wp (plan_library library (db_reporter update)) w Q.
Proof.
  intros HE HO. eapply (wp_mono _ _ (λ r w', orderly calm_ok (w_db w) (w_db w') ∧ ∀ mr sr sb px plan, r = Ok (mr, sr, sb, px, plan) →
    ∃ mediaBase files, planned update library (w_db w) (w_db w') mr mediaBase sr sb px files plan)).
  2: { intros [[[[[mr sr] sb] px] plan]|e] w' [Ho Hp]; [|by apply HE].
       destruct (Hp _ _ _ _ _ eq_refl) as (mediaBase & files & Hpl). by eapply HO. }
  apply wp_and; [apply calm_plan|]. clear HE HO Q. unfold plan_library.
  apply wp_bind. eapply wp_mono; [apply wp_and; [apply calm_paths|apply paths_effect]|].
  intros [[[[mr mediaBase] sb] px]|e] w1 (Ho1 & Hf1 & Hroots); [|done]. specialize (Hroots _ _ _ _ eq_refl).
  apply wp_bind. eapply wp_mono; [apply wp_and; [apply calm_excluded|apply excluded_effect]|].
  intros [excluded|e] w2 (Ho2 & Hf2 & Hex); [|done]. specialize (Hex _ eq_refl). apply (excluded_same _ _ _ _ (proj2 Hf1)) in Hex.
  assert (fixed (w_db w) (w_db w2)) as Hf by (by etrans).
  apply wp_bind. eapply (wp_mono _ _ (λ _ w', orderly calm_ok (w_db w2) (w_db w') ∧ (quiet_reports update → fixed (w_db w2) (w_db w')))).
  { apply wp_and; [apply calm_report|]. apply wp_intro. intros r w' E Hup. exact (wp_elim _ _ _ _ _ (report_fixed update 5 _ Hup w2) E). }
  intros [[]|e] w3 [Ho3 Hf3]; [|done].
  apply wp_bind. eapply wp_mono; [apply wp_and; [apply calm_or_zero, calm_db_read|apply zero_setting_effect]|].
  intros r w4 (Ho4 & Hf4 & setting & -> & Hsetting).
  apply wp_bind. eapply wp_mono; [apply wp_and; [apply calm_root|apply root_effect]|]. intros [sr|e] w5 (Ho5 & Hf5 & Hroot); [|done].
  specialize (Hroot _ eq_refl). destruct (_ || _) eqn:Hin; [by apply wp_lift|]. apply orb_false_iff in Hin as [Hin%negb_false_iff _].
  assert (quiet_reports update → strm_root_read (w_db w) (w_db w5) sb sr) as Hstrm.
  { intros Hup. specialize (Hf3 Hup). assert (fixed (w_db w) (w_db w3)) as Hf03 by (etrans; [exact Hf|exact Hf3]). exists setting. split_and!; [|apply (fixed_during _ (w_db w4)); [etrans; [exact Hf03|exact Hf4]|exact Hroot]|exact Hin].
    eapply read_same; [exact (proj2 Hf03)|exact Hsetting]. }
  apply wp_bind. eapply wp_mono; [apply calm_count|]. intros [estimated|e] w6 Ho6; [|done].
  assert (orderly calm_ok (w_db w) (w_db w6)) as Ho by (by do 5 (etrans; [done|])).
  assert (orderly calm_ok (w_db w1) (w_db w6)) as Ho16 by (by do 4 (etrans; [done|])).
  apply orderly_grows in Ho16. apply orderly_grows in Ho6. apply (rooted_later _ _ _ _ _ _ _ _ Hroots) in Ho16 as Hroots6.
  assert (quiet_reports update → strm_root_read (w_db w) (w_db w6) sb sr) as Hstrm6.
  { intros Hup. destruct (Hstrm Hup) as (v & Hv & Hd & Hi). exists v. split_and!; [done|by eapply during_l|done]. }
  clear Hf Hf1 Hf2 Hf3 Hf4 Hf5 Ho1 Ho2 Ho3 Ho4 Ho5 Ho6 Hroot Hsetting Hstrm Hroots Ho16 Hin w1 w2 w3 w4 w5.
  apply wp_bind, wp_walk. intros [entries failure] w1 Ho1 Hd.
  apply wp_bind. eapply wp_mono; [apply wp_and; [apply (keeps_fold (orderly calm_ok)); intros; apply calm_scan|apply wp_and]|].
  { apply (scan_fold_ok (db_reporter update) estimated excluded mediaBase sr px library entries ([], [])). split; [apply plan_empty|done]. }
  { by apply (scan_fold_counted (db_reporter update) estimated excluded mediaBase sr px library entries ([], [])). }
  intros [plan|e] w2 (Ho2 & Hp & Hc); [|done]. apply wp_bind, wp_walk_failed; [done|]. intros ->.
  apply wp_bind. eapply wp_mono; [apply calm_report|]. intros [[]|e] w3 Ho3; [|done].
  apply wp_ret. intros ? ? ? ? ? [= <- <- <- <- <-]. exists mediaBase, (media_of excluded mediaBase entries).
  assert (grows (λ _, True) (w_db w6) (w_db w3)) as Hg by (eapply orderly_grows; by do 2 (etrans; [done|])).
  destruct (Hc plan eq_refl) as [Hc1 Hc2]. split; [|done|done|by eapply rooted_later|].
  - split; [by apply Hp|]. exists excluded, entries. split; [done|]. split; [|done]. eapply during_orderly; [exact Ho|].
    eapply orderly_during; [|exact Ho3]. eapply orderly_during; [exact Hd|exact Ho2].
  - intros Hup. destruct (Hstrm6 Hup) as (v & Hv & Hdv & Hi). exists v. split_and!; [done|by eapply during_l|done].
Qed.

(** *** Verification *)

Definition strm_entries (root : string) (entries : list walk_entry) : list walk_entry :=
  base.filter (λ e, negb (entry_is_dir e) && is_strm root e = true) entries.

Lemma verify_entries strmBase entries jobs w :
  wp (m_fold (verify_entry strmBase) entries jobs) w (λ r _, ∀ jobs', r = Ok jobs' →
    length jobs' = length jobs + length (strm_entries strmBase entries)).
Proof.
  unfold strm_entries. revert jobs w. induction entries as [|e entries IH]; intros jobs w; cbn [m_fold].
  { apply wp_ret. intros ? [= ->]. rewrite filter_nil. simpl. lia. }
  unfold verify_entry at 1. apply wp_bind, wp_bind, wp_ctx_live; intros n; [done|]. apply wp_ret.
  eapply wp_mono; [apply IH|]. intros r w' Hr jobs' ->. rewrite (Hr jobs' eq_refl), filter_cons.
  destruct (entry_is_dir e); cbn [orb negb andb]; [by rewrite decide_False|].
  destruct (is_strm strmBase e); cbn [negb]; [rewrite decide_True by done|by rewrite decide_False].
  rewrite length_app. simpl. lia.
Qed.

Lemma add_to_group_count j groups : sum_z ((λ g, Z.of_nat (length g.2)) <$> add_to_group j groups) =
  (sum_z ((λ g, Z.of_nat (length g.2)) <$> groups) + 1)%Z.
Proof.
  induction groups as [|g groups IH]; [done|]. cbn [add_to_group]. case_bool_decide; rewrite !fmap_cons, !sum_z_cons; cbn [snd].
  - rewrite length_app. simpl length. lia.
  - rewrite IH. lia.
Qed.

Lemma groups_count jobs :
  sum_z ((λ g, Z.of_nat (length g)) <$> (snd <$> foldl (λ groups j, add_to_group j groups) [] jobs)) = Z.of_nat (length jobs).
Proof.
  rewrite <-list_fmap_compose. change ((λ g, Z.of_nat (length g)) ∘ snd) with (λ g : string * list strmVerifyJob, Z.of_nat (length g.2)).
  induction jobs as [|j jobs IH] using rev_ind; [done|]. rewrite foldl_app. simpl. rewrite add_to_group_count, IH, length_app. simpl. lia.
Qed.

Lemma verify_counted library update w :
  (∀ q m, keeps (orderly calm_ok) (report update q m)) →
  wp (VerifySTRMWithProgress library update) w (λ r w', ∀ v, r = Ok v → ∃ strmBase entries,
    during (w_db w) (w_db w') (AWalk strmBase (entries, None)) ∧
    (rs_Valid v + rs_Missing v + rs_Invalid v)%Z = Z.of_nat (length (strm_entries strmBase entries))).
Proof.
  intros Hup. unfold VerifySTRMWithProgress.
  apply wp_bind. eapply wp_mono; [apply calm_paths|]. intros [[[[mr ?] sb] px]|e] w1 Ho1; [|done].
  apply wp_bind. eapply wp_mono; [apply Hup|]. intros [[]|e] w2 Ho2; [|done].
  apply wp_bind, wp_walk. intros [entries failure] w3 _ Hd.
  apply wp_bind. eapply wp_mono; [apply wp_and; [apply (keeps_fold (orderly calm_ok)); intros; apply calm_verify_entry|apply verify_entries]|].
  intros [jobs|e] w4 [Ho4 Hj]; [|done]. apply wp_bind, wp_walk_failed; [done|]. intros ->.
  apply wp_bind. eapply wp_mono; [apply Hup|]. intros [[]|e] w5 Ho5; [|done]. cbv zeta. apply wp_bind.
  eapply wp_mono; [apply wp_and; [apply calm_process; intros; apply calm_fold_errors; intros; by apply calm_verify_job|]|].
  { apply (process_total _ _ judged (λ g, Z.of_nat (length g))). intros st g w' _. apply group_total. }
  intros [[st [e|]]|e] w6 [Ho6 Hst]; [by apply wp_lift| |done].
  apply wp_bind. eapply wp_mono; [apply Hup|]. intros [[]|e] w7 Ho7; [|done]. apply wp_ret. intros v [= <-].
  exists sb, entries. split.
  - eapply during_orderly; [etrans; [exact Ho1|exact Ho2]|]. by repeat (eapply orderly_during; [|done]).
  - cbn [rs_Valid rs_Missing rs_Invalid]. specialize (Hst st eq_refl). unfold judged in Hst. rewrite Hst, groups_count.
    rewrite (Hj jobs eq_refl). simpl. lia.
Qed.

(** *** Synchronisation *)

Lemma apply_plan_counted update library mr sr sb px plan w :
  counted plan →
  wp (apply_plan (db_reporter update) library mr sr sb px plan) w (λ r w', ∀ v, r = Ok v →
    rs_MediaFiles v = sc_media plan ∧ (rs_Created v + rs_Updated v + rs_Unchanged v)%Z = sc_media plan ∧
    ∃ base_ entries, during (w_db w) (w_db w') (AWalk base_ (entries, None)) ∧
      (rs_Valid v + rs_Missing v + rs_Invalid v)%Z = Z.of_nat (length (strm_entries base_ entries))).
Proof.
  intros Hplan. unfold apply_plan. cbv zeta. set (J := sync_ok mr sr px plan).
  assert (∀ q m, keeps (orderly J) (report (db_reporter update) q m)) as Hup by (intros; apply report_orderly).
  assert (∀ b, keeps (orderly J) (pruneStaleSTRM mr b px (sc_expected plan) (sc_relocations plan))) as Hprune
    by (intros b; eapply keeps_weaken; [apply prune_sync|apply prune_orderly]).
  apply wp_bind. eapply wp_mono; [apply wp_and|].
  { eapply (keeps_weaken _ (orderly J)); [apply write_sync|]. apply process_orderly. intros. by apply sync_job_ok. }
  { apply (process_total _ _ written (λ j, Z.of_nat (length (sj_contents j)))). intros. apply job_total. }
  intros [[c [e|]]|e] w1 [Ho1 Hc]; [by apply wp_lift| |done]. specialize (Hc c eq_refl).
  apply wp_bind. eapply wp_mono; [apply Hup|]. intros [[]|e] w2 Ho2; [|done].
  apply wp_bind. eapply wp_mono; [apply Hprune|]. intros [[[removed rd] status]|e] w3 Ho3; [|done].
  apply wp_bind. eapply (wp_mono _ _ (λ _ w', orderly J (w_db w3) (w_db w'))).
  { destruct (negb _); [|by apply wp_ret]. apply wp_bind. eapply wp_mono; [apply Hprune|]. intros [[[? ?] ?]|e] w' Ho'; [by apply wp_ret|done]. }
  intros [[[removed' rd'] status']|e] w4 Ho4; [|done].
  apply wp_bind. eapply wp_mono; [apply Hup|]. intros [[]|e] w5 Ho5; [|done].
  apply wp_bind. eapply wp_mono; [apply verify_counted; intros; apply calm_report|]. intros [v|e] w6 Hv; [|done].
  apply wp_bind. eapply wp_mono; [apply Hup|]. intros [[]|e] w7 Ho7; [|done]. apply wp_ret. intros res [= <-].
  destruct (Hv v eq_refl) as (base_ & entries & Hd & Hsum). split; [done|]. split.
  - cbn [rs_Created rs_Updated rs_Unchanged]. unfold counted, contents_count in Hplan. unfold written in Hc. simpl in Hc. lia.
  - exists base_, entries. split; [|done]. eapply orderly_during; [|exact Ho7].
    eapply during_orderly; [|exact Hd]. by repeat (etrans; [done|]).
Qed.

(** C16: Whatever the file systems answer, synchronising a library changes nothing, but for
    making directories, when it fails before it has a plan; otherwise it follows the plan of
    the media files it walked, in which every media file has its own canonical STRM path.
    The walk is of the library below the configured media root, the paths are below the
    configured STRM root, with the configured prefix, each as the operating system resolved
    it.  It renames into place only files it just wrote in full, with the target the plan has
    for that path, over nothing or over another target of a path that moves no file; it
    removes only its own temporary files, directories just listed as empty, and files that
    are not in the plan and whose target is gone below the media root or which have moved;
    and it changes nothing else, but for making directories, and asks nothing of a drive or
    of Emby.  When it succeeds, every media file walked was created, updated or unchanged. *)
Theorem sync_follows_plan task library w :
  wp (SyncSTRMWithProgress library (db_reporter (progress_of task))) w (λ r w',
    (∃ e, r = Err e) ∧ orderly calm_ok (w_db w) (w_db w') ∨
    ∃ mediaRoot mediaBase strmRoot strmBase prefix files plan,
      rooted library (w_db w) (w_db w') mediaRoot mediaBase strmBase prefix ∧ strm_root_read (w_db w) (w_db w') strmBase strmRoot ∧
      planned_from library (w_db w) (w_db w') mediaBase strmRoot prefix files plan ∧
      orderly (sync_ok mediaRoot strmRoot prefix plan) (w_db w) (w_db w') ∧
      ∀ v, r = Ok v → rs_MediaFiles v = Z.of_nat (length files) ∧ (rs_Created v + rs_Updated v + rs_Unchanged v)%Z = rs_MediaFiles v).
Proof.
  unfold SyncSTRMWithProgress. apply wp_bind, wp_plan_library; [intros e w1 Ho; left; by split; [exists e|]|].
  intros mr sr sb px mediaBase files plan w1 Ho [[Hp (excluded & entries & Hex & Hd & Hfiles)] Hc Hm Hroots Hstrm].
  destruct (Hstrm (progress_quiet task)) as (setting & Hs1 & Hs2 & Hs3).
  eapply wp_mono; [apply wp_and; [apply apply_plan_ok|by apply apply_plan_counted]|]. intros r w2 [Ho2 Hr]. right.
  exists mr, mediaBase, sr, sb, px, files, plan. apply orderly_grows in Ho2 as Hg. split_and!.
  - by eapply rooted_later.
  - exists setting. split_and!; [done|by eapply during_l|done].
  - split; [done|]. exists excluded, entries. split_and!; [done|by eapply during_l|done].
  - etrans; [by apply calm_sync|exact Ho2].
  - intros v Hv. destruct (Hr v Hv) as (E & Hsum & _). by rewrite E.
Qed.

(** A synchronisation that succeeds has dealt with every file: the media files of the
    walk of the library are counted, each of them is created, updated or unchanged in the
    STRM tree, and every STRM file the final walk met is valid, missing or invalid. *)
Theorem sync_counts update library w :
  wp (SyncSTRMWithProgress library (db_reporter update)) w (λ r w', ∀ v, r = Ok v →
    media_walked (w_db w) (w_db w') (rs_MediaFiles v) ∧
    (rs_Created v + rs_Updated v + rs_Unchanged v)%Z = rs_MediaFiles v ∧
    ∃ base_ entries, during (w_db w) (w_db w') (AWalk base_ (entries, None)) ∧
      (rs_Valid v + rs_Missing v + rs_Invalid v)%Z = Z.of_nat (length (strm_entries base_ entries))).
Proof.
  unfold SyncSTRMWithProgress. apply wp_bind, wp_plan_library; [done|].
  intros mr sr sb px mediaBase files plan w1 Ho [[_ (excluded & entries & _ & Hd & ->)] Hc Hm _ _].
  eapply wp_mono; [apply wp_and; [apply apply_plan_ok|by apply apply_plan_counted]|].
  intros r w2 [Ho2 Hr] v ->. destruct (Hr v eq_refl) as (Hmedia & Hsum & base_ & entries' & Hd' & Hcount).
  rewrite Hmedia. split; [|split; [done|]].
  - exists mediaBase, excluded, entries. split; [|done]. eapply orderly_during; [exact Hd|exact Ho2].
  - exists base_, entries'. split; [|done]. eapply during_orderly; [exact Ho|exact Hd'].
Qed.
End Result.
