(* ===== verification/Replacement.v ===== *)
(** Replacing a series by a complete release ([src/internal/service/replacement.go],
    [replacement_mount.go] and [replacement_state.go]): staging the release next to the
    series, moving the old folder to a quarantine and the new one in its place, and undoing
    all of it when anything fails; and the play state of the users, which survives.

    The record of the operation ([completedPackReplacement]) is changed in place, also by a
    step that fails, so the steps run over [Pack]: the state of a run and the record.
    Nothing bounds what a drive lists, so [rounds] bounds the pages of a listing.  [Uuids]
    is the supply of [uuid.NewString], [Snapshots] is [json.MarshalIndent] of the record. *)
From S2P Require Import Prelude GoStrings GoPath Regexp Sql Schema Accounts Payload FileSys Remote Episodes Drive Destination.
From S2P Require Import Identity Service Local Autofill Pipeline Media.
From Stdlib Require Import Ascii.

Class Uuids := { uuid_at : nat → string }.

(** A user's play state of an item, under the key of the item. *)
Record replacementUserState := mkUserState { us_UserID : string; us_Key : string; us_Data : replacementUserData }.

Record completedPackReplacement := mkPack {
  cp_LibraryID : string; cp_LibraryName : string; cp_LibraryCID : string; cp_AccountID : string;
  cp_OldSeriesID : string; cp_OldFolder : string; cp_OldCID : string; cp_OldPath : string;
  cp_NewFolder : string; cp_NewCID : string; cp_TMDBID : string; cp_Expected : gset episodeKey;
  cp_MediaFiles : gmap string Z; cp_MediaBase : string; cp_STRMBase : string;
  cp_NewSTRMInfo : option file_info; cp_CanonicalSTRMInfo : option file_info;
  cp_BackupDir : string; cp_QuarantineCID : string;
  cp_States : list replacementUserState; cp_DestinationStates : list replacementUserState;
  cp_CutoverStarted : bool; cp_Finalized : bool; cp_RolledBack : bool; cp_RollbackScanned : bool
}.

Class Snapshots := { encode_replacement : completedPackReplacement → string }.

(** The fields that change. *)
Section Setters.
Implicit Types p : completedPackReplacement.
Definition set_NewCID v p := mkPack (cp_LibraryID p) (cp_LibraryName p) (cp_LibraryCID p) (cp_AccountID p) (cp_OldSeriesID p)
  (cp_OldFolder p) (cp_OldCID p) (cp_OldPath p) (cp_NewFolder p) v (cp_TMDBID p) (cp_Expected p) (cp_MediaFiles p)
  (cp_MediaBase p) (cp_STRMBase p) (cp_NewSTRMInfo p) (cp_CanonicalSTRMInfo p) (cp_BackupDir p) (cp_QuarantineCID p)
  (cp_States p) (cp_DestinationStates p) (cp_CutoverStarted p) (cp_Finalized p) (cp_RolledBack p) (cp_RollbackScanned p).
Definition set_Expected v p := mkPack (cp_LibraryID p) (cp_LibraryName p) (cp_LibraryCID p) (cp_AccountID p) (cp_OldSeriesID p)
  (cp_OldFolder p) (cp_OldCID p) (cp_OldPath p) (cp_NewFolder p) (cp_NewCID p) (cp_TMDBID p) v (cp_MediaFiles p)
  (cp_MediaBase p) (cp_STRMBase p) (cp_NewSTRMInfo p) (cp_CanonicalSTRMInfo p) (cp_BackupDir p) (cp_QuarantineCID p)
  (cp_States p) (cp_DestinationStates p) (cp_CutoverStarted p) (cp_Finalized p) (cp_RolledBack p) (cp_RollbackScanned p).
Definition set_MediaFiles v p := mkPack (cp_LibraryID p) (cp_LibraryName p) (cp_LibraryCID p) (cp_AccountID p) (cp_OldSeriesID p)
  (cp_OldFolder p) (cp_OldCID p) (cp_OldPath p) (cp_NewFolder p) (cp_NewCID p) (cp_TMDBID p) (cp_Expected p) v
  (cp_MediaBase p) (cp_STRMBase p) (cp_NewSTRMInfo p) (cp_CanonicalSTRMInfo p) (cp_BackupDir p) (cp_QuarantineCID p)
  (cp_States p) (cp_DestinationStates p) (cp_CutoverStarted p) (cp_Finalized p) (cp_RolledBack p) (cp_RollbackScanned p).
Definition set_CanonicalSTRMInfo v p := mkPack (cp_LibraryID p) (cp_LibraryName p) (cp_LibraryCID p) (cp_AccountID p) (cp_OldSeriesID p)
  (cp_OldFolder p) (cp_OldCID p) (cp_OldPath p) (cp_NewFolder p) (cp_NewCID p) (cp_TMDBID p) (cp_Expected p) (cp_MediaFiles p)
  (cp_MediaBase p) (cp_STRMBase p) (cp_NewSTRMInfo p) v (cp_BackupDir p) (cp_QuarantineCID p)
  (cp_States p) (cp_DestinationStates p) (cp_CutoverStarted p) (cp_Finalized p) (cp_RolledBack p) (cp_RollbackScanned p).
Definition set_backup dir cid p := mkPack (cp_LibraryID p) (cp_LibraryName p) (cp_LibraryCID p) (cp_AccountID p) (cp_OldSeriesID p)
  (cp_OldFolder p) (cp_OldCID p) (cp_OldPath p) (cp_NewFolder p) (cp_NewCID p) (cp_TMDBID p) (cp_Expected p) (cp_MediaFiles p)
  (cp_MediaBase p) (cp_STRMBase p) (cp_NewSTRMInfo p) (cp_CanonicalSTRMInfo p) dir cid
  (cp_States p) (cp_DestinationStates p) (cp_CutoverStarted p) (cp_Finalized p) (cp_RolledBack p) (cp_RollbackScanned p).
Definition set_states states destination p := mkPack (cp_LibraryID p) (cp_LibraryName p) (cp_LibraryCID p) (cp_AccountID p) (cp_OldSeriesID p)
  (cp_OldFolder p) (cp_OldCID p) (cp_OldPath p) (cp_NewFolder p) (cp_NewCID p) (cp_TMDBID p) (cp_Expected p) (cp_MediaFiles p)
  (cp_MediaBase p) (cp_STRMBase p) (cp_NewSTRMInfo p) (cp_CanonicalSTRMInfo p) (cp_BackupDir p) (cp_QuarantineCID p)
  states destination (cp_CutoverStarted p) (cp_Finalized p) (cp_RolledBack p) (cp_RollbackScanned p).
Definition set_flags cutover finalized rolledBack scanned p := mkPack (cp_LibraryID p) (cp_LibraryName p) (cp_LibraryCID p) (cp_AccountID p)
  (cp_OldSeriesID p) (cp_OldFolder p) (cp_OldCID p) (cp_OldPath p) (cp_NewFolder p) (cp_NewCID p) (cp_TMDBID p) (cp_Expected p)
  (cp_MediaFiles p) (cp_MediaBase p) (cp_STRMBase p) (cp_NewSTRMInfo p) (cp_CanonicalSTRMInfo p) (cp_BackupDir p) (cp_QuarantineCID p)
  (cp_States p) (cp_DestinationStates p) cutover finalized rolledBack scanned.
End Setters.

(** ** The state of a replacement *)

Record Pack := mkPackState { pk_pipe : Pipe; pk_record : completedPackReplacement }.

Section Pack.
Context `{Env}.

Definition on_pipe {A} (m : M Pipe A) : M Pack A := λ w,
  let '(r, w1) := m (mkWorld (w_tick w) (pk_pipe (w_db w))) in
  (r, mkWorld (w_tick w1) (mkPackState (w_db w1) (pk_record (w_db w)))).
Definition gets {A} (f : completedPackReplacement → A) : M Pack A := λ w, (Ok (f (pk_record (w_db w))), w).
Definition modify (f : completedPackReplacement → completedPackReplacement) : M Pack unit := λ w,
  (Ok tt, mkWorld (w_tick w) (mkPackState (pk_pipe (w_db w)) (f (pk_record (w_db w))))).
Definition record : M Pack completedPackReplacement := gets id.

(** Storing what a call returns, [z] when it fails, as an assignment of a result does. *)
Definition assign {A} (m : M Pipe A) (z : A) (f : A → completedPackReplacement → completedPackReplacement) : M Pack A :=
  r ← on_pipe (attempt m);
  _ ← modify (f (match r with Ok a => a | Err _ => z end));
  lift r.

(** A run over a record of its own. *)
Definition with_record {A} (p : completedPackReplacement) (m : M Pack A) : M Pipe (completedPackReplacement * res A) := λ w,
  let '(r, w1) := m (mkWorld (w_tick w) (mkPackState (w_db w) p)) in
  (Ok (pk_record (w_db w1), r), mkWorld (w_tick w1) (pk_pipe (w_db w1))).
End Pack.

(** ** Episodes and folders *)

Definition episodeSet (episodes : list EmbyMissingEpisode) : gset episodeKey := list_to_set (missing_key <$> episodes).

Definition covered_by (expected : gset episodeKey) (names : list string) : gset episodeKey :=
  list_to_set (name ← names; base.filter (λ k, k ∈ expected) (episodeKeysFromName name)).
Definition coversEpisodes (leaves : list autoFillLeaf) (expected : gset episodeKey) : bool :=
  bool_decide (size (covered_by expected (lf_Name <$> leaves)) = size expected).
Definition coversEpisodesFromSet (actual expected : gset episodeKey) : bool :=
  forallb (λ k, bool_decide (k ∈ actual)) (elements expected).

Abbreviation folder_map := (gmap string DriveFile).

Definition replacementFolderIs (files : folder_map) (cid name : string) : bool :=
  match files !! cid with
  | Some file =>
      df_IsFolder file && bool_decide (df_Name file = name)
      && forallb (λ kv, bool_decide (kv.1 = cid) || negb (bool_decide (df_Name kv.2 = name))) (map_to_list files)
  | None => false
  end.

Definition add_folder (parentCID : string) (files : folder_map) (f : DriveFile) : res folder_map :=
  if bool_decide (df_FileID f = "") then Err (ErrText "115 replacement inventory has an empty object ID")
  else if bool_decide (is_Some (files !! df_FileID f)) || negb (bool_decide (df_ParentID f = parentCID)) then
    Err (ErrText "115 replacement inventory has duplicate or foreign-parent objects")
  else Ok (<[df_FileID f := f]> files).

(** The play state of an item of the old series, the key of the items. *)
Definition item_key (seriesID seriesPath : string) (i : replacementItem) : res (string * option episodeKey) :=
  let bad := Err (ErrText ("replacement item " +:+ ri_ID i +:+ " is not bound to its exact Series path")) in
  match ri_IndexNumber i with
  | None => bad
  | Some index =>
      if bool_decide (ri_ID i = "")
         || (negb (bool_decide (ri_Path i = "")) && (negb (inside seriesPath (ri_Path i)) || bool_decide (clean (ri_Path i) = clean seriesPath)))
         || (negb (bool_decide (ri_SeriesID i = "")) && negb (bool_decide (ri_SeriesID i = seriesID)))
         || Z.ltb index 0 then bad
      else if bool_decide (ri_Type i = "Season") then Ok ("Season:" +:+ pretty index, None)
      else if bool_decide (ri_Type i = "Episode") then
        match ri_ParentIndexNumber i with
        | None => Err (ErrText ("episode " +:+ ri_ID i +:+ " has no one-to-one season/episode identity"))
        | Some season =>
            if Z.ltb season 0 || Z.leb index 0 || negb (Z.eqb (default index (ri_IndexNumberEnd i)) index) then
              Err (ErrText ("episode " +:+ ri_ID i +:+ " has no one-to-one season/episode identity"))
            else
              let key := mkKey season index in
              Ok ("Episode:" +:+ key_String key,
                  if negb (ri_IsMissing i) && negb (bool_decide (ri_Path i = "")) then Some key else None)
        end
      else Err (ErrText ("unexpected replacement item type " +:+ ri_Type i))
  end.

Abbreviation inventory := (gmap string string * gset episodeKey)%type.

Definition add_item (seriesID seriesPath : string) (inv : inventory) (i : replacementItem) : res inventory :=
  '(key, episode) ← item_key seriesID seriesPath i;
  if bool_decide (is_Some (inv.1 !! key)) then Err (ErrText ("ambiguous replacement identity " +:+ key))
  else Ok (<[key := ri_ID i]> inv.1, match episode with Some k => {[k]} ∪ inv.2 | None => inv.2 end).

(** The pages of an inventory; [e] is the answer when they are used up. *)
Fixpoint item_pages (seriesID seriesPath : string) (pages : list item_page) (e : error) (offset : Z) (inv : inventory) : res inventory :=
  match pages with
  | [] => Err e
  | page :: pages =>
      let n := Z.of_nat (length (ip_Items page)) in
      let incomplete := Err (ErrText ("incomplete replacement item inventory for Series " +:+ seriesID)) in
      match ip_Total page with
      | None => incomplete
      | Some total =>
          if Z.ltb total (offset + n) || (Z.ltb offset total && Z.eqb n 0) then incomplete else
          inv ← res_fold (add_item seriesID seriesPath) (ip_Items page) inv;
          if Z.eqb (offset + n) total then Ok inv else item_pages seriesID seriesPath pages e (offset + n) inv
      end
  end.

(** ** Requests *)

Section Replacement.
Context `{Env} `{Ctx} `{Sleep} `{Remote} `{Providers} `{Local} `{Urls} `{Sha256} `{Names} `{Ranging} `{Workers} `{Unicode}.
Context `{Uuids} `{Snapshots} (rounds : nat).
Abbreviation Pi := (M Pipe).
Abbreviation Re := (M Pack).

Definition newUUID : Pi string := λ w, (Ok (uuid_at (w_tick w)), tick w (w_db w)).

(** *** The mounted release *)

(** The fold of a walk whose callback refuses symbolic links and visits video files. *)
Definition walk_videos {A} (what root : string) (f : A → walk_entry → res A) (a : A) (entries : list walk_entry) : res A :=
  res_fold (λ a e,
    if is_symlink (we_type e) then Err (ErrText (what +:+ " path " +:+ entry_path root e +:+ " is a symbolic link"))
    else if entry_is_dir e then Ok a
    else if negb (is_video (entry_name root e)) then Ok a
    else f a e) entries a.

Definition walked {A} (r : res A) (failure : option (string * error)) : res A :=
  match r with Err e => Err e | Ok a => match failure with Some (_, e) => Err e | None => Ok a end end.

Definition coverage_round (root : string) (expected : gset episodeKey) : Pi (unit + error) :=
  _ ← ctx_live;
  '(entries, failure) ← walk_dir root;
  let covered := walked (walk_videos "completed-pack" root (λ names e, Ok (names ++ [entry_name root e])) [] entries) failure in
  let late := inr (ErrText "completed pack did not become fully visible through CloudDrive within 2m0s") in
  match covered with
  | Ok names => mret (if bool_decide (size (covered_by expected names) = size expected) then inl tt else late)
  | Err e => if is_not_exist e then mret late else throw e
  end.

Definition waitForAutoFillCoverage (root : string) (expected : gset episodeKey) : Pi unit := poll_mount (coverage_round root expected).

Definition replacementMediaFiles (root : string) : Pi (gmap string Z) :=
  '(entries, failure) ← walk_dir root;
  lift (walked (walk_videos "replacement media" root (λ files e, size ← we_size e; Ok (<[we_path e := size]> files)) ∅ entries) failure).

Definition same_files (actual expected : gmap string Z) : bool :=
  bool_decide (size actual = size expected) && forallb (λ kv, bool_decide (actual !! kv.1 = Some kv.2)) (map_to_list expected).

Definition mount_round (root : string) (expected : gmap string Z) : Pi (unit + error) :=
  _ ← ctx_live;
  actual ← attempt (replacementMediaFiles root);
  let late := inr (ErrText "canonical completed-pack files did not become visible within 2m0s") in
  match actual with
  | Ok actual => mret (if same_files actual expected then inl tt else late)
  | Err e => if is_not_exist e then mret late else throw e
  end.

Definition waitForReplacementMount (root : string) (expected : gmap string Z) : Pi unit :=
  if bool_decide (size expected = 0) then throw (ErrText "completed-pack mounted file inventory is empty")
  else poll_mount (mount_round root expected).

(** *** Folders of the drive *)

Fixpoint folder_rounds (accountID parentCID : string) (rounds : nat) (offset : Z) (files : folder_map) : Pi (option folder_map) :=
  match rounds with
  | O => mret None
  | S rounds =>
      '(page, total) ← listFiles accountID parentCID offset 1000;
      let n := Z.of_nat (length page) in
      if Z.ltb total (offset + n) || (Z.ltb offset total && Z.eqb n 0) then
        throw (ErrText "incomplete 115 replacement directory inventory")
      else
      files ← lift (res_fold (add_folder parentCID) page files);
      if Z.eqb (offset + n) total then mret (Some files)
      else folder_rounds accountID parentCID rounds (offset + n) files
  end.

Definition replacementFolders (accountID parentCID : string) : Pi folder_map :=
  finished_wait (folder_rounds accountID parentCID rounds 0 ∅).

Definition createReplacementFolder (accountID parentCID name : string) : Pi string :=
  before ← replacementFolders accountID parentCID;
  if existsb (λ kv, bool_decide (df_Name kv.2 = name)) (map_to_list before) then
    throw (ErrText ("replacement destination " +:+ name +:+ " already exists"))
  else
  cid ← makeDir accountID parentCID name;
  if bool_decide (is_Some (before !! cid)) then
    throw (ErrText "115 mkdir returned a preexisting object; refusing ownership")
  else
  after ← wrap ("new 115 replacement CID " +:+ cid +:+ " requires ownership verification: ") (replacementFolders accountID parentCID);
  if negb (replacementFolderIs after cid name) then
    throw (ErrText ("new 115 replacement CID " +:+ cid +:+ " is not bound to destination " +:+ name))
  else mret cid.

(** *** Emby *)

Definition ListSeriesCtx (libraryID : string) : Pi (list EmbyMediaItem) := call (λ h, sv_series h libraryID) (ASeries libraryID).
Definition RunLibraryScanCtx : Pi unit := call rm_scan AScan.
Definition ListAiredMissingEpisodesCtx (libraryID : string) : Pi (list EmbyMissingEpisode) :=
  t ← now; call (λ h, rm_missing h libraryID t) (AMissing libraryID t).

Definition EnsureNoActivePlayback : Pi unit :=
  sessions ← wrap "check active Emby playback: " (call sv_sessions ASessions);
  if bool_decide (length sessions = 0) then mret tt
  else throw (ErrText ("active Emby playback prevents remount: " +:+ join "; " sessions)).

Definition replacementItems (seriesID seriesPath : string) : Pi inventory :=
  '(pages, e) ← observe (λ h, sv_inventory h seriesID) (AInventory seriesID);
  lift (item_pages seriesID seriesPath pages e 0 ({["Series" := seriesID]}, ∅)).

Definition get_user_data (userID itemID : string) : Pi replacementUserData :=
  '(id, data) ← call (λ h, sv_user_data h userID itemID) (AUserData userID itemID);
  match data with
  | Some data => if bool_decide (id = itemID) then mret data
                 else throw (ErrText ("user " +:+ userID +:+ " has no readable state for item " +:+ itemID))
  | None => throw (ErrText ("user " +:+ userID +:+ " has no readable state for item " +:+ itemID))
  end.

Definition snapshotReplacementState (items : gmap string string) : Pi (list replacementUserState) :=
  users ← call sv_users AUsers;
  if bool_decide (length users = 0) then throw (ErrText "Emby returned no users for replacement state preservation") else
  m_fold (λ states user,
    if bool_decide (trim_space user = "") then throw (ErrText "Emby returned a user without an ID") else
    m_fold (λ states kv, data ← get_user_data user kv.2; mret (states ++ [mkUserState user kv.1 data]))
      (range_over (map_to_list items)) states) users [].

#[global] Instance user_data_eq_dec : EqDecision replacementUserData.
Proof. unfold EqDecision. intros. unfold Decision. decide equality; try apply (decide (_ = _)). all: repeat decide equality. Defined.

Definition item_of (items : gmap string string) (key : string) : string := default "" (items !! key).

Definition write_states (states : list replacementUserState) (items : gmap string string) (kind : string) : Pi unit :=
  m_each (λ st,
    if negb (has_prefix (us_Key st) kind) then mret tt
    else call (λ h, sv_set_user_data h (us_UserID st) (item_of items (us_Key st)) (us_Data st))
           (ASetUserData (us_UserID st) (item_of items (us_Key st)) (us_Data st))) states.

Definition check_state (items : gmap string string) (st : replacementUserState) : Pi unit :=
  actual ← get_user_data (us_UserID st) (item_of items (us_Key st));
  if bool_decide (actual = us_Data st) then mret tt
  else throw (ErrText ("user state verification failed for user " +:+ us_UserID st +:+ ", " +:+ us_Key st)).

Definition restoreReplacementState (states : list replacementUserState) (items : gmap string string) : Pi unit :=
  _ ← m_each (λ st, if bool_decide (item_of items (us_Key st) = "") then
                      throw (ErrText ("replacement has no destination for user state " +:+ us_Key st))
                    else mret tt) states;
  _ ← m_each (write_states states items) ["Series"; "Season:"; "Episode:"];
  m_each (check_state items) states.

(** *** The STRM tree *)

Definition same_file (a b : file_info) : bool := Z.eqb (fi_ino a) (fi_ino b).

Definition removeOwnedReplacementRoot (path : string) (owned : option file_info) : Pi unit :=
  match owned with
  | None => mret tt
  | Some owned =>
      current ← attempt (os_info (LLstat path));
      match current with
      | Err e => if is_not_exist e then mret tt else throw e
      | Ok current =>
          if negb (is_dir current) || is_symlink (fi_type current) || negb (same_file owned current) then
            throw (ErrText ("replacement STRM root " +:+ path +:+ " no longer belongs to this operation"))
          else os_do (LRemoveAll path)
      end
  end.

(** [errors.Join] of the results of calls that are all made. *)
Definition all_of (l : list (Pi unit)) : Pi unit :=
  errors ← m_fold (λ errors m, r ← attempt m; mret (errors ++ match r with Err e => [e] | Ok _ => [] end)) l [];
  match joined errors with Some e => throw e | None => mret tt end.

Definition persistReplacementSnapshot (p : completedPackReplacement) : Pi unit :=
  let encoded := encode_replacement p in
  file ← os_text (LCreateTemp (cp_BackupDir p) ".state-");
  r ← attempt (
    _ ← all_of [os_do (LWrite file encoded); os_do (LSync file); os_do (LClose file)];
    _ ← os_do (LRename file (join_path [cp_BackupDir p; "state.json"]));
    _ ← os_do (LOpen (cp_BackupDir p));
    all_of [os_do (LSync (cp_BackupDir p)); os_do (LClose (cp_BackupDir p))]);
  _ ← try_ (os_do (LRemove file));
  lift r.

(** *** Checks on the series *)

Definition tmdb_of (s : EmbyMediaItem) : string := trim_space (default "" (mi_ProviderIDs s !! "Tmdb")).

(** What the loop over the series of the library finds: whether the old series is still
    bound, how many have the identity, and the one at the expected path. *)
Record series_check := mkCheck { sk_oldBound : bool; sk_matches : nat; sk_found : option EmbyMediaItem }.
Definition check_one (p : completedPackReplacement) (expectedPath : string) (c : series_check) (s : EmbyMediaItem) : series_check :=
  let oldBound := if bool_decide (mi_ID s = cp_OldSeriesID p)
                  then bool_decide (mi_Type s = "Series") && bool_decide (mi_Path s = cp_OldPath p) && bool_decide (tmdb_of s = cp_TMDBID p)
                  else sk_oldBound c in
  if negb (bool_decide (tmdb_of s = cp_TMDBID p)) then mkCheck oldBound (sk_matches c) (sk_found c)
  else mkCheck oldBound (S (sk_matches c))
         (if bool_decide (mi_Type s = "Series") && bool_decide (mi_Path s = expectedPath) then Some s else sk_found c).

Definition verifyReplacementSeries (p : completedPackReplacement) (staged : bool) : Pi (string * gmap string string) :=
  inv ← ListSeriesCtx (cp_LibraryID p);
  let expectedPath := if staged then join_path [dir (cp_OldPath p); cp_NewFolder p] else cp_OldPath p in
  let expectedCount := if staged then 2 else 1 in
  let c := foldl (check_one p expectedPath) (mkCheck false 0 None) inv in
  let changed := ErrText "completed-pack old/new Series paths or exact TMDB identity changed" in
  match sk_found c with
  | None => throw changed
  | Some found =>
      if negb (bool_decide (sk_matches c = expectedCount))
         || (staged && (negb (sk_oldBound c) || bool_decide (mi_ID found = cp_OldSeriesID p))) then throw changed
      else
      '(items, episodes) ← replacementItems (mi_ID found) (mi_Path found);
      if negb (coversEpisodesFromSet episodes (cp_Expected p)) then
        throw (ErrText "completed-pack Series does not own every expected physical episode")
      else
      missing ← ListAiredMissingEpisodesCtx (cp_LibraryID p);
      if existsb (λ e, bool_decide (me_SeriesID e = mi_ID found)) missing then
        throw (ErrText "completed-pack Series still has aired gaps")
      else mret (mi_ID found, items)
  end.

(** *** Rolling back *)

(** The part after a cutover: the names and places of the two folders on the drive, then the
    STRM tree. *)
Definition restore_cutover : Re unit :=
  p ← record;
  library ← on_pipe (wrap "replacement recovery requires library inventory: " (replacementFolders (cp_AccountID p) (cp_LibraryCID p)));
  quarantine ← on_pipe (wrap "replacement recovery requires quarantine inventory: " (replacementFolders (cp_AccountID p) (cp_QuarantineCID p)));
  if negb (replacementFolderIs library (cp_OldCID p) (cp_OldFolder p)) && negb (replacementFolderIs quarantine (cp_OldCID p) (cp_OldFolder p)) then
    throw (ErrText ("old 115 root location is uncertain; keeping staged copy and snapshot " +:+ cp_BackupDir p))
  else
  _ ← (if replacementFolderIs library (cp_NewCID p) (cp_OldFolder p) then
         on_pipe (wrap "restore staging name: " (RenameCtx (cp_AccountID p) (cp_NewCID p) (cp_NewFolder p)))
       else if negb (bool_decide (cp_NewCID p = "")) && negb (replacementFolderIs library (cp_NewCID p) (cp_NewFolder p)) then
         throw (ErrText ("staged 115 root location changed; keeping snapshot " +:+ cp_BackupDir p))
       else mret tt);
  _ ← (if replacementFolderIs quarantine (cp_OldCID p) (cp_OldFolder p) then
         on_pipe (wrap "restore old 115 root: " (MoveCtx (cp_AccountID p) [cp_OldCID p] (cp_LibraryCID p)))
       else mret tt);
  let backup := join_path [cp_BackupDir p; "strm"] in
  info ← on_pipe (attempt (os_info (LLstat backup)));
  match info with
  | Ok _ =>
      let canonical := join_path [cp_STRMBase p; cp_OldFolder p] in
      _ ← on_pipe (removeOwnedReplacementRoot canonical (cp_CanonicalSTRMInfo p));
      _ ← on_pipe (wrap "restore old STRM snapshot: " (os_do (LRename backup canonical)));
      modify (set_CanonicalSTRMInfo None)
  | Err e => if is_not_exist e then mret tt else throw e
  end.

(** Recycling the staged folder, if it is still what this operation made. *)
Definition recycle_staging : Re unit :=
  p ← record;
  if bool_decide (cp_NewCID p = "") then mret tt else
  files ← on_pipe (replacementFolders (cp_AccountID p) (cp_LibraryCID p));
  if cp_CutoverStarted p && negb (replacementFolderIs files (cp_OldCID p) (cp_OldFolder p)) then
    throw (ErrText "old canonical 115 root was not restored; keeping staged copy")
  else
  _ ← (if bool_decide (is_Some (files !! cp_NewCID p)) then
         if negb (replacementFolderIs files (cp_NewCID p) (cp_NewFolder p)) then
           throw (ErrText "staged 115 root changed; refusing rollback deletion")
         else on_pipe (wrap "recycle operation-owned staging root: " (DeleteCtx (cp_AccountID p) [cp_NewCID p]))
       else mret tt);
  modify (set_NewCID "").

(** After the scan: the play state goes back to the restored series. *)
Definition restore_users : Re unit :=
  p ← record;
  _ ← on_pipe (wrap "scan restored canonical root: " RunLibraryScanCtx);
  series ← on_pipe (ListSeriesCtx (cp_LibraryID p));
  match find (λ s, bool_decide (mi_Path s = cp_OldPath p) && bool_decide (tmdb_of s = cp_TMDBID p)) series with
  | None => throw (ErrText ("restored canonical Series was not found; user-state snapshot remains at " +:+ cp_BackupDir p))
  | Some s =>
      '(items, _) ← on_pipe (replacementItems (mi_ID s) (mi_Path s));
      _ ← on_pipe (restoreReplacementState (cp_States p) items);
      modify (set_flags false (cp_Finalized p) true true)
  end.

Definition rollbackCompletedPack : Re unit :=
  p ← record;
  if cp_Finalized p || cp_RolledBack p then mret tt
  else if negb (bool_decide (cp_NewCID p = "")) && bool_decide (cp_NewCID p = cp_OldCID p) then
    throw (ErrText "rollback staging CID aliases the original source; refusing deletion")
  else
  _ ← (if cp_CutoverStarted p then restore_cutover else mret tt);
  _ ← recycle_staging;
  _ ← on_pipe (removeOwnedReplacementRoot (join_path [cp_STRMBase p; cp_NewFolder p]) (cp_NewSTRMInfo p));
  if cp_CutoverStarted p then restore_users
  else p ← record; modify (set_flags (cp_CutoverStarted p) (cp_Finalized p) true (cp_RollbackScanned p)).

(** *** The cutover *)

(** The items whose state must survive, and the states saved. *)
Definition save_states (newItems : gmap string string) : Re unit :=
  p ← record;
  '(oldItems, oldEpisodes) ← on_pipe (replacementItems (cp_OldSeriesID p) (cp_OldPath p));
  _ ← m_each (λ kv, if bool_decide (item_of newItems kv.1 = "") then
                      throw (ErrText ("completed pack cannot preserve existing item " +:+ kv.1)) else mret tt)
        (range_over (map_to_list oldItems));
  _ ← modify (λ p, set_Expected (cp_Expected p ∪ oldEpisodes) p);
  _ ← on_pipe EnsureNoActivePlayback;
  states ← assign (snapshotReplacementState oldItems) [] (λ states p, set_states states (cp_DestinationStates p) p);
  _ ← modify (set_states states states);
  let extra := base.filter (λ kv, item_of oldItems kv.1 = "") newItems in
  more ← (if bool_decide (0 < size extra) then on_pipe (snapshotReplacementState extra) else mret []);
  modify (set_states states (states ++ more)).

(** The backup directory, the quarantine and the snapshot. *)
Definition prepare_backup : Re unit :=
  p ← record;
  folders ← on_pipe (replacementFolders (cp_AccountID p) (cp_LibraryCID p));
  if negb (replacementFolderIs folders (cp_OldCID p) (cp_OldFolder p)) || negb (replacementFolderIs folders (cp_NewCID p) (cp_NewFolder p)) then
    throw (ErrText "old or staged 115 root changed before cutover")
  else
  setting ← on_pipe (attempt (on_db (GetSetting "strm_root")));
  setting ← match setting with
            | Ok s => if bool_decide (trim_space s = "") then throw (ErrText "strm_root is required for replacement backup") else mret s
            | Err _ => throw (ErrText "strm_root is required for replacement backup")
            end;
  strmRoot ← on_pipe (canonicalRoot setting false);
  backup ← assign (os_text (LMkdirTemp (dir strmRoot) ".embymedia-replacement-")) "" (λ b, set_backup b (cp_QuarantineCID p));
  uuid ← on_pipe newUUID;
  _ ← assign (createReplacementFolder (cp_AccountID p) "0" ("embymedia-replacement-" +:+ uuid)) "" (set_backup backup);
  p ← record;
  on_pipe (persistReplacementSnapshot p).

(** Moving the old folder out and the new one in, on the drive and in the STRM tree. *)
Definition cut_over : Re unit :=
  p ← record;
  let oldSTRM := join_path [cp_STRMBase p; cp_OldFolder p] in
  info ← on_pipe (attempt (os_info (LLstat oldSTRM)));
  _ ← match info with
      | Ok i => if negb (is_dir i) || is_symlink (fi_type i) then throw (ErrText "canonical STRM root is not a real directory") else mret tt
      | Err _ => throw (ErrText "canonical STRM root is not a real directory")
      end;
  _ ← modify (set_flags true (cp_Finalized p) (cp_RolledBack p) (cp_RollbackScanned p));
  _ ← on_pipe (MoveCtx (cp_AccountID p) [cp_OldCID p] (cp_QuarantineCID p));
  _ ← on_pipe (RenameCtx (cp_AccountID p) (cp_NewCID p) (cp_OldFolder p));
  _ ← on_pipe (waitForReplacementMount (join_path [cp_MediaBase p; cp_OldFolder p]) (cp_MediaFiles p));
  _ ← on_pipe (os_do (LRename oldSTRM (join_path [cp_BackupDir p; "strm"])));
  _ ← on_pipe (os_do (LMkdir oldSTRM));
  _ ← assign (i ← os_info (LLstat oldSTRM); mret (Some i)) None set_CanonicalSTRMInfo;
  on_pipe (removeOwnedReplacementRoot (join_path [cp_STRMBase p; cp_NewFolder p]) (cp_NewSTRMInfo p)).

(** The end: the library as Emby sees it, and the play state. *)
Definition conclude : Re string :=
  p ← record;
  _ ← on_pipe (SyncSTRMWithProgress (join_path [cp_LibraryName p; cp_OldFolder p]) None);
  _ ← on_pipe RunLibraryScanCtx;
  '(newID, newItems) ← on_pipe (verifyReplacementSeries p false);
  _ ← on_pipe (restoreReplacementState (cp_DestinationStates p) newItems);
  let flag finalized := set_flags (cp_CutoverStarted p) finalized (cp_RolledBack p) (cp_RollbackScanned p) in
  _ ← modify (flag true);
  p ← record;
  saved ← on_pipe (attempt (persistReplacementSnapshot p));
  match saved with
  | Ok _ => mret newID
  | Err e => _ ← modify (flag false); throw e
  end.

Definition finalize_body : Re string :=
  p ← record;
  if cp_Finalized p then throw (ErrText "completed pack is already finalized") else
  '(_, newItems) ← on_pipe (verifyReplacementSeries p true);
  _ ← save_states newItems;
  _ ← prepare_backup;
  p ← record;
  _ ← on_pipe (verifyReplacementSeries p true);
  _ ← on_pipe EnsureNoActivePlayback;
  _ ← cut_over;
  conclude.

(** [if err != nil { err = errors.Join(err, rollback()) }]. *)
Definition or_rollback {A} (m : Re A) : Re A :=
  r ← attempt m;
  match r with
  | Ok a => mret a
  | Err e =>
      undone ← attempt rollbackCompletedPack;
      throw (match undone with Ok _ => e | Err e' => ErrBoth e e' end)
  end.

Definition finalizeCompletedPack : Re string := or_rollback finalize_body.

(** *** Staging *)

(** What a candidate turned out to be. *)
Inductive staging_result :=
| Skipped (why : option error)
| Staged (p : completedPackReplacement) (path : string).

(** [if stopAutoFillShareProbes(err) { return err }; inspectionErrors = append(..); continue]. *)
Definition probe {A} (c : autoFillCandidate) (r : res A) (k : A → Pi staging_result) : Pi staging_result :=
  match r with
  | Ok a => k a
  | Err e => if stopAutoFillShareProbes e then throw e
             else mret (Skipped (Some (ErrWrap ("resource " +:+ ac_ID c +:+ ": ") e)))
  end.

(** The release is received into a new folder and waited for. *)
Definition receive_release (a : account) (shareCode receiveCode shareTitle mediaRoot : string) (ids : list string) : Re string :=
  p ← record;
  let newPath := join_path [cp_MediaBase p; cp_NewFolder p] in
  if negb (inside mediaRoot newPath) then throw (ErrText "completed-pack destination escapes media_root") else
  info ← on_pipe (attempt (os_info (LLstat newPath)));
  _ ← match info with
      | Err e => if is_not_exist e then mret tt
                 else throw (ErrText "completed-pack media destination already exists or is unreadable")
      | Ok _ => throw (ErrText "completed-pack media destination already exists or is unreadable")
      end;
  cid ← assign (createReplacementFolder a.1 (cp_LibraryCID p) (cp_NewFolder p)) "" set_NewCID;
  _ ← on_pipe (receiveShareEntriesCtx a shareCode receiveCode ids cid shareTitle);
  _ ← on_pipe (waitForAutoFillCoverage newPath (cp_Expected p));
  files ← on_pipe (replacementMediaFiles newPath);
  _ ← modify (set_MediaFiles files);
  mret newPath.

(** What staging knows of the series and its library. *)
Record pack_target := mkTarget {
  pt_library : EmbyLibrary; pt_libraryCID : string; pt_series : EmbyMediaItem; pt_mediaRoot : string; pt_mediaBase : string;
  pt_strmBase : string; pt_oldFolder : string; pt_oldCID : string; pt_expected : gset episodeKey; pt_account : account
}.

Definition new_record (t : pack_target) (newFolder : string) (info : file_info) : completedPackReplacement :=
  mkPack (lb_ID (pt_library t)) (lb_Name (pt_library t)) (pt_libraryCID t) (pt_account t).1 (mi_ID (pt_series t)) (pt_oldFolder t)
    (pt_oldCID t) (mi_Path (pt_series t)) newFolder "" (tmdb_of (pt_series t)) (pt_expected t) ∅ (pt_mediaBase t) (pt_strmBase t)
    (Some info) None "" "" [] [] false false false false.

Definition stage_release (t : pack_target) (shareCode receiveCode shareTitle : string) (contents : list ShareEntry) : Pi staging_result :=
  uuid ← newUUID;
  let newFolder := pt_oldFolder t +:+ " [replacement-" +:+ uuid +:+ "]" in
  let newSTRM := join_path [pt_strmBase t; newFolder] in
  _ ← os_do (LMkdir newSTRM);
  info ← os_info (LLstat newSTRM);
  '(p, r) ← with_record (new_record t newFolder info)
    (or_rollback (receive_release (pt_account t) shareCode receiveCode shareTitle (pt_mediaRoot t) (se_ID <$> contents)));
  path ← lift r;
  mret (Staged p path).

Definition stage_candidate (t : pack_target) (c : autoFillCandidate) : Pi staging_result :=
  if negb (bool_decide (or_115 (ac_Provider c) = "115")) then mret (Skipped None) else
  match ParseShareCode (ac_URL c) (ac_Password c) with
  | Err e => mret (Skipped (Some (ErrWrap ("resource " +:+ ac_ID c +:+ ": ") e)))
  | Ok (shareCode, receiveCode) =>
      '(shareTitle, roots) ← snapshotShareEntries (pt_account t) shareCode receiveCode "0";
      probe c roots (λ roots,
        match roots with
        | [root] =>
            if negb (se_IsDir root) then mret (Skipped None)
            else if negb (autoFillIdentityMatches (Some (pt_series t)) [ac_Title c; shareTitle; se_Name root])
                    || negb (autoFillIdentityMatches (Some (pt_series t)) [se_Name root]) then mret (Skipped None)
            else
            '(_, leaves) ← scanAutoFillShare c;
            probe c leaves (λ leaves,
              if negb (coversEpisodes leaves (pt_expected t)) then mret (Skipped None)
              else if negb (forallb (autoFillLeafIdentityMatches (Some (pt_series t))) leaves) then mret (Skipped None)
              else
              '(_, contents) ← snapshotShareEntries (pt_account t) shareCode receiveCode (se_ID root);
              probe c contents (λ contents,
                if bool_decide (length contents = 0) then mret (Skipped None)
                else stage_release t shareCode receiveCode shareTitle contents))
        | _ => mret (Skipped None)
        end)
  end.

Fixpoint stage_candidates (t : pack_target) (candidates : list autoFillCandidate) (errors : list error)
    : Pi (option (completedPackReplacement * list string)) :=
  match candidates with
  | [] => match joined errors with Some e => throw e | None => mret None end
  | c :: candidates =>
      r ← stage_candidate t c;
      match r with
      | Skipped why => stage_candidates t candidates (errors ++ option_list why)
      | Staged p path => mret (Some (p, [path]))
      end
  end.

Definition stageCompletedPack (library : EmbyLibrary) (libraryCID : string) (gaps : gset episodeKey) (series : EmbyMediaItem)
    (candidates : list autoFillCandidate) : Pi (option (completedPackReplacement * list string)) :=
  if negb (bool_decide (mi_Type series = "Series")) || bool_decide (tmdb_of series = "") then
    throw (ErrText "completed-pack replacement requires an exact TMDB Series")
  else
  '(mediaRoot, mediaBase, strmBase, _) ← paths (lb_Name library);
  let oldFolder := base (clean (mi_Path series)) in
  if bool_decide (oldFolder = ".") || bool_decide (oldFolder = "..") || negb (bool_decide (base (dir (mi_Path series)) = lb_Name library)) then
    throw (ErrText "completed-pack Series is not a direct library child")
  else
  oldCID ← resolveAutoFillFolder rounds libraryCID oldFolder;
  '(_, episodes) ← replacementItems (mi_ID series) (mi_Path series);
  let expected := episodes ∪ gaps in
  if bool_decide (size expected = 0) then throw (ErrText "completed-pack replacement has no episode inventory") else
  a ← getAccount "";
  stage_candidates (mkTarget library libraryCID series mediaRoot mediaBase strmBase oldFolder oldCID expected a) candidates [].

End Replacement.
