(* ===== verification/ReplacementProofs.v ===== *)
(** Properties of the replacement of a series ([Replacement.v]): what it asks of the drive,
    in which order, and what undoing it restores on a drive that does what it says. *)
From S2P Require Import Prelude GoStrings GoPath Regexp Sql Schema Accounts Payload FileSys Remote Episodes Drive Destination.
From S2P Require Import DestinationProofs Identity Service Local Autofill Pipeline ImportSample Media MediaProofs Replacement.
From Stdlib Require Import Ascii.

(** * Runs over the record *)

Definition on_log (R : Pipe → Pipe → Prop) (s s' : Pack) : Prop := R (pk_pipe s) (pk_pipe s').
#[global] Instance on_log_preorder R `{!PreOrder R} : PreOrder (on_log R).
Proof. split; [intros s; unfold on_log; by reflexivity|intros s1 s2 s3; unfold on_log; by etrans]. Qed.

Section Pack.
Context `{Env}.

Lemma wp_on_pipe {A} (m : M Pipe A) w (Q : res A → World Pack → Prop) :
  wp m (mkWorld (w_tick w) (pk_pipe (w_db w)))
    (λ r x, Q r (mkWorld (w_tick x) (mkPackState (w_db x) (pk_record (w_db w))))) → wp (on_pipe m) w Q.
Proof. unfold wp, on_pipe. by destruct (m _). Qed.

Lemma wp_gets {A} (f : completedPackReplacement → A) w (Q : res A → World Pack → Prop) :
  Q (Ok (f (pk_record (w_db w)))) w → wp (gets f) w Q.
Proof. done. Qed.

Lemma wp_modify_record f w (Q : res unit → World Pack → Prop) :
  Q (Ok tt) (mkWorld (w_tick w) (mkPackState (pk_pipe (w_db w)) (f (pk_record (w_db w))))) → wp (modify f) w Q.
Proof. done. Qed.

Context (R : Pipe → Pipe → Prop) `{!PreOrder R}.

Lemma keeps_on_pipe {A} (m : M Pipe A) : keeps R m → keeps (on_log R) (on_pipe m).
Proof. intros Hm w. apply wp_on_pipe. apply Hm. Qed.
Lemma keeps_gets {A} (f : completedPackReplacement → A) : keeps (on_log R) (gets f).
Proof. intros w. apply wp_gets. unfold on_log. by reflexivity. Qed.
Lemma keeps_modify f : keeps (on_log R) (modify f).
Proof. intros w. apply wp_modify_record. unfold on_log. simpl. by reflexivity. Qed.
End Pack.

(** No request at all. *)
Definition same_log (s s' : Pipe) : Prop := pi_log s' = pi_log s.
#[global] Instance same_log_preorder : PreOrder same_log.
Proof. split; [by intros s|intros s1 s2 s3 E1 E2; unfold same_log in *; congruence]. Qed.

Lemma silent_db {A} (m : M Database A) : keeps same_log (on_db m).
Proof. intros w. apply wp_on_db, wp_intro. by intros r w' _. Qed.

Lemma silent_default `{Env} p : keeps same_log (GetDefaultAccount p).
Proof.
  unfold GetDefaultAccount. apply keeps_bind; [apply _|apply keeps_lift, _|]. intros provider.
  apply keeps_bind; [apply _|apply silent_db|]. intros accounts. destruct (pick_account _ _); [apply keeps_ret, _|].
  destruct (bool_decide _); [|apply keeps_throw, _]. apply keeps_bind; [apply _|apply keeps_attempt, silent_db|]. intros s.
  destruct (negb _); [|apply keeps_throw, _]. apply keeps_bind; [apply _|apply keeps_now, _|]. intros n. cbv zeta.
  apply keeps_bind; [apply _|apply silent_db|]. intros _. apply keeps_ret, _.
Qed.

Lemma silent_account `{Env} id : keeps same_log (getAccount id).
Proof.
  unfold getAccount. destruct (bool_decide _); [apply silent_default|].
  apply keeps_bind; [apply _|apply silent_db|]. intros accounts. destruct (find _ _); [apply keeps_ret, _|apply keeps_throw, _].
Qed.

Lemma silent_orderly J s s' : same_log s s' → orderly J s s'.
Proof. apply orderly_nil. Qed.

(** * Requests to the drive *)

Section Drive.
Context `{Env} `{Ctx} `{Sleep} `{Remote} `{Providers}.
Implicit Types w : World Pipe.

(** The three changes: one request, with trimmed names, or none. *)
Lemma wp_rename acc file name w (Q : res unit → World Pipe → Prop) :
  (∀ e w', same_log (w_db w) (w_db w') → Q (Err e) w') →
  (∀ a w', pi_log (w_db w') = pi_log (w_db w) ++
     [ARename a (trim_space file) (trim_space name) (sv_rename (pi_log (w_db w)) a (trim_space file) (trim_space name))] →
     Q (sv_rename (pi_log (w_db w)) a (trim_space file) (trim_space name)) w') →
  wp (RenameCtx acc file name) w Q.
Proof.
  intros HE HO. unfold RenameCtx. cbv zeta. destruct (_ || _); [by apply wp_lift, HE|].
  apply wp_bind. eapply wp_mono; [apply silent_account|]. intros [a|e] w1 Hs; [|by apply HE].
  apply wp_call. intros n. cbv zeta. rewrite Hs. by apply HO.
Qed.

Lemma trimmed_one id ids : trimmed_ids [id] = Ok ids → ids = [trim_space id].
Proof. unfold trimmed_ids. simpl. case_bool_decide; [done|]. by intros [= <-]. Qed.

Lemma wp_move acc id target w (Q : res unit → World Pipe → Prop) :
  (∀ e w', same_log (w_db w) (w_db w') → Q (Err e) w') →
  (∀ a w', let r := sv_move (pi_log (w_db w)) a [trim_space id] (trim_space target) in
     pi_log (w_db w') = pi_log (w_db w) ++ [AMove a [trim_space id] (trim_space target) r] → Q r w') →
  wp (MoveCtx acc [id] target) w Q.
Proof.
  intros HE HO. unfold MoveCtx. cbv zeta. destruct (_ || _); [by apply wp_lift, HE|].
  apply wp_bind. eapply wp_mono; [apply silent_account|]. intros [a|e] w1 Hs; [|by apply HE].
  apply wp_bind, wp_lift. destruct (trimmed_ids [id]) as [ids|e] eqn:Hids; [|by apply HE].
  apply trimmed_one in Hids as ->. apply wp_call. intros n. cbv zeta. rewrite Hs. by apply HO.
Qed.

Lemma wp_delete acc id w (Q : res unit → World Pipe → Prop) :
  (∀ e w', same_log (w_db w) (w_db w') → Q (Err e) w') →
  (∀ a w', let r := sv_delete (pi_log (w_db w)) a [trim_space id] in
     pi_log (w_db w') = pi_log (w_db w) ++ [ADelete a [trim_space id] r] → Q r w') →
  wp (DeleteCtx acc [id]) w Q.
Proof.
  intros HE HO. unfold DeleteCtx. simpl (bool_decide _).
  apply wp_bind. eapply wp_mono; [apply silent_account|]. intros [a|e] w1 Hs; [|by apply HE].
  apply wp_bind, wp_lift. destruct (trimmed_ids [id]) as [ids|e] eqn:Hids; [|by apply HE].
  apply trimmed_one in Hids as ->. apply wp_call. intros n. cbv zeta. rewrite Hs. by apply HO.
Qed.

(** ** Listings *)

Record listed_page := mkListed { lp_account : string; lp_offset : Z; lp_files : list DriveFile; lp_total : Z }.
Definition page_action (parent : string) (p : listed_page) : action :=
  AList "115" (lp_account p) (or_root parent) (lp_offset p) 1000 (Ok (lp_files p, lp_total p)).

Definition folder_map_of (files : list DriveFile) : folder_map := foldl (λ m f, <[df_FileID f := f]> m) ∅ files.

(** The requests of a listing that is complete: consecutive pages, the last of which ends
    at the total. *)
Fixpoint consecutive (offset : Z) (pages : list listed_page) : Prop :=
  match pages with
  | [] => False
  | p :: pages =>
      lp_offset p = offset ∧
      let next := (offset + Z.of_nat (length (lp_files p)))%Z in
      match pages with [] => next = lp_total p | _ => consecutive next pages end
  end.

Definition listing (parent : string) (log : history) (files : folder_map) : Prop :=
  ∃ pages, log = page_action parent <$> pages ∧ consecutive 0 pages ∧ files = folder_map_of (concat (lp_files <$> pages)).

Lemma wp_listFiles acc parent offset w (Q : res (list DriveFile * Z) → World Pipe → Prop) :
  (0 ≤ offset)%Z →
  (∀ e w', same_log (w_db w) (w_db w') → Q (Err e) w') →
  (∀ a e w' r, pi_log (w_db w') = pi_log (w_db w) ++ [AList "115" a (or_root parent) offset 1000 r] → Q (Err e) w') →
  (∀ a files total w', rm_list (pi_log (w_db w)) "115" a (or_root parent) offset 1000 = Ok (files, total) →
     pi_log (w_db w') = pi_log (w_db w) ++ [AList "115" a (or_root parent) offset 1000 (Ok (files, total))] →
     Q (Ok (files, total)) w') →
  wp (listFiles acc parent offset 1000) w Q.
Proof.
  intros Hoff HE HF HO. unfold listFiles.
  apply wp_bind. eapply wp_mono; [apply silent_account|]. intros [a|e] w1 Hs; [|by apply HE]. cbv zeta.
  assert (Z.ltb offset 0 = false) as -> by lia. change (Z.ltb 1000 (if Z.leb 1000 0 then 50 else 1000)) with false.
  change (if Z.leb 1000 0 then 50%Z else 1000%Z) with 1000%Z. cbv iota.
  apply wp_bind, wp_call. intros n. cbv zeta. rewrite Hs. destruct (rm_list _ _ _ _ _ _) as [[files total]|e] eqn:Hr; [|by eapply HF].
  destruct (Z.ltb _ _); [by eapply wp_lift, HF|]. apply wp_bind, wp_lift.
  destruct (res_each _ _); [apply wp_ret; by eapply HO|by eapply HF].
Qed.

Definition only_lists (before : history) (a : action) : Prop := match a with AList _ _ _ _ _ _ => True | _ => False end.

(** The pages are what the drive answered. *)
Definition told (parent : string) (log : history) (pages : list listed_page) : Prop :=
  ∀ ps1 p ps2, pages = ps1 ++ p :: ps2 →
    rm_list (log ++ (page_action parent <$> ps1)) "115" (lp_account p) (or_root parent) (lp_offset p) 1000 = Ok (lp_files p, lp_total p).

Lemma add_folders_map parent page files files' :
  res_fold (add_folder parent) page files = Ok files' → files' = foldl (λ m f, <[df_FileID f := f]> m) files page.
Proof.
  revert files. induction page as [|f page IH]; intros files; cbn [res_fold foldl]; [by intros [= <-]|].
  unfold add_folder at 1. destruct (bool_decide _); [done|]. destruct (_ || _); [done|]. apply IH.
Qed.

Lemma folder_rounds_ok acc parent n offset files w :
  (0 ≤ offset)%Z →
  wp (folder_rounds acc parent n offset files) w (λ r w', orderly only_lists (w_db w) (w_db w') ∧
    ∀ files', r = Ok (Some files') → ∃ pages, pi_log (w_db w') = pi_log (w_db w) ++ (page_action parent <$> pages) ∧
      consecutive offset pages ∧ told parent (pi_log (w_db w)) pages ∧
      files' = foldl (λ m f, <[df_FileID f := f]> m) files (concat (lp_files <$> pages))).
Proof.
  revert offset files w. induction n as [|n IH]; intros offset files w Hoff; simpl.
  { apply wp_ret. split; [by apply orderly_nil|done]. }
  apply wp_bind, wp_listFiles; [done|intros e w' Hs; by split; [apply silent_orderly|]|intros a e w' r Hl; by split; [eapply orderly_one|]|].
  intros a page total w1 Hr Hl. assert (orderly only_lists (w_db w) (w_db w1)) as Ho1 by (by eapply orderly_one).
  destruct (_ || _) eqn:Hbad; [by apply wp_lift|]. apply wp_bind, wp_lift.
  destruct (res_fold _ _ _) as [files1|e] eqn:Hf; [|done]. apply add_folders_map in Hf as ->.
  set (here := mkListed a offset page total).
  assert (∀ more, told parent (pi_log (w_db w1)) more → told parent (pi_log (w_db w)) (here :: more)) as Htold.
  { intros more Hm [|q ps1] p ps2 Hp; injection Hp as <- Hp; simpl; [by rewrite app_nil_r|].
    specialize (Hm ps1 p ps2 Hp). rewrite Hl, <-app_assoc in Hm. exact Hm. }
  destruct (Z.eqb_spec (offset + Z.of_nat (length page)) total) as [Hend|Hmore].
  - apply wp_ret. split; [done|]. intros files' [= <-]. exists [here]. split; [done|]. split; [by split|]. split.
    + apply Htold. intros ps1 p ps2 Hp. by destruct ps1.
    + simpl. by rewrite app_nil_r.
  - eapply wp_mono; [apply IH; lia|]. intros r w2 [Ho2 Hok]. split; [by etrans|]. intros files' ->.
    destruct (Hok files' eq_refl) as (pages & Hlog & Hcons & Ht & ->). exists (here :: pages). split; [|split; [|split]].
    + by rewrite Hlog, Hl, <-app_assoc.
    + destruct pages; [done|]. split; [done|exact Hcons].
    + by apply Htold.
    + simpl. by rewrite foldl_app.
Qed.

Lemma wp_folders rounds acc parent w (Q : res folder_map → World Pipe → Prop) :
  (∀ e w', orderly only_lists (w_db w) (w_db w') → Q (Err e) w') →
  (∀ files pages w', orderly only_lists (w_db w) (w_db w') →
     pi_log (w_db w') = pi_log (w_db w) ++ (page_action parent <$> pages) →
     consecutive 0 pages → told parent (pi_log (w_db w)) pages → files = folder_map_of (concat (lp_files <$> pages)) → Q (Ok files) w') →
  wp (replacementFolders rounds acc parent) w Q.
Proof.
  intros HE HO. unfold replacementFolders, finished_wait. apply wp_bind.
  eapply wp_mono; [by apply folder_rounds_ok|]. intros [[files|]|e] w' [Ho Hok]; [|by apply wp_lift, HE|by apply HE].
  apply wp_ret. destruct (Hok files eq_refl) as (pages & Hlog & Hc & Ht & ->). by eapply HO.
Qed.
End Drive.

(** * The play state *)

Section Plays.
Context `{Env} `{Ctx} `{Sleep} `{Remote} `{Providers} `{Local}.

(** The requests that restore the play state. *)
Definition plays (before : history) (a : action) : Prop :=
  match a with
  | AScan _ | ASeries _ _ | AInventory _ _ | AUserData _ _ _ | ASetUserData _ _ _ _ => True
  | _ => False
  end.
Abbreviation P := (orderly plays).

Lemma items_plays id path : keeps P (replacementItems id path).
Proof. unfold replacementItems. apply keeps_bind; [apply _|by apply ord_observe|]. intros [pages e]. apply keeps_lift, _. Qed.

Lemma states_plays states items : keeps P (restoreReplacementState states items).
Proof.
  unfold restoreReplacementState. apply keeps_bind; [apply _| |intros _; apply keeps_bind; [apply _| |intros _]].
  - apply keeps_each; [apply _|]. intros st _. destruct (bool_decide _); [apply keeps_throw, _|apply keeps_ret, _].
  - apply keeps_each; [apply _|]. intros kind _. unfold write_states. apply keeps_each; [apply _|]. intros st _.
    destruct (negb _); [apply keeps_ret, _|by apply ord_call].
  - apply keeps_each; [apply _|]. intros st _. unfold check_state, get_user_data.
    apply keeps_bind; [apply _| |intros; destruct (bool_decide _); [apply keeps_ret, _|apply keeps_throw, _]].
    apply keeps_bind; [apply _|by apply ord_call|]. intros [i [d|]]; [destruct (bool_decide _)|]; first [apply keeps_ret, _|apply keeps_throw, _].
Qed.

Lemma restore_users_plays : keeps (on_log P) restore_users.
Proof.
  unfold restore_users. apply keeps_bind; [apply _|apply keeps_gets, _|]. intros p.
  apply keeps_bind; [apply _|apply keeps_on_pipe, keeps_wrap; by apply ord_call|]. intros _.
  apply keeps_bind; [apply _|apply keeps_on_pipe; by apply ord_call|]. intros series.
  destruct (find _ _) as [s|]; [|apply keeps_throw, _].
  apply keeps_bind; [apply _|apply keeps_on_pipe, items_plays|]. intros [items ?].
  apply keeps_bind; [apply _|apply keeps_on_pipe, states_plays|]. intros _. apply keeps_modify, _.
Qed.
End Plays.

(** * Rolling back *)

Section Rollback.
Context `{Env} `{Ctx} `{Sleep} `{Remote} `{Providers} `{Local} (rounds : nat) (p0 : completedPackReplacement).

Definition staging_root (p : completedPackReplacement) : string := join_path [cp_STRMBase p; cp_NewFolder p].
Definition canonical_root (p : completedPackReplacement) : string := join_path [cp_STRMBase p; cp_OldFolder p].

(** A directory of the STRM tree was just seen to be the one this operation made. *)
Definition just_owned (before : history) (path : string) (owned : option file_info) : Prop :=
  ∃ h o i, before = h ++ [AInfo (LLstat path) (Ok i)] ∧ owned = Some o ∧ fi_type i = FDir ∧ fi_ino o = fi_ino i.

(** The library was just listed in full, and held these folders. *)
Definition just_listed (before : history) (parent : string) (holds : folder_map → Prop) : Prop :=
  ∃ h pages files, before = h ++ pages ∧ listing parent pages files ∧ holds files.

(** What rolling back may ask. *)
Definition rollback_ok (before : history) (a : action) : Prop :=
  match a with
  | ARename _ file name _ => file = trim_space (cp_NewCID p0) ∧ name = trim_space (cp_NewFolder p0)
  | AMove _ ids target _ => ids = [trim_space (cp_OldCID p0)] ∧ target = trim_space (cp_LibraryCID p0)
  | ADelete _ ids _ =>
      ids = [trim_space (cp_NewCID p0)] ∧ cp_NewCID p0 ≠ cp_OldCID p0 ∧
      just_listed before (cp_LibraryCID p0) (λ files,
        replacementFolderIs files (cp_NewCID p0) (cp_NewFolder p0) = true ∧
        (cp_CutoverStarted p0 = true → replacementFolderIs files (cp_OldCID p0) (cp_OldFolder p0) = true))
  | ADo op _ =>
      match op with
      | LRemoveAll path =>
          path = staging_root p0 ∧ just_owned before path (cp_NewSTRMInfo p0) ∨
          path = canonical_root p0 ∧ just_owned before path (cp_CanonicalSTRMInfo p0)
      | LRename old new => old = join_path [cp_BackupDir p0; "strm"] ∧ new = canonical_root p0
      | _ => False
      end
  | AMkdir _ _ _ _ _ | AReceive _ _ _ _ _ _ | AShareSave _ _ _ _ _ _ _ => False
  | _ => True
  end.

Abbreviation J := (orderly rollback_ok).
Definition ordered (w w' : World Pack) : Prop := J (pk_pipe (w_db w)) (pk_pipe (w_db w')).

Lemma lists_rollback s s' : orderly only_lists s s' → J s s'.
Proof. apply orderly_weaken. by intros h []. Qed.

(** Removing an owned root. *)
Lemma remove_owned path owned (w : World Pipe) :
  (path = staging_root p0 ∧ owned = cp_NewSTRMInfo p0 ∨ path = canonical_root p0 ∧ owned = cp_CanonicalSTRMInfo p0) →
  wp (removeOwnedReplacementRoot path owned) w (λ _ w', J (w_db w) (w_db w')).
Proof.
  intros Hpath. unfold removeOwnedReplacementRoot. destruct owned as [o|]; [|apply wp_ret; by reflexivity].
  apply wp_bind, wp_attempt, wp_call. intros n. cbv beta zeta.
  destruct (lo_info _ _) as [i|e] eqn:Hi.
  2: { destruct (is_not_exist e); [apply wp_ret|apply wp_lift]; by eapply orderly_one. }
  destruct (_ || _) eqn:Hbad; [apply wp_lift; by eapply orderly_one|].
  rewrite !orb_false_iff, !negb_false_iff in Hbad. destruct Hbad as [[Hdir _] Hino].
  unfold is_dir in Hdir. apply bool_decide_eq_true in Hdir. unfold same_file in Hino. apply Z.eqb_eq in Hino.
  apply wp_call. intros m.
  eapply (orderly_snoc _ _ (mkPipe (pi_db (w_db w)) (pi_files (w_db w)) (pi_log (w_db w) ++ [AInfo (LLstat path) (Ok i)])));
    [by eapply orderly_one|done|].
  assert (just_owned (pi_log (w_db w) ++ [AInfo (LLstat path) (Ok i)]) path (Some o)) as Ho by (by eexists _, o, i).
  simpl. destruct Hpath as [[-> <-]|[-> <-]]; [by left|by right].
Qed.

Lemma restore_cutover_ok (w : World Pack) :
  pk_record (w_db w) = p0 →
  wp (restore_cutover rounds) w (λ r w', ordered w w' ∧ (r = Ok tt → ∃ c, pk_record (w_db w') = set_CanonicalSTRMInfo c p0)).
Proof.
  intros Hp. unfold restore_cutover, ordered. apply wp_bind, wp_gets. rewrite Hp. unfold id.
  apply wp_bind, wp_on_pipe, wp_wrap, wp_folders; [intros e w1 Ho; by split; [apply lists_rollback|]|].
  intros library pg1 w1 Ho1 _ _ _ _. apply lists_rollback in Ho1. rewrite Hp.
  apply wp_bind, wp_on_pipe, wp_wrap, wp_folders; [intros e w2 Ho; split; [etrans; [exact Ho1|by apply lists_rollback]|done]|].
  intros quarantine pg2 w2 Ho2 _ _ _ _. apply lists_rollback in Ho2. cbn [wrap_err w_db w_tick pk_pipe pk_record] in *.
  assert (J (pk_pipe (w_db w)) (w_db w2)) as Ho by (by etrans). clear Ho1 Ho2 w1 pg1 pg2.
  destruct (negb _ && negb _); [apply wp_lift; by split|]. apply wp_bind.
  eapply (wp_mono _ _ (λ r w', ordered w w' ∧ (r = Ok tt → pk_record (w_db w') = p0))).
  { destruct (replacementFolderIs library (cp_NewCID p0) (cp_OldFolder p0)); [|destruct (_ && _); [apply wp_lift|apply wp_ret]; by split].
    apply wp_on_pipe, wp_wrap, wp_rename.
    - intros e w3 Hs. split; [|done]. unfold ordered. simpl. etrans; [exact Ho|by apply silent_orderly].
    - intros a w3 Hl. destruct (sv_rename _ _ _ _); (split; [|done]); unfold ordered; simpl; (eapply orderly_snoc; [exact Ho|exact Hl|done]). }
  intros [[]|e] w3 [Ho3 Hp3]; [|done]. specialize (Hp3 eq_refl). apply wp_bind.
  eapply (wp_mono _ _ (λ r w', ordered w w' ∧ (r = Ok tt → pk_record (w_db w') = p0))).
  { destruct (replacementFolderIs quarantine _ _); [|apply wp_ret; by split]. apply wp_on_pipe, wp_wrap, wp_move.
    - intros e w4 Hs. split; [|done]. unfold ordered. simpl. etrans; [exact Ho3|by apply silent_orderly].
    - intros a w4 r Hl. unfold r in *. destruct (sv_move _ _ _ _); (split; [|done]); unfold ordered; simpl; (eapply orderly_snoc; [exact Ho3|exact Hl|done]). }
  intros [[]|e] w4 [Ho4 Hp4]; [|done]. specialize (Hp4 eq_refl). clear Ho Ho3 Hp3 w2 w3 library quarantine. cbv zeta.
  apply wp_bind, wp_on_pipe, wp_attempt, wp_call. intros n. cbv beta zeta. cbn [w_db w_tick pk_pipe pk_record].
  assert (∀ r, J (pk_pipe (w_db w)) (mkPipe (pi_db (pk_pipe (w_db w4))) (pi_files (pk_pipe (w_db w4)))
    (pi_log (pk_pipe (w_db w4)) ++ [AInfo (LLstat (join_path [cp_BackupDir p0; "strm"])) r]))) as Ho5.
  { intros r. eapply orderly_snoc; [exact Ho4|done|done]. }
  assert (∃ c, p0 = set_CanonicalSTRMInfo c p0) as Hsame by (exists (cp_CanonicalSTRMInfo p0); by destruct p0).
  destruct (lo_info _ _) as [i|e].
  2: { destruct (is_not_exist e); [apply wp_ret|apply wp_lift]; (split; [apply Ho5|by rewrite Hp4]). }
  apply wp_bind, wp_on_pipe. eapply wp_mono; [by apply remove_owned; right|]. cbn [w_db w_tick pk_pipe pk_record].
  intros [[]|e] w5 Ho6; [|split; [etrans; [apply Ho5|exact Ho6]|done]].
  assert (J (pk_pipe (w_db w)) (w_db w5)) as Ho7 by (etrans; [apply Ho5|exact Ho6]).
  apply wp_bind, wp_on_pipe, wp_wrap, wp_call. intros m. cbv beta zeta. cbn [w_db w_tick pk_pipe pk_record].
  destruct (lo_do _ _) as [[]|e]; [apply wp_modify_record|]; (split; [eapply orderly_snoc; [exact Ho7|done|done]|]); [|done].
  intros _. exists None. simpl. by rewrite Hp4.
Qed.

Lemma recycle_ok c w :
  cp_NewCID p0 = "" ∨ cp_NewCID p0 ≠ cp_OldCID p0 → pk_record (w_db w) = set_CanonicalSTRMInfo c p0 →
  wp (recycle_staging rounds) w (λ r w', ordered w w' ∧
    (r = Ok tt → ∃ n, pk_record (w_db w') = set_NewCID n (set_CanonicalSTRMInfo c p0))).
Proof.
  intros Halias Hp. unfold recycle_staging, ordered. apply wp_bind, wp_gets. rewrite Hp. unfold id.
  cbn [cp_NewCID cp_OldCID cp_AccountID cp_LibraryCID cp_CutoverStarted cp_OldFolder cp_NewFolder set_CanonicalSTRMInfo].
  case_bool_decide as Hnone.
  { apply wp_ret. split; [by reflexivity|]. intros _. exists "". rewrite Hp. by rewrite <-Hnone; destruct p0. }
  destruct Halias as [?|Halias]; [done|].
  apply wp_bind, wp_on_pipe, wp_folders; [intros e w1 Ho; by split; [apply lists_rollback|]|].
  intros files pages w1 Ho Hlog Hc _ Hfiles. apply lists_rollback in Ho. cbn [w_db w_tick pk_pipe pk_record] in *.
  destruct (_ && negb _) eqn:Hcut; [by apply wp_lift|]. apply wp_bind.
  eapply (wp_mono _ _ (λ r w', ordered w w' ∧ (r = Ok tt → pk_record (w_db w') = pk_record (w_db w)))).
  { destruct (bool_decide _); [|by apply wp_ret].
    destruct (replacementFolderIs files (cp_NewCID p0) (cp_NewFolder p0)) eqn:Hnew; cbn [negb]; [|by apply wp_lift].
    apply wp_on_pipe, wp_wrap, wp_delete.
    - intros e w2 Hs. split; [|done]. unfold ordered. simpl. etrans; [exact Ho|by apply silent_orderly].
    - intros a w2 r Hl. assert (J (pk_pipe (w_db w)) (w_db w2)) as Ho2.
      { eapply orderly_snoc; [exact Ho|exact Hl|]. split; [done|]. split; [done|]. exists (pi_log (pk_pipe (w_db w))), (page_action (cp_LibraryCID p0) <$> pages), files.
        split; [by rewrite <-Hlog|]. split; [by exists pages|]. split; [done|]. intros Hcutover. rewrite Hcutover in Hcut. simpl in Hcut. by apply negb_false_iff in Hcut. }
      destruct r; by split. }
  intros [[]|e] w2 [Ho2 Hp2]; [|done]. apply wp_modify_record. split; [exact Ho2|]. intros _. exists "". simpl. by rewrite Hp2, Hp by done.
Qed.

Lemma restore_users_ok : keeps (on_log J) restore_users.
Proof. eapply keeps_weaken; [|apply restore_users_plays]. intros s s'. apply orderly_weaken. by intros h []. Qed.

Lemma rollback_ordered w :
  pk_record (w_db w) = p0 → wp (rollbackCompletedPack rounds) w (λ _ w', orderly rollback_ok (pk_pipe (w_db w)) (pk_pipe (w_db w'))).
Proof.
  intros Hp. unfold rollbackCompletedPack. apply wp_bind, wp_gets. rewrite Hp. unfold id.
  destruct (_ || _); [apply wp_ret; by reflexivity|]. destruct (_ && _) eqn:Halias; [apply wp_lift; by reflexivity|].
  assert (cp_NewCID p0 = "" ∨ cp_NewCID p0 ≠ cp_OldCID p0) as Ha.
  { rewrite andb_false_iff, negb_false_iff, bool_decide_eq_true, bool_decide_eq_false in Halias. tauto. }
  apply wp_bind. eapply (wp_mono _ _ (λ r w', ordered w w' ∧ (r = Ok tt → ∃ c, pk_record (w_db w') = set_CanonicalSTRMInfo c p0))).
  { destruct (cp_CutoverStarted p0); [by apply restore_cutover_ok|]. apply wp_ret. split; [unfold ordered; by reflexivity|].
    intros _. exists (cp_CanonicalSTRMInfo p0). rewrite Hp. by destruct p0. }
  intros [[]|e] w1 [Ho1 Hp1]; [|done]. destruct (Hp1 eq_refl) as [c Hc].
  apply wp_bind. eapply wp_mono; [by eapply recycle_ok|]. intros [[]|e] w2 [Ho2 Hp2]; [|by etrans].
  assert (J (pk_pipe (w_db w)) (pk_pipe (w_db w2))) as Ho by (by etrans). clear Ho1 Ho2.
  apply wp_bind, wp_on_pipe. eapply wp_mono; [by apply remove_owned; left|]. cbn [w_db w_tick pk_pipe pk_record].
  intros [[]|e] w3 Ho3; [|by etrans]. assert (J (pk_pipe (w_db w)) (w_db w3)) as Ho4 by (by etrans).
  destruct (cp_CutoverStarted p0).
  - eapply wp_mono; [apply restore_users_ok|]. intros r w4 Ho5. etrans; [exact Ho4|exact Ho5].
  - apply wp_bind, wp_gets, wp_modify_record. exact Ho4.
Qed.
End Rollback.

(** C21: Rolling a replacement back never touches the old folder but to move it back to its
    library, and deletes nothing but the staged folder: only when it is not the old folder
    itself, and right after the library was listed in full and showed the staged folder
    under the name this operation gave it, and, after a cutover, the old folder back under
    its own name.  A directory of the STRM tree is removed only when it was just seen to be
    the one this operation made. *)
Theorem rollback_requests `{Env} `{Ctx} `{Sleep} `{Remote} `{Providers} `{Local} rounds (w : World Pack) :
  wp (rollbackCompletedPack rounds) w (λ _ w', orderly (rollback_ok (pk_record (w_db w))) (pk_pipe (w_db w)) (pk_pipe (w_db w'))).
Proof. by apply rollback_ordered. Qed.

(** * A drive that does what it says *)

Abbreviation drive := (gmap string DriveFile).

Definition children (d : drive) (parent : string) : list DriveFile := base.filter (λ f, df_ParentID f = parent) (map_to_list d).*2.

Definition changes_drive (a : action) : bool :=
  match a with
  | ARename _ _ _ _ | AMove _ _ _ _ | ADelete _ _ _ | AMkdir _ _ _ _ _ | AReceive _ _ _ _ _ _ | AShareSave _ _ _ _ _ _ _
  | AInit _ _ _ | AOssComplete _ _ _ _ _ => true
  | _ => false
  end.

(** What is relied on: a listing tells the objects of the directory, in an order that depends
    on the drive alone; nothing changes the
    drive but the requests that ask for it, and those only the objects they name; a rename
    leaves an object where it is; a deletion that succeeds deletes.  What a rename or a move
    that is reported as failed has done is left open. *)
Record faithful_drive `{Remote} `{Providers} (st : history → drive) (order : drive → string → list DriveFile) : Prop := {
  fa_order : ∀ d parent, order d parent ≡ₚ children d parent;
  fa_ids : ∀ h id f, st h !! id = Some f → df_FileID f = id;
  fa_list : ∀ h acc parent offset page total, rm_list h "115" acc parent offset 1000 = Ok (page, total) →
    page = take 1000 (drop (Z.to_nat offset) (order (st h) parent)) ∧ total = Z.of_nat (length (order (st h) parent));
  fa_read : ∀ h a, changes_drive a = false → st (h ++ [a]) = st h;
  fa_rename : ∀ h acc file name r, let d' := st (h ++ [ARename acc file name r]) in
    (∀ id, id ≠ file → d' !! id = st h !! id) ∧ df_ParentID <$> d' !! file = df_ParentID <$> st h !! file;
  fa_move : ∀ h acc ids target r id, id ∉ ids → st (h ++ [AMove acc ids target r]) !! id = st h !! id;
  fa_delete : ∀ h acc ids r id,
    (id ∉ ids → st (h ++ [ADelete acc ids r]) !! id = st h !! id) ∧ (r = Ok tt → id ∈ ids → st (h ++ [ADelete acc ids r]) !! id = None)
}.

Section Faithful.
Context `{Env} `{Ctx} `{Sleep} `{Remote} `{Providers} `{Local} (st : history → drive) (order : drive → string → list DriveFile) (Hst : faithful_drive st order).

Definition reads (before : history) (a : action) : Prop := changes_drive a = false.

Lemma reads_same s s' : orderly reads s s' → st (pi_log s') = st (pi_log s).
Proof.
  intros (l & E & Hl). rewrite E. clear E s'. induction l as [|a l IH] using rev_ind; [by rewrite app_nil_r|].
  rewrite app_assoc, (fa_read st order Hst) by (by apply (Hl l a [])). apply IH.
  intros l1 b l2 ->. apply (Hl l1 b (l2 ++ [a])). by rewrite <-app_assoc.
Qed.

Lemma elem_of_children d parent f : (∀ id f, d !! id = Some f → df_FileID f = id) →
  f ∈ children d parent ↔ d !! df_FileID f = Some f ∧ df_ParentID f = parent.
Proof.
  intros Hids. unfold children. rewrite list_elem_of_filter, list_elem_of_fmap. split.
  - intros [Hp ([k v] & -> & Hv%elem_of_map_to_list)]. simpl in *. by rewrite (Hids k v Hv).
  - intros [Hv Hp]. split; [done|]. exists (df_FileID f, f). split; [done|]. by apply elem_of_map_to_list.
Qed.

Lemma children_nodup d parent : (∀ id f, d !! id = Some f → df_FileID f = id) → NoDup (df_FileID <$> children d parent).
Proof.
  intros Hids. unfold children.
  assert (NoDup (df_FileID <$> (map_to_list d).*2)) as Hall.
  { rewrite <-list_fmap_compose. rewrite (list_fmap_ext _ fst); [apply NoDup_fst_map_to_list|].
    intros i [k v] Hk. apply list_elem_of_lookup_2, elem_of_map_to_list in Hk. simpl. by apply Hids. }
  induction (map_to_list d).*2 as [|f l IH]; [constructor|]. rewrite filter_cons. csimpl in Hall. apply NoDup_cons in Hall as [Hf Hall].
  case_decide; [|by apply IH]. csimpl. apply NoDup_cons. split; [|by apply IH].
  rewrite list_elem_of_fmap. intros (g & Hg & [_ Hin]%list_elem_of_filter). apply Hf. rewrite Hg. by apply list_elem_of_fmap_2.
Qed.

Lemma folder_map_lookup l id f :
  NoDup (df_FileID <$> l) → folder_map_of l !! id = Some f ↔ f ∈ l ∧ df_FileID f = id.
Proof.
  unfold folder_map_of. induction l as [|g l IH] using rev_ind; intros Hnd; simpl.
  { rewrite lookup_empty, elem_of_nil. naive_solver. }
  rewrite fmap_app in Hnd. apply NoDup_app in Hnd as (Hnd & Hd & _). rewrite foldl_app. simpl.
  rewrite elem_of_app, list_elem_of_singleton. destruct (decide (id = df_FileID g)) as [->|Hne].
  - rewrite lookup_insert_eq. split; [intros [= ->]; tauto|]. intros [[Hin| ->] Hid]; [|done].
    exfalso. apply (Hd (df_FileID g)); [rewrite <-Hid; by apply list_elem_of_fmap_2|by left].
  - rewrite lookup_insert_ne, IH by done. naive_solver.
Qed.

Lemma take_own_length {A} n (l : list A) : take n l = take (length (take n l)) l.
Proof.
  rewrite length_take. destruct (decide (n ≤ length l)); [by rewrite Nat.min_l|]. by rewrite Nat.min_r, !take_ge by lia.
Qed.

(** The pages of a listing are the whole directory. *)
Lemma pages_children parent log pages offset :
  (0 ≤ offset)%Z → consecutive offset pages → told parent log pages →
  concat (lp_files <$> pages) = drop (Z.to_nat offset) (order (st log) (or_root parent)).
Proof.
  revert offset log. induction pages as [|p pages IH]; intros offset log Hoff Hc Ht; [done|]. destruct Hc as [Hpo Hrest].
  pose proof (Ht [] p pages eq_refl) as Hp. simpl in Hp. rewrite app_nil_r in Hp. apply (fa_list st order Hst) in Hp as [Hfiles Htotal].
  rewrite Hpo in Hfiles. set (all := order (st log) (or_root parent)) in *.
  assert (lp_files p = take (length (lp_files p)) (drop (Z.to_nat offset) all)) as Htake.
  { rewrite Hfiles. by apply take_own_length. }
  destruct pages as [|q pages].
  - cbv zeta in Hrest. rewrite Htotal in Hrest. simpl. rewrite app_nil_r, Htake. apply take_ge. rewrite length_drop. lia.
  - specialize (IH (offset + Z.of_nat (length (lp_files p)))%Z (log ++ [page_action parent p]) ltac:(lia) Hrest).
    rewrite (fa_read st order Hst) in IH by done. fold all in IH. rewrite fmap_cons. cbn [concat]. rewrite IH.
    + rewrite Htake at 1. rewrite Z2Nat.inj_add, Nat2Z.id, <-drop_drop by lia. apply take_drop.
    + intros ps1 x ps2 Hx. specialize (Ht (p :: ps1) x ps2). simpl in Ht. rewrite Hx in Ht. specialize (Ht eq_refl).
      by rewrite <-app_assoc.
Qed.

Lemma listing_lookup parent log pages id f :
  consecutive 0 pages → told parent log pages →
  folder_map_of (concat (lp_files <$> pages)) !! id = Some f ↔ st log !! id = Some f ∧ df_ParentID f = or_root parent.
Proof.
  intros Hc Ht. rewrite (pages_children parent log pages 0) by done. change (drop (Z.to_nat 0) ?l) with l.
  pose proof (fa_ids st order Hst log) as Hids. pose proof (fa_order st order Hst (st log) (or_root parent)) as Hperm.
  rewrite folder_map_lookup by (rewrite Hperm; by apply children_nodup). rewrite Hperm, elem_of_children by done. split; [intros [[? ?] <-]; done|]. intros [Hf Hp]. by rewrite (Hids _ _ Hf).
Qed.

Lemma folder_is_inv files cid name :
  replacementFolderIs files cid name = true → ∃ f, files !! cid = Some f ∧ df_IsFolder f = true ∧ df_Name f = name.
Proof.
  unfold replacementFolderIs. destruct (files !! cid) as [f|]; [|done]. rewrite !andb_true_iff, bool_decide_eq_true.
  intros [[Hf Hn] _]. eauto.
Qed.

Abbreviation state_of w := (st (pi_log (pk_pipe (w_db (w : World Pack))))).

Lemma lists_read s s' : orderly only_lists s s' → st (pi_log s') = st (pi_log s).
Proof. intros Ho. apply reads_same. eapply orderly_weaken; [|exact Ho]. by intros h []. Qed.

Lemma remove_owned_reads path owned : keeps (orderly reads) (removeOwnedReplacementRoot path owned).
Proof.
  unfold removeOwnedReplacementRoot. destruct owned as [o|]; [|apply keeps_ret, _].
  apply keeps_bind; [apply _|apply keeps_attempt; by apply ord_call|]. intros [i|e].
  - destruct (_ || _); [apply keeps_throw, _|by apply ord_call].
  - destruct (is_not_exist e); [apply keeps_ret, _|apply keeps_throw, _].
Qed.

Lemma restore_strm_reads p :
  keeps (on_log (orderly reads))
    (info ← on_pipe (attempt (os_info (LLstat (join_path [cp_BackupDir p; "strm"]))));
     match info with
     | Ok _ =>
         _ ← on_pipe (removeOwnedReplacementRoot (join_path [cp_STRMBase p; cp_OldFolder p]) (cp_CanonicalSTRMInfo p));
         _ ← on_pipe (wrap "restore old STRM snapshot: "
               (os_do (LRename (join_path [cp_BackupDir p; "strm"]) (join_path [cp_STRMBase p; cp_OldFolder p]))));
         modify (set_CanonicalSTRMInfo None)
     | Err e => if is_not_exist e then mret tt else throw e
     end).
Proof.
  apply keeps_bind; [apply _|apply keeps_on_pipe, keeps_attempt; by apply ord_call|]. intros [i|e].
  - apply keeps_bind; [apply _|apply keeps_on_pipe, remove_owned_reads|]. intros _.
    apply keeps_bind; [apply _|apply keeps_on_pipe, keeps_wrap; by apply ord_call|]. intros _. apply keeps_modify, _.
  - destruct (is_not_exist e); [apply keeps_ret, _|apply keeps_throw, _].
Qed.

Section Restores.
Context (rounds : nat) (p0 : completedPackReplacement).
Hypothesis Hnew : trim_space (cp_NewCID p0) = cp_NewCID p0.
Hypothesis Hold : trim_space (cp_OldCID p0) = cp_OldCID p0.
Hypothesis Hsome : cp_NewCID p0 ≠ "".
Hypothesis Hdiff : cp_NewCID p0 ≠ cp_OldCID p0.

(** Only the two folders differ. *)
Definition others_kept (d d' : drive) : Prop := ∀ id, id ≠ cp_OldCID p0 → id ≠ cp_NewCID p0 → d' !! id = d !! id.
Definition staged_in_library (d : drive) : Prop :=
  df_ParentID <$> d !! cp_NewCID p0 = Some (or_root (cp_LibraryCID p0)).

Lemma restore_cutover_drive w :
  pk_record (w_db w) = p0 →
  wp (restore_cutover rounds) w (λ r w', r = Ok tt → others_kept (state_of w) (state_of w') ∧ staged_in_library (state_of w')).
Proof.
  intros Hp. unfold restore_cutover. apply wp_bind, wp_gets. rewrite Hp. unfold id.
  apply wp_bind, wp_on_pipe, wp_wrap, wp_folders; [done|].
  intros library pg1 w1 Ho1 _ Hc Ht Hlib. apply lists_read in Ho1. rewrite Hp.
  apply wp_bind, wp_on_pipe, wp_wrap, wp_folders; [done|].
  intros quarantine pg2 w2 Ho2 _ _ _ _. apply lists_read in Ho2. cbn [wrap_err w_db w_tick pk_pipe pk_record] in *.
  assert (∀ name, replacementFolderIs library (cp_NewCID p0) name = true → staged_in_library (st (pi_log (pk_pipe (w_db w))))) as Hstaged.
  { intros name (f & Hf & _)%folder_is_inv. rewrite Hlib in Hf. apply (listing_lookup _ _ _ _ _ Hc Ht) in Hf as [Hf Hpar].
    unfold staged_in_library. rewrite Hf. simpl. by rewrite Hpar. }
  assert (st (pi_log (w_db w2)) = st (pi_log (pk_pipe (w_db w)))) as E by congruence. clear Ho1 Ho2 Hc Ht Hlib w1 pg1 pg2.
  destruct (negb _ && negb _); [by apply wp_lift|]. apply wp_bind.
  eapply (wp_mono _ _ (λ r w', r = Ok tt → others_kept (state_of w) (state_of w') ∧ staged_in_library (state_of w'))).
  { destruct (replacementFolderIs library (cp_NewCID p0) (cp_OldFolder p0)) eqn:H1'.
    - apply wp_on_pipe, wp_wrap, wp_rename; [done|]. intros a w3 Hl _. cbn [w_db w_tick pk_pipe] in *. rewrite Hnew in Hl. rewrite Hl.
      destruct (fa_rename st order Hst (pi_log (w_db w2)) a (cp_NewCID p0) (trim_space (cp_NewFolder p0))
        (sv_rename (pi_log (w_db w2)) a (cp_NewCID p0) (trim_space (cp_NewFolder p0)))) as [Hframe Hparent].
      split; [intros id ? ?; rewrite Hframe by done; by rewrite E|]. unfold staged_in_library. rewrite Hparent, E. by eapply Hstaged.
    - rewrite bool_decide_false by done. cbn [negb andb].
      destruct (replacementFolderIs library (cp_NewCID p0) (cp_NewFolder p0)) eqn:H2'; [|by apply wp_lift]. apply wp_ret. intros _. simpl.
      rewrite E. split; [done|by eapply Hstaged]. }
  intros [[]|e] w3 Hk3; [|done]. specialize (Hk3 eq_refl). clear Hstaged E w2. apply wp_bind.
  eapply (wp_mono _ _ (λ r w', r = Ok tt → others_kept (state_of w) (state_of w') ∧ staged_in_library (state_of w'))).
  { destruct (replacementFolderIs quarantine _ _); [|by apply wp_ret]. apply wp_on_pipe, wp_wrap, wp_move; [done|].
    intros a w4 r Hl _. simpl. rewrite Hl, Hold. cbn [w_db].
    assert (∀ id, id ≠ cp_OldCID p0 → st (pi_log (pk_pipe (w_db w3)) ++ [AMove a [cp_OldCID p0] (trim_space (cp_LibraryCID p0)) r]) !! id = state_of w3 !! id) as Hframe.
    { intros id Hid. apply (fa_move st order Hst). by intros ->%list_elem_of_singleton. }
    destruct Hk3 as [Hk Hs]. unfold r in *. simpl. split; [intros id ? ?; rewrite Hframe by done; by apply Hk|].
    unfold staged_in_library. rewrite Hframe by done. exact Hs. }
  intros [[]|e] w4 Hk4; [|done]. specialize (Hk4 eq_refl).
  eapply wp_mono; [apply restore_strm_reads|]. intros r w5 Ho _. apply reads_same in Ho. rewrite Ho. exact Hk4.
Qed.

Lemma recycle_drive c w :
  cp_CutoverStarted p0 = true → pk_record (w_db w) = set_CanonicalSTRMInfo c p0 → staged_in_library (state_of w) →
  wp (recycle_staging rounds) w (λ r w', r = Ok tt → others_kept (state_of w) (state_of w') ∧ state_of w' !! cp_NewCID p0 = None ∧
    ∃ f, state_of w' !! cp_OldCID p0 = Some f ∧ df_ParentID f = or_root (cp_LibraryCID p0) ∧ df_Name f = cp_OldFolder p0 ∧ df_IsFolder f = true).
Proof.
  intros Hcut Hp Hs. unfold recycle_staging. apply wp_bind, wp_gets. rewrite Hp. unfold id.
  cbn [cp_NewCID cp_OldCID cp_AccountID cp_LibraryCID cp_CutoverStarted cp_OldFolder cp_NewFolder set_CanonicalSTRMInfo].
  rewrite bool_decide_false by done. apply wp_bind, wp_on_pipe, wp_folders; [done|].
  intros files pages w1 Ho _ Hc Ht Hfiles. apply lists_read in Ho. cbn [w_db w_tick pk_pipe pk_record] in *.
  rewrite Hcut. cbn [andb]. destruct (replacementFolderIs files (cp_OldCID p0) (cp_OldFolder p0)) eqn:Hback; cbn [negb]; [|by apply wp_lift].
  apply folder_is_inv in Hback as (f & Hf & Hdir & Hname). rewrite Hfiles in Hf.
  apply (listing_lookup _ _ _ _ _ Hc Ht) in Hf as [Hf Hpar].
  assert (is_Some (files !! cp_NewCID p0)) as Hin.
  { unfold staged_in_library in Hs. destruct (state_of w !! cp_NewCID p0) as [g|] eqn:Hg; [|done]. simpl in Hs. injection Hs as Hs.
    exists g. rewrite Hfiles. by apply (listing_lookup _ _ _ _ _ Hc Ht). }
  rewrite (bool_decide_true (is_Some _)) by done. apply wp_bind.
  destruct (replacementFolderIs files (cp_NewCID p0) _); cbn [negb]; [|by apply wp_lift].
  apply wp_on_pipe, wp_wrap, wp_delete; [done|]. intros a w2 r Hl. cbn [w_db] in Hl. rewrite Hnew in Hl.
  destruct r as [[]|e] eqn:Hr; [|done]. apply wp_modify_record. intros _. simpl. rewrite Hl. cbn [w_db] in Hr.
  pose proof (fa_delete st order Hst (pi_log (w_db w1)) a [cp_NewCID p0] (Ok tt)) as Hdel.
  assert (∀ id, id ≠ cp_NewCID p0 → st (pi_log (w_db w1) ++ [ADelete a [cp_NewCID p0] (Ok tt)]) !! id = state_of w !! id) as Hframe.
  { intros id Hid. rewrite <-Ho. apply (Hdel id). by intros ->%list_elem_of_singleton. }
  split; [intros id ? ?; by apply Hframe|]. split; [apply (Hdel (cp_NewCID p0)); [done|by left]|].
  exists f. rewrite Hframe by done. done.
Qed.
End Restores.
End Faithful.

(** What a rollback owes the library: the old folder is back in it under its own name, the
    staged folder is gone, and nothing else on the drive has changed. *)
Definition rolled_back (p : completedPackReplacement) (d d' : drive) : Prop :=
  (∃ f, d' !! cp_OldCID p = Some f ∧ df_ParentID f = or_root (cp_LibraryCID p) ∧ df_Name f = cp_OldFolder p ∧ df_IsFolder f = true) ∧
  d' !! cp_NewCID p = None ∧
  ∀ id, id ≠ cp_OldCID p → id ≠ cp_NewCID p → d' !! id = d !! id.

(** C10: On a drive that does what it says, whatever requests fail on the way, a rollback of
    a started cutover that reports success has put the old folder back into its library
    under its own name, has deleted the staged folder, and has left every other object as
    it was. *)
Theorem rollback_restores `{Env} `{Ctx} `{Sleep} `{Remote} `{Providers} `{Local} (st : history → drive) (order : drive → string → list DriveFile)
    rounds (w : World Pack) :
  faithful_drive st order →
  let p := pk_record (w_db w) in
  cp_CutoverStarted p = true → cp_Finalized p = false → cp_RolledBack p = false → cp_NewCID p ≠ "" →
  trim_space (cp_NewCID p) = cp_NewCID p → trim_space (cp_OldCID p) = cp_OldCID p →
  wp (rollbackCompletedPack rounds) w (λ r w', r = Ok tt →
    rolled_back p (st (pi_log (pk_pipe (w_db w)))) (st (pi_log (pk_pipe (w_db w'))))).
Proof.
  intros Hst p Hcut Hfin Hrb Hsome Hnew Hold. unfold rollbackCompletedPack. apply wp_bind, wp_gets. unfold id. fold p.
  rewrite Hfin, Hrb. cbn [orb]. destruct (_ && _) eqn:Halias; [by apply wp_lift|].
  rewrite bool_decide_false in Halias by done. cbn [negb andb] in Halias. apply bool_decide_eq_false in Halias.
  rewrite Hcut. apply wp_bind. eapply wp_mono; [apply wp_and; [by apply (restore_cutover_drive st order Hst)|by apply (restore_cutover_ok rounds p)]|].
  intros [[]|e] w1 [Hd1 [_ Hr1]]; [|done]. destruct (Hd1 eq_refl) as [Hk1 Hs1]. destruct (Hr1 eq_refl) as [c Hc]. clear Hd1 Hr1.
  apply wp_bind. eapply wp_mono; [by apply (recycle_drive st order Hst rounds p Hnew Hsome Halias c)|].
  intros [[]|e] w2 Hd2; [|done]. destruct (Hd2 eq_refl) as (Hk2 & Hgone & Hback). clear Hd2.
  apply wp_bind, wp_on_pipe. eapply wp_mono; [apply remove_owned_reads|]. cbn [w_db w_tick pk_pipe].
  intros [[]|e] w3 Ho3; [|done]. apply (reads_same st order Hst) in Ho3. cbn [w_db] in Ho3.
  eapply wp_mono; [apply restore_users_plays|]. intros r w4 Ho4 _.
  assert (orderly reads (w_db w3) (pk_pipe (w_db w4))) as Ho5 by (by eapply orderly_weaken; [|exact Ho4]; intros h []).
  apply (reads_same st order Hst) in Ho5. unfold rolled_back. rewrite Ho5, Ho3. split; [exact Hback|]. split; [exact Hgone|].
  intros id Hid Hid'. by rewrite Hk2, Hk1.
Qed.

(** * A rollback on a concrete drive *)

Section Sample.

Definition set_parent (p : string) (f : DriveFile) : DriveFile :=
  mkFile (df_FileID f) p (df_Name f) (df_Size f) (df_PickCode f) (df_Sha1 f) (df_Revision f) (df_IsFolder f) (df_UpdatedTime f).
Definition set_name (n : string) (f : DriveFile) : DriveFile :=
  mkFile (df_FileID f) (df_ParentID f) n (df_Size f) (df_PickCode f) (df_Sha1 f) (df_Revision f) (df_IsFolder f) (df_UpdatedTime f).

(** The drive the requests acknowledged so far leave. *)
Definition change_drive (d : drive) (a : action) : drive :=
  match a with
  | ARename _ file name (Ok _) => alter (set_name name) file d
  | AMove _ ids target (Ok _) => foldr (alter (set_parent target)) d ids
  | ADelete _ ids (Ok _) => foldr delete d ids
  | _ => d
  end.

(** After the renaming of a cutover: the old folder in quarantine, the staged one in its
    place, another folder besides. *)
Definition drive_before : drive :=
  list_to_map [("old", folder "old" "quarantine" "Show"); ("new", folder "new" "library" "Show"); ("other", folder "other" "library" "Other")].
Definition drive_after (h : history) : drive := foldl change_drive drive_before h.

Definition replaced_drives : Remote :=
  let r := static_remote (λ _, []) (λ _, []) in {|
  rm_list h _ _ parent offset limit :=
    Ok (take (Z.to_nat limit) (drop (Z.to_nat offset) (children (drive_after h) parent)), Z.of_nat (length (children (drive_after h) parent)));
  rm_mkdir := @rm_mkdir r; rm_share_token := @rm_share_token r; rm_share_page := @rm_share_page r;
  rm_share_save := @rm_share_save r; rm_save_task := @rm_save_task r; rm_nas := @rm_nas r;
  rm_libraries := @rm_libraries r; rm_item := @rm_item r; rm_missing := @rm_missing r; rm_sync := @rm_sync r;
  rm_scan _ := Ok tt; rm_mounts := @rm_mounts r; rm_init := @rm_init r; rm_oss_token := @rm_oss_token r;
  rm_oss_client := @rm_oss_client r; rm_oss_bucket := @rm_oss_bucket r; rm_oss_start := @rm_oss_start r;
  rm_oss_parts := @rm_oss_parts r; rm_oss_part := @rm_oss_part r; rm_oss_complete := @rm_oss_complete r;
  rm_oss_abort := @rm_oss_abort r |}.

Definition restored_series : EmbyMediaItem :=
  mkMedia "series" "Show" "" "Series" "/strm/tv/Show" "" false false {["Tmdb" := "42"]}.
Definition willing : Providers := {|
  sv_snap _ _ _ _ _ _ := unreachable; sv_receive _ _ _ _ _ _ := unreachable;
  sv_rename _ _ _ _ := Ok tt; sv_move _ _ _ _ := Ok tt; sv_delete _ _ _ := Ok tt; sv_search _ _ _ _ := unreachable;
  sv_series _ _ := Ok [restored_series]; sv_refresh _ _ := unreachable;
  sv_inventory _ _ := ([mkPage [] (Some 0%Z)], ErrText "no more pages");
  sv_users _ := unreachable; sv_user_data _ _ _ := unreachable; sv_set_user_data _ _ _ _ := unreachable;
  sv_sessions _ := unreachable |}.
(** No STRM tree was moved yet. *)
Definition no_snapshot : Local := {|
  lo_do _ _ := unreachable; lo_info _ _ := Err (ErrNotExist "strm"); lo_text _ _ := unreachable; lo_names _ _ := unreachable;
  lo_walk _ _ := ([], None); lo_cwd := "/" |}.

#[local] Existing Instances quiet calm exact_sleep replaced_drives willing no_snapshot.

Definition sample_pack : completedPackReplacement :=
  mkPack "lib" "TV" "library" "c" "old-series" "Show" "old" "/strm/tv/Show" "Show.staged" "new" "42" ∅ ∅ "/media" "/strm/tv"
    None None "/strm/backup" "quarantine" [] [] true false false false.
Definition failed_cutover : World Pack :=
  mkWorld 0 (mkPackState (mkPipe (set_accounts {["c" := account_row "115"]} empty_database) ∅ []) sample_pack).

Definition own_ids (d : drive) : Prop := ∀ id f, d !! id = Some f → df_FileID f = id.

Lemma alter_ids g d id : (∀ f, df_FileID (g f) = df_FileID f) → own_ids d → own_ids (alter g id d).
Proof. intros Hg Hd i f [(-> & h & Hh & ->)|[_ Hf]]%lookup_alter_Some; [by rewrite Hg; apply Hd|by apply Hd]. Qed.

Lemma delete_ids id d : own_ids d → own_ids (delete id d).
Proof. intros Hd i f [_ Hf]%lookup_delete_Some. by apply Hd. Qed.

Lemma change_ids d a : own_ids d → own_ids (change_drive d a).
Proof.
  intros Hd. destruct a; try exact Hd; destruct answer as [[]|e]; try exact Hd; simpl.
  - by apply alter_ids.
  - induction files as [|i ids IH]; [done|]. by apply alter_ids.
  - induction files as [|i ids IH]; [done|]. by apply delete_ids.
Qed.

Lemma after_one h a : drive_after (h ++ [a]) = change_drive (drive_after h) a.
Proof. unfold drive_after. by rewrite foldl_app. Qed.

Lemma replaced_faithful : faithful_drive drive_after children.
Proof.
  split.
  - done.
  - intros h. change (own_ids (drive_after h)). induction h as [|a h IH] using rev_ind; [|rewrite after_one; by apply change_ids].
    apply map_Forall_to_list. vm_compute. by repeat constructor.
  - by intros h acc parent offset page total [= <- <-].
  - intros h a Ha. rewrite after_one. by destruct a.
  - intros h acc file name r d'. subst d'. rewrite after_one. destruct r as [[]|e]; simpl; [|done]. split.
    + intros id Hid. by rewrite lookup_alter_ne.
    + rewrite lookup_alter_eq. by destruct (drive_after h !! file).
  - intros h acc ids target r id Hid. rewrite after_one. destruct r as [[]|e]; simpl; [|done].
    induction ids as [|i ids IH]; [done|]. apply not_elem_of_cons in Hid as [Hi Hid]. simpl. rewrite lookup_alter_ne by done. by apply IH.
  - intros h acc ids r id. rewrite after_one. split.
    + intros Hid. destruct r as [[]|e]; simpl; [|done]. induction ids as [|i ids IH]; [done|].
      apply not_elem_of_cons in Hid as [Hi Hid]. simpl. rewrite lookup_delete_ne by done. by apply IH.
    + intros ->. simpl. induction ids as [|i ids IH]; [by intros ?%elem_of_nil|]. intros [->|Hid]%elem_of_cons; simpl.
      * by rewrite lookup_delete_eq.
      * destruct (decide (i = id)) as [->|Hi]; [by rewrite lookup_delete_eq|]. rewrite lookup_delete_ne by done. by apply IH.
Qed.

Example rollback_runs : (rollbackCompletedPack 2 failed_cutover).1 = Ok tt.
Proof. by vm_compute. Qed.

Lemma rollback_restores_witness :
  wp (rollbackCompletedPack 2) failed_cutover (λ r w', r = Ok tt →
    rolled_back sample_pack drive_before (drive_after (pi_log (pk_pipe (w_db w'))))).
Proof. apply (rollback_restores drive_after children 2 failed_cutover replaced_faithful); [reflexivity..|done|reflexivity|reflexivity]. Defined.
End Sample.
