(* ===== verification/Rounds.v ===== *)
(** The rounds that bound the loops of [Service.v], [Autofill.v] and [Replacement.v] are
    enough: more of them change no snapshot of a share, the waits for the mount end before
    them, and a listing ends within them when they exceed the totals the drive claims. *)
From S2P Require Import Prelude GoStrings GoPath Sql Schema Accounts Payload FileSys Remote Drive Destination DestinationProofs.
From S2P Require Import Service Local Autofill Replacement ReplacementProofs ImportSample.

(** ** Snapshots of a share *)

Section Snapshots.
Context `{Env} `{Ctx} `{Sleep} `{Remote} `{Providers}.

Definition within_limit (entries : list ShareEntry) : Prop := (Z.of_nat (length entries) ≤ snapMaxEntries)%Z.

Lemma add_snap_item_grows cid entries i entries' :
  add_snap_item cid entries i = Ok entries' → within_limit entries → within_limit entries' ∧ length entries ≤ length entries'.
Proof.
  unfold add_snap_item, within_limit. cbv zeta. set (id := if blank (trim_space (si_fid i)) then _ : string else _). destruct (blank id); [intros [= <-]; lia|].
  destruct (bool_decide (id ∈ _)); [done|].
  destruct (if blank (trim_space _) then Ok 0%Z else _) as [size|e]; [|done]. cbn [mbind res_bind].
  destruct (Z.ltb snapMaxEntries _) eqn:E; [done|].
  apply Z.ltb_ge in E. intros [= <-] _. rewrite length_app in *. simpl in *. lia.
Qed.

Lemma snap_items_grow cid items entries entries' :
  res_fold (add_snap_item cid) items entries = Ok entries' → within_limit entries → within_limit entries' ∧ length entries ≤ length entries'.
Proof.
  revert entries. induction items as [|i items IH]; intros entries; simpl; [intros [= <-]; by split|].
  destruct (add_snap_item cid entries i) as [entries1|e] eqn:E1; [|done]. simpl. intros E Hl.
  destruct (add_snap_item_grows _ _ _ _ E1 Hl) as [Hl1 Hlen]. destruct (IH _ E Hl1). split; [done|lia].
Qed.

(** More rounds than are left to add entries change nothing. *)
Lemma snap_pages_more a shareCode receiveCode cid more rounds offset title entries w :
  within_limit entries → (snapMaxEntries + 2 ≤ Z.of_nat (rounds + length entries))%Z →
  snap_pages a shareCode receiveCode cid (rounds + more) offset title entries w =
  snap_pages a shareCode receiveCode cid rounds offset title entries w.
Proof.
  revert offset title entries w. induction rounds as [|rounds IH]; intros offset title entries w Hl Hr; [unfold within_limit in Hl; simpl in Hr; lia|].
  cbn [snap_pages Nat.add]. unfold mbind, m_bind. destruct (attempt _ w) as [[[p|e]|e] w1]; [|done|done].
  destruct (negb (sp_State p)); [done|]. cbv zeta.
  destruct (res_fold (add_snap_item cid) (sp_List p) entries) as [listed|e] eqn:Hfold; [|done].
  destruct (snap_items_grow _ _ _ _ Hfold Hl) as [Hl' Hlen].
  destruct (_ && bool_decide (length listed = length entries)) eqn:Hstuck; [done|].
  destruct (Z.ltb snapMaxEntries _); [done|]. destruct (Z.ltb 0 _ && Z.leb _ _); [done|].
  destruct (Z.ltb _ snapPageSize) eqn:Hshort; [done|]. apply IH; [done|].
  apply Z.ltb_ge in Hshort. apply andb_false_iff in Hstuck as [Hz|Hne].
  - apply bool_decide_eq_false in Hz. unfold snapPageSize in Hshort. lia.
  - apply bool_decide_eq_false in Hne. lia.
Qed.

(** [snap_rounds] rounds are as good as any number of them. *)
Theorem snap_rounds_enough a shareCode receiveCode cid more w :
  snap_pages a shareCode receiveCode cid (snap_rounds + more) 0 "" [] w = snapshotShareEntries a shareCode receiveCode cid w.
Proof.
  apply snap_pages_more; [unfold within_limit, snapMaxEntries; simpl; lia|].
  rewrite Nat.add_0_r. unfold snap_rounds. rewrite Nat2Z.inj_add, Z2Nat.id by (unfold snapMaxEntries; lia). lia.
Qed.
End Snapshots.

(** ** Waits for the mount *)

Section Waits.
Context `{Env} `{Ctx} `{Sleep} `{Remote} `{Local}.

Lemma later_sleep d : (∀ n d, n ≤ wake n d) → later (sleepContext d).
Proof. intros Hs w. unfold sleepContext. destruct (ctx_done _); simpl; [lia|apply Hs]. Qed.

Lemma poll_total {A} (round : M Pipe (A + error)) pause deadline rounds w :
  fair_clock → later round → (second ≤ pause)%Z → (deadline - env_now (w_tick w) < (Z.of_nat rounds - 1) * pause)%Z →
  wp (poll round pause deadline rounds) w (λ r _, r ≠ Ok None) ∨ rounds = 0.
Proof.
  intros [Hmono Hsleep] Hround Hpause. revert w. induction rounds as [|rounds IH]; intros w Hleft; [by right|left]; cbn [poll].
  apply wp_bind, wp_later; [done|]. intros [[a|late]|e] w1 Hq1; [by apply wp_ret| |done].
  apply wp_bind, wp_now_at. destruct (Z.ltb deadline _) eqn:Hlate; [by apply wp_lift|]. apply Z.ltb_ge in Hlate.
  apply wp_bind. unfold wp at 1, sleepContext. simpl. destruct (ctx_done _); [done|]. set (w2 := mkWorld _ _).
  assert (env_now (w_tick w) + pause ≤ env_now (w_tick w2))%Z as Hnow.
  { unfold w2. simpl. pose proof (proj2 (Hsleep (S (w_tick w1)) pause)). pose proof (Hmono (w_tick w) (S (w_tick w1)) ltac:(lia)). lia. }
  destruct (IH w2 ltac:(lia)) as [Hw| ->]; [exact Hw|].
  exfalso. pose proof (Hmono (w_tick w) (w_tick w1) ltac:(lia)). unfold second in *. lia.
Qed.

Definition mount_poll {A} (round : M Pipe (A + error)) : M Pipe (option A) :=
  t ← now; poll round (2 * second) (t + autoFillMountWait) poll_fuel.

(** The waits for files, episodes and a replacement to appear in the mount end: with a
    clock that does not go back and sleeps that last as long as asked, a wait of two
    minutes is over within its rounds of two seconds, whatever its rounds see. *)
Theorem mount_waits_end {A} (round : M Pipe (A + error)) w :
  fair_clock → later round → (mount_poll round w).1 ≠ Ok None.
Proof.
  intros Hclock Hround. cut (wp (mount_poll round) w (λ r _, r ≠ Ok None)); [unfold wp; by destruct (mount_poll round w)|].
  unfold mount_poll. apply wp_bind, wp_now_at.
  destruct (poll_total round (2 * second) (env_now (w_tick w) + autoFillMountWait) poll_fuel (tick w (w_db w)) Hclock Hround ltac:(done)) as [Hw|Hz];
    [|exact Hw|unfold poll_fuel in Hz; lia].
  pose proof (clock_monotone Hclock (w_tick w) (S (w_tick w)) ltac:(lia)). simpl.
  assert (Z.of_nat poll_fuel = 62)%Z as -> by (by unfold poll_fuel).
  change autoFillMountWait with (120 * second)%Z. unfold second in *. lia.
Qed.
End Waits.

(** ** Listings of folders *)

Section Listings.
Context `{Env} `{Ctx} `{Sleep} `{Remote} `{Providers} (most : Z).
Hypothesis Hmost : ∀ h a parent offset page total, rm_list h "115" a parent offset 1000 = Ok (page, total) → (total ≤ most)%Z.

Lemma folder_pages_end libraryCID folderName rounds offset matches w :
  rounds ≠ 0 → (0 ≤ offset)%Z → (most < offset + Z.of_nat rounds)%Z →
  wp (folder_pages libraryCID folderName rounds offset matches) w (λ r _, r ≠ Ok None).
Proof.
  revert offset matches w. induction rounds as [|rounds IH]; intros offset matches w Hz Hoff Hleft; [done|]. cbn [folder_pages].
  apply wp_bind, wp_listFiles; [done|done|done|]. intros a files total w1 Hl _. apply Hmost in Hl. cbv zeta.
  destruct (_ || _) eqn:Hend; [by apply wp_ret|]. rewrite orb_false_iff, bool_decide_eq_false, Z.leb_gt in Hend. apply IH; lia.
Qed.

Lemma folder_rounds_end accountID parentCID rounds offset files w :
  rounds ≠ 0 → (0 ≤ offset)%Z → (most < offset + Z.of_nat rounds)%Z →
  wp (folder_rounds accountID parentCID rounds offset files) w (λ r _, r ≠ Ok None).
Proof.
  revert offset files w. induction rounds as [|rounds IH]; intros offset files w Hz Hoff Hleft; [done|]. cbn [folder_rounds].
  apply wp_bind, wp_listFiles; [done|done|done|]. intros a page total w1 Hl _. apply Hmost in Hl. cbv zeta.
  destruct (_ || _) eqn:Hbad; [by apply wp_lift|]. rewrite orb_false_iff, andb_false_iff, Z.ltb_ge, Z.ltb_ge, Z.eqb_neq in Hbad.
  apply wp_bind, wp_lift. destruct (res_fold _ _ _) as [files'|e]; [|done].
  destruct (Z.eqb _ _) eqn:Hend; [by apply wp_ret|]. apply Z.eqb_neq in Hend. apply IH; lia.
Qed.

(** Every attempt of the search for a folder ends. *)
Lemma folder_attempts_end libraryCID folderName rounds attempts w :
  (Z.max 0 most < Z.of_nat rounds)%Z → wp (folder_attempts libraryCID folderName rounds attempts) w (λ r _, r ≠ Ok None).
Proof.
  intros Hr. revert w. induction attempts as [|attempts IH]; intros w; [by apply wp_lift|]. cbn [folder_attempts].
  apply wp_bind. eapply wp_mono; [apply folder_pages_end; lia|]. intros [[[|cid [|cid' l]]|]|e] w1 Hm; [|by apply wp_ret|by apply wp_lift|done|done].
  apply wp_bind. destruct (bool_decide _); [apply wp_ret, IH|]. apply wp_sleep; [done|]. intros n. apply IH.
Qed.

(** With more rounds than the drive claims objects, neither loop runs out of them. *)
Theorem listings_end rounds w :
  (Z.max 0 most < Z.of_nat rounds)%Z →
  (∀ libraryCID folderName, (folder_attempts libraryCID folderName rounds autoFillFolderVisibilityAttempts w).1 ≠ Ok None) ∧
  (∀ accountID parentCID, (folder_rounds accountID parentCID rounds 0 ∅ w).1 ≠ Ok None).
Proof.
  intros Hr. split.
  - intros c f. pose proof (folder_attempts_end c f rounds autoFillFolderVisibilityAttempts w Hr) as Hw. unfold wp in Hw.
    by destruct (folder_attempts _ _ _ _ w).
  - intros a p. pose proof (folder_rounds_end a p rounds 0 ∅ w ltac:(lia) ltac:(lia) ltac:(lia)) as Hw. unfold wp in Hw.
    by destruct (folder_rounds _ _ _ _ _ w).
Qed.
End Listings.

(** ** The wait for files, of a file that never appears *)

Section Sample.
#[local] Existing Instances quiet calm exact_sleep sample_drives no_snapshot.

Lemma later_missing paths : later (missing_files paths).
Proof.
  unfold missing_files. apply later_fold. intros missing path. apply later_bind; [apply later_attempt, later_call|].
  intros [i|e]; [apply later_ret|]. destruct (is_not_exist e); [apply later_ret|apply later_throw].
Qed.

Lemma mount_waits_end_witness :
  (mount_poll (missing ← missing_files ["/media/a.mkv"]; mret (if Z.eqb missing 0 then inl tt else inr (ErrText "late"))) started).1
    ≠ Ok (None (A := unit)).
Proof.
  apply mount_waits_end.
  - split; [intros n m Hnm; simpl; lia|intros n d; simpl; lia].
  - apply later_bind; [apply later_missing|]. intros missing. apply later_ret.
Defined.
End Sample.
