(* ===== verification/AutofillRun.v ===== *)
(** A run of the automatic completion of series ([src/internal/service/autofill.go]):
    [processAutoFillSeries], one series from its candidates to its transfers, and
    [runSeriesAutoFill], the libraries, the refreshed inventory, the completed packs and the
    clean-up.  The pieces are those of [Autofill.v], [Replacement.v] and [Media.v].

    The progress the library scan reports is not modelled; the other progress is. *)
From S2P Require Import Prelude GoStrings GoPath Regexp Sql Schema TaskStore Accounts Payload Queue FileSys Episodes Remote Drive Destination.
From S2P Require Import Identity Service Local Autofill Pipeline Media Replacement.
From Stdlib Require Import Ascii.

(** ** Results *)

Record AutoFillCandidateEvidence := mkEvd {
  ce_Provider : string; ce_ResourceID : string; ce_ResourceTitle : string; ce_ShareTitle : string;
  ce_MatchedEpisodes : list string; ce_SelectedNames : list string; ce_TotalBytes : Z; ce_Decision : string;
  ce_RejectionReason : string
}.
Record AutoFillQueuedImport := mkQueued {
  qi_TaskID : string; qi_Provider : string; qi_ResourceID : string; qi_Episodes : list string; qi_SelectedNames : list string;
  qi_Bytes : Z
}.
Record SeriesAutoFillResult := mkSeriesResult {
  sr_SeriesID : string; sr_SeriesName : string; sr_Folder : string; sr_MissingEpisodes : list string;
  sr_MatchedEpisodes : list string; sr_Transferred : list string; sr_RemainingEpisodes : list string;
  sr_CandidatesChecked : Z; sr_CandidateEvidence : list AutoFillCandidateEvidence; sr_Conflicts : list AutoFillConflict;
  sr_QueuedImports : list AutoFillQueuedImport; sr_Issue : string; sr_ReplacementStatus : string; sr_ReplacementFolder : string;
  sr_ReplacementRecovery : gmap string string; sr_replacement : option completedPackReplacement;
  sr_probeErr : option error; sr_fatalErr : option error
}.
Record LibraryAutoFillResult := mkLibraryResult {
  lr_LibraryID : string; lr_LibraryName : string; lr_MissingCount : Z; lr_MatchedCount : Z; lr_TransferredCount : Z;
  lr_RemainingCount : Z; lr_SkippedSeries : Z; lr_Series : list SeriesAutoFillResult; lr_Issues : list string
}.

(** The fields that change. *)
Section Setters.
Implicit Types r : SeriesAutoFillResult.
Implicit Types l : LibraryAutoFillResult.
Definition set_remaining v r := mkSeriesResult (sr_SeriesID r) (sr_SeriesName r) (sr_Folder r) (sr_MissingEpisodes r)
  (sr_MatchedEpisodes r) (sr_Transferred r) v (sr_CandidatesChecked r) (sr_CandidateEvidence r) (sr_Conflicts r)
  (sr_QueuedImports r) (sr_Issue r) (sr_ReplacementStatus r) (sr_ReplacementFolder r) (sr_ReplacementRecovery r)
  (sr_replacement r) (sr_probeErr r) (sr_fatalErr r).
Definition set_outcome issue status r := mkSeriesResult (sr_SeriesID r) (sr_SeriesName r) (sr_Folder r) (sr_MissingEpisodes r)
  (sr_MatchedEpisodes r) (sr_Transferred r) (sr_RemainingEpisodes r) (sr_CandidatesChecked r) (sr_CandidateEvidence r)
  (sr_Conflicts r) (sr_QueuedImports r) issue status (sr_ReplacementFolder r) (sr_ReplacementRecovery r) (sr_replacement r)
  (sr_probeErr r) (sr_fatalErr r).
Definition set_replacement recovery p r := mkSeriesResult (sr_SeriesID r) (sr_SeriesName r) (sr_Folder r) (sr_MissingEpisodes r)
  (sr_MatchedEpisodes r) (sr_Transferred r) (sr_RemainingEpisodes r) (sr_CandidatesChecked r) (sr_CandidateEvidence r)
  (sr_Conflicts r) (sr_QueuedImports r) (sr_Issue r) (sr_ReplacementStatus r) (sr_ReplacementFolder r) recovery p
  (sr_probeErr r) (sr_fatalErr r).
(** The series is the new one, in the old folder. *)
Definition set_replaced newID folder r := mkSeriesResult newID (sr_SeriesName r) folder (sr_MissingEpisodes r)
  (sr_MatchedEpisodes r) (sr_Transferred r) [] (sr_CandidatesChecked r) (sr_CandidateEvidence r) (sr_Conflicts r)
  (sr_QueuedImports r) (sr_Issue r) "replaced" folder (sr_ReplacementRecovery r) (sr_replacement r) (sr_probeErr r)
  (sr_fatalErr r).

Definition set_series series issues l := mkLibraryResult (lr_LibraryID l) (lr_LibraryName l) (lr_MissingCount l)
  (lr_MatchedCount l) (lr_TransferredCount l) (lr_RemainingCount l) (lr_SkippedSeries l) series issues.
Definition set_skipped v l := mkLibraryResult (lr_LibraryID l) (lr_LibraryName l) (lr_MissingCount l) (lr_MatchedCount l)
  (lr_TransferredCount l) (lr_RemainingCount l) v (lr_Series l) (lr_Issues l).
Definition set_remaining_count v l := mkLibraryResult (lr_LibraryID l) (lr_LibraryName l) (lr_MissingCount l)
  (lr_MatchedCount l) (lr_TransferredCount l) v (lr_SkippedSeries l) (lr_Series l) (lr_Issues l).
Definition add_series r l := mkLibraryResult (lr_LibraryID l) (lr_LibraryName l) (lr_MissingCount l)
  (lr_MatchedCount l + Z.of_nat (length (sr_MatchedEpisodes r))) (lr_TransferredCount l + Z.of_nat (length (sr_Transferred r)))
  (lr_RemainingCount l) (lr_SkippedSeries l) (lr_Series l ++ [r]) (lr_Issues l).
Definition add_issue issue l := set_series (lr_Series l) (lr_Issues l ++ [issue]) l.
End Setters.

(** A series that was given up: all its gaps remain. *)
Definition refused (seriesID seriesName folder : string) (missing : list string) (probe fatal : option error) (issue : error)
    : SeriesAutoFillResult :=
  mkSeriesResult seriesID seriesName folder missing [] [] missing 0 [] [] [] (error_text issue) "" "" ∅ None probe fatal.

(** ** One series *)

Definition sourceShareForSeries (spec : seriesAutoFillSpec) (seriesID : string) : option autoFillCandidate :=
  (λ s, mkCandidate "" (sh_Provider s) "" (sh_URL s) (sh_Password s) "") <$> sp_SourceShares spec !! seriesID.

(** What the loop over the candidates gathers. *)
Record inspection := mkInspection {
  in_evidence : list AutoFillCandidateEvidence; in_errors : list error; in_checked : Z; in_inspected : list candidateMatch;
  in_issue : string; in_probe : option error
}.

(** What the loop over the chosen candidates gathers. *)
Record transfer := mkTransfer {
  tr_unmatched : gset episodeKey; tr_transferred : gset episodeKey; tr_lastError : string; tr_paths : list string;
  tr_queued : list AutoFillQueuedImport; tr_issue : string; tr_probe : option error; tr_fatal : option error
}.

Definition selection_of (e : episodeKey * autoFillLeaf) : ShareSelection :=
  mkSelection (lf_ID e.2) (lf_Revision e.2) (lf_Name e.2) (lf_Size e.2).
(** [ShareSelection] as JSON. *)
Definition encode_selection (s : ShareSelection) : value :=
  VObject ([("id", VString (sel_ID s))] ++ (if bool_decide (sel_Revision s = "") then [] else [("revision", VString (sel_Revision s))])
           ++ [("name", VString (sel_Name s)); ("size", VInt (sel_Size s))]).

(** The payload of an import that a series is waiting for. *)
Record import_binding := mkBinding {
  ib_quark : string; ib_target : string; ib_c115 : string; ib_parent : string; ib_library : EmbyLibrary; ib_libraryCID : string;
  ib_series : string; ib_tmdb : string; ib_folder : string
}.
Definition import_payload (b : import_binding) (c : autoFillCandidate) (entries : list (episodeKey * autoFillLeaf)) : payload :=
  list_to_map [
    ("quark_account_id", VString (ib_quark b)); ("quark_target_id", VString (trim_space (ib_target b)));
    ("share_url", VString (ac_URL c)); ("share_password", VString (ac_Password c)); ("c115_account_id", VString (ib_c115 b));
    ("selected_source_ids", VStrings ((λ e, lf_ID e.2) <$> entries));
    ("selected_source_manifest", VArray ((λ e, encode_selection (selection_of e)) <$> entries));
    ("parent_task_id", VString (ib_parent b)); ("autofill_library_name", VString (lb_Name (ib_library b)));
    ("autofill_library_id", VString (lb_ID (ib_library b))); ("autofill_library_cid", VString (ib_libraryCID b));
    ("autofill_series_id", VString (ib_series b)); ("autofill_tmdb_id", VString (ib_tmdb b));
    ("autofill_series_folder", VString (ib_folder b));
    ("expected_episodes", VStrings (sortedEpisodeLabels (list_to_set entries.*1)))].

Section Series.
Context `{Env} `{Ctx} `{Sleep} `{Remote} `{Providers} `{Local} `{Urls} `{Sha256} `{Format} `{Names} `{Ranging} `{Workers} `{Unicode}.
Context `{Uuids} `{Snapshots} (rounds : nat).
Abbreviation Pi := (M Pipe).

(** A loop whose rounds may [break]. *)
Fixpoint fold_break {A S} (f : S → A → Pi (S * bool)) (l : list A) (s : S) : Pi S :=
  match l with
  | [] => mret s
  | x :: l => '(s, stop) ← f s x; if (stop : bool) then mret s else fold_break f l s
  end.

Definition ctx_error : Pi (option error) := over ← ctx_over; mret (if (over : bool) then Some ErrCanceled else None).

(** One candidate. *)
Definition inspect_candidate (gaps : gset episodeKey) (series : EmbyMediaItem) (seriesID : string) (explicitSource : bool)
    (st : inspection) (c : autoFillCandidate) : Pi (inspection * bool) :=
  over ← ctx_error;
  match over with
  | Some e => mret (mkInspection (in_evidence st) (in_errors st) (in_checked st) (in_inspected st) (error_text e) (Some e), true)
  | None =>
      let checked := (in_checked st + 1)%Z in
      let provider := or_115 (ac_Provider c) in
      let rejected shareTitle reason := mkEvd provider (ac_ID c) (ac_Title c) shareTitle [] [] 0 "rejected" reason in
      let skip shareTitle reason :=
        mkInspection (in_evidence st ++ [rejected shareTitle reason])
          (in_errors st ++ [ErrText ("resource " +:+ ac_ID c +:+ ": " +:+ reason)]) checked (in_inspected st) (in_issue st) in
      if negb (bool_decide (ac_DiscoveryError c = "")) then mret (skip "" (ac_DiscoveryError c) (in_probe st), false)
      else
      '(shareTitle, leaves) ← scanAutoFillShare c;
      match leaves with
      | Err e =>
          let reason := publicAutoFillError c e in
          if stopAutoFillShareProbes e then mret (skip shareTitle reason (Some e), true)
          else mret (skip shareTitle reason (in_probe st), false)
      | Ok leaves =>
          let m := inspect_leaves gaps (Some series) c shareTitle leaves in
          let found decision := mkEvd provider (ac_ID c) (ac_Title c) shareTitle (sortedEpisodeLabels (list_to_set (cm_keys m)))
            ((λ e, lf_Name e.2) <$> cm_selected m) (foldl (λ n e, wrap64 (n + lf_Size e.2)) 0%Z (cm_selected m)) decision "" in
          if bool_decide (length (cm_selected m) = 0) then
            mret (mkInspection (in_evidence st ++ [found "no_match"]) (in_errors st) checked (in_inspected st)
                    (if explicitSource then "explicit source share did not match an aired missing episode for Series " +:+ seriesID
                     else in_issue st) (in_probe st), false)
          else
            mret (mkInspection (in_evidence st ++ [found "matched"]) (in_errors st) checked (in_inspected st ++ [m])
                    (in_issue st) (in_probe st), false)
      end
  end.

(** Giving a candidate's transfer up: the issue and the fatal error it leaves. *)
Definition drop_one (t : transfer) (e : error) (fatal : bool) : transfer :=
  mkTransfer (tr_unmatched t) (tr_transferred t) (error_text e) (tr_paths t) (tr_queued t)
    (if fatal then error_text e else tr_issue t) (tr_probe t) (if fatal then join_errors (tr_fatal t) (Some e) else tr_fatal t).
Definition stop_transfer (t : transfer) (probe : error) (fatal : option error) : transfer :=
  mkTransfer (tr_unmatched t) (tr_transferred t) (tr_lastError t) (tr_paths t) (tr_queued t) (tr_issue t) (Some probe)
    (join_errors (tr_fatal t) fatal).

(** An import of the chosen files of a Quark share is queued. *)
Definition queue_import (library : EmbyLibrary) (libraryCID seriesID tmdbID folder parentTaskID : string) (t : transfer)
    (m : candidateMatch) (keys : list episodeKey) : Pi transfer :=
  quark ← attempt (GetDefaultAccount "quark");
  target ← attempt (on_db (GetSetting "quark_autofill_target_id"));
  c115 ← attempt (GetDefaultAccount "115");
  match quark, target, c115 with
  | Ok quark, Ok target, Ok c115 =>
      if bool_decide (trim_space target = "") then mret (drop_one t (ErrText "quark_autofill_target_id is required") true) else
      let entries := chosen_entries m keys in
      let b := mkBinding quark.1 target c115.1 parentTaskID library libraryCID seriesID tmdbID folder in
      child ← attempt (id ← newUUID; on_db (enqueueAutofillQuarkImport id (import_payload b (cm_candidate m) entries)));
      match child with
      | Err e => mret (drop_one t e true)
      | Ok (id, _) =>
          let queued := mkQueued id "quark" (ac_ID (cm_candidate m)) (sortedEpisodeLabels (list_to_set entries.*1))
                          ((λ e, lf_Name e.2) <$> entries) (foldl (λ n e, wrap64 (n + lf_Size e.2)) 0%Z entries) in
          mret (mkTransfer (tr_unmatched t ∖ list_to_set keys) (tr_transferred t) (tr_lastError t) (tr_paths t)
                  (tr_queued t ++ [queued]) (tr_issue t) (tr_probe t) (tr_fatal t))
      end
  | _, _, _ =>
      let e := default (ErrText "quark_autofill_target_id is required") (joined (option_list (failed quark) ++ option_list (failed target) ++ option_list (failed c115))) in
      mret (drop_one t e true)
  end.

(** The chosen files of a 115 share are received into the folder of the series. *)
Definition receive_files (mediaRoot libraryName targetCID folder : string) (t : transfer) (m : candidateMatch) (keys : list episodeKey)
    : Pi (transfer * bool) :=
  a ← attempt (getAccount "");
  match a with
  | Err e => mret (drop_one t e true, false)
  | Ok a =>
      match ParseShareCode (ac_URL (cm_candidate m)) (ac_Password (cm_candidate m)) with
      | Err e => mret (drop_one t (ErrText (publicAutoFillError (cm_candidate m) e)) false, false)
      | Ok (shareCode, receiveCode) =>
          let entries := chosen_entries m keys in
          received ← attempt (receiveShareEntriesCtx a shareCode receiveCode ((λ e, lf_ID e.2) <$> entries) targetCID (cm_shareTitle m));
          match received with
          | Ok _ =>
              let names := (λ e, lf_Name e.2) <$> entries in
              let paths := (λ name, join_path [mediaRoot; libraryName; folder; name]) <$> take (length keys) names in
              mret (mkTransfer (tr_unmatched t ∖ list_to_set keys) (tr_transferred t ∪ list_to_set keys) (tr_lastError t)
                      (tr_paths t ++ paths) (tr_queued t) (tr_issue t) (tr_probe t) (tr_fatal t), false)
          | Err e =>
              if stopAutoFillShareProbes e then mret (stop_transfer t e (Some e), true) else
              over ← ctx_error;
              match over with
              | Some e => mret (stop_transfer t e None, true)
              | None => mret (drop_one t (ErrText (publicAutoFillError (cm_candidate m) e)) false, false)
              end
          end
      end
  end.

Definition transfer_one (spec : seriesAutoFillSpec) (parentTaskID mediaRoot : string) (library : EmbyLibrary)
    (libraryCID seriesID tmdbID folder targetCID : string) (inspected : list candidateMatch) (chosen : gmap nat (list episodeKey))
    (t : transfer) (index : nat) : Pi (transfer * bool) :=
  let keys := default [] (chosen !! index) in
  match inspected !! index with
  | None => mret (t, false)
  | Some m =>
      if negb (sp_Transfer spec) then
        mret (mkTransfer (tr_unmatched t ∖ list_to_set keys) (tr_transferred t) (tr_lastError t) (tr_paths t) (tr_queued t)
                (tr_issue t) (tr_probe t) (tr_fatal t), false)
      else if bool_decide (or_115 (ac_Provider (cm_candidate m)) = "quark") then
        t ← queue_import library libraryCID seriesID tmdbID folder parentTaskID t m keys; mret (t, false)
      else receive_files mediaRoot (lb_Name library) targetCID folder t m keys
  end.

(** The issue of a series that is left with gaps and without one. *)
Definition left_issue (transferring : bool) (i : inspection) (t : transfer) : string :=
  if negb (bool_decide (tr_issue t = "")) || bool_decide (size (tr_unmatched t) = 0) then tr_issue t
  else if transferring && negb (bool_decide (tr_lastError t = "")) then
    "matched episode resources could not be transferred: " +:+ tr_lastError t
  else match joined (in_errors i) with
  | Some e => pretty (Z.of_nat (length (in_errors i))) +:+ " of " +:+ pretty (in_checked i) +:+ " candidate inspections failed; "
                +:+ pretty (Z.of_nat (size (tr_unmatched t))) +:+ " episode(s) remain unmatched: " +:+ error_text e
  | None => tr_issue t
  end.

(** The choice among the inspected candidates and its transfer. *)
Definition transfer_series (spec : seriesAutoFillSpec) (parentTaskID mediaRoot : string) (library : EmbyLibrary)
    (libraryCID seriesID seriesName tmdbID folder targetCID : string) (gaps : gset episodeKey) (i : inspection)
    : Pi (SeriesAutoFillResult * list string) :=
  let override := trim_space (default "" (sp_CandidateOverrides spec !! seriesID)) in
  let s := choose_episodes override (in_inspected i) in
  let issue := if negb (bool_decide (override = "")) && negb (sl_overrideMatched s)
               then "candidate override " +:+ override +:+ " did not match any inspected resource" else in_issue i in
  t ← fold_break (transfer_one spec parentTaskID mediaRoot library libraryCID seriesID tmdbID folder targetCID (in_inspected i) (sl_chosen s))
        (merge_sort le (map_to_list (sl_chosen s)).*1) (mkTransfer gaps ∅ "" [] [] issue (in_probe i) None);
  let issue := left_issue (sp_Transfer spec) i t in
  let result transferred unmatched issue probe fatal :=
    mkSeriesResult seriesID seriesName folder (sortedEpisodeLabels gaps) (sortedEpisodeLabels (sl_matched s))
      (sortedEpisodeLabels transferred) (sortedEpisodeLabels unmatched) (in_checked i) (in_evidence i) (sl_conflicts s)
      (tr_queued t) issue "" "" ∅ None probe fatal in
  if sp_Transfer spec && bool_decide (0 < length (tr_paths t)) then
    waited ← attempt (waitForAutoFillFiles (tr_paths t));
    match waited with
    | Ok _ => mret (result (tr_transferred t) (tr_unmatched t) issue (tr_probe t) (tr_fatal t), tr_paths t)
    | Err e => mret (result ∅ (tr_unmatched t ∪ tr_transferred t) (error_text e) (join_errors (tr_probe t) (Some e))
                       (join_errors (tr_fatal t) (Some e)), tr_paths t)
    end
  else mret (result (tr_transferred t) (tr_unmatched t) issue (tr_probe t) (tr_fatal t), tr_paths t).

(** The candidates of a series, with what was lost finding them, and whether they were given. *)
Definition series_candidates (spec : seriesAutoFillSpec) (seriesID seriesName : string) : Pi (list autoFillCandidate * list error * bool) :=
  match sourceShareForSeries spec seriesID with
  | Some c => mret ([c], [], true)
  | None => '(candidates, errors) ← searchAutoFillCandidates seriesName (sp_CandidateLimit spec); mret (candidates, errors, false)
  end.

Definition processAutoFillSeries (library : EmbyLibrary) (libraryCID : string) (gaps : gset episodeKey) (seriesID seriesName : string)
    (canonical : option EmbyMediaItem) (tmdbCount : Z) (spec : seriesAutoFillSpec) (parentTaskID : string)
    : Pi (SeriesAutoFillResult * list string) :=
  let missing := sortedEpisodeLabels gaps in
  let fatal folder e := mret (refused seriesID seriesName folder missing None (Some e) e, []) in
  match canonical with
  | None => fatal "" (ErrText ("Emby Series " +:+ seriesID +:+ " is absent from its eligible library"))
  | Some series =>
      if negb (bool_decide (mi_Type series = "Series")) then
        fatal "" (ErrText ("Emby Series " +:+ seriesID +:+ " is absent from its eligible library"))
      else if bool_decide (tmdb_of series = "") || negb (Z.eqb tmdbCount 1) then
        fatal "" (ErrText ("canonical TMDB identity is missing or duplicated (" +:+ pretty tmdbCount +:+ " matching Series)"))
      else
      let folder := base (clean (mi_Path series)) in
      if bool_decide (folder = ".") || bool_decide (folder = "/") || negb (bool_decide (base (dir (clean (mi_Path series))) = lb_Name library)) then
        fatal "" (ErrText "Series path is not a direct child of the eligible library")
      else
      target ← attempt (resolveAutoFillFolder rounds libraryCID folder);
      match target with
      | Err e => fatal folder e
      | Ok targetCID =>
          found ← attempt (series_candidates spec seriesID seriesName);
          match found with
          | Err e => fatal folder e
          | Ok (candidates, discoveryErrors, explicitSource) =>
              staged ← (if sp_Transfer spec && sp_ReplaceCompletedPack spec
                        then attempt (stageCompletedPack rounds library libraryCID gaps series candidates) else mret (Ok None));
              match staged with
              | Ok (Some (p, paths)) =>
                  mret (mkSeriesResult seriesID seriesName folder missing missing missing [] 0 [] [] [] "" "staged" (cp_NewFolder p) ∅
                          (Some p) None None, paths)
              | Err e => mret (refused seriesID seriesName folder missing (Some e) None e, [])
              | Ok None =>
                  mediaRoot ← or_zero "" (on_db (GetSetting "media_root"));
                  i ← fold_break (inspect_candidate gaps series seriesID explicitSource) candidates
                        (mkInspection ((λ e, mkEvd "quark" "" "" "" [] [] 0 "rejected" (error_text e)) <$> discoveryErrors)
                           discoveryErrors 0 [] "" None);
                  transfer_series spec parentTaskID mediaRoot library libraryCID seriesID seriesName (tmdb_of series) folder targetCID gaps i
              end
          end
      end
  end.
End Series.

(** ** A run

    The results of the libraries are kept next to the rest of the state, since the
    clean-up at the end of a run reads them whatever happened. *)

Record Fill := mkFill { fl_pipe : Pipe; fl_results : list LibraryAutoFillResult }.

Section Fill.
Context `{Env}.

Definition on_run {A} (m : M Pipe A) : M Fill A := λ w,
  let '(r, w1) := m (mkWorld (w_tick w) (fl_pipe (w_db w))) in
  (r, mkWorld (w_tick w1) (mkFill (w_db w1) (fl_results (w_db w)))).
Definition results : M Fill (list LibraryAutoFillResult) := λ w, (Ok (fl_results (w_db w)), w).
Definition update_results (f : list LibraryAutoFillResult → list LibraryAutoFillResult) : M Fill unit := λ w,
  (Ok tt, mkWorld (w_tick w) (mkFill (fl_pipe (w_db w)) (f (fl_results (w_db w))))).
Definition update_last (f : LibraryAutoFillResult → LibraryAutoFillResult) : M Fill unit :=
  update_results (λ l, alter f (pred (length l)) l).
Definition update_library (i : nat) (f : LibraryAutoFillResult → LibraryAutoFillResult) : M Fill unit := update_results (alter f i).
End Fill.

Definition update_series (j : nat) (f : SeriesAutoFillResult → SeriesAutoFillResult) (l : LibraryAutoFillResult) : LibraryAutoFillResult :=
  set_series (alter f j (lr_Series l)) (lr_Issues l) l.

(** What the run knows of a library before it fills it. *)
Definition inventory_map (l : list EmbyMediaItem) : gmap string EmbyMediaItem := foldl (λ m s, <[mi_ID s := s]> m) ∅ l.
Definition tmdb_counts (l : list EmbyMediaItem) : gmap string Z :=
  foldl (λ m s, if bool_decide (tmdb_of s = "") then m else <[tmdb_of s := (default 0 (m !! tmdb_of s) + 1)%Z]> m) ∅ l.
Definition sort_strings (l : list string) : list string := merge_sort (λ x y, String.leb x y = true) l.

(** The totals of the body, and the fatal errors so far. *)
Record totals := mkTotals {
  to_missing : Z; to_matched : Z; to_transferred : Z; to_any : bool; to_fatal : option error;
  to_initial : gmap string (gmap string EmbyMediaItem)
}.
Definition add_fatal (e : option error) (t : totals) : totals :=
  mkTotals (to_missing t) (to_matched t) (to_transferred t) (to_any t) (join_errors (to_fatal t) e) (to_initial t).

Record autofill_outcome := mkOutcome {
  oc_mode : string; oc_libraries : list LibraryAutoFillResult; oc_missing : Z; oc_matched : Z; oc_transferred : Z; oc_remaining : Z;
  oc_issues : option (list string); oc_verified : bool
}.
Definition mode_of (spec : seriesAutoFillSpec) : string := if sp_Transfer spec then "transfer" else "preview".

(** The identity of a series after the refresh: the issue it has, if any. *)
Definition identity_issue (current : gmap string EmbyMediaItem) (initial : gmap string EmbyMediaItem) (r : SeriesAutoFillResult)
    : option string :=
  match current !! sr_SeriesID r with
  | None => Some "canonical Series disappeared after refresh"
  | Some s =>
      let counts := tmdb_counts (map_to_list current).*2 in
      let expected := match sr_replacement r with Some _ => 2%Z | None => 1%Z end in
      let changed :=
        match initial !! sr_SeriesID r with
        | None => true
        | Some before => negb (bool_decide (mi_Path s = mi_Path before)) || bool_decide (tmdb_of s = "")
                         || negb (bool_decide (tmdb_of s = tmdb_of before)) || negb (Z.eqb (default 0%Z (counts !! tmdb_of s)) expected)
        end in
      if changed then Some "canonical Series path or expected TMDB identity group changed after refresh" else None
  end.

(** One series of a library after the refresh: the library, and the fatal errors. *)
Definition check_series (current initial : gmap string EmbyMediaItem) (st : LibraryAutoFillResult * option error) (j : nat)
    : LibraryAutoFillResult * option error :=
  match lr_Series st.1 !! j with
  | None => st
  | Some r =>
      match identity_issue current initial r with
      | None => st
      | Some issue =>
          let text := sr_SeriesName r +:+ ": " +:+ issue in
          (add_issue text (update_series j (λ r, set_outcome issue (sr_ReplacementStatus r) r) st.1),
           join_errors st.2 (Some (ErrText text)))
      end
  end.

(** A library after the refresh. *)
Definition check_library (remaining : list EmbyMissingEpisode) (current initial : gmap string EmbyMediaItem)
    (l : LibraryAutoFillResult) : LibraryAutoFillResult * option error :=
  let gaps := ga_gaps (gapsBySeries remaining) in
  let l := set_remaining_count (Z.of_nat (length remaining)) l in
  let l := set_series ((λ r, set_remaining (sortedEpisodeLabels (default ∅ (gaps !! sr_SeriesID r))) r) <$> lr_Series l) (lr_Issues l) l in
  foldl (check_series current initial) (l, None) (seq 0 (length (lr_Series l))).

Section Run.
Context `{Env} `{Ctx} `{Sleep} `{Remote} `{Providers} `{Local} `{Urls} `{Sha256} `{Format} `{Names} `{Ranging} `{Workers} `{Unicode}.
Context `{Uuids} `{Snapshots} `{CidMap} (rounds : nat).
Abbreviation Pi := (M Pipe).
Abbreviation Fi := (M Fill).

Definition task_log (taskID message : string) : Fi unit := on_run (on_db (AppendTaskLog taskID message)).

Definition RefreshSeriesMetadataCtx (itemID : string) : Pi unit :=
  let itemID := trim_space itemID in
  if bool_decide (itemID = "") then throw (ErrText "Emby item ID is required")
  else call (λ h, sv_refresh h itemID) (ARefresh itemID).

(** *** Clean-up *)

Definition queued_imports (results : list LibraryAutoFillResult) : list AutoFillQueuedImport :=
  l ← results; r ← lr_Series l; sr_QueuedImports r.

Definition cancel_one (failure : option error) (q : AutoFillQueuedImport) : Pi (option error) :=
  cancelled ← attempt (on_db (CancelPendingAsyncTask (qi_TaskID q)));
  mret (join_errors failure
    match cancelled with
    | Err e => Some (ErrWrap ("cancel queued Quark import " +:+ qi_TaskID q +:+ ": ") e)
    | Ok cancelled => if (cancelled : bool) then None
                      else Some (ErrText ("queued Quark import " +:+ qi_TaskID q +:+ " was no longer pending during parent cleanup"))
    end).
Definition cancelQueuedAutoFillImports (results : list LibraryAutoFillResult) : Pi (option error) :=
  m_fold cancel_one (queued_imports results) None.

(** The clean-up of one series: what is kept in its result, whether a staged folder was
    removed without a scan, and the error it adds. *)
Record cleaned := mkCleaned { cn_removed : bool; cn_error : option error }.
Definition recovery_of (p : completedPackReplacement) : gmap string string :=
  list_to_map [("backup_dir", cp_BackupDir p); ("account_id", cp_AccountID p); ("quarantine_cid", cp_QuarantineCID p);
               ("original_cid", cp_OldCID p)].
Definition clean_series (c : cleaned) (r : SeriesAutoFillResult) : Pi (SeriesAutoFillResult * cleaned) :=
  match sr_replacement r with
  | None => mret (r, c)
  | Some p =>
      let recovery := if bool_decide (cp_BackupDir p = "") then sr_ReplacementRecovery r else recovery_of p in
      if cp_Finalized p then mret (set_replacement recovery (Some p) r, c) else
      '(p', undone) ← with_record p (rollbackCompletedPack rounds);
      let r := set_replacement recovery (Some p') r in
      match undone with
      | Ok _ => mret (set_outcome (sr_Issue r) "kept_old" r, mkCleaned (cn_removed c || negb (cp_RollbackScanned p')) (cn_error c))
      | Err e =>
          let issue := (if bool_decide (sr_Issue r = "") then "" else sr_Issue r +:+ "; ") +:+ error_text e in
          mret (set_outcome issue "recovery_required" r,
                mkCleaned (cn_removed c) (join_errors (cn_error c) (Some (ErrWrap ("restore " +:+ sr_SeriesName r +:+ ": ") e))))
      end
  end.

(** A map with an accumulator. *)
Fixpoint map_acc {A S} (f : S → A → Pi (A * S)) (l : list A) (s : S) : Pi (list A * S) :=
  match l with
  | [] => mret ([], s)
  | x :: l => '(y, s) ← f s x; '(ys, s) ← map_acc f l s; mret (y :: ys, s)
  end.
Definition clean_library (c : cleaned) (l : LibraryAutoFillResult) : Pi (LibraryAutoFillResult * cleaned) :=
  '(series, c) ← map_acc clean_series (lr_Series l) c; mret (set_series series (lr_Issues l) l, c).

Definition sum_counts (f : LibraryAutoFillResult → Z) (l : list LibraryAutoFillResult) : Z := foldl (λ n x, (n + f x)%Z) 0%Z l.
Definition partial_outcome (spec : seriesAutoFillSpec) (results : list LibraryAutoFillResult) : autofill_outcome :=
  mkOutcome (mode_of spec) results (sum_counts lr_MissingCount results) (sum_counts lr_MatchedCount results)
    (sum_counts lr_TransferredCount results) (sum_counts lr_RemainingCount results) None false.

(** The deferred function: from what the body returned and the results to what the run
    returns. *)
Definition clean_up (spec : seriesAutoFillSpec) (returned : option autofill_outcome * option error) (results : list LibraryAutoFillResult)
    : Pi (option autofill_outcome * option error) :=
  '(results, c) ← map_acc clean_library results (mkCleaned false returned.2);
  failure ← (if cn_removed c then r ← attempt RunLibraryScanCtx; mret (join_errors (cn_error c) (failed r)) else mret (cn_error c));
  over ← ctx_error;
  let failure := join_errors failure over in
  failure ← match failure with
            | None => mret None
            | Some _ => e ← cancelQueuedAutoFillImports results; mret (join_errors failure e)
            end;
  let with_results (o : autofill_outcome) := mkOutcome (oc_mode o) results (oc_missing o) (oc_matched o) (oc_transferred o)
    (oc_remaining o) (oc_issues o) (oc_verified o) in
  mret (match failure with
        | Some e => if bool_decide (length results = 0) then (returned.1, Some e) else (Some (partial_outcome spec results), Some e)
        | None => (with_results <$> returned.1, None)
        end).

(** *** Filling the libraries *)

(** What is known before the first library: the ID map, the libraries and their series. *)
Record prepared := mkPrepared {
  pp_cids : gmap string string; pp_libraries : gmap string EmbyLibrary; pp_inventories : gmap string (list EmbyMediaItem)
}.

Definition eligible (libraries : gmap string EmbyLibrary) (name : string) : res EmbyLibrary :=
  match libraries !! name with
  | Some l => if bool_decide (lb_Collection l = "tvshows") then Ok l
              else Err (ErrText ("eligible Emby library " +:+ name +:+ " is missing or is not a TV library"))
  | None => Err (ErrText ("eligible Emby library " +:+ name +:+ " is missing or is not a TV library"))
  end.

(** The series a payload names must be known and selected. *)
Definition check_named (what : string) (known : gset string) (selected named : list string) : res unit :=
  res_each (λ id,
    if negb (bool_decide (id ∈ known)) then
      Err (ErrText (what +:+ " Series ID " +:+ id +:+ " is not present in the selected eligible libraries"))
    else fail_if (bool_decide (0 < length selected) && negb (bool_decide (id ∈ selected)))
           (ErrText (what +:+ " Series ID " +:+ id +:+ " is outside series_ids"))) named.

Definition prepare (spec : seriesAutoFillSpec) : Pi prepared :=
  _ ← (if sp_Transfer spec && sp_ReplaceCompletedPack spec then
         enabled ← or_zero "" (on_db (GetSetting "dangerous_actions_enabled"));
         if bool_decide (enabled = "true") then mret tt
         else throw (ErrText "dangerous_actions_enabled must be true for automatic completed-pack replacement")
       else mret tt);
  raw ← on_db (GetSetting "c115_cid_map");
  cids ← lift (loadAutoFillCIDMap raw (sp_Libraries spec));
  libraries ← call rm_libraries ALibraries;
  let byName : gmap string EmbyLibrary := foldl (λ m l, <[lb_Name l := l]> m) ∅ libraries in
  '(inventories, known) ← m_fold (λ (st : gmap string (list EmbyMediaItem) * gset string) name,
      library ← lift (eligible byName name);
      series ← ListSeriesCtx (lb_ID library);
      mret (<[lb_ID library := series]> st.1, st.2 ∪ list_to_set (mi_ID <$> series))) (sp_Libraries spec) (∅, ∅);
  _ ← lift (res_each (λ id, fail_if (negb (bool_decide (id ∈ (known : gset string))))
        (ErrText ("series_ids contains unknown Emby Series ID " +:+ id +:+ " in selected libraries"))) (sp_SeriesIDs spec));
  _ ← lift (check_named "source_shares" known (sp_SeriesIDs spec) (range_over (map_to_list (sp_SourceShares spec)).*1));
  _ ← lift (check_named "candidate_overrides" known (sp_SeriesIDs spec) (range_over (map_to_list (sp_CandidateOverrides spec)).*1));
  mret (mkPrepared cids byName inventories).

(** The metadata of the series with an identity is refreshed first. *)
Definition refresh_series (taskID libraryName : string) (inventory : list EmbyMediaItem) : Fi unit :=
  let order := sort_strings (mi_ID <$> base.filter (λ s, tmdb_of s ≠ "") inventory) in
  _ ← m_each (λ id,
        _ ← on_run ctx_live;
        refreshed ← on_run (attempt (RefreshSeriesMetadataCtx id));
        match refreshed with
        | Ok _ => mret tt
        | Err e => task_log taskID ("Auto-fill series metadata refresh failed series=" +:+ id +:+ ": " +:+ error_text e)
        end) order;
  if bool_decide (0 < length order) then
    task_log taskID ("Auto-fill refreshed series metadata library=" +:+ libraryName +:+ " series=" +:+ pretty (length order))
  else mret tt.

Definition fill_progress (spec : seriesAutoFillSpec) (libraryIndex seriesIndex : nat) : Q :=
  (10 + 60 * (inject_Z (Z.of_nat libraryIndex * sp_MaxSeries spec + Z.of_nat seriesIndex))
        / inject_Z (Z.max 1 (Z.of_nat (length (sp_Libraries spec)) * sp_MaxSeries spec)))%Q.

(** One series of the last library, the one at [index]. *)
Definition fill_series (spec : seriesAutoFillSpec) (taskID : string) (library : EmbyLibrary) (libraryCID : string) (index : nat)
    (byID : gmap string EmbyMediaItem) (counts : gmap string Z) (g : series_gaps) (t : totals) (js : nat * string) : Fi totals :=
  let '(j, seriesID) := js in
  _ ← on_run (on_db (UpdateAsyncTaskProgress taskID (fill_progress spec index j)));
  let canonical := byID !! seriesID in
  let count := match canonical with Some s => default 0%Z (counts !! tmdb_of s) | None => 0%Z end in
  '(r, paths) ← on_run (processAutoFillSeries rounds library libraryCID (default ∅ (ga_gaps g !! seriesID)) seriesID
                          (default "" (ga_names g !! seriesID)) canonical count spec taskID);
  _ ← update_last (add_series r);
  _ ← match sr_replacement r with
      | Some _ => task_log taskID ("Auto-fill completed pack staged series=" +:+ sr_SeriesName r)
      | None => mret tt
      end;
  _ ← (if bool_decide (sr_Issue r = "") then mret tt else update_last (add_issue (sr_SeriesName r +:+ ": " +:+ sr_Issue r)));
  let t := add_fatal (sr_fatalErr r) t in
  let t := mkTotals (to_missing t) (to_matched t) (to_transferred t) (to_any t || bool_decide (0 < length paths)) (to_fatal t) (to_initial t) in
  match sr_probeErr r with
  | Some e => if stopAutoFillShareProbes e then throw e else _ ← on_run ctx_live; mret t
  | None => _ ← on_run ctx_live; mret t
  end.

Definition duplicate_issues (libraryName : string) (counts : gmap string Z) : list string :=
  (λ id, "TMDB " +:+ id +:+ " belongs to " +:+ pretty (default 0%Z (counts !! id)) +:+ " Series in " +:+ libraryName)
    <$> sort_strings (base.filter (λ kv, (1 < kv.2)%Z) (map_to_list counts)).*1.

Definition fill_library (spec : seriesAutoFillSpec) (taskID : string) (pre : prepared) (t : totals) (il : nat * string) : Fi totals :=
  let '(index, libraryName) := il in
  library ← lift (eligible (pp_libraries pre) libraryName);
  _ ← task_log taskID ("Auto-fill scanning library " +:+ libraryName);
  let inventory := default [] (pp_inventories pre !! lb_ID library) in
  let counts := tmdb_counts inventory in
  _ ← refresh_series taskID libraryName inventory;
  found ← on_run (ListAiredMissingEpisodesCtx (lb_ID library));
  let missing := filterAutoFillMissingEpisodes found (sp_SeriesIDs spec) in
  let g := gapsBySeries missing in
  let n := Z.of_nat (length missing) in
  let issues := duplicate_issues libraryName counts in
  let skipped := Z.max 0 (Z.of_nat (length (ga_order g)) - sp_MaxSeries spec) in
  _ ← update_results (λ l, l ++ [mkLibraryResult (lb_ID library) libraryName n 0 0 n skipped [] issues]);
  let t := mkTotals (to_missing t) (to_matched t) (to_transferred t) (to_any t) (to_fatal t)
             (<[lb_ID library := inventory_map inventory]> (to_initial t)) in
  let t := foldl (λ t issue, add_fatal (Some (ErrText issue)) t) t issues in
  let order := take (Z.to_nat (sp_MaxSeries spec)) (ga_order g) in
  t ← m_fold (fill_series spec taskID library (default "" (pp_cids pre !! libraryName)) index (inventory_map inventory) counts g)
        (imap pair order) t;
  rs ← results;
  match last rs with
  | None => mret t
  | Some l =>
      _ ← (if sp_Transfer spec && Z.ltb 0 (lr_TransferredCount l) then
             r ← on_run (SyncSTRMWithProgress libraryName None);
             task_log taskID ("Auto-fill STRM sync library=" +:+ libraryName +:+ " created=" +:+ pretty (rs_Created r) +:+ " updated=" +:+ pretty (rs_Updated r))
           else mret tt);
      mret (mkTotals (to_missing t + lr_MissingCount l) (to_matched t + lr_MatchedCount l) (to_transferred t + lr_TransferredCount l)
              (to_any t) (to_fatal t) (to_initial t))
  end.

(** *** After the libraries *)

(** The aired gaps of every library, counted again: the sum. *)
Definition missing_now (spec : seriesAutoFillSpec) (l : LibraryAutoFillResult) : Fi (list EmbyMissingEpisode) :=
  found ← on_run (ListAiredMissingEpisodesCtx (lr_LibraryID l));
  mret (filterAutoFillMissingEpisodes found (sp_SeriesIDs spec)).

(** The libraries as Emby sees them after the refresh: what remains, and the fatal errors. *)
Definition verify_libraries (spec : seriesAutoFillSpec) (t : totals) : Fi (Z * totals) :=
  rs ← results;
  current ← m_fold (λ (m : gmap string (gmap string EmbyMediaItem)) l,
              series ← on_run (ListSeriesCtx (lr_LibraryID l)); mret (<[lr_LibraryID l := inventory_map series]> m)) rs ∅;
  m_fold (λ (st : Z * totals) il,
    let '(i, l) := il in
    remaining ← missing_now spec l;
    let id := lr_LibraryID l in
    let '(checked, fatal) := check_library remaining (default ∅ (current !! id)) (default ∅ (to_initial st.2 !! id)) l in
    _ ← update_library i (λ _, checked);
    mret ((st.1 + Z.of_nat (length remaining))%Z, add_fatal fatal st.2)) (imap pair rs) (0%Z, t).

(** The staged packs whose series have no issue replace them. *)
Definition finalize_series (taskID : string) (i j : nat) (st : bool * totals) : Fi (bool * totals) :=
  rs ← results;
  match l ← rs !! i; lr_Series l !! j with
  | None => mret st
  | Some r =>
      match sr_replacement r with
      | Some p =>
          if negb (bool_decide (sr_Issue r = "")) then mret st else
          '(p', done) ← on_run (with_record p (finalizeCompletedPack rounds));
          _ ← update_library i (update_series j (set_replacement (sr_ReplacementRecovery r) (Some p')));
          match done with
          | Err e =>
              let text := error_text e in
              _ ← update_library i (update_series j (set_outcome text "kept_old"));
              _ ← update_library i (add_issue (sr_SeriesName r +:+ ": " +:+ text));
              mret (st.1, add_fatal (Some (ErrWrap (sr_SeriesName r +:+ ": ") e)) st.2)
          | Ok newID =>
              _ ← update_library i (update_series j (set_replaced newID (cp_OldFolder p')));
              _ ← task_log taskID ("Auto-fill completed pack replaced series=" +:+ sr_SeriesName r +:+ " backup=" +:+ cp_BackupDir p'
                    +:+ " account=" +:+ cp_AccountID p' +:+ " quarantine_cid=" +:+ cp_QuarantineCID p' +:+ " original_cid=" +:+ cp_OldCID p');
              mret (true, st.2)
          end
      | None => mret st
      end
  end.

Definition finalize_packs (taskID : string) (t : totals) : Fi (bool * totals) :=
  rs ← results;
  m_fold (λ st il, m_fold (λ st j, finalize_series taskID il.1 j st) (seq 0 (length (lr_Series il.2))) st) (imap pair rs) (false, t).

Definition count_again (spec : seriesAutoFillSpec) : Fi Z :=
  rs ← results;
  m_fold (λ n il,
    remaining ← missing_now spec il.2;
    _ ← update_library il.1 (set_remaining_count (Z.of_nat (length remaining)));
    mret (n + Z.of_nat (length remaining))%Z) (imap pair rs) 0%Z.

(** The result and its error; an error before there is a result is thrown. *)
Definition conclude_run (spec : seriesAutoFillSpec) (taskID : string) (remaining : Z) (t : totals) : Fi (autofill_outcome * option error) :=
  _ ← task_log taskID ("Auto-fill completed mode=" +:+ mode_of spec +:+ " missing=" +:+ pretty (to_missing t) +:+ " matched=" +:+ pretty (to_matched t)
        +:+ " transferred=" +:+ pretty (to_transferred t) +:+ " remaining=" +:+ pretty remaining);
  rs ← results;
  let issues := l ← rs; lr_Issues l in
  let o := mkOutcome (mode_of spec) rs (to_missing t) (to_matched t) (to_transferred t) remaining (Some issues)
             (Z.eqb remaining 0 && bool_decide (length issues = 0)) in
  over ← on_run ctx_error;
  match over, to_fatal t with
  | Some e, _ => mret (o, Some e)
  | None, Some e => mret (o, Some (ErrWrap "automatic episode completion failed: " e))
  | None, None =>
      if bool_decide (length issues = 0) then mret (o, None) else
      logged ← attempt (task_log taskID ("Auto-fill completed with findings=" +:+ pretty (Z.of_nat (length issues)) +:+ " remaining=" +:+ pretty remaining));
      mret (o, failed logged)
  end.

(** What runs between the registration of the clean-up and it. *)
Definition autofill_body (spec : seriesAutoFillSpec) (taskID : string) (pre : prepared) : Fi (autofill_outcome * option error) :=
  t ← m_fold (fill_library spec taskID pre) (imap pair (sp_Libraries spec)) (mkTotals 0 0 0 false None ∅);
  _ ← (if sp_Transfer spec && to_any t then on_run RunLibraryScanCtx else mret tt);
  '(remaining, t) ← verify_libraries spec t;
  '(replaced, t) ← finalize_packs taskID t;
  remaining ← (if (replaced : bool) then count_again spec else mret remaining);
  conclude_run spec taskID remaining t.

(** [runSeriesAutoFill] of the task [taskID] with its payload: the outcome and the error it
    returns. *)
Definition runSeriesAutoFill (taskID : string) (p : payload) : Pi (option autofill_outcome * option error) := λ w,
  match (spec ← lift (resolveSeriesAutoFillSpec p); pre ← prepare spec; mret (spec, pre)) w with
  | (Err e, w1) => (Ok (None, Some e), w1)
  | (Ok (spec, pre), w1) =>
      let '(r, w2) := autofill_body spec taskID pre (mkWorld (w_tick w1) (mkFill (w_db w1) [])) in
      let returned := match r with Ok (o, e) => (Some o, e) | Err e => (None, Some e) end in
      clean_up spec returned (fl_results (w_db w2)) (mkWorld (w_tick w2) (fl_pipe (w_db w2)))
  end.
End Run.
