(* ===== verification/AutofillFrames.v ===== *)
(** Frame lemmas for a run of the auto-fill ([AutofillRun.v]): what its calls do to the
    database.  The relation is any preorder on databases that saving the default account
    keeps; the requests are not constrained here. *)
From S2P Require Import Prelude GoStrings GoPath Regexp Sql Schema TaskStore Accounts Payload Queue FileSys Episodes Remote Drive DriveProofs Destination.
From S2P Require Import Identity Service Local Autofill Pipeline Media Replacement ReplacementProofs AutofillRun.
From Stdlib Require Import Ascii.

Definition any_request (a : action) : Prop := True.

Create HintDb frames.

(** One step of a frame proof, on the structure of the computation. *)
Ltac frame_step :=
  match goal with
  | |- keeps _ (mbind _ _) => apply keeps_bind; [apply _| |intros ?]
  | |- keeps _ (mret _) => apply keeps_ret, _
  | |- keeps _ (lift _) => apply keeps_lift, _
  | |- keeps _ (throw _) => apply keeps_throw, _
  | |- keeps _ now => apply keeps_now, _
  | |- keeps _ (query _) => apply keeps_query, _
  | |- keeps _ (attempt _) => apply keeps_attempt
  | |- keeps _ (wrap _ _) => apply keeps_wrap
  | |- keeps _ (try_ _) => apply keeps_try; [apply _|]
  | |- keeps _ (m_fold _ _ _) => apply keeps_fold; [apply _|intros ? ? _]
  | |- keeps _ (m_each _ _) => apply keeps_each; [apply _|intros ? _]
  | |- keeps _ (call _ _) => apply keeps_call; [apply _|intros; exact I]
  | |- keeps _ (on_db _) => apply keeps_on_db
  | |- keeps _ ctx_live => apply keeps_ctx_live, _
  | |- keeps _ ctx_over => apply keeps_ctx_over, _
  | |- keeps _ (sleepContext _) => apply keeps_sleep, _
  | |- keeps _ (if ?b then _ else _) => destruct b
  | |- keeps _ (match ?o with _ => _ end) => destruct o
  | |- keeps _ _ => solve [auto with frames nocore]
  end.
Ltac frame := cbv zeta; repeat (frame_step; cbv beta iota zeta).

Section Frames.
Context `{Env} `{Ctx} `{Sleep} `{Remote} `{Providers} `{Local} `{Urls} `{Sha256} `{Format} `{Names} `{Ranging} `{Workers} `{Unicode}.
Context `{Uuids} `{Snapshots} `{CidMap} (rounds : nat).
Context (RD : Database → Database → Prop) `{!PreOrder RD}.
Hypothesis Hsave : ∀ r, keeps RD (SaveAccount "default" r).
Abbreviation R := (pipe_rel any_request RD).
Abbreviation kept m := (keeps R m).

(** ** The STRM tree *)

Lemma af_observe {A} (ask : history → A) record : kept (observe ask record).
Proof. intros w. unfold wp, observe. simpl. split; [|by reflexivity]. eexists. split; [done|]. by repeat constructor. Qed.
Lemma af_os_do op : kept (os_do op). Proof. unfold os_do. frame. Qed.
Lemma af_os_info op : kept (os_info op). Proof. unfold os_info. frame. Qed.
Lemma af_os_text op : kept (os_text op). Proof. unfold os_text. frame. Qed.
Lemma af_os_names op : kept (os_names op). Proof. unfold os_names. frame. Qed.
Lemma af_walk root : kept (walk_dir root). Proof. apply af_observe. Qed.
Lemma af_or_zero {A} (z : A) m : kept m → kept (or_zero z m). Proof. intros Hm. unfold or_zero. frame. Qed.
Lemma af_GetSetting key : keeps RD (GetSetting key). Proof. unfold GetSetting. frame. Qed.
Hint Resolve af_observe af_os_do af_os_info af_os_text af_os_names af_walk af_or_zero af_GetSetting : frames.
Hint Extern 1 (kept (on_db _)) => apply keeps_on_db : frames.
Lemma af_setting key : kept (on_db (GetSetting key)). Proof. frame. Qed.
Hint Resolve af_setting : frames.
Lemma af_readable p i : kept (ensureReadableDirectory p i). Proof. unfold ensureReadableDirectory. frame. Qed.
Hint Resolve af_readable : frames.
Lemma af_root p c : kept (canonicalRoot p c). Proof. unfold canonicalRoot. frame. Qed.
Hint Resolve af_root : frames.

(** ** Accounts, listings and shares *)

Lemma af_default p : kept (GetDefaultAccount p). Proof. by apply keeps_GetDefaultAccount. Qed.
Lemma af_account id : kept (getAccount id). Proof. by apply keeps_getAccount. Qed.
Lemma af_for_provider p id : kept (getAccountForProvider p id). Proof. by apply keeps_getAccountForProvider. Qed.
Lemma af_list a d o l : kept (listFiles a d o l). Proof. by apply keeps_listFiles. Qed.
Lemma af_token a u p : kept (shareTokenWithTitle a u p). Proof. by apply keeps_shareTokenWithTitle. Qed.
Lemma af_tree a s t : kept (snapshotShareTree a s t). Proof. by apply keeps_snapshotShareTree. Qed.
Hint Resolve af_default af_account af_for_provider af_list af_token af_tree : frames.

Lemma af_snap_pages a c r cid n o t es : kept (snap_pages a c r cid n o t es).
Proof. revert o t es. induction n as [|n IH]; intros o t es; cbn [snap_pages]; frame; apply IH. Qed.
Lemma af_snapshot a c r cid : kept (snapshotShareEntries a c r cid).
Proof. unfold snapshotShareEntries. generalize snap_rounds as n. intros n. apply af_snap_pages. Qed.
Hint Resolve af_snapshot : frames.
Lemma af_fold_until {A S} (f : S → A → M Pipe (S * option error)) l s : (∀ s x, kept (f s x)) → kept (fold_until f l s).
Proof. intros Hf. revert s. induction l as [|x l IH]; intros s; cbn [fold_until]; frame. Qed.
Lemma af_walk115 a c r n cid anc st : kept (walk115 a c r n cid anc st).
Proof.
  revert cid anc st. induction n as [|n IH]; intros cid anc st; cbn [walk115]; frame. apply af_fold_until. intros st' e. unfold visit115. frame.
Qed.
Lemma af_tree115 a c r : kept (snapshotShareTreeEntries a c r).
Proof. unfold snapshotShareTreeEntries. apply keeps_bind; [apply _|apply af_walk115|]. intros [st e]. frame. Qed.
Hint Resolve af_tree115 : frames.
Lemma af_share_tree p a u w : kept (SnapshotShareTree p a u w). Proof. unfold SnapshotShareTree. frame. Qed.
Hint Resolve af_share_tree : frames.
Lemma af_provider_tree p id u w : kept (SnapshotProviderShareTree p id u w). Proof. unfold SnapshotProviderShareTree. frame. Qed.
Lemma af_receive a c r ids t n : kept (receiveShareEntriesCtx a c r ids t n). Proof. unfold receiveShareEntriesCtx. frame. Qed.
Lemma af_rename a f n : kept (RenameCtx a f n). Proof. unfold RenameCtx. frame. Qed.
Lemma af_move a f t : kept (MoveCtx a f t). Proof. unfold MoveCtx. frame. Qed.
Lemma af_delete a f : kept (DeleteCtx a f). Proof. unfold DeleteCtx. frame. Qed.
Hint Resolve af_provider_tree af_receive af_rename af_move af_delete : frames.

(** ** Candidates and waits *)

Lemma af_search n l : kept (searchAutoFillCandidates n l). Proof. unfold searchAutoFillCandidates, SearchResourcesCtx. frame. Qed.
Lemma af_scan c : kept (scanAutoFillShare c). Proof. unfold scanAutoFillShare. frame. Qed.
Lemma af_folder_pages c f n o m : kept (folder_pages c f n o m).
Proof. revert o m. induction n as [|n IH]; intros o m; cbn [folder_pages]; frame. Qed.
Hint Resolve af_search af_scan af_folder_pages : frames.
Lemma af_folder_attempts c f n k : kept (folder_attempts c f n k).
Proof. induction k as [|k IH]; cbn [folder_attempts]; frame. Qed.
Lemma af_finished {A} (m : M Pipe (option A)) : kept m → kept (finished_wait m). Proof. intros Hm. unfold finished_wait. frame. Qed.
Lemma af_folder c f : kept (resolveAutoFillFolder rounds c f).
Proof. apply af_finished. generalize autoFillFolderVisibilityAttempts as k. intros k. apply af_folder_attempts. Qed.
Lemma af_poll {A} (round : M Pipe (A + error)) pause d n : kept round → kept (poll round pause d n).
Proof. intros Hr. induction n as [|n IH]; cbn [poll]; frame. Qed.
Lemma af_poll_mount {A} (round : M Pipe (A + error)) : kept round → kept (poll_mount round).
Proof.
  intros Hr. unfold poll_mount. generalize poll_fuel as n. intros n. apply keeps_bind; [apply _|apply keeps_now, _|]. intros t.
  apply af_finished, af_poll, Hr.
Qed.
Lemma af_files paths : kept (waitForAutoFillFiles paths).
Proof. apply af_poll_mount. unfold missing_files. frame. Qed.
Hint Resolve af_folder af_files : frames.

(** ** The media library *)

Lemma af_paths l : kept (paths l). Proof. unfold paths. frame. Qed.
Lemma af_excluded l : kept (excludedRoots l). Proof. unfold excludedRoots. frame. Qed.
Lemma af_ensure_parent c x : kept (ensure_parent c x). Proof. unfold ensure_parent. frame. Qed.
Hint Resolve af_paths af_excluded af_ensure_parent : frames.
Lemma af_output r x : kept (safeOutputPath r x). Proof. unfold safeOutputPath. frame. Qed.
Lemma af_or_clean {A} (m : M Pipe A) c : kept m → kept (or_clean m c). Proof. intros Hm. unfold or_clean. frame. Qed.
Hint Resolve af_output af_or_clean : frames.
Lemma af_write_atomic p c : kept (writeAtomic p c).
Proof. unfold writeAtomic. frame. Qed.
Hint Resolve af_write_atomic : frames.
Lemma af_process {A S} (items : list A) (process : S → A → M Pipe (S * option error)) s :
  (∀ s x, kept (process s x)) → kept (processConcurrently items process s).
Proof.
  intros Hp w. unfold processConcurrently. apply wp_bind. eapply wp_mono; [apply (keeps_fold R)|].
  - intros [s' f] i _. frame.
  - intros [[s' f]|e] w1 Ho; [|done]. apply wp_bind, wp_ctx_over. intros over n. by apply wp_ret.
Qed.
Lemma af_fold_errors {A S} (f : S → A → M Pipe (S * option error)) l s : (∀ s x, kept (f s x)) → kept (fold_errors f l s).
Proof. intros Hf. revert s. induction l as [|x l IH]; intros s; cbn [fold_errors]; frame. Qed.
Lemma af_of_attempt {A} (m : M Pipe A) : kept m → kept (of_attempt m). Proof. intros Hm. unfold of_attempt. frame. Qed.
Lemma af_walk_failed e : kept (walk_failed e). Proof. unfold walk_failed. frame. Qed.
Lemma af_walk_error r e : kept (walk_error r e). Proof. unfold walk_error. frame. Qed.
Hint Resolve af_of_attempt af_walk_failed af_walk_error : frames.

Section Reports.
Context (update : option (Q → string → M Pipe unit)) (Hupdate : ∀ f, update = Some f → ∀ q m, kept (f q m)).
Lemma af_report q m : kept (report update q m).
Proof. unfold report. destruct update as [f|]; [by apply Hupdate|frame]. Qed.
Hint Resolve af_report : frames.
Lemma af_finish_content n c : kept (finish_content update n c). Proof. unfold finish_content. frame. Qed.
Hint Resolve af_finish_content : frames.
Lemma af_sync_job n r c j : kept (sync_job update n r c j).
Proof. unfold sync_job. frame; apply af_fold_errors; intros; unfold sync_content; frame. Qed.
Lemma af_verify_target m p st j : kept (verify_target m p st j).
Proof. unfold verify_target, inspectSTRMTarget, resolve_parent. frame. Qed.
Hint Resolve af_verify_target : frames.
Lemma af_verify_job m p n st j : kept (verify_job update m p n st j). Proof. unfold verify_job. frame. Qed.
Lemma af_count root : kept (countSTRMFiles root). Proof. unfold countSTRMFiles. frame. Qed.
Hint Resolve af_count : frames.

Lemma af_verify_entry b jobs e : kept (verify_entry b jobs e). Proof. unfold verify_entry. frame. Qed.
Hint Resolve af_verify_entry : frames.
Lemma af_verify l : kept (VerifySTRMWithProgress l update).
Proof.
  unfold VerifySTRMWithProgress. apply keeps_bind; [apply _|frame|]. intros [[[m ?] b] p].
  apply keeps_bind; [apply _|frame|]. intros _. apply keeps_bind; [apply _|frame|]. intros [entries failure].
  apply keeps_bind; [apply _|frame|]. intros jobs. do 2 (apply keeps_bind; [apply _|frame|]; intros _).
  apply keeps_bind; [apply _|apply af_process; intros; apply af_fold_errors; intros; apply af_verify_job|]. intros [st e]. frame.
Qed.
Lemma af_prune m b p expected relocations : kept (pruneStaleSTRM m b p expected relocations).
Proof. unfold pruneStaleSTRM, prune_entry, prune_directory, stale_moved, stale_target. frame. Qed.
Hint Resolve af_prune : frames.
Lemma af_scan_entry est ex mb sr px l st e : kept (scan_entry update est ex mb sr px l st e).
Proof.
  unfold scan_entry. destruct (below_skipped _ _); [frame|]. apply keeps_bind; [apply _|frame|]. intros _.
  destruct (entry_is_dir e); [frame|]. destruct (is_symlink _); [frame|]. destruct (negb _); [frame|].
  apply keeps_bind; [apply _| |intros; frame]. destruct (Z.eqb _ _); [apply af_report|frame].
Qed.
Hint Resolve af_scan_entry : frames.
Lemma af_plan l : kept (plan_library l update). Proof. unfold plan_library. frame. Qed.
End Reports.

Lemma af_apply update l mr sr sb px plan : (∀ f, update = Some f → ∀ q m, kept (f q m)) → kept (apply_plan update l mr sr sb px plan).
Proof.
  intros Hup. unfold apply_plan. cbv zeta. apply keeps_bind; [apply _|apply af_process; intros; by apply af_sync_job|].
  intros [c [e|]]; [frame|]. apply keeps_bind; [apply _|by apply af_report|]. intros _.
  apply keeps_bind; [apply _|apply af_prune|]. intros [[removed rd] status].
  apply keeps_bind; [apply _|destruct (negb _); [apply keeps_bind; [apply _|apply af_prune|intros; frame]|frame]|].
  intros [[removed' rd'] status']. apply keeps_bind; [apply _|by apply af_report|]. intros _.
  apply keeps_bind; [apply _|apply af_verify; intros f [= <-] q m; by apply af_report|]. intros v.
  apply keeps_bind; [apply _|by apply af_report|]. intros _. frame.
Qed.
Lemma af_sync l : kept (SyncSTRMWithProgress l None).
Proof.
  unfold SyncSTRMWithProgress. apply keeps_bind; [apply _|by apply af_plan|]. intros [[[[mr sr] sb] px] plan]. by apply af_apply.
Qed.
Hint Resolve af_sync : frames.

(** ** Replacement *)

Lemma af_cover root e : kept (waitForAutoFillCoverage root e).
Proof. apply af_poll_mount. unfold coverage_round. frame. Qed.
Lemma af_media_files root : kept (replacementMediaFiles root). Proof. unfold replacementMediaFiles. frame. Qed.
Hint Resolve af_cover af_media_files : frames.
Lemma af_mount root e : kept (waitForReplacementMount root e).
Proof. unfold waitForReplacementMount. destruct (bool_decide _); [frame|]. apply af_poll_mount. unfold mount_round. frame. Qed.
Lemma af_folder_rounds a p n o f : kept (folder_rounds a p n o f).
Proof. revert o f. induction n as [|n IH]; intros o f; cbn [folder_rounds]; frame. Qed.
Lemma af_folders a p : kept (replacementFolders rounds a p). Proof. apply af_finished, af_folder_rounds. Qed.
Lemma af_mkdir a p n : kept (makeDir a p n). Proof. unfold makeDir. frame. Qed.
Hint Resolve af_mount af_folders af_mkdir : frames.
Lemma af_create a p n : kept (createReplacementFolder rounds a p n). Proof. unfold createReplacementFolder. frame. Qed.
Lemma af_uuid : kept newUUID. Proof. intros w. unfold wp, newUUID. simpl. by reflexivity. Qed.
Lemma af_series l : kept (ListSeriesCtx l). Proof. unfold ListSeriesCtx. frame. Qed.
Lemma af_library_scan : kept RunLibraryScanCtx. Proof. unfold RunLibraryScanCtx. frame. Qed.
Lemma af_missing l : kept (ListAiredMissingEpisodesCtx l). Proof. unfold ListAiredMissingEpisodesCtx. frame. Qed.
Lemma af_playback : kept EnsureNoActivePlayback. Proof. unfold EnsureNoActivePlayback. frame. Qed.
Lemma af_items a p : kept (replacementItems a p). Proof. unfold replacementItems. frame. Qed.
Lemma af_user_data u i : kept (get_user_data u i). Proof. unfold get_user_data. frame. Qed.
Hint Resolve af_create af_uuid af_series af_library_scan af_missing af_playback af_items af_user_data : frames.
Lemma af_snapshot_state items : kept (snapshotReplacementState items). Proof. unfold snapshotReplacementState. frame. Qed.
Lemma af_restore_state s items : kept (restoreReplacementState s items).
Proof. unfold restoreReplacementState, write_states, check_state. frame. Qed.
Lemma af_remove_owned p o : kept (removeOwnedReplacementRoot p o). Proof. unfold removeOwnedReplacementRoot. frame. Qed.
Hint Resolve af_snapshot_state af_restore_state af_remove_owned : frames.
Lemma af_all_of l : (∀ m, m ∈ l → kept m) → kept (all_of l).
Proof.
  intros Hl. unfold all_of. apply keeps_bind; [apply _|apply keeps_fold; [apply _|]|intros; frame].
  intros s m Hm. apply keeps_bind; [apply _|by apply keeps_attempt, Hl|]. intros. frame.
Qed.
Lemma af_persist p : kept (persistReplacementSnapshot p).
Proof.
  assert (∀ x y, kept (all_of [os_do x; os_do y])) as Ha2 by (intros; apply af_all_of; intros m; rewrite !elem_of_cons, elem_of_nil; intros [->|[->|[]]]; frame).
  assert (∀ x y z, kept (all_of [os_do x; os_do y; os_do z])) as Ha3
    by (intros; apply af_all_of; intros m; rewrite !elem_of_cons, elem_of_nil; intros [->|[->|[->|[]]]]; frame).
  unfold persistReplacementSnapshot. frame.
Qed.
Lemma af_verify_series p st : kept (verifyReplacementSeries p st). Proof. unfold verifyReplacementSeries. frame. Qed.
Hint Resolve af_persist af_verify_series : frames.

(** ** Runs over the record of a replacement *)

Abbreviation kept_pack m := (keeps (on_log R) m).
Lemma af_on_pipe {A} (m : M Pipe A) : kept m → kept_pack (on_pipe m). Proof. apply keeps_on_pipe. Qed.
Lemma af_record : kept_pack record. Proof. apply keeps_gets, _. Qed.
Lemma af_modify f : kept_pack (modify f). Proof. apply keeps_modify, _. Qed.
Hint Extern 1 (kept_pack (on_pipe _)) => apply af_on_pipe : frames.
Hint Resolve af_record af_modify : frames.
Ltac pack_step :=
  match goal with
  | |- keeps (on_log _) (on_pipe _) => apply af_on_pipe
  | |- keeps (on_log _) (modify _) => apply af_modify
  | |- keeps (on_log _) record => apply af_record
  | _ => frame_step
  end.
Ltac pack := cbv zeta; repeat (pack_step; cbv beta iota zeta).

Lemma af_assign {A} (m : M Pipe A) z f : kept m → kept_pack (assign m z f). Proof. intros Hm. unfold assign. pack. Qed.
Lemma af_restore_cutover : kept_pack (restore_cutover rounds). Proof. unfold restore_cutover. pack. Qed.
Lemma af_recycle : kept_pack (recycle_staging rounds). Proof. unfold recycle_staging. pack. Qed.
Lemma af_restore_users : kept_pack restore_users. Proof. unfold restore_users. pack. Qed.
Hint Resolve af_restore_cutover af_recycle af_restore_users : frames.
Lemma af_rollback : kept_pack (rollbackCompletedPack rounds). Proof. unfold rollbackCompletedPack. pack. Qed.
Hint Resolve af_rollback : frames.
Lemma af_or_rollback {A} (m : M Pack A) : kept_pack m → kept_pack (or_rollback rounds m).
Proof. intros Hm. unfold or_rollback. pack. Qed.
Lemma af_save_states items : kept_pack (save_states items).
Proof.
  unfold save_states. pack; apply af_assign; frame.
Qed.
Lemma af_prepare : kept_pack (prepare_backup rounds).
Proof. unfold prepare_backup. pack; apply af_assign; frame. Qed.
Lemma af_cut_over : kept_pack cut_over. Proof. unfold cut_over. pack; apply af_assign; frame. Qed.
Lemma af_conclude : kept_pack conclude. Proof. unfold conclude. pack. Qed.
Hint Resolve af_save_states af_prepare af_cut_over af_conclude : frames.
Lemma af_finalize : kept_pack (finalizeCompletedPack rounds).
Proof. apply af_or_rollback. unfold finalize_body. pack. Qed.

Lemma af_with_record {A} p (m : M Pack A) : kept_pack m → kept (with_record p m).
Proof.
  intros Hm w. unfold wp, with_record. specialize (Hm (mkWorld (w_tick w) (mkPackState (w_db w) p))). unfold wp in Hm.
  destruct (m _) as [r w1]. exact Hm.
Qed.
Lemma af_stage_candidate t c : kept (stage_candidate rounds t c).
Proof.
  assert (∀ a s r title root ids, kept_pack (receive_release rounds a s r title root ids)) as Hreceive.
  { intros. unfold receive_release. pack; apply af_assign; frame. }
  assert (∀ s r title contents, kept (stage_release rounds t s r title contents)) as Hrelease.
  { intros. unfold stage_release. frame; apply af_with_record, af_or_rollback, Hreceive. }
  unfold stage_candidate, probe. frame.
Qed.
Lemma af_stage l cid gaps s cs : kept (stageCompletedPack rounds l cid gaps s cs).
Proof.
  unfold stageCompletedPack. frame. all: generalize (@nil error); intros errors.
  all: match goal with |- keeps _ (stage_candidates _ ?t _ _) => generalize t; intros target end.
  all: revert errors; induction cs as [|c cs IH]; intros errors; cbn [stage_candidates]; frame; apply af_stage_candidate.
Qed.
Hint Resolve af_stage : frames.

(** ** A series, and what surrounds a run *)

Lemma af_over : kept ctx_error. Proof. unfold ctx_error. frame. Qed.
Hint Resolve af_over : frames.
Lemma af_fold_break {A S} (f : S → A → M Pipe (S * bool)) l s : (∀ s x, kept (f s x)) → kept (fold_break f l s).
Proof. intros Hf. revert s. induction l as [|x l IH]; intros s; cbn [fold_break]; frame. Qed.
Lemma af_inspect gaps series id explicit st c : kept (inspect_candidate gaps series id explicit st c).
Proof. unfold inspect_candidate. frame. Qed.
Lemma af_candidates spec id name : kept (series_candidates spec id name). Proof. unfold series_candidates. frame. Qed.
Lemma af_receive_files root name cid folder t m keys : kept (receive_files root name cid folder t m keys).
Proof. unfold receive_files. frame. Qed.
Lemma af_refresh id : kept (RefreshSeriesMetadataCtx id). Proof. unfold RefreshSeriesMetadataCtx. frame. Qed.
Lemma af_prepare_run spec : kept (prepare spec).
Proof. unfold prepare. frame. Qed.
Lemma af_clean_series c r : kept (clean_series rounds c r).
Proof. unfold clean_series. frame. apply af_with_record, af_rollback. Qed.
Lemma af_map_acc {A S} (f : S → A → M Pipe (A * S)) l s : (∀ s x, kept (f s x)) → kept (map_acc f l s).
Proof. intros Hf. revert s. induction l as [|x l IH]; intros s; cbn [map_acc]; frame. Qed.
Lemma af_clean_library c l : kept (clean_library rounds c l).
Proof. unfold clean_library. apply keeps_bind; [apply _|apply af_map_acc, af_clean_series|]. intros. frame. Qed.
Lemma af_cleaned results c : kept (map_acc (clean_library rounds) results c).
Proof. apply af_map_acc, af_clean_library. Qed.
Lemma af_finalized p : kept (with_record p (finalizeCompletedPack rounds)).
Proof. apply af_with_record, af_finalize. Qed.
End Frames.
