(* ===== verification/AutofillProofs.v ===== *)
(** Properties of a run of the auto-fill ([AutofillRun.v]): what it queues is either left
    waiting by a run that succeeds or cancelled by one that fails, and the packs it staged
    are settled at its end. *)
From S2P Require Import Prelude GoStrings GoPath Regexp Sql Schema TaskStore TaskProofs Accounts Payload Queue QueueProofs FileSys Episodes Remote.
From S2P Require Import Drive DriveProofs Destination Identity Service Local Autofill Pipeline Media Replacement ReplacementProofs.
From S2P Require Import AutofillRun AutofillFrames.
From Stdlib Require Import Ascii.

(** ** Waiting tasks *)

Definition pending_in (d : Database) (id : string) : Prop := ∃ r, tasks d !! id = Some r ∧ AsyncTask.Status r = "pending".
Definition same_pending (d d' : Database) : Prop := ∀ id, pending_in d' id ↔ pending_in d id.
#[global] Instance same_pending_preorder : PreOrder same_pending.
Proof. split; [by intros d id|]. intros d1 d2 d3 H1 H2 id. by rewrite (H2 id), (H1 id). Qed.

Lemma same_tasks d d' : tasks d' = tasks d → same_pending d d'.
Proof. intros E id. unfold pending_in. by rewrite E. Qed.

(** An update of tasks that are not pending, which leaves them so. *)
Lemma update_pending d P f :
  (∀ id r, P id r = true → AsyncTask.Status r ≠ "pending" ∧ AsyncTask.Status (f r) ≠ "pending") →
  same_pending d (set_tasks (update_where P f (tasks d)) d).
Proof.
  intros HP id. unfold pending_in. cbn [tasks set_tasks]. unfold update_where. rewrite map_lookup_imap.
  destruct (tasks d !! id) as [r|]; simpl; [|done]. destruct (P id r) eqn:E; [|done].
  destruct (HP id r E). split; intros (r' & [= <-] & Hr'); done.
Qed.

Section Database.
Context `{Env}.

Ltac pending_leaf :=
  match goal with
  | |- keeps _ (exec _) => apply keeps_exec; [apply _|]; intros d; simpl; repeat case_match; by apply same_tasks
  | |- keeps _ (stmt _) =>
      apply keeps_stmt; [apply _|]; intros d u d' Hs; simpl in Hs; repeat case_match; simplify_eq/=; by apply same_tasks
  end.

Lemma sp_save r : keeps same_pending (SaveAccount "default" r).
Proof. unfold SaveAccount, put_account. keeps_run; pending_leaf. Qed.

Lemma sp_log id message : keeps same_pending (AppendTaskLog id message).
Proof.
  intros w. eapply wp_mono; [apply log_effect|]. intros [u|e] w'; [|by intros ->].
  intros (n & run & _ & ->). by apply same_tasks.
Qed.

Lemma sp_progress id p : keeps same_pending (UpdateAsyncTaskProgress id p).
Proof.
  intros w. eapply wp_mono; [apply progress_effect|]. intros [u|e] w'; [|by intros ->].
  intros (at_ & ->) id'. unfold pending_in. cbn [tasks set_runs set_tasks]. destruct (tasks (w_db w) !! id) as [t|] eqn:Et; [|done].
  destruct (is_running t) eqn:Er; [|done]. unfold is_running in Er. apply bool_decide_eq_true in Er.
  destruct (decide (id = id')) as [->|]; [|by rewrite lookup_insert_ne].
  rewrite lookup_insert_eq, Et. split; intros (r & [= <-] & Hr); simpl in *; congruence.
Qed.

(** Queueing makes one task wait more. *)
Lemma queue_pending newID p w :
  wp (enqueueAutofillQuarkImport newID p) w (λ r w', match r with
  | Ok (id, _) => ∀ id', pending_in (w_db w') id' ↔ pending_in (w_db w) id' ∨ id' = id
  | Err _ => same_pending (w_db w) (w_db w')
  end).
Proof.
  unfold enqueueAutofillQuarkImport. apply wp_bind, wp_lift. destruct (validateQuarkImportPayload p true) as [[]|e]; [|done].
  eapply wp_mono; [apply persist_effect|]. intros [[id t]|e] w'; [|by intros ->].
  intros (-> & _ & Hn & t' & E & _ & _ & Hs & _) id'. unfold pending_in. rewrite E.
  destruct (decide (newID = id')) as [->|Hne]; [rewrite lookup_insert_eq|rewrite lookup_insert_ne by done].
  - split; [auto|]. intros _. by exists t'.
  - split; [auto|]. by intros [?| ->].
Qed.

(** Cancelling makes no task wait, and once it has answered, its task does not. *)
Lemma cancel_pending id w :
  wp (CancelPendingAsyncTask id) w (λ r w',
    (∀ id', pending_in (w_db w') id' → pending_in (w_db w) id') ∧ (is_ok r = true → ¬ pending_in (w_db w') id)).
Proof.
  destruct w as [n d]. unfold CancelPendingAsyncTask. wp_run; try (split; [by auto|done]).
  rewrite update_by_key. unfold pending_in. destruct (tasks d !! id) as [t0|] eqn:Ht; simpl.
  - destruct (bool_decide (AsyncTask.Status t0 = "pending")) eqn:Hs; simpl.
    + apply bool_decide_eq_true in Hs. split.
      * intros id'. destruct (decide (id = id')) as [->|Hne]; [|by rewrite lookup_insert_ne].
        rewrite lookup_insert_eq. by intros (r & [= <-] & Hr).
      * intros _ (r & Hr & Hp). rewrite lookup_insert_eq in Hr. by injection Hr as <-.
    + apply bool_decide_eq_false in Hs. split; [by auto|]. intros _ (r & Hr & Hp). congruence.
  - split; [by auto|]. intros _ (r & Hr & Hp). congruence.
Qed.
End Database.

(** The tasks of a list wait too. *)
Definition added (ids : list string) (d d' : Database) : Prop := ∀ id, pending_in d' id ↔ pending_in d id ∨ id ∈ ids.

Lemma added_none d d' : same_pending d d' → added [] d d'.
Proof. intros Hs id. rewrite (Hs id), elem_of_nil. tauto. Qed.
Lemma added_after ids d d1 d2 : added ids d d1 → same_pending d1 d2 → added ids d d2.
Proof. intros Ha Hs id. by rewrite (Hs id). Qed.
Lemma added_before ids d d1 d2 : same_pending d d1 → added ids d1 d2 → added ids d d2.
Proof. intros Hs Ha id. by rewrite (Ha id), (Hs id). Qed.
Lemma added_more ids d d1 d2 id : added ids d d1 → (∀ id', pending_in d2 id' ↔ pending_in d1 id' ∨ id' = id) → added (ids ++ [id]) d d2.
Proof. intros Ha Hq id'. rewrite (Hq id'), (Ha id'), elem_of_app, list_elem_of_singleton. tauto. Qed.

Definition queued_ids (l : list AutoFillQueuedImport) : list string := qi_TaskID <$> l.

(** ** One series *)

Section Series.
Context `{Env} `{Ctx} `{Sleep} `{Remote} `{Providers} `{Local} `{Urls} `{Sha256} `{Format} `{Names} `{Ranging} `{Workers} `{Unicode}.
Context `{Uuids} `{Snapshots} `{CidMap} (rounds : nat).
Abbreviation R := (pipe_rel any_request same_pending).

(** A frame lemma, for the tasks that wait. *)
Ltac framed l := apply l; first [apply sp_save|apply _].

Lemma wp_waits {A} (m : M Pipe A) w (Q : res A → World Pipe → Prop) :
  keeps R m → (∀ r w', same_pending (pi_db (w_db w)) (pi_db (w_db w')) → Q r w') → wp m w Q.
Proof. intros Hm HQ. eapply wp_mono; [apply Hm|]. intros r w' [_ Hs]. by apply HQ. Qed.

(** Attempts and loops that always give a value. *)
Definition total_with {A D} (m : M D A) w (Q : A → World D → Prop) : Prop := wp m w (λ r w', ∃ a, r = Ok a ∧ Q a w').

Lemma total_ret {A D} (a : A) (w : World D) Q : Q a w → total_with (mret a) w Q.
Proof. intros HQ. apply wp_ret. by exists a. Qed.
Lemma total_bind {A B D} (m : M D A) (f : A → M D B) w Q :
  total_with m w (λ a w', total_with (f a) w' Q) → total_with (m ≫= f) w Q.
Proof. intros Hm. apply wp_bind. eapply wp_mono; [exact Hm|]. by intros r w' (a & -> & Ha). Qed.
Lemma total_attempt {A D} (m : M D A) w Q : wp m w Q → total_with (attempt m) w Q.
Proof. intros Hm. apply wp_attempt. eapply wp_mono; [exact Hm|]. intros r w' HQ. by exists r. Qed.
Lemma total_mono {A D} (m : M D A) w (P Q : A → World D → Prop) : total_with m w P → (∀ a w', P a w' → Q a w') → total_with m w Q.
Proof. intros Hm HQ. eapply wp_mono; [exact Hm|]. intros r w' (a & -> & Ha). exists a. auto. Qed.
Lemma total_quiet {A} (m : M Pipe A) w Q :
  keeps R m → (∀ r w', same_pending (pi_db (w_db w)) (pi_db (w_db w')) → Q r w') → total_with (attempt m) w Q.
Proof. intros Hm HQ. apply total_attempt. by apply wp_waits. Qed.
Lemma total_over w Q : (∀ o n, Q o (mkWorld n (w_db w))) → total_with ctx_error w Q.
Proof.
  intros HQ. unfold ctx_error. apply wp_bind, wp_ctx_over. intros b n. apply wp_ret. eexists. split; [done|]. apply HQ.
Qed.

Lemma total_fold_break {A S} (f : S → A → M Pipe (S * bool)) (P : S → Database → Prop) l :
  (∀ s x w, P s (pi_db (w_db w)) → total_with (f s x) w (λ r w', P r.1 (pi_db (w_db w')))) →
  ∀ s w, P s (pi_db (w_db w)) → total_with (fold_break f l s) w (λ s' w', P s' (pi_db (w_db w'))).
Proof.
  intros Hf. induction l as [|x l IH]; intros s w HP; cbn [fold_break]; [by apply total_ret|].
  apply total_bind. eapply total_mono; [by apply Hf|]. intros [s' stop] w1 Hp1. destruct stop; [by apply total_ret|by apply IH].
Qed.

(** What the transfers have queued waits. *)
Definition waiting (d : Database) (t : transfer) (d' : Database) : Prop := added (queued_ids (tr_queued t)) d d'.

Lemma queue_import_waits d library cid series tmdb folder parent t m keys w :
  waiting d t (pi_db (w_db w)) →
  total_with (queue_import library cid series tmdb folder parent t m keys) w (λ t' w', waiting d t' (pi_db (w_db w'))).
Proof.
  intros Ht. unfold queue_import. apply total_bind, total_quiet; [framed af_default|]. intros quark w1 Hp1.
  apply total_bind, total_quiet; [framed af_setting|]. intros target w2 Hp2.
  apply total_bind, total_quiet; [framed af_default|]. intros c115 w3 Hp3.
  assert (waiting d t (pi_db (w_db w3))) as Hw by (by do 3 (eapply added_after; [|done])).
  destruct quark as [quark|]; [|by apply total_ret]. destruct target as [target|]; [|by apply total_ret].
  destruct c115 as [c115|]; [|by apply total_ret]. destruct (bool_decide _); [by apply total_ret|]. cbv zeta.
  apply total_bind, total_attempt, wp_bind. apply wp_waits; [framed af_uuid|]. intros [id|e] w4 Hp4.
  2: { apply total_ret. by eapply added_after. }
  apply wp_on_db. eapply wp_mono; [apply queue_pending|]. intros [[id' task]|e] w5 Hp5; apply total_ret; unfold waiting in *; simpl in *.
  - unfold queued_ids. rewrite fmap_app. eapply added_more; [|done]. by eapply added_after.
  - do 2 (eapply added_after; [|done]). done.
Qed.

Lemma receive_files_waits d root name cid folder t m keys w :
  waiting d t (pi_db (w_db w)) →
  total_with (receive_files root name cid folder t m keys) w (λ r w', waiting d r.1 (pi_db (w_db w'))).
Proof.
  intros Ht. unfold receive_files. apply total_bind, total_quiet; [framed af_account|]. intros a w1 Hp1.
  assert (waiting d t (pi_db (w_db w1))) as Hw1 by (by eapply added_after). destruct a as [a|]; [|by apply total_ret].
  destruct (ParseShareCode _ _) as [[shareCode receiveCode]|]; [|by apply total_ret]. cbv zeta.
  apply total_bind, total_quiet; [framed af_receive|]. intros received w2 Hp2.
  assert (waiting d t (pi_db (w_db w2))) as Hw2 by (by eapply added_after). destruct received as [u|e]; [by apply total_ret|].
  destruct (stopAutoFillShareProbes e); [by apply total_ret|]. apply total_bind, total_over. intros [e'|] n; by apply total_ret.
Qed.

Lemma transfer_one_waits d spec parent root library cid series tmdb folder target inspected chosen t index w :
  waiting d t (pi_db (w_db w)) →
  total_with (transfer_one spec parent root library cid series tmdb folder target inspected chosen t index) w
    (λ r w', waiting d r.1 (pi_db (w_db w'))).
Proof.
  intros Ht. unfold transfer_one. cbv zeta. destruct (inspected !! index) as [m|]; [|by apply total_ret].
  destruct (negb _); [by apply total_ret|]. destruct (bool_decide _); [|by apply receive_files_waits].
  apply total_bind. eapply total_mono; [by apply queue_import_waits|]. intros t' w' Ht'. by apply total_ret.
Qed.

(** A series never fails after it has queued something: its result names all that waits. *)
Lemma transfer_series_waits spec parent root library cid series name tmdb folder target gaps i w :
  total_with (transfer_series spec parent root library cid series name tmdb folder target gaps i) w
    (λ r w', added (queued_ids (sr_QueuedImports r.1)) (pi_db (w_db w)) (pi_db (w_db w'))).
Proof.
  unfold transfer_series. cbv zeta. apply total_bind.
  eapply total_mono; [apply (total_fold_break _ (waiting (pi_db (w_db w))))|].
  - intros t x w1 Ht. by apply transfer_one_waits.
  - by apply added_none.
  - intros t w1 Ht. destruct (_ && _); [|by apply total_ret].
    apply total_bind, total_quiet; [framed af_files|]. intros r w2 Hp2.
    destruct r; apply total_ret; cbn [fst sr_QueuedImports]; (eapply added_after; [exact Ht|exact Hp2]).
Qed.

(** A series adds what its result says, and nothing when it is given up. *)
Definition series_adds (d d' : Database) (r : res (SeriesAutoFillResult * list string)) : Prop :=
  match r with Ok (r, _) => added (queued_ids (sr_QueuedImports r)) d d' | Err _ => same_pending d d' end.

Lemma processAutoFillSeries_adds library cid gaps id name canonical count spec parent w :
  wp (processAutoFillSeries rounds library cid gaps id name canonical count spec parent) w
    (λ r w', series_adds (pi_db (w_db w)) (pi_db (w_db w')) r).
Proof.
  unfold processAutoFillSeries. cbv zeta.
  assert (∀ folder e w', same_pending (pi_db (w_db w)) (pi_db (w_db w')) →
    wp (mret (refused id name folder (sortedEpisodeLabels gaps) None (Some e) e, [])) w'
      (λ r w', series_adds (pi_db (w_db w)) (pi_db (w_db w')) r)) as Hfatal.
  { intros folder e w' Hs. apply wp_ret. by apply added_none. }
  destruct canonical as [series|]; [|by apply Hfatal]. destruct (negb _); [by apply Hfatal|].
  destruct (bool_decide _ || negb _); [by apply Hfatal|]. destruct (bool_decide _ || bool_decide _ || negb _); [by apply Hfatal|].
  apply wp_bind, wp_attempt. apply wp_waits; [framed af_folder|]. intros target w1 Hp1.
  destruct target as [target|e]; [|by apply Hfatal].
  apply wp_bind, wp_attempt. apply wp_waits; [framed af_candidates|]. intros found w2 Hp2.
  assert (same_pending (pi_db (w_db w)) (pi_db (w_db w2))) as Hs2 by (by etrans).
  destruct found as [[[candidates lost] explicit]|e]; [|by apply Hfatal].
  apply wp_bind. apply wp_waits.
  { destruct (_ && _); [apply keeps_attempt; framed af_stage|apply keeps_ret, _]. }
  intros [staged|e] w3 Hp3; [|unfold series_adds; by etrans]. assert (same_pending (pi_db (w_db w)) (pi_db (w_db w3))) as Hs3 by (by etrans).
  destruct staged as [[[p paths]|]|e]; [apply wp_ret; by apply added_none| |apply wp_ret; by apply added_none].
  apply wp_bind. apply wp_waits; [apply af_or_zero; [apply _|framed af_setting]|]. intros [root|e] w4 Hp4; [|unfold series_adds; by etrans].
  apply wp_bind. apply wp_waits; [apply af_fold_break; [apply _|intros; framed af_inspect]|].
  intros [i|e] w5 Hp5; [|unfold series_adds; etrans; [exact Hs3|]; by etrans].
  eapply wp_mono; [apply transfer_series_waits|]. intros r w6 ([sr l] & -> & Ha).
  eapply added_before; [|exact Ha]. etrans; [exact Hs3|]. by etrans.
Qed.
End Series.

(** ** A run

    The tasks a run has queued are those its results name. *)

Definition library_queue (l : LibraryAutoFillResult) : list AutoFillQueuedImport := r ← lr_Series l; sr_QueuedImports r.

Lemma queued_imports_concat results : queued_imports results = concat (library_queue <$> results).
Proof. induction results as [|l results IH]; [done|]. unfold queued_imports in *. cbn. by rewrite IH. Qed.

Lemma fmap_alter_same {A B} (g : A → B) f i (l : list A) : (∀ x, l !! i = Some x → g (f x) = g x) → g <$> alter f i l = g <$> l.
Proof.
  intros Hf. apply list_eq. intros j. rewrite !list_lookup_fmap. destruct (decide (i = j)) as [->|]; [|by rewrite list_lookup_alter_ne].
  rewrite list_lookup_alter_eq. destruct (l !! j) as [x|] eqn:E; simpl; [|done]. by rewrite Hf.
Qed.

Lemma update_series_queue j f l :
  (∀ r, sr_QueuedImports (f r) = sr_QueuedImports r) → library_queue (update_series j f l) = library_queue l.
Proof.
  intros Hf. unfold library_queue, update_series. cbn [set_series lr_Series].
  assert (∀ l : list SeriesAutoFillResult, (r ← l; sr_QueuedImports r) = concat (sr_QueuedImports <$> l)) as Hc.
  { intros l'. induction l' as [|x l' IH]; [done|]. cbn. by rewrite IH. }
  rewrite !Hc. by rewrite fmap_alter_same.
Qed.

Lemma check_library_queue remaining current initial l : library_queue (check_library remaining current initial l).1 = library_queue l.
Proof.
  unfold check_library. cbv zeta.
  assert (∀ js st, library_queue (foldl (check_series current initial) st js).1 = library_queue st.1) as ->.
  - induction js as [|j js IH]; intros st; [done|]. cbn [foldl]. rewrite IH. unfold check_series.
    destruct (lr_Series st.1 !! j) as [r|]; [|done]. destruct (identity_issue _ _ _); [|done]. cbv zeta. cbn [fst].
    by apply update_series_queue.
  - unfold library_queue. cbn [fst lr_Series set_series set_remaining_count].
    induction (lr_Series l) as [|r rs IH]; [done|]. cbn. by rewrite IH.
Qed.

Definition waits_as (s s' : Fill) : Prop :=
  same_pending (pi_db (fl_pipe s)) (pi_db (fl_pipe s')) ∧ library_queue <$> fl_results s' = library_queue <$> fl_results s.
#[global] Instance waits_as_preorder : PreOrder waits_as.
Proof.
  split; [intros s; split; by reflexivity|]. intros s1 s2 s3 [Ha1 Hb1] [Ha2 Hb2]. split; [by etrans|by rewrite Hb2].
Qed.

(** A property that steps keep. *)
Definition stays {D} (P : D → Prop) (s s' : D) : Prop := P s → P s'.
#[global] Instance stays_preorder {D} (P : D → Prop) : PreOrder (stays P).
Proof. split; [by intros s Hs|]. intros s1 s2 s3 Ha Hb Hs. by apply Hb, Ha. Qed.

Lemma keeps_stays {D A} (P : D → Prop) (m : M D A) :
  (∀ w, P (w_db w) → wp m w (λ _ w', P (w_db w'))) → keeps (stays P) m.
Proof. intros Hm w. specialize (Hm w). unfold wp in *. destruct (m w) as [r w']. exact Hm. Qed.

(** The tasks that wait are those of [d] and those of the results. *)
Definition balanced (d : Database) (s : Fill) : Prop :=
  added (queued_ids (queued_imports (fl_results s))) d (pi_db (fl_pipe s)).
Definition filling (d : Database) (s : Fill) : Prop := fl_results s ≠ [] ∧ balanced d s.

Lemma balanced_as d s s' : waits_as s s' → balanced d s → balanced d s'.
Proof.
  intros [Hs Hq] Hb. unfold balanced in *. rewrite queued_imports_concat in *. rewrite Hq. by eapply added_after.
Qed.
Lemma filling_as d s s' : waits_as s s' → filling d s → filling d s'.
Proof.
  intros Hw [Hn Hb]. split; [|by eapply balanced_as]. destruct Hw as [_ Hq]. intros E. rewrite E in Hq.
  apply Hn. symmetry in Hq. by apply fmap_nil_inv in Hq.
Qed.

(** ** Errors in a joined error *)

Fixpoint joins (e : error) : list error := match e with ErrBoth a b => joins a ++ joins b | e => [e] end.
Definition reports (failure : option error) (e : error) : Prop := ∃ f, failure = Some f ∧ e ∈ joins f.

Lemma reports_join a b e : reports (join_errors a b) e ↔ reports a e ∨ reports b e.
Proof.
  unfold reports. destruct a as [a|], b as [b|]; cbn [join_errors].
  - split; [intros (f & [= <-] & He); cbn [joins] in He; apply elem_of_app in He as [He|He]; [left|right]; by eexists|].
    intros He. eexists. split; [done|]. cbn [joins]. apply elem_of_app. destruct He as [(f & [= <-] & He)|(f & [= <-] & He)]; auto.
  - split; [by left|]. by intros [He|(f & [=] & _)].
  - split; [by right|]. by intros [(f & [=] & _)|He].
  - split; [by left|]. by intros [He|He].
Qed.

Lemma joins_some e : ∃ x, x ∈ joins e.
Proof.
  induction e as [m|p e IH|e IH m|e1 IH1 e2 IH2| | | |m|o z|m|p|p|m|z m]; try (eexists; by left).
  destruct IH1 as [x Hx]. exists x. apply elem_of_app. by left.
Qed.

Definition reports_more (c c' : cleaned) : Prop := ∀ e, reports (cn_error c) e → reports (cn_error c') e.
#[global] Instance reports_more_preorder : PreOrder reports_more.
Proof. split; [by intros c e|]. intros c1 c2 c3 Ha Hb e He. by apply Hb, Ha. Qed.

(** A staged pack that is settled, or reported. *)
Definition restore_error (r : SeriesAutoFillResult) (e : error) : error := ErrWrap ("restore " +:+ sr_SeriesName r +:+ ": ") e.
Definition settled (failure : option error) (r : SeriesAutoFillResult) : Prop :=
  ∀ p, sr_replacement r = Some p →
    cp_Finalized p = true ∨ cp_RolledBack p = true ∨
    sr_ReplacementStatus r = "recovery_required" ∧ ∃ e, reports failure (restore_error r e).

Definition cleaned_series (r r' : SeriesAutoFillResult) (c : cleaned) : Prop :=
  sr_QueuedImports r' = sr_QueuedImports r ∧ settled (cn_error c) r'.
Definition cleaned_library (l l' : LibraryAutoFillResult) (c : cleaned) : Prop :=
  Forall2 (λ r r', cleaned_series r r' c) (lr_Series l) (lr_Series l').

Lemma settled_more f f' r : (∀ e, reports f e → reports f' e) → settled f r → settled f' r.
Proof. intros Hf Hs p Hp. destruct (Hs p Hp) as [?|[?|[? [e He]]]]; [by left|by right; left|]. do 2 right. split; [done|]. exists e. by apply Hf. Qed.
Lemma cleaned_series_later r r' c c' : cleaned_series r r' c → reports_more c c' → cleaned_series r r' c'.
Proof. intros [Hq Hs] Hm. split; [done|]. by eapply settled_more. Qed.
Lemma cleaned_library_later l l' c c' : cleaned_library l l' c → reports_more c c' → cleaned_library l l' c'.
Proof. intros Hl Hm. unfold cleaned_library in *. eapply Forall2_impl; [exact Hl|]. intros r r' Hr. cbv beta in *. eapply cleaned_series_later; [exact Hr|exact Hm]. Qed.

Lemma cleaned_queue results results' c :
  Forall2 (λ l l', cleaned_library l l' c) results results' → queued_imports results' = queued_imports results.
Proof.
  intros Hr. rewrite !queued_imports_concat. f_equal. induction Hr as [|l l' rs rs' Hl _ IH]; [done|].
  rewrite !fmap_cons, IH. f_equal. unfold library_queue. induction Hl as [|r r' ss ss' [Hq _] _ IHs]; [done|]. cbn. by rewrite Hq, IHs.
Qed.

Section Run.
Context `{Env} `{Ctx} `{Sleep} `{Remote} `{Providers} `{Local} `{Urls} `{Sha256} `{Format} `{Names} `{Ranging} `{Workers} `{Unicode}.
Context `{Uuids} `{Snapshots} `{CidMap} (rounds : nat).
Abbreviation R := (pipe_rel any_request same_pending).
Abbreviation calm m := (keeps waits_as m).

Lemma wp_on_run {A} (m : M Pipe A) w (Q : res A → World Fill → Prop) :
  wp m (mkWorld (w_tick w) (fl_pipe (w_db w)))
    (λ r x, Q r (mkWorld (w_tick x) (mkFill (w_db x) (fl_results (w_db w))))) → wp (on_run m) w Q.
Proof. unfold wp, on_run. by destruct (m _). Qed.

Lemma wp_update f w (Q : res unit → World Fill → Prop) :
  Q (Ok tt) (mkWorld (w_tick w) (mkFill (fl_pipe (w_db w)) (f (fl_results (w_db w))))) → wp (update_results f) w Q.
Proof. done. Qed.
Lemma wp_results w (Q : res (list LibraryAutoFillResult) → World Fill → Prop) : Q (Ok (fl_results (w_db w))) w → wp results w Q.
Proof. done. Qed.

Lemma waits_on_run {A} (m : M Pipe A) : keeps R m → calm (on_run m).
Proof. intros Hm w. apply wp_on_run. eapply wp_mono; [apply Hm|]. intros r w' [_ Hs]. by split. Qed.
Lemma waits_results : calm results. Proof. intros w. unfold wp, results. by reflexivity. Qed.
Lemma waits_library i f : (∀ l, library_queue (f l) = library_queue l) → calm (update_library i f).
Proof. intros Hf w. split; [by reflexivity|]. cbn. by rewrite fmap_alter_same. Qed.
Lemma waits_last f : (∀ l, library_queue (f l) = library_queue l) → calm (update_last f).
Proof. intros Hf w. split; [by reflexivity|]. cbn. by rewrite fmap_alter_same. Qed.
Lemma waits_task_log id message : calm (task_log id message).
Proof. apply waits_on_run, keeps_on_db, sp_log; apply _. Qed.
Lemma waits_progress id p : calm (on_run (on_db (UpdateAsyncTaskProgress id p))).
Proof. apply waits_on_run, keeps_on_db, sp_progress; apply _. Qed.

(** One step of a run that queues nothing. *)
Ltac framed l := apply l; first [apply sp_save|apply _].
Ltac waits_step :=
  match goal with
  | |- keeps _ (task_log _ _) => apply waits_task_log
  | |- keeps _ results => apply waits_results
  | |- keeps _ (on_run (on_db (UpdateAsyncTaskProgress _ _))) => apply waits_progress
  | |- keeps _ (on_run _) => apply waits_on_run
  | |- keeps _ (update_library _ _) => apply waits_library
  | |- keeps _ (update_last _) => apply waits_last
  | |- keeps _ (ListSeriesCtx _) => framed af_series
  | |- keeps _ (ListAiredMissingEpisodesCtx _) => framed af_missing
  | |- keeps _ (RefreshSeriesMetadataCtx _) => framed af_refresh
  | |- keeps _ RunLibraryScanCtx => framed af_library_scan
  | |- keeps _ (SyncSTRMWithProgress _ None) => framed af_sync
  | |- keeps _ ctx_error => framed af_over
  | |- keeps _ (with_record _ (finalizeCompletedPack _)) => framed af_finalized
  | _ => frame_step
  end.
Ltac calm := cbv zeta; repeat (waits_step; cbv beta iota zeta).

Lemma waits_refresh id name inventory : calm (refresh_series id name inventory).
Proof. unfold refresh_series. calm. Qed.
Lemma waits_missing spec l : calm (missing_now spec l). Proof. unfold missing_now. calm. Qed.
Lemma waits_count spec : calm (count_again spec).
Proof. unfold count_again. calm; [apply waits_missing|done]. Qed.
Lemma waits_finalize id i j st : calm (finalize_series rounds id i j st).
Proof. unfold finalize_series. calm; intros l; try done; by apply update_series_queue. Qed.
Lemma waits_packs id t : calm (finalize_packs rounds id t).
Proof. unfold finalize_packs. calm. apply waits_finalize. Qed.
Lemma waits_conclude spec id remaining t : calm (conclude_run spec id remaining t).
Proof. unfold conclude_run. calm. Qed.

(** The libraries are checked as they are in the results. *)
Lemma waits_verify spec t : calm (verify_libraries spec t).
Proof.
  intros w. unfold verify_libraries. apply wp_bind, wp_results.
  set (rs := fl_results (w_db w)). apply wp_bind. eapply wp_mono; [apply (keeps_fold waits_as); intros; calm|].
  intros [current|e] w1 Hw1; [|exact Hw1].
  eapply wp_mono; [apply (keeps_fold (stays (λ s, library_queue <$> fl_results s = library_queue <$> rs ∧ same_pending (pi_db (fl_pipe (w_db w))) (pi_db (fl_pipe s)))))|].
  - intros [n t'] [i l] Hil w2. apply elem_of_lookup_imap in Hil as (i' & l' & [= -> ->] & Hl).
    unfold stays. apply wp_bind. eapply wp_mono; [apply waits_missing|]. intros [remaining|e] w3 [Hs3 Hq3].
    2: { intros [Hq Hs]. split; [congruence|by etrans]. }
    pose proof (check_library_queue remaining (default ∅ (current !! lr_LibraryID l')) (default ∅ (to_initial t' !! lr_LibraryID l')) l') as Hk.
    cbv zeta. destruct (check_library _ _ _ l') as [checked fatal]. apply wp_bind, wp_update. cbn.
    intros [Hq Hs]. split; [|by etrans]. rewrite <-Hq, <-Hq3. apply fmap_alter_same. intros x Hx. cbn in Hk. rewrite Hk.
    assert ((library_queue <$> fl_results (w_db w3)) !! i' = (library_queue <$> rs) !! i') as E by congruence.
    rewrite !list_lookup_fmap, Hx, Hl in E. by injection E.
  - intros r w2 Hst. destruct Hw1 as [Hs1 Hq1]. destruct (Hst (conj Hq1 Hs1)) as [Hq2 Hs2]. by split.
Qed.

(** *** Filling *)

Lemma queued_add_series r l results :
  queued_ids (queued_imports (results ++ [add_series r l])) =
  queued_ids (queued_imports (results ++ [l])) ++ queued_ids (sr_QueuedImports r).
Proof.
  assert (library_queue (add_series r l) = library_queue l ++ sr_QueuedImports r) as E.
  { unfold library_queue. cbn [add_series lr_Series]. rewrite bind_app. cbn. by rewrite app_nil_r. }
  rewrite !queued_imports_concat. unfold queued_ids. rewrite <-fmap_app, !fmap_app, !concat_app. cbn [fmap list_fmap concat].
  by rewrite !app_nil_r, E, !fmap_app, app_assoc.
Qed.

Lemma fill_series_stays d spec id library cid index byID counts g t js :
  keeps (stays (filling d)) (fill_series rounds spec id library cid index byID counts g t js).
Proof.
  apply keeps_stays. intros w [Hn Hb]. destruct js as [j seriesID]. unfold fill_series. apply wp_bind.
  eapply wp_mono; [apply waits_progress|]. intros [u|e] w1 Hw1; [|by eapply filling_as].
  assert (filling d (w_db w1)) as [Hn1 Hb1] by (by eapply filling_as). cbv zeta.
  apply wp_bind, wp_on_run. eapply wp_mono; [apply processAutoFillSeries_adds|]. intros [[r paths]|e] w2 Ha; cbn [w_db] in Ha.
  2: { split; [done|]. unfold balanced. cbn. by eapply added_after. }
  apply wp_bind, wp_update. cbn [w_db w_tick fl_pipe fl_results].
  set (v := mkWorld _ _). assert (filling d (w_db v)) as Hv.
  { unfold v. cbn [w_db]. destruct (fl_results (w_db w1)) as [|l rs _] eqn:E using rev_ind; [done|].
    rewrite length_app, Nat.add_1_r. cbn [pred]. rewrite alter_app_r_alt by lia. rewrite Nat.sub_diag. cbn.
    split; [cbn; by intros [_ ?]%app_nil|]. unfold balanced in *. cbn [fl_results fl_pipe]. rewrite queued_add_series.
    rewrite E in Hb1. intros id'. rewrite (Ha id'), (Hb1 id'), elem_of_app. cbn [fl_pipe]. tauto. }
  clearbody v. match goal with |- wp ?m _ _ => assert (calm m) as Hz end; [calm; by intros l|].
  eapply wp_mono; [apply Hz|]. intros r' w3 Hw3. eapply filling_as; [exact Hw3|exact Hv].
Qed.

Lemma fill_library_stays d spec id pre t il : keeps (stays (balanced d)) (fill_library rounds spec id pre t il).
Proof.
  apply keeps_stays. intros w Hb. destruct il as [index name]. unfold fill_library. apply wp_bind, wp_lift.
  destruct (eligible _ _) as [library|e]; [|done]. cbv zeta.
  apply wp_bind. eapply wp_mono; [apply waits_task_log|]. intros [u|e] w1 Hw1; [|by eapply balanced_as].
  apply wp_bind. eapply wp_mono; [apply waits_refresh|]. intros [u2|e] w2 Hw2; [|by do 2 (eapply balanced_as; [done|])].
  apply wp_bind. eapply wp_mono; [apply waits_on_run; framed af_missing|]. intros [found|e] w3 Hw3; [|by do 3 (eapply balanced_as; [done|])].
  assert (balanced d (w_db w3)) as Hb3 by (by do 3 (eapply balanced_as; [done|])). apply wp_bind, wp_update.
  set (v := mkWorld _ _). assert (filling d (w_db v)) as Hv.
  { split; [by intros [_ ?]%app_nil|]. unfold balanced in *. cbn [v w_db fl_results fl_pipe].
    rewrite queued_imports_concat, fmap_app, concat_app in *. cbn. by rewrite app_nil_r. }
  clearbody v. apply wp_bind. eapply wp_mono; [apply (keeps_fold (stays (filling d))); intros; apply fill_series_stays|].
  intros [t'|e] w4 Hw4; [|by apply Hw4]. apply Hw4 in Hv as [_ Hb4].
  match goal with |- wp ?m _ _ => assert (calm m) as Hz end; [calm|].
  eapply wp_mono; [apply Hz|]. intros r w5 Hw5. eapply balanced_as; [exact Hw5|exact Hb4].
Qed.

Lemma autofill_body_stays d spec id pre : keeps (stays (balanced d)) (autofill_body rounds spec id pre).
Proof.
  unfold autofill_body. assert (∀ A (m : M Fill A), calm m → keeps (stays (balanced d)) m) as Hc.
  { intros A m. apply keeps_weaken. intros s s' Hs. unfold stays. by apply balanced_as. }
  apply keeps_bind; [apply _|apply (keeps_fold _); intros; apply fill_library_stays|]. intros t. apply Hc. clear Hc.
  apply keeps_bind; [apply _|calm|]. intros _. apply keeps_bind; [apply _|apply waits_verify|]. intros [remaining t'].
  apply keeps_bind; [apply _|apply waits_packs|]. intros [replaced t2].
  apply keeps_bind; [apply _|destruct replaced; [apply waits_count|calm]|]. intros n. apply waits_conclude.
Qed.

(** *** The clean-up *)

(** A rollback that succeeds leaves the pack rolled back, or finds it finalized. *)
Lemma rollback_settles w :
  wp (rollbackCompletedPack rounds) w (λ r w', is_ok r = true →
    cp_Finalized (pk_record (w_db w')) = true ∨ cp_RolledBack (pk_record (w_db w')) = true).
Proof.
  unfold rollbackCompletedPack. apply wp_bind, wp_gets. cbv beta. destruct (cp_Finalized _ || cp_RolledBack _) eqn:E.
  { apply wp_ret. intros _. by apply orb_true_iff in E. }
  destruct (_ && _); [by apply wp_throw|]. do 3 (apply wp_bind_any; [intros ? ?|done]).
  destruct (cp_CutoverStarted _).
  - unfold restore_users. apply wp_bind, wp_gets. do 2 (apply wp_bind_any; [intros ? ?|done]).
    destruct (find _ _); [|by apply wp_throw]. apply wp_bind_any; [|done]. intros [items ?] ?. apply wp_bind_any; [|done]. intros ? ?.
    apply wp_modify_record. intros _. by right.
  - apply wp_bind, wp_gets. apply wp_modify_record. intros _. by right.
Qed.

Lemma with_record_rollback p w :
  total_with (with_record p (rollbackCompletedPack rounds)) w (λ x _, is_ok x.2 = true → cp_Finalized x.1 = true ∨ cp_RolledBack x.1 = true).
Proof.
  pose proof (rollback_settles (mkWorld (w_tick w) (mkPackState (w_db w) p))) as Hr. unfold total_with, wp, with_record in *.
  destruct (rollbackCompletedPack rounds _) as [r w1]. by eexists.
Qed.

Lemma total_map_acc {A S} (f : S → A → M Pipe (A * S)) (G : A → S → A → S → Prop) (K : S → S → Prop) `{!PreOrder K} l :
  (∀ s x w, total_with (f s x) w (λ r _, G x s r.1 r.2 ∧ K s r.2)) →
  (∀ x s y s1 s2, G x s y s1 → K s1 s2 → G x s y s2) → (∀ x s0 s y s1, K s0 s → G x s y s1 → G x s0 y s1) →
  ∀ s w, total_with (map_acc f l s) w (λ r _, Forall2 (λ x y, G x s y r.2) l r.1 ∧ K s r.2).
Proof.
  intros Hf Hlater Hbefore. induction l as [|x l IH]; intros s w; cbn [map_acc]; [by apply total_ret|].
  apply total_bind. eapply total_mono; [apply Hf|]. intros [y s1] w1 [Hy Hk1].
  apply total_bind. eapply total_mono; [apply IH|]. intros [ys s2] w2 [Hys Hk2]. apply total_ret. cbn in *.
  split; [|by etrans]. constructor; [by eapply Hlater|]. eapply Forall2_impl; [exact Hys|]. intros a b Hab. by eapply Hbefore.
Qed.

Lemma clean_series_settles c r w :
  total_with (clean_series rounds c r) w (λ x _, cleaned_series r x.1 x.2 ∧ reports_more c x.2).
Proof.
  unfold clean_series, cleaned_series. destruct (sr_replacement r) as [p|] eqn:Er.
  2: { apply total_ret. cbn. split; [|by reflexivity]. split; [done|]. intros p Hp. congruence. }
  cbv zeta. destruct (cp_Finalized p) eqn:Ef.
  { apply total_ret. cbn. split; [|by reflexivity]. split; [done|]. intros p' [= <-]. by left. }
  apply total_bind. eapply total_mono; [apply with_record_rollback|]. intros [p' undone] w1 Hu. cbn in Hu.
  destruct undone as [u|e]; apply total_ret; cbn.
  - split; [|by intros e He]. split; [done|]. intros p2 [= <-]. destruct (Hu eq_refl); auto.
  - split; [split; [done|]|].
    + intros p2 _. do 2 right. split; [done|]. exists e. apply reports_join. right. eexists. split; [done|]. by left.
    + intros e' He'. apply reports_join. by left.
Qed.

Lemma clean_library_settles c l w :
  total_with (clean_library rounds c l) w (λ x _, cleaned_library l x.1 x.2 ∧ reports_more c x.2).
Proof.
  unfold clean_library, cleaned_library. apply total_bind. eapply total_mono; [apply (total_map_acc _ (λ r c r' c', cleaned_series r r' c') reports_more)|].
  - intros. apply clean_series_settles.
  - intros. by eapply cleaned_series_later.
  - done.
  - intros [series c'] w1 [Hs Hk]. by apply total_ret.
Qed.

Lemma clean_settles c results w :
  total_with (map_acc (clean_library rounds) results c) w
    (λ x w', Forall2 (λ l l', cleaned_library l l' x.2) results x.1 ∧ reports_more c x.2 ∧ same_pending (pi_db (w_db w)) (pi_db (w_db w'))).
Proof.
  assert (keeps R (map_acc (clean_library rounds) results c)) as Hkeep by framed af_cleaned.
  eapply wp_mono; [apply wp_and; [apply (total_map_acc _ (λ l c l' c', cleaned_library l l' c') reports_more)|apply Hkeep]|].
  - intros. apply clean_library_settles.
  - intros. by eapply cleaned_library_later.
  - done.
  - intros r w' [(x & -> & Hf & Hk) [_ Hs]]. exists x. done.
Qed.

Definition cancel_error (id : string) (e : error) : error := ErrWrap ("cancel queued Quark import " +:+ id +:+ ": ") e.

(** What a cancellation does: errors are kept, no task waits more, and those it was asked
    to cancel do not wait, unless the error of the statement is reported. *)
Definition cancels (ids : list string) (d d' : Database) (failure failure' : option error) : Prop :=
  (∀ e, reports failure e → reports failure' e) ∧ (∀ id, pending_in d' id → pending_in d id) ∧
  (∀ id, id ∈ ids → pending_in d' id → ∃ e, reports failure' (cancel_error id e)).

Lemma cancel_one_cancels failure q w :
  total_with (cancel_one failure q) w
    (λ failure' w', cancels [qi_TaskID q] (pi_db (w_db w)) (pi_db (w_db w')) failure failure').
Proof.
  unfold cancel_one. apply total_bind, total_attempt, wp_on_db. eapply wp_mono; [apply cancel_pending|].
  intros r w' [Hless Hgone]. apply total_ret. cbn in *. split; [|split].
  - intros e He. apply reports_join. by left.
  - exact Hless.
  - intros id ->%list_elem_of_singleton Hp. destruct r as [b|e]; [by destruct Hgone|].
    exists e. apply reports_join. right. eexists. split; [done|]. by left.
Qed.

Lemma cancel_queued results w :
  total_with (cancelQueuedAutoFillImports results) w
    (λ failure w', cancels (queued_ids (queued_imports results)) (pi_db (w_db w)) (pi_db (w_db w')) None failure).
Proof.
  unfold cancelQueuedAutoFillImports. generalize (@None error) as failure. revert w.
  induction (queued_imports results) as [|q l IH]; intros w failure; cbn [m_fold].
  - apply total_ret. split; [done|]. split; [done|]. by intros id ?%elem_of_nil.
  - apply total_bind. eapply total_mono; [apply cancel_one_cancels|]. intros f1 w1 (Hk1 & Hl1 & Hg1).
    eapply total_mono; [apply IH|]. intros f2 w2 (Hk2 & Hl2 & Hg2). split; [by auto|]. split; [by auto|].
    intros id Hid Hp. unfold queued_ids in Hid. rewrite fmap_cons in Hid. apply elem_of_cons in Hid as [->|Hin]; [|by apply Hg2].
    destruct (Hg1 (qi_TaskID q)) as [e He]; [by left|by apply Hl2|]. exists e. by apply Hk2.
Qed.

(** What a run leaves: the outcome it returns has settled or reported its packs; without an
    error everything it queued waits, and with one nothing does that is not reported. *)
Definition run_leaves (d d' : Database) (o : option autofill_outcome) (failure : option error) : Prop :=
  (∀ o' l r, o = Some o' → l ∈ oc_libraries o' → r ∈ lr_Series l → settled failure r) ∧
  match failure with
  | None => ∃ o', o = Some o' ∧ added (queued_ids (queued_imports (oc_libraries o'))) d d'
  | Some _ => ∀ id, pending_in d' id → pending_in d id ∨ ∃ e, reports failure (cancel_error id e)
  end.

Lemma cleaned_settled results results' c l r :
  Forall2 (λ l l', cleaned_library l l' c) results results' → l ∈ results' → r ∈ lr_Series l → settled (cn_error c) r.
Proof.
  intros Hf [i Hi]%list_elem_of_lookup [j Hj]%list_elem_of_lookup.
  destruct (Forall2_lookup_r _ _ _ _ _ Hf Hi) as (l0 & _ & Hl). destruct (Forall2_lookup_r _ _ _ _ _ Hl Hj) as (r0 & _ & _ & Hs). done.
Qed.

Lemma clean_up_leaves spec d returned results w :
  added (queued_ids (queued_imports results)) d (pi_db (w_db w)) →
  (returned.2 = None → is_Some returned.1) → (∀ o, returned.1 = Some o → oc_libraries o = results) →
  total_with (clean_up rounds spec returned results) w (λ x w', run_leaves d (pi_db (w_db w')) x.1 x.2).
Proof.
  intros Hadd Hret Hlib. unfold clean_up. apply total_bind. eapply total_mono; [apply clean_settles|].
  intros [results' c] w1 (Hf & Hmore & Hs1). cbn [fst snd] in *. pose proof (cleaned_queue _ _ _ Hf) as Hq.
  apply total_bind. apply (total_mono _ _ (λ f w', (∀ e, reports (cn_error c) e → reports f e) ∧ (f = None → cn_error c = None) ∧
    added (queued_ids (queued_imports results')) d (pi_db (w_db w')))).
  { destruct (cn_removed c).
    - apply total_bind, total_quiet; [framed af_library_scan|]. intros r w' Hs. apply total_ret. split; [|split].
      + intros e He. apply reports_join. by left.
      + by destruct (cn_error c), (failed r).
      + rewrite Hq. by do 2 (eapply added_after; [|done]).
    - apply total_ret. rewrite Hq. split; [done|]. split; [done|]. by eapply added_after. }
  intros f1 w2 (Hf1 & Hn1 & Ha1). apply total_bind, total_over. intros over n. cbv zeta.
  assert (∀ e, reports (cn_error c) e → reports (join_errors f1 over) e) as Hf2 by (intros e He; apply reports_join; left; auto).
  assert (∀ f, (∀ e, reports (cn_error c) e → reports f e) → ∀ l r, l ∈ results' → r ∈ lr_Series l → settled f r) as Hsettled.
  { intros f Hm l r Hl Hr. eapply settled_more; [exact Hm|]. by eapply cleaned_settled. }
  destruct (join_errors f1 over) as [e|] eqn:Ej.
  - apply total_bind, total_bind. eapply total_mono; [apply cancel_queued|]. intros f3 w3 (_ & Hless & Hgone). do 2 apply total_ret.
    set (f := join_errors (Some e) f3). assert (∀ x, reports (Some e) x → reports f x) as Hj by (intros x Hx; apply reports_join; by left).
    assert (is_Some f) as [e' Ef] by (unfold f; by destruct f3). rewrite Ef in *.
    set (out := if bool_decide _ then _ else _). assert (out.2 = Some e' ∧ ∀ o, out.1 = Some o → oc_libraries o = results') as [E2 E1].
    { unfold out. destruct (bool_decide (length results' = 0)) eqn:Eb; cbn; split; try done; [|by intros o [= <-]].
      intros o ->%Hlib. apply bool_decide_eq_true, nil_length_inv in Eb as ->. by apply Forall2_nil_inv_r in Hf. }
    rewrite E2. split; [intros o l r Ho Hl Hr; rewrite (E1 _ Ho) in Hl; by apply (Hsettled (Some e')) with l; auto|].
    intros id Hp. destruct (proj1 (Ha1 id) (Hless id Hp)) as [?|Hin]; [by left|right].
    destruct (Hgone id Hin Hp) as [e0 He0]. exists e0. rewrite <-Ef. apply reports_join. by right.
  - apply total_bind, total_ret, total_ret. cbn [fst snd]. assert (cn_error c = None) as Ec by (apply Hn1; by destruct f1, over).
    assert (returned.2 = None) as Er.
    { destruct returned as [o' [e|]]; [|done]. destruct (joins_some e) as [x Hx].
      destruct (Hmore x) as (e' & Ee & _); [by exists e|congruence]. }
    destruct (Hret Er) as [o Eo]. rewrite Eo. cbn. split.
    + intros o' l r [= <-] Hl Hr. by apply (Hsettled None Hf2) with l.
    + eexists. split; [done|]. exact Ha1.
Qed.

(** The outcome of the body holds the results. *)
Lemma conclude_libraries spec id remaining t w :
  wp (conclude_run spec id remaining t) w (λ r w', ∀ o e, r = Ok (o, e) → oc_libraries o = fl_results (w_db w')).
Proof.
  unfold conclude_run. apply wp_bind_any; [intros u w1|done]. apply wp_bind, wp_results. cbv zeta.
  apply wp_bind, wp_on_run. eapply wp_mono; [apply (total_over _ (λ _ _, True)); done|]. intros r w2 (over & -> & _).
  destruct over as [e|]; [apply wp_ret; by intros ? ? [= <- _]|]. destruct (to_fatal t); [apply wp_ret; by intros ? ? [= <- _]|].
  destruct (bool_decide _); [apply wp_ret; by intros ? ? [= <- _]|].
  apply wp_bind, wp_attempt. unfold task_log. apply wp_on_run, wp_intro. intros r w3 _. apply wp_ret. by intros ? ? [= <- _].
Qed.

Lemma body_libraries spec id pre w :
  wp (autofill_body rounds spec id pre) w (λ r w', ∀ o e, r = Ok (o, e) → oc_libraries o = fl_results (w_db w')).
Proof.
  unfold autofill_body. apply wp_bind_any; [intros t w1|done]. apply wp_bind_any; [intros u w2|done].
  apply wp_bind_any; [intros [remaining t'] w3|done]. apply wp_bind_any; [intros [replaced t2] w4|done].
  apply wp_bind_any; [intros n w5|done]. apply conclude_libraries.
Qed.

Lemma run_leaves_all id p w :
  total_with (runSeriesAutoFill rounds id p) w (λ x w', run_leaves (pi_db (w_db w)) (pi_db (w_db w')) x.1 x.2).
Proof.
  unfold total_with, wp, runSeriesAutoFill.
  set (before := spec ← lift (resolveSeriesAutoFillSpec p); pre ← prepare spec; mret (spec, pre)).
  assert (keeps R before) as Hk.
  { unfold before. apply keeps_bind; [apply _|apply keeps_lift, _|]. intros spec. apply keeps_bind; [apply _|framed af_prepare_run|]. intros. apply keeps_ret, _. }
  specialize (Hk w). unfold wp in Hk. destruct (before w) as [[[spec pre]|e] w1]; destruct Hk as [_ Hs].
  2: { eexists. split; [done|]. split; [done|]. intros id' Hp. left. by apply Hs. }
  set (v := mkWorld (w_tick w1) (mkFill (w_db w1) [])).
  assert (balanced (pi_db (w_db w)) (w_db v)) as Hb by (by apply added_none).
  pose proof (autofill_body_stays (pi_db (w_db w)) spec id pre v) as Hbody. pose proof (body_libraries spec id pre v) as Hlib.
  unfold wp in Hbody, Hlib. destruct (autofill_body rounds spec id pre v) as [r w2].
  specialize (Hbody Hb). cbv zeta.
  apply (clean_up_leaves spec (pi_db (w_db w)) _ (fl_results (w_db w2)) (mkWorld (w_tick w2) (fl_pipe (w_db w2)))); [exact Hbody| |].
  - destruct r as [[o e]|e]; [by eexists|done].
  - destruct r as [[o e]|e]; [|done]. intros o' [= <-]. by eapply Hlib.
Qed.
End Run.
