(* ===== verification/AutofillClaims.v ===== *)
(** The claims about a run of the auto-fill: what it leaves in the queue, the packs it
    staged, and the payload of an import it queues, as its consumer reads it. *)
From Stdlib Require Import Ascii Qround.
From S2P Require Import Prelude GoStrings GoPath Regexp Sql Schema TaskStore TaskProofs Accounts Payload Queue QueueProofs FileSys Episodes Remote.
From S2P Require Import Drive DriveProofs Destination Identity Service Local Autofill Pipeline Media Replacement.
From S2P Require Import AutofillRun AutofillFrames AutofillProofs.

(** ** The payload of a queued import *)

(** The value of a key of the payload, read off. *)
Ltac payload_key :=
  unfold import_payload; cbn [list_to_map foldr fst snd];
  repeat first [apply lookup_insert_eq|rewrite lookup_insert_ne by discriminate]; try apply lookup_empty.

(** *** Selections *)

Lemma decode_encoded s s' : decode_selection (encode_selection s) = Some s' → s' = s.
Proof.
  destruct s as [id revision name size]. unfold encode_selection, decode_selection. cbn [sel_ID sel_Revision sel_Name sel_Size].
  assert (∀ z z', decode_int64 0 (VInt z) = Some z' → z' = z) as Hz.
  { intros z z'. unfold decode_int64. rewrite Qfloor_Z. destruct (_ && _); [by intros [= <-]|done]. }
  destruct (bool_decide (revision = "")) eqn:Er; cbn [app decode_fields].
  all: rewrite ?equal_fold_refl.
  all: repeat match goal with |- context [equal_fold ?x ?y] => replace (equal_fold x y) with false by (vm_compute; reflexivity) end.
  all: cbn [decode_string mbind option_bind sel_ID sel_Revision sel_Name sel_Size].
  all: destruct (decode_int64 0 (VInt size)) as [z|] eqn:Ez; [|done]; intros [= <-]; rewrite (Hz _ _ Ez).
  - by apply bool_decide_eq_true in Er as ->.
  - done.
Qed.

Lemma decode_encodeds l l' : decode_selections (VArray (encode_selection <$> l)) = Some l' → l' = l.
Proof.
  cbn [decode_selections]. intros Hl%mapM_Some. revert l' Hl. induction l as [|s l IH]; intros l' Hl; inversion Hl; subst; [done|].
  f_equal; [by apply decode_encoded|by apply IH].
Qed.

Lemma selections_encoded p key l l' :
  p !! key = Some (VArray (encode_selection <$> l)) → shareSelectionsPayload p key = Ok l' → l' = trimmed <$> l.
Proof.
  intros Hp. unfold shareSelectionsPayload. rewrite Hp. destruct (decode_selections _) as [raw|] eqn:E; [|done].
  apply decode_encodeds in E as ->. apply (res_fold_inv (λ l s, s = trimmed <$> l)); [done|].
  intros done_ s x s' -> _ Hx. apply add_selection_ok in Hx as (-> & _). by rewrite fmap_app.
Qed.

Lemma strings_given p key l l' : p !! key = Some (VStrings l) → optionalStringSlicePayload p key = Ok l' → l' = trim_space <$> l.
Proof.
  intros Hp. unfold optionalStringSlicePayload. rewrite Hp. apply (res_fold_inv (λ l s, s = trim_space <$> l)); [done|].
  intros done_ s x s' -> _ Hx. apply add_distinct_ok in Hx as (-> & _). by rewrite fmap_app.
Qed.

Lemma same_order_ids l ids : length l = length ids → same_order l ids = true → ids = sel_ID <$> l.
Proof.
  revert ids. induction l as [|s l IH]; intros [|id ids] Hn; try done. cbn. intros [E Hs]%andb_true_iff.
  apply bool_decide_eq_true in E as <-. by rewrite (IH ids) by (by injection Hn).
Qed.

(** *** What its consumer reads *)

(** The request of an import for [entries], the files of [c] chosen for a series. *)
Definition import_of (b : import_binding) (c : autoFillCandidate) (entries : list (episodeKey * autoFillLeaf)) (rq : import_request) : Prop :=
  rq_quarkAccount rq = trim_space (ib_quark b) ∧ rq_quarkTarget rq = trim_space (ib_target b) ∧
  rq_url rq = trim_space (ac_URL c) ∧ rq_password rq = trim_space (ac_Password c) ∧ rq_c115Account rq = trim_space (ib_c115 b) ∧
  rq_prior rq = "" ∧ rq_parent rq = trim_space (ib_parent b) ∧ rq_all rq = false ∧
  rq_selections rq = (λ e, trimmed (selection_of e)) <$> entries ∧ rq_selections rq ≠ [] ∧
  CrossDriveImport.SelectedSourceIDs (rq_state rq) = sel_ID <$> rq_selections rq ∧
  CrossDriveImport.AutofillLibraryName (rq_state rq) = trim_space (lb_Name (ib_library b)) ∧
  CrossDriveImport.AutofillLibraryID (rq_state rq) = trim_space (lb_ID (ib_library b)) ∧
  CrossDriveImport.AutofillLibraryCID (rq_state rq) = trim_space (ib_libraryCID b) ∧
  CrossDriveImport.AutofillSeriesID (rq_state rq) = trim_space (ib_series b) ∧
  CrossDriveImport.AutofillTMDBID (rq_state rq) = trim_space (ib_tmdb b) ∧
  CrossDriveImport.AutofillSeriesFolder (rq_state rq) = trim_space (ib_folder b) ∧
  CrossDriveImport.ExpectedEpisodes (rq_state rq) = trim_space <$> sortedEpisodeLabels (list_to_set entries.*1) ∧
  is_bound (rq_state rq) = true.

(** What the validation of a bound payload establishes. *)
Record bound_import (p : payload) (parent : string) (ids : list string) (l : list ShareSelection) (expected : list string) : Prop := {
  bi_required : ∀ key, key ∈ required_keys → is_ok (stringPayload p key true) = true;
  bi_prior : is_ok (stringPayload p "prior_import_task_id" false) = true;
  bi_parent : stringPayload p "parent_task_id" false = Ok parent;
  bi_all : booleanPayload p "import_all" false = Ok false;
  bi_ids : optionalStringSlicePayload p "selected_source_ids" = Ok ids;
  bi_manifest : shareSelectionsPayload p "selected_source_manifest" = Ok l;
  bi_expected : optionalStringSlicePayload p "expected_episodes" = Ok expected;
  bi_binding : ∀ key, key ∈ bindingKeys → text_of p key false ≠ "";
  bi_given : l ≠ [] ∧ ids = sel_ID <$> l ∧ expected ≠ [] ∧ parent ≠ ""
}.

Lemma validate_bound p :
  validateQuarkImportPayload p true = Ok tt → is_Some (p !! "selected_source_ids") → stringPayload p "prior_import_task_id" false = Ok "" →
  ∃ parent ids l expected, bound_import p parent ids l expected.
Proof.
  unfold validateQuarkImportPayload. fold required_keys. fold (bound_fold p). intros Hv Hids Hprior.
  apply res_bind_ok in Hv as ([] & Hreq & Hv). pose proof (proj2 (required_each p) Hreq) as Hreq2.
  apply res_bind_ok in Hv as (prior & Ep & Hv). assert (prior = "") as -> by congruence. apply res_bind_ok in Hv as (parent & Hparent & Hv).
  apply res_bind_ok in Hv as (b & Hb & Hv). apply res_bind_ok in Hv as (ids & Hsel & Hv).
  apply res_bind_ok in Hv as (l & Hl & Hv). apply res_bind_ok in Hv as ([] & _ & Hv).
  apply res_bind_ok in Hv as ([] & _ & Hv). apply res_bind_ok in Hv as (bound & Hbound & Hv).
  apply res_bind_ok in Hv as (expected & Hexp & Hv). rewrite (bool_decide_true (is_Some (p !! "selected_source_ids"))) in Hv by done.
  rewrite (bool_decide_true ("" = "")) in Hv by done. cbv zeta in Hv. destruct bound; cbn [negb andb orb] in Hv.
  2: { apply res_bind_ok in Hv as ([] & Hc%fail_if_ok & _). exfalso. clear -Hc. simpl in Hc. done. }
  apply res_bind_ok in Hv as ([] & _ & Hv). apply res_bind_ok in Hv as ([] & ->%fail_if_ok & Hv).
  apply res_bind_ok in Hv as ([] & Hn1%fail_if_ok & Hv). apply res_bind_ok in Hv as ([] & Hn2%fail_if_ok & Hv).
  apply res_bind_ok in Hv as ([] & Hn3%fail_if_ok & Hv). apply res_bind_ok in Hv as ([] & Hn4%fail_if_ok & Hv).
  apply res_bind_ok in Hv as ([] & Hn5%fail_if_ok & Hv). bools.
  assert (ids = sel_ID <$> l) as -> by (by apply same_order_ids). exists parent, (sel_ID <$> l), l, expected. split; try done.
  - by rewrite Ep.
  - intros key Hk Et. rewrite res_each_ok in Hv. specialize (Hv key Hk). unfold text_of in Et. cbv zeta in Hv. apply fail_if_ok in Hv.
    by apply bool_decide_eq_false in Hv.
  - split; [by intros ->|]. split; [done|]. split; [by intros ->|done].
Qed.

(** A bound payload, stored and read back, is a request for the selected files. *)
Lemma bound_parses p parent ids l expected :
  bound_import p parent ids l expected →
  ∃ rq, parse_import (payload_roundtrip p) = Ok rq ∧
    rq_selections rq = l ∧ rq_all rq = false ∧ rq_parent rq = parent ∧
    CrossDriveImport.SelectedSourceIDs (rq_state rq) = ids ∧ CrossDriveImport.ExpectedEpisodes (rq_state rq) = expected ∧
    (rq_quarkAccount rq, rq_quarkTarget rq, rq_url rq, rq_password rq, rq_c115Account rq, rq_prior rq) =
      (text_of p "quark_account_id" true, text_of p "quark_target_id" true, text_of p "share_url" true,
       text_of p "share_password" false, text_of p "c115_account_id" true, text_of p "prior_import_task_id" false) ∧
    (let s := rq_state rq in
      (CrossDriveImport.AutofillLibraryName s, CrossDriveImport.AutofillLibraryID s, CrossDriveImport.AutofillLibraryCID s,
       CrossDriveImport.AutofillSeriesID s, CrossDriveImport.AutofillTMDBID s, CrossDriveImport.AutofillSeriesFolder s)) =
      (text_of p "autofill_library_name" false, text_of p "autofill_library_id" false, text_of p "autofill_library_cid" false,
       text_of p "autofill_series_id" false, text_of p "autofill_tmdb_id" false, text_of p "autofill_series_folder" false).
Proof.
  intros []. destruct bi_given0 as (Hl & -> & He & Hp).
  assert (∀ key required, text_of (payload_roundtrip p) key required = text_of p key required) as Ht
    by (intros; unfold text_of; by rewrite string_roundtrip).
  unfold parse_import. rewrite string_roundtrip, bi_parent0. cbn [mbind res_bind]. rewrite boolean_roundtrip, bi_all0. cbn [mbind res_bind].
  rewrite !slice_roundtrip, bi_ids0. cbn [mbind res_bind]. rewrite selections_roundtrip, bi_manifest0. cbn [mbind res_bind andb fail_if negb].
  rewrite (bool_decide_false (length l = 0)) by (by destruct l). rewrite length_fmap, (bool_decide_true (length l = length l)) by done.
  rewrite same_order_self. cbn [fail_if negb mbind res_bind]. rewrite bi_expected0. cbn [mbind res_bind]. rewrite !Ht.
  eexists. split; [reflexivity|]. by cbn.
Qed.

Ltac in_keys := unfold bindingKeys, required_keys; repeat first [apply list_elem_of_here|apply list_elem_of_further].

Section Reading.
Context (b : import_binding) (c : autoFillCandidate) (entries : list (episodeKey * autoFillLeaf)).
Abbreviation p := (import_payload b c entries).

Lemma text_given key value required : p !! key = Some (VString value) → is_ok (stringPayload p key required) = true → text_of p key required = trim_space value.
Proof. intros Hp. unfold text_of, stringPayload. rewrite Hp. cbv zeta. by destruct (_ && _). Qed.
Lemma text_optional key value : p !! key = Some (VString value) → text_of p key false = trim_space value.
Proof. intros Hp. by apply text_given; [|unfold stringPayload; rewrite Hp]. Qed.

Lemma import_payload_read :
  validateQuarkImportPayload p true = Ok tt → ∃ rq, parse_import (payload_roundtrip p) = Ok rq ∧ import_of b c entries rq.
Proof.
  intros Hv. assert (stringPayload p "prior_import_task_id" false = Ok "") as Hprior.
  { unfold stringPayload. assert (p !! "prior_import_task_id" = None) as -> by payload_key. done. }
  assert (is_Some (p !! "selected_source_ids")) as Hids by (eexists; payload_key).
  destruct (validate_bound p Hv Hids Hprior) as (parent & ids & l & expected & Hb).
  destruct (bound_parses _ _ _ _ _ Hb) as (rq & Hrq & Hl & Hall & Hpar & Hsel & Hexp & E1 & E2). exists rq. split; [done|].
  destruct Hb as [Hreq _ Hparent _ Hslice Hman Hexpected Hbind (Hne & -> & _ & _)].
  assert (∀ key value, key ∈ required_keys → p !! key = Some (VString value) → text_of p key true = trim_space value) as Hr
    by (intros key value Hk Hp; apply text_given; auto).
  assert (l = (λ e, trimmed (selection_of e)) <$> entries) as El.
  { rewrite (selections_encoded p "selected_source_manifest" (selection_of <$> entries) l); [by rewrite <-list_fmap_compose| |done].
    rewrite <-list_fmap_compose. payload_key. }
  assert (expected = trim_space <$> sortedEpisodeLabels (list_to_set entries.*1)) as Ee by (apply (strings_given p "expected_episodes"); [payload_key|done]).
  assert (parent = trim_space (ib_parent b)) as Ep.
  { unfold stringPayload in Hparent. assert (p !! "parent_task_id" = Some (VString (ib_parent b))) as Hk by payload_key.
    rewrite Hk in Hparent. by injection Hparent as <-. }
  assert (text_of p "autofill_series_id" false ≠ "") as Hs by (apply Hbind; in_keys).
  cbv zeta in E2. unfold import_of, is_bound. injection E1 as -> -> -> -> -> ->. injection E2 as En1 En2 En3 En4 En5 En6.
  rewrite En1, En2, En3, En4, En5, En6, Hall, Hpar, Hl, Hsel, Hexp. repeat (apply conj).
  1, 3, 5: apply Hr; [in_keys|payload_key].
  1: rewrite <-(trim_space_idemp (ib_target b)); apply Hr; [in_keys|payload_key].
  2: unfold text_of; by rewrite Hprior.
  1, 7-12: apply text_optional; payload_key.
  - exact Ep.
  - reflexivity.
  - exact El.
  - exact Hne.
  - reflexivity.
  - exact Ee.
  - by rewrite bool_decide_false.
Qed.
End Reading.

(** * Properties *)

Section Claims.
Context `{Env} `{Ctx} `{Sleep} `{Remote} `{Providers} `{Local} `{Urls} `{Sha256} `{Format} `{Names} `{Ranging} `{Workers} `{Unicode}.
Context `{Uuids} `{Snapshots} `{CidMap} (rounds : nat).

(** C11: a run of the auto-fill queues all or nothing.  Whatever the providers, the
    database and the clock do, it returns; without an error, the tasks waiting at its end are
    those that waited before and exactly the imports its outcome lists; with an error, every
    task that waits waited before, or the error returned says that cancelling it failed. *)
Theorem autofill_all_or_nothing taskID p w :
  wp (runSeriesAutoFill rounds taskID p) w (λ r w', ∃ o failure, r = Ok (o, failure) ∧
    match failure with
    | None => ∃ outcome, o = Some outcome ∧ ∀ id, pending_in (pi_db (w_db w')) id ↔
        pending_in (pi_db (w_db w)) id ∨ ∃ q, q ∈ queued_imports (oc_libraries outcome) ∧ qi_TaskID q = id
    | Some e => ∀ id, pending_in (pi_db (w_db w')) id →
        pending_in (pi_db (w_db w)) id ∨
        ∃ e', ErrWrap ("cancel queued Quark import " +:+ id +:+ ": ") e' ∈ joins e
    end).
Proof.
  eapply wp_mono; [apply run_leaves_all|]. intros r w' ([o failure] & -> & _ & Hleft). exists o, failure. split; [done|].
  cbn [fst snd] in Hleft. destruct failure as [e|].
  - intros id Hp. destruct (Hleft id Hp) as [?|(e' & f & [= <-] & He)]; [by left|right]. by exists e'.
  - destruct Hleft as (outcome & -> & Ha). exists outcome. split; [done|]. intros id. rewrite (Ha id). unfold queued_ids.
    rewrite list_elem_of_fmap. naive_solver.
Qed.

(** C22: no completed pack is left staged.  In the outcome of a run, with or without an
    error, each pack that was staged for a series has replaced it, or has been rolled back, or
    its series says that recovery is required and the error of the run contains the
    rollback's. *)
Theorem staged_packs_settled taskID p w :
  wp (runSeriesAutoFill rounds taskID p) w (λ r _, ∀ outcome failure library series pack,
    r = Ok (Some outcome, failure) → library ∈ oc_libraries outcome → series ∈ lr_Series library → sr_replacement series = Some pack →
    cp_Finalized pack = true ∨ cp_RolledBack pack = true ∨
    sr_ReplacementStatus series = "recovery_required" ∧
    ∃ e e', failure = Some e ∧ ErrWrap ("restore " +:+ sr_SeriesName series +:+ ": ") e' ∈ joins e).
Proof.
  eapply wp_mono; [apply run_leaves_all|]. intros r w' (x & -> & Hsettled & _) outcome failure library series pack [= ->] Hl Hs Hp.
  destruct (Hsettled outcome library series eq_refl Hl Hs pack Hp) as [?|[?|(Hst & e' & e & Ef & He)]]; [by left|by right; left|].
  do 2 right. split; [done|]. exists e, e'. split; [exact Ef|exact He].
Qed.
End Claims.

(** C23: the payload of a queued import is well typed for the task that runs it.  When an
    import of chosen files is accepted for a series, the stored task is of the import type,
    its payload, encoded and decoded, is one that the import parses, and the request is for
    those files, in order and with their revisions, and is bound to that series. *)
Theorem queued_import_well_typed `{Env} b c entries newID n d id t w :
  enqueueAutofillQuarkImport newID (import_payload b c entries) (mkWorld n d) = (Ok (id, t), w) →
  ∃ t' rq, tasks (w_db w) !! id = Some t' ∧ AsyncTask.Type_ t' = "quark_to_115_import" ∧ AsyncTask.Status t' = "pending" ∧
    parse_import (AsyncTask.Payload t') = Ok rq ∧ import_of b c entries rq.
Proof.
  unfold enqueueAutofillQuarkImport. intros Hrun.
  destruct (validateQuarkImportPayload (import_payload b c entries) true) as [[]|e] eqn:Ev; [|done].
  destruct (wp_elim _ _ _ _ _ (persist_effect newID _ (import_payload b c entries) (mkWorld n d)) Hrun)
    as (-> & _ & _ & t' & Ht' & Hty & Hpl & Hst & _).
  destruct (import_payload_read b c entries Ev) as (rq & Hrq & Ho). exists t', rq. rewrite Ht', lookup_insert_eq, Hpl. done.
Qed.

(** * Witnesses *)

Section Witnesses.
#[local] Existing Instance quiet.

Definition sample_binding : import_binding :=
  mkBinding "q1" " 0 " "c1" "parent" (mkLibrary "l1" "TV" "tvshows" []) "100" "s1" "42" "Show".
Definition sample_candidate : autoFillCandidate := mkCandidate "r1" "quark" "Show" "https://pan.quark.cn/s/abc" "" "".
Definition sample_entries : list (episodeKey * autoFillLeaf) :=
  [(mkKey 1 2, mkLeaf "f1" "rev1" "Show.S01E02.mkv" 1000 ["Show"]); (mkKey 1 3, mkLeaf "f2" "rev2" "Show.S01E03.mkv" 2000 ["Show"])].

Lemma queued_import_well_typed_witness :
  ∃ id t w rq, enqueueAutofillQuarkImport "n1" (import_payload sample_binding sample_candidate sample_entries) (mkWorld 0 empty_database)
    = (Ok (id, t), w) ∧ import_of sample_binding sample_candidate sample_entries rq.
Proof.
  destruct (enqueueAutofillQuarkImport "n1" (import_payload sample_binding sample_candidate sample_entries) (mkWorld 0 empty_database))
    as [[[id t]|e] w] eqn:E.
  - destruct (queued_import_well_typed sample_binding sample_candidate sample_entries "n1" 0 empty_database id t w E)
      as (t' & rq & _ & _ & _ & _ & Ho).
    exists id, t, w, rq. split; [reflexivity|exact Ho].
  - apply (f_equal fst) in E. vm_compute in E. discriminate E.
Defined.
End Witnesses.
