(* ===== verification/Emby.v ===== *)
(** The client of Emby ([src/internal/service/emby.go]): its requests, the listings in pages,
    and the library scan that is started, watched and stopped.

    Emby answers HTTP requests ([Native]); reading a body as JSON is [EmbyJson], applied to
    what could be read of it through the limit of the call.  Where other files name these
    operations as single requests of [Remote] or [Providers], this is what happens behind
    them.  The listings and the watch of a scan loop until Emby's answers end them: they take
    a number of rounds, and say [None] when those are over.  The ticker of a scan is a sleep
    of its period. *)
From Stdlib Require Import Ascii Qround.
From S2P Require Import Prelude GoStrings GoPath Sql Schema TaskStore Accounts FileSys Remote Queue Media.

Class Native := {
  nv_accepts : native_request → res unit;                    (* [http.NewRequestWithContext] *)
  nv_answer : history → native_request → res native_answer
}.

(** ** What Emby tells *)

Record raw_item := mkRawItem {
  rw_ID : string; rw_Name : string; rw_OriginalTitle : string; rw_Type : string; rw_Path : string; rw_PremiereDate : string;
  rw_ImageTags : gmap string string; rw_BackdropImageTags : list string; rw_ProviderIDs : gmap string string; rw_ProductionYear : Z
}.
Record raw_library := mkRawLibrary { rl_Name : string; rl_CollectionType : string; rl_ItemID : string; rl_Locations : list string }.
Record raw_episode := mkRawEpisode {
  re_SeriesID : string; re_SeriesName : string; re_ParentIndexNumber : Z; re_IndexNumber : Z; re_PremiereDate : Z
}.
Record raw_session := mkRawSession {
  rs_ID : string; rs_UserName : string; rs_Client : string; rs_DeviceName : string; rs_IsPaused : bool; rs_PositionTicks : Z;
  rs_PlayMethod : string; rs_NowPlaying : option (string * string)   (* name and type *)
}.
Record embyTaskResult := mkTaskResult { etr_StartTimeUTC : Z; etr_EndTimeUTC : Z; etr_Status : string; etr_ErrorMessage : string }.
Record embyScheduledTask := mkEmbyTask {
  et_ID : string; et_Key : string; et_State : string; et_Progress : option Q; et_LastResult : option embyTaskResult
}.
Record embyLibraryScanResult := mkScanResult { es_TaskID : string; es_Status : string; es_StartedAt : Z; es_CompletedAt : Z }.
Record EmbyPlaybackSession := mkPlayback {
  ps_ID : string; ps_UserName : string; ps_ItemName : string; ps_ItemType : string; ps_Client : string; ps_DeviceName : string;
  ps_PlayState : string; ps_PositionTicks : Z; ps_PlaybackMethod : string
}.

Class EmbyJson := {
  ej_object : option string → res value;                            (* any object *)
  ej_libraries : option string → res (list raw_library);
  ej_tasks : option string → res (list embyScheduledTask);
  ej_task : option string → res embyScheduledTask;
  ej_sessions : option string → res (list raw_session);
  ej_items : option string → res (list raw_item * Z);               (* [Items] and [TotalRecordCount] *)
  ej_episodes : option string → res (list raw_episode * Z);
  ej_identity : string → string                                     (* the body that names a TMDB identity *)
}.
(** [url.PathEscape]. *)
Class PathEscape := { path_escape : string → string }.

Definition media_item (r : raw_item) : EmbyMediaItem :=
  mkMedia (rw_ID r) (rw_Name r) (rw_OriginalTitle r) (rw_Type r) (rw_Path r) (rw_PremiereDate r)
    (bool_decide (is_Some (rw_ImageTags r !! "Primary"))) (bool_decide (0 < length (rw_BackdropImageTags r))) (rw_ProviderIDs r).
(** An item of the listing of series, which asks for no images. *)
Definition series_item (r : raw_item) : EmbyMediaItem :=
  mkMedia (rw_ID r) (rw_Name r) (rw_OriginalTitle r) (rw_Type r) (rw_Path r) (rw_PremiereDate r) false false (rw_ProviderIDs r).
Definition library_of (r : raw_library) : EmbyLibrary := mkLibrary (rl_ItemID r) (rl_Name r) (rl_CollectionType r) (rl_Locations r).

(** An episode with numbers that was released. *)
Definition aired (now : Z) (e : raw_episode) : bool :=
  negb (Z.leb (re_ParentIndexNumber e) 0 || Z.leb (re_IndexNumber e) 0 || Z.eqb (re_PremiereDate e) time_zero || Z.ltb now (re_PremiereDate e)).
Definition owned_episode (seriesID : string) (now : Z) (e : raw_episode) : option EmbyMissingEpisode :=
  if aired now e then Some (mkMissing seriesID "" (re_ParentIndexNumber e) (re_IndexNumber e) (re_PremiereDate e)) else None.
Definition missing_episode (now : Z) (e : raw_episode) : option EmbyMissingEpisode :=
  if bool_decide (re_SeriesID e = "") || bool_decide (re_SeriesName e = "") || negb (aired now e) then None
  else Some (mkMissing (re_SeriesID e) (re_SeriesName e) (re_ParentIndexNumber e) (re_IndexNumber e) (re_PremiereDate e)).

Definition playback (r : raw_session) : option EmbyPlaybackSession :=
  match rs_NowPlaying r with
  | None => None
  | Some (name, type) =>
      Some (mkPlayback (rs_ID r) (rs_UserName r) name type (rs_Client r) (rs_DeviceName r) (if rs_IsPaused r then "Paused" else "Playing")
              (rs_PositionTicks r) (rs_PlayMethod r))
  end.

Definition requireEmbyResponse (status : Z) (operation : string) : res unit :=
  fail_if (Z.ltb status 200 || Z.leb 300 status) (ErrText (operation +:+ " returned HTTP " +:+ pretty status)).

(** ** Watching a scan *)

(** What the loop remembers of the progress: whether a run was reported, the last tenth, and
    the last progress ([-1] at first). *)
Record watch := mkWatch { wa_running : bool; wa_bucket : Z; wa_progress : Q }.
Definition watch_start : watch := mkWatch false (-1) (-1).
Definition percent (p : option Q) : Q := match p with Some p => qmin 100 (qmax 0 p) | None => 0 end.
(** A running task: the new memory, and the progress and message to report, if any. *)
Definition observe_progress (w : watch) (task : embyScheduledTask) : watch * option (Q * string) :=
  let progress := percent (et_Progress task) in
  let message := if wa_running w then "" else "Emby full-library scan started" in
  let bucket := Z.quot (Qfloor progress) 10 in
  let '(last, message) :=
    if Z.ltb (wa_bucket w) bucket then
      (bucket, if bool_decide (message = "") && Z.ltb 0 bucket then "Emby scan progress " +:+ pretty (bucket * 10)%Z +:+ "%" else message)
    else (wa_bucket w, message) in
  if negb (Qeq_bool progress (wa_progress w)) || negb (bool_decide (message = "")) then (mkWatch true last progress, Some (progress, message))
  else (mkWatch true last (wa_progress w), None).

(** The result of a task that has ended since the baseline. *)
Definition ended_since (baseline : Z) (task : embyScheduledTask) : option embyTaskResult :=
  match et_LastResult task with
  | Some r => if negb (bool_decide (et_State task = "Running")) && negb (Z.eqb (etr_StartTimeUTC r) time_zero) && Z.ltb baseline (etr_StartTimeUTC r)
              then Some r else None
  | None => None
  end.
Definition scan_outcome (id : string) (r : embyTaskResult) : res embyLibraryScanResult :=
  if bool_decide (etr_Status r = "Completed") then Ok (mkScanResult id (etr_Status r) (etr_StartTimeUTC r) (etr_EndTimeUTC r))
  else if negb (bool_decide (etr_ErrorMessage r = "")) then Err (ErrText ("Emby library scan " +:+ etr_Status r +:+ ": " +:+ etr_ErrorMessage r))
  else Err (ErrText ("Emby library scan ended with status " +:+ etr_Status r)).

Section Client.
Context `{Env} {ctx : Ctx} `{Sleep} `{Remote} `{Native} `{EmbyJson} `{PathEscape} (rounds : nat).
Abbreviation Pi := (M Pipe).

(** A setting, or else the configuration. *)
Definition setting_or_config (key : string) : Pi string :=
  raw ← attempt (on_db (GetSetting key));
  let config := config ← attempt (on_db (GetConfig key)); mret (match config with Ok v => v | Err _ => "" end) in
  match raw with
  | Ok raw => if bool_decide (raw = "") then config else mret raw
  | Err _ => config
  end.

Definition getURLAndKey : Pi (string * string) :=
  baseURL ← setting_or_config "emby_url";
  let baseURL := if bool_decide (baseURL = "") then "http://127.0.0.1:8096" else baseURL in
  apiKey ← setting_or_config "emby_api_key";
  mret (drop_trailing_slashes baseURL, apiKey).

(** ** Requests *)

Definition newRequest (method path : string) (query : gmap string (list string)) (body contentType : string) : Pi native_request :=
  '(baseURL, apiKey) ← getURLAndKey;
  let headers := if bool_decide (apiKey = "") then ∅ else {["X-Emby-Token" := apiKey]} in
  let headers := if bool_decide (contentType = "") then headers else <["Content-Type" := contentType]> headers in
  let request := mkNative method (baseURL +:+ path) query headers body in
  _ ← lift (nv_accepts request);
  mret request.

(** [client.Do], with the prefix of its error, if it has one. *)
Definition emby_do (request : native_request) (failed : string) : Pi native_answer :=
  let ask := call (λ h, nv_answer h request) (ANative request) in
  if bool_decide (failed = "") then ask else wrap failed ask.

(** A request whose status must be a success. *)
Definition emby_call (method path : string) (query : gmap string (list string)) (body contentType failed operation : string) : Pi native_answer :=
  request ← newRequest method path query body contentType;
  answer ← emby_do request failed;
  _ ← lift (requireEmbyResponse (na_status answer) operation);
  mret answer.
Definition emby_get (path : string) (query : list (string * string)) (failed operation : string) : Pi native_answer :=
  emby_call "GET" path (list_to_map (prod_map id (λ v, [v]) <$> query)) "" "" failed operation.
(** Decoding, with the prefix of its error. *)
Definition decoded {A} (failed : string) (r : res A) : Pi A := if bool_decide (failed = "") then lift r else wrap failed (lift r).

Definition GetSystemInfo : Pi value :=
  answer ← emby_get "/System/Info" [] "emby connect: " "Emby system info";
  lift (ej_object (na_body answer)).

Definition ListLibrariesCtx : Pi (list EmbyLibrary) :=
  answer ← emby_get "/Library/VirtualFolders" [] "" "Emby library list";
  raw ← lift (ej_libraries (na_body answer));
  mret (library_of <$> raw).

Definition RefreshLibraryCtx (libraryID : string) : Pi unit :=
  let path := if bool_decide (libraryID = "") then "/Library/Refresh"
              else "/Items/" +:+ path_escape libraryID +:+ "/Refresh?Recursive=true&ImageRefreshMode=Default&MetadataRefreshMode=Default" in
  _ ← emby_call "POST" path ∅ "" "" "refresh Emby library: " "Emby refresh";
  mret tt.

Definition RefreshSeriesMetadataCtx (itemID : string) : Pi unit :=
  let itemID := trim_space itemID in
  if bool_decide (itemID = "") then throw (ErrText "Emby item ID is required") else
  _ ← emby_call "POST" ("/Items/" +:+ path_escape itemID +:+ "/Refresh")
        (list_to_map [("MetadataRefreshMode", ["FullRefresh"]); ("ImageRefreshMode", ["Default"]); ("ReplaceAllMetadata", ["false"])])
        "" "" "refresh Emby series metadata: " "Emby series metadata refresh";
  mret tt.

Definition MatchMediaCtx (itemID tmdbID : string) : Pi unit :=
  let itemID := trim_space itemID in
  let tmdbID := trim_space tmdbID in
  if bool_decide (itemID = "") || bool_decide (tmdbID = "") then throw (ErrText "Emby item ID and TMDB ID are required") else
  request ← newRequest "POST" ("/Items/RemoteSearch/Apply/" +:+ path_escape itemID +:+ "?ReplaceAllImages=true") ∅ (ej_identity tmdbID) "application/json";
  answer ← emby_do request "apply Emby metadata: ";
  lift (requireEmbyResponse (na_status answer) "apply Emby metadata").

(** ** Sessions and items *)

Definition ListSessionsCtx : Pi (list EmbyPlaybackSession) :=
  answer ← emby_get "/Sessions" [] "" "Emby session list";
  raw ← lift (ej_sessions (na_body answer));
  mret (omap playback raw).

Definition EnsureNoActivePlayback : Pi unit :=
  sessions ← wrap "check active Emby playback: " ListSessionsCtx;
  if bool_decide (length sessions = 0) then mret tt
  else throw (ErrText ("active Emby playback prevents remount: " +:+
         join "; " ((λ s, ps_UserName s +:+ " on " +:+ ps_DeviceName s +:+ ": " +:+ ps_ItemName s) <$> sessions))).

Definition item_fields : string := "Path,OriginalTitle,PremiereDate,ProviderIds,ImageTags,BackdropImageTags".

Definition GetItemCtx (itemID : string) : Pi EmbyMediaItem :=
  let itemID := trim_space itemID in
  if bool_decide (itemID = "") then throw (ErrText "Emby item ID is required") else
  request ← newRequest "GET" "/Items" (list_to_map [("Ids", [itemID]); ("Recursive", ["true"]); ("Fields", [item_fields])]) "" "";
  answer ← emby_do request "inspect Emby item: ";
  if Z.eqb (na_status answer) 404 then throw (ErrText ("Emby item " +:+ itemID +:+ " was not found")) else
  _ ← lift (requireEmbyResponse (na_status answer) "inspect Emby item");
  '(items, _) ← decoded "decode Emby item: " (ej_items (na_body answer));
  match items with
  | [raw] => if bool_decide (rw_ID raw = itemID) then mret (media_item raw) else throw (ErrText ("Emby item " +:+ itemID +:+ " was not found"))
  | _ => throw (ErrText ("Emby item " +:+ itemID +:+ " was not found"))
  end.

Definition SearchMediaCtx (term : string) (limit : Z) : Pi (list EmbyMediaItem) :=
  let term := trim_space term in
  if bool_decide (term = "") then throw (ErrText "Emby search term is required") else
  let limit := if Z.leb limit 0 then 20%Z else limit in
  let limit := if Z.ltb 100 limit then 100%Z else limit in
  answer ← emby_get "/Items" [("SearchTerm", term); ("Recursive", "true"); ("Limit", pretty limit); ("Fields", item_fields)] "" "Emby media search";
  '(items, _) ← lift (ej_items (na_body answer));
  mret (media_item <$> items).

(** ** Listings in pages *)

(** The loop of a listing: [page] asks for the objects from an offset on and the total. *)
Fixpoint all_pages {A} (page : Z → Pi (list A * Z)) (rounds : nat) (start : Z) (found : list A) : Pi (option (list A)) :=
  match rounds with
  | O => mret None
  | S rounds =>
      '(items, total) ← page start;
      let start := (start + Z.of_nat (length items))%Z in
      if bool_decide (length items = 0) || Z.leb total start then mret (Some (found ++ items))
      else all_pages page rounds start (found ++ items)
  end.
Definition page_query (start : Z) : list (string * string) :=
  [("StartIndex", pretty start); ("Limit", "500"); ("EnableTotalRecordCount", "true")].

Definition series_page (libraryID : string) (start : Z) : Pi (list raw_item * Z) :=
  answer ← emby_get "/Items" ([("ParentId", libraryID); ("Recursive", "true"); ("IncludeItemTypes", "Series");
                                ("Fields", "Path,OriginalTitle,PremiereDate,ProviderIds")] ++ page_query start)
             "list Emby Series: " "Emby Series list";
  decoded "decode Emby Series list: " (ej_items (na_body answer)).
Definition ListSeriesCtx (libraryID : string) : Pi (option (list EmbyMediaItem)) :=
  let libraryID := trim_space libraryID in
  if bool_decide (libraryID = "") then throw (ErrText "Emby library ID is required") else
  raw ← all_pages (series_page libraryID) rounds 0 [];
  mret (option_map (λ l : list raw_item, series_item <$> l) raw).

Definition missing_page (libraryID : string) (start : Z) : Pi (list raw_episode * Z) :=
  answer ← emby_get "/Shows/Missing" ([("ParentId", libraryID); ("Recursive", "true"); ("Fields", "SeriesInfo,PremiereDate")] ++ page_query start)
             "list Emby missing episodes: " "Emby missing-episode list";
  decoded "decode Emby missing-episode list: " (ej_episodes (na_body answer)).
Definition ListAiredMissingEpisodesCtx (libraryID : string) (now : Z) : Pi (option (list EmbyMissingEpisode)) :=
  let libraryID := trim_space libraryID in
  if bool_decide (libraryID = "") then throw (ErrText "Emby library ID is required") else
  raw ← all_pages (missing_page libraryID) rounds 0 [];
  mret (option_map (λ l : list raw_episode, omap (missing_episode now) l) raw).

Definition ListAiredSeriesEpisodesCtx (seriesID : string) (now : Z) : Pi (list EmbyMissingEpisode) :=
  let seriesID := trim_space seriesID in
  if bool_decide (seriesID = "") then throw (ErrText "Emby Series ID is required") else
  answer ← emby_get ("/Shows/" +:+ path_escape seriesID +:+ "/Episodes") [("Fields", "Path,PremiereDate"); ("Limit", "10000")]
             "list Emby Series episodes: " "Emby Series episode list";
  '(raw, _) ← decoded "decode Emby Series episodes: " (ej_episodes (na_body answer));
  mret (omap (owned_episode seriesID now) raw).

(** ** The library scan *)

Definition listScheduledTasks : Pi (list embyScheduledTask) :=
  answer ← emby_get "/ScheduledTasks" [] "list Emby scheduled tasks: " "Emby scheduled task list";
  decoded "decode Emby scheduled task list: " (ej_tasks (na_body answer)).
Definition getScheduledTask (id : string) : Pi embyScheduledTask :=
  answer ← emby_get ("/ScheduledTasks/" +:+ path_escape id) [] "read Emby scheduled task: " "Emby scheduled task";
  decoded "decode Emby scheduled task: " (ej_task (na_body answer)).
Definition running_path (id : string) : string := "/ScheduledTasks/Running/" +:+ path_escape id.
(** Its answer and its errors are ignored; it runs under a context of its own. *)
Definition stopScheduledTask (id : string) : Pi unit :=
  try_ (request ← newRequest "DELETE" (running_path id) ∅ "" ""; emby_do request "").

Context (update : Q → string → M Database unit).

Definition scan_interval : Z := second / 2.
Fixpoint watch_scan (id : string) (baseline : Z) (rounds : nat) (w : watch) : Pi (option (res embyLibraryScanResult)) :=
  match rounds with
  | O => mret None
  | S rounds =>
      current ← getScheduledTask id;
      let '(w, report) := if bool_decide (et_State current = "Running") then observe_progress w current else (w, None) in
      _ ← match report with Some (progress, message) => on_db (update progress message) | None => mret tt end;
      match ended_since baseline current with
      | Some r => mret (Some (scan_outcome id r))
      | None => _ ← sleepContext scan_interval; watch_scan id baseline rounds w
      end
  end.

(** [RunLibraryScanCtx]; [None] while the scan still runs when the rounds are over.  The
    deferred stop happens unless the scan was seen to end. *)
Definition RunLibraryScanCtx : Pi (option embyLibraryScanResult) :=
  tasks ← listScheduledTasks;
  match find (λ t, bool_decide (et_Key t = "RefreshLibrary")) tasks with
  | None => throw (ErrText "Emby did not expose the RefreshLibrary scheduled task")
  | Some scan =>
      let baseline := match et_LastResult scan with Some r => etr_StartTimeUTC r | None => time_zero end in
      let startedByUs := negb (bool_decide (et_State scan = "Running")) in
      _ ← (if startedByUs then
             _ ← emby_call "POST" (running_path (et_ID scan)) ∅ "" "" "start Emby library scan: " "start Emby library scan"; mret tt
           else mret tt);
      ended ← attempt (
        _ ← on_db (update 0 (if startedByUs then "Emby accepted the full-library scan"
                             else "Emby full-library scan was already running; tracking the existing run"));
        watch_scan (et_ID scan) baseline rounds watch_start);
      match ended with
      | Ok None => mret None
      | Ok (Some r) => result ← lift r; mret (Some result)
      | Err e => _ ← (if startedByUs then stopScheduledTask (et_ID scan) else mret tt); throw e
      end
  end.
End Client.
