(* ===== verification/EmbyDeletion.v ===== *)
(** The sources of an Emby deletion ([src/internal/service/emby_deletion_sources.go]): from
    the paths Emby is about to delete to the original videos on 115, and their recycling once
    Emby has deleted its items.

    The operations on files are requests of [Local.v]; opening a STRM file and asking its
    identity is one of them ([LOpen]).  The plan belongs to the service that made it (the
    program has one); [accountID] and [AccountID] of the code are the same account.  The
    inventory of a directory takes a round per page: after the first page its total is known,
    and every other page has an object, so as many rounds are enough
    ([inventory_rounds] in [EmbyDeletionProofs.v]). *)
From S2P Require Import Prelude GoStrings GoPath Sql Schema Accounts Payload FileSys Remote Drive Episodes Identity Local Service.
From S2P Require Import Autofill Pipeline Media.
From Stdlib Require Import Ascii.

Record EmbyDeletionSource := mkSource {
  ds_Path : string; ds_FileID : string; ds_ParentID : string; ds_Name : string; ds_Size : Z; ds_SHA1 : string;
  ds_Recycled : bool; ds_AlreadyAbsent : bool
}.
Record embyDeletionTarget := mkTarget { dt_file : DriveFile; dt_path : string; dt_native : bool }.
Record EmbyDeletionPlan := mkPlan {
  ep_SourcePaths : list string; ep_AccountID : string; ep_Sources : list EmbyDeletionSource;
  ep_targets : list embyDeletionTarget; ep_attempted : bool
}.
Record embyDeletionLibrary := mkManaged {
  dl_visible : string; dl_host : string; dl_mediaRoot : string; dl_mediaBase : string; dl_prefix : string; dl_cid : string;
  dl_native : bool
}.

(** ** Pure parts *)

Definition embyDeletionAbsolute (value : string) : res string :=
  if negb (is_abs value) || negb (bool_decide (clean value = value)) || contains_any value [nul; byte 13; byte 10] then
    Err (ErrText "Emby deletion requires a canonical absolute path")
  else Ok value.

(** The targets of a STRM file: one line, possibly repeated. *)
Definition strm_line (path target line : string) : res string :=
  let line := trim_space line in
  if bool_decide (line = "") then Ok target
  else if negb (bool_decide (target = "")) && negb (bool_decide (target = line)) then
    Err (ErrText ("STRM contains ambiguous multiple targets: " +:+ path))
  else Ok line.
Definition strm_limit : nat := 64 * 1024.
Definition strm_target (path body : string) : res string :=
  if bool_decide (strm_limit < length (chars body)) then Err (ErrText ("STRM pointer is too large: " +:+ path)) else
  target ← res_fold (strm_line path) (split_on (byte 10) (replace_text body (of_chars [byte 13; byte 10]) newline)) "";
  match embyDeletionAbsolute target with
  | Ok canonical => Ok canonical
  | Err _ => Err (ErrText ("STRM must contain one absolute managed video path: " +:+ path))
  end.

(** One object of a page of an inventory, after those before. *)
Definition add_identity (cid : string) (files : list DriveFile) (f : DriveFile) : res (list DriveFile) :=
  if bool_decide (df_FileID f = "") || bool_decide (df_FileID f = "0") || bool_decide (df_FileID f = absent)
     || negb (bool_decide (df_ParentID f = cid)) || bool_decide (df_Name f = "") || bool_decide (df_Name f = ".")
     || bool_decide (df_Name f = "..") || contains_any (df_Name f) [byte 47; byte 92; nul] || Z.ltb (df_Size f) 0
     || bool_decide (df_FileID f ∈ df_FileID <$> files) || bool_decide (df_Name f ∈ df_Name <$> files) then
    Err (ErrText ("ambiguous or invalid 115 identity in parent CID " +:+ cid))
  else Ok (files ++ [f]).

(** The library whose Emby location contains a path. *)
Definition choose_library (visible : string) (selected : option embyDeletionLibrary) (library : embyDeletionLibrary)
    : res (option embyDeletionLibrary) :=
  if bool_decide (visible = dl_visible library) then Err (ErrText ("refusing Emby library-root deletion: " +:+ visible))
  else if inside (dl_visible library) visible then
    match selected with
    | Some _ => Err (ErrText ("ambiguous managed library for " +:+ visible))
    | None => Ok (Some library)
    end
  else Ok selected.
Definition selected_library (libraries : list embyDeletionLibrary) (visible : string) : res embyDeletionLibrary :=
  selected ← res_fold (choose_library visible) libraries None;
  match selected with
  | Some library => Ok library
  | None => Err (ErrText ("Emby deletion path is outside managed libraries: " +:+ visible))
  end.

Definition path_le (x y : embyDeletionTarget) : Prop := String.leb (dt_path x) (dt_path y) = true.
#[global] Instance path_le_dec x y : Decision (path_le x y). Proof. unfold path_le. apply _. Defined.
Definition source_of (t : embyDeletionTarget) : EmbyDeletionSource :=
  mkSource (dt_path t) (df_FileID (dt_file t)) (df_ParentID (dt_file t)) (df_Name (dt_file t)) (df_Size (dt_file t))
    (df_Sha1 (dt_file t)) false false.
Definition new_plan (accountID : string) (targets : list embyDeletionTarget) : EmbyDeletionPlan :=
  let targets := merge_sort path_le targets in
  mkPlan (dt_path <$> targets) accountID (source_of <$> targets) targets false.

Definition set_recycled (s : EmbyDeletionSource) : EmbyDeletionSource :=
  mkSource (ds_Path s) (ds_FileID s) (ds_ParentID s) (ds_Name s) (ds_Size s) (ds_SHA1 s) true (ds_AlreadyAbsent s).
Definition set_absent (s : EmbyDeletionSource) : EmbyDeletionSource :=
  mkSource (ds_Path s) (ds_FileID s) (ds_ParentID s) (ds_Name s) (ds_Size s) (ds_SHA1 s) (ds_Recycled s) true.
Definition set_native (native : bool) (t : embyDeletionTarget) : embyDeletionTarget :=
  mkTarget (dt_file t) (dt_path t) (dt_native t || native).

(** What a walk over the paths gathers: the targets, in the order found, and the inventories
    of the directories read. *)
Record preflight := mkPreflight { pf_targets : list embyDeletionTarget; pf_inventories : gmap string (list DriveFile) }.

Section Deletion.
Context `{Env} {ctx : Ctx} `{Sleep} `{Remote} `{Providers} `{Local} `{CidMap}.
Abbreviation Pi := (M Pipe).

(** ** Paths *)

(** Each object on the way from [root] to [path] exists and is not a symbolic link. *)
Fixpoint lstat_parts (current : string) (info : file_info) (parts : list string) : Pi file_info :=
  match parts with
  | [] => mret info
  | part :: parts =>
      let current := join_path [current; part] in
      info ← os_info (LLstat current);
      if is_symlink (fi_type info) then throw (ErrText ("deletion refuses symbolic link " +:+ current))
      else lstat_parts current info parts
  end.
Definition embyDeletionLstat (root path : string) : Pi file_info :=
  if negb (inside root path) then throw (ErrText ("deletion path is outside managed root: " +:+ path)) else
  relative ← lift (rel root path);
  info ← os_info (LLstat root);
  if is_symlink (fi_type info) then throw (ErrText ("deletion refuses symbolic link " +:+ root))
  else if bool_decide (relative = ".") then mret info
  else lstat_parts root info (split_on slash relative).

Definition embyDeletionSTRM (path : string) : Pi string :=
  before ← os_info (LLstat path);
  if negb (bool_decide (fi_type before = FRegular)) then throw (ErrText ("STRM pointer is not a regular file: " +:+ path)) else
  opened ← os_info (LOpen path);
  if negb (Z.eqb (fi_ino before) (fi_ino opened)) then throw (ErrText ("STRM pointer changed during preflight: " +:+ path)) else
  body ← os_text (LReadFile path);
  lift (strm_target path body).

(** ** Libraries *)

Definition check_root (key : string) : Pi unit :=
  root ← on_db (GetSetting key);
  _ ← lift (wrap_err ("invalid " +:+ key +:+ ": ") (embyDeletionAbsolute root));
  info ← os_info (LLstat root);
  if negb (is_dir info) || is_symlink (fi_type info) then throw (ErrText (key +:+ " must be a real directory, not a symbolic link"))
  else mret tt.

(** One location of a library, after those found. *)
Definition map_location (name mediaRoot mediaBase strmBase prefix strmRoot cid : string) (found : list embyDeletionLibrary) (location : string)
    : Pi (list embyDeletionLibrary) :=
  visible ← lift (embyDeletionAbsolute location);
  let managed host native := mkManaged visible host mediaRoot mediaBase prefix cid native in
  mapping ← (if bool_decide (visible = join_path [prefix; name]) || bool_decide (visible = mediaBase) then mret (managed mediaBase true)
             else if bool_decide (visible = join_path ["/strm-v2"; canonicalSTRMDirectory name]) || bool_decide (visible = strmBase) then
               _ ← embyDeletionLstat strmRoot (join_path [strmRoot; canonicalSTRMDirectory name]);
               mret (managed strmBase false)
             else throw (ErrText ("managed Emby library location has no exact media/STRM mapping: " +:+ visible)));
  match find (λ e, inside (dl_visible e) (dl_visible mapping) || inside (dl_visible mapping) (dl_visible e)) found with
  | Some e => throw (ErrText ("managed Emby library locations overlap: " +:+ dl_visible e +:+ " and " +:+ dl_visible mapping))
  | None => mret (found ++ [mapping])
  end.

Definition map_library (cids : gmap string string) (found : list embyDeletionLibrary) (library : EmbyLibrary)
    : Pi (list embyDeletionLibrary) :=
  let cid := trim_space (default "" (cids !! lb_Name library)) in
  if bool_decide (cid = "") then mret found else
  name ← lift match cleanRelative (lb_Name library) "managed library" with
              | Ok name => if bool_decide (name = "") || negb (bool_decide (name = lb_Name library))
                           then Err (ErrText ("invalid managed library name " +:+ lb_Name library)) else Ok name
              | Err _ => Err (ErrText ("invalid managed library name " +:+ lb_Name library))
              end;
  '(mediaRoot, mediaBase, strmBase, prefix) ← paths name;
  _ ← embyDeletionLstat mediaRoot (join_path [mediaRoot; name]);
  strmSetting ← on_db (GetSetting "strm_root");
  strmRoot ← canonicalRoot strmSetting false;
  _ ← lift (wrap_err "invalid emby_media_prefix: " (embyDeletionAbsolute prefix));
  m_fold (map_location name mediaRoot mediaBase strmBase prefix strmRoot cid) (lb_Locations library) found.

Definition embyDeletionLibraries : Pi (list embyDeletionLibrary) :=
  _ ← m_each check_root ["media_root"; "strm_root"];
  raw ← on_db (GetSetting "c115_cid_map");
  cids ← lift match decode_cid_map raw with Some cids => Ok cids | None => Err (ErrText "invalid c115_cid_map") end;
  libraries ← call rm_libraries ALibraries;
  found ← m_fold (map_library cids) libraries [];
  if bool_decide (length found = 0) then throw (ErrText "no Emby libraries have configured 115 source mappings") else mret found.

(** ** The inventory of a directory of 115 *)

(** One page: what was listed so far, the offset and the total. *)
Definition inventory_page (accountID cid : string) (expected : option Z) (files : list DriveFile) (offset : Z)
    : Pi (list DriveFile * Z * Z) :=
  '(page, total) ← listFiles accountID cid offset 1000;
  let n := Z.of_nat (length page) in
  if Z.ltb total 0 || (match expected with Some e => negb (Z.eqb total e) | None => false end) || Z.ltb total (offset + n)
     || (Z.eqb n 0 && Z.ltb offset total) then
    throw (ErrText ("incomplete or changing 115 directory inventory for CID " +:+ cid))
  else
  files ← lift (res_fold (add_identity cid) page files);
  mret (files, (offset + n)%Z, total).

Fixpoint inventory_pages (accountID cid : string) (rounds : nat) (st : list DriveFile * Z * Z) : Pi (list DriveFile) :=
  let '(files, offset, total) := st in
  if Z.eqb offset total then mret files else
  match rounds with
  | O => throw (ErrText "out of rounds")
  | S rounds => st ← inventory_page accountID cid (Some total) files offset; inventory_pages accountID cid rounds st
  end.

Definition embyDeletionInventory (accountID cid : string) : Pi (list DriveFile) :=
  st ← inventory_page accountID cid None [] 0;
  inventory_pages accountID cid (Z.to_nat st.2) st.

(** The object of 115 that a path below a library names, component by component. *)
Fixpoint resolve_parts (accountID cid : string) (parts : list string) (inventories : gmap string (list DriveFile))
    : Pi (DriveFile * gmap string (list DriveFile)) :=
  match parts with
  | [] => throw (ErrText "original source path has no video component")
  | part :: rest =>
      '(files, inventories) ← match inventories !! cid with
                              | Some files => mret (files, inventories)
                              | None => files ← embyDeletionInventory accountID cid; mret (files, <[cid := files]> inventories)
                              end;
      match find (λ f, bool_decide (df_Name f = part)) files with
      | None => throw (ErrText ("115 source component " +:+ part +:+ " is absent from parent CID " +:+ cid))
      | Some f =>
          let last := bool_decide (length rest = 0) in
          if Bool.eqb (df_IsFolder f) last then throw (ErrText ("115 source component has the wrong file type: " +:+ part))
          else if last then mret (f, inventories) else resolve_parts accountID (df_FileID f) rest inventories
      end
  end.
Definition resolveEmbyDeletionSource (accountID : string) (library : embyDeletionLibrary) (mounted : string)
    (inventories : gmap string (list DriveFile)) : Pi (DriveFile * gmap string (list DriveFile)) :=
  relative ← lift (rel (dl_mediaBase library) mounted);
  resolve_parts accountID (dl_cid library) (split_on slash relative) inventories.

(** ** The plan *)

(** The mounted video an object of the walk stands for, with the path Emby knows it by, and
    whether Emby deletes the video itself. *)
Definition original_of (library : embyDeletionLibrary) (path : string) (strm video : bool) : Pi (string * string) :=
  if strm then
    if dl_native library then throw (ErrText ("STRM pointer in native media library is unsupported: " +:+ path)) else
    sourcePath ← embyDeletionSTRM path;
    if negb (inside (dl_prefix library) sourcePath) || bool_decide (sourcePath = dl_prefix library) then
      throw (ErrText ("STRM target is outside emby_media_prefix: " +:+ path))
    else
    relative ← lift (rel (dl_prefix library) sourcePath);
    let mounted := join_path [dl_mediaRoot library; relative] in
    if negb (inside (dl_mediaBase library) mounted) || bool_decide (mounted = dl_mediaBase library) then
      throw (ErrText ("STRM target is outside its managed source library: " +:+ path))
    else if negb (is_video mounted) then throw (ErrText ("STRM target is not a managed video: " +:+ path))
    else mret (mounted, sourcePath)
  else
    if negb (dl_native library) then throw (ErrText ("native video in STRM library is unsupported: " +:+ path)) else
    relative ← lift (rel (dl_mediaRoot library) path);
    mret (path, join_path [dl_prefix library; relative]).

(** One object of the walk. *)
Definition visit_entry (accountID : string) (library : embyDeletionLibrary) (host : string) (st : preflight) (e : walk_entry)
    : Pi preflight :=
  let path := entry_path host e in
  _ ← ctx_live;
  if is_symlink (we_type e) then throw (ErrText ("Emby deletion refuses symbolic link " +:+ path))
  else if entry_is_dir e then mret st
  else
  _ ← lift (we_size e);
  if negb (bool_decide (we_type e = FRegular)) then throw (ErrText ("Emby deletion refuses non-regular file " +:+ path)) else
  let video := is_video path in
  let strm := bool_decide (to_lower (ext path) = ".strm") in
  if negb strm && negb video then mret st
  else
  let native := dl_native library && video in
  '(mounted, sourcePath) ← original_of library path strm video;
  match list_find (λ t, dt_path t = sourcePath) (pf_targets st) with
  | Some (index, _) => mret (mkPreflight (alter (set_native native) index (pf_targets st)) (pf_inventories st))
  | None =>
      info ← embyDeletionLstat (dl_mediaRoot library) mounted;
      if negb (bool_decide (fi_type info = FRegular)) then throw (ErrText ("original source is not a regular file: " +:+ sourcePath)) else
      '(file, inventories) ← resolveEmbyDeletionSource accountID library mounted (pf_inventories st);
      if negb (Z.eqb (df_Size file) (fi_size info)) then
        throw (ErrText ("mounted and 115 sizes differ for " +:+ sourcePath +:+ " (file ID " +:+ df_FileID file +:+ ")"))
      else match find (λ t, bool_decide (df_FileID (dt_file t) = df_FileID file)) (pf_targets st) with
      | Some _ => throw (ErrText ("115 file ID " +:+ df_FileID file +:+ " resolves to multiple source paths"))
      | None => mret (mkPreflight (pf_targets st ++ [mkTarget file sourcePath native]) inventories)
      end
  end.

(** One path of Emby's. *)
Definition visit_path (accountID : string) (libraries : list embyDeletionLibrary) (st : preflight) (input : string) : Pi preflight :=
  _ ← ctx_live;
  visible ← lift (embyDeletionAbsolute input);
  library ← lift (selected_library libraries visible);
  relative ← lift (rel (dl_visible library) visible);
  let host := join_path [dl_host library; relative] in
  _ ← embyDeletionLstat (dl_host library) host;
  '(entries, failure) ← walk_dir host;
  st ← m_fold (visit_entry accountID library host) entries st;
  _ ← walk_failed failure;
  mret st.

Definition PrepareEmbyDeletionCtx (paths : list string) : Pi EmbyDeletionPlan :=
  if bool_decide (length paths = 0) then throw (ErrText "Emby deletion has no filesystem paths") else
  libraries ← embyDeletionLibraries;
  a ← GetDefaultAccount "115";
  if bool_decide (a.1 = "") || negb (bool_decide (DriveAccount.Type_ a.2 = "115")) || bool_decide (trim_space (DriveAccount.Cookie a.2) = "") then
    throw (ErrText "Emby source deletion requires a configured default 115 account")
  else
  st ← m_fold (visit_path a.1 libraries) paths (mkPreflight [] ∅);
  if bool_decide (length (pf_targets st) = 0) then throw (ErrText "Emby deletion contains no managed original videos")
  else mret (new_plan a.1 (pf_targets st)).

(** ** Recycling *)

(** One target: whether it was recycled; otherwise it was absent already. *)
Definition recycle_target (accountID : string) (target : embyDeletionTarget) : Pi bool :=
  let file := dt_file target in
  let what := dt_path target +:+ " (file ID " +:+ df_FileID file +:+ ")" in
  _ ← ctx_live;
  files ← wrap ("revalidate source " +:+ what +:+ ": ") (embyDeletionInventory accountID (df_ParentID file));
  match find (λ f, bool_decide (df_FileID f = df_FileID file)) files with
  | None =>
      if dt_native target then mret false
      else throw (ErrText ("preflighted source ID " +:+ df_FileID file +:+ " disappeared before recycling " +:+ dt_path target))
  | Some current =>
      if df_IsFolder current || negb (bool_decide (df_Name current = df_Name file))
         || negb (bool_decide (df_ParentID current = df_ParentID file)) || negb (Z.eqb (df_Size current) (df_Size file))
         || negb (equal_fold (df_Sha1 current) (df_Sha1 file)) then
        throw (ErrText ("source identity changed for " +:+ what))
      else
      _ ← wrap ("recycle source " +:+ dt_path target +:+ " (parent CID " +:+ df_ParentID file +:+ ", file ID " +:+ df_FileID file +:+ "): ")
            (DeleteCtx accountID [df_FileID file]);
      remaining ← wrap ("verify recycled source ID " +:+ df_FileID file +:+ ": ") (embyDeletionInventory accountID (df_ParentID file));
      if existsb (λ f, bool_decide (df_FileID f = df_FileID file)) remaining then
        throw (ErrText ("115 still lists source ID " +:+ df_FileID file +:+ " after recycling"))
      else mret true
  end.

Definition recycle_one (accountID : string) (sources : list EmbyDeletionSource) (it : nat * embyDeletionTarget)
    : Pi (list EmbyDeletionSource * option error) :=
  let '(index, target) := it in
  done ← attempt (recycle_target accountID target);
  mret match done with
       | Ok recycled => (alter (if (recycled : bool) then set_recycled else set_absent) index sources, None)
       | Err e => (sources, Some e)
       end.

(** [RecycleEmbyDeletionCtx]: the plan as it is left, and the error. *)
Definition RecycleEmbyDeletionCtx (plan : EmbyDeletionPlan) : Pi (EmbyDeletionPlan * option error) :=
  if ep_attempted plan || bool_decide (length (ep_targets plan) = 0) then
    mret (plan, Some (ErrText "invalid or already attempted Emby deletion plan"))
  else
  '(sources, failure) ← fold_until (recycle_one (ep_AccountID plan)) (imap pair (ep_targets plan)) (ep_Sources plan);
  mret (mkPlan (ep_SourcePaths plan) (ep_AccountID plan) sources (ep_targets plan) true, failure).
End Deletion.
