(* ===== verification/EmbyApi.v ===== *)
(** The deletion a human confirms in Emby ([src/internal/api/emby_deletion.go]): the request
    that is intercepted, who may make it, what Emby is asked, and the recycling of the original
    videos ([EmbyDeletion.v]) once Emby has deleted its items.

    Parameters: parsing of URLs, queries, media types and JSON ([Http], [NativeJson]), and
    Emby's answers ([Native], of [Emby.v]).  The audit entry is the record of what it is made
    from, before it is summarised and written.  The recycling runs under a context of its own
    ([recycleCtx]). *)
From S2P Require Import Prelude GoStrings GoPath Regexp Sql Schema Accounts Payload FileSys Remote Drive Episodes Identity Local Service.
From S2P Require Import Autofill Pipeline Media Queue Emby EmbyDeletion.
From Stdlib Require Import Ascii.

(** ** The request *)

(** The parts of a parsed URL that [embyDeletionURL] looks at. *)
Record native_base := mkBase {
  nb_scheme : string; nb_hostname : string; nb_user : bool; nb_query : string; nb_fragment : string; nb_opaque : string; nb_path : string
}.
(** What [json.Decoder] reads of a body, token by token: whether it opens an object, whether
    there is more, the first key and its value when they decode, whether the object closes
    after it, whether the body ends there. *)
Record json_body := mkJson {
  js_object : bool; js_more : bool; js_key : option string; js_value : option value; js_closes : bool; js_ends : bool
}.
Class Http := {
  http_url : string → option native_base;                           (* [url.Parse] *)
  http_query : string → option (list (string * list string));       (* [url.ParseQuery] *)
  http_media : string → option string;                              (* [mime.ParseMediaType] *)
  http_json : string → json_body
}.

Record http_request := mkHttpRequest {
  hr_method : string; hr_path : string; hr_rawquery : string; hr_values : string → list string; hr_contentType : string;
  hr_body : option (res string)                (* what reading it through a limit of 64 KiB + 1 gives *)
}.

Record embyDeletionRequest := mkDeletion {
  er_path : string; er_ids : list string; er_confirmation : bool; er_query : list (string * list string);
  er_authQuery : gmap string (list string); er_headers : gmap string string; er_body : string; er_credential : string;
  er_deviceID : string
}.

Definition bad_request (m : string) : error := ErrHTTP 400 m.
Definition unauthorized (m : string) : error := ErrHTTP 401 m.

Definition id_char (a : ascii) : bool :=
  let c := code a in between 48 57 c || between 97 122 c || between 65 90 c || Z.eqb c 45.
Definition validEmbyDeletionID (id : string) : bool :=
  let n := length (chars id) in
  negb (bool_decide (n = 0) || bool_decide (128 < n)) && forallb id_char (chars id).

Definition add_id (seen : list string) (id : string) : res (list string) :=
  if negb (validEmbyDeletionID id) then Err (bad_request "invalid Emby deletion item ID")
  else if bool_decide (id ∈ seen) then Err (bad_request "duplicate Emby deletion item ID")
  else Ok (seen ++ [id]).
Definition embyDeletionIDs (ids : list string) : res (list string) :=
  if bool_decide (length ids = 0) || bool_decide (100 < length ids) then
    Err (bad_request "deletion requires 1 to 100 unique Emby item IDs")
  else
  _ ← res_fold add_id ids [];
  Ok ids.

Definition comma : ascii := byte 44.

(** The IDs of a JSON value: a list in a string, or an array of strings. *)
Definition json_ids (v : value) : res (list string) :=
  let bad := Err (bad_request "Ids must be a comma-separated string or string array") in
  match v with
  | VString s => Ok (split_on comma s)
  | VNull => Ok (split_on comma "")
  | VArray l => match mapM (λ v, match v with VString s => Some s | VNull => Some "" | _ => None end) l with
                | Some ids => Ok ids
                | None => bad
                end
  | _ => bad
  end.

Section Requests.
Context `{Http} `{Ranging}.

(** [embyDeletionBodyIDs]; [None] for a body without IDs. *)
Definition json_body_ids (b : json_body) : res (option (list string)) :=
  if negb (js_object b) then Err (bad_request "deletion JSON must be an object containing Ids") else
  ids ← (if js_more b then
           match js_key b with
           | Some key =>
               if negb (equal_fold key "Ids") then Err (bad_request "deletion JSON supports only Ids") else
               match js_value b with
               | None => Err (bad_request "invalid deletion JSON")
               | Some v => ids ← json_ids v; Some <$> embyDeletionIDs ids
               end
           | None => Err (bad_request "deletion JSON supports only Ids")
           end
         else Ok None);
  if negb (js_closes b) then Err (bad_request "duplicate or unsupported deletion JSON field")
  else if negb (js_ends b) then Err (bad_request "unexpected data after deletion JSON")
  else Ok ids.

Definition embyDeletionBodyIDs (body contentType : string) : res (option (list string)) :=
  if bool_decide (trim_space body = "") then Ok None else
  match http_media contentType with
  | None => Err (bad_request "deletion body requires a supported Content-Type")
  | Some kind =>
      if bool_decide (kind = "application/x-www-form-urlencoded") then
        match http_query body with
        | Some [(key, [text])] =>
            if equal_fold key "Ids" then Some <$> embyDeletionIDs (split_on comma text)
            else Err (bad_request "deletion form must contain only one Ids field")
        | _ => Err (bad_request "deletion form must contain only one Ids field")
        end
      else if negb (bool_decide (kind = "application/json")) then Err (ErrHTTP 415 "deletion body must be JSON or form data")
      else json_body_ids (http_json body)
  end.

(** What the query and the headers have given so far. *)
Record gathered := mkGathered {
  ga_ids : option (list string); ga_credential : string; ga_device : string; ga_authQuery : gmap string (list string);
  ga_seen : list string; ga_headers : gmap string string
}.
Definition acceptCredential (value : string) (g : gathered) : res gathered :=
  if bool_decide (trim_space value = "") || negb (bool_decide (ga_credential g = "")) && negb (bool_decide (ga_credential g = value)) then
    Err (unauthorized "missing or conflicting Emby user credentials")
  else Ok (mkGathered (ga_ids g) value (ga_device g) (ga_authQuery g) (ga_seen g) (ga_headers g)).
Definition acceptDevice (value : string) (g : gathered) : res gathered :=
  if bool_decide (trim_space value = "") || bool_decide (1024 < length (chars value))
     || negb (bool_decide (ga_device g = "")) && negb (bool_decide (ga_device g = value)) then
    Err (unauthorized "missing or conflicting Emby session device ID")
  else Ok (mkGathered (ga_ids g) (ga_credential g) value (ga_authQuery g) (ga_seen g) (ga_headers g)).
Definition with_auth (key : string) (values : list string) (g : gathered) : gathered :=
  mkGathered (ga_ids g) (ga_credential g) (ga_device g) (<[key := values]> (ga_authQuery g)) (ga_seen g) (ga_headers g).

(** One parameter of the query. *)
Definition query_parameter (g : gathered) (kv : string * list string) : res gathered :=
  let '(key, values) := kv in
  let lower := to_lower key in
  match values with
  | [v] =>
      if bool_decide (lower ∈ ga_seen g) then Err (bad_request "duplicate Emby deletion query parameter") else
      let g := mkGathered (ga_ids g) (ga_credential g) (ga_device g) (ga_authQuery g) (ga_seen g ++ [lower]) (ga_headers g) in
      if bool_decide (lower = "ids") then
        ids ← embyDeletionIDs (split_on comma v);
        Ok (mkGathered (Some ids) (ga_credential g) (ga_device g) (ga_authQuery g) (ga_seen g) (ga_headers g))
      else if bool_decide (lower ∈ ["api_key"; "x-emby-token"]) then with_auth key values <$> acceptCredential v g
      else if bool_decide (lower ∈ ["deviceid"; "x-emby-device-id"]) then
        with_auth (if bool_decide (lower = "deviceid") then "DeviceId" else "X-Emby-Device-Id") values <$> acceptDevice v g
      else if bool_decide (lower ∈ ["x-emby-client"; "x-emby-device-name"; "x-emby-client-version"; "x-emby-language"]) then
        if bool_decide (1024 < length (chars v)) then Err (bad_request "Emby client metadata exceeds 1024 bytes")
        else Ok (with_auth key values g)
      else Err (bad_request "unsupported Emby deletion query parameter")
  | _ => Err (bad_request "duplicate Emby deletion query parameter")
  end.

(** [embyAuthorizationToken] and [embyAuthorizationDeviceID]. *)
Definition not_any (s : string) : re := Chr (λ c, negb (bool_decide (c ∈ (r_code <$> runes s)))).
Definition quote : string := of_chars [byte 34].
Definition authorization_field (name : string) : re :=
  seq_re [Alt Begin (any_of " ,"); ilit name; Star space_class; lit "="; Star space_class;
          Alt (seq_re [lit quote; Cap 1 (Plus (not_any quote)); lit quote])
              (Cap 2 (Plus (Chr (λ c, negb (bool_decide (c ∈ [44; 9; 10; 12; 13; 32]%Z))))))].
Definition embyAuthorizationToken : re := authorization_field "Token".
Definition embyAuthorizationDeviceID : re := authorization_field "DeviceId".
Definition field_values (p : re) (value : string) : list string :=
  let l := runes value in (λ m, group_text l m 1 +:+ group_text l m 2) <$> find_all p l.

(** [strings.Cut(value, " ")]. *)
Definition cut_space (value : string) : string * string :=
  match split_on (byte 32) value with
  | scheme :: rest => (scheme, join " " rest)
  | [] => ("", "")
  end.

Definition credential_headers : list string :=
  ["X-Emby-Token"; "X-MediaBrowser-Token"; "Authorization"; "X-Emby-Authorization"; "X-Emby-Device-Id"].
Definition credential_header (r : http_request) (g : gathered) (key : string) : res gathered :=
  match hr_values r key with
  | [] => Ok g
  | [v] =>
      g ← (if bool_decide (key ∈ ["Authorization"; "X-Emby-Authorization"]) then
             let '(scheme, remainder) := cut_space v in
             if equal_fold scheme "Bearer" then acceptCredential remainder g
             else if equal_fold scheme "Emby" || equal_fold scheme "MediaBrowser" then
               match field_values embyAuthorizationToken v with
               | _ :: _ :: _ => Err (unauthorized "duplicate Emby authorization token")
               | tokens =>
                   let credential := match tokens with [t] => acceptCredential t g | _ => Ok g end in
                   match field_values embyAuthorizationDeviceID v with
                   | [] => credential
                   | [d] => match credential with
                            | Ok g => acceptDevice d g
                            | Err e => match acceptDevice d g with Err e' => Err e' | Ok _ => Err e end
                            end
                   | _ => Err (unauthorized "duplicate Emby session device ID")
                   end
               end
             else Err (unauthorized "unsupported Emby authorization scheme")
           else if bool_decide (key = "X-Emby-Device-Id") then acceptDevice v g
           else acceptCredential v g);
      Ok (mkGathered (ga_ids g) (ga_credential g) (ga_device g) (ga_authQuery g) (ga_seen g) (<[key := v]> (ga_headers g)))
  | _ => Err (unauthorized "duplicate Emby credential header")
  end.

(** The endpoint: the item it names, and whether it only asks for a confirmation. *)
Definition embyDeletionPrefix : string := "/internal/emby-delete".
Definition endpoint (method path : string) : res (option (list string) * bool) :=
  let parts := split_on slash (trim_prefix path "/") in
  let part i := default "" (parts !! i) in
  let shape m n := bool_decide (method = m) && bool_decide (length parts = n) && bool_decide (part 0 = "Items") in
  if shape "GET" 3 && bool_decide (part 2 = "DeleteInfo") then Ok (Some [part 1], true)
  else if shape "DELETE" 2 && negb (bool_decide (part 1 = "Delete")) then Ok (Some [part 1], false)
  else if shape "POST" 3 && bool_decide (part 2 = "Delete") then Ok (Some [part 1], false)
  else if bool_decide (method = "DELETE") && bool_decide (path = "/Items") then Ok (None, false)
  else if bool_decide (method = "POST") && bool_decide (path = "/Items/Delete") then Ok (None, false)
  else Err (ErrHTTP 404 "unsupported Emby deletion endpoint").

Definition sameEmbyDeletionIDs (left right : list string) : bool :=
  bool_decide (length left = length right) && forallb (λ id, bool_decide (id ∈ right)) left.
(** The IDs of the path, the query and the body agree. *)
Definition agree_ids (known : option (list string)) (ids : option (list string)) : res (option (list string)) :=
  match ids, known with
  | None, _ => Ok known
  | Some ids, None => Ok (Some ids)
  | Some ids, Some known =>
      if sameEmbyDeletionIDs known ids then Ok (Some known)
      else Err (bad_request "Emby deletion path, query and body must identify the same items")
  end.

Definition body_limit : nat := 64 * 1024.
Definition read_body (r : http_request) : res string :=
  match hr_body r with
  | None => Ok ""
  | Some (Err _) => Err (bad_request "cannot read Emby deletion body")
  | Some (Ok body) => if bool_decide (body_limit < length (chars body)) then Err (ErrHTTP 413 "Emby deletion body exceeds 64 KiB") else Ok body
  end.

Definition parseEmbyDeletion (r : http_request) : res embyDeletionRequest :=
  if negb (has_prefix (hr_path r) embyDeletionPrefix) then Err (ErrHTTP 404 "unsupported Emby deletion endpoint") else
  let path := trim_prefix (hr_path r) embyDeletionPrefix in
  let path := if has_prefix path "/emby/" then trim_prefix path "/emby" else path in
  let path := trim_suffix_slash path in
  '(pathIDs, confirmation) ← endpoint (hr_method r) path;
  query ← match http_query (hr_rawquery r) with Some q => Ok q | None => Err (bad_request "invalid Emby deletion query") end;
  g ← res_fold query_parameter (range_over query) (mkGathered None "" "" ∅ [] ∅);
  g ← res_fold (credential_header r) credential_headers g;
  if bool_decide (ga_credential g = "") then Err (unauthorized "an authenticated Emby user token is required")
  else if bool_decide (ga_device g = "") then Err (unauthorized "an authenticated Emby session device ID is required")
  else
  body ← read_body r;
  if confirmation && negb (bool_decide (length (chars body) = 0)) then Err (bad_request "DeleteInfo does not accept a request body") else
  bodyIDs ← embyDeletionBodyIDs body (hr_contentType r);
  ids ← agree_ids pathIDs (ga_ids g);
  ids ← agree_ids ids bodyIDs;
  ids ← embyDeletionIDs (default [] ids);
  Ok (mkDeletion path ids confirmation query (ga_authQuery g) (ga_headers g) body (ga_credential g) (ga_device g)).
End Requests.

(** ** Emby's answers *)

Record native_session := mkSession { sn_ID : string; sn_UserID : string; sn_DeviceID : string }.
Record native_user := mkUser { us_ID : string; us_admin : bool; us_disabled : option bool }.

(** [json.Unmarshal] of the bodies Emby answers with, [None] when it fails. *)
Class NativeJson := {
  nj_keys : string → option (list string);                   (* the access tokens of a page of keys; [Items] present *)
  nj_sessions : string → option (list native_session);
  nj_user : string → option native_user;
  nj_item : string → option (string * bool);                 (* the ID, [CanDelete] *)
  nj_paths : string → option (list string);                  (* [Paths] of an object *)
  nj_with_paths : string → list string → res string          (* the object again, with other paths *)
}.
Record embyDeletionResponse := mkResponse { rs_status : Z; rs_contentType : string; rs_body : string }.
Definition successful (r : embyDeletionResponse) : bool := Z.leb 200 (rs_status r) && Z.ltb (rs_status r) 300.

(** What a call gives: no response and an error, or a response, with an error when its body
    could not be read. *)
Inductive called := NoResponse (e : error) | Response (r : embyDeletionResponse) (e : option error).
(** [err != nil || !response.successful()], with what is returned then. *)
Definition refusal (c : called) : embyDeletionResponse + (option embyDeletionResponse * option error) :=
  match c with
  | NoResponse e => inr (None, Some e)
  | Response r (Some e) => inr (Some r, Some e)
  | Response r None => if successful r then inl r else inr (Some r, None)
  end.

Definition request_failed : error := ErrHTTP 502 "native Emby request failed; inspect Emby before retrying a deletion".
Definition response_unread : error := ErrHTTP 502 "cannot read the native Emby response; inspect Emby before retrying a deletion".
Definition rejected_body : string :=
  let q := quote in
  "{" +:+ q +:+ "error" +:+ q +:+ ":" +:+ q +:+ "native Emby rejected the request; its response body could not be read" +:+ q +:+ "}".

(** The query of a request: that of the credentials, then its own. *)
Definition merge_query (auth : gmap string (list string)) (query : list (string * list string)) : gmap string (list string) :=
  foldl (λ m (kv : string * list string), <[(if equal_fold kv.1 "DeviceId" then "DeviceId" else kv.1) := kv.2]> m) auth query.
Definition upstream (target : embyDeletionRequest) (base : native_base) (method path : string) (query : list (string * list string))
    (body contentType : string) : native_request :=
  let headers := <["Accept" := "application/json"]> (er_headers target) in
  mkNative method (drop_trailing_slashes (nb_path base) +:+ path) (merge_query (er_authQuery target) query)
    (if bool_decide (contentType = "") then headers else <["Content-Type" := contentType]> headers) body.
Definition read_response (a : native_answer) : called :=
  match na_body a with
  | Some body => Response (mkResponse (na_status a) (na_contentType a) body) None
  | None =>
      let r := mkResponse (na_status a) (na_contentType a) "" in
      if negb (successful r) then Response (mkResponse (na_status a) "application/json" rejected_body) None
      else Response r (Some response_unread)
  end.

(** The error of a given status that [errors.As] finds. *)
Fixpoint as_http (e : error) : option (Z * string) :=
  match e with
  | ErrHTTP code message => Some (code, message)
  | ErrWrap _ e => as_http e
  | _ => None
  end.

(** ** The handler *)

(** What the handler keeps until it answers, and what it hands to its audit entry. *)
Record deletion_flow := mkFlow {
  fw_stage : string; fw_userID : string; fw_native : option embyDeletionResponse; fw_paths : list string; fw_info : string;
  fw_plan : option EmbyDeletionPlan; fw_failure : option error; fw_nativeDeleted : bool
}.
Definition at_stage (stage : string) (f : deletion_flow) : deletion_flow :=
  mkFlow stage (fw_userID f) (fw_native f) (fw_paths f) (fw_info f) (fw_plan f) (fw_failure f) (fw_nativeDeleted f).
Definition with_native (native : option embyDeletionResponse) (f : deletion_flow) : deletion_flow :=
  mkFlow (fw_stage f) (fw_userID f) native (fw_paths f) (fw_info f) (fw_plan f) (fw_failure f) (fw_nativeDeleted f).
Definition with_user (userID : string) (f : deletion_flow) : deletion_flow :=
  mkFlow (fw_stage f) userID (fw_native f) (fw_paths f) (fw_info f) (fw_plan f) (fw_failure f) (fw_nativeDeleted f).
Definition with_paths (paths : list string) (info : string) (f : deletion_flow) : deletion_flow :=
  mkFlow (fw_stage f) (fw_userID f) (fw_native f) paths info (fw_plan f) (fw_failure f) (fw_nativeDeleted f).
Definition with_plan (plan : option EmbyDeletionPlan) (f : deletion_flow) : deletion_flow :=
  mkFlow (fw_stage f) (fw_userID f) (fw_native f) (fw_paths f) (fw_info f) plan (fw_failure f) (fw_nativeDeleted f).
Definition with_failure (failure : option error) (f : deletion_flow) : deletion_flow :=
  mkFlow (fw_stage f) (fw_userID f) (fw_native f) (fw_paths f) (fw_info f) (fw_plan f) failure (fw_nativeDeleted f).
Definition deleted_natively (f : deletion_flow) : deletion_flow :=
  mkFlow (fw_stage f) (fw_userID f) (fw_native f) (fw_paths f) (fw_info f) (fw_plan f) (fw_failure f) true.
Definition flow_start : deletion_flow := mkFlow "request" "" None [] "" None None false.

(** The next step goes on, or what the function returns. *)
Inductive step := Go | Return (e : option error).

(** The answer to the browser, and the audit entry before it is summarised. *)
Inductive web_answer := WebBlob (status : Z) (contentType body : string) | WebError (status : Z) (message : string).
Record deletion_audit := mkAudit {
  da_userID : string; da_ids : option (list string); da_paths : list string; da_plan : option EmbyDeletionPlan;
  da_stage : string; da_status : Z; da_nativeDeleted : bool; da_failure : option error
}.
Definition answer_status (a : web_answer) : Z := match a with WebBlob s _ _ => s | WebError s _ => s end.
(** The [Status] of the entry. *)
Definition audit_outcome (a : deletion_audit) : string :=
  if Z.leb 200 (da_status a) && Z.ltb (da_status a) 300 then "success"
  else if Z.eqb (da_status a) 401 || Z.eqb (da_status a) 403 then "denied" else "error".
Definition audit_of (target : option embyDeletionRequest) (f : deletion_flow) (status : Z) : deletion_audit :=
  mkAudit (fw_userID f) (er_ids <$> target) (fw_paths f) (fw_plan f) (fw_stage f) status (fw_nativeDeleted f) (fw_failure f).

Definition fail_with (target : option embyDeletionRequest) (f : deletion_flow) (e : error) : web_answer * deletion_audit :=
  let f := match fw_failure f with None => with_failure (Some e) f | Some _ => f end in
  match as_http e with
  | Some (code, message) => (WebError code message, audit_of target f code)
  | None => (WebError 500 "Emby deletion failed", audit_of target f 500)
  end.

(** The answer after the mutation: its error, or the response it left.  A mutation that returns
    no error has left one ([mutation_effect] in [EmbyApiProofs.v]), so the last case is not
    reached. *)
Definition answer_with (target : embyDeletionRequest) (f : deletion_flow) (e : option error) : web_answer * deletion_audit :=
  match e, fw_native f with
  | Some e, _ => fail_with (Some target) f e
  | None, Some native => (WebBlob (rs_status native) (rs_contentType native) (rs_body native), audit_of (Some target) f (rs_status native))
  | None, None => fail_with (Some target) f (ErrText "no native response")
  end.

Definition key_pages : nat := 100.

Section Handler.
Context `{Env} {ctx : Ctx} (recycleCtx : Ctx) `{Sleep} `{Remote} `{Providers} `{Local} `{CidMap}.
Context `{Http} `{Ranging} `{NativeJson} `{Native}.
Abbreviation Pi := (M Pipe).

Definition embyDeletionURL : Pi native_base :=
  raw ← setting_or_config "emby_url";
  let invalid := ErrHTTP 503 "configure a valid Emby server URL without credentials, query or fragment" in
  match http_url (trim_space raw) with
  | None => throw invalid
  | Some base =>
      if negb (bool_decide (nb_scheme base = "http")) && negb (bool_decide (nb_scheme base = "https")) || bool_decide (nb_hostname base = "")
         || nb_user base || negb (bool_decide (nb_query base = "")) || negb (bool_decide (nb_fragment base = ""))
         || negb (bool_decide (nb_opaque base = "")) then throw invalid
      else mret base
  end.

(** [embyDeletionRequest.call]. *)
Definition native_call (target : embyDeletionRequest) (base : native_base) (method path : string) (query : list (string * list string))
    (body contentType : string) : Pi called :=
  let request := upstream target base method path (range_over query) body contentType in
  if negb (is_ok (nv_accepts request)) then mret (NoResponse (ErrHTTP 502 "cannot construct native Emby request")) else
  answer ← attempt (call (λ h, nv_answer h request) (ANative request));
  mret match answer with Err _ => NoResponse request_failed | Ok a => read_response a end.
Definition native_get (target : embyDeletionRequest) (base : native_base) (path : string) (query : list (string * list string)) : Pi called :=
  native_call target base "GET" path query "" "".

(** ** Authorisation *)

Definition app_key : error := ErrHTTP 403 "application API keys cannot authorize user-confirmed Emby deletion".

(** The access tokens of a page: none is missing, none is the credential. *)
Definition check_keys (credential : string) (tokens : list string) : res unit :=
  res_each (λ token, if bool_decide (token = "") then Err (ErrHTTP 502 "native Emby application key identity is missing")
                     else fail_if (bool_decide (token = credential)) app_key) tokens.

(** The loop over the application keys: [None] when the credential is not one. *)
Fixpoint inspect_keys (target : embyDeletionRequest) (base : native_base) (rounds : nat) (offset : Z)
    : Pi (option (option embyDeletionResponse * option error)) :=
  match rounds with
  | O => mret (Some (None, Some (ErrHTTP 502 "cannot completely inspect native Emby application keys")))
  | S rounds =>
      c ← native_get target base "/Auth/Keys" [("StartIndex", [pretty offset]); ("Limit", ["100"])];
      match refusal c with
      | inr refused => mret (Some refused)
      | inl response =>
          match nj_keys (rs_body response) with
          | None => mret (Some (None, Some (ErrHTTP 502 "cannot inspect native Emby application keys")))
          | Some tokens =>
              match check_keys (er_credential target) tokens with
              | Err e => mret (Some (None, Some e))
              | Ok _ => if bool_decide (length tokens < 100) then mret None else inspect_keys target base rounds (offset + 100)
              end
          end
      end
  end.

(** The user of the one session of the device. *)
Definition session_user (target : embyDeletionRequest) (body : string) : option string :=
  match nj_sessions body with
  | Some [s] =>
      if validEmbyDeletionID (sn_ID s) && validEmbyDeletionID (sn_UserID s) && negb (bool_decide (sn_UserID s = "0"))
         && bool_decide (sn_DeviceID s = er_deviceID target) then Some (sn_UserID s) else None
  | _ => None
  end.
Definition enabled_admin (userID body : string) : bool :=
  match nj_user body with
  | Some u => bool_decide (us_ID u = userID) && us_admin u && bool_decide (us_disabled u = Some false)
  | None => false
  end.

(** [authorizeEmbyDeletion]: the user, or what is returned. *)
Definition authorizeEmbyDeletion (base : native_base) (target : embyDeletionRequest)
    : Pi (string * embyDeletionResponse + (option embyDeletionResponse * option error)) :=
  storedKey ← setting_or_config "emby_api_key";
  if negb (bool_decide (storedKey = "")) && bool_decide (er_credential target = storedKey) then mret (inr (None, Some app_key)) else
  keys ← inspect_keys target base key_pages 0;
  match keys with
  | Some refused => mret (inr refused)
  | None =>
      c ← native_get target base "/Sessions" [("DeviceId", [er_deviceID target])];
      match refusal c with
      | inr refused => mret (inr refused)
      | inl response =>
          match session_user target (rs_body response) with
          | None => mret (inr (None, Some (ErrHTTP 403 "Emby deletion requires one authenticated native user session for this device")))
          | Some userID =>
              c ← native_get target base ("/Users/" +:+ userID) [];
              match refusal c with
              | inr refused => mret (inr refused)
              | inl response =>
                  if enabled_admin userID (rs_body response) then mret (inl (userID, response))
                  else mret (inr (None, Some (ErrHTTP 403 "Emby deletion requires an enabled Emby administrator")))
              end
          end
      end
  end.

(** ** The steps of the handler *)

Definition may_delete (id body : string) : bool := bool_decide (nj_item body = Some (id, true)).
Definition usable_paths (body : string) : option (list string) :=
  match nj_paths body with Some (path :: paths) => Some (path :: paths) | _ => None end.

(** One item: the user may delete it, and Emby tells what it would delete. *)
Definition check_item (target : embyDeletionRequest) (base : native_base) (id : string) (f : deletion_flow) : Pi (deletion_flow * step) :=
  let f := at_stage "item-authorization" f in
  c ← native_get target base ("/Users/" +:+ fw_userID f +:+ "/Items/" +:+ id) [("Fields", ["CanDelete"])];
  match refusal c with
  | inr (native, e) => mret (with_native native f, Return e)
  | inl native =>
      let f := with_native (Some native) f in
      if negb (may_delete id (rs_body native)) then
        mret (f, Return (Some (ErrHTTP 403 "Emby does not allow this user to delete every requested item")))
      else
      let f := at_stage "native-preflight" f in
      c ← native_get target base ("/Items/" +:+ id +:+ "/DeleteInfo") [];
      match refusal c with
      | inr (native, e) => mret (with_native native f, Return e)
      | inl native =>
          let f := with_native (Some native) f in
          match usable_paths (rs_body native) with
          | None => mret (f, Return (Some (ErrHTTP 409 "Emby returned no usable deletion paths; no media was deleted")))
          | Some paths => mret (with_paths (fw_paths f ++ paths) (rs_body native) f, Go)
          end
      end
  end.
Fixpoint check_items (target : embyDeletionRequest) (base : native_base) (ids : list string) (f : deletion_flow)
    : Pi (deletion_flow * step) :=
  match ids with
  | [] => mret (f, Go)
  | id :: ids =>
      '(f, s) ← check_item target base id f;
      match s with Go => check_items target base ids f | Return e => mret (f, Return e) end
  end.

(** The confirmation: the paths with the originals, nothing is deleted. *)
Definition add_path (paths : list string) (path : string) : list string := if bool_decide (path ∈ paths) then paths else paths ++ [path].
Definition confirm (plan : EmbyDeletionPlan) (f : deletion_flow) : deletion_flow * step :=
  let paths := foldl add_path (fw_paths f) (ep_SourcePaths plan) in
  let f := at_stage "confirmation" (with_paths paths (fw_info f) f) in
  match nj_with_paths (fw_info f) paths with
  | Ok body => (with_native (Some (mkResponse (default 0%Z (rs_status <$> fw_native f)) "application/json" body)) f, Return None)
  | Err e => (f, Return (Some e))
  end.

(** Once Emby has deleted its items: the recycling, under its own context. *)
Definition recycling_failed : error := ErrHTTP 502
  "Emby deleted the requested items, but recycling original 115 videos failed or is incomplete. No rollback was performed; inspect the deletion audit and 115 before taking further action.".
Definition response_lost : error := ErrHTTP 502
  "Emby deleted the requested items and original 115 recycling completed, but the native response body could not be read. Do not repeat the deletion.".
Definition recycle (plan : EmbyDeletionPlan) (unread : option error) (f : deletion_flow) : Pi (deletion_flow * step) :=
  let f := at_stage "source-recycling" (deleted_natively f) in
  '(plan, e) ← RecycleEmbyDeletionCtx (ctx := recycleCtx) plan;
  let f := with_plan (Some plan) f in
  match e with
  | Some e => mret (with_failure (Some e) f, Return (Some recycling_failed))
  | None =>
      let f := at_stage "completed" f in
      mret (f, Return match unread with Some _ => Some response_lost | None => None end)
  end.

(** The function [TryMediaMutation] runs: what it leaves and the error it returns. *)
Definition mutate (r : http_request) (base : native_base) (target : embyDeletionRequest) (f : deletion_flow) : Pi (deletion_flow * step) :=
  let f := at_stage "authorization" f in
  admin ← authorizeEmbyDeletion base target;
  match admin with
  | inr (native, e) => mret (with_native native f, Return e)
  | inl (userID, native) =>
      let f := with_native (Some native) (with_user userID f) in
      '(f, s) ← check_items target base (er_ids target) f;
      match s with
      | Return e => mret (f, Return e)
      | Go =>
          let f := at_stage "source-preflight" f in
          prepared ← attempt (PrepareEmbyDeletionCtx (fw_paths f));
          match prepared with
          | Err e => mret (with_failure (Some e) f, Return (Some
                       (ErrHTTP 409 "cannot safely resolve all original 115 videos for these paths; no media was deleted")))
          | Ok plan =>
              let f := with_plan (Some plan) f in
              if er_confirmation target then mret (confirm plan f) else
              let f := at_stage "native-deletion" f in
              c ← native_call target base (hr_method r) (er_path target) (er_query target) (er_body target) (hr_contentType r);
              match c with
              | NoResponse e => mret (with_native None f, Return (Some e))
              | Response native e =>
                  let f := with_native (Some native) f in
                  if negb (successful native) then mret (f, Return e) else recycle plan e f
              end
          end
      end
  end.

(** [handleEmbyDeletion]: the answer and the audit entry.  [queue] is the task service, if
    there is one. *)
Definition handleEmbyDeletion (queue : option Service) (r : http_request) : Pi (web_answer * deletion_audit) :=
  match parseEmbyDeletion r with
  | Err e => mret (fail_with None flow_start e)
  | Ok target =>
      base ← attempt embyDeletionURL;
      match base with
      | Err e => mret (fail_with (Some target) flow_start e)
      | Ok base =>
          match queue with
          | None => mret (fail_with (Some target) flow_start (ErrHTTP 503 "Emby source deletion is unavailable"))
          | Some s =>
              if media_locked s then mret (fail_with (Some target) flow_start (ErrHTTP 409 (error_text ErrMediaMutationBusy))) else
              '(f, st) ← mutate r base target flow_start;
              mret (answer_with target f match st with Return e => e | Go => None end)
          end
      end
  end.
End Handler.
