(* ===== verification/EmbyProofs.v ===== *)
(** Properties of the client of Emby ([Emby.v]): what a listing in pages returns, and what a
    library scan asks Emby to change. *)
From Stdlib Require Import Ascii Qround.
From S2P Require Import Prelude GoStrings GoPath Sql Schema TaskStore Accounts FileSys Remote Local Service Queue Media ReplacementProofs Emby.

(** ** Requests *)

Definition is_get (a : action) : Prop := match a with ANative q _ => nq_method q = "GET" | _ => False end.
Definition gets (w w' : World Pipe) : Prop := ∃ l, pi_log (w_db w') = pi_log (w_db w) ++ l ∧ Forall is_get l.
Lemma gets_none w w' : same_log (w_db w) (w_db w') → gets w w'.
Proof. intros E. exists []. by rewrite app_nil_r. Qed.
Lemma gets_trans w1 w2 w3 : gets w1 w2 → gets w2 w3 → gets w1 w3.
Proof. intros (l & E & F) (l' & E' & F'). exists (l ++ l'). rewrite E', E, app_assoc. split; [done|by apply Forall_app]. Qed.

(** A request with a method to a path below Emby's address. *)
Definition made (method path : string) (q : native_request) : Prop := nq_method q = method ∧ ∃ base, nq_path q = base +:+ path.
Definition ok_status (a : native_answer) : Prop := (200 ≤ na_status a < 300)%Z.

Lemma require_ok status operation : requireEmbyResponse status operation = Ok tt ↔ (200 ≤ status < 300)%Z.
Proof. unfold requireEmbyResponse. rewrite fail_if_ok, orb_false_iff. lia. Qed.

Section Requests.
Context `{Env} {ctx : Ctx} `{Sleep} `{Remote} `{Native} `{EmbyJson} `{PathEscape}.
Implicit Types w : World Pipe.

Lemma wp_silent_attempt {A} (m : M Database A) w (Q : res (res A) → World Pipe → Prop) :
  (∀ r w', same_log (w_db w) (w_db w') → Q (Ok r) w') → wp (attempt (on_db m)) w Q.
Proof. intros HQ. apply wp_attempt. eapply wp_mono; [apply silent_db|]. intros r w'. apply HQ. Qed.
Lemma setting_effect key w :
  wp (setting_or_config key) w (λ r w', same_log (w_db w) (w_db w') ∧ ∃ v, r = Ok v).
Proof.
  unfold setting_or_config. apply wp_bind, wp_silent_attempt. intros raw w1 Hs1. cbv zeta.
  assert (wp (config ← attempt (on_db (GetConfig key)); mret (match config with Ok v => v | Err _ => "" end)) w1
    (λ r w', same_log (w_db w) (w_db w') ∧ ∃ v, r = Ok v)) as Hc.
  { apply wp_bind, wp_silent_attempt. intros config w2 Hs2. apply wp_ret. split; [by etrans|by eexists]. }
  destruct raw as [raw|e]; [|done]. destruct (bool_decide _); [done|]. apply wp_ret. split; [done|by eexists].
Qed.

Lemma request_effect method path query body contentType w :
  wp (newRequest method path query body contentType) w (λ r w', same_log (w_db w) (w_db w') ∧ (∀ q, r = Ok q → made method path q) ∧
    ∀ e, r = Err e → ∃ q, made method path q ∧ nv_accepts q = Err e).
Proof.
  unfold newRequest, getURLAndKey. apply wp_bind, wp_bind. eapply wp_mono; [apply setting_effect|]. intros r w1 [Hs1 [u ->]]. cbv zeta.
  apply wp_bind. eapply wp_mono; [apply setting_effect|]. intros r w2 [Hs2 [k ->]]. apply wp_ret, wp_bind, wp_lift.
  assert (same_log (w_db w) (w_db w2)) as Hs by (by etrans). destruct (nv_accepts _) eqn:Ha.
  - apply wp_ret. split_and!; [done| |done]. intros q [= <-]. split; [done|]. by eexists.
  - split_and!; [done..|]. intros e' [= <-]. eexists. split; [|exact Ha]. split; [done|]. by eexists.
Qed.

Lemma do_effect q failed w :
  wp (emby_do q failed) w (λ r w', ∃ ans, pi_log (w_db w') = pi_log (w_db w) ++ [ANative q ans] ∧
    match r with Ok a => ans = Ok a | Err _ => ∀ a, ans ≠ Ok a end).
Proof.
  assert (wp (call (λ h, nv_answer h q) (ANative q)) w (λ r w', ∃ ans, pi_log (w_db w') = pi_log (w_db w) ++ [ANative q ans] ∧
    match r with Ok a => ans = Ok a | Err _ => ∀ a, ans ≠ Ok a end)) as Hc.
  { apply wp_call. intros n. cbv zeta. eexists. split; [done|]. by destruct (nv_answer _ _). }
  unfold emby_do. destruct (bool_decide _); [done|]. apply wp_wrap. eapply wp_mono; [exact Hc|]. by intros [a|e] w' Hw.
Qed.

(** A call: no request, or one, whose answer is given if its status is a success. *)
Lemma call_effect method path query body contentType failed operation w :
  wp (emby_call method path query body contentType failed operation) w (λ r w',
    (same_log (w_db w) (w_db w') ∧ ∀ a, r ≠ Ok a) ∨
    ∃ q ans, made method path q ∧ pi_log (w_db w') = pi_log (w_db w) ++ [ANative q ans] ∧
      match r with Ok a => ans = Ok a ∧ ok_status a | Err _ => ∀ a, ans = Ok a → ¬ ok_status a end).
Proof.
  unfold emby_call. apply wp_bind. eapply wp_mono; [apply request_effect|]. intros [q|e] w1 [Hs Hq]; [|by left].
  apply wp_bind. eapply wp_mono; [apply do_effect|]. rewrite Hs. intros [a|e] w2 (ans & Hl & Ha).
  - subst ans. apply wp_bind, wp_lift. destruct (requireEmbyResponse _ _) as [[]|e] eqn:Hr.
    + apply require_ok in Hr. apply wp_ret. right. exists q, (Ok a). split_and!; [by apply Hq|done|done|done].
    + right. exists q, (Ok a). split_and!; [by apply Hq|done|]. intros a' [= <-] Hok. apply (require_ok _ operation) in Hok. congruence.
  - right. exists q, ans. split_and!; [by apply Hq|done|]. intros a ->. by destruct (Ha a eq_refl).
Qed.

Lemma get_decoded {A} path query failed operation (decode : option string → res A) prefix w :
  wp (answer ← emby_get path query failed operation; decoded prefix (decode (na_body answer))) w (λ r w',
    gets w w' ∧ ∀ x, r = Ok x → ∃ q a, made "GET" path q ∧ pi_log (w_db w') = pi_log (w_db w) ++ [ANative q (Ok a)] ∧ decode (na_body a) = Ok x).
Proof.
  apply wp_bind. eapply wp_mono; [apply call_effect|]. intros r w1 [[Hs Hr]|(q & ans & Hq & Hl & Hr)].
  - destruct r as [a|e]; [by destruct (Hr a eq_refl)|]. split; [by apply gets_none|done].
  - assert (gets w w1) as Hg by (eexists; split; [exact Hl|]; constructor; [apply Hq|constructor]). destruct r as [a|e]; [|by split].
    destruct Hr as [-> _]. unfold decoded. destruct (bool_decide _); [|apply wp_wrap]; apply wp_lift; (split; [done|]); intros x Hx.
    + by exists q, a.
    + exists q, a. split_and!; [done|done|]. destruct (decode _) as [y|e]; [by injection Hx as ->|done].
Qed.
End Requests.

(** ** Listings in pages *)

(** Pages that follow each other from an offset: only the last is empty or reaches its
    total. *)
Inductive paged {A} : Z → list (list A * Z) → Prop :=
| pg_last start items total : items = [] ∨ (total ≤ start + Z.of_nat (length items))%Z → paged start [(items, total)]
| pg_more start items total pages :
    items ≠ [] → (start + Z.of_nat (length items) < total)%Z → paged (start + Z.of_nat (length items))%Z pages → paged start ((items, total) :: pages).

Section Pages.
Context `{Env} {ctx : Ctx} `{Sleep} `{Remote} `{Native} `{EmbyJson} `{PathEscape} {A : Type}.
Context (ask : Z → M Pipe (list A * Z)) (page : Z → list A * Z → history → Prop).
Hypothesis Hask : ∀ start w, wp (ask start) w (λ r w', gets w w' ∧ ∀ x, r = Ok x → ∃ l, pi_log (w_db w') = pi_log (w_db w) ++ l ∧ page start x l).

(** The requests of the pages, one after the other. *)
Inductive paged_log : Z → list (list A * Z) → history → Prop :=
| pl_none start : paged_log start [] []
| pl_page start items total pages l l' :
    page start (items, total) l → paged_log (start + Z.of_nat (length items))%Z pages l' → paged_log start ((items, total) :: pages) (l ++ l').

Lemma all_pages_effect rounds start found w :
  wp (all_pages ask rounds start found) w (λ r w', gets w w' ∧ ∀ result, r = Ok (Some result) →
    ∃ pages l, paged start pages ∧ result = found ++ concat pages.*1 ∧ pi_log (w_db w') = pi_log (w_db w) ++ l ∧ paged_log start pages l).
Proof.
  revert start found w. induction rounds as [|rounds IH]; intros start found w; cbn [all_pages].
  { apply wp_ret. split; [by apply gets_none|done]. }
  apply wp_bind. eapply wp_mono; [apply Hask|]. intros [[items total]|e] w1 [Hg Hx]; [|done].
  destruct (Hx _ eq_refl) as (l & El & Hl). cbv zeta. destruct (_ || _) eqn:Hend.
  - apply wp_ret. split; [done|]. intros result [= <-]. exists [(items, total)], (l ++ []). split_and!.
    + constructor. apply orb_true_iff in Hend as [Hn|Hn]; [apply bool_decide_eq_true, nil_length_inv in Hn; by left|right; lia].
    + cbn. by rewrite app_nil_r.
    + by rewrite app_nil_r.
    + constructor; [done|constructor].
  - apply orb_false_iff in Hend as [Hn Ht]. apply bool_decide_eq_false in Hn.
    eapply wp_mono; [apply IH|]. intros r w2 [Hg2 Hr]. split; [by eapply gets_trans|]. intros result ->.
    destruct (Hr _ eq_refl) as (pages & l' & Hp & -> & El' & Hl'). exists ((items, total) :: pages), (l ++ l'). split_and!.
    + constructor; [by intros ->|lia|done].
    + cbn. by rewrite app_assoc.
    + by rewrite El', El, app_assoc.
    + by constructor.
Qed.
End Pages.

(** ** The library scan *)

Section Scan.
Context `{Env} {ctx : Ctx} `{Sleep} `{Remote} `{Native} `{EmbyJson} `{PathEscape} (rounds : nat) (update : Q → string → M Database unit).
Implicit Types w : World Pipe.

(** Emby answered the list of its tasks with this one for the library scan. *)
Definition scan_listed (scan : embyScheduledTask) (l : history) : Prop :=
  ∃ q a tasks, made "GET" "/ScheduledTasks" q ∧ l = [ANative q (Ok a)] ∧ ej_tasks (na_body a) = Ok tasks ∧
    find (λ t, bool_decide (et_Key t = "RefreshLibrary")) tasks = Some scan.
(** The start of the scan, when it was not running, which Emby accepted. *)
Definition scan_started (scan : embyScheduledTask) (l : history) : Prop :=
  if bool_decide (et_State scan = "Running") then l = []
  else ∃ q a, made "POST" (running_path (et_ID scan)) q ∧ ok_status a ∧ l = [ANative q (Ok a)].
(** The last of the questions about the task shows it ended after the one before. *)
Definition scan_ended (scan : embyScheduledTask) (l : history) (r : embyTaskResult) : Prop :=
  ∃ before q a task, l = before ++ [ANative q (Ok a)] ∧ made "GET" ("/ScheduledTasks/" +:+ path_escape (et_ID scan)) q ∧ ej_task (na_body a) = Ok task ∧
    et_State task ≠ "Running" ∧ et_LastResult task = Some r ∧
    (match et_LastResult scan with Some old => etr_StartTimeUTC old | None => time_zero end < etr_StartTimeUTC r)%Z.
(** The request to stop a task, which is made but when [net/http] refuses to build it. *)
Definition stop_asked (id : string) (l : history) : Prop :=
  ∃ q, made "DELETE" (running_path id) q ∧ ((∃ ans, l = [ANative q ans]) ∨ l = [] ∧ ∃ e, nv_accepts q = Err e).
(** The stop of the scan this call has started, and of no other. *)
Definition scan_stopped (scan : embyScheduledTask) (l : history) : Prop :=
  if bool_decide (et_State scan = "Running") then l = [] else stop_asked (et_ID scan) l.

(** What a scan asks, and what it returns. *)
Inductive scan_log : res (option embyLibraryScanResult) → history → Prop :=
| sl_unlisted e l : Forall is_get l → scan_log (Err e) l
| sl_unstarted e scan l q ans :
    scan_listed scan l → et_State scan ≠ "Running" → made "POST" (running_path (et_ID scan)) q → (∀ a, ans = Ok a → ¬ ok_status a) →
    scan_log (Err e) (l ++ [ANative q ans])
| sl_ended scan l s watched r :
    scan_listed scan l → scan_started scan s → Forall is_get watched → scan_ended scan watched r →
    scan_log (result ← scan_outcome (et_ID scan) r; Ok (Some result)) (l ++ s ++ watched)
| sl_waiting scan l s watched :
    scan_listed scan l → scan_started scan s → Forall is_get watched → scan_log (Ok None) (l ++ s ++ watched)
| sl_stopped e scan l s watched stop :
    scan_listed scan l → scan_started scan s → Forall is_get watched → scan_stopped scan stop →
    scan_log (Err e) (l ++ s ++ watched ++ stop).

Lemma watch_effect scan baseline n wa w :
  baseline = match et_LastResult scan with Some old => etr_StartTimeUTC old | None => time_zero end →
  wp (watch_scan update (et_ID scan) baseline n wa) w (λ r w', ∃ l, pi_log (w_db w') = pi_log (w_db w) ++ l ∧ Forall is_get l ∧
    ∀ out, r = Ok (Some out) → ∃ r, scan_ended scan l r ∧ out = scan_outcome (et_ID scan) r).
Proof.
  intros Hb. revert wa w. induction n as [|n IH]; intros wa w; cbn [watch_scan].
  { apply wp_ret. exists []. by rewrite app_nil_r. }
  apply wp_bind. unfold getScheduledTask. eapply wp_mono; [apply get_decoded|]. intros [current|e] w1 [(l1 & E1 & F1) Hc].
  2: { by exists l1. }
  destruct (Hc _ eq_refl) as (q & a & Hq & El & Htask). assert (l1 = [ANative q (Ok a)]) as ->.
  { rewrite E1 in El. by apply app_inv_head in El. }
  destruct (if bool_decide _ then _ else _) as [wa' report]. apply wp_bind.
  apply wp_mono with (P := λ r w', same_log (w_db w1) (w_db w')).
  { destruct report as [[p m]|]; [apply silent_db|by apply wp_ret]. }
  intros [[]|e] w2 Hs2; [|exists [ANative q (Ok a)]; by rewrite Hs2].
  destruct (ended_since baseline current) as [r|] eqn:Hend.
  - apply wp_ret. exists [ANative q (Ok a)]. split_and!; [by rewrite Hs2|done|]. intros out [= <-]. exists r. split; [|done].
    unfold ended_since in Hend. destruct (et_LastResult current) as [r'|] eqn:Hl; [|done]. destruct (_ && _ && _) eqn:Hcond; [|done].
    injection Hend as ->. apply andb_true_iff in Hcond as [Hcond Hlt]. apply andb_true_iff in Hcond as [Hst _].
    apply negb_true_iff, bool_decide_eq_false in Hst. exists [], q, a, current. split_and!; try done. rewrite <-Hb. lia.
  - apply wp_bind, wp_sleep.
    { intros k. exists [ANative q (Ok a)]. split_and!; [cbn [w_db]; by rewrite Hs2|done|done]. }
    intros k. eapply wp_mono; [apply IH|]. intros r w3 (l2 & E2 & F2 & Ho). exists (ANative q (Ok a) :: l2).
    split_and!; [rewrite E2; cbn [w_db]; by rewrite Hs2, E1, <-app_assoc|by inversion F1; constructor|].
    intros out Hout. destruct (Ho _ Hout) as (r' & (before & q' & a' & task & -> & Hr) & ->). exists r'. split; [|done].
    by exists (ANative q (Ok a) :: before), q', a', task.
Qed.

Lemma stop_effect id w :
  wp (stopScheduledTask id) w (λ r w', ∃ l, pi_log (w_db w') = pi_log (w_db w) ++ l ∧ stop_asked id l).
Proof.
  unfold stopScheduledTask, try_. apply wp_bind, wp_attempt, wp_bind. eapply wp_mono; [apply request_effect|].
  intros [q|e] w1 (Hs & Hq & He).
  2:{ destruct (He _ eq_refl) as (q & Hm & Ha). apply wp_ret. exists []. rewrite app_nil_r. split; [done|]. exists q. split; [done|]. right. split; [done|by exists e]. }
  eapply wp_mono; [apply do_effect|]. intros r w2 (ans & E & _). apply wp_ret. eexists. split; [by rewrite E, Hs|].
  exists q. split; [by apply Hq|]. left. by exists ans.
Qed.

Lemma scan_effect w :
  wp (RunLibraryScanCtx rounds update) w (λ r w', ∃ l, pi_log (w_db w') = pi_log (w_db w) ++ l ∧ scan_log r l).
Proof.
  unfold RunLibraryScanCtx, listScheduledTasks. apply wp_bind. eapply wp_mono; [apply get_decoded|].
  intros [tasks|e] w1 [(l1 & E1 & F1) Htasks]; [|exists l1; split; [done|by constructor]].
  destruct (Htasks _ eq_refl) as (q1 & a1 & Hq1 & El & Hdec). assert (l1 = [ANative q1 (Ok a1)]) as Hl1.
  { rewrite E1 in El. by apply app_inv_head in El. }
  destruct (find _ tasks) as [scan|] eqn:Hfind; [|apply wp_lift; exists l1; split; [done|by constructor]].
  assert (scan_listed scan l1) as Hlisted by (by exists q1, a1, tasks). clear El Hdec Htasks Hl1. cbv zeta.
  apply wp_bind. apply wp_mono with (P := λ r w', ∃ s, pi_log (w_db w') = pi_log (w_db w1) ++ s ∧
    match r with Ok _ => scan_started scan s | Err e => scan_log (Err e) (l1 ++ s) end).
  { unfold scan_started. destruct (bool_decide (et_State scan = "Running")) eqn:Hrun; cbn [negb].
    - apply wp_ret. exists []. by rewrite app_nil_r.
    - apply wp_bind. eapply wp_mono; [apply call_effect|]. apply bool_decide_eq_false in Hrun.
      intros r w2 [[Hs Hr]|(q & ans & Hq & Hl & Hr)].
      + destruct r as [a|e]; [by destruct (Hr a eq_refl)|]. exists []. rewrite !app_nil_r. split; [done|by constructor].
      + destruct r as [a|e]; [apply wp_ret; destruct Hr as [-> Hok]; eexists; split; [exact Hl|by exists q, a]|].
        eexists. split; [exact Hl|]. by eapply sl_unstarted. }
  intros [[]|e] w2 (s & E2 & Hs); [|exists (l1 ++ s); split; [by rewrite E2, E1, app_assoc|done]].
  apply wp_bind, wp_attempt, wp_bind. apply wp_mono with (P := λ (r : res unit) w', same_log (w_db w2) (w_db w')); [apply silent_db|].
  assert (∀ e w3 watched, pi_log (w_db w3) = pi_log (w_db w2) ++ watched → Forall is_get watched →
    wp (_ ← (if negb (bool_decide (et_State scan = "Running")) then stopScheduledTask (et_ID scan) else mret tt);
        throw (A := option embyLibraryScanResult) e) w3
      (λ r w', ∃ l, pi_log (w_db w') = pi_log (w_db w) ++ l ∧ scan_log r l)) as Hstop.
  { intros e w3 watched E3 F3. apply wp_bind.
    apply wp_mono with (P := λ r w', ∃ e, pi_log (w_db w') = pi_log (w_db w3) ++ e ∧ scan_stopped scan e).
    - unfold scan_stopped. destruct (bool_decide _); cbn [negb]; [apply wp_ret; exists []; rewrite app_nil_r; auto|]. apply stop_effect.
    - intros r w4 (stop & E4 & Hst). assert (pi_log (w_db w4) = pi_log (w_db w) ++ (l1 ++ s ++ watched ++ stop)) as E.
      { by rewrite E4, E3, E2, E1, <-!app_assoc. }
      destruct r as [[]|e']; [apply wp_lift|]; (eexists; split; [exact E|by eapply sl_stopped]). }
  intros [[]|e] w3 Hs3; [|apply (Hstop e w3 []); [by rewrite Hs3, app_nil_r|done]].
  eapply wp_mono; [by apply watch_effect|]. intros r w4 (watched & E4 & F4 & Hout). rewrite Hs3 in E4.
  assert (pi_log (w_db w4) = pi_log (w_db w) ++ (l1 ++ s ++ watched)) as E by (by rewrite E4, E2, E1, <-!app_assoc).
  destruct r as [[out|]|e]; [| |by apply (Hstop e w4 watched)].
  - destruct (Hout _ eq_refl) as (r & Hend & ->). apply wp_bind, wp_lift.
    pose proof (sl_ended scan l1 s watched r Hlisted Hs F4 Hend) as Hl. destruct (scan_outcome _ r); [apply wp_ret|]; by eexists.
  - apply wp_ret. eexists. split; [exact E|by eapply sl_waiting].
Qed.

(** C30: a library scan stops what it started, and nothing else.  Whatever Emby and the
    database answer, the scan lists Emby's tasks; it asks Emby to start the scan only when
    the scan is not running; then it only asks about the task.  It reports a result exactly
    when the task was seen to have ended in a run that began after the last known one, as a
    success only when that run completed; on any other error after a start that Emby
    accepted it asks Emby to stop the scan, as its last request, unless [net/http] refuses to
    build that request; and it never stops a scan that was running before. *)
Theorem scan_stops_its_own w :
  wp (RunLibraryScanCtx rounds update) w (λ r w', ∃ l, pi_log (w_db w') = pi_log (w_db w) ++ l ∧ scan_log r l).
Proof. apply scan_effect. Qed.
End Scan.
