(* ===== verification/EmbyDeletionProofs.v ===== *)
(** Properties of the sources of an Emby deletion ([EmbyDeletion.v]): what an inventory has
    read, what a recycling asks of 115 and what it reports, and what the plan is. *)
From S2P Require Import Prelude GoStrings GoPath Sql Schema Accounts Payload FileSys Remote Drive DriveProofs Episodes Identity Local Service.
From S2P Require Import Autofill Pipeline Media Roots DestinationProofs ReplacementProofs AutofillFrames AutofillProofs EmbyDeletion.
From Stdlib Require Import Ascii.

(** * Inventories *)

Definition listing_request (a : action) : Prop := match a with AList _ _ _ _ _ _ => True | _ => False end.

(** What the objects of a directory have in common. *)
Definition in_directory (cid : string) (files : list DriveFile) : Prop :=
  NoDup (df_FileID <$> files) ∧ NoDup (df_Name <$> files) ∧
  Forall (λ f, df_FileID f ≠ "" ∧ df_FileID f ≠ "0" ∧ df_ParentID f = cid ∧ df_Name f ≠ "" ∧ (0 ≤ df_Size f)%Z) files.

(** The requests of a complete inventory of a directory: consecutive pages of the same
    total, from the first object to the last. *)
Definition inventory (cid : string) (log : history) (files : list DriveFile) : Prop :=
  ∃ pages, log = page_action cid <$> pages ∧ consecutive 0 pages ∧ files = concat (lp_files <$> pages) ∧ in_directory cid files.

Lemma nodup_snoc {A B} (g : A → B) l x : NoDup (g <$> l) → g x ∉ g <$> l → NoDup (g <$> (l ++ [x])).
Proof.
  intros Hl Hx. rewrite fmap_app. apply NoDup_app. split_and!; [done| |apply NoDup_singleton].
  intros y Hy Hin. apply list_elem_of_singleton in Hin as ->. done.
Qed.

Lemma add_identities cid page files files' :
  res_fold (add_identity cid) page files = Ok files' → files' = files ++ page ∧ (in_directory cid files → in_directory cid files').
Proof.
  revert files. induction page as [|f page IH]; intros files; cbn [res_fold]; [intros [= <-]; by rewrite app_nil_r|].
  unfold add_identity at 1. destruct (_ || _) eqn:Hbad; [done|]. intros Hr. destruct (IH _ Hr) as [-> Hd].
  split; [by rewrite <-app_assoc|]. intros (Hi & Hn & Hf). apply Hd.
  repeat (apply orb_false_iff in Hbad as [Hbad ?]).
  repeat match goal with H : bool_decide _ = false |- _ => apply bool_decide_eq_false in H | H : negb _ = false |- _ => apply negb_false_iff, bool_decide_eq_true in H end.
  split; [by apply nodup_snoc|split; [by apply nodup_snoc|]]. apply Forall_app. split; [done|]. repeat constructor; try done. lia.
Qed.

Section Inventory.
Context `{Env} `{Ctx} `{Sleep} `{Remote} `{Providers}.
Implicit Types w : World Pipe.

Definition lists_only (w w' : World Pipe) : Prop := ∃ l, pi_log (w_db w') = pi_log (w_db w) ++ l ∧ Forall listing_request l.

Lemma lists_none w w' : same_log (w_db w) (w_db w') → lists_only w w'.
Proof. intros E. exists []. by rewrite app_nil_r. Qed.
Lemma lists_one w w' p a d o n r : pi_log (w_db w') = pi_log (w_db w) ++ [AList p a d o n r] → lists_only w w'.
Proof. intros E. eexists. split; [exact E|]. by repeat constructor. Qed.

(** A page: one request, whose objects come after those before. *)
Lemma inventory_page_effect accountID cid expected files offset w :
  (0 ≤ offset)%Z →
  wp (inventory_page accountID cid expected files offset) w (λ r w',
    lists_only w w' ∧
    ∀ st, r = Ok st → ∃ p, pi_log (w_db w') = pi_log (w_db w) ++ [page_action cid p] ∧ lp_offset p = offset ∧
      (match expected with Some e => lp_total p = e | None => True end) ∧
      st = (files ++ lp_files p, (offset + Z.of_nat (length (lp_files p)))%Z, lp_total p) ∧ (st.1.2 ≤ st.2)%Z ∧
      ((offset < lp_total p)%Z → (offset < st.1.2)%Z) ∧ (in_directory cid files → in_directory cid st.1.1)).
Proof.
  intros Hoff. unfold inventory_page. apply wp_bind, wp_listFiles; [done|intros e w' Hs; split; [by apply lists_none|done]| |].
  { intros a e w' r Hl. split; [by eapply lists_one|done]. }
  intros a page total w1 _ Hl. cbv zeta. destruct (_ || _ || _ || _) eqn:Hbad; [apply wp_lift; split; [by eapply lists_one|done]|].
  apply wp_bind, wp_lift. destruct (res_fold _ _ _) as [files'|e] eqn:Hf; [|split; [by eapply lists_one|done]].
  apply add_identities in Hf as [-> Hd]. apply wp_ret. split; [by eapply lists_one|]. intros st [= <-].
  apply orb_false_iff in Hbad as [Hbad Hempty]. apply orb_false_iff in Hbad as [Hbad Hover].
  apply orb_false_iff in Hbad as [_ Hexp]. exists (mkListed a offset page total). cbn [lp_offset lp_files lp_total fst snd].
  split_and!; try done.
  - destruct expected as [e|]; [|done]. apply negb_false_iff in Hexp. lia.
  - lia.
  - intros Hlt. apply andb_false_iff in Hempty as [Hn|Hn]; lia.
Qed.

(** As many rounds as there are objects left are enough. *)
Lemma inventory_rounds accountID cid n1 n2 files offset total w :
  (0 ≤ offset ≤ total)%Z → (total - offset ≤ Z.of_nat n1)%Z → (total - offset ≤ Z.of_nat n2)%Z →
  inventory_pages accountID cid n1 (files, offset, total) w = inventory_pages accountID cid n2 (files, offset, total) w.
Proof.
  revert n2 files offset total w. induction n1 as [|n1 IH]; intros n2 files offset total w Ho H1' H2'.
  - assert (offset = total) as -> by lia. destruct n2; cbn [inventory_pages]; by rewrite Z.eqb_refl.
  - destruct n2 as [|n2]; [assert (offset = total) as -> by lia; cbn [inventory_pages]; by rewrite Z.eqb_refl|].
    cbn [inventory_pages]. destruct (Z.eqb_spec offset total) as [|Hne]; [done|].
    pose proof (inventory_page_effect accountID cid (Some total) files offset w ltac:(lia)) as Hp.
    unfold wp in Hp. unfold mbind, m_bind. destruct (inventory_page _ _ _ _ _ w) as [[st|e] w']; [|done].
    destruct Hp as [_ Hp]. destruct (Hp st eq_refl) as (p & _ & _ & Ht & -> & Hle & Hlt & _). rewrite Ht in *.
    cbn [fst snd] in *. apply IH; lia.
Qed.

Lemma inventory_pages_effect accountID cid n files offset total w :
  (0 ≤ offset ≤ total)%Z → in_directory cid files →
  wp (inventory_pages accountID cid n (files, offset, total)) w (λ r w',
    lists_only w w' ∧
    ∀ files', r = Ok files' → ∃ pages, pi_log (w_db w') = pi_log (w_db w) ++ (page_action cid <$> pages) ∧
      (match pages with [] => offset = total | _ => consecutive offset pages end) ∧
      files' = files ++ concat (lp_files <$> pages) ∧ in_directory cid files').
Proof.
  revert files offset total w. induction n as [|n IH]; intros files offset total w Ho Hd; cbn [inventory_pages].
  - destruct (Z.eqb_spec offset total) as [->|]; [|apply wp_lift; split; [by apply lists_none|done]].
    apply wp_ret. split; [by apply lists_none|]. intros f [= <-]. exists []. cbn. by rewrite !app_nil_r.
  - destruct (Z.eqb_spec offset total) as [->|].
    { apply wp_ret. split; [by apply lists_none|]. intros f [= <-]. exists []. cbn. by rewrite !app_nil_r. }
    apply wp_bind. eapply wp_mono; [apply inventory_page_effect; lia|]. intros [st|e] w1 [Hl1 Hp]; [|split; [done|done]].
    destruct (Hp st eq_refl) as (p & Hlog & Hoff & Ht & -> & Hle & Hlt & Hd1). cbn [fst snd] in *.
    eapply wp_mono; [apply IH; [lia|auto]|]. intros r w2 [Hl2 Hr]. split.
    + destruct Hl1 as (l1 & E1 & F1), Hl2 as (l2 & E2 & F2). exists (l1 ++ l2). rewrite E2, E1, app_assoc. split; [done|by apply Forall_app].
    + intros files' ->. destruct (Hr _ eq_refl) as (pages & Hlog' & Hc & -> & Hd'). exists (p :: pages).
      rewrite Hlog', Hlog, <-app_assoc. split; [done|]. split; [|by cbn; rewrite app_assoc].
      cbn [consecutive]. split; [done|]. by destruct pages.
Qed.

Lemma inventory_effect accountID cid w :
  wp (embyDeletionInventory accountID cid) w (λ r w', ∃ l, pi_log (w_db w') = pi_log (w_db w) ++ l ∧ Forall listing_request l ∧
    ∀ files, r = Ok files → inventory cid l files).
Proof.
  unfold embyDeletionInventory. apply wp_bind. eapply wp_mono; [by apply inventory_page_effect|].
  intros [st|e] w1 [(l1 & E1 & F1) Hp]; [|by exists l1]. destruct (Hp st eq_refl) as (p & Hlog & Hoff & _ & -> & Hle & Hlt & Hd).
  cbn [fst snd app] in *. eapply wp_mono; [apply inventory_pages_effect; [lia|apply Hd]|].
  { split_and!; [apply NoDup_nil_2|apply NoDup_nil_2|done]. }
  intros r w2 [(l2 & E2 & F2) Hr]. exists (l1 ++ l2). rewrite E2, E1, app_assoc. split_and!; [done|by apply Forall_app|].
  intros files ->. destruct (Hr _ eq_refl) as (pages & Hlog' & Hc & -> & Hd'). exists (p :: pages).
  assert (l1 = [page_action cid p]) as -> by (by rewrite E1 in Hlog; apply app_inv_head in Hlog).
  assert (l2 = page_action cid <$> pages) as -> by (by rewrite E2 in Hlog'; apply app_inv_head in Hlog').
  split_and!; try done.
Qed.
End Inventory.

(** * Recycling *)

(** The object of 115 a target stands for, as a listing shows it. *)
Definition same_object (t : embyDeletionTarget) (f : DriveFile) : Prop :=
  df_FileID f = df_FileID (dt_file t) ∧ df_Name f = df_Name (dt_file t) ∧ df_ParentID f = df_ParentID (dt_file t) ∧
  df_Size f = df_Size (dt_file t) ∧ df_IsFolder f = false ∧ equal_fold (df_Sha1 f) (df_Sha1 (dt_file t)) = true.
Definition holds_target (t : embyDeletionTarget) (files : list DriveFile) : Prop := df_FileID (dt_file t) ∈ df_FileID <$> files.

(** What recycling a target asks for, and what it says: [Some true] for a recycled target,
    [Some false] for one that was absent already, [None] when it stops there. *)
Inductive target_log (t : embyDeletionTarget) : option bool → history → Prop :=
| tl_refused l : Forall listing_request l → target_log t None l
| tl_absent l files :
    inventory (df_ParentID (dt_file t)) l files → ¬ holds_target t files → dt_native t = true → target_log t (Some false) l
| tl_unverified l files f a r l' :
    inventory (df_ParentID (dt_file t)) l files → f ∈ files → same_object t f → Forall listing_request l' →
    target_log t None (l ++ ADelete a [trim_space (df_FileID (dt_file t))] r :: l')
| tl_recycled l files f a l' files' :
    inventory (df_ParentID (dt_file t)) l files → f ∈ files → same_object t f →
    inventory (df_ParentID (dt_file t)) l' files' → ¬ holds_target t files' →
    target_log t (Some true) (l ++ ADelete a [trim_space (df_FileID (dt_file t))] (Ok tt) :: l').

(** The targets in their order, up to the first that stops the run. *)
Inductive recycle_log : list embyDeletionTarget → list bool → option error → history → Prop :=
| rl_done : recycle_log [] [] None []
| rl_next t ts b marks failure l l' :
    target_log t (Some b) l → recycle_log ts marks failure l' → recycle_log (t :: ts) (b :: marks) failure (l ++ l')
| rl_stop t ts e l : target_log t None l → recycle_log (t :: ts) [] (Some e) l.

(** The sources with the marks of the targets done. *)
Definition mark (b : bool) : EmbyDeletionSource → EmbyDeletionSource := if b then set_recycled else set_absent.
Definition marked (marks : list bool) (sources : list EmbyDeletionSource) : list EmbyDeletionSource :=
  zip_with mark marks sources ++ drop (length marks) sources.

(** The plan a recycling leaves. *)
Definition left_plan (plan : EmbyDeletionPlan) (marks : list bool) : EmbyDeletionPlan :=
  mkPlan (ep_SourcePaths plan) (ep_AccountID plan) (marked marks (ep_Sources plan)) (ep_targets plan) true.

(** A deletion comes right after a complete inventory of its directory, which shows the very
    object of the plan. *)
Definition just_seen (t : embyDeletionTarget) (before : history) : Prop :=
  ∃ h pages files f, before = h ++ pages ∧ inventory (df_ParentID (dt_file t)) pages files ∧ f ∈ files ∧ same_object t f.
Definition deletes_seen (ts : list embyDeletionTarget) (l : history) : Prop :=
  ∀ l1 a l2, l = l1 ++ a :: l2 →
    listing_request a ∨ ∃ t acc r, t ∈ ts ∧ a = ADelete acc [trim_space (df_FileID (dt_file t))] r ∧ just_seen t l1.

Lemma seen_lists ts l : Forall listing_request l → deletes_seen ts l.
Proof. intros F l1 a l2 ->. left. apply Forall_app in F as [_ F]. by inversion F. Qed.
Lemma inventory_lists cid l files : inventory cid l files → Forall listing_request l.
Proof. intros (pages & -> & _). apply Forall_fmap, Forall_true. by intros. Qed.
Lemma just_seen_app t l l' : just_seen t l' → just_seen t (l ++ l').
Proof. intros (h & pages & files & f & -> & Hi). exists (l ++ h), pages, files, f. by rewrite app_assoc. Qed.
Lemma seen_app ts l l' : deletes_seen ts l → deletes_seen ts l' → deletes_seen ts (l ++ l').
Proof.
  intros Hl Hl' l1 a l2 E. symmetry in E. apply app_eq_inv in E as [(k & -> & Hk)|(k & -> & Hk)].
  - destruct (Hl' k a l2 Hk) as [Ha|(t & acc & r & Ht & -> & Hs)]; [by left|]. right. exists t, acc, r. split_and!; [done|done|by apply just_seen_app].
  - destruct k as [|b k]; simplify_eq/=.
    + rewrite app_nil_r in *. destruct (Hl' [] a l2 eq_refl) as [Ha|(t & acc & r & Ht & -> & Hs)]; [by left|]. right.
      exists t, acc, r. split_and!; [done|done|]. destruct Hs as (h & pages & files & f & E & Hs). exists (l1 ++ h), pages, files, f.
      by rewrite <-app_assoc, <-E, app_nil_r.
    + by eapply Hl.
Qed.
Lemma seen_more ts ts' l : ts ⊆ ts' → deletes_seen ts l → deletes_seen ts' l.
Proof.
  intros Hs Hl l1 a l2 E. destruct (Hl l1 a l2 E) as [Ha|(t & acc & r & Ht & Hr)]; [by left|]. right. exists t, acc, r. split; [by apply Hs|done].
Qed.

Lemma seen_delete t l files f acc r l' :
  inventory (df_ParentID (dt_file t)) l files → f ∈ files → same_object t f → Forall listing_request l' →
  deletes_seen [t] (l ++ ADelete acc [trim_space (df_FileID (dt_file t))] r :: l').
Proof.
  intros Hi Hf Ho F l1 a l2 E. symmetry in E. apply app_eq_inv in E as [(k & -> & Hk)|(k & -> & Hk)].
  - destruct k as [|b k]; simplify_eq/=.
    + right. exists t, acc, r. split_and!; [by left|done|]. rewrite app_nil_r. by exists [], l, files, f.
    + left. apply Forall_app in F as [_ F]. by inversion F.
  - destruct k as [|b k]; simplify_eq/=.
    + right. exists t, acc, r. split_and!; [by left|done|]. rewrite app_nil_r in Hi. by exists [], l1, files, f.
    + left. apply inventory_lists, Forall_app in Hi as [_ F']. by inversion F'.
Qed.

Lemma target_seen t b l : target_log t b l → deletes_seen [t] l.
Proof.
  intros [l0 F|l0 files Hi _ _|l0 files f a r l' Hi Hf Ho F|l0 files f a l' files' Hi Hf Ho Hi' _].
  - by apply seen_lists.
  - by eapply seen_lists, inventory_lists.
  - by eapply seen_delete.
  - eapply seen_delete; try done. by eapply inventory_lists.
Qed.
Lemma recycle_seen ts marks failure l : recycle_log ts marks failure l → deletes_seen ts l.
Proof.
  induction 1 as [|t ts b marks failure l l' Ht _ IH|t ts e l Ht].
  - by apply seen_lists.
  - apply seen_app; [eapply seen_more; [|by eapply target_seen]|eapply seen_more; [|exact IH]].
    + intros x Hx. apply list_elem_of_singleton in Hx as ->. by left.
    + intros x Hx. by right.
  - eapply seen_more; [|by eapply target_seen]. intros x Hx. apply list_elem_of_singleton in Hx as ->. by left.
Qed.
Lemma recycle_marks ts marks failure l : recycle_log ts marks failure l → length marks ≤ length ts ∧ (failure = None ↔ length marks = length ts).
Proof.
  induction 1 as [|t ts b marks failure l l' Ht _ [IH IH']|t ts e l Ht]; simpl.
  - done.
  - split; [lia|]. rewrite IH'. lia.
  - split; [lia|]. split; [done|lia].
Qed.

Lemma found_in {A} (p : A → bool) l x : find p l = Some x → x ∈ l ∧ p x = true.
Proof. intros E. apply find_some in E as [Hx Hp]. split; [by apply list_elem_of_In|done]. Qed.
Lemma id_absent (id : string) files : find (λ f, bool_decide (df_FileID f = id)) files = None → id ∉ df_FileID <$> files.
Proof.
  intros Hn Hin. apply list_elem_of_fmap in Hin as (f & -> & Hf). apply list_elem_of_In in Hf.
  pose proof (find_none _ _ Hn f Hf) as Hb. by apply bool_decide_eq_false in Hb.
Qed.

Definition of_res {A} (r : res A) : option A := match r with Ok a => Some a | Err _ => None end.

Section Recycling.
Context `{Env} `{Ctx} `{Sleep} `{Remote} `{Providers}.
Implicit Types w : World Pipe.

Lemma target_effect accountID t w :
  wp (recycle_target accountID t) w (λ r w', ∃ l, pi_log (w_db w') = pi_log (w_db w) ++ l ∧ target_log t (of_res r) l).
Proof.
  unfold recycle_target. cbv zeta. apply wp_bind, wp_ctx_live.
  { intros n. exists []. rewrite app_nil_r. split; [done|]. by apply tl_refused. }
  intros n. apply wp_bind, wp_wrap. eapply wp_mono; [apply inventory_effect|]. intros [files|e] w1 (l & E1 & F1 & Hi); cycle 1.
  { exists l. split; [exact E1|by apply tl_refused]. }
  specialize (Hi files eq_refl). cbn [wrap_err]. destruct (find _ files) as [f|] eqn:Hf.
  2: { apply id_absent in Hf. destruct (dt_native t) eqn:Hn.
       - apply wp_ret. exists l. split; [exact E1|]. by eapply tl_absent.
       - apply wp_lift. exists l. split; [exact E1|by apply tl_refused]. }
  apply found_in in Hf as [Hf Hid]. apply bool_decide_eq_true in Hid.
  destruct (_ || _ || _ || _ || _) eqn:Hsame; [apply wp_lift; exists l; split; [exact E1|by apply tl_refused]|].
  assert (same_object t f) as Hobj.
  { repeat (apply orb_false_iff in Hsame as [Hsame ?]).
    repeat match goal with H : negb _ = false |- _ => apply negb_false_iff in H end.
    repeat match goal with H : bool_decide _ = true |- _ => apply bool_decide_eq_true in H end.
    split_and!; try done. lia. }
  apply wp_bind, wp_wrap, wp_delete.
  { intros e w2 Hs. exists l. split; [by rewrite Hs|by apply tl_refused]. }
  intros a w2 r Hlog. fold r in Hlog.
  clearbody r. rewrite E1 in Hlog. destruct r as [[]|e]; cycle 1.
  { eexists. split; [by rewrite Hlog, <-app_assoc|]. by eapply tl_unverified. }
  cbn [wrap_err]. apply wp_bind, wp_wrap. eapply wp_mono; [apply inventory_effect|]. intros [files'|e] w3 (l' & E3 & F3 & Hi'); cycle 1.
  { exists (l ++ ADelete a [trim_space (df_FileID (dt_file t))] (Ok tt) :: l'). rewrite E3, Hlog, <-!app_assoc. split; [done|]. by eapply tl_unverified. }
  specialize (Hi' files' eq_refl). cbn [wrap_err]. destruct (existsb _ _) eqn:Hx.
  - apply wp_lift. exists (l ++ ADelete a [trim_space (df_FileID (dt_file t))] (Ok tt) :: l'). rewrite E3, Hlog, <-!app_assoc. split; [done|].
    by eapply tl_unverified.
  - apply wp_ret. exists (l ++ ADelete a [trim_space (df_FileID (dt_file t))] (Ok tt) :: l'). rewrite E3, Hlog, <-!app_assoc. split; [done|].
    eapply tl_recycled; try done. intros Hin. apply list_elem_of_fmap in Hin as (g & Hg & Hgin). apply not_true_iff_false in Hx. apply Hx.
    apply existsb_exists. exists g. split; [by apply list_elem_of_In|]. by apply bool_decide_eq_true.
Qed.

Lemma alter_here {A} (f : A → A) before x after : alter f (length before) (before ++ x :: after) = before ++ f x :: after.
Proof. induction before as [|y before IH]; [done|]. simpl. f_equal. exact IH. Qed.

Lemma targets_effect accountID ts before sources w :
  length sources = length ts →
  wp (fold_until (recycle_one accountID) (imap (λ i t, (length before + i, t)) ts) (before ++ sources)) w (λ r w',
    ∃ l marks failure, pi_log (w_db w') = pi_log (w_db w) ++ l ∧ r = Ok (before ++ marked marks sources, failure) ∧
      recycle_log ts marks failure l).
Proof.
  revert before sources w. induction ts as [|t ts IH]; intros before sources w Hlen.
  { destruct sources; [|done]. apply wp_ret. exists [], [], None. split_and!; [by rewrite app_nil_r|done|constructor]. }
  destruct sources as [|s sources]; [done|]. injection Hlen as Hlen. cbn [imap fold_until].
  apply wp_bind. unfold recycle_one. apply wp_bind, wp_attempt. eapply wp_mono; [apply target_effect|].
  intros r w1 (l & E1 & Ht). rewrite Nat.add_0_r. apply wp_ret. destruct r as [b|e]; cbn [of_res] in Ht; cycle 1.
  { apply wp_ret. exists l, [], (Some e). split_and!; [done|done|by constructor]. }
  cbn iota beta. rewrite alter_here. eapply wp_mono.
  { eassert (imap _ ts = imap (λ i t, (length (before ++ [mark b s]) + i, t)) ts) as ->.
    2: { replace (before ++ (if b then set_recycled else set_absent) s :: sources) with ((before ++ [mark b s]) ++ sources)
         by (by rewrite <-app_assoc; destruct b). by apply IH. }
    apply imap_ext. intros i x _. cbn. rewrite length_app. cbn. f_equal. lia. }
  intros r w2 (l' & marks & failure & E2 & -> & Hlog). exists (l ++ l'), (b :: marks), failure.
  rewrite E2, E1, <-app_assoc. split_and!; [done| |by constructor]. by rewrite <-app_assoc.
Qed.
End Recycling.

(** * Preparing a deletion *)

(** Requests that change nothing of a drive, of Emby or of the media: listings, questions
    about files, and the creation of the STRM root with readable permissions. *)
Definition harmless (a : action) : Prop :=
  match a with
  | AList _ _ _ _ _ _ | ALibraries _ | AInfo _ _ | AText _ _ | AWalk _ _ => True
  | ADo (LMkdirAll _) _ | ADo (LChmod _ _) _ => True
  | _ => False
  end.

Section Frame.
Context `{Env} `{Ctx} `{Sleep} `{Remote} `{Providers} `{Local} `{CidMap}.
Abbreviation R := (pipe_rel harmless any_db).
Abbreviation kept m := (keeps R m).

Lemma hl_any {A} (m : M Database A) : keeps any_db m.
Proof. intros w. by apply wp_intro. Qed.
Hint Resolve hl_any : frames.
Lemma hl_info op : kept (os_info op). Proof. unfold os_info. frame. Qed.
Lemma hl_text op : kept (os_text op). Proof. unfold os_text. frame. Qed.
Lemma hl_walk root : kept (walk_dir root).
Proof. intros w. unfold wp, walk_dir, observe. simpl. split; [|done]. eexists. split; [done|]. by repeat constructor. Qed.
Lemma hl_or_zero {A} (z : A) m : kept m → kept (or_zero z m).
Proof. intros Hm. unfold or_zero. frame. Qed.
Hint Resolve hl_info hl_text hl_walk hl_or_zero : frames.
Lemma hl_root path create : kept (canonicalRoot path create).
Proof. unfold canonicalRoot, ensureReadableDirectory, os_do. frame. Qed.
Hint Resolve hl_root : frames.
Lemma hl_paths name : kept (paths name).
Proof. unfold paths. frame; apply hl_or_zero; frame. Qed.
Lemma hl_default p : kept (GetDefaultAccount p).
Proof. apply keeps_GetDefaultAccount; [apply _|..]; intros; apply hl_any. Qed.
Lemma hl_inventory accountID cid : kept (embyDeletionInventory accountID cid).
Proof.
  intros w. eapply wp_mono; [apply inventory_effect|]. intros r w' (l & E & F & _). split; [|done].
  exists l. split; [done|]. eapply Forall_impl; [exact F|]. by intros [].
Qed.
Hint Resolve hl_paths hl_default hl_inventory : frames.
Lemma hl_parts root info parts : kept (lstat_parts root info parts).
Proof. revert root info. induction parts as [|part parts IH]; intros root info; cbn [lstat_parts]; frame; apply IH. Qed.
Hint Resolve hl_parts : frames.
Lemma hl_lstat root path : kept (embyDeletionLstat root path).
Proof. unfold embyDeletionLstat. frame. Qed.
Hint Resolve hl_lstat : frames.
Lemma hl_location name a b c d e f found location : kept (map_location name a b c d e f found location).
Proof. unfold map_location. frame. Qed.
Hint Resolve hl_location : frames.
Lemma hl_library cids found library : kept (map_library cids found library).
Proof. unfold map_library. frame. Qed.
Hint Resolve hl_library : frames.
Lemma hl_libraries : kept embyDeletionLibraries.
Proof. unfold embyDeletionLibraries, check_root. frame. Qed.
Lemma hl_resolve accountID cid parts inventories : kept (resolve_parts accountID cid parts inventories).
Proof.
  revert cid inventories. induction parts as [|part parts IH]; intros cid inventories; cbn [resolve_parts]; frame; apply IH.
Qed.
Lemma hl_original library path strm video : kept (original_of library path strm video).
Proof. unfold original_of, embyDeletionSTRM. frame. Qed.
Hint Resolve hl_libraries hl_resolve hl_original : frames.
Lemma hl_entry accountID library host st e : kept (visit_entry accountID library host st e).
Proof. unfold visit_entry, resolveEmbyDeletionSource. frame. Qed.
Hint Resolve hl_entry : frames.
Lemma hl_path accountID libraries st input : kept (visit_path accountID libraries st input).
Proof. unfold visit_path, walk_failed. frame. Qed.
Hint Resolve hl_path : frames.
Lemma hl_prepare l : kept (PrepareEmbyDeletionCtx l).
Proof. unfold PrepareEmbyDeletionCtx. frame. Qed.
End Frame.

(** ** The libraries *)

(** What a location of a library stands for: its media directory as Emby sees or resolves it,
    or else its directory of the STRM tree. *)
Definition placed_at (name mediaRoot mediaBase strmBase prefix cid location : string) (m : embyDeletionLibrary) : Prop :=
  embyDeletionAbsolute location = Ok (dl_visible m) ∧ dl_mediaRoot m = mediaRoot ∧ dl_mediaBase m = mediaBase ∧ dl_prefix m = prefix ∧ dl_cid m = cid ∧
  let media := dl_visible m = join_path [prefix; name] ∨ dl_visible m = mediaBase in
  (media ∧ dl_host m = mediaBase ∧ dl_native m = true ∨
   ¬ media ∧ (dl_visible m = join_path ["/strm-v2"; canonicalSTRMDirectory name] ∨ dl_visible m = strmBase) ∧
   dl_host m = strmBase ∧ dl_native m = false).

(** A mapping between [s] and [s']: of a location of a library that Emby listed, which the
    stored map gives a directory of 115, with its roots. *)
Definition mapped `{Env} `{Local} `{CidMap} (s s' : Pipe) (m : embyDeletionLibrary) : Prop :=
  ∃ cids libraries library location mediaRoot mediaBase strmBase prefix,
    decode_cid_map (stored (pi_db s) "c115_cid_map") = Some cids ∧
    during s s' (ALibraries (Ok libraries)) ∧ library ∈ libraries ∧ location ∈ lb_Locations library ∧
    dl_cid m ≠ "" ∧ rooted (lb_Name library) s s' mediaRoot mediaBase strmBase prefix ∧
    placed_at (lb_Name library) mediaRoot mediaBase strmBase prefix (trim_space (default "" (cids !! lb_Name library))) location m.

Section Libraries.
Context `{Env} `{Ctx} `{Sleep} `{Remote} `{Providers} `{Local} `{CidMap}.

Lemma mapped_later s s1 s2 m : mapped s s1 m → grows (λ _, True) s1 s2 → mapped s s2 m.
Proof.
  intros (cids & libs & lib & loc & mr & mb & sb & px & Hc & Hd & Hl & Hloc & Hne & Hr & Hp) Hg.
  exists cids, libs, lib, loc, mr, mb, sb, px. split_and!; try done; [by eapply during_l|by eapply rooted_later].
Qed.

Lemma fx_parts root info parts : keeps fixed (lstat_parts root info parts).
Proof. revert root info. induction parts as [|part parts IH]; intros root info; cbn [lstat_parts]; keeps_run; apply fixed_info || apply IH. Qed.
Lemma fx_lstat root path : keeps fixed (embyDeletionLstat root path).
Proof. unfold embyDeletionLstat. keeps_run; apply fixed_info || apply fx_parts. Qed.
Lemma fx_check key : keeps fixed (check_root key).
Proof. unfold check_root, GetSetting. keeps_run. apply fixed_info. Qed.

Lemma location_effect name mr mb sb px sr cid found location w :
  wp (map_location name mr mb sb px sr cid found location) w (λ r w', fixed (w_db w) (w_db w') ∧
    ∀ found', r = Ok found' → ∃ m, found' = found ++ [m] ∧ placed_at name mr mb sb px cid location m).
Proof.
  unfold map_location, placed_at. apply wp_bind, wp_lift. destruct (embyDeletionAbsolute location) as [visible|e]; [|done]. cbv zeta.
  apply wp_bind. eapply (wp_mono _ _ (λ r w', fixed (w_db w) (w_db w') ∧ ∀ m, r = Ok m →
    dl_visible m = visible ∧ dl_mediaRoot m = mr ∧ dl_mediaBase m = mb ∧ dl_prefix m = px ∧ dl_cid m = cid ∧
    ((visible = join_path [px; name] ∨ visible = mb) ∧ dl_host m = mb ∧ dl_native m = true ∨
     ¬ (visible = join_path [px; name] ∨ visible = mb) ∧ (visible = join_path ["/strm-v2"; canonicalSTRMDirectory name] ∨ visible = sb) ∧
     dl_host m = sb ∧ dl_native m = false))).
  { destruct (bool_decide (visible = join_path [px; name]) || bool_decide (visible = mb)) eqn:Hmedia.
    - apply wp_ret. split; [done|]. intros m [= <-]. cbn. split_and!; try done. left. split; [|done].
      apply orb_true_iff in Hmedia as [Hb|Hb]; bools; auto.
    - destruct (bool_decide (visible = join_path ["/strm-v2"; _]) || _) eqn:Hstrm; [|by apply wp_lift]. apply wp_bind. eapply wp_mono; [apply fx_lstat|]. intros [info|e] w1 Hf; [|done].
      apply wp_ret. split; [done|]. intros m [= <-]. cbn. split_and!; try done. right. apply orb_false_iff in Hmedia as [Hm1 Hm2]. bools.
      split; [by intros [?|?]|]. split; [|done]. apply orb_true_iff in Hstrm as [Hb|Hb]; bools; auto. }
  intros [m|e] w1 [Hf Hm]; [|done]. destruct (Hm _ eq_refl) as (<- & ?). destruct (find _ found); [by apply wp_lift|].
  apply wp_ret. split; [done|]. intros found' [= <-]. by exists m.
Qed.

Lemma locations_effect name mr mb sb px sr cid locations found w :
  wp (m_fold (map_location name mr mb sb px sr cid) locations found) w (λ r w', fixed (w_db w) (w_db w') ∧
    ∀ found', r = Ok found' → ∀ m, m ∈ found' → m ∈ found ∨ ∃ location, location ∈ locations ∧ placed_at name mr mb sb px cid location m).
Proof.
  revert found w. induction locations as [|location locations IH]; intros found w; cbn [m_fold].
  { apply wp_ret. split; [done|]. intros found' [= <-] m Hm. by left. }
  apply wp_bind. eapply wp_mono; [apply location_effect|]. intros [found1|e] w1 [Hf1 Hr1]; [|done].
  destruct (Hr1 _ eq_refl) as (m1 & -> & Hm1). eapply wp_mono; [apply IH|]. intros r w2 [Hf2 Hr2]. split; [by etrans|].
  intros found' -> m Hm. destruct (Hr2 _ eq_refl m Hm) as [Hin|(loc & Hloc & Hp)]; [|right; exists loc; split; [by right|done]].
  apply elem_of_app in Hin as [Hin|Hin%list_elem_of_singleton]; [by left|subst m]. right. exists location. split; [by left|done].
Qed.

Lemma library_effect s0 cids libraries library found w :
  fixed s0 (w_db w) → decode_cid_map (stored (pi_db s0) "c115_cid_map") = Some cids → library ∈ libraries →
  during s0 (w_db w) (ALibraries (Ok libraries)) → Forall (mapped s0 (w_db w)) found →
  wp (map_library cids found library) w (λ r w', fixed s0 (w_db w') ∧ ∀ found', r = Ok found' → Forall (mapped s0 (w_db w')) found').
Proof.
  intros Hf0 Hcids Hlib Hd Hfound. unfold map_library. case_bool_decide as Hcid; [by apply wp_ret; split; [|intros ? [= <-]]|].
  apply wp_bind, wp_lift. destruct (cleanRelative _ _) as [name|e]; [|done]. destruct (_ || _) eqn:Hname; [done|].
  apply orb_false_iff in Hname as [_ Hname%negb_false_iff%bool_decide_eq_true_1]. subst name.
  apply wp_bind. eapply wp_mono; [apply paths_effect|]. intros [[[[mr mb] sb] px]|e] w1 [Hf1 Hroots]; [|split; [by etrans|done]].
  specialize (Hroots _ _ _ _ eq_refl). apply (rooted_from _ s0) in Hroots; [|done].
  assert (fixed s0 (w_db w1)) as Hf01 by (by etrans). clear Hf0.
  apply wp_bind. eapply wp_mono; [apply fx_lstat|]. intros [info|e] w2 Hf2; [|split; [by etrans|done]].
  apply wp_bind. eapply wp_mono; [apply stored_effect|]. intros [setting|e] w3 [Hf3 _]; [|split; [by do 2 (etrans; [done|])|done]].
  apply wp_bind. eapply wp_mono; [apply root_effect|]. intros [sr|e] w4 [Hf4 _]; [|split; [by do 3 (etrans; [done|])|done]].
  assert (fixed (w_db w1) (w_db w4)) as Hf14 by (by do 2 (etrans; [done|])). clear Hf2 Hf3 Hf4.
  apply wp_bind, wp_lift. destruct (wrap_err _ _); [|split; [by etrans|done]].
  eapply wp_mono; [apply locations_effect|]. intros r w5 [Hf5 Hr]. assert (fixed (w_db w1) (w_db w5)) as Hf15 by (by etrans).
  split; [by etrans|]. intros found' ->. apply Forall_forall. intros m Hm. specialize (Hr _ eq_refl m Hm). destruct Hr as [Hin|(loc & Hloc & Hp)].
  - rewrite Forall_forall in Hfound. eapply mapped_later; [by apply Hfound|]. exact (proj1 (transitivity Hf1 Hf15)).
  - destruct Hf15 as [Hg15 _]. exists cids, libraries, library, loc, mr, mb, sb, px. split_and!; try done.
    + eapply during_l; [exact Hd|]. exact (transitivity (proj1 Hf1) Hg15).
    + by destruct Hp as (_ & _ & _ & _ & -> & _).
    + by eapply rooted_later.
Qed.

Lemma fx_library cids found library w : wp (map_library cids found library) w (λ _ w', grows (λ _, True) (w_db w) (w_db w')).
Proof. eapply wp_mono; [apply hl_library|]. intros r w' [Hg _]. by eapply grows_weaken. Qed.
Lemma libraries_fold s0 cids libraries todo found w :
  fixed s0 (w_db w) → decode_cid_map (stored (pi_db s0) "c115_cid_map") = Some cids → todo ⊆ libraries →
  during s0 (w_db w) (ALibraries (Ok libraries)) → Forall (mapped s0 (w_db w)) found →
  wp (m_fold (map_library cids) todo found) w (λ r w', fixed s0 (w_db w') ∧ ∀ found', r = Ok found' → Forall (mapped s0 (w_db w')) found').
Proof.
  revert found w. induction todo as [|library todo IH]; intros found w Hf Hcids Hsub Hd Hfound; cbn [m_fold].
  { apply wp_ret. split; [done|]. by intros found' [= <-]. }
  apply wp_bind. eapply (wp_mono _ _ (λ r w', grows (λ _, True) (w_db w) (w_db w') ∧ fixed s0 (w_db w') ∧ ∀ found', r = Ok found' → Forall (mapped s0 (w_db w')) found')).
  { apply wp_and; [apply fx_library|]. eapply library_effect; try done. apply Hsub. by left. }
  intros [found1|e] w1 (Hg1 & Hf1 & Hr1); [|done]. apply IH; [done..| |by eapply during_l|by apply Hr1]. intros x Hx. apply Hsub. by right.
Qed.

Lemma libraries_effect w : wp embyDeletionLibraries w (λ r w', fixed (w_db w) (w_db w') ∧
  ∀ found, r = Ok found → Forall (mapped (w_db w) (w_db w')) found).
Proof.
  unfold embyDeletionLibraries. apply wp_bind. eapply wp_mono; [apply (keeps_each fixed); intros; apply fx_check|]. intros [[]|e] w1 Hf1; [|done].
  apply wp_bind. eapply wp_mono; [apply stored_effect|]. intros [raw|e] w2 (Hf2 & Hraw); [|split; [by etrans|done]].
  rewrite (same_stored _ _ _ (proj2 Hf1)) in Hraw. subst raw. assert (fixed (w_db w) (w_db w2)) as Hf by (by etrans). clear Hf1 Hf2.
  apply wp_bind, wp_lift. destruct (decode_cid_map _) as [cids|] eqn:Hcids; [|done].
  apply wp_bind, wp_call. intros n. cbv zeta. set (answer := rm_libraries _). set (w3 := mkWorld _ _).
  assert (during (w_db w2) (w_db w3) (ALibraries answer) ∧ fixed (w_db w2) (w_db w3)) as [Hd Hf3].
  { split; [eexists; split; [done|by left]|]. split; [|done]. eexists. split; [done|]. by repeat constructor. }
  apply (fixed_during _ _ _ _ Hf) in Hd. assert (fixed (w_db w) (w_db w3)) as Hf' by (by etrans).
  destruct answer as [libraries|e]; [|done]. apply wp_bind. eapply wp_mono.
  { apply (libraries_fold (w_db w) cids libraries libraries []); try done. }
  intros [found|e] w4 [Hf4 Hr]; [|done]. case_bool_decide; [by apply wp_lift|]. apply wp_ret. split; [done|]. intros found' [= <-]. by apply Hr.
Qed.
End Libraries.

(** ** What the plan is *)

Definition target_id (t : embyDeletionTarget) : string := df_FileID (dt_file t).

(** A file of 115 with an identity, as an inventory showed it. *)
Definition recyclable (t : embyDeletionTarget) : Prop :=
  df_IsFolder (dt_file t) = false ∧ df_FileID (dt_file t) ≠ "" ∧ df_FileID (dt_file t) ≠ "0" ∧ df_Name (dt_file t) ≠ "" ∧
  (0 ≤ df_Size (dt_file t))%Z.
Definition targets_ok (ts : list embyDeletionTarget) : Prop :=
  NoDup (target_id <$> ts) ∧ NoDup (dt_path <$> ts) ∧ Forall recyclable ts.
Definition preflight_ok (st : preflight) : Prop :=
  targets_ok (pf_targets st) ∧ map_Forall (λ cid files, in_directory cid files) (pf_inventories st).

Record plan_ok (plan : EmbyDeletionPlan) : Prop := {
  po_some : ep_targets plan ≠ [];
  po_targets : targets_ok (ep_targets plan);
  po_sorted : StronglySorted path_le (ep_targets plan);
  po_paths : ep_SourcePaths plan = dt_path <$> ep_targets plan;
  po_sources : ep_Sources plan = source_of <$> ep_targets plan;
  po_fresh : ep_attempted plan = false
}.


(** The original an object below a path of Emby's stands for. *)
Inductive original (s s' : Pipe) (library : embyDeletionLibrary) (path : string) : string → Prop :=
| or_native relative :
    dl_native library = true → rel (dl_mediaRoot library) path = Ok relative →
    original s s' library path (join_path [dl_prefix library; relative])
| or_strm text target :
    dl_native library = false → during s s' (AText (LReadFile path) (Ok text)) → strm_target path text = Ok target →
    inside (dl_prefix library) target = true → original s s' library path target.
Definition deletable (path : string) (e : walk_entry) : Prop :=
  we_type e = FRegular ∧ (is_video path = true ∨ to_lower (ext path) = ".strm").
Definition entries_covered (s s' : Pipe) (library : embyDeletionLibrary) (host : string) (entries : list walk_entry) (known : list string) : Prop :=
  ∀ e, e ∈ entries → deletable (entry_path host e) e → ∃ p, p ∈ known ∧ original s s' library (entry_path host e) p.
(** Everything below a path of Emby's, in the directory that a mapped library gives it, has its
    original among the known ones. *)
Definition path_covered `{Env} `{Local} `{CidMap} (s s' : Pipe) (known : list string) (path : string) : Prop :=
  ∃ library relative entries, let host := join_path [dl_host library; relative] in
    mapped s s' library ∧ inside (dl_visible library) path = true ∧ path ≠ dl_visible library ∧ rel (dl_visible library) path = Ok relative ∧
    during s s' (AWalk host (entries, None)) ∧ entries_covered s s' library host entries known.

Lemma original_later P s s1 s2 library path p : grows P s1 s2 → original s s1 library path p → original s s2 library path p.
Proof. intros Hg [relative Hn Hr|text target Hn Hd Ht Hi]; [by econstructor|eapply or_strm; try done; by eapply during_l]. Qed.
Lemma covered_later P s s1 s2 library host entries known known' :
  grows P s1 s2 → known ⊆ known' → entries_covered s s1 library host entries known → entries_covered s s2 library host entries known'.
Proof.
  intros Hg Hk Hc e He Hd. destruct (Hc e He Hd) as (p & Hp & Ho). exists p. split; [by apply Hk|]. by eapply original_later.
Qed.
Lemma path_covered_later `{Env} `{Local} `{CidMap} P s s1 s2 known known' path :
  grows P s1 s2 → known ⊆ known' → path_covered s s1 known path → path_covered s s2 known' path.
Proof.
  intros Hg Hk (library & relative & entries & Hm & Hi & Hn & Hr & Hd & Hc). exists library, relative, entries. cbv zeta.
  split_and!; try done; [eapply mapped_later; [done|by eapply grows_weaken]|by eapply during_l|by eapply covered_later].
Qed.

(** A loop whose iterations keep an invariant on what is done. *)
Lemma fold_effect {A S} (f : S → A → M Pipe S) (I : list A → S → World Pipe → Prop) l :
  (∀ done x s w, I done s w → wp (f s x) w (λ r w', ∀ s', r = Ok s' → I (done ++ [x]) s' w')) →
  ∀ done s w, I done s w → wp (m_fold f l s) w (λ r w', ∀ s', r = Ok s' → I (done ++ l) s' w').
Proof.
  intros Hf. induction l as [|x l IH]; intros before s w HI; cbn [m_fold].
  { apply wp_ret. intros s' [= <-]. by rewrite app_nil_r. }
  apply wp_bind. eapply wp_mono; [by apply Hf|]. intros [s1|e] w1 Hs; [|done].
  eapply wp_mono; [by apply IH, Hs|]. intros r w2 Hr s' E. specialize (Hr s' E). by rewrite <-app_assoc in Hr.
Qed.

Section Prepare.
Context `{Env} `{Ctx} `{Sleep} `{Remote} `{Providers} `{Local} `{CidMap}.
Abbreviation R := (pipe_rel harmless any_db).

(** A call that is harmless, of which nothing else is known. *)
Lemma wp_harmless {A} (m : M Pipe A) w (Q : res A → World Pipe → Prop) :
  keeps R m → (∀ r w', grows harmless (w_db w) (w_db w') → Q r w') → wp m w Q.
Proof. intros Hm HQ. eapply wp_mono; [apply Hm|]. intros r w' [Hg _]. by apply HQ. Qed.
Lemma wp_harmless_and {A} (m : M Pipe A) w (P Q : res A → World Pipe → Prop) :
  keeps R m → wp m w P → (∀ r w', grows harmless (w_db w) (w_db w') → P r w' → Q r w') → wp m w Q.
Proof. intros Hm HP HQ. eapply wp_mono; [apply wp_and; [apply Hm|exact HP]|]. intros r w' [[Hg _] Hr]. by apply HQ. Qed.

Lemma resolve_effect accountID parts cid inventories w :
  map_Forall (λ cid files, in_directory cid files) inventories →
  wp (resolve_parts accountID cid parts inventories) w (λ r w', ∀ f invs, r = Ok (f, invs) →
    df_IsFolder f = false ∧ (∃ cid files, in_directory cid files ∧ f ∈ files) ∧ map_Forall (λ cid files, in_directory cid files) invs).
Proof.
  revert cid inventories w. induction parts as [|part rest IH]; intros cid inventories w Hinv; cbn [resolve_parts]; [by apply wp_lift|].
  apply wp_bind. apply wp_mono with (P := λ r (w' : World Pipe), ∀ files invs, r = Ok (files, invs) →
    in_directory cid files ∧ map_Forall (λ cid files, in_directory cid files) invs).
  { destruct (inventories !! cid) as [files|] eqn:Ec.
    - apply wp_ret. intros files' invs [= <- <-]. split; [by apply (Hinv cid)|done].
    - apply wp_bind. eapply wp_mono; [apply inventory_effect|]. intros [files|e] w1 (l & _ & _ & Hi); [|done].
      apply wp_ret. intros files' invs [= <- <-]. destruct (Hi _ eq_refl) as (pages & _ & _ & _ & Hd). split; [done|].
      by apply map_Forall_insert_2. }
  intros [[files invs]|e] w1 Hf; [|done]. destruct (Hf _ _ eq_refl) as [Hd Hi].
  destruct (find _ files) as [f|] eqn:Hfind; [|by apply wp_lift]. apply found_in in Hfind as [Hin _]. cbv zeta.
  destruct (Bool.eqb (df_IsFolder f) _) eqn:Hlast; [by apply wp_lift|]. destruct (bool_decide (length rest = 0)).
  - apply wp_ret. intros f' invs' [= <- <-]. split_and!; [by destruct (df_IsFolder f)|by exists cid, files|done].
  - by apply IH.
Qed.

Lemma strm_effect path w :
  wp (embyDeletionSTRM path) w (λ r w', ∀ target, r = Ok target → ∃ text,
    during (w_db w) (w_db w') (AText (LReadFile path) (Ok text)) ∧ strm_target path text = Ok target).
Proof.
  unfold embyDeletionSTRM. apply wp_bind, wp_harmless; [apply hl_info|]. intros [before|e] w1 Hg1; [|done].
  destruct (negb _); [by apply wp_lift|]. apply wp_bind, wp_harmless; [apply hl_info|]. intros [opened|e] w2 Hg2; [|done].
  destruct (negb _); [by apply wp_lift|]. apply wp_bind. unfold os_text. apply wp_call. intros n. cbv zeta.
  destruct (lo_text _ _) as [body|e] eqn:Hb; [|done]. apply wp_lift. intros target Ht. exists body. split; [|done].
  eapply during_r; [by etrans|]. eexists. split; [done|]. by left.
Qed.

Lemma original_effect s0 library path strm video w :
  grows harmless s0 (w_db w) →
  wp (original_of library path strm video) w (λ r w', ∀ mounted p, r = Ok (mounted, p) → original s0 (w_db w') library path p).
Proof.
  intros Hg. unfold original_of. destruct strm.
  - destruct (dl_native library) eqn:Hn; [by apply wp_lift|]. apply wp_bind. eapply wp_mono; [apply strm_effect|].
    intros [target|e] w1 Hs; [|done]. destruct (Hs target eq_refl) as (text & Hd & Ht).
    destruct (negb _ || _) eqn:Hin; [by apply wp_lift|]. apply orb_false_iff in Hin as [Hin _]. apply negb_false_iff in Hin.
    apply wp_bind, wp_lift. destruct (rel _ _); [|done]. cbv zeta. destruct (_ || _); [by apply wp_lift|]. destruct (negb _); [by apply wp_lift|].
    apply wp_ret. intros mounted p [= <- <-]. eapply or_strm; try done. by eapply during_r.
  - destruct (dl_native library) eqn:Hn; [|by apply wp_lift]. cbn [negb]. apply wp_bind, wp_lift.
    destruct (rel _ _) eqn:Hr; [|done]. apply wp_ret. intros mounted p [= <- <-]. by econstructor.
Qed.

Lemma paths_alter native (i : nat) (ts : list embyDeletionTarget) : dt_path <$> alter (set_native native) i ts = dt_path <$> ts.
Proof. by apply fmap_alter_same. Qed.
Lemma ids_alter native (i : nat) (ts : list embyDeletionTarget) : target_id <$> alter (set_native native) i ts = target_id <$> ts.
Proof. by apply fmap_alter_same. Qed.
Lemma targets_alter native (i : nat) ts : targets_ok ts → targets_ok (alter (set_native native) i ts).
Proof.
  intros (Hi & Hp & Hr). unfold targets_ok. rewrite ids_alter, paths_alter. split_and!; [done|done|].
  apply Forall_lookup. intros j t Hj. destruct (decide (i = j)) as [->|Hne].
  - rewrite list_lookup_alter_eq in Hj. destruct (ts !! j) as [t'|] eqn:E; [|done]. injection Hj as <-.
    by apply (Forall_lookup_1 _ _ _ _ Hr) in E.
  - rewrite list_lookup_alter_ne in Hj by done. by eapply Forall_lookup_1.
Qed.

(** One object of a walk: the targets stay well formed, the known paths stay known, and its
    own original is known afterwards. *)
Lemma entry_effect s0 accountID library host st e w :
  grows harmless s0 (w_db w) → preflight_ok st →
  wp (visit_entry accountID library host st e) w (λ r w', ∀ st', r = Ok st' →
    preflight_ok st' ∧ (dt_path <$> pf_targets st) ⊆ (dt_path <$> pf_targets st') ∧
    entries_covered s0 (w_db w') library host [e] (dt_path <$> pf_targets st')).
Proof.
  intros Hg0 [Hts Hinv]. unfold visit_entry. cbv zeta. apply wp_bind, wp_harmless; [apply keeps_ctx_live; apply _|].
  intros [[]|er] w1 Hg1; [|done]. destruct (is_symlink _); [by apply wp_lift|].
  assert (∀ w', ¬ deletable (entry_path host e) e → wp (mret st) w' (λ r w', ∀ st', r = Ok st' →
    preflight_ok st' ∧ (dt_path <$> pf_targets st) ⊆ (dt_path <$> pf_targets st') ∧
    entries_covered s0 (w_db w') library host [e] (dt_path <$> pf_targets st'))) as Hskip.
  { intros w' Hno. apply wp_ret. intros st' [= <-]. split_and!; [done..|]. intros e' He'. by apply list_elem_of_singleton in He' as ->. }
  destruct (entry_is_dir e) eqn:Hdir.
  { apply Hskip. unfold entry_is_dir in Hdir. apply bool_decide_eq_true in Hdir. intros [Hreg _]. congruence. }
  apply wp_bind, wp_lift. destruct (we_size e) as [sz|er]; [|done].
  destruct (bool_decide (we_type e = FRegular)) eqn:Hreg; [|by apply wp_lift]. apply bool_decide_eq_true in Hreg. cbn [negb].
  destruct (negb _ && negb _) eqn:Hkind.
  { apply Hskip. intros [_ Hk]. apply andb_true_iff in Hkind as [Hs Hv]. apply negb_true_iff, bool_decide_eq_false in Hs.
    apply negb_true_iff in Hv. destruct Hk; congruence. }
  clear Hskip Hkind. apply wp_bind. eapply wp_harmless_and; [apply hl_original|apply (original_effect s0); by etrans|].
  intros [[mounted p]|er] w2 Hg2 Ho; [|done]. specialize (Ho _ _ eq_refl).
  assert (∀ w' known, grows harmless (w_db w2) (w_db w') → p ∈ known →
    entries_covered s0 (w_db w') library host [e] known) as Hcov.
  { intros w' known Hg Hp e' He' _. apply list_elem_of_singleton in He' as ->. exists p. split; [done|]. by eapply original_later. }
  destruct (list_find _ _) as [[i t]|] eqn:Hfind.
  { apply list_find_Some in Hfind as (Hi & <- & _). apply wp_ret. intros st' [= <-]. cbn [pf_targets].
    rewrite paths_alter. split_and!; [split; [by apply targets_alter|done]|done|]. apply Hcov; [by reflexivity|].
    apply list_elem_of_fmap. exists t. split; [done|]. by eapply list_elem_of_lookup_2. }
  apply list_find_None in Hfind. apply wp_bind, wp_harmless; [apply hl_lstat|]. intros [info|er] w3 Hg3; [|done].
  destruct (negb _); [by apply wp_lift|]. apply wp_bind. unfold resolveEmbyDeletionSource.
  apply wp_bind, wp_lift. destruct (rel _ mounted) as [relative|er]; [|done].
  eapply wp_harmless_and; [apply hl_resolve|by apply resolve_effect|]. intros [[f invs]|er] w4 Hg4 Hf; [|done].
  destruct (Hf _ _ eq_refl) as (Hfolder & (cid & files & Hd & Hin) & Hinvs).
  destruct (negb _); [by apply wp_lift|]. destruct (find _ (pf_targets st)) as [t|] eqn:Hid; [by apply wp_lift|].
  apply wp_ret. intros st' [= <-]. cbn [pf_targets]. destruct Hts as (Hids & Hps & Hrs). split_and!.
  - split; [|done]. split_and!.
    + apply nodup_snoc; [done|]. cbn. intros Hin'. apply list_elem_of_fmap in Hin' as (t & Ht & Htin). apply list_elem_of_In in Htin.
      pose proof (find_none _ _ Hid t Htin) as Hb. apply bool_decide_eq_false in Hb. by apply Hb.
    + apply nodup_snoc; [done|]. cbn. intros Hin'. apply list_elem_of_fmap in Hin' as (t & Ht & Htin).
      rewrite Forall_forall in Hfind. by apply (Hfind t Htin).
    + apply Forall_app. split; [done|]. constructor; [|done]. destruct Hd as (_ & _ & Hall).
      rewrite Forall_forall in Hall. destruct (Hall f Hin) as (Hf1 & Hf2 & _ & Hf4 & Hf5). by split_and!.
  - rewrite fmap_app. intros q Hq. apply elem_of_app. by left.
  - apply Hcov; [by etrans|]. rewrite fmap_app. apply elem_of_app. right. by left.
Qed.

Lemma choose_ok visible libraries selected library :
  res_fold (choose_library visible) libraries selected = Ok (Some library) →
  (∀ l, selected = Some l → inside (dl_visible l) visible = true ∧ visible ≠ dl_visible l) →
  (library ∈ libraries ∨ selected = Some library) ∧ inside (dl_visible library) visible = true ∧ visible ≠ dl_visible library.
Proof.
  revert selected. induction libraries as [|l libraries IH]; intros selected; cbn [res_fold]; [intros [= ->]; auto|].
  unfold choose_library at 1. destruct (bool_decide _) eqn:Hv; [done|]. apply bool_decide_eq_false in Hv.
  destruct (inside (dl_visible l) visible) eqn:Hi; [destruct selected; [done|]|].
  - intros Hr _. destruct (IH _ Hr) as [Hin ?]; [by intros ? [= <-]|]. split; [|done]. left. destruct Hin as [?|[= <-]]; [by right|by left].
  - intros Hr Hs. destruct (IH _ Hr Hs) as [[?|?] ?]; (split; [|done]); [left; by right|by right].
Qed.
Lemma selected_ok libraries visible library :
  selected_library libraries visible = Ok library →
  library ∈ libraries ∧ inside (dl_visible library) visible = true ∧ visible ≠ dl_visible library.
Proof.
  unfold selected_library. destruct (res_fold _ _ _) as [[l|]|e] eqn:Hr; [|done..]. intros [= <-].
  by destruct (choose_ok _ _ _ _ Hr) as [[?|?] ?].
Qed.
Lemma walk_effect root w :
  wp (walk_dir root) w (λ r w', ∃ entries failure, r = Ok (entries, failure) ∧ during (w_db w) (w_db w') (AWalk root (entries, failure))).
Proof.
  unfold wp, walk_dir, observe. simpl. destruct (lo_walk _ _) as [entries failure]. exists entries, failure. split; [done|].
  eexists. split; [done|by left].
Qed.

Lemma path_effect s0 accountID libraries st path w :
  grows harmless s0 (w_db w) → preflight_ok st → Forall (mapped s0 (w_db w)) libraries →
  wp (visit_path accountID libraries st path) w (λ r w', ∀ st', r = Ok st' →
    preflight_ok st' ∧ (dt_path <$> pf_targets st) ⊆ (dt_path <$> pf_targets st') ∧
    path_covered s0 (w_db w') (dt_path <$> pf_targets st') path).
Proof.
  intros Hg0 Hst Hlibs. unfold visit_path. apply wp_bind, wp_harmless; [apply keeps_ctx_live; apply _|]. intros [[]|er] w1 Hg1; [|done].
  apply wp_bind, wp_lift. unfold embyDeletionAbsolute. destruct (_ || _ || _); [done|].
  apply wp_bind, wp_lift. destruct (selected_library _ _) as [library|er] eqn:Hlib; [|done].
  apply wp_bind, wp_lift. destruct (rel _ _) as [relative|er] eqn:Hrel; [|done]. cbv zeta.
  apply wp_bind, wp_harmless; [apply hl_lstat|]. intros [info|er] w2 Hg2; [|done].
  apply wp_bind. eapply wp_harmless_and; [apply hl_walk|apply walk_effect|]. intros r w3 Hg3 (entries & failure & -> & Hwalk).
  assert (grows harmless s0 (w_db w3)) as Hg by (by do 3 (etrans; [|done])).
  apply wp_bind. eapply wp_mono.
  { apply (fold_effect _ (λ before st' w', grows harmless s0 (w_db w') ∧ preflight_ok st' ∧
      (dt_path <$> pf_targets st) ⊆ (dt_path <$> pf_targets st') ∧ grows harmless (w_db w3) (w_db w') ∧
      entries_covered s0 (w_db w') library (join_path [dl_host library; relative]) before (dt_path <$> pf_targets st')))
      with (done := []).
    - intros before e st1 w4 (Hg4 & Hok4 & Hsub4 & Hg34 & Hc4). eapply wp_harmless_and; [apply hl_entry|by apply (entry_effect s0)|].
      intros r w5 Hg5 Hr st2 ->. destruct (Hr _ eq_refl) as (Hok5 & Hsub5 & Hc5). split_and!; [by etrans|done|by etrans|by etrans|].
      intros e' He'. apply elem_of_app in He' as [He'|He']; [|by apply Hc5].
      by apply (covered_later harmless s0 _ _ _ _ _ _ _ Hg5 Hsub5 Hc4).
    - split_and!; [done|done|done|by reflexivity|]. intros e' He'. by apply elem_of_nil in He'. }
  intros [st1|er] w4 Hfold; [|done]. destruct (Hfold _ eq_refl) as (Hg4 & Hok4 & Hsub4 & Hg34 & Hc4).
  apply wp_bind. destruct failure as [[q er]|]; [by apply wp_lift|]. apply wp_ret, wp_ret. intros st' [= <-]. split_and!; [done|done|].
  apply selected_ok in Hlib as (Hinl & Hin & Hne). rewrite Forall_forall in Hlibs. exists library, relative, entries. cbv zeta. split_and!; try done.
  { eapply mapped_later; [by apply Hlibs|]. eapply grows_weaken; [by intros ? _|]. etrans; [|exact Hg34]. by do 2 (etrans; [done|]). }
  eapply during_l; [eapply during_r; [|exact Hwalk]|exact Hg34]. by do 2 (etrans; [|done]).
Qed.
#[local] Instance path_le_total : Total path_le.
Proof.
  intros x y. unfold path_le. destruct (String.le_total (dt_path x) (dt_path y)) as [Hl|Hl]; [left|right]; by apply Is_true_true in Hl.
Qed.
#[local] Instance path_le_trans : Transitive path_le.
Proof.
  intros x y z Hxy Hyz. unfold path_le in *. apply Is_true_true. apply Is_true_true in Hxy, Hyz.
  exact (transitivity (R := String.le) Hxy Hyz).
Qed.

Lemma new_plan_ok accountID ts : ts ≠ [] → targets_ok ts → plan_ok (new_plan accountID ts).
Proof.
  intros Hne (Hi & Hp & Hr). pose proof (merge_sort_Permutation path_le ts) as Hm. unfold new_plan. split; cbn; try done.
  - intros E. rewrite E in Hm. apply Hne. by apply Permutation_nil_l in Hm.
  - split_and!; by rewrite Hm.
  - apply StronglySorted_merge_sort; apply _.
Qed.
Lemma new_plan_paths accountID ts : dt_path <$> ts ⊆ ep_SourcePaths (new_plan accountID ts).
Proof. intros p Hp. cbn. by rewrite (merge_sort_Permutation path_le ts). Qed.

Lemma prepare_plan l w :
  wp (PrepareEmbyDeletionCtx l) w (λ r w', ∀ plan, r = Ok plan →
    plan_ok plan ∧ ∀ path, path ∈ l → path_covered (w_db w) (w_db w') (ep_SourcePaths plan) path).
Proof.
  unfold PrepareEmbyDeletionCtx. destruct (bool_decide _); [by apply wp_lift|].
  apply wp_bind. eapply wp_harmless_and; [apply hl_libraries|apply libraries_effect|]. intros [libraries|e] w1 Hg1 [_ Hlibs]; [|done].
  specialize (Hlibs _ eq_refl).
  apply wp_bind, wp_harmless; [apply hl_default|]. intros [a|e] w2 Hg2; [|done]. destruct (_ || _ || _); [by apply wp_lift|].
  apply wp_bind. eapply wp_mono.
  { apply (fold_effect _ (λ before st w', (grows harmless (w_db w) (w_db w') ∧ Forall (mapped (w_db w) (w_db w')) libraries) ∧ preflight_ok st ∧
      ∀ path, path ∈ before → path_covered (w_db w) (w_db w') (dt_path <$> pf_targets st) path)) with (done := []).
    - intros before path st w3 ([Hg3 Hl3] & Hok3 & Hc3). eapply wp_harmless_and; [apply hl_path|by apply (path_effect (w_db w))|].
      intros r w4 Hg4 Hr st' ->. destruct (Hr _ eq_refl) as (Hok4 & Hsub4 & Hc4). split_and!; [by etrans| |done|].
      { eapply Forall_impl; [exact Hl3|]. intros m Hm. eapply mapped_later; [done|by eapply grows_weaken]. }
      intros path' Hp. apply elem_of_app in Hp as [Hp|Hp]; [|by apply list_elem_of_singleton in Hp as ->].
      eapply path_covered_later; [exact Hg4|exact Hsub4|by apply Hc3].
    - split_and!; [by etrans| | |by intros path Hp%elem_of_nil].
      { eapply Forall_impl; [exact Hlibs|]. intros m Hm. eapply mapped_later; [done|by eapply grows_weaken]. }
      split; [|apply map_Forall_empty].
      split_and!; [apply NoDup_nil_2|apply NoDup_nil_2|done]. }
  intros [st|e] w3 Hfold; [|done]. destruct (Hfold _ eq_refl) as ([Hg3 _] & [Hts _] & Hc3). cbn [app] in Hc3.
  destruct (bool_decide _) eqn:Hn; [by apply wp_lift|]. apply bool_decide_eq_false in Hn. apply wp_ret. intros plan [= <-]. split.
  - apply new_plan_ok; [|done]. by destruct (pf_targets st).
  - intros path Hp. eapply (path_covered_later harmless); [|apply new_plan_paths|by apply Hc3]. by reflexivity.
Qed.
Lemma prepare_effect l w :
  wp (PrepareEmbyDeletionCtx l) w (λ r w', grows harmless (w_db w) (w_db w') ∧
    ∀ plan, r = Ok plan → plan_ok plan ∧ ∀ path, path ∈ l → path_covered (w_db w) (w_db w') (ep_SourcePaths plan) path).
Proof. eapply wp_harmless_and; [apply hl_prepare|apply prepare_plan|]. intros r w' Hg Hr. by split. Qed.

(** The recycling of a plan that was prepared. *)
Lemma plan_recycle_effect plan w :
  plan_ok plan →
  wp (RecycleEmbyDeletionCtx plan) w (λ res w', ∃ l marks failure, pi_log (w_db w') = pi_log (w_db w) ++ l ∧
    res = Ok (left_plan plan marks, failure) ∧ recycle_log (ep_targets plan) marks failure l).
Proof.
  intros Hp. unfold RecycleEmbyDeletionCtx. rewrite (po_fresh _ Hp). cbn [orb]. destruct (bool_decide _) eqn:Hn.
  { apply bool_decide_eq_true, nil_length_inv in Hn. by destruct (po_some _ Hp). }
  apply wp_bind. eapply wp_mono.
  { apply (targets_effect _ _ [] (ep_Sources plan)). by rewrite (po_sources _ Hp), length_fmap. }
  intros res w1 (l & marks & failure & E & -> & Hl). apply wp_ret. by exists l, marks, failure.
Qed.
End Prepare.
