(* ===== verification/EmbyApiProofs.v ===== *)
(** Properties of the deletion handler ([EmbyApi.v]): what it asks before it deletes anything,
    and what its answer and its audit entry say. *)
From S2P Require Import Prelude GoStrings GoPath Sql Schema Accounts Payload FileSys Remote Drive Episodes Identity Local Service.
From S2P Require Import Autofill Pipeline Media Queue DestinationProofs ReplacementProofs Emby EmbyProofs EmbyDeletion EmbyDeletionProofs EmbyApi.
From Stdlib Require Import Ascii.

(** ** What is asked *)

(** A request that deletes nothing: a harmless one, or a GET to Emby. *)
Definition asking (a : action) : Prop := match a with ANative q _ => nq_method q = "GET" | a => harmless a end.
Definition asked (w w' : World Pipe) (l : history) : Prop := pi_log (w_db w') = pi_log (w_db w) ++ l ∧ Forall asking l.

Lemma asked_none w w' : same_log (w_db w) (w_db w') → asked w w' [].
Proof. intros E. split; [by rewrite app_nil_r|done]. Qed.
Lemma asked_app w w1 w2 l l' : asked w w1 l → asked w1 w2 l' → asked w w2 (l ++ l').
Proof. intros [E F] [E' F']. split; [by rewrite E', E, app_assoc|by apply Forall_app]. Qed.
Lemma asked_harmless w w' : grows harmless (w_db w) (w_db w') → ∃ l, asked w w' l.
Proof.
  intros (l & E & F). exists l. split; [done|]. eapply Forall_impl; [exact F|]. by intros [].
Qed.

Section Asking.
Context `{Env} {ctx : Ctx} `{Sleep} `{Remote} `{Providers} `{Local} `{CidMap} `{Http} `{Ranging} `{NativeJson} `{Native}.
Context (target : embyDeletionRequest) (base : native_base).
Implicit Types w : World Pipe.

(** Emby answered a GET with success and this body. *)
Definition told (path : string) (query : list (string * list string)) (body : string) (l : history) : Prop :=
  ∃ a, successful (mkResponse (na_status a) (na_contentType a) body) = true ∧ na_body a = Some body ∧
    ANative (upstream target base "GET" path (range_over query) "" "") (Ok a) ∈ l.
Lemma told_more path query body l l' : l ⊆ l' → told path query body l → told path query body l'.
Proof. intros Hs (a & Ha & Hb & Hin). exists a. split_and!; [done|done|by apply Hs]. Qed.

Definition keys_query (offset : Z) : list (string * list string) := [("StartIndex", [pretty offset]); ("Limit", ["100"])].
(** The pages of the application keys from an offset on, to one that is not full: no key is
    the credential. *)
Inductive no_app_key (l : history) : Z → Prop :=
| ak_last offset body tokens :
    told "/Auth/Keys" (keys_query offset) body l → nj_keys body = Some tokens → er_credential target ∉ tokens → length tokens < 100 →
    no_app_key l offset
| ak_more offset body tokens :
    told "/Auth/Keys" (keys_query offset) body l → nj_keys body = Some tokens → er_credential target ∉ tokens →
    no_app_key l (offset + 100) → no_app_key l offset.
Lemma no_app_key_more l l' offset : l ⊆ l' → no_app_key l offset → no_app_key l' offset.
Proof. intros Hs Hk. induction Hk; [eapply ak_last|eapply ak_more]; try done; by eapply told_more. Qed.

(** The user is an enabled administrator in the one session of the device. *)
Definition admin_session (userID : string) (l : history) : Prop :=
  no_app_key l 0 ∧
  (∃ body, told "/Sessions" [("DeviceId", [er_deviceID target])] body l ∧
     ∃ s, nj_sessions body = Some [s] ∧ sn_UserID s = userID ∧ sn_DeviceID s = er_deviceID target) ∧
  (∃ body, told ("/Users/" +:+ userID) [] body l ∧ nj_user body = Some (mkUser userID true (Some false))).
(** Emby allows the user to delete the item and told what it would delete. *)
Definition item_allowed (userID : string) (l : history) (id : string) : Prop :=
  (∃ body, told ("/Users/" +:+ userID +:+ "/Items/" +:+ id) [("Fields", ["CanDelete"])] body l ∧ nj_item body = Some (id, true)) ∧
  (∃ body paths, told ("/Items/" +:+ id +:+ "/DeleteInfo") [] body l ∧ nj_paths body = Some paths ∧ paths ≠ []).
Definition authorised (userID : string) (l : history) : Prop :=
  admin_session userID l ∧ ∀ id, id ∈ er_ids target → item_allowed userID l id.

Lemma admin_more userID l l' : l ⊆ l' → admin_session userID l → admin_session userID l'.
Proof.
  intros Hs (Hk & (b1 & H1' & ?) & (b2 & H2' & ?)). split_and!; [by eapply no_app_key_more|exists b1|exists b2]; (split; [by eapply told_more|done]).
Qed.
Lemma allowed_more userID l l' id : l ⊆ l' → item_allowed userID l id → item_allowed userID l' id.
Proof. intros Hs ((b1 & H1' & ?) & (b2 & p & H2' & ?)). split; [exists b1|exists b2, p]; (split; [by eapply told_more|done]). Qed.

Lemma get_effect path query w :
  wp (native_get target base path query) w (λ r w', ∃ c l, r = Ok c ∧ asked w w' l ∧
    match refusal c with
    | inl response => successful response = true ∧ told path query (rs_body response) l
    | inr (native, None) => ∃ n, native = Some n ∧ successful n = false
    | inr (_, Some _) => True
    end).
Proof.
  unfold native_get, native_call. cbv zeta. destruct (negb _).
  { apply wp_ret. eexists _, []. split_and!; [done|by apply asked_none|done]. }
  apply wp_bind, wp_attempt, wp_call. intros n. cbv zeta. set (q := upstream _ _ _ _ _ _ _). destruct (nv_answer _ q) as [a|e] eqn:Ha.
  2: { apply wp_ret. eexists _, [_]. split_and!; [done|by split; [|repeat constructor]|done]. }
  apply wp_ret. eexists _, [_]. split_and!; [done|by split; [|repeat constructor]|].
  unfold read_response. destruct (na_body a) as [body|] eqn:Hb.
  - cbn [refusal]. destruct (successful _) eqn:Hs; [|by eexists]. split; [done|]. exists a. split_and!; [done|done|by left].
  - cbv zeta. destruct (successful _) eqn:Hs; cbn [negb refusal]; [done|]. 
    assert (successful (mkResponse (na_status a) "application/json" rejected_body) = false) as -> by exact Hs. by eexists.
Qed.

Lemma check_keys_ok credential tokens : check_keys credential tokens = Ok tt → credential ∉ tokens.
Proof.
  unfold check_keys. intros Hc Hin. pose proof (proj1 (res_each_ok _ tokens tt) Hc credential Hin) as Hk. cbv beta in Hk.
  destruct (bool_decide (credential = "")); [done|]. by rewrite bool_decide_true in Hk.
Qed.

Lemma session_ok body userID : session_user target body = Some userID →
  ∃ s, nj_sessions body = Some [s] ∧ sn_UserID s = userID ∧ sn_DeviceID s = er_deviceID target.
Proof.
  unfold session_user. destruct (nj_sessions body) as [[|s [|]]|]; try done. destruct (_ && _) eqn:Hs; [|done].
  intros [= <-]. exists s. bools. by split_and!.
Qed.
Lemma admin_ok userID body : enabled_admin userID body = true → nj_user body = Some (mkUser userID true (Some false)).
Proof.
  unfold enabled_admin. destruct (nj_user body) as [[i a d]|]; [|done]. cbn. intros Ha. bools. by subst.
Qed.
Lemma usable_ok body paths : usable_paths body = Some paths → nj_paths body = Some paths ∧ paths ≠ [].
Proof. unfold usable_paths. destruct (nj_paths body) as [[|path l]|]; try done. by intros [= <-]. Qed.

Lemma keys_effect rounds offset w :
  wp (inspect_keys target base rounds offset) w (λ r w', ∃ k l, r = Ok k ∧ asked w w' l ∧
    match k with
    | None => no_app_key l offset
    | Some (native, None) => ∃ n, native = Some n ∧ successful n = false
    | Some (_, Some _) => True
    end).
Proof.
  revert offset w. induction rounds as [|rounds IH]; intros offset w; cbn [inspect_keys].
  { apply wp_ret. eexists _, []. split_and!; [done|by apply asked_none|done]. }
  apply wp_bind. eapply wp_mono; [apply get_effect|]. intros r w1 (c & l & -> & Hl & Hc).
  destruct (refusal c) as [response|[native e]]; [|apply wp_ret; by exists (Some (native, e)), l].
  destruct Hc as [_ Hc]. destruct (nj_keys _) as [tokens|] eqn:Hk; [|apply wp_ret; by eexists _, l].
  destruct (check_keys _ _) as [[]|e] eqn:Hck; [|apply wp_ret; by eexists _, l]. apply check_keys_ok in Hck.
  destruct (bool_decide _) eqn:Hn; [apply bool_decide_eq_true in Hn; apply wp_ret; exists None, l; split_and!; [done|done|by eapply ak_last]|].
  eapply wp_mono; [apply IH|]. intros r w2 (k & l' & -> & Hl' & Hk'). exists k, (l ++ l'). split_and!; [done|by eapply asked_app|].
  destruct k as [[native [e|]]|]; [done|done|]. eapply ak_more; try done; [eapply told_more; [|exact Hc]|eapply no_app_key_more; [|exact Hk']].
  - intros x Hx. apply elem_of_app. by left.
  - intros x Hx. apply elem_of_app. by right.
Qed.

Lemma authorize_effect w :
  wp (authorizeEmbyDeletion base target) w (λ r w', ∃ a l, r = Ok a ∧ asked w w' l ∧
    match a with
    | inl (userID, response) => admin_session userID l
    | inr (native, None) => ∃ n, native = Some n ∧ successful n = false
    | inr (_, Some _) => True
    end).
Proof.
  unfold authorizeEmbyDeletion. apply wp_bind. eapply wp_mono; [apply setting_effect|]. intros r w1 [Hs1 [stored ->]].
  pose proof (asked_none _ _ Hs1) as Hl1. destruct (_ && _); [apply wp_ret; by eexists _, []|].
  apply wp_bind. eapply wp_mono; [apply keys_effect|]. intros r w2 (k & l2 & -> & Hl2 & Hk).
  pose proof (asked_app _ _ _ _ _ Hl1 Hl2) as Hl. cbn [app] in Hl. clear Hl1 Hl2.
  destruct k as [[native e]|]; [apply wp_ret; by eexists _, l2|].
  apply wp_bind. eapply wp_mono; [apply get_effect|]. intros r w3 (c & l3 & -> & Hl3 & Hc).
  pose proof (asked_app _ _ _ _ _ Hl Hl3) as Hl'. clear Hl Hl3. destruct (refusal c) as [response|[native e]]; [|apply wp_ret; by eexists _, _].
  destruct Hc as [_ Hc]. destruct (session_user _ _) as [userID|] eqn:Hu; [|apply wp_ret; by eexists _, _].
  apply wp_bind. eapply wp_mono; [apply get_effect|]. intros r w4 (c' & l4 & -> & Hl4 & Hc').
  pose proof (asked_app _ _ _ _ _ Hl' Hl4) as Hl. clear Hl' Hl4. destruct (refusal c') as [response'|[native e]]; [|apply wp_ret; by eexists _, _].
  destruct Hc' as [_ Hc']. destruct (enabled_admin _ _) eqn:Ha; apply wp_ret; eexists _, _; (split; [done|split; [exact Hl|]]); [|done].
  split_and!; [eapply no_app_key_more; [|exact Hk]|exists (rs_body response)|exists (rs_body response')].
  2: split; [eapply told_more; [|exact Hc]|by apply session_ok]. 3: split; [eapply told_more; [|exact Hc']|by apply admin_ok].
  all: intros x Hx; rewrite !elem_of_app; auto.
Qed.

(** The items: either all are allowed, or the handler stops. *)
Lemma item_effect id f w :
  wp (check_item target base id f) w (λ r w', ∃ f' s l, r = Ok (f', s) ∧ asked w w' l ∧
    fw_userID f' = fw_userID f ∧ fw_plan f' = fw_plan f ∧ fw_nativeDeleted f' = fw_nativeDeleted f ∧ fw_failure f' = fw_failure f ∧
    match s with
    | Go => item_allowed (fw_userID f) l id
    | Return None => ∃ n, fw_native f' = Some n ∧ successful n = false
    | Return (Some _) => True
    end).
Proof.
  unfold check_item. cbv zeta. apply wp_bind. eapply wp_mono; [apply get_effect|]. intros r w1 (c & l & -> & Hl & Hc).
  destruct (refusal c) as [response|[native e]]; [|apply wp_ret; eexists _, _, l; split_and!; try done; by destruct e].
  destruct Hc as [_ Hc]. destruct (may_delete _ _) eqn:Hm; cbn [negb]; [|apply wp_ret; by eexists _, _, l].
  apply wp_bind. eapply wp_mono; [apply get_effect|]. intros r w2 (c' & l' & -> & Hl' & Hc').
  pose proof (asked_app _ _ _ _ _ Hl Hl') as Ha.
  destruct (refusal c') as [response'|[native e]]; [|apply wp_ret; eexists _, _, _; split_and!; try done; by destruct e].
  destruct Hc' as [_ Hc']. destruct (usable_paths _) as [l1|] eqn:Hu; apply wp_ret; eexists _, _, _; [|by split_and!].
  split_and!; try done. split; [exists (rs_body response)|exists (rs_body response'), l1]; (split; [|first [by apply bool_decide_eq_true in Hm|by apply usable_ok]]).
  - eapply told_more; [|exact Hc]. intros x Hx. apply elem_of_app. by left.
  - eapply told_more; [|exact Hc']. intros x Hx. apply elem_of_app. by right.
Qed.

Lemma items_effect ids f w :
  wp (check_items target base ids f) w (λ r w', ∃ f' s l, r = Ok (f', s) ∧ asked w w' l ∧
    fw_userID f' = fw_userID f ∧ fw_plan f' = fw_plan f ∧ fw_nativeDeleted f' = fw_nativeDeleted f ∧ fw_failure f' = fw_failure f ∧
    match s with
    | Go => ∀ id, id ∈ ids → item_allowed (fw_userID f) l id
    | Return None => ∃ n, fw_native f' = Some n ∧ successful n = false
    | Return (Some _) => True
    end).
Proof.
  revert f w. induction ids as [|id ids IH]; intros f w; cbn [check_items].
  { apply wp_ret. eexists _, _, []. split_and!; try done; [by apply asked_none|]. intros id Hid. by apply elem_of_nil in Hid. }
  apply wp_bind. eapply wp_mono; [apply item_effect|]. intros r w1 (f1 & s & l & -> & Hl & Eu & Ep & En & Ef & Hs).
  destruct s as [|e]; [|apply wp_ret; by eexists _, _, l].
  eapply wp_mono; [apply IH|]. intros r w2 (f2 & s2 & l2 & -> & Hl2 & Eu2 & Ep2 & En2 & Ef2 & Hs2).
  eexists _, _, _. split; [done|]. split; [by eapply asked_app|]. split_and!; [congruence..|].
  destruct s2 as [|[e|]]; [|done..]. intros id' Hid'. rewrite Eu in Hs2. apply elem_of_cons in Hid' as [->|Hid'].
  - eapply allowed_more; [|exact Hs]. intros x Hx. apply elem_of_app. by left.
  - eapply allowed_more; [|by apply Hs2]. intros x Hx. apply elem_of_app. by right.
Qed.
End Asking.

(** ** The mutation *)

Section Mutation.
Context `{Env} {ctx : Ctx} (recycleCtx : Ctx) `{Sleep} `{Remote} `{Providers} `{Local} `{CidMap} `{Http} `{Ranging} `{NativeJson} `{Native}.
Context (r : http_request) (base : native_base) (target : embyDeletionRequest).
Implicit Types w : World Pipe.

(** The deletion Emby is asked for: the request of the browser. *)
Definition native_deletion : native_request :=
  upstream target base (hr_method r) (er_path target) (range_over (er_query target)) (er_body target) (hr_contentType r).
Definition accepted (a : native_answer) : bool := Z.leb 200 (na_status a) && Z.ltb (na_status a) 300.

(** How the handler's mutation ends: what it leaves, the error it returns, and its requests. *)
Inductive mutation : deletion_flow → option error → history → Prop :=
| mu_refused f e l :
    Forall asking l → fw_nativeDeleted f = false →
    (e = None → ∃ n, fw_native f = Some n ∧ (successful n = true → er_confirmation target = true)) →
    mutation f e l
| mu_rejected f e l userID plan answer :
    Forall asking l → authorised target base userID l → plan_ok plan → er_confirmation target = false →
    (∀ a, answer = Ok a → accepted a = false) → fw_nativeDeleted f = false →
    (e = None → ∃ n, fw_native f = Some n ∧ successful n = false) →
    mutation f e (l ++ [ANative native_deletion answer])
| mu_deleted f e l userID plan a marks failure recycled :
    Forall asking l → authorised target base userID l → plan_ok plan → er_confirmation target = false →
    accepted a = true → recycle_log (ep_targets plan) marks failure recycled →
    fw_nativeDeleted f = true → fw_plan f = Some (left_plan plan marks) → fw_failure f = failure →
    fw_native f = Some (mkResponse (na_status a) (na_contentType a) (default "" (na_body a))) →
    fw_stage f = match failure with Some _ => "source-recycling" | None => "completed" end →
    e = match failure with
        | Some _ => Some recycling_failed
        | None => match na_body a with None => Some response_lost | Some _ => None end
        end →
    mutation f e (l ++ ANative native_deletion (Ok a) :: recycled).

Lemma confirm_none plan f f' e : confirm plan f = (f', Return e) → fw_nativeDeleted f' = fw_nativeDeleted f ∧ (e = None → is_Some (fw_native f')).
Proof. unfold confirm. destruct (nj_with_paths _ _); by intros [= <- <-]. Qed.

Lemma mutation_effect f0 w :
  fw_nativeDeleted f0 = false → fw_failure f0 = None →
  wp (mutate recycleCtx r base target f0) w (λ res w', ∃ f e l, res = Ok (f, Return e) ∧ pi_log (w_db w') = pi_log (w_db w) ++ l ∧ mutation f e l).
Proof.
  intros Hd0 Hf0. unfold mutate. cbv zeta. apply wp_bind. eapply wp_mono; [apply authorize_effect|].
  intros res w1 (a & l1 & -> & [E1 F1] & Ha). destruct a as [[userID native]|[native e]].
  2: { apply wp_ret. eexists _, e, l1. split_and!; [done|done|]. apply mu_refused; [done|done|]. intros ->. destruct Ha as (n & -> & Hn).
       exists n. by rewrite Hn. }
  apply wp_bind. eapply wp_mono; [apply items_effect|]. intros res w2 (f2 & s & l2 & -> & [E2 F2] & Eu & Ep & En & Ef & Hs).
  cbn [with_native with_user at_stage fw_userID fw_plan fw_nativeDeleted fw_failure] in *.
  assert (pi_log (w_db w2) = pi_log (w_db w) ++ (l1 ++ l2)) as E by (by rewrite E2, E1, app_assoc).
  assert (Forall asking (l1 ++ l2)) as F by (by apply Forall_app). clear E1 E2 F1 F2.
  destruct s as [|e]; [|].
  2: { apply wp_ret. eexists _, e, _. split_and!; [done|exact E|]. apply mu_refused; [done|congruence|]. intros ->. destruct Hs as (n & -> & Hn).
       exists n. by rewrite Hn. }
  assert (authorised target base userID (l1 ++ l2)) as Hauth.
  { split; [eapply admin_more; [|exact Ha]|intros id Hid; eapply allowed_more; [|by apply Hs]]; intros x Hx; apply elem_of_app; auto. }
  clear Ha Hs. apply wp_bind, wp_attempt. eapply wp_mono; [apply prepare_effect|]. intros prepared w3 [Hg3 Hplan].
  apply asked_harmless in Hg3 as (l3 & E3 & F3).
  assert (pi_log (w_db w3) = pi_log (w_db w) ++ ((l1 ++ l2) ++ l3)) as E' by (by rewrite E3, E, <-!app_assoc).
  assert (Forall asking ((l1 ++ l2) ++ l3)) as F' by (by apply Forall_app).
  assert (authorised target base userID ((l1 ++ l2) ++ l3)) as Hauth'.
  { destruct Hauth as [Ha Hi]. split; [eapply admin_more; [|exact Ha]|intros id Hid; eapply allowed_more; [|by apply Hi]]; intros x Hx; apply elem_of_app; auto. }
  revert E' F' Hauth'. generalize ((l1 ++ l2) ++ l3) as l. clear E F Hauth E3 F3 l1 l2 l3. intros l E F Hauth.
  destruct prepared as [plan|e].
  2: { apply wp_ret. eexists _, _, l. split_and!; [done|done|]. apply mu_refused; [done|by cbn; congruence|done]. }
  destruct (Hplan plan eq_refl) as [Hp _]. clear Hplan. destruct (er_confirmation target) eqn:Hc.
  { destruct (confirm plan _) as [f' st] eqn:Hconf. apply wp_ret.
    assert (∃ e, st = Return e) as [e ->] by (unfold confirm in Hconf; destruct (nj_with_paths _ _); injection Hconf as _ <-; by eexists).
    apply confirm_none in Hconf as [Hd Hn]. eexists _, e, l. split_and!; [done|done|]. apply mu_refused; [done|by rewrite Hd; cbn; congruence|].
    intros He. destruct (Hn He) as [n ->]. by exists n. }
  unfold native_call. cbv zeta. fold native_deletion. destruct (negb (is_ok (nv_accepts _))).
  { apply wp_bind, wp_ret, wp_ret. eexists _, _, l. split_and!; [done|done|]. apply mu_refused; [done|by cbn; congruence|done]. }
  apply wp_bind, wp_bind, wp_attempt, wp_call. intros n. cbv zeta. destruct (nv_answer _ _) as [a|e] eqn:Ha; apply wp_ret.
  2: { apply wp_ret. eexists _, _, _. split_and!; [done|cbn; rewrite E; by rewrite <-app_assoc|].
       eapply mu_rejected; try done; [by cbn; congruence]. }
  assert (∃ n e, read_response a = Response n e ∧ rs_status n = na_status a ∧
    (accepted a = true → n = mkResponse (na_status a) (na_contentType a) (default "" (na_body a)) ∧
       e = match na_body a with None => Some response_unread | Some _ => None end)) as (answer & e & Hread & Hst & Hacc).
  { unfold read_response. destruct (na_body a) as [body|]; [by eexists _, _|]. cbv zeta. destruct (negb _) eqn:Hs; [|by eexists _, _].
    eexists _, _. split_and!; [done|done|]. intros Ht. unfold successful in Hs. cbn in Hs. unfold accepted in Ht. by rewrite Ht in Hs. }
  rewrite Hread. assert (successful answer = accepted a) as Hsucc by (unfold successful, accepted; by rewrite Hst).
  rewrite Hsucc. destruct (accepted a) eqn:Hok; cbn [negb].
  2: { apply wp_ret. eexists _, e, _. split_and!; [done|cbn; rewrite E; by rewrite <-app_assoc|].
       eapply mu_rejected; try done; [by intros a' [= <-]|by cbn; congruence|]. intros _. exists answer. split; [done|congruence]. }
  destruct (Hacc eq_refl) as [-> ->]. unfold recycle. cbv zeta. apply wp_bind. eapply wp_mono; [by apply plan_recycle_effect|].
  intros res w4 (rl & marks & failure & E4 & -> & Hlog). cbn in E4. rewrite E in E4.
  destruct failure as [e|]; apply wp_ret; eexists _, _, _; (split; [done|split; [by rewrite E4, <-!app_assoc|]]).
  - eapply mu_deleted; try done.
  - eapply mu_deleted; try done; [cbn; congruence|clear; by destruct (na_body a)].
Qed.
End Mutation.

(** ** The handler *)

Section Handler.
Context `{Env} {ctx : Ctx} (recycleCtx : Ctx) `{Sleep} `{Remote} `{Providers} `{Local} `{CidMap} `{Http} `{Ranging} `{NativeJson} `{Native}.
Implicit Types w : World Pipe.

(** Either the request is turned away before anything is asked, or its mutation ran. *)
Inductive handled (queue : option Service) (r : http_request) : web_answer → deletion_audit → history → Prop :=
| hd_refused code message audit :
    da_nativeDeleted audit = false → da_status audit = code → handled queue r (WebError code message) audit []
| hd_mutated target base s f e answer audit l :
    parseEmbyDeletion r = Ok target → queue = Some s → media_locked s = false → mutation r base target f e l →
    answer_with target f e = (answer, audit) → handled queue r answer audit l.

Lemma fail_refused target f e : fw_nativeDeleted f = false →
  ∃ code message audit, fail_with target f e = (WebError code message, audit) ∧ da_nativeDeleted audit = false ∧ da_status audit = code.
Proof. intros Hf. unfold fail_with. destruct (fw_failure f), (as_http e) as [[code message]|]; by eexists _, _, _. Qed.

Lemma url_silent w : wp embyDeletionURL w (λ res w', same_log (w_db w) (w_db w')).
Proof.
  unfold embyDeletionURL. apply wp_bind. eapply wp_mono; [apply setting_effect|]. intros res w1 [Hs [raw ->]]. cbv zeta.
  destruct (http_url _); [|by apply wp_lift]. destruct (_ || _ || _ || _ || _ || _); [by apply wp_lift|by apply wp_ret].
Qed.

Lemma handler_effect queue r w :
  wp (handleEmbyDeletion recycleCtx queue r) w (λ res w', ∃ answer audit l,
    res = Ok (answer, audit) ∧ pi_log (w_db w') = pi_log (w_db w) ++ l ∧ handled queue r answer audit l).
Proof.
  assert (∀ target e w', same_log (w_db w) (w_db w') → wp (mret (fail_with target flow_start e)) w' (λ res w', ∃ answer audit l,
    res = Ok (answer, audit) ∧ pi_log (w_db w') = pi_log (w_db w) ++ l ∧ handled queue r answer audit l)) as Hfail.
  { intros target e w' Hs. apply wp_ret. destruct (fail_refused target flow_start e eq_refl) as (code & message & audit & -> & Hd & Hc).
    exists (WebError code message), audit, []. rewrite app_nil_r. split_and!; [done|done|by apply hd_refused]. }
  unfold handleEmbyDeletion. destruct (parseEmbyDeletion r) as [target|e] eqn:Hparse; [|by apply Hfail].
  apply wp_bind, wp_attempt. eapply wp_mono; [apply url_silent|]. intros base w1 Hs. destruct base as [base|e]; [|by apply Hfail].
  destruct queue as [s|]; [|by apply Hfail]. destruct (media_locked s) eqn:Hlock; [by apply Hfail|].
  apply wp_bind. eapply wp_mono; [by apply mutation_effect|]. intros res w2 (f & e & l & -> & E & Hm). apply wp_ret.
  destruct (answer_with target f e) as [answer audit] eqn:Ha. exists answer, audit, l. split_and!; [done|by rewrite E, Hs|].
  by eapply hd_mutated.
Qed.
End Handler.
