(* ===== verification/EmbyClaims.v ===== *)
(** The claims about the deletion a human confirms in Emby: what its request is, what the
    plan of the originals covers, what is recycled, and what the browser and the audit log
    are told. *)
From S2P Require Import Prelude GoStrings GoPath Sql Schema Accounts Payload FileSys Remote Drive Episodes Identity Local Service.
From S2P Require Import Autofill Pipeline Media Queue DestinationProofs ReplacementProofs Emby EmbyDeletion EmbyDeletionProofs EmbyApi EmbyApiProofs.
From Stdlib Require Import Ascii.

(** * Parsing *)

Section Parsing.
Context `{Http} `{Ranging}.

Lemma add_ids_ok ids seen seen' :
  res_fold add_id ids seen = Ok seen' → NoDup seen → seen' = seen ++ ids ∧ NoDup seen' ∧ Forall (λ id, validEmbyDeletionID id = true) ids.
Proof.
  revert seen. induction ids as [|id ids IH]; intros seen; cbn [res_fold]; [intros [= <-]; by rewrite app_nil_r|].
  unfold add_id at 1. destruct (validEmbyDeletionID id) eqn:Hv; [|done]. cbn [negb]. destruct (bool_decide _) eqn:Hin; [done|].
  apply bool_decide_eq_false in Hin. intros Hr Hn. destruct (IH _ Hr) as (-> & Hn' & Hf).
  - apply NoDup_app. split_and!; [done| |apply NoDup_singleton]. intros x Hx Hs. by apply list_elem_of_singleton in Hs as ->.
  - rewrite <-app_assoc in *. split_and!; [done|done|by constructor].
Qed.

Definition deletion_ids (ids : list string) : Prop :=
  1 ≤ length ids ≤ 100 ∧ NoDup ids ∧ Forall (λ id, validEmbyDeletionID id = true) ids.
Lemma ids_ok ids ids' : embyDeletionIDs ids = Ok ids' → ids' = ids ∧ deletion_ids ids.
Proof.
  unfold embyDeletionIDs. destruct (_ || _) eqn:Hlen; [done|]. apply orb_false_iff in Hlen as [H1' H2'].
  apply bool_decide_eq_false in H1', H2'. intros Hr. apply res_bind_ok in Hr as (seen & Hf & [= <-]).
  apply add_ids_ok in Hf as (-> & Hn & Hv); [|apply NoDup_nil_2]. by repeat split; try lia.
Qed.

Lemma endpoint_get method path ids confirmation : endpoint method path = Ok (ids, confirmation) → confirmation = true ↔ method = "GET".
Proof.
  unfold endpoint. cbv zeta. intros E.
  repeat match type of E with context [if ?b then _ else _] => destruct b eqn:?; simplify_eq end.
  all: repeat match goal with H : _ && _ = true |- _ => apply andb_true_iff in H as [? ?] | H : bool_decide _ = true |- _ => apply bool_decide_eq_true in H end.
  all: subst; split; done.
Qed.

(** What was accepted stays, and later values agree with it. *)
Record stable (g g' : gathered) : Prop := {
  sb_credential : ga_credential g ≠ "" → ga_credential g' = ga_credential g;
  sb_device : ga_device g ≠ "" → ga_device g' = ga_device g;
  sb_seen : ga_seen g ⊆ ga_seen g'
}.
#[local] Instance stable_preorder : PreOrder stable.
Proof.
  split; [by split|]. intros g1 g2 g3 [C1 D1 S1] [C2 D2 S2]. split; [|intros Hd; rewrite D2; [by apply D1|by rewrite D1]|by etrans].
  intros Hc. rewrite C2; [by apply C1|by rewrite C1].
Qed.

Lemma trim_empty : trim_space "" = "". Proof. by vm_compute. Qed.
Lemma accept_credential value g g' : acceptCredential value g = Ok g' →
  stable g g' ∧ ga_ids g' = ga_ids g ∧ ga_credential g' = value ∧ value ≠ "".
Proof.
  unfold acceptCredential. destruct (_ || _) eqn:Hb; [done|]. apply orb_false_iff in Hb as [Ht Hc]. intros [= <-].
  apply bool_decide_eq_false in Ht. apply andb_false_iff in Hc. split_and!; [split; cbn; [|done|done]|done|done|by intros ->].
  intros Hne. destruct Hc as [Hc|Hc]; apply negb_false_iff, bool_decide_eq_true in Hc; [by destruct Hne|done].
Qed.
Lemma accept_device value g g' : acceptDevice value g = Ok g' →
  stable g g' ∧ ga_ids g' = ga_ids g ∧ ga_device g' = value ∧ value ≠ "".
Proof.
  unfold acceptDevice. destruct (_ || _ || _) eqn:Hb; [done|]. apply orb_false_iff in Hb as [Ht Hc]. apply orb_false_iff in Ht as [Ht _]. intros [= <-].
  apply bool_decide_eq_false in Ht. apply andb_false_iff in Hc. split_and!; [split; cbn; [done| |done]|done|done|by intros ->].
  intros Hne. destruct Hc as [Hc|Hc]; apply negb_false_iff, bool_decide_eq_true in Hc; [by destruct Hne|done].
Qed.

Definition credential_keys : list string := ["api_key"; "x-emby-token"].
Definition device_keys : list string := ["deviceid"; "x-emby-device-id"].
Lemma keys_disjoint key : key ∈ credential_keys → key ∈ device_keys → False.
Proof.
  intros Hc. assert (Forall (λ key, key ∉ device_keys) credential_keys) as Hf by (apply (bool_decide_unpack _); by vm_compute).
  rewrite Forall_forall in Hf. by apply Hf.
Qed.
(** What a parameter of the query has given. *)
Record gives (g : gathered) (key : string) (values : list string) : Prop := {
  gv_seen : to_lower key ∈ ga_seen g;
  gv_credential : to_lower key ∈ credential_keys → values = [ga_credential g] ∧ ga_credential g ≠ "";
  gv_device : to_lower key ∈ device_keys → values = [ga_device g] ∧ ga_device g ≠ "";
  gv_ids : to_lower key = "ids" → ∃ text, values = [text] ∧ ga_ids g = Some (split_on comma text)
}.

Lemma gives_stable g g' key values :
  stable g g' → (to_lower key = "ids" → ga_ids g' = ga_ids g) → gives g key values → gives g' key values.
Proof.
  intros [C D S] Hi [Hs Hc Hd Hids]. split; [by apply S| | |].
  - intros Hk. destruct (Hc Hk) as [-> Hne]. by rewrite C.
  - intros Hk. destruct (Hd Hk) as [-> Hne]. by rewrite D.
  - intros Hk. rewrite (Hi Hk). by apply Hids.
Qed.

Lemma parameter_gives g key values g' : query_parameter g (key, values) = Ok g' →
  stable g g' ∧ gives g' key values ∧ to_lower key ∉ ga_seen g ∧ (to_lower key ≠ "ids" → ga_ids g' = ga_ids g) ∧
  (∀ ids, to_lower key = "ids" → ga_ids g' = Some ids → deletion_ids ids).
Proof.
  unfold query_parameter. cbv zeta. destruct values as [|v [|? ?]]; [done| |done].
  destruct (bool_decide _) eqn:Hs; [done|]. apply bool_decide_eq_false in Hs.
  set (g1 := mkGathered _ _ _ _ _ _). assert (stable g g1) as Hg1.
  { split; cbn; try done. intros x Hx. apply elem_of_app. by left. }
  assert (to_lower key ∈ ga_seen g1) as Hin by (cbn; apply elem_of_app; right; by left).
  destruct (bool_decide (to_lower key = "ids")) eqn:Eids.
  { apply bool_decide_eq_true in Eids. intros Hr. apply res_bind_ok in Hr as (ids & Hids & [= <-]). apply ids_ok in Hids as [-> Hok].
    split_and!; [|split; cbn; rewrite ?Eids|done|by rewrite Eids|by intros ids _ [= <-]].
    - etrans; [exact Hg1|]. by split.
    - apply elem_of_app. right. by left.
    - intros Hk%(bool_decide_eq_true_2 _). by vm_compute in Hk.
    - intros Hk%(bool_decide_eq_true_2 _). by vm_compute in Hk.
    - intros _. by exists v. }
  apply bool_decide_eq_false in Eids. destruct (bool_decide (to_lower key ∈ ["api_key"; "x-emby-token"])) eqn:Ecred.
  { apply bool_decide_eq_true in Ecred. destruct (acceptCredential v g1) as [g2|e] eqn:Ha; [|done]. intros [= <-].
    apply accept_credential in Ha as (Hg2 & Hids & Hc & Hne). split_and!; [|split; cbn|done|by intros _|by intros ids Hk].
    - etrans; [exact Hg1|]. etrans; [exact Hg2|]. by split.
    - by apply (sb_seen _ _ Hg2).
    - by rewrite Hc.
    - intros Hk. by destruct (keys_disjoint _ Ecred Hk).
    - done. }
  apply bool_decide_eq_false in Ecred. destruct (bool_decide (to_lower key ∈ ["deviceid"; "x-emby-device-id"])) eqn:Edev.
  { apply bool_decide_eq_true in Edev. destruct (acceptDevice v g1) as [g2|e] eqn:Ha; [|done]. intros [= <-].
    apply accept_device in Ha as (Hg2 & Hids & Hc & Hne). split_and!; [|split; cbn|done|by intros _|by intros ids Hk].
    - etrans; [exact Hg1|]. etrans; [exact Hg2|]. by split.
    - by apply (sb_seen _ _ Hg2).
    - done.
    - by rewrite Hc.
    - done. }
  apply bool_decide_eq_false in Edev. destruct (bool_decide _); [|done]. destruct (bool_decide _); [done|]. intros [= <-].
  split_and!; [|split; cbn; done|done|by intros _|by intros ids Hk]. etrans; [exact Hg1|]. by split.
Qed.

Lemma parameters_give l g g' : res_fold query_parameter l g = Ok g' → ga_ids g = None →
  (∀ key values, (key, values) ∈ l → gives g' key values) ∧ (∀ ids, ga_ids g' = Some ids → deletion_ids ids).
Proof.
  intros Hr Hnone. apply (res_fold_inv (λ l g, (∀ key values, (key, values) ∈ l → gives g key values) ∧ (∀ ids, ga_ids g = Some ids → deletion_ids ids))
    query_parameter l g g'); [|clear g' Hr|done].
  - split; [by intros key values Hin%elem_of_nil|]. intros ids. by rewrite Hnone.
  - intros before g1 [key values] g2 [Hb Hi] _ Hstep. apply parameter_gives in Hstep as (Hst & Hg & Hns & Hkeep & Hids). split.
    + intros key' values' Hin. apply elem_of_app in Hin as [Hin|Hin]; [|apply list_elem_of_singleton in Hin as [= -> ->]; done].
      pose proof (Hb _ _ Hin) as Hg'. eapply gives_stable; [exact Hst| |exact Hg']. intros Hk. apply Hkeep. intros Hk'.
      apply Hns. rewrite Hk', <-Hk. apply Hg'.
    + intros ids E. destruct (decide (to_lower key = "ids")) as [Hk|Hk]; [by apply Hids|]. apply Hi. by rewrite <-Hkeep.
Qed.

Definition token_headers : list string := ["X-Emby-Token"; "X-MediaBrowser-Token"].
(** What a header has given. *)
Definition header_agrees (r : http_request) (g : gathered) (key : string) : Prop :=
  (key ∈ token_headers → hr_values r key = [] ∨ hr_values r key = [ga_credential g] ∧ ga_credential g ≠ "") ∧
  (key = "X-Emby-Device-Id" → hr_values r key = [] ∨ hr_values r key = [ga_device g] ∧ ga_device g ≠ "").
Lemma header_stable r g g' key : stable g g' → header_agrees r g key → header_agrees r g' key.
Proof.
  intros [C D _] [Ht Hd]. split.
  - intros Hk. destruct (Ht Hk) as [?|[-> Hne]]; [by left|]. right. by rewrite C.
  - intros Hk. destruct (Hd Hk) as [?|[-> Hne]]; [by left|]. right. by rewrite D.
Qed.

Lemma authorization_stable v g g' :
  (let '(scheme, remainder) := cut_space v in
   if equal_fold scheme "Bearer" then acceptCredential remainder g
   else if equal_fold scheme "Emby" || equal_fold scheme "MediaBrowser" then
     match field_values embyAuthorizationToken v with
     | _ :: _ :: _ => Err (unauthorized "duplicate Emby authorization token")
     | tokens =>
         let credential := match tokens with [t] => acceptCredential t g | _ => Ok g end in
         match field_values embyAuthorizationDeviceID v with
         | [] => credential
         | [d] => match credential with
                  | Ok g => acceptDevice d g
                  | Err e => match acceptDevice d g with Err e' => Err e' | Ok _ => Err e end
                  end
         | _ => Err (unauthorized "duplicate Emby session device ID")
         end
     end
   else Err (unauthorized "unsupported Emby authorization scheme")) = Ok g' → stable g g' ∧ ga_ids g' = ga_ids g.
Proof.
  destruct (cut_space v) as [scheme remainder]. destruct (equal_fold scheme "Bearer").
  { intros Ha. apply accept_credential in Ha as (? & ? & _). by split. }
  destruct (_ || _); [|done]. generalize (field_values embyAuthorizationToken v), (field_values embyAuthorizationDeviceID v). intros tokens devices.
  destruct tokens as [|t [|? ?]]; [| |done]; destruct devices as [|d [|? ?]]; try done.
  - intros [= <-]. split; [reflexivity|done].
  - intros Ha. apply accept_device in Ha as (? & ? & _). by split.
  - intros Ha. apply accept_credential in Ha as (? & ? & _). by split.
  - destruct (acceptCredential t g) as [g1|e] eqn:E1; [|by destruct (acceptDevice d g)]. intros Ha.
    apply accept_credential in E1 as (Hs1 & Hi1 & _). apply accept_device in Ha as (Hs2 & Hi2 & _). split; [by etrans|congruence].
Qed.

Lemma header_step r g key g' : key ∈ credential_headers → credential_header r g key = Ok g' →
  stable g g' ∧ ga_ids g' = ga_ids g ∧ header_agrees r g' key.
Proof.
  intros _. unfold credential_header, header_agrees. destruct (hr_values r key) as [|v [|? ?]] eqn:Hv; [| |done].
  { intros [= <-]. split_and!; [reflexivity|done|by left|by left]. }
  intros Hr. apply res_bind_ok in Hr as (g1 & Hg1 & [= <-]). cbn [ga_credential ga_device ga_ids].
  assert (∀ g1, stable g g1 → stable g (mkGathered (ga_ids g1) (ga_credential g1) (ga_device g1) (ga_authQuery g1) (ga_seen g1) (<[key := v]> (ga_headers g1)))) as Hset.
  { intros g2 [C D S]. by split. }
  destruct (bool_decide (key ∈ ["Authorization"; "X-Emby-Authorization"])) eqn:Ea.
  { apply bool_decide_eq_true in Ea. apply authorization_stable in Hg1 as [Hs Hi]. split_and!; [by apply Hset|done| |].
    - intros Hk. assert (Forall (λ key, key ∉ token_headers) ["Authorization"; "X-Emby-Authorization"]) as Hf by (apply (bool_decide_unpack _); by vm_compute).
      rewrite Forall_forall in Hf. by destruct (Hf _ Ea).
    - intros ->. exfalso. apply (bool_decide_eq_true_2 _) in Ea. by vm_compute in Ea. }
  destruct (bool_decide (key = "X-Emby-Device-Id")) eqn:Ed.
  - apply bool_decide_eq_true in Ed as ->. apply accept_device in Hg1 as (Hs & Hi & <- & Hne). split_and!; [by apply Hset|done| |by right].
    intros Hk%(bool_decide_eq_true_2 _). by vm_compute in Hk.
  - apply bool_decide_eq_false in Ed. apply accept_credential in Hg1 as (Hs & Hi & <- & Hne). split_and!; [by apply Hset|done|by right|done].
Qed.

Lemma headers_step r g g' : res_fold (credential_header r) credential_headers g = Ok g' →
  stable g g' ∧ ga_ids g' = ga_ids g ∧ ∀ key, key ∈ credential_headers → header_agrees r g' key.
Proof.
  intros Hr. apply (res_fold_inv (λ l g', stable g g' ∧ ga_ids g' = ga_ids g ∧ ∀ key, key ∈ l → header_agrees r g' key)
    (credential_header r) credential_headers g g'); [|clear g' Hr|done].
  - split_and!; [reflexivity|done|by intros key Hk%elem_of_nil].
  - intros before g1 key g2 (Hs & Hi & Hb) Hin Hstep. destruct (header_step _ _ _ _ Hin Hstep) as (Hs2 & Hi2 & Hk). split_and!; [by etrans|congruence|].
    intros key' Hin'. apply elem_of_app in Hin' as [Hin'|Hin']; [by eapply header_stable, Hb|by apply list_elem_of_singleton in Hin' as ->].
Qed.

Lemma same_ids left right : NoDup left → sameEmbyDeletionIDs left right = true → ∀ id, id ∈ right ↔ id ∈ left.
Proof.
  intros Hn Hs. unfold sameEmbyDeletionIDs in Hs. apply andb_true_iff in Hs as [Hlen Hin]. apply bool_decide_eq_true in Hlen.
  assert (left ⊆ right) as Hsub.
  { intros id Hid. rewrite forallb_forall in Hin. specialize (Hin id (proj1 (list_elem_of_In _ _) Hid)). by apply bool_decide_eq_true in Hin. }
  assert (left ≡ₚ right) as Hp by (apply submseteq_length_Permutation; [by apply NoDup_submseteq|lia]). intros id. by rewrite Hp.
Qed.
Lemma agree_ok known ids res : agree_ids known ids = Ok res →
  (∀ l, known = Some l → res = Some l) ∧ (known = None → res = ids) ∧
  ∀ l l', res = Some l → ids = Some l' → NoDup l → ∀ id, id ∈ l' ↔ id ∈ l.
Proof.
  unfold agree_ids. destruct ids as [ids|], known as [known|].
  - destruct (sameEmbyDeletionIDs _ _) eqn:Hs; [|done]. intros [= <-]. split_and!; [done|done|]. intros l l' [= <-] [= <-] Hn. by apply same_ids.
  - intros [= <-]. split_and!; [done|done|]. by intros l l' [= <-] [= <-].
  - intros [= <-]. by split_and!.
  - intros [= <-]. by split_and!.
Qed.
End Parsing.

(** * Properties *)

Section Request.
Context `{Http} `{Ranging}.

(** C29: an accepted deletion request is unambiguous.  It names 1 to 100 distinct valid items,
    those of its path if it has one, and exactly those of the query's list if there is one;
    it only asks for a confirmation when it is a GET; every credential and every device ID it
    gives, in the query or in a header of its own, is the one it is authorised with, and there
    is one of each. *)
Theorem accepted_request_unambiguous r t :
  parseEmbyDeletion r = Ok t →
  deletion_ids (er_ids t) ∧ (er_confirmation t = true ↔ hr_method r = "GET") ∧ er_credential t ≠ "" ∧ er_deviceID t ≠ "" ∧
  (∃ named, endpoint (hr_method r) (er_path t) = Ok (named, er_confirmation t) ∧ ∀ ids, named = Some ids → er_ids t = ids) ∧
  http_query (hr_rawquery r) = Some (er_query t) ∧
  (∀ key values, (key, values) ∈ er_query t →
    (to_lower key ∈ credential_keys → values = [er_credential t]) ∧ (to_lower key ∈ device_keys → values = [er_deviceID t]) ∧
    (to_lower key = "ids" → ∃ text, values = [text] ∧ ∀ id, id ∈ split_on comma text ↔ id ∈ er_ids t)) ∧
  (∀ key, key ∈ token_headers → hr_values r key = [] ∨ hr_values r key = [er_credential t]) ∧
  (hr_values r "X-Emby-Device-Id" = [] ∨ hr_values r "X-Emby-Device-Id" = [er_deviceID t]).
Proof.
  unfold parseEmbyDeletion. destruct (negb (has_prefix _ _)); [done|]. cbv zeta. intros Hr.
  apply res_bind_ok in Hr as ([named confirmation] & Hend & Hr). apply res_bind_ok in Hr as (query & Hq & Hr).
  destruct (http_query _) as [q|] eqn:Hquery; [|done]. injection Hq as ->.
  apply res_bind_ok in Hr as (g1 & Hg1 & Hr). apply res_bind_ok in Hr as (g2 & Hg2 & Hr).
  destruct (bool_decide (ga_credential g2 = "")) eqn:Hc; [done|]. destruct (bool_decide (ga_device g2 = "")) eqn:Hd; [done|].
  apply bool_decide_eq_false in Hc, Hd. apply res_bind_ok in Hr as (body & _ & Hr). destruct (_ && _); [done|].
  apply res_bind_ok in Hr as (bodyIDs & Hbody & Hr). apply res_bind_ok in Hr as (ids1 & Hids1 & Hr).
  apply res_bind_ok in Hr as (ids2 & Hids2 & Hr). apply res_bind_ok in Hr as (ids & Hids & [= <-]).
  apply parameters_give in Hg1 as [Hgives Hquery_ids]; [|done]. apply headers_step in Hg2 as (Hst & Hsame & Hheaders).
  apply ids_ok in Hids as [-> Hok]. cbn [er_ids er_confirmation er_credential er_deviceID er_path er_query].
  apply agree_ok in Hids1 as (Ha1 & Hb1 & Hc1). apply agree_ok in Hids2 as (Ha2 & Hb2 & Hc2).
  split_and!; [exact Hok|by eapply endpoint_get|done|done| |done| | |].
  - exists named. split; [done|]. intros l ->. by rewrite (Ha2 l (Ha1 l eq_refl)).
  - intros key values Hin. assert ((key, values) ∈ range_over query) as Hin' by (by rewrite range_perm).
    pose proof (gives_stable _ _ _ _ Hst (λ _, Hsame) (Hgives _ _ Hin')) as Hg. split_and!.
    + intros Hk. by destruct (gv_credential _ _ _ Hg Hk).
    + intros Hk. by destruct (gv_device _ _ _ Hg Hk).
    + intros Hk. destruct (gv_ids _ _ _ Hg Hk) as (text & -> & Hi). exists text. split; [done|].
      destruct ids1 as [l|]; [|destruct named; [by specialize (Ha1 _ eq_refl)|specialize (Hb1 eq_refl); congruence]].
      rewrite (Ha2 l eq_refl) in *. cbn [default] in *. by apply (Hc1 l); [done|done|apply Hok].
  - intros key Hk. destruct (proj1 (Hheaders key ltac:(unfold token_headers in Hk; unfold credential_headers; set_solver)) Hk) as [?|[? _]]; auto.
  - destruct (proj2 (Hheaders "X-Emby-Device-Id" ltac:(unfold credential_headers; set_solver)) eq_refl) as [?|[? _]]; auto.
Qed.
End Request.

Section Deletion.
Context `{Env} {ctx : Ctx} (recycleCtx : Ctx) `{Sleep} `{Remote} `{Providers} `{Local} `{CidMap} `{Http} `{Ranging} `{NativeJson} `{Native}.
Implicit Types w : World Pipe.

Lemma asking_split l1 a l2 : Forall asking (l1 ++ a :: l2) → asking a.
Proof. intros [_ F]%Forall_app. by inversion F. Qed.
Lemma listing_asking a : listing_request a → asking a. Proof. by destruct a. Qed.

(** C3: nothing is deleted without authorisation.  Whatever Emby and 115 answer, each request
    of the handler other than a question is either the deletion of the browser's request or
    the deletion of one object of 115; before it the request was accepted as no mere
    confirmation, no other mutation ran, the credential was no application key, the one
    session of the device was that of an enabled administrator, and Emby allowed each item;
    the object is one of a well-formed plan, Emby had accepted its own deletion, and the
    directory of the object was just listed in full and showed that very file. *)
Theorem deletion_guarded queue r w :
  wp (handleEmbyDeletion recycleCtx queue r) w (λ res w', ∃ answer audit l,
    res = Ok (answer, audit) ∧ pi_log (w_db w') = pi_log (w_db w) ++ l ∧
    ∀ l1 a l2, l = l1 ++ a :: l2 → ¬ asking a →
      ∃ target base s userID plan, parseEmbyDeletion r = Ok target ∧ er_confirmation target = false ∧
        queue = Some s ∧ media_locked s = false ∧ authorised target base userID l1 ∧ plan_ok plan ∧
        ((∃ ans, a = ANative (native_deletion r base target) ans ∧ Forall asking l1) ∨
         (∃ t acc ans accepted_, t ∈ ep_targets plan ∧ a = ADelete acc [trim_space (target_id t)] ans ∧
            ANative (native_deletion r base target) (Ok accepted_) ∈ l1 ∧ accepted accepted_ = true ∧ just_seen t l1))).
Proof.
  eapply wp_mono; [apply handler_effect|]. intros res w' (answer & audit & l & -> & E & Hh). exists answer, audit, l. split_and!; [done|done|].
  intros l1 a l2 El Ha. clear E. destruct Hh as [|target base s f e answer audit l Hp Hq Hlock Hm _]; [by destruct l1|].
  destruct Hm as [f e l F|f e l userID plan ans F Hauth Hplan Hc|f e l userID plan na marks failure rl F Hauth Hplan Hc Hacc Hlog].
  - subst l. by destruct Ha; eapply asking_split.
  - apply app_eq_inv in El as [(k & -> & Hk)|(k & -> & Hk)].
    + destruct k as [|b k]; simplify_eq/=; [|by destruct Ha; eapply asking_split].
      rewrite app_nil_r in *. exists target, base, s, userID, plan. split_and!; try done. left. by eexists.
    + destruct k as [|b k]; simplify_eq/=; [|by destruct k]. rewrite app_nil_r.
      exists target, base, s, userID, plan. split_and!; try done. left. by eexists.
  - set (nd := ANative _ _) in El. apply app_eq_inv in El as [(k & -> & Hk)|(k & -> & Hk)].
    + destruct k as [|b k]; simplify_eq/=; [|by destruct Ha; eapply asking_split].
      rewrite app_nil_r in *. exists target, base, s, userID, plan. split_and!; try done. left. by eexists.
    + destruct k as [|b k]; injection Hk as <- Hk.
      { rewrite app_nil_r. exists target, base, s, userID, plan. split_and!; try done. left. by eexists. }
      destruct (recycle_seen _ _ _ _ Hlog k a l2 Hk) as [Hl|(t & acc & r' & Ht & -> & Hs)]; [by destruct Ha; apply listing_asking|].
      exists target, base, s, userID, plan. split_and!; try done.
      * destruct Hauth as [Hadm Hi]. split; [eapply admin_more; [|exact Hadm]|intros id Hid; eapply allowed_more; [|by apply Hi]]; intros x Hx; apply elem_of_app; auto.
      * right. exists t, acc, r', na. split_and!; try done; [apply elem_of_app; right; by left|].
        destruct Hs as (h & pages & files & o & -> & Hs). exists (l ++ nd :: h), pages, files, o. by rewrite <-app_assoc.
Qed.

Lemma answer_tells target f e answer audit : answer_with target f e = (answer, audit) →
  da_status audit = answer_status answer ∧ da_nativeDeleted audit = fw_nativeDeleted f ∧ da_plan audit = fw_plan f ∧ da_stage audit = fw_stage f ∧
  match e with
  | Some e => ∃ code message, answer = WebError code message ∧ ∀ c m, as_http e = Some (c, m) → code = c
  | None => match fw_native f with
            | Some n => answer = WebBlob (rs_status n) (rs_contentType n) (rs_body n)
            | None => True
            end
  end.
Proof.
  assert (∀ e, fail_with (Some target) f e = (answer, audit) →
    da_status audit = answer_status answer ∧ da_nativeDeleted audit = fw_nativeDeleted f ∧ da_plan audit = fw_plan f ∧ da_stage audit = fw_stage f ∧
    ∃ code message, answer = WebError code message ∧ ∀ c m, as_http e = Some (c, m) → code = c) as Hfail.
  { intros e'. unfold fail_with. destruct (fw_failure f), (as_http e') as [[code message]|]; intros [= <- <-].
    all: split_and!; [done..|]; eexists _, _; (split; [done|]); by intros c m [= <- <-]. }
  unfold answer_with. destruct e as [e|]; [apply Hfail|]. destruct (fw_native f) as [n|].
  - intros [= <- <-]. by split_and!.
  - intros Ha. apply Hfail in Ha as (? & ? & ? & ? & _). by split_and!.
Qed.

(** C6: the answer and the audit entry tell what was done.  The status of the entry is that
    of the answer.  When it says that Emby deleted its items, Emby accepted the deletion, the
    recycling that followed is the one whose marks the entry's plan carries, the stage is
    "completed" exactly when no target failed, and then every source is recycled or was
    absent; the browser gets Emby's own answer only in that case and otherwise an error.
    When it says that Emby did not, no deletion was accepted, nothing was deleted on 115, and
    no deletion is answered as a success. *)
Theorem deletion_audit_true queue r w :
  wp (handleEmbyDeletion recycleCtx queue r) w (λ res w', ∃ answer audit l,
    res = Ok (answer, audit) ∧ pi_log (w_db w') = pi_log (w_db w) ++ l ∧ da_status audit = answer_status answer ∧
    if da_nativeDeleted audit then
      ∃ target base plan a marks failure before recycled, parseEmbyDeletion r = Ok target ∧ er_confirmation target = false ∧
        l = before ++ ANative (native_deletion r base target) (Ok a) :: recycled ∧ Forall asking before ∧ accepted a = true ∧
        recycle_log (ep_targets plan) marks failure recycled ∧ da_plan audit = Some (left_plan plan marks) ∧
        (da_stage audit = "completed" ↔ failure = None) ∧ (failure = None ↔ length marks = length (ep_targets plan)) ∧
        match answer with
        | WebBlob status contentType body => failure = None ∧ status = na_status a ∧ contentType = na_contentType a ∧ na_body a = Some body
        | WebError status _ => status = 502%Z ∧ (failure ≠ None ∨ na_body a = None)
        end
    else
      (∀ a, a ∈ l → ¬ asking a → ∃ request ans, a = ANative request ans ∧ ∀ na, ans = Ok na → accepted na = false) ∧
      match answer with
      | WebBlob status contentType body => successful (mkResponse status contentType body) = true → ∃ target, parseEmbyDeletion r = Ok target ∧ er_confirmation target = true
      | WebError _ _ => True
      end).
Proof.
  eapply wp_mono; [apply handler_effect|]. intros res w' (answer & audit & l & -> & E & Hh). exists answer, audit, l. split; [done|]. split; [done|].
  clear E. destruct Hh as [code message audit Hd Hs|target base s f e answer audit l Hp Hq Hlock Hm Ha].
  { rewrite Hd. split; [done|]. split; [|done]. by intros a Hin%elem_of_nil. }
  apply answer_tells in Ha as (Hst & Hnd & Hpl & Hsg & Hans).
  destruct Hm as [f e l F Hd Hn|f e l userID plan ans F Hauth Hplan Hc Hrej Hd Hn
                 |f e l userID plan na marks failure rl F Hauth Hplan Hc Hacc Hlog Hd Hplan' Hfail Hnat Hstage He].
  - rewrite Hnd, Hd. split; [done|]. split; [intros a Hin Hna; by destruct Hna; rewrite Forall_forall in F; apply F|].
    destruct e as [e|]; [by destruct Hans as (code & m & -> & _)|]. destruct (Hn eq_refl) as (n & En & Hsucc). rewrite En in Hans.
    rewrite Hans. intros Hok. exists target. split; [done|]. by apply Hsucc.
  - rewrite Hnd, Hd. split; [done|]. split.
    + intros a Hin Hna. apply elem_of_app in Hin as [Hin|Hin]; [by destruct Hna; rewrite Forall_forall in F; apply F|].
      apply list_elem_of_singleton in Hin as ->. by eexists _, ans.
    + destruct e as [e|]; [by destruct Hans as (code & m & -> & _)|]. destruct (Hn eq_refl) as (n & En & Hsucc). rewrite En in Hans.
      rewrite Hans. unfold successful in *. cbn in *. congruence.
  - rewrite Hnd, Hd. split; [done|]. pose proof (recycle_marks _ _ _ _ Hlog) as [_ Hmarks].
    exists target, base, plan, na, marks, failure, l, rl. rewrite Hsg, Hpl. split_and!; try done.
    + rewrite Hstage. by destruct failure.
    + subst e. destruct failure as [e|].
      * destruct Hans as (code & m & -> & Hcode). rewrite (Hcode _ _ eq_refl). split; [done|by left].
      * destruct (na_body na) as [body|] eqn:Hb.
        -- rewrite Hnat in Hans. by rewrite Hans.
        -- destruct Hans as (code & m & -> & Hcode). rewrite (Hcode _ _ eq_refl). split; [done|by right].
Qed.

(** C7: a plan misses no original.  Whatever 115, Emby and the disk answer, preparing a
    deletion changes nothing of a drive or of Emby; a plan it returns is not empty, has no
    object and no path twice, is sorted by path and still unused, and holds files only; and
    for each path of Emby's, the walk of the directory it maps to ended without an error, and
    each regular video or STRM file below it stands for one of the plan's paths: a video for
    its own path in the library, a STRM file for the target it was read to hold.  A path maps
    by a location above it of a library that Emby listed and that the stored map gives a
    directory of 115: a location that is the library's media directory, as the settings and
    the operating system give it, to that directory; one that is its directory in the STRM
    tree to that. *)
Theorem deletion_plan_complete l w :
  wp (PrepareEmbyDeletionCtx l) w (λ res w', grows harmless (w_db w) (w_db w') ∧
    ∀ plan, res = Ok plan → plan_ok plan ∧ ∀ path, path ∈ l → path_covered (w_db w) (w_db w') (ep_SourcePaths plan) path).
Proof. apply prepare_effect. Qed.

(** C28: a recycling does what it reports, once.  Recycling a fresh plan asks, target by
    target, for a complete inventory of its directory, for the deletion of the one object
    that is still the planned file, and for another complete inventory that no longer shows
    it, and stops at the first target that fails; the plan it leaves marks exactly the
    targets done, as recycled or as absent already when Emby itself deletes the file.
    Recycling the plan it leaves again fails and asks for nothing. *)
Theorem recycling_reported accountID targets w :
  let plan := new_plan accountID targets in
  let invalid := Some (ErrText "invalid or already attempted Emby deletion plan") in
  wp (first ← RecycleEmbyDeletionCtx plan; again ← RecycleEmbyDeletionCtx first.1; mret (first, again)) w (λ res w',
    ∃ l left failure, res = Ok ((left, failure), (left, invalid)) ∧ pi_log (w_db w') = pi_log (w_db w) ++ l ∧
      if bool_decide (targets = []) then l = [] ∧ left = plan ∧ failure = invalid
      else ∃ marks, left = left_plan plan marks ∧ recycle_log (ep_targets plan) marks failure l).
Proof.
  cbv zeta. set (plan := new_plan accountID targets). apply wp_bind. unfold RecycleEmbyDeletionCtx at 1.
  pose proof (merge_sort_Permutation path_le targets) as Hm. destruct (decide (targets = [])) as [->|Hne].
  - apply wp_ret, wp_bind, wp_ret, wp_ret. eexists [], plan, _. rewrite app_nil_r. by split_and!.
  - rewrite (bool_decide_false (targets = [])) by done. rewrite (bool_decide_false (length (ep_targets plan) = 0)).
    2: { cbn. rewrite Hm. by destruct targets. }
    cbn [ep_attempted new_plan plan orb]. apply wp_bind. eapply wp_mono.
    { apply (targets_effect _ _ [] (ep_Sources plan)). cbn. by rewrite length_fmap. }
    intros res w1 (l & marks & failure & E & -> & Hl). apply wp_ret, wp_bind, wp_ret, wp_ret.
    exists l, (left_plan plan marks), failure. split_and!; [done|done|]. by exists marks.
Qed.
End Deletion.

(** ** A concrete request *)

#[local] Instance sample_http : Http := {|
  http_url _ := None; http_media _ := None; http_json _ := mkJson false false None None false false;
  http_query s := Some (if bool_decide (s = "") then [] else [("api_key", ["secret"]); ("DeviceId", ["tv"]); ("Ids", ["42"])])
|}.
#[local] Instance sample_order : Ranging := {| range_over A l := l; range_perm A l := reflexivity l |}.
Definition sample_deletion : http_request :=
  mkHttpRequest "DELETE" "/internal/emby-delete/emby/Items/42/" "query"
    (λ key, if bool_decide (key = "X-Emby-Token") then ["secret"] else []) "" (Some (Ok "")).
Definition sample_accepted : res embyDeletionRequest := parseEmbyDeletion sample_deletion.

Lemma accepted_request_unambiguous_witness :
  ∃ t, sample_accepted = Ok t ∧ er_ids t = ["42"] ∧ er_path t = "/Items/42" ∧ er_credential t = "secret" ∧ er_deviceID t = "tv" ∧
    er_confirmation t = false ∧ deletion_ids (er_ids t).
Proof.
  destruct sample_accepted as [t|e] eqn:E; [|by vm_compute in E].
  exists t. split; [done|]. pose proof (accepted_request_unambiguous sample_deletion t E) as [Hids _].
  assert (Some t = of_res sample_accepted) as Ht by (by rewrite E). vm_compute in Ht. injection Ht as ->. by repeat split; apply Hids.
Defined.
