(* ===== verification/MediaIngest.v ===== *)
(** The media ingest ([src/internal/service/media_ingest.go]): the task that brings what an
    import delivered into the library.

    It reads the verified items of a completed import, finds the one series of Emby that the
    videos name, moves the videos and subtitles into the series' folder on 115 under
    canonical names, synchronises the STRM tree of the library, scans Emby, and checks that
    Emby owns every episode.  What it cannot decide stays where it is and is reported as a
    finding.  The listings of Emby and the watch of the scan take a number of rounds and fail
    when those are over ([finished_wait]). *)
From Stdlib Require Import Ascii.
From S2P Require Import Prelude GoStrings GoPath Sql Schema TaskStore ImportStore Accounts Payload FileSys Remote Drive Destination.
From S2P Require Import Regexp Episodes Identity Service Local Autofill Pipeline Media Queue Emby.

Definition mediaIngestVisibilityAttempts : nat := 30.
Definition mediaIngestVisibilityInterval : Z := 2 * second.
Definition mediaIngestMaxNameBytes : nat := 230.

Definition ingestSubtitleExtensions : list string := [".ass"; ".idx"; ".smi"; ".srt"; ".ssa"; ".sub"; ".sup"; ".vtt"].
Definition is_subtitle (name : string) : bool := bool_decide (to_lower (ext name) ∈ ingestSubtitleExtensions).

Record mediaIngestCandidate := mkIngestCandidate { ic_Library : EmbyLibrary; ic_LibraryCID : string; ic_Series : EmbyMediaItem }.
Record mediaIngestMove := mkIngestMove {
  im_FileID : string; im_SourceName : string; im_TargetName : string; im_TargetCID : string; im_Status : string
}.
(** What a review is told of a candidate. *)
Record public_candidate := mkPublic {
  pc_library : string; pc_series : string; pc_series_id : string; pc_tmdb_id : string; pc_folder : string
}.

(** The result of the task: a review, which moved nothing, or the verified ingest.  Each
    carries its findings. *)
Inductive ingest_result :=
| ImportReview (findings : list string)
| CatalogReview (candidates : list public_candidate) (findings : list string)
| OrganizeReview (library series tmdb_id : string) (findings : list string)
| Verified (library library_id series series_id tmdb_id destination_cid destination_path : string)
    (episodes : list string) (moves : list mediaIngestMove) (findings : list string) (emby_task_id emby_status : string).
Definition findings_of (r : ingest_result) : list string :=
  match r with ImportReview f | CatalogReview _ f | OrganizeReview _ _ _ f | Verified _ _ _ _ _ _ _ _ _ f _ _ => f end.
(** [needs_review]. *)
Definition needs_review (r : ingest_result) : nat := length (findings_of r).

(** ** Names *)

Definition destination (i : CrossDriveItem.t) : string := nstr (CrossDriveItem.DestinationID i).
Definition unverified (i : CrossDriveItem.t) : bool :=
  negb (bool_decide (CrossDriveItem.State i = "verified")) || bool_decide (destination i = "").

Definition ingestMediaItems (items : list CrossDriveItem.t) (videoOnly : bool) : list CrossDriveItem.t :=
  filter (λ i, negb (unverified i) &&
    (is_video (CrossDriveItem.Name i) || negb videoOnly && is_subtitle (CrossDriveItem.Name i)) = true) items.

(** [strings.Trim(s, " ._-")]. *)
Definition separators : list (list ascii) := [[" "%char]; ["."%char]; ["_"%char]; ["-"%char]].
Definition trim_separators (s : string) : string :=
  let l := strip_all (length (chars s)) separators (chars s) in
  of_chars (reverse (strip_all (length l) separators (reverse l))).

Definition tmdb_of (s : EmbyMediaItem) : string := default "" (mi_ProviderIDs s !! "Tmdb").
(** [filepath.Base(filepath.Clean(series.Path))]. *)
Definition folder_of (s : EmbyMediaItem) : string := base (clean (mi_Path s)).

(** [fmt.Sscanf(date[:4], "%d", &year)]: the year, or [None] when it is left as it was. *)
Fixpoint take_decimal (l : list ascii) : list ascii :=
  match l with a :: l => if is_digit a then a :: take_decimal l else [] | [] => [] end.
Definition scan_year (date : string) : option Z :=
  let start := take 4 (chars date) in
  let rest := trim_left start in
  let number (l : list ascii) := match take_decimal l with [] => None | l => decimal 0 l end in
  if bool_decide (byte 10 ∈ take (length start - length rest) start) then None else
  match rest with
  | a :: l => if bool_decide (a = "-"%char) then Z.opp <$> number l else if bool_decide (a = "+"%char) then number l else number rest
  | [] => None
  end.

(** [strings.TrimSuffix]. *)
Definition trim_suffix (s p : string) : string :=
  match strip_prefix (reverse (chars p)) (reverse (chars s)) with Some l => of_chars (reverse l) | None => s end.

Section Names.
Context `{Unicode}.

Definition aliases_of (s : EmbyMediaItem) : list string := [label_title (mi_Name s); label_title (mi_OriginalTitle s)].

(** [importTitleRelation]: whether the title is an alias, and whether it begins or ends with
    one. *)
Fixpoint title_relation (title : string) (related : bool) (aliases : list string) : bool * bool :=
  match aliases with
  | [] => (false, related)
  | alias :: aliases =>
      if bool_decide (alias = "") || bool_decide (length (runes alias) < 4) then title_relation title related aliases
      else if bool_decide (title = alias) then (true, true)
      else title_relation title (related || has_prefix title alias || has_suffix title alias) aliases
  end.
Definition importTitleRelation (title : string) (aliases : list string) : bool * bool := title_relation title false aliases.

Definition canonical_year (s : EmbyMediaItem) : Z :=
  let named := li_year (parseAutoFillLabel (mi_Name s)) in
  let year := if Z.eqb named 0 then li_year (parseAutoFillLabel (folder_of s)) else named in
  if Nat.leb 4 (String.length (mi_PremiereDate s)) && Z.eqb year 0 then default year (scan_year (mi_PremiereDate s)) else year.

(** One video: [None] when it rules the series out, or how many strong signs it gives. *)
Definition video_signs (s : EmbyMediaItem) (i : CrossDriveItem.t) : option nat :=
  let name := CrossDriveItem.Name i in
  let year := canonical_year s in
  if bool_decide (length (episodeKeysFromName name) = 0) then None else
  let identity := parseAutoFillLabel name in
  let '(exact, related) := importTitleRelation (li_title identity) (aliases_of s) in
  if negb related || negb (Z.eqb (li_year identity) 0) && negb (Z.eqb year 0) && negb (Z.eqb (li_year identity) year) then None
  else
    let tmdb := trim_space (tmdb_of s) in
    Some ((if exact && negb (Z.eqb year 0) && Z.eqb (li_year identity) year then 1 else 0)
          + (if negb (bool_decide (tmdb = "")) && contains (to_lower name) ("tmdbid=" +:+ to_lower tmdb) then 1 else 0)).
Fixpoint count_signs (s : EmbyMediaItem) (videos : list CrossDriveItem.t) (strong : nat) : option nat :=
  match videos with
  | [] => Some strong
  | i :: videos => match video_signs s i with Some n => count_signs s videos (strong + n) | None => None end
  end.
Definition mediaIngestSeriesMatches (s : EmbyMediaItem) (videos : list CrossDriveItem.t) : bool :=
  match count_signs s videos 0 with Some strong => Nat.ltb 0 strong | None => false end.

(** Why an item is not moved. *)
Definition plan_finding (s : EmbyMediaItem) (i : CrossDriveItem.t) : option string :=
  let name := CrossDriveItem.Name i in
  if unverified i then Some (name +:+ "：未完成 115 身份核对")
  else if negb (is_video name) && negb (is_subtitle name) then Some (name +:+ "：非视频或字幕，保留在 _待整理")
  else if bool_decide (length (episodeKeysFromName name) = 0) then Some (name +:+ "：缺少明确季集编号")
  else if negb (importTitleRelation (label_title name) (aliases_of s)).2 then Some (name +:+ "：文件名不能证明同一剧集身份")
  else None.
Definition buildMediaIngestPlan (s : EmbyMediaItem) (items : list CrossDriveItem.t) : list CrossDriveItem.t * list string :=
  (filter (λ i, plan_finding s i = None) items, omap (plan_finding s) items).
End Names.

(** The label of the episodes a name names. *)
Definition episode_label (keys : list episodeKey) : string :=
  match sort_keys keys with
  | [] => ""
  | first :: rest =>
      match last rest with
      | None => key_String first
      | Some last => key_String first +:+ (if Z.eqb (Season last) (Season first) then "-E" +:+ two_digits (Episode last)
                                           else "-" +:+ key_String last)
      end
  end.
Definition sha_prefix (i : CrossDriveItem.t) : string := to_upper (of_chars (take 8 (chars (CrossDriveItem.SHA1 i)))).

(** [canonicalIngestName]; its errors become findings. *)
Definition canonicalIngestName (s : EmbyMediaItem) (i : CrossDriveItem.t) : res string :=
  let item := CrossDriveItem.Name i in
  let extension := ext item in
  let base := trim_suffix (base item) extension in
  match find_re seasonEpisodePattern (runes base), episodeKeysFromName item with
  | Some m, (_ :: _) as keys =>
      let label := episode_label keys in
      let suffix := trim_separators (of_runes (drop (m_end m) (runes base))) in
      let name := trim_space (mi_Name s) +:+ " " +:+ label +:+ (if bool_decide (suffix = "") then "" else " - " +:+ suffix) +:+ extension in
      if contains_any name [slash; nul] then Err (ErrText "规范文件名无效")
      else if Nat.ltb mediaIngestMaxNameBytes (String.length name) then
        if Nat.ltb (String.length (CrossDriveItem.SHA1 i)) 8 then Err (ErrText "规范文件名过长且缺少 SHA-1")
        else Ok (trim_space (mi_Name s) +:+ " " +:+ label +:+ " - " +:+ sha_prefix i +:+ extension)
      else Ok name
  | _, _ => Err (ErrText "缺少 SxxExx 编号")
  end.

Definition sample_series : EmbyMediaItem := mkMedia "1" " 剧 名 " "" "Series" "/tv/剧 名" "2021-03-01" false false ∅.
Definition sample_named (name : string) : CrossDriveItem.t :=
  CrossDriveItem.mk "import" "s" "" name name 5 "abcdef1234" None "verified" None 0 None (Some "1") None None None None 0.
Example ingest_name_1 : canonicalIngestName sample_series (sample_named "x.S01E03-s1e2..1080p_.mkv") = Ok "剧 名 S01E02-E03 - s1e2..1080p.mkv".
Proof. by vm_compute. Qed.
Example ingest_name_2 : canonicalIngestName sample_series (sample_named "S01E1.srt") = Ok "剧 名 S01E01.srt". Proof. by vm_compute. Qed.
Example ingest_name_3 : is_ok (canonicalIngestName sample_series (sample_named "第3集.mkv")) = false. Proof. by vm_compute. Qed.
Example scan_year_1 : scan_year "2021-03-01" = Some 2021%Z. Proof. by vm_compute. Qed.
Example scan_year_2 : scan_year " -1x" = Some (-1)%Z. Proof. by vm_compute. Qed.

(** ** Moving a file *)

(** The file is the item's, by size and digest. *)
Definition same_content (i : CrossDriveItem.t) (f : DriveFile) : bool :=
  negb (df_IsFolder f) && Z.eqb (df_Size f) (CrossDriveItem.Size i) && equal_fold (df_Sha1 f) (CrossDriveItem.SHA1 i).

(** The name an item gets among the files of the folder, and whether its content is there
    under that name already. *)
Fixpoint free_name (i : CrossDriveItem.t) (targetName : string) (files : list DriveFile) : res (string * bool) :=
  match files with
  | [] => Ok (targetName, false)
  | f :: files =>
      if negb (bool_decide (df_Name f = targetName)) || bool_decide (df_FileID f = destination i) then free_name i targetName files
      else if same_content i f then Ok (targetName, true)
      else if Nat.ltb (String.length (CrossDriveItem.SHA1 i)) 8 then
        Err (ErrText ("target name " +:+ targetName +:+ " is occupied and source SHA-1 is unavailable"))
      else
        let extension := ext targetName in
        free_name i (trim_suffix targetName extension +:+ " - " +:+ sha_prefix i +:+ extension) files
  end.

(** [filepath.Base(filepath.Dir(filepath.Clean(series.Path)))]. *)
Definition parent_of (s : EmbyMediaItem) : string := base (dir (clean (mi_Path s))).

Section Ingest.
Context `{Env} {ctx : Ctx} `{Sleep} `{Remote} `{Providers} `{Local} `{Names} `{Ranging} `{Workers} `{Unicode} `{CidMap}.
Context `{Native} `{EmbyJson} `{PathEscape} (rounds : nat).
Abbreviation Pi := (M Pipe).

(** [MoveProvider] and [RenameProvider] ([drive_provider.go]) for 115. *)
Definition MoveProvider (accountID : string) (ids : list string) (parent : string) : Pi unit :=
  a ← getAccountForProvider "115" accountID;
  MoveCtx a.1 ids parent.
Definition RenameProvider (accountID id name : string) : Pi unit :=
  a ← getAccountForProvider "115" accountID;
  RenameCtx a.1 id name.

(** ** The candidate *)

Definition cid_of (cids : gmap string string) (library : EmbyLibrary) : string := trim_space (default "" (cids !! lb_Name library)).
Definition proper_series (library : EmbyLibrary) (videos : list CrossDriveItem.t) (s : EmbyMediaItem) : bool :=
  mediaIngestSeriesMatches s videos && negb (bool_decide (folder_of s = ".")) && bool_decide (parent_of s = lb_Name library)
  && negb (bool_decide (trim_space (tmdb_of s) = "")).
Definition public_of (c : mediaIngestCandidate) : public_candidate :=
  let s := ic_Series c in mkPublic (lb_Name (ic_Library c)) (mi_Name s) (mi_ID s) (tmdb_of s) (folder_of s).

Definition match_library (cids : gmap string string) (videos : list CrossDriveItem.t) (matches : list mediaIngestCandidate)
    (library : EmbyLibrary) : Pi (list mediaIngestCandidate) :=
  let cid := cid_of cids library in
  if negb (bool_decide (lb_Collection library = "tvshows")) || bool_decide (cid = "") then mret matches else
  series ← finished_wait (ListSeriesCtx rounds (lb_ID library));
  mret (matches ++ (mkIngestCandidate library cid <$> filter (λ s, proper_series library videos s = true) series)).

Definition resolveMediaIngestCandidate (videos : list CrossDriveItem.t) : Pi (option mediaIngestCandidate * list public_candidate) :=
  raw ← on_db (GetSetting "c115_cid_map");
  cids ← lift match decode_cid_map raw with Some cids => Ok cids | None => Err (ErrText "decode c115_cid_map") end;
  libraries ← ListLibrariesCtx;
  matches ← m_fold (match_library cids videos) libraries [];
  mret (match matches with [c] => Some c | _ => None end, public_of <$> matches).

(** ** One file *)

Fixpoint wait_ingest (accountID parentCID fileID name : string) (i : CrossDriveItem.t) (attempts : nat) : Pi bool :=
  match attempts with
  | O => mret false
  | S attempts =>
      files ← listAllProviderFiles "115" accountID parentCID;
      if existsb (λ f, bool_decide (df_FileID f = fileID) && bool_decide (df_ParentID f = parentCID) && bool_decide (df_Name f = name)
                       && same_content i f) files then mret true
      else
      _ ← (if bool_decide (attempts = 0) then mret tt else sleepContext mediaIngestVisibilityInterval);
      wait_ingest accountID parentCID fileID name i attempts
  end.
Definition waitForIngestItem (accountID parentCID fileID name : string) (i : CrossDriveItem.t) : Pi bool :=
  wait_ingest accountID parentCID fileID name i mediaIngestVisibilityAttempts.

Definition with_id (id : string) (f : DriveFile) : bool := bool_decide (df_FileID f = id).

(** What the rest of a move does, once the file is in the folder under [current]'s name. *)
Definition settle_item (accountID targetCID : string) (i : CrossDriveItem.t) (current targetName status : string) : Pi mediaIngestMove :=
  let move := mkIngestMove (destination i) (CrossDriveItem.Name i) targetName targetCID in
  status ← (if negb (bool_decide (current = targetName)) then
              _ ← wrap ("rename " +:+ CrossDriveItem.Name i +:+ " after media ingest: ") (RenameProvider accountID (destination i) targetName);
              mret "moved_and_renamed"
            else mret status);
  verified ← waitForIngestItem accountID targetCID (destination i) targetName i;
  if negb verified then throw (ErrText ("115 did not expose organized file " +:+ targetName))
  else mret (move (if bool_decide (status = "") then "already_organized" else status)).

Definition moveIngestItem (accountID sourceCID targetCID : string) (i : CrossDriveItem.t) (targetName : string) : Pi mediaIngestMove :=
  sourceFiles ← listAllProviderFiles "115" accountID sourceCID;
  targetFiles ← listAllProviderFiles "115" accountID targetCID;
  match find (with_id (destination i)) targetFiles with
  | Some current =>
      if negb (bool_decide (df_ParentID current = targetCID)) || negb (same_content i current) then
        throw (ErrText ("organized object " +:+ CrossDriveItem.Name i +:+ " changed identity before rename"))
      else settle_item accountID targetCID i (df_Name current) targetName ""
  | None =>
      let changed := ErrText ("source object " +:+ CrossDriveItem.Name i +:+ " changed before media ingest") in
      match find (with_id (destination i)) sourceFiles with
      | None => throw changed
      | Some current =>
          if negb (bool_decide (df_ParentID current = sourceCID)) || negb (bool_decide (df_Name current = CrossDriveItem.Name i))
             || negb (same_content i current) then throw changed
          else
          '(targetName, duplicate) ← lift (free_name i targetName targetFiles);
          if (duplicate : bool) then
            mret (mkIngestMove (destination i) (CrossDriveItem.Name i) targetName targetCID "duplicate_retained_in_staging")
          else
          _ ← wrap ("move " +:+ CrossDriveItem.Name i +:+ " into canonical Series: ") (MoveProvider accountID [destination i] targetCID);
          settle_item accountID targetCID i (df_Name current) targetName "moved"
      end
  end.

(** ** The task *)

Definition move_progress (index count : nat) : Q :=
  (25 + 35 * inject_Z (Z.of_nat index + 1) / inject_Z (Z.max 1 (Z.of_nat count)))%Q.

(** One item of the plan: the moves and the findings so far. *)
Definition ingest_item (taskID accountID sourceCID targetCID : string) (s : EmbyMediaItem) (count : nat)
    (st : list mediaIngestMove * list string) (it : nat * CrossDriveItem.t) : Pi (list mediaIngestMove * list string) :=
  let '(index, i) := it in
  _ ← ctx_live;
  match canonicalIngestName s i with
  | Err e => mret (st.1, st.2 ++ [CrossDriveItem.Name i +:+ "：" +:+ error_text e])
  | Ok targetName =>
      move ← moveIngestItem accountID sourceCID targetCID i targetName;
      _ ← on_db (UpdateAsyncTaskProgress taskID (move_progress index count));
      mret (st.1 ++ [move], st.2)
  end.

Definition expected_keys (videos : list CrossDriveItem.t) : gset episodeKey :=
  list_to_set (i ← videos; episodeKeysFromName (CrossDriveItem.Name i)).

(** The import the task names, with its verified items. *)
Definition ingest_source (sourceTaskID : string) : Pi (CrossDriveImport.t * list CrossDriveItem.t) :=
  sourceTask ← wrap "read source import task: " (on_db (GetAsyncTask sourceTaskID));
  if negb (bool_decide (AsyncTask.Type_ sourceTask = "quark_to_115_import")) || negb (bool_decide (AsyncTask.Status sourceTask = "completed")) then
    throw (ErrText "source task must be a completed Quark import")
  else
  state ← wrap "read source import state: " (on_db (GetCrossDriveImport sourceTaskID));
  if negb (bool_decide (CrossDriveImport.Phase state = "verified")) || bool_decide (CrossDriveImport.DestinationCID state = "")
     || negb (bool_decide (CrossDriveImport.AutofillSeriesID state = "")) then
    throw (ErrText "source import is not an unbound verified staging import")
  else
  items ← on_db (ListCrossDriveItems sourceTaskID);
  mret (state, items.*2).

(** The end of an ingest that moved files: the STRM tree, the scan, and what Emby owns. *)
Definition publish_ingest (taskID : string) (c : mediaIngestCandidate) (seriesCID : string) (expected : gset episodeKey)
    (moves : list mediaIngestMove) (findings : list string) : Pi ingest_result :=
  let library := ic_Library c in
  let series := ic_Series c in
  _ ← on_db (AppendTaskLog taskID ("organized " +:+ pretty (length moves) +:+ " files into " +:+ lb_Name library +:+ "/" +:+ folder_of series));
  _ ← wrap "sync STRM after media ingest: " (SyncSTRMWithProgress (lb_Name library) (Some (λ q m, on_db (taskProgress taskID 62 78 q m))));
  _ ← on_db (AppendTaskLog taskID ("STRM synchronization completed for " +:+ lb_Name library));
  scan ← wrap "scan Emby after media ingest: " (finished_wait (RunLibraryScanCtx rounds (taskProgress taskID 80 95)));
  n ← now;
  owned ← wrap "verify Emby Series after media ingest: " (ListAiredSeriesEpisodesCtx (mi_ID series) n);
  let ownedSet : gset episodeKey := list_to_set ((λ e, mkKey (me_SeasonNumber e) (me_EpisodeNumber e)) <$> owned) in
  let missing := sort_strings (key_String <$> elements (expected ∖ ownedSet)) in
  if bool_decide (0 < length missing) then throw (ErrText ("Emby scan did not expose imported episodes: " +:+ join ", " missing)) else
  _ ← on_db (UpdateAsyncTaskProgress taskID 99);
  mret (Verified (lb_Name library) (lb_ID library) (mi_Name series) (mi_ID series) (tmdb_of series) seriesCID
          (join_path ["/emby"; lb_Name library; folder_of series]) (sortedEpisodeLabels expected) moves findings
          (es_TaskID scan) (es_Status scan)).

Definition catalog_finding (candidates : list public_candidate) : string :=
  if bool_decide (1 < length candidates) then "多个现有 Emby 剧集同时匹配；文件保留在 /emby/_待整理"
  else "没有唯一、完整且年份一致的现有 Emby 剧集身份；文件保留在 /emby/_待整理".

(** [runMediaIngest]. *)
Definition runMediaIngest (taskID : string) (p : payload) : Pi ingest_result :=
  '(state, items) ← ingest_source (text_of p "source_task_id" true);
  let accountID := CrossDriveImport.C115AccountID state in
  let videos := ingestMediaItems items true in
  if bool_decide (length videos = 0) then mret (ImportReview ["导入中没有可识别的编号视频文件"]) else
  _ ← on_db (UpdateAsyncTaskProgress taskID 15);
  _ ← on_db (AppendTaskLog taskID ("catalog match started for " +:+ pretty (length videos) +:+ " verified videos"));
  '(candidate, candidates) ← resolveMediaIngestCandidate videos;
  match candidate with
  | None => mret (CatalogReview candidates [catalog_finding candidates])
  | Some c =>
      let series := ic_Series c in
      seriesCID ← wrap "resolve canonical 115 Series folder: " (resolveAutoFillFolder rounds (ic_LibraryCID c) (folder_of series));
      _ ← on_db (UpdateAsyncTaskProgress taskID 25);
      _ ← on_db (AppendTaskLog taskID ("catalog matched " +:+ mi_Name series +:+ " [" +:+ tmdb_of series +:+ "] in " +:+ lb_Name (ic_Library c)));
      let '(movable, findings) := buildMediaIngestPlan series items in
      '(moves, findings) ← m_fold (ingest_item taskID accountID (CrossDriveImport.DestinationCID state) seriesCID series (length movable))
                             (imap pair movable) ([], findings);
      if bool_decide (length moves = 0) then
        mret (OrganizeReview (lb_Name (ic_Library c)) (mi_Name series) (tmdb_of series) (findings ++ ["没有文件通过身份与目标冲突检查"]))
      else publish_ingest taskID c seriesCID (expected_keys videos) moves findings
  end.
End Ingest.
