(* ===== verification/MediaIngestProofs.v ===== *)
(** Properties of the media ingest ([MediaIngest.v]): which series it chooses, what it asks
    the drive to change, and what a verified ingest has shown. *)
From Stdlib Require Import Ascii.
From S2P Require Import Prelude GoStrings GoPath Sql Schema TaskStore ImportStore Accounts Payload FileSys Remote Drive DriveProofs Destination.
From S2P Require Import DestinationProofs Regexp Episodes Identity Service Local Autofill Pipeline Media Roots MediaProofs Queue ReplacementProofs.
From S2P Require Import Emby EmbyProofs EmbyDeletionProofs MediaIngest.

(** * The series *)

Section Series.
Context `{Unicode}.

(** An alias of at least four characters. *)
Definition usable (alias : string) : Prop := alias ≠ "" ∧ 4 ≤ length (runes alias).
(** The title begins or ends with a usable alias of the series. *)
Definition related (s : EmbyMediaItem) (title : string) : Prop :=
  ∃ alias, alias ∈ aliases_of s ∧ usable alias ∧ (has_prefix title alias = true ∨ has_suffix title alias = true).
Definition same_title (s : EmbyMediaItem) (title : string) : Prop := title ∈ aliases_of s ∧ usable title.

(** A video that may be of the series: it names episodes, its title is related, and no year
    contradicts the series'. *)
Definition agrees_with (s : EmbyMediaItem) (i : CrossDriveItem.t) : Prop :=
  let label := parseAutoFillLabel (CrossDriveItem.Name i) in
  episodeKeysFromName (CrossDriveItem.Name i) ≠ [] ∧ related s (li_title label) ∧
  (li_year label = 0 ∨ canonical_year s = 0 ∨ li_year label = canonical_year s)%Z.
(** A video that is of the series: it has its title and year, or its TMDB ID. *)
Definition proves (s : EmbyMediaItem) (i : CrossDriveItem.t) : Prop :=
  let label := parseAutoFillLabel (CrossDriveItem.Name i) in
  let tmdb := trim_space (tmdb_of s) in
  same_title s (li_title label) ∧ canonical_year s ≠ 0%Z ∧ li_year label = canonical_year s ∨
  tmdb ≠ "" ∧ contains (to_lower (CrossDriveItem.Name i)) ("tmdbid=" +:+ to_lower tmdb) = true.

Lemma prefix_refl s : has_prefix s s = true.
Proof. unfold has_prefix. induction s as [|a s IH]; [done|]. cbn. destruct (ascii_dec a a); [done|congruence]. Qed.

Lemma title_relation_spec title b aliases :
  ((title_relation title b aliases).1 = true ↔ title ∈ aliases ∧ usable title) ∧
  ((title_relation title b aliases).2 = true ↔
     b = true ∨ ∃ alias, alias ∈ aliases ∧ usable alias ∧ (has_prefix title alias = true ∨ has_suffix title alias = true)).
Proof.
  revert b. induction aliases as [|alias aliases IH]; intros b; cbn [title_relation].
  { cbn. set_solver. }
  destruct (bool_decide (alias = "") || bool_decide (length (runes alias) < 4)) eqn:Hu.
  - assert (¬ usable alias) as Hn. { unfold usable. intros [? ?]. apply orb_true_iff in Hu as [Hu|Hu]; apply bool_decide_eq_true in Hu; [done|lia]. }
    destruct (IH b) as [-> ->]. split.
    + split; [intros [? ?]; split; [by right|done]|]. intros [Hin Hut]. apply elem_of_cons in Hin as [E|?]; [by rewrite E in Hut|done].
    + split; (intros [?|(a & Ha & ? & ?)]; [by left|]); right; exists a; (split; [|done]); [by right|].
      apply elem_of_cons in Ha as [->|?]; done.
  - apply orb_false_iff in Hu as [Hu1 Hu2]. apply bool_decide_eq_false in Hu1, Hu2.
    assert (usable alias) as Hn by (unfold usable; split; [done|lia]). destruct (bool_decide (title = alias)) eqn:Ht.
    + apply bool_decide_eq_true in Ht as ->. cbn [fst snd]. split; (split; [|done]); intros _; [split; [by left|done]|].
      right. exists alias. split_and!; [by left|done|]. left. apply prefix_refl.
    + apply bool_decide_eq_false in Ht. destruct (IH (b || has_prefix title alias || has_suffix title alias)) as [-> ->]. split.
      * split; [intros [? ?]; split; [by right|done]|]. intros [Hin Hut]. by apply elem_of_cons in Hin as [?|?].
      * rewrite !orb_true_iff. split.
        -- intros [[[?|?]|?]|(a & Ha & ? & ?)]; [by left|right; exists alias; split_and!; auto; by left..|].
           right. exists a. split; [by right|done].
        -- intros [?|(a & [->|Ha]%elem_of_cons & Hua & Hr)]; [by left; left; left|left|right; by exists a].
           destruct Hr as [?|?]; [left; by right|by right].
Qed.

Lemma relation_exact s title :
  ((importTitleRelation title (aliases_of s)).1 = true ↔ same_title s title) ∧
  ((importTitleRelation title (aliases_of s)).2 = true ↔ related s title).
Proof.
  unfold importTitleRelation, same_title, related. pose proof (title_relation_spec title false (aliases_of s)) as [-> ->].
  split; [done|]. split; [by intros [?|?]|by right].
Qed.

Lemma signs_spec s i :
  match video_signs s i with Some n => agrees_with s i ∧ (0 < n ↔ proves s i) | None => ¬ agrees_with s i end.
Proof.
  unfold video_signs, agrees_with, proves. cbv zeta.
  destruct (bool_decide (length (episodeKeysFromName (CrossDriveItem.Name i)) = 0)) eqn:Hk.
  { apply bool_decide_eq_true, nil_length_inv in Hk. by intros [? _]. }
  apply bool_decide_eq_false in Hk. set (label := parseAutoFillLabel _). set (year := canonical_year s).
  pose proof (relation_exact s (li_title label)) as [He Hr]. destruct (importTitleRelation _ _) as [exact rel]. cbn [fst snd] in *.
  destruct (negb rel || _) eqn:Hbad.
  - intros (_ & Hrel & Hy). apply Hr in Hrel as ->. cbn in Hbad. bools.
    repeat match goal with H : negb _ = true |- _ => apply negb_true_iff in H end. lia.
  - apply orb_false_iff in Hbad as [Hrel%negb_false_iff Hy]. split.
    + split_and!; [by intros E; rewrite E in Hk|by apply Hr|].
      apply andb_false_iff in Hy as [Hy|Hy]; [apply andb_false_iff in Hy as [Hy|Hy]|]; bools; auto.
    + set (t := trim_space (tmdb_of s)). set (c := contains _ _).
      assert ((0 < (if exact && negb (Z.eqb year 0) && Z.eqb (li_year label) year then 1 else 0) +
                   (if negb (bool_decide (t = "")) && c then 1 else 0)) ↔
              (exact = true ∧ year ≠ 0%Z ∧ li_year label = year ∨ t ≠ "" ∧ c = true)) as ->; [|by rewrite He].
      destruct exact, (Z.eqb_spec year 0), (Z.eqb_spec (li_year label) year), (bool_decide_reflect (t = "")), c; cbn; intuition (try congruence; try lia).
Qed.

Lemma count_spec s videos n :
  match count_signs s videos n with
  | Some m => Forall (agrees_with s) videos ∧ n ≤ m ∧ (n < m ↔ Exists (proves s) videos)
  | None => ¬ Forall (agrees_with s) videos
  end.
Proof.
  revert n. induction videos as [|i videos IH]; intros n; cbn [count_signs].
  { split_and!; [constructor|done|]. rewrite Exists_nil. lia. }
  pose proof (signs_spec s i) as Hi. destruct (video_signs s i) as [k|]; [|by intros [? _]%Forall_cons]. destruct Hi as [Ha Hp].
  specialize (IH (n + k)). destruct (count_signs _ _ _) as [m|]; [|by intros [_ ?]%Forall_cons].
  destruct IH as (Hf & Hle & Hex). split_and!; [by constructor|lia|]. rewrite Exists_cons, <-Hp, <-Hex. lia.
Qed.

Lemma series_matches s videos :
  mediaIngestSeriesMatches s videos = true ↔ Forall (agrees_with s) videos ∧ Exists (proves s) videos.
Proof.
  unfold mediaIngestSeriesMatches. pose proof (count_spec s videos 0) as Hc. destruct (count_signs _ _ _) as [m|]; [|by split; [done|intros [? _]]].
  destruct Hc as (Hf & _ & Hex). rewrite Nat.ltb_lt, Hex. split; [done|by intros [_ ?]].
Qed.
End Series.

(** * Listings *)

(** The requests of a complete listing of a folder of 115, page after page, and the objects
    it gives: those of the pages, each once. *)
Inductive shown_from (cid : string) : Z → list DriveFile → history → list DriveFile → Prop :=
| sf_last acc offset limit page total files :
    page = [] ∨ (total ≤ offset + Z.of_nat (length page))%Z →
    shown_from cid offset files [AList "115" acc (or_root cid) offset limit (Ok (page, total))] (add_new files page)
| sf_more acc offset limit page total files l result :
    shown_from cid (offset + 200) (add_new files page) l result →
    shown_from cid offset files (AList "115" acc (or_root cid) offset limit (Ok (page, total)) :: l) result.
(** [l] has a complete listing of the folder, with these objects. *)
Definition shown (cid : string) (l : history) (files : list DriveFile) : Prop :=
  ∃ l0 l1 l2, l = l0 ++ l1 ++ l2 ∧ shown_from cid 0 [] l1 files.

Lemma shown_l cid l l' files : shown cid l files → shown cid (l ++ l') files.
Proof. intros (l0 & l1 & l2 & -> & Hs). exists l0, l1, (l2 ++ l'). by rewrite <-!app_assoc. Qed.
Lemma shown_r cid l l' files : shown cid l' files → shown cid (l ++ l') files.
Proof. intros (l0 & l1 & l2 & -> & Hs). exists (l ++ l0), l1, l2. by rewrite <-!app_assoc. Qed.
Lemma shown_all cid l files : shown_from cid 0 [] l files → shown cid l files.
Proof. intros Hs. exists [], l, []. by rewrite app_nil_r. Qed.

(** The requests of a step that only lists. *)
Definition lists (w w' : World Pipe) (l : history) : Prop := pi_log (w_db w') = pi_log (w_db w) ++ l ∧ Forall listing_request l.
Lemma lists_nil w w' : same_log (w_db w) (w_db w') → lists w w' [].
Proof. intros E. split; [by rewrite app_nil_r|constructor]. Qed.
Lemma lists_app w w1 w2 l l' : lists w w1 l → lists w1 w2 l' → lists w w2 (l ++ l').
Proof. intros [E F] [E' F']. split; [by rewrite E', E, app_assoc|by apply Forall_app]. Qed.

Section Listings.
Context `{Env} {ctx : Ctx} `{Sleep} `{Remote} `{Providers}.
Implicit Types w : World Pipe.

Lemma silent_provider p id : keeps same_log (getAccountForProvider p id).
Proof.
  intros w. eapply wp_mono; [apply (keeps_getAccountForProvider (λ _, False) any_db); [by intros; apply keeps_any]|].
  intros r w' [(l & E & F) _]. destruct l; [by rewrite app_nil_r in E|by inversion F].
Qed.

Lemma list_all_effect acc cid rounds offset files w :
  (0 ≤ offset)%Z →
  wp (list_all "115" acc cid rounds offset files) w (λ r w', ∃ l, lists w w' l ∧ ∀ result, r = Ok result → shown_from cid offset files l result).
Proof.
  revert offset files w. induction rounds as [|rounds IH]; intros offset files w Hoff; cbn [list_all].
  { apply wp_lift. exists []. split; [by apply lists_nil|done]. }
  apply wp_bind. unfold ListProviderFiles. apply wp_bind. eapply wp_mono; [apply silent_provider|].
  intros [a|e] w1 Hs; [|exists []; split; [by apply lists_nil|done]].
  apply wp_bind, wp_lift. cbn. eapply wp_mono; [apply wp_and; [by apply list_page|apply (keeps_listFiles listing_request any_db); [by intros; apply keeps_any|done]]|].
  intros [[page total]|e] w2 [[_ Hp] [(l & E & F) _]].
  2: { exists l. split; [split; [by rewrite E, Hs|done]|done]. }
  destruct (Hp _ _ eq_refl) as (acc' & limit & El). rewrite Hs in El. clear E F Hp. cbv zeta.
  assert (lists w w2 [AList "115" acc' (or_root cid) offset limit (Ok (page, total))]) as Hl by (split; [exact El|constructor; [exact I|constructor]]).
  destruct (_ && _); [apply wp_lift; eexists; split; [exact Hl|done]|].
  destruct (_ || _) eqn:Hend.
  - apply wp_ret. eexists. split; [exact Hl|]. intros result [= <-]. constructor.
    apply orb_true_iff in Hend as [Hn|Hn]; [apply bool_decide_eq_true, nil_length_inv in Hn; by left|right; lia].
  - eapply wp_mono; [apply IH; lia|]. intros r w3 (l' & Hl' & Hr). eexists. split; [by eapply lists_app|]. intros result ->. by constructor; apply Hr.
Qed.

Lemma listed_effect acc cid w :
  wp (listAllProviderFiles "115" acc cid) w (λ r w', ∃ l, lists w w' l ∧ ∀ files, r = Ok files → shown_from cid 0 [] l files).
Proof. by apply list_all_effect. Qed.

Lemma wait_effect acc cid id name i attempts w :
  wp (wait_ingest acc cid id name i attempts) w (λ r w', ∃ l, lists w w' l ∧
    (r = Ok true → ∃ files f, shown cid l files ∧ f ∈ files ∧ df_FileID f = id ∧ df_ParentID f = cid ∧ df_Name f = name ∧ same_content i f = true)).
Proof.
  revert w. induction attempts as [|attempts IH]; intros w; cbn [wait_ingest].
  { apply wp_ret. exists []. split; [by apply lists_nil|done]. }
  apply wp_bind. eapply wp_mono; [apply listed_effect|]. intros [files|e] w1 (l & Hl & Hf); [|by exists l].
  specialize (Hf _ eq_refl). destruct (existsb _ files) eqn:Hx.
  - apply wp_ret. exists l. split; [done|]. intros _. apply existsb_exists in Hx as (f & Hin & Hb). bools.
    exists files, f. split_and!; try done; [by apply shown_all|by apply list_elem_of_In].
  - apply wp_bind. apply wp_mono with (P := λ (r : res unit) w', same_log (w_db w1) (w_db w')).
    { destruct (bool_decide _); [by apply wp_ret|]. apply wp_sleep; [done|by intros]. }
    intros [[]|e] w2 Hs; [|exists l; split; [|done]; destruct Hl; split; [by rewrite Hs|done]].
    assert (lists w w2 l) as Hl2 by (destruct Hl; split; [by rewrite Hs|done]).
    eapply wp_mono; [apply IH|]. intros r w3 (l' & Hl' & Hr). exists (l ++ l'). split; [by eapply lists_app|]. intros ->.
    destruct (Hr eq_refl) as (files' & f & Hsh & ?). exists files', f. split; [by apply shown_r|done].
Qed.
End Listings.

(** * One file *)

(** The request of a renaming and of a move of the item's file. *)
Definition renaming (i : CrossDriveItem.t) (name : string) (ans : res unit) (a : action) : Prop :=
  ∃ acc, a = ARename acc (trim_space (destination i)) (trim_space name) ans.
Definition moving (i : CrossDriveItem.t) (cid : string) (ans : res unit) (a : action) : Prop :=
  ∃ acc, a = AMove acc [trim_space (destination i)] (trim_space cid) ans.

(** The item's file, in its place in the staging folder, or in the folder of the series. *)
Definition staged (i : CrossDriveItem.t) (cid : string) (l : history) (files : list DriveFile) (f : DriveFile) : Prop :=
  shown cid l files ∧ f ∈ files ∧ df_FileID f = destination i ∧ df_ParentID f = cid ∧ same_content i f = true.

(** What follows when the file is in the folder with the name [current]: the renaming, if
    needed, and the listings that wait until the file shows under its name. *)
Definition renamed_to (i : CrossDriveItem.t) (current name : string) (l : history) : Prop :=
  if bool_decide (current = name) then l = [] else ∃ a, renaming i name (Ok tt) a ∧ l = [a].
Inductive placed (i : CrossDriveItem.t) (cid current name status : string) : res mediaIngestMove → history → Prop :=
| pl_unasked e : current ≠ name → placed i cid current name status (Err e) []
| pl_unrenamed e e' a : current ≠ name → renaming i name (Err e') a → placed i cid current name status (Err e) [a]
| pl_unseen e renamed waited :
    renamed_to i current name renamed → Forall listing_request waited → placed i cid current name status (Err e) (renamed ++ waited)
| pl_settled renamed waited files f :
    renamed_to i current name renamed → Forall listing_request waited → staged i cid waited files f → df_Name f = name →
    placed i cid current name status
      (Ok (mkIngestMove (destination i) (CrossDriveItem.Name i) name cid (if bool_decide (current = name) then status else "moved_and_renamed")))
      (renamed ++ waited).

(** What moving a file into the series' folder asks for, and what it says. *)
Inductive item_log (i : CrossDriveItem.t) (sourceCID targetCID targetName : string) : res mediaIngestMove → history → Prop :=
| il_refused e l : Forall listing_request l → item_log i sourceCID targetCID targetName (Err e) l
| il_duplicate looked files f name :
    Forall listing_request looked → shown targetCID looked files → free_name i targetName files = Ok (name, true) →
    f ∈ files → df_Name f = name → df_FileID f ≠ destination i → same_content i f = true →
    item_log i sourceCID targetCID targetName
      (Ok (mkIngestMove (destination i) (CrossDriveItem.Name i) name targetCID "duplicate_retained_in_staging")) looked
| il_placed looked files f r rest :
    Forall listing_request looked → staged i targetCID looked files f → placed i targetCID (df_Name f) targetName "already_organized" r rest →
    item_log i sourceCID targetCID targetName r (looked ++ rest)
| il_moved looked sources files f name a ans r rest :
    Forall listing_request looked → staged i sourceCID looked sources f → df_Name f = CrossDriveItem.Name i →
    shown targetCID looked files → destination i ∉ df_FileID <$> files → free_name i targetName files = Ok (name, false) →
    moving i targetCID ans a →
    match ans with Ok _ => placed i targetCID (df_Name f) name "moved" r rest | Err _ => rest = [] ∧ ∃ e, r = Err e end →
    item_log i sourceCID targetCID targetName r (looked ++ a :: rest).

Lemma free_duplicate i targetName files name :
  free_name i targetName files = Ok (name, true) →
  ∃ f, f ∈ files ∧ df_Name f = name ∧ df_FileID f ≠ destination i ∧ same_content i f = true.
Proof.
  revert targetName. induction files as [|f files IH]; intros targetName; cbn [free_name]; [done|].
  assert (∀ n, free_name i n files = Ok (name, true) → ∃ g, g ∈ f :: files ∧ df_Name g = name ∧ df_FileID g ≠ destination i ∧ same_content i g = true) as Hn.
  { intros n Hn. destruct (IH _ Hn) as (g & Hg & ?). exists g. split; [by right|done]. }
  destruct (_ || _) eqn:Hs; [apply Hn|]. apply orb_false_iff in Hs as [Hname Hid]. apply negb_false_iff, bool_decide_eq_true in Hname.
  apply bool_decide_eq_false in Hid. destruct (same_content i f) eqn:Hc; [|destruct (Nat.ltb _ _); [done|apply Hn]].
  intros [= ->]. exists f. split_and!; [by left|done..].
Qed.

Section Moves.
Context `{Env} {ctx : Ctx} `{Sleep} `{Remote} `{Providers}.
Implicit Types w : World Pipe.

Lemma rename_provider acc id name w :
  wp (RenameProvider acc id name) w (λ r w', (same_log (w_db w) (w_db w') ∧ ∃ e, r = Err e) ∨
    ∃ a, pi_log (w_db w') = pi_log (w_db w) ++ [ARename a (trim_space id) (trim_space name) r]).
Proof.
  unfold RenameProvider. apply wp_bind. eapply wp_mono; [apply silent_provider|]. intros [a|e] w1 Hs; [|left; split; [done|by eexists]].
  unfold RenameCtx. cbv zeta. destruct (_ || _); [apply wp_lift; left; split; [done|by eexists]|].
  apply wp_bind. eapply wp_mono; [apply silent_account|]. intros [a'|e] w2 Hs2; [|left; split; [by etrans|by eexists]].
  apply wp_call. intros n. cbv zeta. right. exists a'.1. cbn. by rewrite Hs2, Hs.
Qed.
Lemma move_provider acc id cid w :
  wp (MoveProvider acc [id] cid) w (λ r w', (same_log (w_db w) (w_db w') ∧ ∃ e, r = Err e) ∨
    ∃ a, pi_log (w_db w') = pi_log (w_db w) ++ [AMove a [trim_space id] (trim_space cid) r]).
Proof.
  unfold MoveProvider. apply wp_bind. eapply wp_mono; [apply silent_provider|]. intros [a|e] w1 Hs; [|left; split; [done|by eexists]].
  apply wp_move; [intros e w2 Hs2; left; split; [by etrans|by eexists]|]. intros a' w2 r E. right. exists a'. by rewrite E, Hs.
Qed.

Lemma settle_effect acc cid i current name status w :
  wp (settle_item acc cid i current name status) w (λ r w', ∃ l, pi_log (w_db w') = pi_log (w_db w) ++ l ∧
    placed i cid current name (if bool_decide (status = "") then "already_organized" else status) r l).
Proof.
  unfold settle_item. cbv zeta. apply wp_bind.
  apply wp_mono with (P := λ r w', ∃ l, pi_log (w_db w') = pi_log (w_db w) ++ l ∧ match r with
    | Ok st => renamed_to i current name l ∧ (if bool_decide (st = "") then "already_organized" else st) =
        if bool_decide (current = name) then (if bool_decide (status = "") then "already_organized" else status) else "moved_and_renamed"
    | Err e => placed i cid current name (if bool_decide (status = "") then "already_organized" else status) (Err e) l
    end).
  { destruct (bool_decide (current = name)) eqn:Hn; cbn [negb].
    - apply wp_ret. exists []. rewrite app_nil_r. split; [done|]. unfold renamed_to. by rewrite Hn.
    - apply bool_decide_eq_false in Hn. apply wp_bind, wp_wrap. eapply wp_mono; [apply rename_provider|].
      intros [[]|e] w1 [[Hs [e' He]]|[a E]]; [done| | |]; cbn [wrap_err].
      + apply wp_ret. eexists. split; [exact E|]. unfold renamed_to. rewrite bool_decide_false by done. split; [|done]. by eexists; split; [by exists a|].
      + exists []. rewrite app_nil_r. split; [done|by constructor].
      + eexists. split; [exact E|]. econstructor; [done|by exists a]. }
  intros [st|e] w1 (l & E & Hl); [|by exists l]. destruct Hl as [Hren Hstat].
  apply wp_bind. eapply wp_mono; [apply wait_effect|]. intros [ok|e] w2 (l' & [E' F'] & Hok).
  2: { exists (l ++ l'). rewrite E', E, app_assoc. split; [done|]. by constructor. }
  destruct ok; cbn [negb]; [|apply wp_lift; exists (l ++ l'); rewrite E', E, app_assoc; split; [done|by constructor]].
  destruct (Hok eq_refl) as (files & f & Hsh & Hin & Hid & Hp & Hname & Hc). apply wp_ret. exists (l ++ l').
  rewrite E', E, app_assoc. split; [done|]. rewrite Hstat. by eapply pl_settled; [| |split_and!|].
Qed.

Lemma found_by_id id files :
  match find (with_id id) files with Some f => f ∈ files ∧ df_FileID f = id | None => id ∉ df_FileID <$> files end.
Proof.
  destruct (find _ _) as [f|] eqn:Hf; [|by apply id_absent]. apply found_in in Hf as [Hin Hid]. by apply bool_decide_eq_true in Hid.
Qed.

Lemma ingest_item_effect acc sourceCID targetCID i targetName w :
  wp (moveIngestItem acc sourceCID targetCID i targetName) w (λ r w', ∃ l, pi_log (w_db w') = pi_log (w_db w) ++ l ∧
    item_log i sourceCID targetCID targetName r l).
Proof.
  unfold moveIngestItem. apply wp_bind. eapply wp_mono; [apply listed_effect|]. intros [sources|e] w1 (l1 & [E1 F1] & Hs).
  2: { exists l1. split; [done|by constructor]. }
  specialize (Hs _ eq_refl). apply wp_bind. eapply wp_mono; [apply listed_effect|]. intros [files|e] w2 (l2 & Hl2 & Ht).
  all: pose proof (lists_app w w1 w2 l1 l2 (conj E1 F1) Hl2) as [E F].
  2: { exists (l1 ++ l2). split; [done|by constructor]. }
  specialize (Ht _ eq_refl). assert (shown targetCID (l1 ++ l2) files) as Hsh by (by apply shown_r, shown_all).
  assert (∀ e, item_log i sourceCID targetCID targetName (Err e) (l1 ++ l2)) as Href by (intros; by constructor).
  pose proof (found_by_id (destination i) files) as Hcur. destruct (find _ files) as [f|].
  - destruct Hcur as [Hin Hid]. destruct (negb (bool_decide (df_ParentID f = targetCID)) || negb (same_content i f)) eqn:Hbad; [apply wp_lift; by exists (l1 ++ l2)|].
    bools. eapply wp_mono; [apply settle_effect|]. intros r w3 (l & E3 & Hp). exists ((l1 ++ l2) ++ l). rewrite E3, E, <-app_assoc. split; [done|].
    by eapply il_placed; [|split_and!|].
  - cbv zeta. pose proof (found_by_id (destination i) sources) as Hsrc. destruct (find _ sources) as [f|]; [|apply wp_lift; by exists (l1 ++ l2)].
    destruct Hsrc as [Hin Hid]. destruct (_ || _ || _) eqn:Hbad; [apply wp_lift; by exists (l1 ++ l2)|]. bools.
    apply wp_bind, wp_lift. destruct (free_name i targetName files) as [[name [|]]|e] eqn:Hfree; [| |by exists (l1 ++ l2)].
    + apply wp_ret. exists (l1 ++ l2). split; [done|]. destruct (free_duplicate _ _ _ _ Hfree) as (g & Hg & Hn & Hgid & Hc). by eapply il_duplicate.
    + apply wp_bind, wp_wrap. eapply wp_mono; [apply move_provider|]. intros r w3 [[Hs3 [e ->]]|[a E3]].
      { exists (l1 ++ l2). cbn [wrap_err]. by rewrite Hs3. }
      assert (staged i sourceCID (l1 ++ l2) sources f) as Hst by (split_and!; try done; by apply shown_l, shown_all).
      destruct r as [[]|e]; cbn [wrap_err].
      * eapply wp_mono; [apply settle_effect|]. intros r w4 (l & E4 & Hp). exists ((l1 ++ l2) ++ AMove a [trim_space (destination i)] (trim_space targetCID) (Ok tt) :: l).
        rewrite E4, E3, E, <-!app_assoc. split; [done|]. rewrite app_assoc. eapply (il_moved _ _ _ _ _ _ _ _ _ _ (Ok tt)); try done. by exists a.
      * exists ((l1 ++ l2) ++ [AMove a [trim_space (destination i)] (trim_space targetCID) (Err e)]). rewrite E3, E, <-app_assoc. split; [done|].
        eapply (il_moved _ _ _ _ _ _ _ _ _ _ (Err e)); try done; [by exists a|]. split; [done|by eexists].
Qed.
End Moves.

(** * The task *)

(** Requests that change what a drive holds. *)
Definition drive_change (a : action) : Prop :=
  match a with
  | AMkdir _ _ _ _ _ | AShareSave _ _ _ _ _ _ _ | ANas _ _ | AInit _ _ _ | AOssStart _ _ _ | AOssPart _ _ _ _ | AOssComplete _ _ _ _ _
  | AOssAbort _ _ | AReceive _ _ _ _ _ _ | ARename _ _ _ _ | AMove _ _ _ _ | ADelete _ _ _ => True
  | _ => False
  end.
(** Every change of a drive is justified by the requests made before it. *)
Definition guarded (G : history → action → Prop) (l : history) : Prop := ∀ l1 a l2, l = l1 ++ a :: l2 → drive_change a → G l1 a.
Definition quiet (l : history) : Prop := Forall (λ a, ¬ drive_change a) l.

Lemma guarded_quiet G l : quiet l → guarded G l.
Proof. intros F l1 a l2 -> Ha. apply Forall_app in F as [_ F]. by inversion F. Qed.
Lemma guarded_app (G : history → action → Prop) l l' :
  (∀ l1 a, G l1 a → G (l ++ l1) a) → guarded G l → guarded G l' → guarded G (l ++ l').
Proof.
  intros HG Hl Hl' l1 a l2 E Ha. apply app_eq_inv in E as [(k & -> & Hk)|(k & -> & Hk)].
  - destruct k as [|b k]; simplify_eq/=; [|by eapply Hl].
    pose proof (HG [] _ (Hl' [] _ _ eq_refl Ha)) as Hg. by rewrite !app_nil_r in Hg.
  - apply HG. by eapply Hl'.
Qed.
Lemma guarded_mono (G G' : history → action → Prop) l : (∀ l1 a, G l1 a → G' l1 a) → guarded G l → guarded G' l.
Proof. intros HG Hl l1 a l2 E Ha. by eapply HG, Hl. Qed.
Lemma lists_quiet l : Forall listing_request l → quiet l.
Proof. intros F. eapply Forall_impl; [exact F|]. intros [] Ha Hc; done. Qed.
Lemma gets_quiet l : Forall is_get l → quiet l.
Proof. intros F. eapply Forall_impl; [exact F|]. intros [] Ha Hc; done. Qed.

(** The name with the digest of the item. *)
Definition with_digest (i : CrossDriveItem.t) (name : string) : string :=
  trim_suffix name (ext name) +:+ " - " +:+ sha_prefix i +:+ ext name.
Inductive digested (i : CrossDriveItem.t) (targetName : string) : string → Prop :=
| dg_none : digested i targetName targetName
| dg_more name : digested i targetName name → digested i targetName (with_digest i name).
Definition other_named (i : CrossDriveItem.t) (name : string) (f : DriveFile) : Prop := df_Name f = name ∧ df_FileID f ≠ destination i.
(** How a name is kept apart from the files listed: it is the canonical name, which no other
    file has; or it has the digest because a file of another content had the name before it,
    and no other file listed after that one has it. *)
Definition apart (i : CrossDriveItem.t) (targetName : string) (files : list DriveFile) (name : string) : Prop :=
  (name = targetName ∧ Forall (λ f, ¬ other_named i name f) files) ∨
  ∃ before f after taken, files = before ++ f :: after ∧ digested i targetName taken ∧ name = with_digest i taken ∧
    other_named i taken f ∧ same_content i f = false ∧ Forall (λ f, ¬ other_named i name f) after.

Lemma free_name_apart i targetName files name : free_name i targetName files = Ok (name, false) → apart i targetName files name.
Proof.
  assert (∀ files taken, digested i targetName taken → free_name i taken files = Ok (name, false) →
    (name = taken ∧ Forall (λ f, ¬ other_named i name f) files) ∨ ∃ mid f after taken', files = mid ++ f :: after ∧
      digested i targetName taken' ∧ name = with_digest i taken' ∧ other_named i taken' f ∧ same_content i f = false ∧
      Forall (λ f, ¬ other_named i name f) after) as Hgen.
  { clear files. intros files. induction files as [|f files IH]; intros taken Hd; cbn [free_name]; [intros [= <-]; left; by split|].
    destruct (_ || _) eqn:Hother.
    - intros Hr. destruct (IH _ Hd Hr) as [[-> Hall]|(mid & g & after & t & -> & ?)]; [left; split; [done|]|right; by exists (f :: mid), g, after, t].
      constructor; [|done]. intros [Hn Hid]. apply orb_true_iff in Hother as [Hb|Hb]; bools; congruence.
    - apply orb_false_iff in Hother as [Hn%negb_false_iff%bool_decide_eq_true_1 Hid%bool_decide_eq_false].
      destruct (same_content i f) eqn:Hsame; [by intros [=]|]. destruct (Nat.ltb _ _); [done|]. cbv zeta. fold (with_digest i taken).
      intros Hr. right. destruct (IH _ (dg_more _ _ _ Hd) Hr) as [[-> Hall]|(mid & g & after & t & -> & ?)].
      + by exists [], f, files, taken.
      + by exists (f :: mid), g, after, t. }
  intros Hr. destruct (Hgen files targetName (dg_none _ _) Hr) as [?|?]; [by left|by right].
Qed.

(** A change that brings the item into the folder: the move of its file, seen unchanged in the
    staging folder, when the folder of the series does not hold it, or its renaming: of a file
    seen there, to its canonical name, whoever has it, or of one just moved there, to a name
    apart from the files listed there. *)
Definition item_guard (i : CrossDriveItem.t) (sourceCID targetCID targetName : string) (l : history) (a : action) : Prop :=
  match a with
  | AMove _ ids cid _ => ids = [trim_space (destination i)] ∧ cid = trim_space targetCID ∧
      (∃ sources f, staged i sourceCID l sources f ∧ df_Name f = CrossDriveItem.Name i) ∧
      ∃ files name, shown targetCID l files ∧ destination i ∉ df_FileID <$> files ∧ apart i targetName files name
  | ARename _ id name _ => id = trim_space (destination i) ∧ ∃ files new, name = trim_space new ∧
      ((∃ f, staged i targetCID l files f ∧ new = targetName) ∨
       (shown targetCID l files ∧ apart i targetName files new ∧
        ∃ acc, AMove acc [trim_space (destination i)] (trim_space targetCID) (Ok tt) ∈ l))
  | _ => False
  end.

Lemma staged_r i cid l l' files f : staged i cid l' files f → staged i cid (l ++ l') files f.
Proof. intros (Hs & ?). split; [by apply shown_r|done]. Qed.
Lemma staged_l i cid l l' files f : staged i cid l files f → staged i cid (l ++ l') files f.
Proof. intros (Hs & ?). split; [by apply shown_l|done]. Qed.
Lemma item_guard_r i s t n l l' a : item_guard i s t n l' a → item_guard i s t n (l ++ l') a.
Proof.
  destruct a; try done; cbn [item_guard].
  - intros (-> & fs & new & -> & [(f & Hf & ->)|(Hs & Hf & acc & Ha)]); (split; [done|]); exists fs; eexists; (split; [done|]); [left|right].
    + exists f. split; [by apply staged_r|done].
    + split_and!; [by apply shown_r|done|]. exists acc. apply elem_of_app. by right.
  - intros (-> & -> & (sources & f & Hf & Hn) & fs & name & Hs & ?). split_and!; [done|done| |].
    + exists sources, f. split; [by apply staged_r|done].
    + exists fs, name. split; [by apply shown_r|done].
Qed.

(** A change after the file is in place is its renaming, and the first request. *)
Lemma placed_change i cid current name status r l l1 a l2 :
  placed i cid current name status r l → l = l1 ++ a :: l2 → drive_change a → l1 = [] ∧ current ≠ name ∧ ∃ ans, renaming i name ans a.
Proof.
  assert (∀ renamed waited, renamed_to i current name renamed → Forall listing_request waited → renamed ++ waited = l1 ++ a :: l2 →
    drive_change a → l1 = [] ∧ current ≠ name ∧ ∃ ans, renaming i name ans a) as Hren.
  { intros renamed waited Hr F E Ha. unfold renamed_to in Hr. destruct (bool_decide _) eqn:Hb.
    - subst renamed. cbn in E. subst waited. apply lists_quiet, Forall_app in F as [_ F]. by inversion F.
    - apply bool_decide_eq_false in Hb. destruct Hr as (b & Hb' & ->). destruct l1 as [|c l1]; cbn in E; injection E as <- E.
      + split_and!; [done|done|by eexists].
      + subst waited. apply lists_quiet, Forall_app in F as [_ F]. by inversion F. }
  destruct 1 as [e Hne|e e' b Hne Hb|e renamed waited Hr F|renamed waited f files Hr F Hs Hn]; intros E Ha.
  - by destruct l1.
  - destruct l1 as [|c l1]; [|by destruct l1]. injection E as <- <-. split_and!; [done|done|by eexists].
  - by eapply Hren.
  - by eapply Hren.
Qed.

Lemma item_guarded i s t n r l : item_log i s t n r l → guarded (item_guard i s t n) l.
Proof.
  destruct 1 as [e l F|looked files f name F Hs Hf Hin Hn Hid Hc|looked files f r rest F Hs Hp
                |looked sources files f name a ans r rest F Hs Hn Hsh Hnot Hfree Ha Hr].
  - by apply guarded_quiet, lists_quiet.
  - by apply guarded_quiet, lists_quiet.
  - intros l1 b l2 E Hb. apply app_eq_inv in E as [(k & -> & Hk)|(k & -> & Hk)].
    + destruct k as [|c k]; [|by apply lists_quiet, Forall_app in F as [_ F]; inversion F; simplify_eq/=].
      rewrite app_nil_r in *. cbn in Hk. destruct (placed_change _ _ _ _ _ _ _ [] b l2 Hp (eq_sym Hk) Hb) as (_ & _ & ans & acc & ->).
      split; [done|]. exists files, n. split; [done|]. left. by exists f.
    + destruct (placed_change _ _ _ _ _ _ _ _ _ _ Hp Hk Hb) as (-> & _ & ans & acc & ->). rewrite app_nil_r.
      split; [done|]. exists files, n. split; [done|]. left. by exists f.
  - assert (item_guard i s t n looked a) as Hmove.
    { destruct Ha as [acc ->]. split_and!; [done|done|by exists sources, f|]. exists files, name. split_and!; [done|done|by apply free_name_apart]. }
    intros l1 b l2 E Hb. apply app_eq_inv in E as [(k & -> & Hk)|(k & -> & Hk)].
    + destruct k as [|c k]; [|by apply lists_quiet, Forall_app in F as [_ F]; inversion F; simplify_eq/=].
      rewrite app_nil_r in *. injection Hk as -> _. exact Hmove.
    + destruct k as [|c k]; injection Hk as -> Hk; [by rewrite app_nil_r|]. destruct Ha as [acc ->]. destruct ans as [[]|e].
      2: { destruct Hr as [-> _]. by destruct k. }
      destruct (placed_change _ _ _ _ _ _ _ _ _ _ Hr Hk Hb) as (-> & _ & ans & acc' & ->).
      split; [done|]. exists files, name. split; [done|]. right. split_and!; [by apply shown_l|by apply free_name_apart|].
      exists acc. apply elem_of_app. right. by left.
Qed.

Section Task.
Context `{Env} {ctx : Ctx} `{Sleep} `{Remote} `{Providers} `{Local} `{Names} `{Ranging} `{Workers} `{Unicode} `{CidMap}.
Context `{Native} `{EmbyJson} `{PathEscape} (rounds : nat).
Implicit Types w : World Pipe.

(** ** The candidate *)

Definition eligible (cids : gmap string string) (library : EmbyLibrary) : Prop :=
  lb_Collection library = "tvshows" ∧ cid_of cids library ≠ "".
(** A page of the series of a library. *)
Definition items_page (start : Z) (x : list raw_item * Z) (l : history) : Prop :=
  ∃ q a, made "GET" "/Items" q ∧ l = [ANative q (Ok a)] ∧ ej_items (na_body a) = Ok x.
(** The libraries with the series Emby listed for them: every library of series with a
    configured folder is listed in full. *)
Inductive series_asked (cids : gmap string string) : list (EmbyLibrary * list EmbyMediaItem) → history → Prop :=
| sa_none : series_asked cids [] []
| sa_skipped library found l : ¬ eligible cids library → series_asked cids found l → series_asked cids ((library, []) :: found) l
| sa_listed library pages found l l' :
    eligible cids library → paged 0 pages → paged_log items_page 0 pages l → series_asked cids found l' →
    series_asked cids ((library, series_item <$> concat pages.*1) :: found) (l ++ l').
Definition candidates_in (cids : gmap string string) (videos : list CrossDriveItem.t) (found : list (EmbyLibrary * list EmbyMediaItem))
    : list mediaIngestCandidate :=
  x ← found; mkIngestCandidate x.1 (cid_of cids x.1) <$> filter (λ s, proper_series x.1 videos s = true) x.2.
(** The candidates among all series of Emby. *)
Definition resolved (cids : gmap string string) (videos : list CrossDriveItem.t) (matches : list mediaIngestCandidate) (l : history) : Prop :=
  ∃ q a raw found l', l = ANative q (Ok a) :: l' ∧ made "GET" "/Library/VirtualFolders" q ∧ ej_libraries (na_body a) = Ok raw ∧
    found.*1 = library_of <$> raw ∧ series_asked cids found l' ∧ matches = candidates_in cids videos found.

Definition gets_by (w w' : World Pipe) (l : history) : Prop := pi_log (w_db w') = pi_log (w_db w) ++ l ∧ Forall is_get l.
Lemma gets_by_nil w w' : same_log (w_db w) (w_db w') → gets_by w w' [].
Proof. intros E. split; [by rewrite app_nil_r|constructor]. Qed.
Lemma gets_by_app w w1 w2 l l' : gets_by w w1 l → gets_by w1 w2 l' → gets_by w w2 (l ++ l').
Proof. intros [E F] [E' F']. split; [by rewrite E', E, app_assoc|by apply Forall_app]. Qed.

Lemma series_effect library w :
  wp (finished_wait (ListSeriesCtx rounds library)) w (λ r w', ∃ l, gets_by w w' l ∧ ∀ series, r = Ok series →
    ∃ pages, paged 0 pages ∧ paged_log items_page 0 pages l ∧ series = series_item <$> concat pages.*1).
Proof.
  unfold finished_wait, ListSeriesCtx. cbv zeta. apply wp_bind.
  destruct (bool_decide _); [apply wp_lift; exists []; split; [by apply gets_by_nil|done]|].
  apply wp_bind. eapply wp_mono.
  { apply (all_pages_effect _ items_page). intros start w0. eapply wp_mono; [apply get_decoded|].
    intros r w1 [Hg Hx]. split; [done|]. intros x Hr. destruct (Hx x Hr) as (q & a & Hq & E & Hd). eexists. split; [exact E|]. by exists q, a. }
  intros [[raw|]|e] w1 [(l & E & F) Hr]; [|apply wp_ret, wp_lift; exists l; split; [by split|done]|exists l; split; [by split|done]].
  destruct (Hr raw eq_refl) as (pages & l' & Hp & -> & E' & Hl'). apply wp_ret, wp_ret. exists l. split; [by split|].
  rewrite E in E'. apply app_inv_head in E' as ->. intros series [= <-]. by exists pages.
Qed.

Lemma matches_effect cids videos libraries matches w :
  wp (m_fold (match_library rounds cids videos) libraries matches) w (λ r w', ∃ l, gets_by w w' l ∧ ∀ result, r = Ok result →
    ∃ found, found.*1 = libraries ∧ series_asked cids found l ∧ result = matches ++ candidates_in cids videos found).
Proof.
  revert matches w. induction libraries as [|library libraries IH]; intros matches w; cbn [m_fold].
  { apply wp_ret. exists []. split; [by apply gets_by_nil|]. intros result [= <-]. exists []. cbn. rewrite app_nil_r. split_and!; [done|constructor|done]. }
  apply wp_bind. unfold match_library at 1. cbv zeta.
  destruct (negb (bool_decide (lb_Collection library = "tvshows")) || bool_decide (cid_of cids library = "")) eqn:Hel.
  - apply wp_ret. eapply wp_mono; [apply IH|]. intros r w1 (l & Hl & Hr). exists l. split; [done|]. intros result ->.
    destruct (Hr _ eq_refl) as (found & Hf & Ha & ->). exists ((library, []) :: found). cbn. rewrite Hf. split_and!; [done| |done].
    constructor; [|done]. intros [Hc Hn]. by rewrite bool_decide_true, bool_decide_false in Hel.
  - assert (eligible cids library) as He by (split; bools; done). clear Hel.
    apply wp_bind. eapply wp_mono; [apply series_effect|]. intros [series|e] w1 (l & Hl & Hs); [|by exists l].
    destruct (Hs _ eq_refl) as (pages & Hp & Hlog & ->). apply wp_ret. eapply wp_mono; [apply IH|]. intros r w2 (l' & Hl' & Hr).
    exists (l ++ l'). split; [by eapply gets_by_app|]. intros result ->. destruct (Hr _ eq_refl) as (found & Hf & Ha & ->).
    eexists ((library, _) :: found). cbn. rewrite Hf. split_and!; [done|by eapply sa_listed|by rewrite <-app_assoc].
Qed.

Lemma ingest_resolve_effect videos w :
  wp (resolveMediaIngestCandidate rounds videos) w (λ r w', ∃ l, gets_by w w' l ∧ ∀ c public, r = Ok (c, public) →
    ∃ cids matches, decode_cid_map (stored (pi_db (w_db w)) "c115_cid_map") = Some cids ∧
      resolved cids videos matches l ∧ public = public_of <$> matches ∧ ∀ x, c = Some x ↔ matches = [x]).
Proof.
  unfold resolveMediaIngestCandidate. apply wp_bind. eapply wp_mono; [apply wp_and; [apply silent_db|apply stored_effect]|].
  intros [raw|e] w1 (Hs & _ & Hraw).
  2: { exists []. split; [by apply gets_by_nil|done]. }
  apply wp_bind, wp_lift. rewrite Hraw. destruct (decode_cid_map _) as [cids|] eqn:Hcids; [|exists []; split; [by apply gets_by_nil|done]].
  unfold ListLibrariesCtx. apply wp_bind, wp_bind. eapply wp_mono; [apply call_effect|]. intros r w2 [[Hs2 Hr]|(q & ans & Hq & E & Hr)].
  { destruct r as [a|e]; [by destruct (Hr a eq_refl)|]. exists []. split; [apply gets_by_nil; by etrans|done]. }
  assert (gets_by w w2 [ANative q ans]) as Hg by (split; [by rewrite E, Hs|constructor; [apply Hq|constructor]]).
  destruct r as [a|e]; [|by exists [ANative q ans]]. destruct Hr as [-> _]. apply wp_bind, wp_lift.
  destruct (ej_libraries (na_body a)) as [libs|e] eqn:Hlibs; [|by exists [ANative q (Ok a)]]. apply wp_ret, wp_bind.
  eapply wp_mono; [apply matches_effect|]. intros [matches|e] w3 (l & Hl & Hm).
  all: pose proof (gets_by_app _ _ _ _ _ Hg Hl) as Hgl. 2: { by eexists. }
  apply wp_ret. eexists. split; [exact Hgl|]. intros c public [= <- <-]. destruct (Hm _ eq_refl) as (found & Hf & Ha & ->).
  exists cids, (candidates_in cids videos found). split; [done|]. split; [by exists q, a, libs, found, l|]. split; [done|]. cbn.
  intros x. destruct (candidates_in _ _ _) as [|y [|z rest]]; split; congruence.
Qed.

(** ** The folder *)

(** Pages of a folder from an offset on, the last of which is empty or reaches its total. *)
Fixpoint chained (offset : Z) (pages : list listed_page) : Prop :=
  match pages with
  | [] => False
  | p :: pages =>
      lp_offset p = offset ∧
      let next := (offset + Z.of_nat (length (lp_files p)))%Z in
      match pages with [] => lp_files p = [] ∨ (lp_total p ≤ next)%Z | _ => chained next pages end
  end.
Definition named_folders (name : string) (pages : list listed_page) : list string :=
  df_FileID <$> filter (λ f, df_IsFolder f && bool_decide (df_Name f = name) = true) (concat (lp_files <$> pages)).
(** The last listing of the library's folder shows this one folder of that name. *)
Definition folder_shown (libraryCID name cid : string) (l : history) : Prop :=
  ∃ before pages, l = before ++ (page_action libraryCID <$> pages) ∧ chained 0 pages ∧ named_folders name pages = [cid].

Lemma folder_pages_effect libraryCID name n offset matches w :
  (0 ≤ offset)%Z →
  wp (folder_pages libraryCID name n offset matches) w (λ r w', ∃ l, lists w w' l ∧ ∀ ids, r = Ok (Some ids) →
    ∃ pages, l = page_action libraryCID <$> pages ∧ chained offset pages ∧ ids = matches ++ named_folders name pages).
Proof.
  revert offset matches w. induction n as [|n IH]; intros offset matches w Hoff; cbn [folder_pages].
  { apply wp_ret. exists []. split; [by apply lists_nil|done]. }
  apply wp_bind, wp_listFiles; [done| | |].
  { intros e w1 Hs. exists []. split; [by apply lists_nil|done]. }
  { intros a e w1 r E. eexists. split; [split; [exact E|constructor; [exact I|constructor]]|done]. }
  intros a page total w1 _ E. cbv zeta. set (p := mkListed a offset page total).
  assert (lists w w1 [page_action libraryCID p]) as Hl by (split; [exact E|constructor; [exact I|constructor]]).
  destruct (_ || _) eqn:Hend.
  - apply wp_ret. eexists. split; [exact Hl|]. intros ids [= <-]. exists [p]. unfold named_folders. cbn. rewrite app_nil_r.
    split_and!; [done|done| |done]. apply orb_true_iff in Hend as [Hn|Hn]; [apply bool_decide_eq_true, nil_length_inv in Hn; by left|right; lia].
  - eapply wp_mono; [apply IH; lia|]. intros r w2 (l & Hl2 & Hr). eexists. split; [by eapply lists_app|]. intros ids ->.
    destruct (Hr _ eq_refl) as (pages & -> & Hc & ->). exists (p :: pages). split; [done|]. split.
    + cbn [chained]. split; [done|]. by destruct pages.
    + unfold named_folders. cbn. by rewrite filter_app, fmap_app, app_assoc.
Qed.

Lemma folder_effect libraryCID name w :
  wp (resolveAutoFillFolder rounds libraryCID name) w (λ r w', ∃ l, lists w w' l ∧ ∀ cid, r = Ok cid → folder_shown libraryCID name cid l).
Proof.
  unfold resolveAutoFillFolder, finished_wait. apply wp_bind. generalize autoFillFolderVisibilityAttempts as k. intros k.
  apply wp_mono with (P := λ r w', ∃ l, lists w w' l ∧ ∀ cid, r = Ok (Some cid) → folder_shown libraryCID name cid l).
  2: { intros [[cid|]|e] w1 (l & Hl & Hr); [apply wp_ret|apply wp_lift|]; exists l; (split; [done|]); [|done..]. intros c [= <-]. by apply Hr. }
  revert w. induction k as [|k IH]; intros w; cbn [folder_attempts]; [apply wp_lift; exists []; split; [by apply lists_nil|done]|].
  apply wp_bind. eapply wp_mono; [by apply folder_pages_effect|]. intros [[ids|]|e] w1 (l & Hl & Hr).
  2: { apply wp_ret. by exists l. } 2: { by exists l. }
  destruct (Hr _ eq_refl) as (pages & -> & Hc & ->). cbn [app] in *.
  destruct (named_folders name pages) as [|cid [|cid' rest]] eqn:Hn.
  - apply wp_bind. apply wp_mono with (P := λ (r : res unit) w', same_log (w_db w1) (w_db w')).
    { destruct (bool_decide _); [by apply wp_ret|]. apply wp_sleep; [done|by intros]. }
    intros r w2 Hs. assert (lists w w2 (page_action libraryCID <$> pages)) as Hl2 by (destruct Hl; split; [by rewrite Hs|done]).
    destruct r as [[]|e]; [|by eexists]. eapply wp_mono; [apply IH|]. intros r w3 (l & Hl3 & Hf). eexists. split; [by eapply lists_app|].
    intros cid ->. destruct (Hf _ eq_refl) as (before & ps & -> & ?). exists ((page_action libraryCID <$> pages) ++ before), ps. by rewrite app_assoc.
  - apply wp_ret. eexists. split; [exact Hl|]. intros c [= <-]. by exists [], pages.
  - apply wp_lift. eexists. split; [exact Hl|done].
Qed.
(** ** The files *)

(** The items of the plan, each with its move, or with the finding that it has no name. *)
Inductive items_log (s : EmbyMediaItem) (sourceCID targetCID : string)
    : list CrossDriveItem.t → list mediaIngestMove → list string → history → Prop :=
| it_none : items_log s sourceCID targetCID [] [] [] []
| it_moved i items n m moves findings l l' :
    canonicalIngestName s i = Ok n → item_log i sourceCID targetCID n (Ok m) l → items_log s sourceCID targetCID items moves findings l' →
    items_log s sourceCID targetCID (i :: items) (m :: moves) findings (l ++ l')
| it_unnamed i items e moves findings l :
    canonicalIngestName s i = Err e → items_log s sourceCID targetCID items moves findings l →
    items_log s sourceCID targetCID (i :: items) moves ((CrossDriveItem.Name i +:+ "：" +:+ error_text e) :: findings) l.

(** A change for one of the items. *)
Definition items_guard (s : EmbyMediaItem) (sourceCID targetCID : string) (items : list CrossDriveItem.t) (l : history) (a : action) : Prop :=
  ∃ i n, i ∈ items ∧ canonicalIngestName s i = Ok n ∧ item_guard i sourceCID targetCID n l a.
Lemma items_guard_r s src tgt items l l1 a : items_guard s src tgt items l1 a → items_guard s src tgt items (l ++ l1) a.
Proof. intros (i & n & Hi & Hn & Hg). exists i, n. split_and!; [done|done|by apply item_guard_r]. Qed.
Lemma items_guard_more s src tgt i items l a : items_guard s src tgt items l a → items_guard s src tgt (i :: items) l a.
Proof. intros (j & n & Hj & ?). exists j, n. split; [by right|done]. Qed.

Lemma ingest_items_effect taskID acc src tgt s count its st w :
  wp (m_fold (ingest_item taskID acc src tgt s count) its st) w (λ r w', ∃ l, pi_log (w_db w') = pi_log (w_db w) ++ l ∧
    guarded (items_guard s src tgt its.*2) l ∧ ∀ moves findings, r = Ok (moves, findings) → ∃ ms fs,
      moves = st.1 ++ ms ∧ findings = st.2 ++ fs ∧ items_log s src tgt its.*2 ms fs l).
Proof.
  revert st w. induction its as [|[index i] its IH]; intros st w; cbn [m_fold fmap list_fmap].
  { apply wp_ret. exists []. rewrite app_nil_r. split_and!; [done|apply guarded_quiet; constructor|]. intros moves findings [= ->].
    exists [], []. cbn. rewrite !app_nil_r. split_and!; [done|done|constructor]. }
  assert (∀ e w1 l, pi_log (w_db w1) = pi_log (w_db w) ++ l → guarded (items_guard s src tgt (i :: its.*2)) l →
    ∃ l, pi_log (w_db w1) = pi_log (w_db w) ++ l ∧ guarded (items_guard s src tgt (i :: its.*2)) l ∧
      ∀ moves findings, Err e = Ok (moves, findings) → ∃ ms fs,
        moves = st.1 ++ ms ∧ findings = st.2 ++ fs ∧ items_log s src tgt (i :: its.*2) ms fs l) as Hstop.
  { intros e w1 l E Hg. by exists l. }
  apply wp_bind. unfold ingest_item at 1. apply wp_bind, wp_ctx_live.
  { intros n. apply (Hstop _ _ []); [by rewrite app_nil_r|apply guarded_quiet; constructor]. }
  intros n0. destruct (canonicalIngestName s i) as [n|e] eqn:Hn.
  - apply wp_bind. eapply wp_mono; [apply ingest_item_effect|]. intros r w1 (l & E & Hl). cbn [w_db] in E.
    assert (guarded (items_guard s src tgt (i :: its.*2)) l) as Hg.
    { eapply guarded_mono; [|by eapply item_guarded]. intros l1 a Ha. exists i, n. split_and!; [by left|done|done]. }
    destruct r as [m|e]; [|by apply (Hstop e w1 l)]. apply wp_bind. eapply wp_mono; [apply silent_db|].
    intros [[]|e] w2 Hs; [|by apply (Hstop e w2 l); [rewrite Hs|]]. apply wp_ret. eapply wp_mono; [apply IH|].
    intros r w3 (l' & E' & Hg' & Hr). exists (l ++ l'). split; [by rewrite E', Hs, E, app_assoc|]. split.
    + apply guarded_app; [intros; by apply items_guard_r|done|]. eapply guarded_mono; [|exact Hg']. intros; by apply items_guard_more.
    + intros moves findings ->. destruct (Hr _ _ eq_refl) as (ms & fs & -> & -> & Hlog). exists (m :: ms), fs. cbn. rewrite <-app_assoc.
      split_and!; [done|done|]. by econstructor.
  - apply wp_ret. eapply wp_mono; [apply IH|]. intros r w3 (l' & E' & Hg' & Hr). exists l'. cbn [w_db] in E'. split; [done|]. split.
    + eapply guarded_mono; [|exact Hg']. intros; by apply items_guard_more.
    + intros moves findings ->. destruct (Hr _ _ eq_refl) as (ms & fs & -> & -> & Hlog). eexists ms, (_ :: fs). cbn. rewrite <-app_assoc.
      split_and!; [done|done|]. by constructor.
Qed.

(** ** The end of the task *)

Definition tree_request (a : action) : Prop :=
  match a with ADo _ _ | AInfo _ _ | AText _ _ | ANames _ _ | AWalk _ _ => True | _ => False end.
Definition is_native (a : action) : Prop := match a with ANative _ _ => True | _ => False end.

Lemma orderly_tree mr sr px plan s s' : orderly (sync_ok mr sr px plan) s s' → ∃ l, pi_log s' = pi_log s ++ l ∧ Forall tree_request l.
Proof.
  intros (l & E & Hl). exists l. split; [done|]. apply Forall_forall. intros a Ha. apply list_elem_of_split in Ha as (l1 & l2 & ->).
  specialize (Hl l1 a l2 eq_refl). by destruct a.
Qed.
Lemma tree_effect library update w :
  wp (SyncSTRMWithProgress library (db_reporter update)) w (λ _ w', ∃ l, pi_log (w_db w') = pi_log (w_db w) ++ l ∧ Forall tree_request l).
Proof.
  unfold SyncSTRMWithProgress. apply wp_bind, wp_plan_library.
  - intros e w1 Ho. eapply (orderly_tree "" "" "" (mkScan 0 ∅ [] ∅ [])). by apply calm_sync.
  - intros mr sr sb px mediaBase files plan w1 Ho _. eapply wp_mono; [apply apply_plan_ok|]. intros r w2 Ho2.
    eapply orderly_tree. etrans; [by apply calm_sync|exact Ho2].
Qed.

Lemma scan_native r l : scan_log r l → Forall is_native l.
Proof.
  assert (∀ l, Forall is_get l → Forall is_native l) as Hget by (intros l0 F; eapply Forall_impl; [exact F|]; by intros []).
  assert (∀ scan l, scan_listed scan l → Forall is_native l) as Hlisted.
  { intros scan l0 (q & a & tasks & _ & -> & _). by repeat constructor. }
  assert (∀ scan l, scan_started scan l → Forall is_native l) as Hstarted.
  { intros scan l0 Hs. unfold scan_started in Hs. destruct (bool_decide _); [by subst|]. destruct Hs as (q & a & _ & _ & ->). by repeat constructor. }
  assert (∀ scan l, scan_stopped scan l → Forall is_native l) as Hstopped.
  { intros scan l0 Hs. unfold scan_stopped in Hs. destruct (bool_decide _); [by subst|]. destruct Hs as (q & _ & [(ans & ->)|[-> _]]); by repeat constructor. }
  destruct 1; rewrite ?Forall_app; repeat match goal with |- _ ∧ _ => split end; eauto. by repeat constructor.
Qed.
Lemma scan_completed scan l : scan_log (Ok (Some scan)) l → es_Status scan = "Completed".
Proof.
  inversion 1 as [| |sc l0 s watched r Hl Hs F He Hr| |]; subst. unfold scan_outcome in Hr. destruct (bool_decide _) eqn:Hst.
  - injection Hr as <-. by apply bool_decide_eq_true in Hst.
  - by destruct (negb _).
Qed.

(** After [before], the synchronisation of the library ran, which reports to the task,
    succeeded, and made these requests ([sync_follows_plan] says what they do). *)
Definition tree_synced (taskID library : string) (before synced : history) : Prop :=
  ∃ w1 w2 st, SyncSTRMWithProgress library (Some (λ q m, on_db (taskProgress taskID 62 78 q m))) w1 = (Ok st, w2) ∧
    pi_log (w_db w1) = before ∧ pi_log (w_db w2) = before ++ synced.

(** The end of an ingest: the synchronisation of the STRM tree of the library, the scan of
    Emby, which completed, and the episodes of the series Emby lists, which include the
    expected ones. *)
Definition published (taskID : string) (c : mediaIngestCandidate) (expected : gset episodeKey) (scan : embyLibraryScanResult) (before l : history) : Prop :=
  ∃ synced scanned q a raw total, l = synced ++ scanned ++ [ANative q (Ok a)] ∧ tree_synced taskID (lb_Name (ic_Library c)) before synced ∧
    Forall tree_request synced ∧ scan_log (Ok (Some scan)) scanned ∧
    made "GET" ("/Shows/" +:+ path_escape (trim_space (mi_ID (ic_Series c))) +:+ "/Episodes") q ∧ ej_episodes (na_body a) = Ok (raw, total) ∧
    ∀ key, key ∈ expected → ∃ e, e ∈ raw ∧ re_ParentIndexNumber e = Season key ∧ re_IndexNumber e = Episode key.

Lemma tree_quiet l : Forall tree_request l → quiet l.
Proof. intros F. eapply Forall_impl; [exact F|]. intros [] Ha Hc; done. Qed.
Lemma native_quiet l : Forall is_native l → quiet l.
Proof. intros F. eapply Forall_impl; [exact F|]. intros [] Ha Hc; done. Qed.
End Task.
