(* ===== verification/MediaIngestClaims.v ===== *)
(** The claims on the media ingest ([MediaIngest.v]), proved from [MediaIngestProofs.v]: what
    its result says of the requests it made, and what it asks the drive to change. *)
From Stdlib Require Import Ascii.
From S2P Require Import Prelude GoStrings GoPath Sql Schema TaskStore ImportStore Accounts Payload FileSys Remote Drive Destination.
From S2P Require Import DestinationProofs Regexp Episodes Identity Service Local Autofill Pipeline Media Roots MediaProofs Queue ReplacementProofs.
From S2P Require Import Emby EmbyProofs EmbyDeletionProofs MediaIngest MediaIngestProofs.

(** [l] has these requests in a row. *)
Definition has_run (P : history → Prop) (l : history) : Prop := ∃ l0 l1 l2, l = l0 ++ l1 ++ l2 ∧ P l1.
Lemma has_run_all (P : history → Prop) l : P l → has_run P l.
Proof. intros Hl. exists [], l, []. by rewrite app_nil_r. Qed.
Lemma has_run_l P l l' : has_run P l → has_run P (l ++ l').
Proof. intros (l0 & l1 & l2 & -> & Hl). exists l0, l1, (l2 ++ l'). by rewrite <-!app_assoc. Qed.
Lemma has_run_r P l l' : has_run P l' → has_run P (l ++ l').
Proof. intros (l0 & l1 & l2 & -> & Hl). exists (l ++ l0), l1, l2. by rewrite <-!app_assoc. Qed.

(** The import a task names, as the database holds it: completed, verified, bound to no
    series, with its items in the order of their paths. *)
Definition import_read (p : payload) (d : Database) (state : CrossDriveImport.t) (its : list CrossDriveItem.t) : Prop :=
  let id := text_of p "source_task_id" true in
  (∃ t, tasks d !! id = Some t ∧ AsyncTask.Type_ t = "quark_to_115_import" ∧ AsyncTask.Status t = "completed") ∧
  imports d !! id = Some state ∧ CrossDriveImport.Phase state = "verified" ∧ CrossDriveImport.DestinationCID state ≠ "" ∧
  CrossDriveImport.AutofillSeriesID state = "" ∧ its = (select (of_import id) by_path (items d)).*2.

Section Claims.
Context `{Env} {ctx : Ctx} `{Sleep} `{Remote} `{Providers} `{Local} `{Names} `{Ranging} `{Workers} `{Unicode} `{CidMap}.
Context `{Native} `{EmbyJson} `{PathEscape} (rounds : nat).
Implicit Types w : World Pipe.

(** The ingest takes a series for that of an import exactly when every video of the import
    may be of it - it names episodes, its title begins or ends with a title of the series of
    four characters or more, and its year, if it has one, is the series' - and at least one
    video is of it: its title and year are exactly the series', or it gives the series' TMDB
    ID. *)
Theorem ingest_series_exact s videos :
  mediaIngestSeriesMatches s videos = true ↔ Forall (agrees_with s) videos ∧ Exists (proves s) videos.
Proof. apply series_matches. Qed.

(** The series of the ingest: the only candidate of Emby in the libraries that the stored map
    gives a directory of 115, and its folder there. *)
Definition chosen (d : Database) (its : list CrossDriveItem.t) (c : mediaIngestCandidate) (cid : string) (l : history) : Prop :=
  (∃ cids, decode_cid_map (stored d "c115_cid_map") = Some cids ∧ has_run (resolved cids (ingestMediaItems its true) [c]) l) ∧
  has_run (folder_shown (ic_LibraryCID c) (folder_of (ic_Series c)) cid) l.
Lemma chosen_l d its c cid l l' : chosen d its c cid l → chosen d its c cid (l ++ l').
Proof. intros [(cids & Hd & Hr) Hf]. split; [exists cids; split; [done|]|]; by apply has_run_l. Qed.
Lemma chosen_r d its c cid l l' : chosen d its c cid l' → chosen d its c cid (l ++ l').
Proof. intros [(cids & Hd & Hr) Hf]. split; [exists cids; split; [done|]|]; by apply has_run_r. Qed.

(** The items an ingest moves, and the findings on the others. *)
Definition movable (s : EmbyMediaItem) (its : list CrossDriveItem.t) : list CrossDriveItem.t := filter (λ i, plan_finding s i = None) its.
Definition set_aside (s : EmbyMediaItem) (its : list CrossDriveItem.t) : list string := omap (plan_finding s) its.

(** What the task reports, for the import in the database and the requests it made after
    those of [start]. *)
Inductive ingest_log (taskID : string) (p : payload) (d : Database) (start : history) : res ingest_result → history → Prop :=
| ig_stopped e l : quiet l → ingest_log taskID p d start (Err e) l
| ig_empty state its finding :
    import_read p d state its → ingestMediaItems its true = [] → ingest_log taskID p d start (Ok (ImportReview [finding])) []
| ig_unmatched state its cids matches l :
    import_read p d state its → decode_cid_map (stored d "c115_cid_map") = Some cids → resolved cids (ingestMediaItems its true) matches l → (∀ c, matches ≠ [c]) → quiet l →
    ingest_log taskID p d start (Ok (CatalogReview (public_of <$> matches) [catalog_finding (public_of <$> matches)])) l
| ig_failed state its c cid asked moved rest e :
    import_read p d state its → chosen d its c cid asked → quiet asked → quiet rest →
    guarded (items_guard (ic_Series c) (CrossDriveImport.DestinationCID state) cid (movable (ic_Series c) its)) moved →
    ingest_log taskID p d start (Err e) (asked ++ moved ++ rest)
| ig_unnamed state its c cid asked findings finding :
    import_read p d state its → chosen d its c cid asked → quiet asked →
    items_log (ic_Series c) (CrossDriveImport.DestinationCID state) cid (movable (ic_Series c) its) [] findings [] →
    ingest_log taskID p d start (Ok (OrganizeReview (lb_Name (ic_Library c)) (mi_Name (ic_Series c)) (tmdb_of (ic_Series c))
                         ((set_aside (ic_Series c) its ++ findings) ++ [finding]))) asked
| ig_verified state its c cid asked moves findings moved scan rest :
    import_read p d state its → chosen d its c cid asked → quiet asked → moves ≠ [] →
    items_log (ic_Series c) (CrossDriveImport.DestinationCID state) cid (movable (ic_Series c) its) moves findings moved →
    published taskID c (expected_keys (ingestMediaItems its true)) scan (start ++ asked ++ moved) rest → es_Status scan = "Completed" →
    ingest_log taskID p d start
      (Ok (Verified (lb_Name (ic_Library c)) (lb_ID (ic_Library c)) (mi_Name (ic_Series c)) (mi_ID (ic_Series c)) (tmdb_of (ic_Series c)) cid
            (join_path ["/emby"; lb_Name (ic_Library c); folder_of (ic_Series c)])
            (sortedEpisodeLabels (expected_keys (ingestMediaItems its true))) moves (set_aside (ic_Series c) its ++ findings)
            (es_TaskID scan) "Completed"))
      (asked ++ moved ++ rest).

(** ** Proofs *)

Lemma source_effect p w :
  wp (ingest_source (text_of p "source_task_id" true)) w (λ r w', same_log (w_db w) (w_db w') ∧
    ∀ state its, r = Ok (state, its) → import_read p (pi_db (w_db w)) state its).
Proof.
  unfold ingest_source, import_read. cbv zeta. set (id := text_of _ _ _).
  apply wp_bind, wp_wrap, wp_on_db, wp_query; [intros; by split|]. cbn [w_db pi_db]. intros t n Ht. cbn [wrap_err].
  destruct (tasks _ !! id) as [t'|] eqn:Hid; [injection Ht as ->|done].
  destruct (negb _ || negb _) eqn:Hb; [apply wp_lift; by split|]. apply orb_false_iff in Hb as [Ht1 Ht2].
  apply wp_bind, wp_wrap, wp_on_db, wp_query; [intros; by split|]. cbn [w_db pi_db]. intros state n' Hst. cbn [wrap_err].
  destruct (imports _ !! id) as [state'|] eqn:Himp; [injection Hst as ->|done].
  destruct (negb _ || _ || negb _) eqn:Hb; [apply wp_lift; by split|]. apply orb_false_iff in Hb as [Hb Hs3]. apply orb_false_iff in Hb as [Hs1 Hs2].
  apply wp_bind, wp_on_db, wp_query; [intros; by split|]. cbn [w_db pi_db]. intros l n'' [= <-]. apply wp_ret. split; [done|].
  intros state0 its [= <- <-]. bools. split; [by exists t|]. by split_and!.
Qed.

Lemma source_fixed id : keeps fixed (ingest_source id).
Proof. unfold ingest_source, GetAsyncTask, GetCrossDriveImport, ListCrossDriveItems. keeps_run. Qed.
Lemma silent_fixed (m : M Database unit) w :
  keeps same_settings m → wp (on_db m) w (λ _ w', same_log (w_db w) (w_db w') ∧ same_settings (pi_db (w_db w)) (pi_db (w_db w'))).
Proof. intros Hm. apply wp_and; [apply silent_db|]. eapply wp_mono; [apply (keeps_on_db (λ _, True) same_settings), Hm|]. by intros r w' [_ E]. Qed.

Lemma published_quiet taskID c expected scan before l : published taskID c expected scan before l → quiet l.
Proof.
  intros (synced & scanned & q & a & raw & total & -> & _ & Ht & Hs & _). unfold quiet. rewrite !Forall_app.
  split_and!; [by apply tree_quiet|by eapply native_quiet, scan_native|by apply native_quiet; repeat constructor].
Qed.

Lemma owned_key seriesID t raw key :
  key ∈ (list_to_set ((λ e, mkKey (me_SeasonNumber e) (me_EpisodeNumber e)) <$> omap (owned_episode seriesID t) raw) : gset episodeKey) →
  ∃ e, e ∈ raw ∧ re_ParentIndexNumber e = Season key ∧ re_IndexNumber e = Episode key.
Proof.
  rewrite elem_of_list_to_set, list_elem_of_fmap. intros (m & -> & Hm). apply list_elem_of_omap in Hm as (e & He & Hm).
  unfold owned_episode in Hm. destruct (aired _ _); [|done]. injection Hm as <-. by exists e.
Qed.

Lemma wp_bind_rest {A B C} (m : M Pipe A) (f : A → M Pipe B) (g : B → M Pipe C) w (Q : res C → World Pipe → Prop) :
  wp (a ← m; f a) w (λ r w', match r with Ok b => wp (g b) w' Q | Err e => Q (Err e) w' end) → wp (a ← m; b ← f a; g b) w Q.
Proof. unfold wp, mbind, m_bind. destruct (m w) as [[a|e] w1]; [|done]. by destruct (f a w1) as [[b|e] w2]. Qed.

Lemma aired_effect id t w :
  wp (ListAiredSeriesEpisodesCtx id t) w (λ r w', ∃ l, gets_by w w' l ∧ ∀ owned, r = Ok owned → ∃ q a raw total,
    made "GET" ("/Shows/" +:+ path_escape (trim_space id) +:+ "/Episodes") q ∧ l = [ANative q (Ok a)] ∧
    ej_episodes (na_body a) = Ok (raw, total) ∧ owned = omap (owned_episode (trim_space id) t) raw).
Proof.
  unfold ListAiredSeriesEpisodesCtx. cbv zeta. destruct (bool_decide _); [apply wp_lift; exists []; split; [by apply gets_by_nil|done]|].
  apply wp_bind_rest. eapply wp_mono; [apply get_decoded|]. intros r w1 [(l & E & F) Hr].
  destruct r as [[raw total]|e]; [|exists l; split; [by split|done]]. destruct (Hr _ eq_refl) as (q & a & Hq & El & Hd).
  rewrite E in El. apply app_inv_head in El as ->. apply wp_ret. eexists. split; [by split|]. intros owned [= <-]. by exists q, a, raw, total.
Qed.

Lemma publish_effect taskID c cid expected moves findings w :
  wp (publish_ingest rounds taskID c cid expected moves findings) w (λ r w', ∃ l, pi_log (w_db w') = pi_log (w_db w) ++ l ∧ quiet l ∧
    ∀ res, r = Ok res → ∃ scan, published taskID c expected scan (pi_log (w_db w)) l ∧ es_Status scan = "Completed" ∧
      res = Verified (lb_Name (ic_Library c)) (lb_ID (ic_Library c)) (mi_Name (ic_Series c)) (mi_ID (ic_Series c)) (tmdb_of (ic_Series c)) cid
              (join_path ["/emby"; lb_Name (ic_Library c); folder_of (ic_Series c)]) (sortedEpisodeLabels expected) moves findings
              (es_TaskID scan) "Completed").
Proof.
  unfold publish_ingest. cbv zeta.
  apply wp_bind. eapply wp_mono; [apply silent_db|]. intros [[]|e] w1 Hs1; [|exists []; rewrite app_nil_r; split_and!; [done|constructor|done]].
  apply wp_bind, wp_wrap, wp_intro. intros r w2 Erun.
  destruct (wp_elim _ _ _ _ _ (tree_effect _ (Some (taskProgress taskID 62 78)) w1) Erun) as (l1 & E1 & F1). rewrite Hs1 in E1.
  assert (∀ st, r = Ok st → tree_synced taskID (lb_Name (ic_Library c)) (pi_log (w_db w)) l1) as Hsync by (intros st ->; by exists w1, w2, st). pose proof (tree_quiet _ F1) as Hq1. destruct r as [st|e]; cbn [wrap_err]; [|by exists l1].
  apply wp_bind. eapply wp_mono; [apply silent_db|]. intros [[]|e] w3 Hs3; [|exists l1; by rewrite Hs3]. rewrite <-Hs3 in E1.
  apply wp_bind, wp_wrap. unfold finished_wait. apply wp_bind. eapply wp_mono; [apply scan_effect|].
  intros r w4 (l2 & E2 & Hscan). rewrite E1, <-app_assoc in E2. pose proof (native_quiet _ (scan_native _ _ Hscan)) as Hq2.
  assert (quiet (l1 ++ l2)) as Hq12 by (by apply Forall_app).
  destruct r as [[scan|]|e]; [apply wp_ret|apply wp_lift|]; cbn [wrap_err]; [|by exists (l1 ++ l2)..].
  apply wp_bind, wp_now. intros t n. apply wp_bind, wp_wrap. eapply wp_mono; [apply aired_effect|]. intros r w5 (l3 & [E3 F3] & Hr). cbn [w_db] in E3.
  rewrite E2, <-!app_assoc in E3. assert (quiet ((l1 ++ l2) ++ l3)) as Hq by (apply Forall_app; split; [done|by apply gets_quiet]). rewrite <-app_assoc in Hq.
  destruct r as [owned|e]; cbn [wrap_err]; [|eexists; split; [exact E3|split; [exact Hq|done]]].
  destruct (Hr _ eq_refl) as (q & a & raw & total & Hq' & -> & Hej & ->). destruct (bool_decide (0 < length _)) eqn:Hmiss.
  { apply wp_lift. eexists. split; [exact E3|split; [exact Hq|done]]. }
  apply wp_bind. eapply wp_mono; [apply silent_db|]. intros [[]|e] w6 Hs6; rewrite <-Hs6 in E3; [|eexists; split; [exact E3|split; [exact Hq|done]]].
  apply wp_ret. eexists. split; [exact E3|split; [exact Hq|]]. intros res [= <-]. exists scan. pose proof (scan_completed _ _ Hscan) as Hst.
  rewrite Hst. split; [|done]. exists l1, l2, q, a, raw, total. split_and!; try done; [by eapply Hsync|]. intros key Hkey. eapply owned_key.
  apply bool_decide_eq_false in Hmiss. destruct (decide (key ∈ (list_to_set ((λ e, mkKey (me_SeasonNumber e) (me_EpisodeNumber e)) <$>
    omap (owned_episode (trim_space (mi_ID (ic_Series c))) t) raw) : gset episodeKey))) as [Hin|Hout]; [exact Hin|]. destruct Hmiss.
  unfold sort_strings. rewrite merge_sort_Permutation, length_fmap.
  match goal with |- 0 < length (elements ?X) => assert (key ∈ elements X) as Hel by (by apply elem_of_elements, elem_of_difference); destruct (elements X) end.
  { by apply not_elem_of_nil in Hel. } cbn. lia.
Qed.

Lemma guarded_then G l l' : guarded G l → quiet l' → guarded G (l ++ l').
Proof.
  intros Hl Hq l1 a l2 E Ha. apply app_eq_inv in E as [(k & -> & Hk)|(k & -> & Hk)].
  - destruct k as [|b k]; [|injection Hk as -> _; by eapply Hl]. cbn in Hk. subst l'. by inversion Hq.
  - subst l'. apply Forall_app in Hq as [_ Hq]. by inversion Hq.
Qed.
Lemma guarded_after (G G' : history → action → Prop) l l' :
  quiet l → guarded G l' → (∀ l1 a, G l1 a → G' (l ++ l1) a) → guarded G' (l ++ l').
Proof.
  intros Hq Hl HG l1 a l2 E Ha. apply app_eq_inv in E as [(k & -> & Hk)|(k & -> & Hk)].
  - destruct k as [|b k]; [|injection Hk as -> _; apply Forall_app in Hq as [_ Hq]; by inversion Hq].
    rewrite app_nil_r in HG. pose proof (HG [] a (Hl [] a l2 (eq_sym Hk) Ha)) as Hg. by rewrite app_nil_r in Hg.
  - by apply HG, (Hl _ _ l2).
Qed.
Lemma items_guarded s src tgt its ms fs l : items_log s src tgt its ms fs l → guarded (items_guard s src tgt its) l.
Proof.
  induction 1 as [|i its n m ms fs l l' Hn Hi Hl IH|i its e ms fs l Hn Hl IH]; [apply guarded_quiet; constructor| |].
  - apply guarded_app; [intros; by apply items_guard_r| |by eapply guarded_mono; [intros; by apply items_guard_more|]].
    eapply guarded_mono; [|by eapply item_guarded]. intros l1 a Ha. exists i, n. split_and!; [by left|done|done].
  - eapply guarded_mono; [|exact IH]. intros; by apply items_guard_more.
Qed.
Lemma items_none s src tgt its fs l : items_log s src tgt its [] fs l → l = [].
Proof. remember [] as ms eqn:Hms. induction 1 as [| |]; [done|done|auto]. Qed.
Lemma movable_plan s its : buildMediaIngestPlan s its = (movable s its, set_aside s its). Proof. done. Qed.
Lemma imap_snd {A} (l : list A) : (imap pair l).*2 = l.
Proof. apply list_eq. intros k. rewrite list_lookup_fmap, list_lookup_imap. by destruct (l !! k). Qed.

Lemma run_effect taskID p w :
  wp (runMediaIngest rounds taskID p) w (λ r w', ∃ l, pi_log (w_db w') = pi_log (w_db w) ++ l ∧ ingest_log taskID p (pi_db (w_db w)) (pi_log (w_db w)) r l).
Proof.
  unfold runMediaIngest. apply wp_bind. eapply wp_mono; [apply wp_and; [apply source_effect|apply source_fixed]|]. intros [[state its]|e] w1 [[Hs1 Hread] [_ Hd1]].
  2: { exists []. rewrite app_nil_r. split; [done|by repeat constructor]. }
  specialize (Hread _ _ eq_refl). cbv zeta. destruct (bool_decide (length (ingestMediaItems its true) = 0)) eqn:Hv.
  { apply wp_ret. exists []. rewrite app_nil_r. split; [done|]. by eapply ig_empty, nil_length_inv, bool_decide_eq_true. }
  apply wp_bind. eapply wp_mono; [apply silent_fixed, progress_fixed|]. intros [[]|e] w2 [Hs2 Hd2].
  2: { exists []. rewrite app_nil_r. split; [by etrans|by repeat constructor]. }
  apply wp_bind. eapply wp_mono; [apply silent_fixed, log_fixed|]. intros [[]|e] w3 [Hs3 Hd3].
  2: { exists []. rewrite app_nil_r. split; [by do 2 (etrans; [done|])|by repeat constructor]. }
  assert (pi_log (w_db w3) = pi_log (w_db w)) as Hs by congruence. clear Hs1 Hs2 Hs3.
  assert (same_settings (pi_db (w_db w)) (pi_db (w_db w3))) as Hset by (by do 2 (etrans; [done|])). clear Hd1 Hd2 Hd3.
  apply wp_bind. eapply wp_mono; [apply ingest_resolve_effect|]. intros [[candidate public]|e] w4 (l1 & [E1 F1] & Hres); rewrite Hs in E1.
  all: pose proof (gets_quiet _ F1) as Hq1. 2: { exists l1. split; [done|by constructor]. }
  destruct (Hres _ _ eq_refl) as (cids & matches & Hcids & Hm & -> & Hc). rewrite (same_stored _ _ _ Hset) in Hcids. destruct candidate as [c|].
  2: { apply wp_ret. exists l1. split; [done|]. eapply ig_unmatched; try done. intros c ->. discriminate (proj2 (Hc c) eq_refl). }
  pose proof (proj1 (Hc c) eq_refl) as ->.
  apply wp_bind, wp_wrap. eapply wp_mono; [apply folder_effect|]. intros [cid|e] w5 (l2 & [E2 F2] & Hfolder); cbn [wrap_err]; rewrite E1, <-app_assoc in E2.
  all: pose proof (lists_quiet _ F2) as Hq2; assert (quiet (l1 ++ l2)) as Hq by (by apply Forall_app).
  2: { exists (l1 ++ l2). split; [done|by constructor]. }
  assert (chosen (pi_db (w_db w)) its c cid (l1 ++ l2)) as Hchosen.
  { split; [exists cids; split; [done|by apply has_run_l, has_run_all]|by apply has_run_r, has_run_all, Hfolder]. }
  apply wp_bind. eapply wp_mono; [apply silent_db|]. intros [[]|e] w6 Hs6; rewrite <-Hs6 in E2.
  2: { exists (l1 ++ l2). split; [done|by constructor]. }
  apply wp_bind. eapply wp_mono; [apply silent_db|]. intros [[]|e] w7 Hs7; rewrite <-Hs7 in E2.
  2: { exists (l1 ++ l2). split; [done|by constructor]. }
  rewrite movable_plan. apply wp_bind. eapply wp_mono; [apply ingest_items_effect|]. rewrite imap_snd.
  intros r w8 (l3 & E3 & Hg & Hr). rewrite E2, <-app_assoc in E3.
  assert (∀ e rest, quiet rest → ingest_log taskID p (pi_db (w_db w)) (pi_log (w_db w)) (Err e) ((l1 ++ l2) ++ l3 ++ rest)) as Hfail by (intros; by eapply ig_failed).
  destruct r as [[moves findings]|e]; [|eexists; split; [exact E3|rewrite <-(app_nil_r l3); apply Hfail; constructor]].
  destruct (Hr _ _ eq_refl) as (ms & fs & -> & -> & Hlog). cbn [fst snd app] in *. destruct (bool_decide (length ms = 0)) eqn:Hms.
  - apply bool_decide_eq_true, nil_length_inv in Hms as ->. apply items_none in Hlog as Hl3. subst l3. apply wp_ret. rewrite app_nil_r in E3.
    exists (l1 ++ l2). split; [done|]. by eapply ig_unnamed.
  - eapply wp_mono; [apply publish_effect|]. intros r w9 (l4 & E4 & Hq4 & Hpub). rewrite E3, <-!app_assoc, (app_assoc l1) in E4.
    eexists. split; [exact E4|]. destruct r as [res|e]; [|by apply Hfail]. destruct (Hpub _ eq_refl) as (scan & Hp & Hst & ->).
    rewrite E3 in Hp. apply ig_verified with (state := state); try done. by intros ->.
Qed.

(** C8: the result of an ingest is true.  Whatever the drive, Emby and the disk answer and
    whatever fails: a review is reported when the import has no video, or when not exactly one
    series of Emby is a candidate for it, or when no file has a name, and then nothing of a
    drive was changed.  A verified ingest has a single candidate among all series Emby lists
    in the configured libraries, whose folder a listing showed; each item of the import has
    its finding or its move, and a move is reported with the name under which the last listing
    showed the file, with its size and digest, in that folder, or with that of a file of the
    same content there; after the moves the synchronisation of that library's STRM tree ran
    and succeeded, a scan of Emby completed, and after it Emby listed every episode the videos
    name.  The libraries are those that the stored map gives a directory of 115. *)
Theorem ingest_reported taskID p w :
  wp (runMediaIngest rounds taskID p) w (λ r w', ∃ l, pi_log (w_db w') = pi_log (w_db w) ++ l ∧ ingest_log taskID p (pi_db (w_db w)) (pi_log (w_db w)) r l).
Proof. apply run_effect. Qed.

(** C9: an ingest changes nothing on a drive but the files of its import.  Each change it asks
    for, whether or not it succeeds later, is the move of one verified file of the import from
    the import's folder, where a listing showed it with its name, size and digest, into the
    folder of the only candidate series, which a listing showed without it; or the renaming of
    such a file.  One that was moved gets its canonical name, when no other file listed in the
    folder had it; when one of another content did, the name with its digest, which no file
    listed after that one has.  One that a listing showed in the folder already gets its
    canonical name, which is not compared with the others'.  It asks for no deletion. *)
Theorem ingest_changes_guarded taskID p w :
  wp (runMediaIngest rounds taskID p) w (λ _ w', ∃ l, pi_log (w_db w') = pi_log (w_db w) ++ l ∧
    guarded (λ l1 a, ∃ state its c cid, import_read p (pi_db (w_db w)) state its ∧ chosen (pi_db (w_db w)) its c cid l1 ∧
      items_guard (ic_Series c) (CrossDriveImport.DestinationCID state) cid (movable (ic_Series c) its) l1 a) l).
Proof.
  eapply wp_mono; [apply run_effect|]. intros r w' (l & E & Hl). exists l. split; [done|]. clear E.
  assert (∀ G state its c cid asked moved rest, import_read p (pi_db (w_db w)) state its → chosen (pi_db (w_db w)) its c cid asked → quiet asked → quiet rest →
    guarded (items_guard (ic_Series c) (CrossDriveImport.DestinationCID state) cid (movable (ic_Series c) its)) moved →
    (∀ l1 a, (∃ state its c cid, import_read p (pi_db (w_db w)) state its ∧ chosen (pi_db (w_db w)) its c cid l1 ∧
      items_guard (ic_Series c) (CrossDriveImport.DestinationCID state) cid (movable (ic_Series c) its) l1 a) → G l1 a) →
    guarded G (asked ++ moved ++ rest)) as Hmoved.
  { intros G state its c cid asked moved rest Hread Hch Hqa Hqr Hg HG. eapply guarded_after; [done|by apply guarded_then; [exact Hg|]|].
    intros l1 a Ha. apply HG. exists state, its, c, cid. split_and!; [done|by apply chosen_l|by apply items_guard_r]. }
  destruct Hl as [e l Hq|state its finding _ _|state its cids matches l _ _ _ _ Hq|state its c cid asked moved rest e Hread Hch Hqa Hqr Hg
                 |state its c cid asked fs finding _ _ Hq _|state its c cid asked moves fs moved scan rest Hread Hch Hqa _ Hlog Hpub _].
  - by apply guarded_quiet.
  - apply guarded_quiet. constructor.
  - by apply guarded_quiet.
  - by eapply Hmoved.
  - by apply guarded_quiet.
  - eapply Hmoved; [exact Hread|exact Hch|exact Hqa|by eapply published_quiet|by eapply items_guarded|done].
Qed.
End Claims.

(** ** Names that are taken *)

Definition sample_ingest_item : CrossDriveItem.t :=
  CrossDriveItem.mk "import" "s" "" "Show.S01E01.mkv" "Show.S01E01.mkv" 5 "abcdef1234" None "verified" None 0 None (Some "1") None None None None 0.
Definition sample_folder : list DriveFile :=
  [mkFile "2" "9" "Show S01E01 - ABCDEF12.mkv" 5 "" "ABCDEF1234" "" false 0; mkFile "3" "9" "Show S01E01.mkv" 7 "" "00000000" "" false 0].

(** The name with the digest is not compared with the files listed before the one that
    occupies the plain name: here that name is taken, by a file of the same content, and the
    item is moved and renamed to it nevertheless. *)
Theorem occupied_name_reused :
  free_name sample_ingest_item "Show S01E01.mkv" sample_folder = Ok ("Show S01E01 - ABCDEF12.mkv", false) ∧
  ∃ f, f ∈ sample_folder ∧ df_Name f = "Show S01E01 - ABCDEF12.mkv" ∧ same_content sample_ingest_item f = true ∧
    df_FileID f ≠ destination sample_ingest_item.
Proof. split; [by vm_compute|]. eexists. split_and!; [by left|done|by vm_compute|done]. Qed.

Definition long_series : EmbyMediaItem :=
  mkMedia "1" (of_chars (replicate 240 "a"%char)) "" "Series" "/tv/a" "" false false ∅.
(** The name that replaces one of more than 230 bytes can have more than 230 bytes itself. *)
Theorem long_name_kept :
  ∃ name, canonicalIngestName long_series sample_ingest_item = Ok name ∧ mediaIngestMaxNameBytes < String.length name.
Proof. eexists. split; [vm_compute; reflexivity|]. apply Nat.ltb_lt. by vm_compute. Qed.
