(* ===== verification/Settings.v ===== *)
(** The settings of the deployment ([src/internal/service/settings.go]): which there are, which
    are secret, what is accepted as the value of each, and that what was accepted is what the
    readers of the other components understand.

    Parsing of URLs ([Urls]), of the library map ([CidMap]) and of the excluded roots
    ([Names]), and the order of iteration over a map ([Ranging]), are parameters.  The health
    of the services is asked over the network and is not part of the model; messages leave out
    the quotation marks of [%q]. *)
From Stdlib Require Import Ascii.
From S2P Require Import Prelude GoStrings GoPath Sql Schema Accounts Payload FileSys Remote Local Nas Pipeline Media.

Definition secretSettingKeys : list string :=
  ["115_cookie"; "emby_api_key"; "resource_api_token"; "clouddrive_api_token"; "clouddrive_webhook_secret"].

Definition allowedSettingKeys : list string :=
  ["115_cookie"; "c115_cid_map"; "emby_url"; "emby_api_key"; "media_root"; "strm_root"; "emby_media_prefix";
   "media_excluded_roots"; "clouddrive_url"; "clouddrive_api_token"; "clouddrive_mount_path"; "clouddrive_source_path";
   "clouddrive_c115_account_id"; "clouddrive_webhook_secret"; "clouddrive_webhook_debounce_seconds"; "resource_api_url";
   "resource_api_token"; "share_snapshot_interval_ms"; "transfer_temp_dir"; "transfer_min_free_bytes";
   "quark_download_proxy"; "quark_autofill_target_id"; "quark_download_connections"; "dangerous_actions_enabled"].

Definition secret_key (key : string) : bool := bool_decide (key ∈ secretSettingKeys).
Definition allowed_key (key : string) : bool := bool_decide (key ∈ allowedSettingKeys).

Definition RedactSecrets (values : gmap string string) : gmap string string :=
  map_imap (λ k v, Some (if secret_key k then "" else v)) values.

(** [(1<<63 - 1) / time.Millisecond], and the interval in nanoseconds. *)
Definition millisecond : Z := 10 ^ 6.
Definition max_interval : Z := (2 ^ 63 - 1) / millisecond.
Definition parseShareSnapshotInterval (value : string) : res Z :=
  let value := trim_space value in
  if bool_decide (value = "") then Ok second else
  let invalid := ErrText ("share_snapshot_interval_ms must be a nonnegative integer no greater than " +:+ pretty max_interval) in
  match parse_int value with
  | Some ms => if Z.ltb ms 0 || Z.ltb max_interval ms then Err invalid else Ok (ms * millisecond)%Z
  | None => Err invalid
  end.

(** [monitoredComponents]: whether a component is configured. *)
Definition setting_set (s : gmap string string) (key : string) : bool := negb (bool_decide (trim_space (default "" (s !! key)) = "")).
Definition monitoredComponents : list (string * list string) :=
  [("c115", ["115_cookie"]); ("emby", ["emby_url"; "emby_api_key"]); ("clouddrive", ["clouddrive_url"; "clouddrive_mount_path"]);
   ("resource", ["resource_api_url"])].

Section Settings.
Context `{Env} `{Urls} `{CidMap} `{Names} `{Ranging}.
Abbreviation Db := (M Database).

(** ** Accepting a value *)

Definition http_url_ok (value : string) : bool :=
  match url_parse value with
  | Some u => negb (bool_decide (u_host u = "")) && (bool_decide (u_scheme u = "http") || bool_decide (u_scheme u = "https"))
  | None => false
  end.
Definition int_between (low high : Z) (value : string) : bool :=
  match parse_int value with Some n => Z.leb low n && Z.leb n high | None => false end.
Definition path_keys : list string :=
  ["clouddrive_mount_path"; "media_root"; "strm_root"; "emby_media_prefix"; "transfer_temp_dir"].

(** The checks on one value, trimmed and no blank secret, in the order of the code. *)
Definition check_setting (key value : string) : res unit :=
  let given := negb (bool_decide (value = "")) in
  let on (k : string) := bool_decide (key = k) in
  _ ← fail_if (has_suffix key "_url" && given && negb (http_url_ok value)) (ErrText (key +:+ " must be an HTTP or HTTPS URL"));
  _ ← fail_if (bool_decide (key ∈ path_keys) && given && negb (is_abs value)) (ErrText (key +:+ " must be an absolute path"));
  _ ← fail_if (on "dangerous_actions_enabled" && negb (bool_decide (value = "true")) && negb (bool_decide (value = "false")))
        (ErrText "dangerous_actions_enabled must be true or false");
  _ ← (if on "share_snapshot_interval_ms" then _ ← parseShareSnapshotInterval value; Ok tt else Ok tt);
  _ ← fail_if (on "quark_autofill_target_id" && (Nat.ltb 200 (String.length value) || contains_any value [slash; nul]))
        (ErrText "quark_autofill_target_id must be an opaque directory ID");
  _ ← fail_if (on "quark_download_connections" && given && negb (int_between 1 8 value))
        (ErrText "quark_download_connections must be between 1 and 8");
  _ ← fail_if (on "transfer_min_free_bytes" && given && negb (int_between 0 (2 ^ 63) value))
        (ErrText "transfer_min_free_bytes must be a nonnegative integer");
  _ ← fail_if (on "clouddrive_webhook_debounce_seconds" && given && negb (int_between 1 300 value))
        (ErrText "clouddrive_webhook_debounce_seconds must be between 1 and 300");
  _ ← fail_if (on "c115_cid_map" && given && match decode_cid_map value with Some _ => false | None => true end)
        (ErrText "c115_cid_map must be a JSON object");
  if on "media_excluded_roots" then _ ← parseMediaExcludedRoots value; Ok tt else Ok tt.

(** One entry of the request. *)
Definition accept_setting (filtered : gmap string string) (kv : string * string) : res (gmap string string) :=
  let '(key, raw) := kv in
  if negb (allowed_key key) then Err (ErrText ("unknown setting " +:+ key)) else
  let value := trim_space raw in
  if secret_key key && bool_decide (value = "") then Ok filtered else
  _ ← check_setting key value;
  Ok (<[key := value]> filtered).

Definition Update (values : gmap string string) : Db unit :=
  filtered ← lift (res_fold accept_setting (range_over (map_to_list values)) ∅);
  SetSettingsAndDefaultAccountCookie filtered (default "" (filtered !! "115_cookie")).

Definition Get (key : string) : Db string := GetSetting key.

(** ** What a client is told *)

(** [State], without the health of the services. *)
Definition State : Db (gmap string string * gmap string bool) :=
  all ← GetAllSettings;
  let stored := filter (λ kv : string * string, allowed_key kv.1 = true) all in
  let configured : gmap string bool := list_to_map ((λ c, (c.1, forallb (setting_set stored) c.2)) <$> monitoredComponents) in
  accounts ← ListAccounts;
  let has (type_ : string) := existsb (λ a : string * DriveAccount.t, bool_decide (DriveAccount.Type_ a.2 = type_)) accounts in
  mret (RedactSecrets stored, <["quark" := has "quark"]> (<["c115" := has "115"]> configured)).

End Settings.
