(* ===== verification/SettingsProofs.v ===== *)
(** Properties of the settings ([Settings.v]): what an update stores, and that what it stores
    is understood by the code that reads it. *)
From Stdlib Require Import Ascii.
From S2P Require Import Prelude GoStrings GoPath Sql Schema Accounts Payload FileSys Remote Local Nas Pipeline Media Settings.

(** * Numbers, read twice *)

Lemma digit_facts a : is_digit a = true →
  digit_value a = digit_of a ∧ (0 ≤ digit_of a ≤ 9)%Z ∧ a ≠ underscore ∧ a ≠ byte 45 ∧ a ≠ byte 43.
Proof.
  unfold is_digit. intros Hd. bools. unfold digit_value, digit_of.
  replace (Z.leb 48 _) with true by (symmetry; apply Z.leb_le; lia).
  replace (Z.leb _ 57) with true by (symmetry; apply Z.leb_le; lia). cbn [andb].
  split_and!; [done|lia|lia|..]; intros ->; vm_compute in Hd; lia.
Qed.

(** The value of digits in a base, from an accumulator. *)
Definition fold_value (base : Z) (l : list ascii) (acc : Z) : Z :=
  foldl (λ n a, if bool_decide (a = underscore) then n else (base * n + digit_value a)%Z) acc l.

Lemma decimal_digits acc l z : decimal acc l = Some z → Forall (λ a, is_digit a = true) l ∧ z = fold_value 10 l acc.
Proof.
  revert acc. induction l as [|a l IH]; intros acc; cbn; [by intros [= <-]|].
  destruct (is_digit a) eqn:Ha; [|done]. intros Hd. apply IH in Hd as [Hf ->].
  destruct (digit_facts a Ha) as (E & _ & Hu & _). rewrite bool_decide_false, E by done. split; [by constructor|done].
Qed.

Lemma digits_value_digits base l : l ≠ [] → Forall (λ a, is_digit a = true) l → digits_value base false l = Some (fold_value base l 0).
Proof.
  intros Hn Hf. unfold digits_value. rewrite bool_decide_false by done.
  assert (∀ b, underscores_ok b l = true) as ->; [|done]. clear Hn. induction Hf as [|a l Ha _ IH]; intros b; [done|].
  cbn. destruct (digit_facts a Ha) as (_ & _ & Hu & _). by rewrite bool_decide_false.
Qed.

Lemma take_decimal_digits l : Forall (λ a, is_digit a = true) l → take_digits 10 l = l.
Proof.
  induction 1 as [|a l Ha _ IH]; [done|]. cbn. destruct (digit_facts a Ha) as (E & ? & _). rewrite IH, E.
  replace (Z.ltb _ 10) with true by (symmetry; apply Z.ltb_lt; lia). by rewrite orb_true_r.
Qed.

Lemma take_digits_prefix base l : ∃ q, l = take_digits base l ++ q.
Proof. induction l as [|a l [q IH]]; [by exists []|]. cbn. destruct (_ || _); [exists q; by rewrite <-app_comm_cons, <-IH|by eexists]. Qed.

(** Digits read in base 8, and maybe not all of them, make at most what they make in base 10. *)
Lemma fold_value_le p q acc acc' : (0 ≤ acc ≤ acc')%Z → Forall (λ a, is_digit a = true) (p ++ q) →
  (0 ≤ fold_value 8 p acc ≤ fold_value 10 (p ++ q) acc')%Z.
Proof.
  revert acc acc'. induction p as [|a p IH]; intros acc acc' Ha Hf; cbn.
  - split; [lia|]. destruct Ha as [Ha Hle]. revert acc' Hle. induction q as [|b q IHq]; intros acc' Hle; cbn in *; [lia|].
    apply Forall_cons in Hf as [Hb Hf]. destruct (digit_facts b Hb) as (E & ? & Hu & _). rewrite bool_decide_false, E by done.
    apply IHq; [done|lia].
  - apply Forall_cons in Hf as [Hb Hf]. destruct (digit_facts a Hb) as (E & ? & Hu & _). rewrite bool_decide_false, E by done.
    apply IH; [lia|done].
Qed.

Definition leading_zero (l : list ascii) : Prop := ∃ l', l' ≠ [] ∧ l = byte 48 :: l'.

Lemma scan_digits l : l ≠ [] → Forall (λ a, is_digit a = true) l →
  ∃ m, scan_unsigned l = Some m ∧ (0 ≤ m ≤ fold_value 10 l 0)%Z ∧ (¬ leading_zero l → m = fold_value 10 l 0).
Proof.
  intros Hn Hf. destruct l as [|a l]; [done|]. unfold scan_unsigned. case_bool_decide as Ha.
  - subst a. destruct l as [|x l]; [by eexists|].
    assert (is_digit x = true) as Hx by (by apply Forall_cons in Hf as [_ [? _]%Forall_cons]).
    rewrite !bool_decide_false; [|intros [-> | ->]; by vm_compute in Hx..].
    destruct (take_digits_prefix 8 (x :: l)) as [q Hq].
    assert (Forall (λ a, is_digit a = true) ((byte 48 :: take_digits 8 (x :: l)) ++ q)) as Hf'
      by (by rewrite <-app_comm_cons, <-Hq).
    rewrite digits_value_digits by (try done; by apply Forall_app in Hf' as [? _]).
    eexists. split; [done|]. split.
    + pose proof (fold_value_le _ q 0 0 ltac:(lia) Hf') as Hle. by rewrite <-app_comm_cons, <-Hq in Hle.
    + intros []. by exists (x :: l).
  - rewrite take_decimal_digits, digits_value_digits by done. eexists. split; [done|]. split; [|done].
    pose proof (fold_value_le [] (a :: l) 0 0 ltac:(lia) Hf) as Hle. change (fold_value 8 [] 0) with 0%Z in Hle. cbn [app] in Hle. lia.
Qed.

Lemma in_int64_between z : (0 ≤ z < 2 ^ 63)%Z → in_int64 z = Some z.
Proof. intros Hz. unfold in_int64. rewrite (proj2 (Z.leb_le _ _)), (proj2 (Z.ltb_lt _ _)) by lia. done. Qed.

(** The digits of a number as [strconv.ParseInt] reads it. *)
Definition number_digits (s : string) : list ascii :=
  match chars s with
  | a :: l => if bool_decide (a = byte 43) || bool_decide (a = byte 45) then l else a :: l
  | [] => []
  end.

Lemma trim_left_graphic a l : (33 ≤ nat_of_ascii a ≤ 126) → trim_left (a :: l) = a :: l.
Proof.
  intros Ha. unfold trim_left. apply strip_all_stop, strip_any_none.
  apply (Forall_forall (λ r, ∀ k, a :: l ≠ r ++ k)).
  repeat constructor; intros k E; injection E as -> _; vm_compute in Ha; lia.
Qed.

Lemma sscan_parsed s n : parse_int s = Some n → (0 ≤ n)%Z →
  ∃ m, sscan_int64 s = Some m ∧ (0 ≤ m ≤ n)%Z ∧ (¬ leading_zero (number_digits s) → m = n).
Proof.
  unfold parse_int, sscan_int64, number_digits. destruct (chars s) as [|a l]; [done|]. intros Hp Hn.
  assert (∀ l k, (match l with [] => None | _ => decimal 0 l end) = Some k →
    l ≠ [] ∧ Forall (λ a, is_digit a = true) l ∧ k = fold_value 10 l 0) as Hnum.
  { intros [|b l'] k; [done|]. intros Hd%decimal_digits. by split. }
  assert (∀ z, in_int64 z = Some n → z = n ∧ (n < 2 ^ 63)%Z) as Hin.
  { intros z. unfold in_int64. destruct (_ && _) eqn:E; [|done]. intros [= <-]. bools. lia. }
  case_bool_decide as H43; [|case_bool_decide as H45].
  - subst a. rewrite trim_left_graphic by (vm_compute; lia). cbn [orb]. rewrite bool_decide_false by done.
    rewrite bool_decide_true by done. cbn [orb]. apply bind_Some in Hp as (k & (Hl & Hf & ->)%Hnum & [? ?]%Hin).
    destruct (scan_digits l Hl Hf) as (m & Hm & ? & ?). exists m. rewrite Hm. cbn. rewrite in_int64_between by lia. naive_solver lia.
  - subst a. rewrite trim_left_graphic by (vm_compute; lia). rewrite bool_decide_true by done. cbn [orb].
    apply bind_Some in Hp as (k & (Hl & Hf & ->)%Hnum & [? ?]%Hin).
    destruct (scan_digits l Hl Hf) as (m & Hm & ? & ?). exists 0%Z. rewrite Hm. cbn.
    assert (m = 0%Z) as -> by lia. split; [done|]. lia.
  - apply bind_Some in Hp as (k & Hd & [? ?]%Hin). destruct (Hnum (a :: l) k Hd) as (Hl & Hf & ->). cbn [orb].
    assert (is_digit a = true) as Ha by (by apply Forall_cons in Hf as [? _]).
    rewrite trim_left_graphic by (unfold is_digit in Ha; bools; lia).
    rewrite !bool_decide_false by (by apply digit_facts in Ha as (_ & _ & _ & ? & ?)).
    destruct (scan_digits (a :: l) Hl Hf) as (m & Hm & ? & ?). exists m. rewrite Hm. cbn. rewrite in_int64_between by lia. naive_solver lia.
Qed.

(** * Accepted values *)

(** A value is empty or has the property. *)
Definition when_set (value : string) (P : Prop) : Prop := value = "" ∨ P.
#[export] Instance when_set_proper value : Proper (iff ==> iff) (when_set value).
Proof. unfold when_set. by intros P Q ->. Qed.

Section Types.
Context `{Urls} `{CidMap} `{Names} `{Ranging}.

Definition between (low high : Z) (value : string) : Prop := ∃ n, parse_int value = Some n ∧ (low ≤ n ≤ high)%Z.

(** What the value of a setting means. *)
Record setting_typed (key value : string) : Prop := mkTyped {
  ty_trimmed : trim_space value = value;
  ty_secret : key ∈ secretSettingKeys → value ≠ "";
  ty_url : has_suffix key "_url" = true → when_set value (∃ u, url_parse value = Some u ∧ u_host u ≠ "" ∧ (u_scheme u = "http" ∨ u_scheme u = "https"));
  ty_path : key ∈ path_keys → when_set value (is_abs value = true);
  ty_switch : key = "dangerous_actions_enabled" → value = "true" ∨ value = "false";
  ty_interval : key = "share_snapshot_interval_ms" → when_set value (between 0 max_interval value);
  ty_target : key = "quark_autofill_target_id" → String.length value ≤ 200 ∧ contains_any value [slash; nul] = false;
  ty_connections : key = "quark_download_connections" → when_set value (between 1 8 value);
  ty_minimum : key = "transfer_min_free_bytes" → when_set value (between 0 (2 ^ 63) value);
  ty_debounce : key = "clouddrive_webhook_debounce_seconds" → when_set value (between 1 300 value);
  ty_cids : key = "c115_cid_map" → when_set value (is_Some (decode_cid_map value));
  ty_roots : key = "media_excluded_roots" → ∃ roots, parseMediaExcludedRoots value = Ok roots
}.

Lemma int_between_spec low high value : int_between low high value = true ↔ between low high value.
Proof.
  unfold int_between, between. destruct (parse_int value) as [n|]; [|naive_solver].
  rewrite andb_true_iff, Z.leb_le, Z.leb_le. naive_solver.
Qed.

(** A check on a key: skipped on another key, and on no value. *)
Lemma guard_set (c : bool) (value : string) (b : bool) :
  c && negb (bool_decide (value = "")) && negb b = false ↔ (c = true → when_set value (b = true)).
Proof. unfold when_set. destruct c, b; case_bool_decide; cbn; naive_solver. Qed.

Lemma http_url_ok_spec value :
  http_url_ok value = true ↔ ∃ u, url_parse value = Some u ∧ u_host u ≠ "" ∧ (u_scheme u = "http" ∨ u_scheme u = "https").
Proof.
  unfold http_url_ok. destruct (url_parse value) as [u|]; [|naive_solver].
  rewrite andb_true_iff, orb_true_iff, negb_true_iff, bool_decide_eq_false, !bool_decide_eq_true. naive_solver.
Qed.

Lemma interval_ok value : trim_space value = value →
  is_ok (parseShareSnapshotInterval value) = true ↔ when_set value (between 0 max_interval value).
Proof.
  intros Ht. unfold parseShareSnapshotInterval, when_set, between. rewrite Ht. case_bool_decide as Hv; [naive_solver|].
  destruct (parse_int value) as [n|]; [|cbn; naive_solver].
  destruct (_ || _) eqn:E; cbn; [|bools; naive_solver].
  apply orb_true_iff in E. rewrite !Z.ltb_lt in E. split; [done|]. intros [?|(m & [= <-] & ?)]; [done|lia].
Qed.

Lemma fail_if_bind c e {A} (m : res A) a : (_ ← fail_if c e; m) = Ok a ↔ c = false ∧ m = Ok a.
Proof. destruct c; cbn; naive_solver. Qed.
Lemma if_ok (c : bool) {A} (m : res A) : (if c then _ ← m; Ok tt else Ok tt) = Ok tt ↔ (c = true → is_ok m = true).
Proof. destruct c, m; cbn; naive_solver. Qed.
Lemma bind_unit (m : res unit) {A} (k : res A) a : (_ ← m; k) = Ok a ↔ m = Ok tt ∧ k = Ok a.
Proof. destruct m as [[]|e]; cbn; naive_solver. Qed.

Lemma check_setting_spec key value : trim_space value = value → (key ∈ secretSettingKeys → value ≠ "") →
  check_setting key value = Ok tt ↔ setting_typed key value.
Proof.
  intros Ht Hs. unfold check_setting.
  rewrite !fail_if_bind, bind_unit, !fail_if_bind, !if_ok, !guard_set, !bool_decide_eq_true, !int_between_spec, http_url_ok_spec, interval_ok by done.
  assert (∀ c b1 b2 : bool, c && negb b1 && negb b2 = false ↔ (c = true → b1 = true ∨ b2 = true)) as E1
    by (intros [] [] []; cbn; naive_solver).
  assert (∀ c b1 b2 : bool, c && (b1 || b2) = false ↔ (c = true → b1 = false ∧ b2 = false)) as E2
    by (intros [] [] []; cbn; naive_solver).
  assert (∀ c (o : option (gmap string string)), c && negb (bool_decide (value = "")) && match o with Some _ => false | None => true end = false
    ↔ (c = true → when_set value (is_Some o))) as E3.
  { intros [] []; unfold when_set; case_bool_decide; cbn; naive_solver. }
  assert (∀ A (m : res A), is_ok m = true ↔ ∃ a, m = Ok a) as E4 by (intros ? []; cbn; naive_solver).
  rewrite E1, E2, E3, E4, !bool_decide_eq_true, Nat.ltb_ge.
  split; [intros (?&?&?&?&?&?&?&?&?&?); by constructor|intros []; tauto].
Qed.

(** ** An update *)

(** What an entry of a request becomes: nothing, for a secret left blank. *)
Definition skipped (key raw : string) : bool := secret_key key && bool_decide (trim_space raw = "").
Definition accepted (key raw : string) : Prop :=
  key ∈ allowedSettingKeys ∧ (skipped key raw = true ∨ setting_typed key (trim_space raw)).

Lemma skipped_false key raw : skipped key raw = false → key ∈ secretSettingKeys → trim_space raw ≠ "".
Proof. unfold skipped, secret_key. intros Hs Hk. rewrite bool_decide_true in Hs by done. cbn in Hs. by bools. Qed.

Lemma accept_setting_ok filtered key raw filtered' :
  accept_setting filtered (key, raw) = Ok filtered' ↔
  accepted key raw ∧ filtered' = if skipped key raw then filtered else <[key := trim_space raw]> filtered.
Proof.
  unfold accept_setting, accepted, allowed_key. case_bool_decide as Hk; cbn [negb]; [|naive_solver].
  change (secret_key key && bool_decide (trim_space raw = "")) with (skipped key raw).
  destruct (skipped key raw) eqn:Hs; [naive_solver|].
  rewrite bind_unit, check_setting_spec; [naive_solver|apply trim_space_idemp|by apply skipped_false].
Qed.

(** The filtered map of a list of entries. *)
Definition filtered_from (l : list (string * string)) (start : gmap string string) : gmap string string :=
  foldl (λ f kv, if skipped kv.1 kv.2 then f else <[kv.1 := trim_space kv.2]> f) start l.

Lemma accept_all_ok l start f :
  res_fold accept_setting l start = Ok f ↔ Forall (λ kv, accepted kv.1 kv.2) l ∧ f = filtered_from l start.
Proof.
  revert start. induction l as [|[k v] l IH]; intros start; cbn [res_fold]; [rewrite Forall_nil; cbn; naive_solver|].
  rewrite Forall_cons. cbn [fst snd]. destruct (accept_setting start (k, v)) as [start'|e] eqn:E.
  - apply accept_setting_ok in E as [Ha ->]. rewrite IH. cbn. naive_solver.
  - split; [done|]. intros [[Ha _] _].
    assert (accept_setting start (k, v) = Ok (if skipped k v then start else <[k := trim_space v]> start)) as E' by (by apply accept_setting_ok).
    congruence.
Qed.

Lemma filtered_lookup l start key : NoDup l.*1 →
  filtered_from l start !! key =
  match (list_to_map l : gmap string string) !! key with
  | Some v => if skipped key v then start !! key else Some (trim_space v)
  | None => start !! key
  end.
Proof.
  revert start. induction l as [|[k v] l IH]; intros start Hn; cbn; [by rewrite lookup_empty|].
  apply NoDup_cons in Hn as [Hk Hn]. change (foldl _ ?s l) with (filtered_from l s). rewrite IH by done.
  destruct (decide (k = key)) as [->|Hne].
  - rewrite lookup_insert_eq. cbn in Hk. apply (not_elem_of_list_to_map_1 (M := gmap string)) in Hk. rewrite Hk. cbn.
    destruct (skipped key v); [done|]. by rewrite lookup_insert_eq.
  - rewrite (lookup_insert_ne _ k key) by done. cbn. destruct (skipped k v); [done|]. by rewrite lookup_insert_ne.
Qed.

(** The whole of an accepted request. *)
Definition filtered_of (values : gmap string string) : gmap string string := filtered_from (range_over (map_to_list values)) ∅.

Lemma filtered_of_lookup values key :
  filtered_of values !! key = v ← values !! key; if skipped key v then None else Some (trim_space v).
Proof.
  unfold filtered_of. assert (NoDup (range_over (map_to_list values)).*1) as Hn
    by (rewrite (range_perm (map_to_list values)); apply NoDup_fst_map_to_list).
  rewrite filtered_lookup by done.
  rewrite (list_to_map_proper _ (map_to_list values)) by (done || apply range_perm).
  rewrite list_to_map_to_list, lookup_empty. destruct (values !! key) as [v|]; [|done]. cbn. by destruct (skipped key v).
Qed.
End Types.

(** * Updates and readers *)

(** The account the credential of 115 is stored on is no obstacle: it has a type, and no
    provider has two default accounts. *)
Definition accounts_sound (d : Database) : Prop :=
  one_default d ∧ ∀ id r, first_account d = Some (id, r) → sql_blank (DriveAccount.Type_ r) = false.

Lemma first_account_row d id r : first_account d = Some (id, r) → accounts d !! id = Some r.
Proof.
  unfold first_account. intros Hh. assert ((id, r) ∈ select (λ _ _, true) default_first (accounts d)) as Hin.
  { destruct (select _ _ _) as [|x l]; [done|]. injection Hh as ->. by left. }
  unfold select in Hin. rewrite (merge_sort_Permutation _ _) in Hin. by apply elem_of_rows_where in Hin as [? _].
Qed.

Lemma set_first_cookie_sound cookie at_ d d' :
  accounts d' = accounts d → accounts_sound d → is_ok (set_first_cookie cookie at_ d') = true.
Proof.
  intros Ha [Hu Ht]. unfold set_first_cookie. destruct (first_account d') as [[id r]|] eqn:E; [|done].
  assert (first_account d = Some (id, r)) as Ef by (unfold first_account in *; by rewrite <-Ha).
  pose proof (first_account_row _ _ _ Ef) as Hr. rewrite (Ht _ _ Ef). rewrite put_account_ok; [done|].
  rewrite Ha. cbn. intros k x Hx Hne Hd Hdr Hty. apply Hne. by eapply (Hu k id x r).
Qed.

Section Update.
Context `{Env} `{Urls} `{CidMap} `{Names} `{Ranging}.
Implicit Types d : Database.

(** Settings of the table that a client may set are of their types. *)
Definition settings_typed d : Prop := ∀ key value t, settings d !! key = Some (value, t) → key ∈ allowedSettingKeys → setting_typed key value.

(** The table after an accepted request. *)
Definition updated (values : gmap string string) (at_ : Z) d (key : string) : option (string * Z) :=
  match values !! key with
  | Some raw => if skipped key raw then settings d !! key else Some (trim_space raw, at_)
  | None => settings d !! key
  end.

Lemma put_filtered values at_ d key :
  settings (put_settings (map_to_list (filtered_of values)) at_ d) !! key = updated values at_ d key.
Proof.
  rewrite put_settings_lookup by apply NoDup_fst_map_to_list. rewrite list_to_map_to_list, filtered_of_lookup. unfold updated.
  destruct (values !! key) as [raw|]; [|done]. cbn. by destruct (skipped key raw).
Qed.

Lemma all_accepted values :
  Forall (λ kv, accepted kv.1 kv.2) (range_over (map_to_list values)) ↔ ∀ key raw, values !! key = Some raw → accepted key raw.
Proof.
  rewrite (range_perm (map_to_list values)), Forall_forall. split.
  - intros Hf key raw Hk. by apply (Hf (key, raw)), elem_of_map_to_list.
  - intros Hf [key raw] Hk%elem_of_map_to_list. by apply Hf.
Qed.

Lemma first_cookie_settings cookie at_ d d' : set_first_cookie cookie at_ d = Ok d' → settings d' = settings d.
Proof.
  unfold set_first_cookie, put_account. destruct (first_account d) as [[id r]|]; [|by intros [= <-]].
  destruct (negb _); [done|]. by intros [= <-].
Qed.

Lemma update_effect values w :
  wp (Update values) w (λ r w', match r with
  | Ok _ => (∀ key raw, values !! key = Some raw → accepted key raw) ∧
      (∃ at_, ∀ key, settings (w_db w') !! key = updated values at_ (w_db w) key) ∧
      (trim_space (default "" (values !! "115_cookie")) = "" → accounts (w_db w') = accounts (w_db w))
  | Err e => w_db w' = w_db w ∧
      ((∀ key raw, values !! key = Some raw → accepted key raw) →
       trim_space (default "" (values !! "115_cookie")) = "" ∨ accounts_sound (w_db w) → fault_error e)
  end).
Proof.
  unfold Update. apply wp_bind, wp_lift.
  destruct (res_fold accept_setting _ ∅) as [f|e] eqn:Hf.
  2: { split; [done|]. intros Ha _. apply all_accepted in Ha.
       by rewrite (proj2 (accept_all_ok _ ∅ _) (conj Ha eq_refl)) in Hf. }
  apply accept_all_ok in Hf as [Ha ->]. change (filtered_from _ ∅) with (filtered_of values). pose proof (proj1 (all_accepted _) Ha) as Hall.
  assert (default "" (filtered_of values !! "115_cookie") = trim_space (default "" (values !! "115_cookie"))) as Hc.
  { rewrite filtered_of_lookup. destruct (values !! "115_cookie") as [raw|]; [|done].
    cbn [mbind option_bind]. change (default "" (Some raw)) with raw. destruct (skipped _ raw) eqn:Hs; [|done]. unfold skipped in Hs. apply andb_true_iff in Hs as [_ Hs%bool_decide_eq_true]. by rewrite Hs. }
  eapply wp_mono; [apply settings_effect|]. rewrite Hc. intros [[]|e] w'.
  - intros (at_ & Hd). split; [done|]. case_decide as E.
    + rewrite Hd, put_settings_tables. split; [|done]. exists at_. intros key. apply put_filtered.
    + split; [|done]. exists at_. intros key. rewrite (first_cookie_settings _ _ _ _ Hd). apply put_filtered.
  - intros [-> Hcause]. split; [done|]. intros _ Hok. destruct Hcause as [?|[Hset (at_ & Hbad)]]; [done|]. exfalso.
    destruct Hok as [Hblank|Hs]; [done|].
    rewrite (set_first_cookie_sound _ _ (w_db w)) in Hbad; [done|by rewrite put_settings_tables|done].
Qed.

(** C24: an update of the settings is exact.  Whatever fails, it stores all values of the
    request, trimmed, or none of them.  It succeeds only when each key is one a client may
    set and each value is of the type of its key; a secret left blank keeps what is stored;
    every other setting keeps its value, and without a 115 credential the accounts do too.
    With such values it fails only when the database does, or when it gives a credential and
    the accounts are unsound.  Well typed settings stay well typed. *)
Theorem settings_update_exact values w :
  wp (Update values) w (λ r w', (settings_typed (w_db w) → settings_typed (w_db w')) ∧ match r with
    | Ok _ => (∀ key raw, values !! key = Some raw → accepted key raw) ∧
        (∃ at_, ∀ key, settings (w_db w') !! key = updated values at_ (w_db w) key) ∧
        (trim_space (default "" (values !! "115_cookie")) = "" → accounts (w_db w') = accounts (w_db w))
    | Err e => w_db w' = w_db w ∧
        ((∀ key raw, values !! key = Some raw → accepted key raw) →
         trim_space (default "" (values !! "115_cookie")) = "" ∨ accounts_sound (w_db w) → fault_error e)
    end).
Proof.
  eapply wp_mono; [apply update_effect|]. intros [[]|e] w' Hr; (split; [|exact Hr]); intros Ht.
  - destruct Hr as (Hall & (at_ & Hs) & _). intros key value t Hk Hin. rewrite Hs in Hk. unfold updated in Hk.
    destruct (values !! key) as [raw|] eqn:Hv; [|by eapply Ht]. destruct (skipped key raw) eqn:Hsk; [by eapply Ht|].
    injection Hk as <- _. destruct (Hall _ _ Hv) as [_ [Hbad|Hok]]; [congruence|done].
  - by destruct Hr as [-> _].
Qed.
End Update.

(** ** The readers *)

(** A string is in a list of constants. *)
Ltac member := match goal with |- ?P => refine (proj1 (bool_decide_eq_true P) _); vm_compute; reflexivity end.

Lemma get_setting_effect `{Env} key (w : World Pipe) :
  wp (on_db (GetSetting key)) w (λ r w', pi_db (w_db w') = pi_db (w_db w) ∧ match r with
    | Ok v => v = match settings (pi_db (w_db w)) !! key with Some (v, _) => v | None => "" end
    | Err e => fault_error e
    end).
Proof.
  unfold GetSetting. apply wp_on_db, wp_query; cbn [w_db pi_db].
  - intros e n [He|He]; [done|by destruct (settings _ !! key) as [[]|]].
  - intros v n [= <-]. done.
Qed.

Section Readers.
Context `{Env} `{Urls} `{CidMap} `{Names}.
Implicit Types w : World Pipe.

(** The stored text of a setting. *)
Definition stored_text (d : Database) (key : string) : string := match settings d !! key with Some (v, _) => v | None => "" end.

Lemma stored_typed d key : settings_typed d → key ∈ allowedSettingKeys → stored_text d key = "" ∨ setting_typed key (stored_text d key).
Proof.
  intros Ht Hk. unfold stored_text. destruct (settings d !! key) as [[v t]|] eqn:E; [|by left]. right. by eapply Ht.
Qed.

(** What a text says of the free space to keep: the number it is, or less when it is written
    with a leading zero, which the reader takes for octal. *)
Definition minimum_read (text : string) (n : Z) : Prop :=
  if decide (text = "") then n = defaultTransferMinFreeBytes
  else ∃ stored, parse_int text = Some stored ∧ (0 ≤ n ≤ stored)%Z ∧ (¬ leading_zero (number_digits text) → n = stored).
Definition connections_read (text : string) (n : Z) : Prop :=
  if decide (text = "") then n = quarkDownloadDefaultConnections else parse_int text = Some n ∧ (1 ≤ n ≤ 8)%Z.

Lemma transfer_settings_read w : settings_typed (pi_db (w_db w)) →
  wp transferSettings w (λ r _, match r with
    | Ok (directory, minimum) => is_abs directory = true ∧ minimum_read (stored_text (pi_db (w_db w)) "transfer_min_free_bytes") minimum
    | Err e => fault_error e
    end).
Proof.
  intros Ht. unfold transferSettings. apply wp_bind. eapply wp_mono; [apply get_setting_effect|].
  intros [directory|e] w1 [Hd Hv]; [|done]. change (directory = stored_text (pi_db (w_db w)) "transfer_temp_dir") in Hv.
  cbv zeta. set (dir := if bool_decide (trim_space directory = "") then _ else _).
  assert (is_abs dir = true) as Habs.
  { unfold dir. case_bool_decide as Hb; [done|].
    destruct (stored_typed _ "transfer_temp_dir" Ht ltac:(member)) as [E|Hty]; rewrite <-Hv in *; [by rewrite E in Hb|].
    destruct (ty_path _ _ Hty) as [E|?]; [member|by rewrite E in Hb|done]. }
  rewrite Habs. cbn [negb]. apply wp_bind. eapply wp_mono; [apply get_setting_effect|]. rewrite Hd.
  intros [text|e] w2 [_ Hx]; [|done]. change (text = stored_text (pi_db (w_db w)) "transfer_min_free_bytes") in Hx. rewrite <-Hx.
  assert (text = "" ∨ setting_typed "transfer_min_free_bytes" text) as Hty by (rewrite Hx; apply stored_typed; [done|member]).
  destruct Hty as [->|Hty]; [by apply wp_ret|]. rewrite (ty_trimmed _ _ Hty). unfold minimum_read.
  case_bool_decide as Hb; [apply wp_ret; split; [done|]; by rewrite decide_True|].
  destruct (ty_minimum _ _ Hty eq_refl) as [?|(n & Hn & Hle)]; [done|].
  destruct (sscan_parsed text n Hn ltac:(lia)) as (m & -> & Hm & Heq).
  destruct (Z.ltb m 0) eqn:Hneg; [apply Z.ltb_lt in Hneg; lia|]. apply wp_ret. split; [done|]. rewrite decide_False by done. by exists n.
Qed.

Lemma connections_settings_read w : settings_typed (pi_db (w_db w)) →
  wp quarkDownloadConnections w (λ r _, ∃ n, r = Ok n ∧
    (connections_read (stored_text (pi_db (w_db w)) "quark_download_connections") n ∨ (∃ e, fault_error e) ∧ n = quarkDownloadDefaultConnections)).
Proof.
  intros Ht. unfold quarkDownloadConnections. apply wp_bind, wp_attempt. eapply wp_mono; [apply get_setting_effect|].
  intros [text|e] w1 [_ Hv].
  2: { apply wp_ret. eexists. split; [done|]. right. split; [by exists e|done]. }
  change (text = stored_text (pi_db (w_db w)) "quark_download_connections") in Hv. rewrite <-Hv. unfold connections_read.
  assert (text = "" ∨ setting_typed "quark_download_connections" text) as Hty by (rewrite Hv; apply stored_typed; [done|member]).
  destruct Hty as [->|Hty]. { apply wp_ret. eexists. split; [done|]. by left. }
  rewrite (ty_trimmed _ _ Hty). destruct (ty_connections _ _ Hty eq_refl) as [->|(n & Hn & Hle)].
  { apply wp_ret. eexists. split; [done|]. by left. }
  rewrite Hn. destruct (_ || _) eqn:Hb; [apply orb_true_iff in Hb; rewrite !Z.ltb_lt in Hb; lia|].
  apply wp_ret. exists n. split; [done|]. left. rewrite decide_False; [done|]. intros ->. by vm_compute in Hn.
Qed.

Lemma excluded_settings_read library w : settings_typed (pi_db (w_db w)) → wp (excludedRoots library) w (λ r _, is_ok r = true).
Proof.
  intros Ht. unfold excludedRoots. destruct (negb _); [by apply wp_ret|]. unfold or_zero. apply wp_bind, wp_bind, wp_attempt.
  eapply wp_mono; [apply get_setting_effect|]. intros [text|e] w1 [_ Hv]; apply wp_ret, wp_lift; [|done].
  change (text = stored_text (pi_db (w_db w)) "media_excluded_roots") in Hv.
  assert (text = "" ∨ setting_typed "media_excluded_roots" text) as Hty by (rewrite Hv; apply stored_typed; [done|member]).
  destruct Hty as [->|Hty]; [done|]. by destruct (ty_roots _ _ Hty eq_refl) as [roots ->].
Qed.

(** What an update stores, its readers understand.  On well typed settings the transfer of
    an import reads an absolute directory and a minimum of free space that is not negative,
    and the number of connections is from 1 to 8; both are the stored numbers, or the
    default when none is stored, but for a minimum written with a leading zero, of which less
    is read; the excluded roots are read without an error.  Only a failure of the database
    stops the reader of the transfer. *)
Theorem typed_settings_read library w : settings_typed (pi_db (w_db w)) →
  wp transferSettings w (λ r _, match r with
    | Ok (directory, minimum) => is_abs directory = true ∧ minimum_read (stored_text (pi_db (w_db w)) "transfer_min_free_bytes") minimum
    | Err e => fault_error e
    end) ∧
  wp quarkDownloadConnections w (λ r _, ∃ n, r = Ok n ∧
    (connections_read (stored_text (pi_db (w_db w)) "quark_download_connections") n ∨ (∃ e, fault_error e) ∧ n = quarkDownloadDefaultConnections)) ∧
  wp (excludedRoots library) w (λ r _, is_ok r = true).
Proof. intros Ht. split; [by apply transfer_settings_read|]. split; [by apply connections_settings_read|by apply excluded_settings_read]. Qed.

(** A minimum written with a leading zero is accepted as the decimal number it is, and read as
    another: "0100" bytes are 64. *)
Theorem leading_zero_misread :
  setting_typed "transfer_min_free_bytes" "0100" ∧ parse_int "0100" = Some 100%Z ∧
  ∀ w t, (∀ n, env_fault n = None) → settings (pi_db (w_db w)) = {["transfer_min_free_bytes" := ("0100", t)]} →
    wp transferSettings w (λ r _, r = Ok (defaultTransferTempDir, 64%Z)).
Proof.
  split; [|split; [done|]].
  - apply check_setting_spec; [by vm_compute|done|by vm_compute].
  - intros w t Hf Hs. unfold transferSettings. apply wp_bind. eapply wp_mono; [apply get_setting_effect|]. rewrite Hs.
    intros [d|e] w1 [E Hd]; [|by destruct (no_fault_error _ Hf Hd)]. rewrite Hd. cbn [negb]. apply wp_bind.
    eapply wp_mono; [apply get_setting_effect|]. rewrite E, Hs. intros [x|e] w2 [_ Hx]; [|by destruct (no_fault_error _ Hf Hx)].
    rewrite Hx. by apply wp_ret.
Qed.
End Readers.

Section Witness.
#[local] Existing Instance quiet.
#[local] Instance no_urls : Urls := {| url_parse _ := None; url_parse_request _ := None |}.
#[local] Instance no_cids : CidMap := {| decode_cid_map _ := None |}.
#[local] Instance no_names : Names := {| decode_names _ := None |}.

Definition stored_minimum : World Pipe :=
  mkWorld 0 (mkPipe (set_settings {["transfer_min_free_bytes" := ("100", 0%Z)]} empty_database) ∅ []).

Lemma typed_settings_read_witness :
  settings_typed (pi_db (w_db stored_minimum)) ∧
  wp transferSettings stored_minimum (λ r _, match r with Ok (_, minimum) => minimum_read "100" minimum | Err _ => False end).
Proof.
  assert (settings_typed (pi_db (w_db stored_minimum))) as Ht.
  { intros key value t Hk _. change (({["transfer_min_free_bytes" := ("100", 0%Z)]} : gmap string (string * Z)) !! key = Some (value, t)) in Hk.
    apply lookup_singleton_Some in Hk as [<- [= <- <-]]. apply check_setting_spec; [vm_compute; reflexivity|discriminate|vm_compute; reflexivity]. }
  split; [exact Ht|]. destruct (typed_settings_read "" stored_minimum Ht) as [Hread _].
  eapply wp_mono; [exact Hread|]. intros [[d n]|e] w' Hr; [exact (proj2 Hr)|exact (no_fault_error _ quiet_ok Hr)].
Defined.
End Witness.
