(* ===== verification/Subscriptions.v ===== *)
(** Share subscriptions: their rows ([src/internal/storage/share_subscription.go]), the
    service and the handlers over them ([src/internal/service/share_subscription.go],
    [src/internal/api/share_subscription.go]), and the polling task that turns one into an
    automatic completion of its series ([src/internal/service/share_auto_sync.go]).

    A context that is done is a failure of the statement ([Env]); the decoding of a body
    ([Bind]) is an argument of the handlers, as is the new ID. *)
From S2P Require Import Prelude GoStrings GoPath Sql Schema TaskStore ImportStore Accounts Payload Queue FileSys Remote Drive Destination.
From S2P Require Import Episodes Identity Service Local Autofill Pipeline Media Emby MediaIngest.

Abbreviation subscription := (string * ShareSubscription.t)%type.

(** * Storage *)

Section Store.
Context `{Env}.
Abbreviation Db := (M Database).

(** A row as it is read: NULL is the empty text and the zero time. *)
Definition read_subscription (r : ShareSubscription.t) : ShareSubscription.t :=
  let '(ShareSubscription.mk n p u pw c a cur err sync created updated) := r in
  ShareSubscription.mk n p u pw c a cur (Some (nstr err)) (Some (default time_zero sync)) created updated.

(** [CreateShareSubscription]: the times of creation and update are two readings of the clock. *)
Definition CreateShareSubscription (id : string) (s : ShareSubscription.t) : Db unit :=
  created ← now;
  updated ← now;
  stmt (λ d, match subscriptions d !! id with
    | Some _ => Err (ErrConstraint "UNIQUE constraint failed: share_subscriptions.id")
    | None =>
        let '(ShareSubscription.mk n p u pw c a cur err sync _ _) := s in
        let row := ShareSubscription.mk n p u pw c a cur (Some (nstr err)) (Some (default time_zero sync)) created updated in
        Ok (tt, set_subscriptions (<[id := row]> (subscriptions d)) d)
    end).

(** No row is no error. *)
Definition GetShareSubscription (id : string) : Db (option subscription) :=
  query (λ d, Ok ((λ r, (id, read_subscription r)) <$> subscriptions d !! id)).

Definition change_subscription (id : string) (f : ShareSubscription.t → ShareSubscription.t) : Db unit :=
  exec (λ d, (tt, set_subscriptions (update_where (by_key id (λ _, true)) f (subscriptions d)) d)).

Definition UpdateShareSubscription (id name provider url password targetCID : string) (active : bool) : Db unit :=
  t ← now;
  change_subscription id (λ r, ShareSubscription.mk name provider url password targetCID active (ShareSubscription.LastCursorTime r)
    (ShareSubscription.LastError r) (ShareSubscription.LastSyncAt r) (ShareSubscription.CreatedAt r) t).

(** [ORDER BY created_at DESC]. *)
Definition newest_subscription (x y : subscription) : bool :=
  Z.leb (ShareSubscription.CreatedAt y.2) (ShareSubscription.CreatedAt x.2).
Definition ListShareSubscriptions (activeOnly : bool) : Db (list subscription) :=
  query (λ d, Ok ((λ x : subscription, (x.1, read_subscription x.2)) <$>
    select (λ _ r, negb activeOnly || ShareSubscription.Active r) newest_subscription (subscriptions d))).

Definition UpdateShareSubscriptionCursor (id : string) (lastCursorTime : Z) : Db unit :=
  synced ← now;
  updated ← now;
  change_subscription id (λ r, let '(ShareSubscription.mk n p u pw c a _ _ _ created _) := r in
    ShareSubscription.mk n p u pw c a lastCursorTime None (Some synced) created updated).

Definition RecordShareSubscriptionError (id errMsg : string) : Db unit :=
  synced ← now;
  updated ← now;
  change_subscription id (λ r, let '(ShareSubscription.mk n p u pw c a cur _ _ created _) := r in
    ShareSubscription.mk n p u pw c a cur (Some errMsg) (Some synced) created updated).

Definition DeleteShareSubscription (id : string) : Db unit :=
  exec (λ d, (tt, set_subscriptions (delete id (subscriptions d)) d)).

Definition ToggleShareSubscription (id : string) (active : bool) : Db unit :=
  t ← now;
  change_subscription id (λ r, let '(ShareSubscription.mk n p u pw c _ cur err sync created _) := r in
    ShareSubscription.mk n p u pw c active cur err sync created t).

(** * Service and handlers *)

(** 2000-01-01 in UTC. *)
Definition year_2000 : Z := 946684800 * 10 ^ 9.

(** [ShareSubscriptionService.Create]. *)
Definition Create (newID : string) (sub : ShareSubscription.t) : Db subscription :=
  let '(ShareSubscription.mk n p u pw c _ cur err sync created updated) := sub in
  let cur := if Z.eqb cur time_zero then year_2000 else cur in
  let sub := ShareSubscription.mk n p u pw c true cur err sync created updated in
  _ ← CreateShareSubscription newID sub;
  mret (newID, sub).
Definition List (activeOnly : bool) : Db (list subscription) := ListShareSubscriptions activeOnly.
Definition Delete (id : string) : Db unit := DeleteShareSubscription id.
Definition Toggle (id : string) (active : bool) : Db unit := ToggleShareSubscription id active.

(** The body of a request. *)
Record subscription_body := mkBody {
  sb_Name : string; sb_Provider : string; sb_URL : string; sb_Password : string; sb_TargetCID : string; sb_Active : bool
}.
(** A call whose error becomes an answer. *)
Definition answer_error {A} (code : Z) (text : error → string) (m : Db A) : Db A :=
  r ← attempt m;
  lift match r with Ok a => Ok a | Err e => Err (ErrHTTP code (text e)) end.
Definition checked_body (body : res subscription_body) : res subscription_body :=
  match body with
  | Err e => Err (ErrHTTP 400 (error_text e))
  | Ok b =>
      if bool_decide (sb_Name b = "") || bool_decide (sb_Provider b = "") || bool_decide (sb_URL b = "") then
        Err (ErrHTTP 400 "name, provider and url are required")
      else Ok b
  end.

Definition handleListShareSubscriptions : Db (list subscription) := answer_error 500 error_text (ListShareSubscriptions false).
Definition handleCreateShareSubscription (newID : string) (body : res subscription_body) : Db (option subscription) :=
  b ← lift (checked_body body);
  _ ← answer_error 500 (λ _, "failed to create subscription") (CreateShareSubscription newID
        (ShareSubscription.mk (sb_Name b) (sb_Provider b) (sb_URL b) (sb_Password b) (sb_TargetCID b) (sb_Active b) time_zero None None
           time_zero time_zero));
  answer_error 500 error_text (GetShareSubscription newID).
Definition handleUpdateShareSubscription (id : string) (body : res subscription_body) : Db (option subscription) :=
  b ← lift (checked_body body);
  _ ← answer_error 500 (λ _, "failed to update subscription")
        (UpdateShareSubscription id (sb_Name b) (sb_Provider b) (sb_URL b) (sb_Password b) (sb_TargetCID b) (sb_Active b));
  answer_error 500 error_text (GetShareSubscription id).
Definition handleDeleteShareSubscription (id : string) : Db unit := answer_error 500 error_text (DeleteShareSubscription id).
End Store.

(** * Polling *)

(** What a poll says: the task that completes the series, the task of it that is active when
    it was queued before, or the one it queued. *)
Inductive poll_result :=
| Waiting (next active : string)
| Queued (next : string).

(** [Payload["parent_task_id"].(string)]. *)
Definition text_field (p : payload) (key : string) : string :=
  match p !! key with Some (VString s) => s | _ => "" end.
(** [parent.Payload["subscription_id"] == subID]. *)
Definition names_subscription (subID : string) (t : AsyncTask.t) : bool :=
  bool_decide (AsyncTask.Type_ t = "series_auto_fill") &&
  match AsyncTask.Payload t !! "subscription_id" with Some (VString s) => bool_decide (s = subID) | _ => false end.

(** The payload of the completion. *)
Definition poll_payload (library seriesID : string) (s : subscription) : payload :=
  {["libraries" := VStrings [library]; "series_ids" := VStrings [seriesID]; "transfer" := VBool true; "subscription_id" := VString s.1;
    "source_shares" := VObject [(seriesID, VObject [("provider", VString (ShareSubscription.Provider s.2));
                                                    ("url", VString (ShareSubscription.URL s.2));
                                                    ("password", VString (ShareSubscription.Password s.2))])]]}.

Section Poll.
Context `{Env} {ctx : Ctx} `{Sleep} `{Remote} `{Providers} `{Local} `{Names} `{Ranging} `{Workers} `{Unicode} `{CidMap} `{Urls}.
Context `{Native} `{EmbyJson} `{PathEscape} (rounds : nat).
Abbreviation Pi := (M Pipe).

(** One active task: the completion it belongs to, when that is of the subscription. *)
Definition active_parent (taskID subID : string) (candidate : task_with_id) : Pi (option poll_result) :=
  if bool_decide (candidate.1 = taskID) then mret None else
  let found (parentID : string) (parent : AsyncTask.t) :=
    mret (if names_subscription subID parent then Some (Waiting parentID candidate.1) else None) in
  if bool_decide (AsyncTask.Type_ candidate.2 = "quark_to_115_import") then
    let parentID := text_field (AsyncTask.Payload candidate.2) "parent_task_id" in
    if bool_decide (parentID = "") then mret None else
    parent ← on_db (GetAsyncTask parentID);
    found parentID parent
  else found candidate.1 candidate.2.

Fixpoint first_parent (taskID subID : string) (active : list task_with_id) : Pi (option poll_result) :=
  match active with
  | [] => mret None
  | candidate :: active =>
      r ← active_parent taskID subID candidate;
      match r with Some _ => mret r | None => first_parent taskID subID active end
  end.
Definition running_poll (taskID subID : string) (found : option poll_result) (status : string) : Pi (option poll_result) :=
  match found with
  | Some _ => mret found
  | None => active ← on_db (ListAsyncTasks status 0); first_parent taskID subID active
  end.

(** [subscriptionSeries]. *)
Definition folder_of_target (libraryCID targetCID : string) (files : list DriveFile) : string :=
  match find (λ f, df_IsFolder f && bool_decide (df_FileID f = targetCID) && bool_decide (df_ParentID f = libraryCID)) files with
  | Some f => df_Name f
  | None => ""
  end.
Definition in_folder (library folder : string) (s : EmbyMediaItem) : bool :=
  bool_decide (folder_of s = folder) && bool_decide (parent_of s = library) && negb (bool_decide (trim_space (tmdb_of s) = "")).
Definition match_series (accountID targetCID : string) (cids : gmap string string) (matches : list (string * string)) (library : EmbyLibrary)
    : Pi (list (string * string)) :=
  if negb (bool_decide (lb_Name library ∈ autoFillLibrarySet)) then mret matches else
  let libraryCID := cid_of cids library in
  if bool_decide (libraryCID = "") then mret matches else
  files ← listAllProviderFiles "115" accountID libraryCID;
  let folder := folder_of_target libraryCID targetCID files in
  if bool_decide (folder = "") then mret matches else
  inventory ← finished_wait (ListSeriesCtx rounds (lb_ID library));
  mret (matches ++ ((λ s, (lb_Name library, mi_ID s)) <$> filter (λ s, in_folder (lb_Name library) folder s = true) inventory)).
Definition subscriptionSeries (targetCID : string) : Pi (string * string) :=
  raw ← on_db (GetSetting "c115_cid_map");
  cids ← lift match decode_cid_map raw with Some cids => Ok cids | None => Err (ErrText "decode c115_cid_map") end;
  libraries ← ListLibrariesCtx;
  account ← GetDefaultAccount "115";
  matches ← m_fold (match_series account.1 targetCID cids) libraries [];
  match matches with
  | [m] => mret m
  | _ => throw (ErrText ("subscription target_cid must match exactly one TMDB-bound Series in a following library; found "
                         +:+ pretty (length matches)))
  end.

Definition runShareAutoSync (newID taskID : string) (p : payload) : Pi poll_result :=
  subID ← lift (stringPayload p "subscription_id" true);
  sub ← on_db (GetShareSubscription subID);
  match sub with
  | None => throw (ErrText "active subscription not found")
  | Some sub =>
      if negb (ShareSubscription.Active sub.2) then throw (ErrText "active subscription not found") else
      let targetCID := ShareSubscription.TargetCID sub.2 in
      if bool_decide (trim_space targetCID = "") then
        throw (ErrText "subscription target_cid must identify an existing following Series directory")
      else
      found ← m_fold (running_poll taskID subID) ["pending"; "running"] None;
      match found with
      | Some r => mret r
      | None =>
          '(library, seriesID) ← subscriptionSeries targetCID;
          queued ← on_db (Enqueue newID "series_auto_fill" (poll_payload library seriesID sub));
          mret (Queued queued.1)
      end
  end.
End Poll.
