(* ===== verification/SubscriptionsProofs.v ===== *)
(** Properties of the share subscriptions ([Subscriptions.v]): what a poll asks, and that it
    queues one completion, of the one series its directory is. *)
From S2P Require Import Prelude GoStrings GoPath Sql Schema TaskStore TaskProofs ImportStore Accounts Payload Queue QueueProofs FileSys Remote Drive.
From S2P Require Import DriveProofs Destination.
From S2P Require Import Episodes Identity Service Local Autofill Pipeline Media DestinationProofs ReplacementProofs AutofillFrames Emby EmbyProofs EmbyDeletionProofs.
From S2P Require Import MediaIngest MediaIngestProofs Subscriptions.

(** * What is active *)

Section Active.
Implicit Types d : Database.

(** The task [active] of the subscription's completion [next]: the completion itself, or one
    of its imports. *)
Definition belongs d (subID next active : string) (t : AsyncTask.t) : Prop :=
  ∃ parent, tasks d !! next = Some parent ∧ names_subscription subID parent = true ∧
    if decide (AsyncTask.Type_ t = "quark_to_115_import") then next = text_field (AsyncTask.Payload t) "parent_task_id" ∧ next ≠ ""
    else next = active.
Definition active_task d (taskID subID next active : string) : Prop :=
  active ≠ taskID ∧ ∃ t, tasks d !! active = Some t ∧ (AsyncTask.Status t = "pending" ∨ AsyncTask.Status t = "running") ∧
    belongs d subID next active t.

Definition poll_found d (taskID subID : string) (active : list task_with_id) (r : res (option poll_result)) : Prop :=
  match r with
  | Ok (Some (Waiting next a)) => ∃ t, (a, t) ∈ active ∧ a ≠ taskID ∧ belongs d subID next a t
  | Ok (Some (Queued _)) => False
  | Ok None => ∀ a t next, (a, t) ∈ active → a ≠ taskID → ¬ belongs d subID next a t
  | Err _ => True
  end.

Context `{Env} {ctx : Ctx} `{Sleep} `{Remote}.
Implicit Types w : World Pipe.

Lemma parent_effect taskID subID a t w :
  tasks (pi_db (w_db w)) !! a = Some t →
  wp (active_parent taskID subID (a, t)) w (λ r w', w_db w' = w_db w ∧ poll_found (pi_db (w_db w)) taskID subID [(a, t)] r).
Proof.
  intros Ha. unfold active_parent. cbn [fst snd]. set (d := pi_db (w_db w)) in *.
  assert (∀ x y, (a, y) ∈ [(x, t)] → a = x ∧ y = t) as Hone by (intros x y Hin; apply list_elem_of_singleton in Hin; naive_solver).
  case_bool_decide as Hid.
  { apply wp_ret. split; [done|]. intros a' t' next [= -> ->]%list_elem_of_singleton Hne. done. }
  case_bool_decide as Hty; [case_bool_decide as Hp; [apply wp_ret; split; [done|]|]|].
  - intros a' t' next [= -> ->]%list_elem_of_singleton _ (parent & _ & _ & Hb). rewrite decide_True in Hb by done. naive_solver.
  - apply wp_bind, wp_on_db, wp_query; [intros; by split; [destruct w as [? []]|]|]. cbn [w_db pi_db]. intros parent n Hpar.
    change (pi_db (w_db w)) with d in Hpar. destruct (tasks d !! text_field (AsyncTask.Payload t) "parent_task_id") as [p'|] eqn:Hlook; [|done]. injection Hpar as ->.
    apply wp_ret. split; [by destruct w as [? []]|]. destruct (names_subscription subID parent) eqn:Hn; cbn.
    + exists t. split; [by left|]. split; [done|]. exists parent. rewrite decide_True by done. done.
    + intros a' t' next [= -> ->]%list_elem_of_singleton _ (q & Hq & Hn' & Hb). rewrite decide_True in Hb by done. destruct Hb as [-> _].
      change (pi_db (w_db w)) with d in Hq. congruence.
  - apply wp_ret. split; [done|]. destruct (names_subscription subID t) eqn:Hn; cbn.
    + exists t. split; [by left|]. split; [done|]. exists t. by rewrite decide_False.
    + intros a' t' next [= -> ->]%list_elem_of_singleton _ (q & Hq & Hn' & Hb). rewrite decide_False in Hb by done. subst next.
      change (pi_db (w_db w)) with d in Hq. congruence.
Qed.

Lemma first_parent_effect taskID subID active w :
  (∀ a t, (a, t) ∈ active → tasks (pi_db (w_db w)) !! a = Some t) →
  wp (first_parent taskID subID active) w (λ r w', w_db w' = w_db w ∧ poll_found (pi_db (w_db w)) taskID subID active r).
Proof.
  revert w. induction active as [|[a t] active IH]; intros w Ht; cbn [first_parent].
  { apply wp_ret. split; [done|]. by intros a t next Hin%not_elem_of_nil. }
  apply wp_bind. eapply wp_mono; [apply parent_effect, Ht; by left|]. intros [[[next b|n]|]|e] w1 [E Hf]; [..|by split].
  - apply wp_ret. split; [done|]. cbn in *. destruct Hf as (t' & [= -> ->]%list_elem_of_singleton & Hrest). exists t. split; [by left|done].
  - done.
  - eapply wp_mono; [apply IH; intros b u Hin; rewrite E; apply Ht; by right|]. rewrite E. intros r w2 [E2 Hf2]. split; [by rewrite E2|].
    destruct r as [[[next b|n]|]|e]; cbn in *; [|done| |done].
    + destruct Hf2 as (u & Hin & Hu). exists u. split; [by right|done].
    + intros b u next [Hb|Hin]%elem_of_cons; [injection Hb as -> ->; apply Hf; by left|by apply Hf2].
Qed.

Lemma status_effect status w :
  wp (on_db (ListAsyncTasks status 0)) w (λ r w', w_db w' = w_db w ∧ ∀ l, r = Ok l → status ≠ "" →
    ∀ a t, (a, t) ∈ l ↔ tasks (pi_db (w_db w)) !! a = Some t ∧ AsyncTask.Status t = status).
Proof.
  unfold ListAsyncTasks. apply wp_on_db, wp_query; cbn [w_db pi_db].
  - intros e n _. split; [by destruct w as [? []]|done].
  - intros l n [= <-]. split; [by destruct w as [? []]|]. intros l [= <-] Hs a t. unfold limit. cbn [Z.ltb Z.compare].
    rewrite bool_decide_false by done. unfold select. rewrite (merge_sort_Permutation _ _), elem_of_rows_where. unfold has_status.
    by rewrite bool_decide_eq_true.
Qed.

(** The search over the active tasks changes nothing, and finds one exactly when there is one. *)
Lemma active_effect taskID subID w :
  wp (m_fold (running_poll taskID subID) ["pending"; "running"] None) w (λ r w', w_db w' = w_db w ∧
    match r with
    | Ok (Some (Waiting next active)) => active_task (pi_db (w_db w)) taskID subID next active
    | Ok (Some (Queued _)) => False
    | Ok None => ∀ next active, ¬ active_task (pi_db (w_db w)) taskID subID next active
    | Err _ => True
    end).
Proof.
  cbn [m_fold]. unfold running_poll at 1. apply wp_bind, wp_bind. eapply wp_mono; [apply status_effect|].
  intros [l|e] w1 [E1 Hl]; [|by split]. specialize (Hl _ eq_refl ltac:(done)).
  eapply wp_mono; [apply first_parent_effect; intros a t Hin; rewrite E1; by apply Hl in Hin as [? _]|]. rewrite E1.
  intros [[[next a|n]|]|e] w2 [E2 Hf]; cbn in Hf; [|done| |by split; [rewrite E2|]].
  - apply wp_bind. unfold running_poll. apply wp_ret, wp_ret. split; [by rewrite E2|]. destruct Hf as (t & [Ht Hs]%Hl & Hne & Hb).
    split; [done|]. exists t. by split_and!; [|left|].
  - apply wp_bind. unfold running_poll. apply wp_bind. eapply wp_mono; [apply status_effect|]. rewrite E2.
    intros [l2|e] w3 [E3 Hl2]; [|split; [by rewrite E3|done]]. specialize (Hl2 _ eq_refl ltac:(done)).
    eapply wp_mono; [apply first_parent_effect; intros a t Hin; rewrite E3; by apply Hl2 in Hin as [? _]|]. rewrite E3.
    intros [[[next a|n]|]|e] w4 [E4 Hf4]; cbn in Hf4; [..|by split; [rewrite E4|]]; [|done|]; apply wp_ret; (split; [by rewrite E4|]).
    + destruct Hf4 as (t & [Ht Hs]%Hl2 & Hne & Hb). split; [done|]. exists t. by split_and!; [|right|].
    + intros next active (Hne & t & Ht & [Hs|Hs] & Hb); [eapply Hf|eapply Hf4]; try done; [by apply Hl|by apply Hl2].
Qed.
End Active.

(** * The series *)

(** The tables a poll leaves as they are until it queues its task. *)
Definition same_work (d d' : Database) : Prop := tasks d' = tasks d ∧ subscriptions d' = subscriptions d ∧ imports d' = imports d.
#[export] Instance same_work_preorder : PreOrder same_work.
Proof. split; [done|]. intros d1 d2 d3 (E1 & E2 & E3) (F1 & F2 & F3). unfold same_work. by rewrite F1, F2, F3. Qed.

Lemma same_work_save `{Env} id r : keeps same_work (SaveAccount id r).
Proof.
  unfold SaveAccount, put_account. keeps_run.
  - by apply keeps_exec; [apply _|].
  - apply keeps_stmt; [apply _|]. intros d u d' Hs. simpl in Hs. by repeat case_match; simplify_eq/=.
Qed.

(** A poll lists folders of 115 and reads from Emby. *)
Definition poll_asks (a : action) : Prop := listing_request a ∨ is_get a.
Definition polls (w w' : World Pipe) (l : history) : Prop := pi_log (w_db w') = pi_log (w_db w) ++ l ∧ Forall poll_asks l.
Lemma polls_nil w w' : same_log (w_db w) (w_db w') → polls w w' [].
Proof. intros E. split; [by rewrite app_nil_r|constructor]. Qed.
Lemma polls_app w w1 w2 l l' : polls w w1 l → polls w1 w2 l' → polls w w2 (l ++ l').
Proof. intros [E F] [E' F']. split; [by rewrite E', E, app_assoc|by apply Forall_app]. Qed.
Lemma polls_lists w w' l : lists w w' l → polls w w' l.
Proof. intros [E F]. split; [done|]. eapply Forall_impl; [exact F|]. by left. Qed.
Lemma polls_gets w w' l : gets_by w w' l → polls w w' l.
Proof. intros [E F]. split; [done|]. eapply Forall_impl; [exact F|]. by right. Qed.

Section Target.
Context `{Env} {ctx : Ctx} `{Sleep} `{Remote} `{Providers} `{Local} `{Names} `{Ranging} `{Workers} `{Unicode} `{CidMap}.
Context `{Native} `{EmbyJson} `{PathEscape} (rounds : nat).
Implicit Types w : World Pipe.
Abbreviation changes := (pipe_rel (λ _, True) same_work).

Lemma changes_call method path query body contentType failed operation :
  keeps changes (emby_call method path query body contentType failed operation).
Proof. unfold emby_call, newRequest, getURLAndKey, setting_or_config, GetConfig, GetSetting, emby_do. frame. Qed.
Hint Resolve changes_call : frames.
Lemma changes_libraries : keeps changes ListLibrariesCtx.
Proof. unfold ListLibrariesCtx, emby_get. frame. Qed.
Lemma changes_pages {A} (page : Z → M Pipe (list A * Z)) n start found :
  (∀ start, keeps changes (page start)) → keeps changes (all_pages page n start found).
Proof. intros Hp. revert start found. induction n as [|n IH]; intros start found; cbn [all_pages]; frame. Qed.
Lemma changes_series library : keeps changes (finished_wait (ListSeriesCtx rounds library)).
Proof.
  unfold finished_wait, ListSeriesCtx. frame. apply changes_pages. intros start. unfold series_page, emby_get, decoded. frame.
Qed.
Lemma changes_list p a d : keeps changes (listAllProviderFiles p a d).
Proof. apply keeps_listAllProviderFiles; try done; try apply _; intros; apply same_work_save. Qed.
Lemma changes_default p : keeps changes (GetDefaultAccount p).
Proof. apply keeps_GetDefaultAccount; try done; try apply _; intros; apply same_work_save. Qed.
Hint Resolve changes_libraries changes_series changes_list changes_default : frames.
Lemma changes_target targetCID : keeps changes (subscriptionSeries rounds targetCID).
Proof. unfold subscriptionSeries, match_series, GetSetting. frame. Qed.

(** The libraries with the series of Emby that are in the target's folder: each library whose
    series are followed, and whose folder is configured, is listed in full on 115; where that
    shows the target, all its series are listed by Emby. *)
Definition followed (cids : gmap string string) (library : EmbyLibrary) : Prop :=
  lb_Name library ∈ autoFillLibrarySet ∧ cid_of cids library ≠ "".
Inductive targets_asked (cids : gmap string string) (target : string) : list (EmbyLibrary * list EmbyMediaItem) → history → Prop :=
| ta_none : targets_asked cids target [] []
| ta_skipped library found l : ¬ followed cids library → targets_asked cids target found l → targets_asked cids target ((library, []) :: found) l
| ta_absent library files found l l' :
    followed cids library → shown_from (cid_of cids library) 0 [] l files → folder_of_target (cid_of cids library) target files = "" →
    targets_asked cids target found l' → targets_asked cids target ((library, []) :: found) (l ++ l')
| ta_listed library files pages found l1 l2 l' :
    followed cids library → shown_from (cid_of cids library) 0 [] l1 files → folder_of_target (cid_of cids library) target files ≠ "" →
    paged 0 pages → paged_log items_page 0 pages l2 → targets_asked cids target found l' →
    targets_asked cids target
      ((library, filter (λ s, in_folder (lb_Name library) (folder_of_target (cid_of cids library) target files) s = true)
                        (series_item <$> concat pages.*1)) :: found) (l1 ++ l2 ++ l').
Definition targets_of (found : list (EmbyLibrary * list EmbyMediaItem)) : list (string * string) :=
  x ← found; (λ s, (lb_Name x.1, mi_ID s)) <$> x.2.
(** Among all libraries of Emby, one series is in the target's folder. *)
Definition sole_series (cids : gmap string string) (target : string) (m : string * string) (l : history) : Prop :=
  ∃ q a raw found l', l = ANative q (Ok a) :: l' ∧ made "GET" "/Library/VirtualFolders" q ∧ ej_libraries (na_body a) = Ok raw ∧
    found.*1 = library_of <$> raw ∧ targets_asked cids target found l' ∧ targets_of found = [m].

Lemma followed_effect acc target cids libraries matches w :
  wp (m_fold (match_series rounds acc target cids) libraries matches) w (λ r w', ∃ l, polls w w' l ∧ ∀ result, r = Ok result →
    ∃ found, found.*1 = libraries ∧ targets_asked cids target found l ∧ result = matches ++ targets_of found).
Proof.
  revert matches w. induction libraries as [|library libraries IH]; intros matches w; cbn [m_fold].
  { apply wp_ret. exists []. split; [by apply polls_nil|]. intros result [= <-]. exists []. rewrite app_nil_r. split_and!; [done|constructor|done]. }
  assert (∀ w1 l0 (x : list EmbyMediaItem), polls w w1 l0 →
    (∀ found l, targets_asked cids target found l → targets_asked cids target ((library, x) :: found) (l0 ++ l)) →
    wp (m_fold (match_series rounds acc target cids) libraries (matches ++ ((λ s, (lb_Name library, mi_ID s)) <$> x))) w1
      (λ r w', ∃ l, polls w w' l ∧ ∀ result, r = Ok result → ∃ found, found.*1 = library :: libraries ∧ targets_asked cids target found l ∧
        result = matches ++ targets_of found)) as Hrest.
  { intros w1 l0 x Hl Hx. eapply wp_mono; [apply IH|]. intros r w2 (l & Hl' & Hr). exists (l0 ++ l). split; [by eapply polls_app|].
    intros result ->. destruct (Hr _ eq_refl) as (found & Hf & Ha & ->). exists ((library, x) :: found). cbn. rewrite Hf.
    split_and!; [done|by apply Hx|by rewrite <-app_assoc]. }
  pose proof (λ w1 l0, Hrest w1 l0 []) as Hskip. cbn [fmap list_fmap] in Hskip. rewrite app_nil_r in Hskip.
  apply wp_bind. unfold match_series at 1. cbv zeta. case_bool_decide as Hname; cbn [negb].
  2: { apply wp_ret. apply (Hskip w []); [by apply polls_nil|]. intros found l Ha. constructor; [by intros [? _]|done]. }
  case_bool_decide as Hcid.
  { apply wp_ret. apply (Hskip w []); [by apply polls_nil|]. intros found l Ha. constructor; [by intros [_ ?]|done]. }
  apply wp_bind. eapply wp_mono; [apply listed_effect|]. intros [files|e] w1 (l1 & Hl1 & Hf); [|exists l1; split; [by apply polls_lists|done]].
  specialize (Hf _ eq_refl). apply polls_lists in Hl1. case_bool_decide as Hfold.
  { apply wp_ret. apply (Hskip w1 l1); [done|]. intros found l Ha. by eapply ta_absent. }
  apply wp_bind. eapply wp_mono; [apply series_effect|]. intros [series|e] w2 (l2 & Hl2 & Hs); apply polls_gets in Hl2.
  2: { exists (l1 ++ l2). split; [by eapply polls_app|done]. }
  destruct (Hs _ eq_refl) as (pages & Hp & Hlog & ->). apply wp_ret. apply (Hrest w2 (l1 ++ l2)); [by eapply polls_app|].
  intros found l Ha. rewrite <-app_assoc. by eapply ta_listed.
Qed.

Lemma sole_effect target w :
  wp (subscriptionSeries rounds target) w (λ r w', ∃ l, polls w w' l ∧ ∀ m, r = Ok m → ∃ cids, sole_series cids target m l).
Proof.
  unfold subscriptionSeries. apply wp_bind. eapply wp_mono; [apply silent_db|]. intros [raw|e] w1 Hs.
  2: { exists []. split; [by apply polls_nil|done]. }
  apply wp_bind, wp_lift. destruct (decode_cid_map raw) as [cids|]; [|exists []; split; [by apply polls_nil|done]].
  unfold ListLibrariesCtx. apply wp_bind, wp_bind. eapply wp_mono; [apply call_effect|]. intros r w2 [[Hs2 Hr]|(q & ans & Hq & E & Hr)].
  { destruct r as [a|e]; [by destruct (Hr a eq_refl)|]. exists []. split; [apply polls_nil; by etrans|done]. }
  assert (polls w w2 [ANative q ans]) as Hg by (split; [by rewrite E, Hs|constructor; [right; apply Hq|constructor]]).
  destruct r as [a|e]; [|by exists [ANative q ans]]. destruct Hr as [-> _]. apply wp_bind, wp_lift.
  destruct (ej_libraries (na_body a)) as [libs|e] eqn:Hlibs; [|by exists [ANative q (Ok a)]]. apply wp_ret, wp_bind.
  eapply wp_mono; [apply (keeps_GetDefaultAccount (λ _, False) any_db); intros; by apply keeps_any|].
  intros r w3 [(l0 & E0 & F0) _]. destruct l0 as [|b l0]; [|by inversion F0]. rewrite app_nil_r in E0.
  assert (polls w w3 [ANative q (Ok a)]) as Hg3 by (destruct Hg; split; [by rewrite E0|done]).
  destruct r as [account|e]; [|by eexists]. apply wp_bind. eapply wp_mono; [apply followed_effect|]. intros [matches|e] w4 (l & Hl & Hm).
  all: pose proof (polls_app _ _ _ _ _ Hg3 Hl) as Hgl. 2: { by eexists. }
  destruct (Hm _ eq_refl) as (found & Hf & Ha & Hmatch). destruct matches as [|m [|m' rest]].
  1, 3: apply wp_lift; eexists; split; [exact Hgl|done].
  apply wp_ret. eexists. split; [exact Hgl|]. intros m0 [= <-]. exists cids, q, a, libs, found, l. by split_and!.
Qed.
End Target.

(** * The poll *)

(** Queueing a task is no matter of the other tables. *)
Definition same_rows (d d' : Database) : Prop := subscriptions d' = subscriptions d ∧ imports d' = imports d.
#[export] Instance same_rows_preorder : PreOrder same_rows.
Proof. split; [done|]. intros d1 d2 d3 [E1 E2] [F1 F2]. unfold same_rows. by rewrite F1, F2. Qed.
Lemma persist_rows `{Env} id ty p : keeps same_rows (persistTask id ty p "").
Proof.
  unfold persistTask, CreateAsyncTask, prepareAsyncTask, insertAsyncTask. cbv zeta. rewrite bool_decide_true by done. keeps_run.
  all: apply keeps_stmt; [apply _|]; intros d u d' Hs; simpl in Hs; by repeat case_match; simplify_eq/=.
Qed.

(** What the completion that is queued reads in its payload. *)
Definition poll_spec (library seriesID : string) (s : ShareSubscription.t) : seriesAutoFillSpec :=
  let id := trim_space seriesID in
  mkSpec [library] [id] ∅
    {[id := mkShare (to_lower (trim_space (ShareSubscription.Provider s))) (trim_space (ShareSubscription.URL s)) (trim_space (ShareSubscription.Password s))]}
    true false 10 20.

Section Payload.
Context `{Urls}.

Lemma share_added id provider url password r :
  add_source_share ∅ (id, VObject [("provider", VString provider); ("url", VString url); ("password", VString password)]) = Ok r →
  r = {[trim_space id := mkShare (to_lower (trim_space provider)) (trim_space url) (trim_space password)]}.
Proof.
  unfold add_source_share. cbv zeta. cbn [fst snd]. destruct (bool_decide _); [done|].
  set (fields := [("provider", _); _; _]). change (field fields "provider") with (Some (VString provider)).
  change (field fields "url") with (Some (VString url)). change (field fields "password") with (Some (VString password)).
  intros Hr. ok_inv. all: done.
Qed.

Lemma poll_spec_read library seriesID s :
  is_ok (validateTask "series_auto_fill" (poll_payload library seriesID s)) = true →
  resolveSeriesAutoFillSpec (payload_roundtrip (poll_payload library seriesID s)) = Ok (poll_spec library seriesID s.2).
Proof.
  set (p := poll_payload library seriesID s). set (p' := payload_roundtrip p).
  assert (validateTask "series_auto_fill" p = ignore (resolveSeriesAutoFillSpec p)) as -> by reflexivity.
  destruct (resolveSeriesAutoFillSpec p) as [spec|e] eqn:Hs; [intros _|done]. revert Hs. unfold resolveSeriesAutoFillSpec.
  assert (stringSlicePayload p "libraries" = Ok [library]) as -> by reflexivity.
  assert (optionalStringSlicePayload p' "series_ids" = optionalStringSlicePayload p "series_ids") as -> by reflexivity.
  assert (sourceSharesPayload p' = sourceSharesPayload p) as -> by reflexivity.
  assert (sourceSharesPayload p = res_fold add_source_share
    [(seriesID, VObject [("provider", VString (ShareSubscription.Provider s.2)); ("url", VString (ShareSubscription.URL s.2));
                         ("password", VString (ShareSubscription.Password s.2))])] ∅) as -> by reflexivity.
  assert (optionalStringSlicePayload p "series_ids" = res_fold (add_distinct "series_ids") [seriesID] []) as -> by reflexivity.
  assert (candidateOverridesPayload p' = Ok ∅) as -> by reflexivity. assert (candidateOverridesPayload p = Ok ∅) as -> by reflexivity.
  assert (booleanPayload p' "transfer" true = Ok true) as -> by reflexivity.
  assert (integerPayload p' "candidate_limit" 10 1 30 = Ok 10%Z) as -> by reflexivity.
  assert (integerPayload p' "max_series" 20 1 100 = Ok 20%Z) as -> by reflexivity.
  assert (booleanPayload p' "replace_completed_pack" false = Ok false) as -> by reflexivity.
  intros Hs. apply res_bind_ok in Hs as (l0 & [= <-] & Hs). apply res_bind_ok in Hs as (u & Hlib & Hs).
  apply res_bind_ok in Hs as (ids & Hids & Hs). apply res_bind_ok in Hs as (o & [= <-] & Hs).
  apply res_bind_ok in Hs as (shares & Hsh & Hs). apply res_bind_ok in Hs as (u' & Htargets & _).
  assert (library ∈ autoFillLibrarySet) as Hin by (revert Hlib; cbn [res_fold]; case_bool_decide; [done|]; done).
  assert (stringSlicePayload p' "libraries" = Ok [library]) as ->.
  { assert (library = "电视剧追更" ∨ library = "综艺追更") as [-> | ->] by (unfold autoFillLibrarySet in Hin; set_solver); reflexivity. }
  assert (ids = [trim_space seriesID]) as ->.
  { cbn [res_fold] in Hids. unfold add_distinct in Hids. cbv zeta in Hids. destruct (bool_decide (_ = "")); [done|]. cbn in Hids. by injection Hids as <-. }
  assert (shares = sp_SourceShares (poll_spec library seriesID s.2)) as ->.
  { cbn [res_fold] in Hsh. destruct (add_source_share _ _) as [r|] eqn:Hr in Hsh; [|done]. injection Hsh as <-. by apply share_added in Hr as ->. }
  unfold mbind, res_bind. cbv beta iota. rewrite Hlib, Hids, Hsh. cbv beta iota zeta. by rewrite Htargets.
Qed.
End Payload.

Section Claims.
Context `{Env} {ctx : Ctx} `{Sleep} `{Remote} `{Providers} `{Local} `{Names} `{Ranging} `{Workers} `{Unicode} `{CidMap} `{Urls}.
Context `{Native} `{EmbyJson} `{PathEscape} (rounds : nat).
Implicit Types w : World Pipe.

(** The subscription of a poll's payload, with a directory. *)
Definition polled (p : payload) (d : Database) (subID : string) (s : ShareSubscription.t) : Prop :=
  stringPayload p "subscription_id" true = Ok subID ∧ (∃ row, subscriptions d !! subID = Some row ∧ s = read_subscription row) ∧
  ShareSubscription.Active s = true ∧ trim_space (ShareSubscription.TargetCID s) ≠ "".

(** The task a poll queues: a completion that is waiting, whose payload names the subscription
    and says what its run will do. *)
Definition completion (library seriesID subID : string) (s : ShareSubscription.t) (t : AsyncTask.t) : Prop :=
  AsyncTask.Type_ t = "series_auto_fill" ∧ AsyncTask.Status t = "pending" ∧ names_subscription subID t = true ∧
  resolveSeriesAutoFillSpec (AsyncTask.Payload t) = Ok (poll_spec library seriesID s).

(** C17: a poll queues one completion, for the one series of its directory.  Whatever 115 and
    Emby answer and whatever fails, a poll only lists folders and reads from Emby, and changes
    no task, subscription or import but the one task it queues.  It reports a completion that
    is waiting or running exactly when there is one for its subscription - by itself or by an
    import it queued - and then asks nothing.  It queues one only for an active subscription
    with a directory and no such task, when among all followed libraries the listings show
    the directory as the folder of a single series; what the completion then reads in its
    stored payload is that library, that series and the share of the subscription. *)
Theorem subscription_poll_exact newID taskID p w :
  let d := pi_db (w_db w) in
  wp (runShareAutoSync rounds newID taskID p) w (λ r w', ∃ l, polls w w' l ∧ match r with
    | Ok (Waiting next active) => l = [] ∧ w_db w' = w_db w ∧ ∃ subID s, polled p d subID s ∧ active_task d taskID subID next active
    | Ok (Queued id) => id = newID ∧ tasks d !! newID = None ∧ ∃ subID s cids library seriesID t,
        polled p d subID s ∧ (∀ next active, ¬ active_task d taskID subID next active) ∧
        sole_series cids (ShareSubscription.TargetCID s) (library, seriesID) l ∧ completion library seriesID subID s t ∧
        tasks (pi_db (w_db w')) = <[newID := t]> (tasks d) ∧
        subscriptions (pi_db (w_db w')) = subscriptions d ∧ imports (pi_db (w_db w')) = imports d
    | Err _ => same_work d (pi_db (w_db w'))
    end).
Proof.
  intros d. unfold runShareAutoSync. apply wp_bind, wp_lift. destruct (stringPayload p "subscription_id" true) as [subID|e] eqn:Hp.
  2: { exists []. by split; [apply polls_nil|]. }
  apply wp_bind, wp_on_db, wp_query; [intros; exists []; by split; [apply polls_nil|]|]. cbn [w_db pi_db]. intros sub n [= <-].
  destruct (subscriptions (pi_db (w_db w)) !! subID) as [row|] eqn:Hrow; cbn [fmap option_fmap option_map].
  2: { apply wp_lift. exists []. by split; [apply polls_nil|]. }
  set (s := read_subscription row). cbn [fst snd]. destruct (ShareSubscription.Active s) eqn:Hact; cbn [negb].
  2: { apply wp_lift. exists []. by split; [apply polls_nil|]. }
  case_bool_decide as Htarget. { apply wp_lift. exists []. by split; [apply polls_nil|]. }
  assert (polled p d subID s) as Hpolled by (split_and!; [done|by exists row|done|done]).
  cbn [w_tick w_db]. set (w1 := mkWorld n (mkPipe (pi_db (w_db w)) (pi_files (w_db w)) (pi_log (w_db w)))).
  assert (w_db w1 = w_db w) as E1 by (by destruct w as [? []]).
  apply wp_bind. eapply wp_mono; [apply active_effect|]. rewrite E1. change (pi_db (w_db w)) with d.
  intros [[[next active|id]|]|e] w2 [E2 Hf]; [|done| |exists []; split; [by apply polls_nil; rewrite E2|by rewrite E2]].
  { apply wp_ret. exists []. split; [by apply polls_nil; rewrite E2|]. split_and!; [done|done|]. by exists subID, s. }
  apply wp_bind. eapply wp_mono; [apply wp_and; [apply sole_effect|apply changes_target]|]. rewrite E2. change (pi_db (w_db w)) with d.
  intros [[library seriesID]|e] w3 [(l & [El Fl] & Hl) [_ Hsame]]; rewrite E2 in El; [|exists l; by split].
  destruct (Hl _ eq_refl) as (cids & Hsole). destruct Hsame as (Ht & Hsub & Himp).
  apply wp_bind, wp_on_db. unfold Enqueue, enqueue. apply wp_bind, wp_lift.
  change (trim_space "series_auto_fill") with "series_auto_fill".
  destruct (validateTask _ _) as [[]|e] eqn:Hv; [|exists l; by split].
  apply wp_bind, wp_lift. change (derived_payload "series_auto_fill" ?p) with (Ok p : res payload). cbv beta iota.
  eapply wp_mono; [apply wp_and; [apply persist_effect|apply persist_rows]|]. cbn [w_db w_tick].
  intros [[id task]|e] w4 [Hq [Hsub4 Himp4]]; cbn [w_db] in *.
  2: { exists l. split; [by split|]. cbn [pi_db]. rewrite Hq. by split_and!. }
  destruct Hq as (-> & _ & Hfree & t & Ht4 & Hty & Hpl & Hst & _). apply wp_ret. exists l. split; [by split|]. cbn [pi_db w_db fst].
  split_and!; [done|by rewrite Ht in Hfree|]. exists subID, s, cids, library, seriesID, t.
  split_and!; [done|done|done| |by rewrite Ht4, Ht|by rewrite Hsub4, Hsub|by rewrite Himp4, Himp].
  unfold completion, names_subscription. rewrite Hty, Hpl, Hst. split; [done|]. split; [done|]. split.
  - unfold payload_roundtrip. rewrite lookup_fmap. change (poll_payload library seriesID (subID, s) !! "subscription_id") with (Some (VString subID)).
    cbn. by apply bool_decide_eq_true.
  - apply (poll_spec_read library seriesID (subID, s)). by rewrite Hv.
Qed.
End Claims.
