(* ===== verification/Access.v ===== *)
(** Who may do what: the gates in front of the agents' tools ([auditToolCalls] of
    [src/internal/mcp/server.go]) and of the HTTP API ([auditLogMiddleware] of
    [src/internal/api/routes.go]), the deletions on a drive behind them, with the approval an
    agent needs and the browser gives, and the settings.

    What a request decodes to is an argument: of [mcp-go] by [ToolArgs], of a body by the
    handlers.  The audit entry is the record of who called what with which outcome, before it
    is summarised and written; a failure to write it is only logged.  The rate buckets of the
    authorizer are passed along. *)
From Stdlib Require Import Ascii.
From S2P Require Import Prelude GoStrings GoPath Sql Schema Approvals Tokens Accounts Payload FileSys Remote Drive Service Local Pipeline Media Settings.

(** * Calls and answers *)

Record tool_request := mkTool { tl_name : string; tl_header : header; tl_arguments : payload }.
Inductive tool_result (A : Type) := ToolError (message : string) | ToolResult (a : A).
Arguments ToolError {A} message. Arguments ToolResult {A} a.

Record rest_request := mkRest {
  rq_method : string; rq_header : header;
  rq_body : option (res string)         (* what reading it through a limit of 64 KiB + 1 gives *)
}.
(** The status of an answer, with its error or what it carries. *)
Inductive answer (A : Type) := Refused (code : Z) (message : string) | Answered (code : Z) (a : A).
Arguments Refused {A} code message. Arguments Answered {A} code a.
Definition code_of {A} (a : answer A) : Z := match a with Refused c _ | Answered c _ => c end.

Record access_entry := mkAccess {
  ac_caller : string; ac_tokenID : string; ac_agentName : string; ac_action : string; ac_status : string; ac_ip : string
}.

Class ToolArgs := {
  arg_require : payload → string → option string;             (* [RequireString] *)
  arg_require_all : payload → string → option (list string);  (* [RequireStringSlice] *)
  arg_string : payload → string → string → string;            (* [GetString], with its default *)
  arg_bool : payload → string → bool → bool;
  arg_int : payload → string → Z → Z
}.

(** * The gate of the tools *)

Definition toolRequiresWrite (name : string) : bool :=
  bool_decide (name ∈ ["c115_save_share"; "c115_move"; "c115_rename"; "c115_mkdir"; "c115_get_share_link"; "c115_request_delete";
    "c115_execute_delete"; "quark_import_share_to_115"; "cd2_remount"; "emby_refresh_library"; "task_submit"; "task_cancel"; "task_retry";
    "schedule_upsert"; "schedule_run"; "schedule_delete"; "system_update_config"]).

Definition auditIP (h : header) : string :=
  let value := trim_space (header_get h "X-Real-Ip") in
  if negb (bool_decide (value = "")) then value
  else trim_space (default "" (head (split_on "," (header_get h "X-Forwarded-For")))).

Definition auth_text (e : auth_error) : string :=
  match e with
  | ErrInvalidToken => "invalid agent token"
  | ErrDisabledToken => "agent token is disabled"
  | ErrRateLimited => "agent token rate limit exceeded"
  | ErrWriteScope => "agent token lacks write permission"
  | ErrReadScope => "agent token lacks read permission"
  | ErrStorage _ => "authorize agent token"
  end.
Definition auth_code (e : auth_error) : Z :=
  match e with
  | ErrRateLimited => 429
  | ErrWriteScope | ErrReadScope => 403
  | ErrInvalidToken | ErrDisabledToken => 401
  | ErrStorage _ => 500
  end.
(** [requesterFromContext] of the context the gate makes. *)
Definition requester_of (agentName caller : string) : string := if bool_decide (agentName = "") then caller else agentName.
Definition token_id (tok : option token_with_id) : string := match tok with Some (id, _) => id | None => "" end.
Definition token_name (tok : option token_with_id) : string := match tok with Some (_, t) => AgentToken.Name t | None => "" end.

Section Access.
Context `{Env} {ctx : Ctx} `{Sleep} `{Remote} `{Providers} `{Urls} `{CidMap} `{Names} `{Ranging} (sha256_hex : string → string).
Abbreviation Pi := (M Pipe).
Abbreviation Db := (M Database).

(** What a call ends in: its outcome, the entry of the audit and the buckets. *)
Record gated (A : Type) := mkGated { ga_outcome : A; ga_entry : option access_entry; ga_buckets : buckets }.
Arguments mkGated {A}. Arguments ga_outcome {A}. Arguments ga_entry {A}. Arguments ga_buckets {A}.

(** [auditToolCalls]; a Go error of the handler is an error of the call. *)
Definition tool_status {A} (r : res (tool_result A)) : string :=
  match r with Ok (ToolResult _) => "success" | _ => "error" end.
Definition auditToolCalls {A} (trustTokenless : bool) (b : buckets) (r : tool_request) (next : string → Pi (tool_result A))
    : Pi (gated (res (tool_result A))) :=
  started ← now;
  let secret := BearerToken (tl_header r) in
  let entry caller tok status := Some (mkAccess caller (token_id tok) (token_name tok) (tl_name r) status (auditIP (tl_header r))) in
  let denied tok message b := mret (mkGated (Ok (ToolError message)) (entry "agent" tok "denied") b) in
  let run caller tok b :=
    result ← attempt (next (requester_of (token_name tok) caller));
    mret (mkGated result (entry caller tok (tool_status result)) b) in
  if bool_decide (secret = "") then
    if negb trustTokenless && negb (TrustedWithoutToken (tl_header r)) then denied None "agent token is required" b
    else run (if trustTokenless then "mcp-stdio" else "ui") None b
  else
    '(tok, e, b) ← on_db (Authorize sha256_hex b secret (toolRequiresWrite (tl_name r)) started);
    match e with
    | Some e => denied tok (auth_text e) b
    | None => run "agent" tok b
    end.

(** * The gate of the API *)

Definition write_method (method : string) : bool :=
  negb (bool_decide (method = "GET")) && negb (bool_decide (method = "HEAD")) && negb (bool_decide (method = "OPTIONS")).

(** The body that is read before anything else, unless the method has none. *)
Definition body_refused (r : rest_request) : option (Z * string) :=
  if bool_decide (rq_method r = "GET") || bool_decide (rq_method r = "HEAD") then None else
  match rq_body r with
  | None => None
  | Some (Err _) => Some (400%Z, "read request body")
  | Some (Ok text) => if Z.ltb (2 ^ 16) (Z.of_nat (String.length text)) then Some (413%Z, "request body exceeds 64 KiB") else None
  end.

(** [auditLogMiddleware]; [next] is told whether an agent is authenticated. *)
Definition auditLogMiddleware {A} (b : buckets) (path ip : string) (r : rest_request) (next : bool → Pi (answer A)) : Pi (gated (answer A)) :=
  started ← now;
  match body_refused r with
  | Some (code, message) => mret (mkGated (Refused code message) None b)
  | None =>
      let secret := BearerToken (rq_header r) in
      let entry caller tok status := Some (mkAccess caller (token_id tok) (token_name tok) (rq_method r +:+ " " +:+ path) status ip) in
      let denied tok code message b := mret (mkGated (Refused code message) (entry "agent" tok "denied") b) in
      let run caller tok b :=
        a ← next (bool_decide (caller = "agent"));
        let status := if Z.leb 400 (code_of a) then "error" else "success" in
        mret (mkGated a (if bool_decide (caller = "agent") || write_method (rq_method r) then entry caller tok status else None) b) in
      if bool_decide (secret = "") then
        if negb (TrustedWithoutToken (rq_header r)) then denied None 401%Z "agent token is required" b
        else run "ui" None b
      else
        t ← now;
        '(tok, e, b) ← on_db (Authorize sha256_hex b secret (write_method (rq_method r)) t);
        match e with
        | Some e => denied tok (auth_code e) (auth_text e) b
        | None => run "agent" tok b
        end
  end.

(** * Deletions *)

(** [ProviderQuark.Delete]. *)
Definition quark_Delete (a : account) (ids : list string) : Pi unit :=
  if bool_decide (length ids = 0) then throw (ErrText "file IDs are required") else
  clean ← lift (trimmed_ids ids);
  call (λ h, sv_delete h a.1 clean) (ADelete a.1 clean).
Definition DeleteProvider (provider accountID : string) (ids : list string) : Pi unit :=
  a ← getAccountForProvider provider accountID;
  provider ← lift (normalizeProvider provider);
  if bool_decide (provider = "115") then DeleteCtx a.1 ids else quark_Delete a ids.

(** [ResolveDeleteTargetsCtx] ([drive.go]): the wanted IDs, trimmed and distinct. *)
Definition wanted_ids (fileIDs : list string) : res (list string) :=
  res_fold (λ wanted id, let id := trim_space id in
    if bool_decide (id = "") then Err (ErrText "file_ids must contain non-empty values")
    else if bool_decide (id ∈ wanted) then Err (ErrText "file_ids must not contain duplicates")
    else Ok (wanted ++ [id])) fileIDs [].
(** Pages of 1000 objects up to offset 50000, while something is missing. *)
Fixpoint find_targets_ctx (accountID parentCID : string) (wanted : list string) (pages : nat) (offset : Z) (found : gmap string DestructiveTarget)
    : Pi (gmap string DestructiveTarget) :=
  match pages with
  | O => mret found
  | S pages =>
      if bool_decide (length wanted ≤ size found) then mret found else
      '(files, total) ← listFiles accountID parentCID offset 1000;
      let found := note_targets wanted found files in
      if Z.leb total (offset + Z.of_nat (length files)) || bool_decide (length files = 0) then mret found
      else find_targets_ctx accountID parentCID wanted pages (offset + 1000) found
  end.
Definition target_pages : nat := 50.
Definition ResolveDeleteTargetsCtx (accountID parentCID : string) (fileIDs : list string) : Pi (string * list DestructiveTarget) :=
  if bool_decide (length fileIDs = 0) || bool_decide (100 < length fileIDs) then throw (ErrText "file_ids must contain 1 to 100 values") else
  a ← getAccount accountID;
  let parentCID := or_root parentCID in
  wanted ← lift (wanted_ids fileIDs);
  found ← find_targets_ctx a.1 parentCID wanted target_pages 0 ∅;
  targets ← lift (res_fold (λ targets id, match found !! trim_space id with
    | Some t => Ok (targets ++ [t])
    | None => Err (ErrText ("115 object " +:+ id +:+ " was not found in parent CID " +:+ parentCID))
    end) fileIDs []);
  mret (a.1, targets).

(** ** By an agent, with an approval *)

Section Tools.
Context `{ToolArgs}.

(** A call whose error becomes the text of a tool error. *)
Definition tool_try {A B} (prefix : string) (m : Pi A) (k : A → Pi (tool_result B)) : Pi (tool_result B) :=
  r ← attempt m;
  match r with Ok a => k a | Err e => mret (ToolError (prefix +:+ error_text e)) end.

Definition delete_action : string := "drive.115.delete".
Definition approval_lifetime : Z := 15 * Tokens.minute.

Definition handleC115RequestDelete (newID requester : string) (args : payload) : Pi (tool_result (string * Approval.t)) :=
  match arg_require_all args "file_ids", arg_require args "parent_cid" with
  | None, _ => mret (ToolError "file_ids is required")
  | _, None => mret (ToolError "parent_cid is required")
  | Some fileIDs, Some parentCID =>
      tool_try "resolve delete targets failed: " (ResolveDeleteTargetsCtx (arg_string args "account_id" "") parentCID fileIDs)
        (λ '(accountID, targets),
          n ← now;
          let approval := Approval.mk delete_action accountID parentCID targets "pending" requester None None (n + approval_lifetime) n None None in
          tool_try "request delete approval failed: " (on_db (CreateDestructiveApproval newID approval))
            (λ _, mret (ToolResult (newID, approval))))
  end.

Definition handleC115ExecuteDelete (args : payload) : Pi (tool_result (string * Approval.t)) :=
  match arg_require args "approval_id" with
  | None => mret (ToolError "approval_id is required")
  | Some id =>
      n ← now;
      tool_try "delete approval rejected: " (on_db (ClaimDestructiveApproval id delete_action n)) (λ approval,
        deleted ← attempt (DeleteProvider "115" (Approval.AccountID approval) (tg_FileID <$> Approval.Targets approval));
        match deleted with
        | Err e =>
            t ← now;
            _ ← try_ (on_db (FinishDestructiveApproval id "failed" (error_text e) t));
            mret (ToolError ("delete failed after approval: " +:+ error_text e))
        | Ok _ =>
            t ← now;
            tool_try "record delete result failed: " (on_db (FinishDestructiveApproval id "executed" "" t)) (λ _,
              executed ← now;
              let '(Approval.mk ac acc par tgs _ by_ ap err exp cr de _) := approval in
              mret (ToolResult (id, Approval.mk ac acc par tgs "executed" by_ ap err exp cr de (Some executed))))
        end)
  end.

(** ** Settings, by an agent *)

(** The strings of the argument; the switch of the browser's deletion is refused. *)
Definition config_value (values : gmap string string) (kv : string * value) : res (gmap string string) :=
  match kv.2 with
  | VString text =>
      if bool_decide (kv.1 = "dangerous_actions_enabled") then Err (ErrText "Agent tools cannot change the browser deletion safety switch")
      else Ok (<[kv.1 := text]> values)
  | _ => Err (ErrText ("setting " +:+ kv.1 +:+ " must be a string"))
  end.
Definition handleSystemUpdateConfig (args : payload) : Pi (tool_result (gmap string string * gmap string bool)) :=
  match args !! "settings" with
  | Some (VObject fields) =>
      match res_fold config_value (range_over fields) ∅ with
      | Err e => mret (ToolError (error_text e))
      | Ok values =>
          tool_try "update settings failed: " (on_db (Update values)) (λ _,
            tool_try "read updated settings failed: " (on_db State) (λ state, mret (ToolResult state)))
      end
  | _ => mret (ToolError "settings must be an object")
  end.
End Tools.

(** * Handlers of the API *)

Definition answer_try {A B} (code : Z) (m : Pi A) (k : A → Pi (answer B)) : Pi (answer B) :=
  r ← attempt m;
  match r with Ok a => k a | Err e => mret (Refused code (error_text e)) end.

Record delete_body := mkDelete { db_Provider : string; db_AccountID : string; db_ParentID : string; db_FileIDs : list string }.
Definition handleDelete (body : res delete_body) (agent : bool) : Pi (answer unit) :=
  if agent then mret (Refused 403 "Agent deletion requires a target-bound browser approval") else
  answer_try 500 (on_db (Get "dangerous_actions_enabled")) (λ enabled,
    if negb (bool_decide (enabled = "true")) then mret (Refused 403 "destructive actions are disabled in system settings") else
    match body with
    | Err e => mret (Refused 400 (error_text e))
    | Ok q =>
        if bool_decide (length (db_FileIDs q) = 0) || bool_decide (db_Provider q = "") || bool_decide (db_ParentID q = "") then
          mret (Refused 400 "provider, parent_id, and file_ids are required")
        else answer_try 502 (DeleteProvider (db_Provider q) (db_AccountID q) (db_FileIDs q)) (λ _, mret (Answered 200 tt))
    end).

(** [requireBrowserDecision] and the handlers of approvals. *)
Definition requireBrowserDecision (id : string) (h : header) (status : string) (agent : bool) : Pi (answer Approval.t) :=
  if agent then mret (Refused 403 "destructive approvals require an authenticated browser user") else
  let user := trim_space (header_get h "Remote-User") in
  if bool_decide (user = "") then mret (Refused 401 "authenticated browser user is required") else
  n ← now;
  answer_try 409 (on_db (DecideDestructiveApproval id user status n)) (λ approval, mret (Answered 200 approval)).
Definition handleApproveDestructiveApproval (id : string) (h : header) : bool → Pi (answer Approval.t) := requireBrowserDecision id h "approved".
Definition handleRejectDestructiveApproval (id : string) (h : header) : bool → Pi (answer Approval.t) := requireBrowserDecision id h "rejected".
Definition handleListDestructiveApprovals (agent : bool) : Pi (answer (list (string * Approval.t))) :=
  if agent then mret (Refused 403 "destructive approvals are visible only to authenticated browser users") else
  n ← now;
  answer_try 500 (on_db (ListPendingDestructiveApprovals n)) (λ l, mret (Answered 200 l)).

(** [handleUpdateSettings]. *)
Definition handleUpdateSettings (body : res (gmap string string)) (agent : bool) : Pi (answer (gmap string string * gmap string bool)) :=
  match body with
  | Err e => mret (Refused 400 (error_text e))
  | Ok values =>
      if agent && bool_decide (is_Some (values !! "dangerous_actions_enabled")) then
        mret (Refused 403 "Agent requests cannot change the browser deletion safety switch")
      else
      answer_try 500 (on_db (Update values)) (λ _, answer_try 500 (on_db State) (λ state, mret (Answered 200 state)))
  end.
Definition handleGetSettings : Pi (answer (gmap string string * gmap string bool)) :=
  answer_try 500 (on_db State) (λ state, mret (Answered 200 state)).

(** ** Tokens *)

Record token_body := mkTokenBody { tb_Name : string; tb_Permissions : list string; tb_RateLimit : Z }.
(** The checks of [handleCreateToken]: the name, whether the token may write, its limit. *)
Definition checked_token (q : token_body) : res (string * bool * Z) :=
  let name := trim_space (tb_Name q) in
  if bool_decide (name = "") then Err (ErrText "name is required") else
  if negb (forallb (λ p, bool_decide (p = "read") || bool_decide (p = "write")) (tb_Permissions q)) then
    Err (ErrText "permissions must be read or write") else
  if bool_decide (length (tb_Permissions q) = 0) then Err (ErrText "at least one permission is required") else
  let limit := if Z.eqb (tb_RateLimit q) 0 then 120%Z else tb_RateLimit q in
  if Z.ltb limit 1 || Z.ltb 600 limit then Err (ErrText "rate_limit must be between 1 and 600 requests per minute")
  else Ok (name, bool_decide ("write" ∈ tb_Permissions q), limit).
(** [handleCreateToken]: [random] is the encoded random text, or its failure. *)
Definition handleCreateToken (newID : string) (random : res string) (body : res token_body) : Pi (answer (string * string * AgentToken.t)) :=
  match body with
  | Err e => mret (Refused 400 (error_text e))
  | Ok q =>
      match checked_token q with
      | Err e => mret (Refused 400 (error_text e))
      | Ok (name, write, limit) =>
          match random with
          | Err _ => mret (Refused 500 "generate token")
          | Ok text =>
              let secret := "embymedia_" +:+ text in
              n ← now;
              let token := AgentToken.mk (sha256_hex secret) name (if write : bool then "full-access" else "readonly")
                             (if write then ["read"; "write"] else ["read"]) limit true None n in
              answer_try 500 (on_db (SaveToken newID token)) (λ _, mret (Answered 201 (newID, secret, token)))
          end
      end
  end.
Definition handleListTokens : Pi (answer (list token_with_id)) := answer_try 500 (on_db ListTokens) (λ l, mret (Answered 200 l)).
Definition handleDeleteToken (id : string) : Pi (answer unit) :=
  answer_try 500 (on_db (DeleteToken id)) (λ deleted : bool,
    mret (if negb deleted then Refused 404 "agent token not found" else Answered 204 tt)).
End Access.
#[global] Arguments mkGated {A}. #[global] Arguments ga_outcome {A}. #[global] Arguments ga_entry {A}. #[global] Arguments ga_buckets {A}.
