(* ===== verification/AccessProofs.v ===== *)
(** Properties of the gates and of the deletions behind them ([Access.v]): a tool runs only for
    a call that may use it, an approval deletes once what was shown when it was requested, and
    no agent decides. *)
From S2P Require Import Prelude GoStrings GoPath Sql Schema Approvals Tokens Accounts Payload FileSys Remote Drive DriveProofs Service Local Pipeline Media.
From S2P Require Import Destination DestinationProofs ReplacementProofs AutofillFrames EmbyDeletionProofs MediaIngest MediaIngestProofs Settings SettingsProofs Access.

(** * Who is let through *)

Section Authorized.
Context `{Env} (sha : string → string).
Implicit Types d : Database.

Definition touched (id : string) (row : AgentToken.t) (now : Z) d : Database :=
  set_tokens (<[id := AgentToken.touch now row]> (tokens d)) d.

(** The token of the secret may be used so, and its rate limit admits it. *)
Definition authorized (b : buckets) (secret : string) (write : bool) (now : Z) d (tok : option token_with_id) (b' : buckets) : Prop :=
  ∃ id row, tok = Some (id, row) ∧ tokens d !! id = Some row ∧ AgentToken.Token row = sha secret ∧ may_use write row ∧
    take b id (AgentToken.RateLimit row) now = (true, b').
(** Why it is refused. *)
Definition unauthorized (b : buckets) (secret : string) (write : bool) (now : Z) d (tok : option token_with_id) (e : auth_error) : Prop :=
  match tok with
  | None => e = ErrInvalidToken
  | Some (id, row) => tokens d !! id = Some row ∧ AgentToken.Token row = sha secret ∧
      match e with
      | ErrInvalidToken => False
      | ErrDisabledToken => AgentToken.Enabled row = false
      | ErrWriteScope => write = true ∧ "write" ∉ AgentToken.Scopes row
      | ErrReadScope => write = false ∧ "read" ∉ AgentToken.Scopes row ∧ "write" ∉ AgentToken.Scopes row
      | ErrRateLimited => may_use write row ∧ (take b id (AgentToken.RateLimit row) now).1 = false
      | ErrStorage e => fault_error e
      end
  end.

Lemma scope_absent scopes s : negb (containsScope scopes s) = true ↔ s ∉ scopes.
Proof. rewrite negb_true_iff, <-containsScope_spec. by destruct (containsScope _ _). Qed.

Lemma authorize_token_effect b secret write now (w : World Database) :
  wp (Authorize sha b secret write now) w (λ r w', match r with
    | Ok (tok, None, b') => authorized b secret write now (w_db w) tok b' ∧
        ∃ id row, tok = Some (id, row) ∧ w_db w' = touched id row now (w_db w)
    | Ok (tok, Some e, _) => unauthorized b secret write now (w_db w) tok e ∧ w_db w' = w_db w
    | Err _ => False
    end).
Proof.
  destruct w as [n0 d]. unfold Authorize, GetTokenByDigest. apply wp_bind, wp_attempt, wp_query; [by intros; apply wp_ret|].
  intros [id row] n1 He. cbn in *. destruct (head _) as [p|] eqn:Eh; [|done]. injection He as ->.
  destruct (digest_row _ _ _ _ Eh) as [Hid Hd]. pose proof (refusal_none write id row) as Href. cbn in Href.
  destruct (negb (AgentToken.Enabled row)) eqn:E1; [apply wp_ret; cbn; split; [|done]; apply negb_true_iff in E1; done|].
  destruct (write && _) eqn:E2; [apply wp_ret; cbn; apply andb_true_iff in E2 as [-> E2%scope_absent]; done|].
  destruct (negb write && _ && _) eqn:E3.
  { apply wp_ret. cbn. apply andb_true_iff in E3 as [[->%negb_true_iff E3%scope_absent]%andb_true_iff E4%scope_absent]. done. }
  destruct Href as [Href _]. specialize (Href eq_refl). destruct (take b id (AgentToken.RateLimit row) now) as [adm b1] eqn:Et.
  destruct adm; cbn [negb]; [|apply wp_ret; cbn; rewrite Et; done].
  apply wp_bind, wp_attempt. unfold TouchToken. apply wp_exec.
  - intros e n2 He. apply wp_ret. cbn. done.
  - intros n2. apply wp_ret. cbn. split; [by exists id, row|]. exists id, row. split; [done|]. unfold touched. by rewrite update_by_key, Hid.
Qed.
End Authorized.

(** * The gate of the tools *)

Section Gate.
Context `{Env} {ctx : Ctx} `{Sleep} `{Remote} `{Providers} `{Urls} `{CidMap} `{Names} `{Ranging} (sha : string → string).
Implicit Types w : World Pipe.

(** The entry of a call. *)
Definition entry_of (r : tool_request) (caller : string) (tok : option token_with_id) (status : string) : access_entry :=
  mkAccess caller (token_id tok) (token_name tok) (tl_name r) status (auditIP (tl_header r)).
(** A request without a secret comes from the UI, or over standard input. *)
Definition let_in (trust : bool) (b : buckets) (r : tool_request) (now : Z) (d : Database) (caller : string) (tok : option token_with_id)
    (b' : buckets) : Prop :=
  let secret := BearerToken (tl_header r) in
  if decide (secret = "") then
    (trust = true ∨ TrustedWithoutToken (tl_header r) = true) ∧ caller = (if trust then "mcp-stdio" else "ui") ∧ tok = None ∧ b' = b
  else caller = "agent" ∧ authorized sha b secret (toolRequiresWrite (tl_name r)) now d tok b'.
Definition kept_out (trust : bool) (b : buckets) (r : tool_request) (now : Z) (d : Database) (tok : option token_with_id) (message : string) : Prop :=
  let secret := BearerToken (tl_header r) in
  if decide (secret = "") then trust = false ∧ TrustedWithoutToken (tl_header r) = false ∧ tok = None ∧ message = "agent token is required"
  else ∃ e, unauthorized sha b secret (toolRequiresWrite (tl_name r)) now d tok e ∧ message = auth_text e.

(** C5: the gate of the tools, around any tool.  A call that may not use the tool, because it
    has no token and no trusted user, or its token is unknown, disabled, without the scope or
    over its rate, gets an error that says so; the tool does not run, nothing is stored and
    nothing is asked of anyone.  Otherwise the tool runs, once, in the name of the token or of
    the caller, after at most the use of the token was recorded; its outcome is the call's.
    Each call has one entry, with its caller, its token, and the status that it had. *)
Theorem tool_call_gated {A} trust b r (next : string → M Pipe (tool_result A)) w :
  ∃ g w', auditToolCalls sha trust b r next w = (Ok g, w') ∧ ∃ n,
    (∃ tok message, kept_out trust b r n (pi_db (w_db w)) tok message ∧ ga_outcome g = Ok (ToolError message) ∧
       ga_entry g = Some (entry_of r "agent" tok "denied") ∧ w_db w' = w_db w) ∨
    (∃ caller tok w1, let_in trust b r n (pi_db (w_db w)) caller tok (ga_buckets g) ∧
       pi_log (w_db w1) = pi_log (w_db w) ∧ pi_files (w_db w1) = pi_files (w_db w) ∧
       pi_db (w_db w1) = match tok with Some (id, row) => touched id row n (pi_db (w_db w)) | None => pi_db (w_db w) end ∧
       next (if bool_decide (token_name tok = "") then caller else token_name tok) w1 = (ga_outcome g, w') ∧
       ga_entry g = Some (entry_of r caller tok
         match ga_outcome g with Ok (ToolResult _) => "success" | _ => "error" end)).
Proof.
  set (Q := λ (x : res (gated (res (tool_result A)))) w', match x with Err _ => False | Ok g => ∃ n,
    (∃ tok message, kept_out trust b r n (pi_db (w_db w)) tok message ∧ ga_outcome g = Ok (ToolError message) ∧
       ga_entry g = Some (entry_of r "agent" tok "denied") ∧ w_db w' = w_db w) ∨
    (∃ caller tok w1, let_in trust b r n (pi_db (w_db w)) caller tok (ga_buckets g) ∧
       pi_log (w_db w1) = pi_log (w_db w) ∧ pi_files (w_db w1) = pi_files (w_db w) ∧
       pi_db (w_db w1) = match tok with Some (id, row) => touched id row n (pi_db (w_db w)) | None => pi_db (w_db w) end ∧
       next (if bool_decide (token_name tok = "") then caller else token_name tok) w1 = (ga_outcome g, w') ∧
       ga_entry g = Some (entry_of r caller tok
         match ga_outcome g with Ok (ToolResult _) => "success" | _ => "error" end)) end).
  assert (wp (auditToolCalls sha trust b r next) w Q) as Hw.
  2: { unfold wp in Hw. destruct (auditToolCalls sha trust b r next w) as [[g|e] w']; [by exists g, w'|done]. }
  assert (∀ n caller tok b' w1, let_in trust b r n (pi_db (w_db w)) caller tok b' →
       pi_log (w_db w1) = pi_log (w_db w) → pi_files (w_db w1) = pi_files (w_db w) →
       pi_db (w_db w1) = match tok with Some (id, row) => touched id row n (pi_db (w_db w)) | None => pi_db (w_db w) end →
       wp (result ← attempt (next (requester_of (token_name tok) caller));
           mret (mkGated result (Some (entry_of r caller tok (tool_status result))) b')) w1 Q) as Hrun.
  { intros n caller tok b' w1 Hin Hlog Hfiles Hdb. apply wp_bind, wp_attempt, wp_intro. intros result w' Hnext. apply wp_ret. exists n. right.
    exists caller, tok, w1. cbn. by destruct result as [[|]|]. }
  unfold auditToolCalls. apply wp_bind, wp_now. intros started n. cbv zeta. case_bool_decide as Hsec.
  - destruct (negb trust && _) eqn:E.
    + apply wp_ret. exists started. left. exists None, "agent token is required". split_and!; [|done|done|by destruct w].
      unfold kept_out. rewrite decide_True by done. apply andb_true_iff in E as [E1%negb_true_iff E2%negb_true_iff]. done.
    + apply (Hrun started); [|done..]. unfold let_in. rewrite decide_True by done. split_and!; try done.
      apply andb_false_iff in E as [E%negb_false_iff|E%negb_false_iff]; auto.
  - apply wp_bind, wp_on_db. eapply wp_mono; [apply (authorize_token_effect sha)|]. intros [[[tok [e|]] b']|e] w1; cbn [w_db pi_db]; [| |done].
    + intros [Hu E]. apply wp_ret. exists started. left. exists tok, (auth_text e). rewrite E. split_and!; [|done|done|by destruct w as [? []]].
      unfold kept_out. rewrite decide_False by done. by exists e.
    + intros [Ha (id & row & -> & E)]. apply (Hrun started); [|done..|exact E]. unfold let_in. by rewrite decide_False.
Qed.
End Gate.

(** * Deletions *)

(** The tables of approvals, settings and tokens are as they were. *)
Definition same_decisions (d d' : Database) : Prop := approvals d' = approvals d ∧ settings d' = settings d ∧ tokens d' = tokens d.
#[export] Instance same_decisions_preorder : PreOrder same_decisions.
Proof. split; [done|]. intros d1 d2 d3 (E1 & E2 & E3) (F1 & F2 & F3). unfold same_decisions. by rewrite F1, F2, F3. Qed.
Lemma same_decisions_save `{Env} id r : keeps same_decisions (SaveAccount id r).
Proof.
  unfold SaveAccount, put_account. keeps_run.
  - by apply keeps_exec; [apply _|].
  - apply keeps_stmt; [apply _|]. intros d u d' Hs. simpl in Hs. by repeat case_match; simplify_eq/=.
Qed.

Section Accounts.
Context `{Env} {ctx : Ctx} `{Sleep} `{Remote} `{Providers}.
Implicit Types w : World Pipe.

(** Nothing is asked, and no decision changes. *)
Definition undecided w w' : Prop := pi_log (w_db w') = pi_log (w_db w) ∧ same_decisions (pi_db (w_db w)) (pi_db (w_db w')).
Lemma undecided_trans w1 w2 w3 : undecided w1 w2 → undecided w2 w3 → undecided w1 w3.
Proof. intros [E F] [E' F']. split; [congruence|by etrans]. Qed.
Lemma undecided_kept w w' : pipe_rel (λ _, False) same_decisions (w_db w) (w_db w') → undecided w w'.
Proof. intros [(l & E & F) Hd]. split; [|done]. destruct l; [by rewrite app_nil_r in E|by inversion F]. Qed.

Lemma accounts_effect w :
  wp (on_db ListAccounts) w (λ r w', undecided w w').
Proof. unfold ListAccounts. apply wp_on_db, wp_query; intros; by split. Qed.

(** The account is the one that was named. *)
Lemma account_effect id w : wp (getAccount id) w (λ r w', undecided w w' ∧ ∀ a, r = Ok a → id ≠ "" → a.1 = id).
Proof.
  apply wp_and. { eapply wp_mono; [by apply (keeps_getAccount (λ _, False) same_decisions); intros; apply same_decisions_save|]. intros r w'. apply undecided_kept. }
  unfold getAccount. case_bool_decide; [apply wp_intro; naive_solver|]. apply wp_bind, wp_intro. intros [l|e] w1 _; [|done].
  destruct (find _ l) as [a|] eqn:Hf; [|by apply wp_throw]. apply wp_ret. intros ? [= <-] _.
  apply find_some in Hf as [_ Hf]. by apply bool_decide_eq_true in Hf.
Qed.
Lemma provider_account_effect p id w : wp (getAccountForProvider p id) w (λ r w', undecided w w' ∧ ∀ a, r = Ok a → id ≠ "" → a.1 = id).
Proof.
  apply wp_and. { eapply wp_mono; [by apply (keeps_getAccountForProvider (λ _, False) same_decisions); intros; apply same_decisions_save|]. intros r w'. apply undecided_kept. }
  unfold getAccountForProvider. apply wp_bind, wp_lift. destruct (normalizeProvider p) as [q|e]; [|done].
  case_bool_decide; [apply wp_intro; naive_solver|]. apply wp_bind, wp_intro. intros [l|e] w1 _; [|done].
  destruct (find _ l) as [a|] eqn:Hf; [|by apply wp_throw]. destruct (negb _); [by apply wp_throw|]. apply wp_ret. intros ? [= <-] _.
  apply find_some in Hf as [_ Hf]. by apply bool_decide_eq_true in Hf.
Qed.

(** ** One deletion on 115 *)

Lemma trimmed_ids_ok ids clean : trimmed_ids ids = Ok clean → clean = trim_space <$> ids.
Proof.
  unfold trimmed_ids. assert (∀ acc, res_fold (λ l id, let id := trim_space id in
    if bool_decide (id = "") then Err (ErrText "file IDs must not be empty") else Ok (l ++ [id])) ids acc = Ok clean →
    clean = acc ++ (trim_space <$> ids)) as Hgen; [|by intros Hr; apply Hgen in Hr].
  induction ids as [|id ids IH]; intros acc; cbn [res_fold]; [intros [= <-]; by rewrite app_nil_r|].
  cbv zeta. case_bool_decide; [done|]. intros Hr. rewrite (IH _ Hr). by rewrite <-app_assoc.
Qed.

(** Nothing is asked, or the one deletion; it succeeds if 115 says so. *)
Definition deletion (accountID : string) (ids : list string) (ok : Prop) (l : history) : Prop :=
  (l = [] ∧ ¬ ok) ∨ ∃ acc answer, l = [ADelete acc (trim_space <$> ids) answer] ∧ (accountID ≠ "" → acc = accountID) ∧ (ok ↔ answer = Ok tt).

Lemma DeleteCtx_effect accountID ids w :
  wp (DeleteCtx accountID ids) w (λ r w', same_decisions (pi_db (w_db w)) (pi_db (w_db w')) ∧
    ∃ l, pi_log (w_db w') = pi_log (w_db w) ++ l ∧ deletion accountID ids (is_ok r = true) l).
Proof.
  assert (∀ e w', undecided w w' → same_decisions (pi_db (w_db w)) (pi_db (w_db w')) ∧
    ∃ l, pi_log (w_db w') = pi_log (w_db w) ++ l ∧ deletion accountID ids (is_ok (A := unit) (Err e) = true) l) as Herr.
  { intros e w' [E Hd]. split; [done|]. exists []. rewrite app_nil_r. split; [done|]. left. done. }
  unfold DeleteCtx. case_bool_decide; [by apply wp_throw, Herr|]. apply wp_bind. eapply wp_mono; [apply account_effect|].
  intros [a|e] w1 [Hu Ha]; [|by apply Herr]. apply wp_bind, wp_lift. destruct (trimmed_ids ids) as [clean|e] eqn:Hc; [|by apply Herr].
  apply trimmed_ids_ok in Hc as ->. apply wp_call. intros n. cbv zeta. destruct Hu as [Hlog Hdb]. cbn. rewrite Hlog. split; [exact Hdb|].
  eexists. split; [done|]. right. eexists _, _. split; [done|]. split; [by apply Ha|]. by destruct (sv_delete _ _ _) as [[]|].
Qed.
Lemma DeleteProvider_effect p accountID ids w :
  wp (DeleteProvider p accountID ids) w (λ r w', same_decisions (pi_db (w_db w)) (pi_db (w_db w')) ∧
    ∃ l, pi_log (w_db w') = pi_log (w_db w) ++ l ∧ deletion accountID ids (is_ok r = true) l).
Proof.
  unfold DeleteProvider. apply wp_bind. eapply wp_mono; [apply provider_account_effect|]. intros [a|e] w1 [[Hlog Hdb] Ha].
  2:{ split; [done|]. exists []. rewrite app_nil_r. split; [done|by left]. }
  assert (∀ e, same_decisions (pi_db (w_db w)) (pi_db (w_db w1)) ∧
    ∃ l, pi_log (w_db w1) = pi_log (w_db w) ++ l ∧ deletion accountID ids (is_ok (A := unit) (Err e) = true) l) as Herr.
  { intros e. split; [done|]. exists []. rewrite app_nil_r. split; [done|by left]. }
  apply wp_bind, wp_lift. destruct (normalizeProvider p) as [q|e]; [|apply Herr]. case_bool_decide.
  - eapply wp_mono; [apply DeleteCtx_effect|]. intros r w2 [Hd2 (l & E & Hl)]. split; [by etrans|]. exists l. split; [by rewrite E, Hlog|].
    destruct Hl as [?|(acc & answer & -> & Hacc & Hok)]; [by left|]. right. exists acc, answer. split_and!; [done| |done].
    intros Hne. specialize (Ha _ eq_refl Hne). rewrite Ha in Hacc. by apply Hacc.
  - unfold quark_Delete. case_bool_decide; [apply wp_throw, Herr|]. apply wp_bind, wp_lift.
    destruct (trimmed_ids ids) as [clean|e] eqn:Hc; [|apply Herr]. apply trimmed_ids_ok in Hc as ->. apply wp_call. intros n. cbv zeta. cbn. rewrite Hlog.
    split; [exact Hdb|]. eexists. split; [done|]. right. eexists _, _. split; [done|]. split; [by apply Ha|]. by destruct (sv_delete _ _ _) as [[]|].
Qed.
End Accounts.

(** ** Approvals *)

Section Claims.
Context `{Env}.
Implicit Types w : World Database.

(** The approval may be used now. *)
Definition claimable (id : string) (now : Z) (d : Database) (a : Approval.t) : Prop :=
  approvals d !! id = Some a ∧ Approval.Action a = delete_action ∧ Approval.Status a = "approved" ∧ (now < Approval.ExpiresAt a)%Z.
Definition executing (a : Approval.t) : Approval.t := Approval.set_status "executing" a.
Definition with_approval (id : string) (a : Approval.t) (d : Database) : Database := set_approvals (<[id := a]> (approvals d)) d.

Lemma claim_exact id now w :
  wp (ClaimDestructiveApproval id delete_action now) w (λ r w', match r with
    | Ok a => ∃ a0, claimable id now (w_db w) a0 ∧ a = executing a0 ∧ w_db w' = with_approval id a (w_db w)
    | Err e => w_db w' = w_db w ∨ fault_error e ∧ ∃ a0, claimable id now (w_db w) a0 ∧ w_db w' = with_approval id (executing a0) (w_db w)
    end).
Proof.
  destruct w as [n0 d]. unfold ClaimDestructiveApproval, get_approval, update_approval. apply wp_bind, wp_exec; [intros; by left|].
  intros n. cbn [fst snd w_db]. rewrite count_by_key, update_by_key.
  destruct (approvals d !! id) as [a0|] eqn:E; cbn; [|apply wp_throw; left; by destruct d].
  destruct (bool_decide (Approval.Action a0 = delete_action) && _ && _) eqn:Hc; cbn; [|apply wp_throw; left; by destruct d].
  assert (claimable id now d a0) as Hcl. { split; [done|]. bools. done. }
  apply wp_query; cbn [w_db approvals set_approvals].
  - intros e n1 [He|He]; [|by rewrite lookup_insert_eq in He]. right. split; [done|]. by exists a0.
  - rewrite lookup_insert_eq. intros a n1 [= <-]. by exists a0.
Qed.

Lemma finish_approval_effect id status text at_ a w :
  status = "executed" ∨ status = "failed" → approvals (w_db w) !! id = Some a → Approval.Status a = "executing" →
  wp (FinishDestructiveApproval id status text at_) w (λ r w', match r with
    | Ok _ => w_db w' = with_approval id (Approval.finish status text at_ a) (w_db w)
    | Err e => fault_error e ∧ w_db w' = w_db w
    end).
Proof.
  intros Hs Ha Hst. unfold FinishDestructiveApproval, update_approval.
  replace (negb _ && negb _) with false by (by destruct Hs as [-> | ->]). destruct w as [n0 d]. cbn in Ha.
  apply wp_bind, wp_exec; [done|]. intros n. cbn [fst snd w_db]. rewrite count_by_key, update_by_key, Ha.
  rewrite (bool_decide_true (Approval.Status a = _)) by done. by apply wp_ret.
Qed.
End Claims.

Section Tools.
Context `{Env} {ctx : Ctx} `{Sleep} `{Remote} `{Providers} `{Urls} `{CidMap} `{Names} `{Ranging} `{ToolArgs}.
Implicit Types w : World Pipe.

Lemma wp_tool {A B} prefix (m : M Pipe A) (k : A → M Pipe (tool_result B)) w Q :
  wp m w (λ r w', match r with Ok a => wp (k a) w' Q | Err e => Q (Ok (ToolError (prefix +:+ error_text e))) w' end) →
  wp (tool_try prefix m k) w Q.
Proof. intros Hm. apply wp_bind, wp_attempt. eapply wp_mono; [exact Hm|]. intros [a|e] w' Hr; [exact Hr|by apply wp_ret]. Qed.

(** What became of the approval, and of its targets. *)
Definition used (a0 : Approval.t) (deleted : bool) (final : Approval.t) (id : string) (out : tool_result (string * Approval.t)) : Prop :=
  match out with
  | ToolResult (id', a) => id' = id ∧ deleted = true ∧ ∃ t, final = Approval.finish "executed" "" t (executing a0) ∧
      same_request a0 a ∧ Approval.Status a = "executed"
  | ToolError _ => (final = executing a0 ∧ ∃ e, fault_error e) ∨
      deleted = false ∧ ∃ text t, final = Approval.finish "failed" text t (executing a0)
  end.

Definition spends (args : payload) (d d' : Database) (l : history) (out : tool_result (string * Approval.t)) : Prop :=
  ∃ id a0 now deleted final, arg_require args "approval_id" = Some id ∧ claimable id now d a0 ∧
    deletion (Approval.AccountID a0) (tg_FileID <$> Approval.Targets a0) (deleted = true) l ∧
    approvals d' = <[id := final]> (approvals d) ∧ (∀ now', ¬ claimable id now' d' final) ∧ used a0 deleted final id out.

(** C4: an agent deletes with an approval only.  The tool refuses, asking nothing and changing
    no approval; or the approval it was given was for deletions on 115, decided in favour and
    not expired: then it asks for at most one deletion, of exactly the targets of the approval
    on its account, and the approval cannot be used again.  It ends executed when 115 did the
    deletion, and failed when it did not; only where the database fails does it stay as it
    was when it was claimed. *)
Theorem approved_deletion_exact args w :
  wp (handleC115ExecuteDelete args) w (λ r w', let d := pi_db (w_db w) in let d' := pi_db (w_db w') in
    ∃ l, pi_log (w_db w') = pi_log (w_db w) ++ l ∧ match r with
    | Err _ => False
    | Ok out => (l = [] ∧ approvals d' = approvals d ∧ ∃ message, out = ToolError message) ∨ spends args d d' l out
    end).
Proof.
  cbv zeta. unfold handleC115ExecuteDelete. destruct (arg_require args "approval_id") as [id|] eqn:Harg.
  2:{ apply wp_ret. exists []. rewrite app_nil_r. split; [done|]. left. eauto. }
  apply wp_bind, wp_now. intros now n. apply wp_tool, wp_on_db. eapply wp_mono; [apply claim_exact|]. cbn [w_db pi_db pi_log].
  assert (∀ l a0 deleted final out log' d', log' = pi_log (w_db w) ++ l → claimable id now (pi_db (w_db w)) a0 →
    deletion (Approval.AccountID a0) (tg_FileID <$> Approval.Targets a0) (deleted = true) l →
    approvals d' = <[id := final]> (approvals (pi_db (w_db w))) → Approval.Status final ≠ "approved" → used a0 deleted final id out →
    ∃ l, log' = pi_log (w_db w) ++ l ∧ ((l = [] ∧ approvals d' = approvals (pi_db (w_db w)) ∧ ∃ message, out = ToolError message) ∨
      spends args (pi_db (w_db w)) d' l out)) as Hyes.
  { intros l a0 deleted final out log' d' Hl Hc Hd Ha Hs Hu. exists l. split; [done|]. right. exists id, a0, now, deleted, final. split_and!; try done.
    by intros now' (_ & _ & Hst & _). }
  intros [a|e] w1 Hw1; cbn.
  2:{ destruct Hw1 as [E|(Hf & a0 & Hc & E)].
    - exists []. rewrite app_nil_r, E. split; [done|]. left. eauto.
    - apply (Hyes [] a0 false (executing a0)); cbn; rewrite ?app_nil_r, ?E; try done; [by left|]. left. eauto. }
  destruct Hw1 as (a0 & Hc & -> & E). destruct w1 as [n1 d1]. cbn in *. subst d1.
  apply wp_bind, wp_attempt. eapply wp_mono; [apply DeleteProvider_effect|]. intros r w2 [(Ha & _ & _) (l & El & Hdel)]. cbn in Ha, El.
  assert (approvals (pi_db (w_db w2)) !! id = Some (executing a0)) as Hnow by (by rewrite Ha, lookup_insert_eq).
  destruct r as [[]|e]; cbn in Hdel.
  - apply wp_bind, wp_now. intros t n2. apply wp_tool, wp_on_db. cbn [w_db].
    eapply wp_mono; [apply (finish_approval_effect id "executed" "" t (executing a0)); [by left|done|done]|]. intros [[]|e] w3; cbn [w_db pi_db].
    + intros E. apply wp_bind, wp_now. intros executed n3. cbn beta iota delta [executing Approval.set_status]. apply wp_ret. apply (Hyes l a0 true (Approval.finish "executed" "" t (executing a0))); cbn; try done.
      * rewrite E. cbn. by rewrite Ha, insert_insert_eq.
      * split_and!; try done. by eexists.
    + intros [Hf E]. apply (Hyes l a0 true (executing a0)); cbn; try done; [by rewrite E|]. left. eauto.
  - apply wp_bind, wp_now. intros t n2. apply wp_bind. unfold try_. apply wp_bind, wp_attempt, wp_on_db. cbn [w_db].
    eapply wp_mono; [apply (finish_approval_effect id "failed" (error_text e) t (executing a0)); [by right|done|done]|]. intros [[]|e'] w3; cbn [w_db pi_db].
    + intros E. apply wp_ret, wp_ret. apply (Hyes l a0 false (Approval.finish "failed" (error_text e) t (executing a0))); cbn; try done.
      * rewrite E. cbn. by rewrite Ha, insert_insert_eq.
      * right. eauto.
    + intros [Hf E]. apply wp_ret, wp_ret. apply (Hyes l a0 false (executing a0)); cbn; try done; [by rewrite E|]. left. eauto.
Qed.

(** ** What an approval is for *)

Lemma create_approval_effect newID a (x : World Database) :
  wp (CreateDestructiveApproval newID a) x (λ r x', match r with
    | Ok _ => approvals (w_db x) !! newID = None ∧ w_db x' = with_approval newID (requested a) (w_db x)
    | Err _ => w_db x' = w_db x
    end).
Proof.
  unfold CreateDestructiveApproval. apply wp_stmt; [done|]. intros u d n. destruct (approvals (w_db x) !! newID) eqn:E; [done|].
  by intros [= _ <-].
Qed.

(** Objects of the folder, as listings of it show them. *)
Definition shown_as (acc parentCID : string) (l : history) (target : DestructiveTarget) : Prop :=
  ∃ acc' offset limit files total f, AList "115" acc' (or_root parentCID) offset limit (Ok (files, total)) ∈ l ∧ (acc ≠ "" → acc' = acc) ∧
    f ∈ files ∧ target = to_target f.
Lemma shown_as_app acc parentCID l l' target : shown_as acc parentCID l target → shown_as acc parentCID (l ++ l') target.
Proof. intros (a & o & li & fs & t & f & Hin & Hrest). exists a, o, li, fs, t, f. split; [|done]. apply elem_of_app. by left. Qed.

(** The targets found so far are of their IDs, and were shown. *)
Definition found_in (acc parentCID : string) (l : history) (found : gmap string DestructiveTarget) : Prop :=
  ∀ id target, found !! id = Some target → tg_FileID target = id ∧ shown_as acc parentCID l target.

Lemma note_shown acc parentCID l wanted found files :
  (∀ f, f ∈ files → shown_as acc parentCID l (to_target f)) → found_in acc parentCID l found →
  found_in acc parentCID l (note_targets wanted found files).
Proof.
  unfold note_targets. revert found. induction files as [|f files IH]; intros found Hf Hs; [done|]. cbn [foldl]. apply IH; [intros; apply Hf; by right|].
  case_bool_decide; [|done]. intros id target [[<- <-]|[_ Ht]]%lookup_insert_Some; [|by apply Hs]. split; [done|apply Hf; by left].
Qed.

Lemma list_effect acc parentCID offset limit w :
  (0 ≤ offset)%Z →
  wp (listFiles acc (or_root parentCID) offset limit) w (λ r w', same_decisions (pi_db (w_db w)) (pi_db (w_db w')) ∧
    ∃ l, lists w w' l ∧ ∀ files total, r = Ok (files, total) → ∀ f, f ∈ files → shown_as acc parentCID l (to_target f)).
Proof.
  intros Hoff. unfold listFiles. apply wp_bind. eapply wp_mono; [apply account_effect|]. intros [a|e] w1 [[Hl Hd] Ha].
  2:{ split; [done|]. exists []. split; [by apply lists_nil|done]. }
  apply wp_bind, wp_call. intros n. cbv zeta. rewrite (proj2 (Z.ltb_ge offset 0)), or_root_idem by done.
  match goal with |- context [rm_list ?h "115" ?a ?p ?o ?l] => generalize (rm_list h "115" a p o l) as answer; generalize l as limit' end.
  intros limit' answer. cbn [w_db pi_db pi_log].
  assert (∀ n', lists w (mkWorld n' (mkPipe (pi_db (w_db w1)) (pi_files (w_db w1)) (pi_log (w_db w1) ++ [AList "115" a.1 (or_root parentCID) offset limit' answer])))
    [AList "115" a.1 (or_root parentCID) offset limit' answer]) as Hlists.
  { intros n'. split; [by cbn; rewrite Hl|by repeat constructor]. }
  destruct answer as [[files total]|e]; [|split; [done|]; eexists; split; [apply Hlists|done]].
  destruct (Z.ltb total _); [apply wp_throw; split; [done|]; eexists; split; [apply Hlists|done]|].
  apply wp_bind, wp_lift. destruct (res_each _ _); [|split; [done|]; eexists; split; [apply Hlists|done]].
  apply wp_ret. split; [done|]. eexists. split; [apply Hlists|]. intros ? ? [= <- <-] f Hf.
  exists a.1, offset, limit', files, total, f. split; [by left|]. split; [by apply Ha|done].
Qed.

Lemma find_effect acc parentCID wanted pages offset found l0 w :
  (0 ≤ offset)%Z → found_in acc parentCID l0 found →
  wp (find_targets_ctx acc (or_root parentCID) wanted pages offset found) w (λ r w', same_decisions (pi_db (w_db w)) (pi_db (w_db w')) ∧
    ∃ l, lists w w' l ∧ ∀ found', r = Ok found' → found_in acc parentCID (l0 ++ l) found').
Proof.
  revert offset found l0 w. induction pages as [|pages IH]; intros offset found l0 w Hoff Hf; cbn [find_targets_ctx].
  { apply wp_ret. split; [done|]. exists []. split; [by apply lists_nil|]. intros ? [= <-]. by rewrite app_nil_r. }
  case_bool_decide. { apply wp_ret. split; [done|]. exists []. split; [by apply lists_nil|]. intros ? [= <-]. by rewrite app_nil_r. }
  apply wp_bind. eapply wp_mono; [by apply list_effect|]. intros [[files total]|e] w1 [Hd (l & Hl & Hshown)]; [|split; [done|]; by exists l].
  specialize (Hshown _ _ eq_refl). cbv zeta.
  assert (found_in acc parentCID (l0 ++ l) (note_targets wanted found files)) as Hf'.
  { apply note_shown.
    - intros f Hin. destruct (Hshown f Hin) as (a & o & li & fs & t & g & Hin' & Hrest). exists a, o, li, fs, t, g. split; [|done]. apply elem_of_app. by right.
    - intros id target Ht. destruct (Hf _ _ Ht). split; [done|by apply shown_as_app]. }
  destruct (_ || _).
  - apply wp_ret. split; [done|]. exists l. split; [done|]. by intros ? [= <-].
  - eapply wp_mono; [apply (IH (offset + 1000)%Z _ (l0 ++ l)); [lia|done]|]. intros r w2 [Hd2 (l2 & Hl2 & Hr)]. split; [by etrans|].
    exists (l ++ l2). split; [by eapply lists_app|]. intros found' ->. rewrite app_assoc. by apply Hr.
Qed.

Lemma wanted_ids_ok fileIDs wanted : wanted_ids fileIDs = Ok wanted → wanted = trim_space <$> fileIDs ∧ NoDup wanted ∧ "" ∉ wanted.
Proof.
  unfold wanted_ids. assert (∀ acc, NoDup acc → "" ∉ acc → res_fold (λ wanted id, let id := trim_space id in
    if bool_decide (id = "") then Err (ErrText "file_ids must contain non-empty values")
    else if bool_decide (id ∈ wanted) then Err (ErrText "file_ids must not contain duplicates")
    else Ok (wanted ++ [id])) fileIDs acc = Ok wanted → wanted = acc ++ (trim_space <$> fileIDs) ∧ NoDup wanted ∧ "" ∉ wanted) as Hgen.
  2:{ intros Hr. apply Hgen in Hr; [done|constructor|apply not_elem_of_nil]. }
  induction fileIDs as [|id ids IH]; intros acc Hnd Hne; cbn [res_fold]; [intros [= <-]; by rewrite app_nil_r|].
  cbv zeta. case_bool_decide as Hblank; [done|]. case_bool_decide as Hdup; [done|]. intros Hr. apply IH in Hr as (-> & Hrest).
  - split; [by rewrite <-app_assoc|done].
  - apply NoDup_app. split; [done|]. split; [|apply NoDup_singleton]. by intros x Hx ->%list_elem_of_singleton.
  - rewrite elem_of_app, list_elem_of_singleton. naive_solver.
Qed.

Lemma targets_ok (found : gmap string DestructiveTarget) parentCID fileIDs start targets :
  res_fold (λ targets id, match found !! trim_space id with
    | Some t => Ok (targets ++ [t])
    | None => Err (ErrText ("115 object " +:+ id +:+ " was not found in parent CID " +:+ parentCID))
    end) fileIDs start = Ok targets →
  ∃ new, targets = start ++ new ∧ Forall2 (λ id t, found !! trim_space id = Some t) fileIDs new.
Proof.
  revert start. induction fileIDs as [|id ids IH]; intros start; cbn [res_fold]; [intros [= <-]; exists []; by rewrite app_nil_r|].
  destruct (found !! trim_space id) as [t|] eqn:Ht; [|done]. intros (new & -> & Hn)%IH. exists (t :: new). by rewrite <-app_assoc; split; [|constructor].
Qed.

(** Distinct objects of one folder, each as a listing of it shows it. *)
Definition targets_shown (acc parentCID : string) (fileIDs : list string) (targets : list DestructiveTarget) (l : history) : Prop :=
  1 ≤ length fileIDs ≤ 100 ∧ (tg_FileID <$> targets) = (trim_space <$> fileIDs) ∧ NoDup (tg_FileID <$> targets) ∧
  Forall (λ t, tg_FileID t ≠ "" ∧ shown_as acc parentCID l t) targets.

Lemma resolve_targets_effect accountID parentCID fileIDs w :
  wp (ResolveDeleteTargetsCtx accountID parentCID fileIDs) w (λ r w', same_decisions (pi_db (w_db w)) (pi_db (w_db w')) ∧
    ∃ l, lists w w' l ∧ ∀ acc targets, r = Ok (acc, targets) → (accountID ≠ "" → acc = accountID) ∧ targets_shown acc parentCID fileIDs targets l).
Proof.
  assert (∀ e w', undecided w w' → same_decisions (pi_db (w_db w)) (pi_db (w_db w')) ∧
    ∃ l, lists w w' l ∧ ∀ acc targets, Err e = Ok (acc, targets) → (accountID ≠ "" → acc = accountID) ∧ targets_shown acc parentCID fileIDs targets l) as Herr.
  { intros e w' [E Hd]. split; [done|]. exists []. split; [by apply lists_nil|done]. }
  unfold ResolveDeleteTargetsCtx. destruct (_ || _) eqn:Hlen; [by apply wp_throw, Herr|]. apply orb_false_iff in Hlen as [Hlow Hhigh].
  apply bool_decide_eq_false in Hlow, Hhigh. apply wp_bind. eapply wp_mono; [apply account_effect|]. intros [a|e] w1 [Hu Ha]; [|by apply Herr].
  cbv zeta. apply wp_bind, wp_lift. destruct (wanted_ids fileIDs) as [wanted|e] eqn:Hw; [|by apply Herr]. apply wanted_ids_ok in Hw as (-> & Hnd & Hne).
  apply wp_bind. eapply wp_mono; [by apply (find_effect a.1 parentCID _ _ 0 ∅ [])|]. destruct Hu as [Hlog Hdb].
  intros r w2 [Hd2 (l & [El Fl] & Hfound)].
  assert (same_decisions (pi_db (w_db w)) (pi_db (w_db w2)) ∧ lists w w2 l) as [Hsame Hlists].
  { split; [by etrans|]. split; [by rewrite El, Hlog|done]. }
  destruct r as [found|e]; [|split; [done|]; by exists l]. specialize (Hfound _ eq_refl). apply wp_bind, wp_lift.
  destruct (res_fold _ fileIDs []) as [targets|e] eqn:Ht; [|split; [done|]; by exists l].
  apply targets_ok in Ht as (new & -> & Hall). cbn [app]. apply wp_ret. split; [done|]. exists l. split; [done|]. intros ? ? [= <- <-].
  split; [by apply Ha|]. assert ((tg_FileID <$> new) = (trim_space <$> fileIDs)) as Hids.
  { clear -Hall Hfound. induction Hall as [|id t ids new Ht Hall IH]; [done|]. cbn. rewrite IH. f_equal. by apply Hfound in Ht as [? _]. }
  split_and!; [lia|lia|done|by rewrite Hids|]. apply Forall_forall. intros t Hin. split.
  - intros Hb. apply Hne. rewrite <-Hids, <-Hb. by apply list_elem_of_fmap_2.
  - apply list_elem_of_lookup in Hin as (i & Hi). destruct (Forall2_lookup_r _ _ _ _ _ Hall Hi) as (id & _ & Ht). by apply Hfound in Ht as [_ ?].
Qed.

(** C25: a request for a deletion deletes nothing.  It lists the folder, and where it succeeds
    it leaves one new approval: pending, in the name of the caller, for fifteen minutes, and
    for between one and a hundred distinct objects of that folder, the ones that were named,
    each with the name and the size that the listing showed.  Where it fails there is none. *)
Theorem deletion_request_listed newID requester args w :
  wp (handleC115RequestDelete newID requester args) w (λ r w', let d := pi_db (w_db w) in let d' := pi_db (w_db w') in
    ∃ l, lists w w' l ∧ match r with
    | Err _ => False
    | Ok (ToolError _) => approvals d' = approvals d
    | Ok (ToolResult (id, approval)) => ∃ fileIDs parentCID acc targets t, id = newID ∧
        arg_require_all args "file_ids" = Some fileIDs ∧ arg_require args "parent_cid" = Some parentCID ∧
        (arg_string args "account_id" "" ≠ "" → acc = arg_string args "account_id" "") ∧
        targets_shown acc parentCID fileIDs targets l ∧
        approval = Approval.mk "drive.115.delete" acc parentCID targets "pending" requester None None (t + 15 * minute) t None None ∧
        approvals d !! newID = None ∧ approvals d' = <[newID := approval]> (approvals d)
    end).
Proof.
  cbv zeta. unfold handleC115RequestDelete.
  destruct (arg_require_all args "file_ids") as [fileIDs|] eqn:Hfiles; [|apply wp_ret; exists []; split; [by apply lists_nil|done]].
  destruct (arg_require args "parent_cid") as [parentCID|] eqn:Hparent; [|apply wp_ret; exists []; split; [by apply lists_nil|done]].
  apply wp_tool. eapply wp_mono; [apply resolve_targets_effect|]. intros [[acc targets]|e] w1 [(Ha & _) (l & [El Fl] & Hr)]; [|by exists l].
  destruct (Hr _ _ eq_refl) as [Hacc Hshown]. apply wp_bind, wp_now. intros t n. cbv zeta. apply wp_tool, wp_on_db.
  eapply wp_mono; [apply create_approval_effect|]. intros [[]|e] w2; cbn [w_db pi_db pi_log].
  - intros [Hfree E]. apply wp_ret. exists l. split; [done|]. exists fileIDs, parentCID, acc, targets, t. rewrite Ha in Hfree. split_and!; try done.
    cbn [w_db pi_db]. rewrite E. cbn. by rewrite Ha.
  - intros E. exists l. split; [done|]. cbn [w_db pi_db]. by rewrite E.
Qed.
End Tools.

(** * The gate of the API *)

Section Api.
Context `{Env} {ctx : Ctx} `{Sleep} `{Remote} `{Providers} `{Urls} `{CidMap} `{Names} `{Ranging} (sha : string → string).
Implicit Types w : World Pipe.

(** Nothing is asked, and approvals and settings are as they were. *)
Definition calm w w' : Prop := pi_log (w_db w') = pi_log (w_db w) ∧
  approvals (pi_db (w_db w')) = approvals (pi_db (w_db w)) ∧ settings (pi_db (w_db w')) = settings (pi_db (w_db w)).
Lemma calm_trans w1 w2 w3 : calm w1 w2 → calm w2 w3 → calm w1 w3.
Proof. intros (E1 & E2 & E3) (F1 & F2 & F3). unfold calm. by rewrite F1, F2, F3. Qed.
Lemma calm_refl w : calm w w. Proof. done. Qed.

(** A handler runs as the agent of a token, or for a trusted user; before it nothing is asked
    or decided. *)
Lemma middleware_effect {A} b path ip r (next : bool → M Pipe (answer A)) w (Q : gated (answer A) → World Pipe → Prop) :
  (∀ code message entry b' w', calm w w' → (400 ≤ code)%Z → Q (mkGated (Refused code message) entry b') w') →
  (∀ (agent : bool) w1, calm w w1 →
     (if agent then BearerToken (rq_header r) ≠ "" else BearerToken (rq_header r) = "" ∧ TrustedWithoutToken (rq_header r) = true) →
     wp (next agent) w1 (λ a w', ∃ x, a = Ok x ∧ ∀ entry b', Q (mkGated x entry b') w')) →
  wp (auditLogMiddleware sha b path ip r next) w (λ g w', ∃ g', g = Ok g' ∧ Q g' w').
Proof.
  intros Hrefused Hnext. unfold auditLogMiddleware. apply wp_bind, wp_now. intros started n. destruct (body_refused r) as [[code message]|] eqn:Hb.
  { apply wp_ret. eexists. split; [done|]. apply Hrefused; [done|]. unfold body_refused in Hb. repeat case_match; simplify_eq; lia. }
  cbv zeta. case_bool_decide as Hsec.
  - destruct (negb _) eqn:Ht.
    + apply wp_ret. eexists. split; [done|]. by apply Hrefused.
    + apply wp_bind. eapply wp_mono; [apply (Hnext false); [done|]; split; [done|by apply negb_false_iff]|].
      intros a w1 (x & -> & Hq). apply wp_ret. by eexists.
  - apply wp_bind, wp_now. intros t n1. apply wp_bind, wp_on_db. eapply wp_mono; [apply (authorize_token_effect sha)|].
    intros [[[tok [e|]] b']|e] w1; cbn [w_db pi_db]; [| |done].
    + intros [_ E]. apply wp_ret. eexists. split; [done|]. apply Hrefused; [unfold calm; cbn; by rewrite E|by destruct e].
    + intros [_ (id & row & -> & E)]. apply wp_bind. eapply wp_mono; [apply (Hnext true); [unfold calm; cbn; by rewrite E|done]|].
      intros a w2 (x & -> & Hq). apply wp_ret. by eexists.
Qed.

Lemma wp_answer {A B} code (m : M Pipe A) (k : A → M Pipe (answer B)) w Q :
  wp m w (λ r w', match r with Ok a => wp (k a) w' Q | Err e => Q (Ok (Refused code (error_text e))) w' end) →
  wp (answer_try code m k) w Q.
Proof. intros Hm. apply wp_bind, wp_attempt. eapply wp_mono; [exact Hm|]. intros [a|e] w' Hr; [exact Hr|by apply wp_ret]. Qed.

Lemma decide_effect id user status now (x : World Database) :
  wp (DecideDestructiveApproval id user status now) x (λ r x', w_db x' = w_db x ∧ is_ok r = false ∨
    ∃ a, approvals (w_db x) !! id = Some a ∧ Approval.Status a = "pending" ∧ (now < Approval.ExpiresAt a)%Z ∧
      (status = "approved" ∨ status = "rejected") ∧ w_db x' = with_approval id (Approval.decide_ status user now a) (w_db x)).
Proof.
  destruct x as [n0 d]. unfold DecideDestructiveApproval, get_approval, update_approval. destruct (_ && _) eqn:Hs; [apply wp_throw; by left|].
  apply decided_status in Hs. apply wp_bind, wp_exec; [intros; by left|].
  intros n. cbn [fst snd w_db]. rewrite count_by_key, update_by_key.
  destruct (approvals d !! id) as [a|] eqn:E; cbn; [|apply wp_throw; left; by destruct d].
  destruct (bool_decide (Approval.Status a = "pending") && _) eqn:Hc; cbn; [|apply wp_throw; left; by destruct d].
  apply andb_true_iff in Hc as [Hp%bool_decide_eq_true Hlt%Z.ltb_lt].
  apply wp_query; intros; right; by exists a.
Qed.

(** C12: only a browser user decides.  Whatever the request and whatever fails, the handlers of
    a decision, behind the gate of the API, ask nothing and change no setting, and they change
    no approval but the one of the request: one that was pending and had not expired, which is
    then decided as the route says, by the user the proxy in front has authenticated, and only
    for a request without a token.  An agent is refused, and so is everyone else for whom
    nothing was decided. *)
Theorem only_users_decide b path ip r id status w :
  wp (auditLogMiddleware sha b path ip r (requireBrowserDecision id (rq_header r) status)) w (λ g w', ∃ g', g = Ok g' ∧
    let user := trim_space (header_get (rq_header r) "Remote-User") in
    pi_log (w_db w') = pi_log (w_db w) ∧ settings (pi_db (w_db w')) = settings (pi_db (w_db w)) ∧
    (approvals (pi_db (w_db w')) = approvals (pi_db (w_db w)) ∧ (400 ≤ code_of (ga_outcome g'))%Z ∨
     BearerToken (rq_header r) = "" ∧ user ≠ "" ∧ (status = "approved" ∨ status = "rejected") ∧
       ∃ a t, approvals (pi_db (w_db w)) !! id = Some a ∧ Approval.Status a = "pending" ∧ (t < Approval.ExpiresAt a)%Z ∧
         approvals (pi_db (w_db w')) = <[id := Approval.decide_ status user t a]> (approvals (pi_db (w_db w))))).
Proof.
  cbv zeta. apply middleware_effect.
  { intros code message entry b' w' (El & Ea & Es) Hc. split_and!; [done..|]. by left. }
  intros agent w1 (El & Ea & Es) Hwho. unfold requireBrowserDecision. destruct agent.
  { apply wp_ret. eexists. split; [done|]. intros. split_and!; [done..|]. by left. }
  cbv zeta. case_bool_decide as Huser. { apply wp_ret. eexists. split; [done|]. intros. split_and!; [done..|]. by left. }
  apply wp_bind, wp_now. intros now n. apply wp_answer, wp_on_db. eapply wp_mono; [apply decide_effect|]. cbn [w_db pi_db pi_log].
  intros r1 x Hx. assert (∀ (y : answer Approval.t), ((400 ≤ code_of y)%Z ∨ is_ok r1 = true) → ∃ x', Ok y = Ok x' ∧
     ∀ entry b', pi_log (w_db w1) = pi_log (w_db w) ∧ settings (w_db x) = settings (pi_db (w_db w)) ∧
    (approvals (w_db x) = approvals (pi_db (w_db w)) ∧ (400 ≤ code_of (ga_outcome (mkGated x' entry b')))%Z ∨
     BearerToken (rq_header r) = "" ∧ trim_space (header_get (rq_header r) "Remote-User") ≠ "" ∧ (status = "approved" ∨ status = "rejected") ∧
       ∃ a t, approvals (pi_db (w_db w)) !! id = Some a ∧ Approval.Status a = "pending" ∧ (t < Approval.ExpiresAt a)%Z ∧
         approvals (w_db x) = <[id := Approval.decide_ status (trim_space (header_get (rq_header r) "Remote-User")) t a]> (approvals (pi_db (w_db w))))) as Hgoal.
  { intros y Hy. eexists. split; [done|]. intros entry b'. destruct Hx as [[E Hno]|(a & Ha & Hp & Hlt & Hst & E)]; rewrite E; cbn; rewrite ?Ea.
    - split_and!; [done..|]. left. split; [done|]. destruct Hy as [Hy|Hy]; [done|by rewrite Hy in Hno].
    - split_and!; [done..|]. right. destruct Hwho as [Hsec _]. split_and!; [done..|]. exists a, now. by rewrite <-Ea. }
  destruct r1 as [a|e]; [apply wp_ret, Hgoal; by right|apply Hgoal; by left].
Qed.

(** ** The switch *)

Lemma put_settings_approvals new at_ d : approvals (put_settings new at_ d) = approvals d.
Proof. revert d. induction new as [|kv new IH]; intros d; [done|]. simpl. by rewrite IH. Qed.
Lemma first_cookie_approvals cookie at_ d d' : set_first_cookie cookie at_ d = Ok d' → approvals d' = approvals d.
Proof. unfold set_first_cookie, put_account. repeat case_match; intros; by simplify_eq. Qed.

(** Nothing is asked, and approvals and the switch of the browser's deletion are as they were. *)
Definition switch_kept w w' : Prop := pi_log (w_db w') = pi_log (w_db w) ∧
  approvals (pi_db (w_db w')) = approvals (pi_db (w_db w)) ∧
  settings (pi_db (w_db w')) !! "dangerous_actions_enabled" = settings (pi_db (w_db w)) !! "dangerous_actions_enabled".
Lemma switch_calm w w' : calm w w' → switch_kept w w'.
Proof. intros (El & Ea & Es). split_and!; [done..|by rewrite Es]. Qed.
Lemma switch_trans w1 w2 w3 : switch_kept w1 w2 → switch_kept w2 w3 → switch_kept w1 w3.
Proof. intros (E1 & E2 & E3) (F1 & F2 & F3). unfold switch_kept. by rewrite F1, F2, F3. Qed.

Lemma update_switch values w : values !! "dangerous_actions_enabled" = None → wp (on_db (Update values)) w (λ _ w', switch_kept w w').
Proof.
  intros Hv. apply wp_on_db. eapply wp_mono; [apply wp_and; [apply update_effect|]|].
  - apply (wp_mono _ _ (λ r x, approvals (w_db x) = approvals (pi_db (w_db w))) (λ r x, approvals (w_db x) = approvals (pi_db (w_db w)))); [|done].
    unfold Update. apply wp_bind, wp_lift. destruct (res_fold _ _ _) as [f|e]; [|done]. eapply wp_mono; [apply settings_effect|].
    intros [[]|e] x; [|by intros [-> _]]. intros (at_ & Hd). case_decide; [rewrite Hd; apply put_settings_approvals|].
    rewrite (first_cookie_approvals _ _ _ _ Hd). apply put_settings_approvals.
  - intros r x [Hr Ha]. unfold switch_kept. cbn [w_db pi_db pi_log]. split_and!; [done|done|]. destruct r as [[]|e]; [|by destruct Hr as [-> _]].
    destruct Hr as (_ & (at_ & Hs) & _). rewrite Hs. unfold updated. by rewrite Hv.
Qed.
Lemma state_calm w : wp (on_db State) w (λ _ w', calm w w').
Proof.
  unfold State, GetAllSettings, ListAccounts. apply wp_on_db, wp_bind, wp_query; [done|]. intros all n _. cbv zeta.
  apply wp_bind, wp_query; [done|]. intros l n' _. by apply wp_ret.
Qed.

Context `{ToolArgs}.
Lemma config_values_ok l start values :
  res_fold config_value l start = Ok values → start !! "dangerous_actions_enabled" = None → values !! "dangerous_actions_enabled" = None.
Proof.
  revert start. induction l as [|[key v] l IH]; intros start; cbn [res_fold]; [by intros [= ->]|]. unfold config_value at 1. cbn [fst snd].
  destruct v; try done. case_bool_decide as Hk; [done|]. intros Hr Hs. eapply IH; [done|]. by rewrite lookup_insert_ne.
Qed.

(** The deletion was not done, or done with the switch on. *)
Definition deletes_safely (d d' : Database) (log log' : history) (body : res delete_body) (code : Z) : Prop :=
  stored_text d "dangerous_actions_enabled" = "true" ∧ approvals d' = approvals d ∧ settings d' = settings d ∧
  ∃ q l, body = Ok q ∧ log' = log ++ l ∧ deletion (db_AccountID q) (db_FileIDs q) (code = 200%Z) l.
Lemma delete_effect body w :
  wp (handleDelete body false) w (λ a w', ∃ x, a = Ok x ∧
    (calm w w' ∧ (400 ≤ code_of x)%Z ∨
     deletes_safely (pi_db (w_db w)) (pi_db (w_db w')) (pi_log (w_db w)) (pi_log (w_db w')) body (code_of x))).
Proof.
  unfold handleDelete. apply wp_answer. unfold Get. eapply wp_mono; [apply wp_and; [apply get_setting_effect|apply (silent_db (GetSetting "dangerous_actions_enabled"))]|].
  intros [v|e] w1 [[E Hv] El].
  2:{ eexists. split; [done|]. left. split; [|done]. unfold calm. by rewrite El, E. }
  assert (calm w w1) as Hcalm by (unfold calm; by rewrite El, E). cbv beta. case_bool_decide as Hon; cbn [negb]; [|apply wp_ret; eexists; split; [done|by left]].
  destruct body as [q|e]; [|apply wp_ret; eexists; split; [done|by left]].
  destruct (_ || _); [apply wp_ret; eexists; split; [done|by left]|].
  apply wp_answer. eapply wp_mono; [apply DeleteProvider_effect|]. rewrite E, El.
  assert (stored_text (pi_db (w_db w)) "dangerous_actions_enabled" = "true") as Hswitch by (unfold stored_text; congruence).
  intros r w2 [(Ha & Hs & _) (l & Elog & Hd)].
  assert (∀ x : answer unit, (code_of x = 200%Z ↔ is_ok r = true) → deletes_safely (pi_db (w_db w)) (pi_db (w_db w2)) (pi_log (w_db w)) (pi_log (w_db w2)) (Ok q) (code_of x)) as Hgoal.
  { intros x Hx. split_and!; [done..|]. exists q, l. split_and!; [done..|]. clear -Hd Hx. unfold deletion in *. naive_solver. }
  destruct r as [[]|e]; [apply wp_ret|]; eexists; (split; [done|]); right; apply Hgoal; by split.
Qed.

Lemma settings_answer values agent w : wp (handleUpdateSettings values agent) w (λ x w', ∃ y, x = Ok y ∧
  ((agent = true → switch_kept w w'))).
Proof.
  unfold handleUpdateSettings. destruct values as [values|e]; [|apply wp_ret; by eexists].
  destruct (agent && _) eqn:Hv; [apply wp_ret; by eexists|]. apply wp_answer.
  assert (wp (on_db (Update values)) w (λ _ w', agent = true → switch_kept w w')) as Hu.
  { destruct agent; [|by apply wp_intro]. cbn [andb] in Hv. apply bool_decide_eq_false in Hv. rewrite <-eq_None_not_Some in Hv.
    eapply wp_mono; [by apply update_switch|]. intros r w' Hk _. exact Hk. }
  eapply wp_mono; [exact Hu|]. intros [[]|e] w2 Hk; [|by eexists].
  apply wp_answer. eapply wp_mono; [apply state_calm|].
  intros [st|e] w3 Hk3%switch_calm; [apply wp_ret|]; (eexists; split; [done|]); intros Ha; (eapply switch_trans; [by apply Hk|done]).
Qed.

Lemma config_effect args w : wp (handleSystemUpdateConfig args) w (λ x w', (∃ out, x = Ok out) ∧ switch_kept w w').
Proof.
  assert (∀ out : tool_result (gmap string string * gmap string bool), (∃ out', Ok out = Ok out') ∧ switch_kept w w) as Hsame by (split; [by eexists|by apply switch_calm]).
  unfold handleSystemUpdateConfig. destruct (args !! "settings") as [[]|]; try (apply wp_ret, Hsame).
  match goal with |- context [res_fold config_value ?l ?s] => destruct (res_fold config_value l s) as [vs|e] eqn:Hr end; [|apply wp_ret, Hsame].
  apply config_values_ok in Hr; [|by rewrite lookup_empty].
  apply wp_tool. eapply wp_mono; [by apply update_switch|]. intros [[]|e] w2 Hk; [|eauto].
  apply wp_tool. eapply wp_mono; [apply state_calm|]. intros [s|e] w3 Hk3%switch_calm; [apply wp_ret|]; (split; [by eauto|]); by eapply switch_trans.
Qed.

(** C13: no agent deletes without an approval, or makes it possible.  The handler of deletions,
    behind the gate of the API, refuses a request before anything is asked or stored; or it
    has no token and comes from a user the proxy has authenticated, the switch was on, and
    then at most the one deletion of the body is asked for, which the answer reports.  A
    request with a token to the handler of settings, and the tool that changes settings for
    any caller, move neither the switch nor an approval. *)
Theorem agent_keeps_switch b path ip r body values args w :
  wp (auditLogMiddleware sha b path ip r (handleDelete body)) w (λ g w', ∃ g', g = Ok g' ∧
    (calm w w' ∧ (400 ≤ code_of (ga_outcome g'))%Z ∨
     BearerToken (rq_header r) = "" ∧ TrustedWithoutToken (rq_header r) = true ∧
       deletes_safely (pi_db (w_db w)) (pi_db (w_db w')) (pi_log (w_db w)) (pi_log (w_db w')) body (code_of (ga_outcome g')))) ∧
  wp (auditLogMiddleware sha b path ip r (handleUpdateSettings values)) w (λ g w', (∃ g', g = Ok g') ∧
    (BearerToken (rq_header r) ≠ "" → switch_kept w w')) ∧
  wp (handleSystemUpdateConfig args) w (λ x w', (∃ out, x = Ok out) ∧ switch_kept w w').
Proof.
  split_and!; [| |apply config_effect].
  - apply middleware_effect; [intros; by left|]. intros agent w1 Hc Hwho. destruct agent.
    { apply wp_ret. eexists. split; [done|]. intros. by left. }
    eapply wp_mono; [apply delete_effect|]. intros a w' (x & -> & Hx). eexists. split; [done|]. intros entry b'. cbn [ga_outcome].
    destruct Hx as [[Hx Hcode]|Hx]; [left; split; [by eapply calm_trans|done]|right]. destruct Hwho as [Hsec Htrust]. split_and!; [done..|].
    destruct Hc as (El & Ea & Es), Hx as (Hon & Ha & Hs & q & l & -> & E & Hd). unfold stored_text in Hon. rewrite Es in Hon.
    split_and!; [done|congruence|congruence|]. exists q, l. rewrite <-El. done.
  - eapply wp_mono; [apply (middleware_effect _ _ _ _ _ _ (λ _ w', BearerToken (rq_header r) ≠ "" → switch_kept w w'))|by intros x w' (g & -> & Hk); eauto].
    { intros. by apply switch_calm. }
    intros agent w1 Hc%switch_calm Hwho. eapply wp_mono; [apply settings_answer|]. intros a w' (y & -> & Hy). eexists. split; [done|]. intros entry b' Hsec.
    destruct agent; [eapply switch_trans; [done|by apply Hy]|by destruct Hwho].
Qed.
End Api.
