(* ===== verification/Tools.v ===== *)
(** Tasks as clients submit and see them: the handlers of tasks and imports of
    [src/internal/api/routes.go] and their tools of [src/internal/mcp/server.go], which fields
    of a payload they show, and the webhook of CloudDrive2
    ([src/internal/service/webhook.go]), which gathers changes into one task.

    The decoding of a body is an argument of the handlers, as are new IDs. *)
From S2P Require Import Prelude GoStrings GoPath Sql Schema TaskStore ImportStore Accounts Payload Queue FileSys Remote Drive Service Local Pipeline Media.
From S2P Require Import Episodes Identity Autofill Replacement AutofillRun Access.

(** * What is shown *)

(** [publicTaskPayloadKey] of [routes.go]: whether a key is kept from clients. *)
Definition publicTaskPayloadKey (key : string) : bool :=
  bool_decide (key ∈ ["source_shares"; "share_password"; "share_url"; "expected_episodes"; "selected_source_ids"; "selected_source_manifest";
    "parent_task_id"; "prior_import_task_id"]) || has_prefix key "autofill_".
(** The same of [server.go]. *)
Definition tool_private_key (key : string) : bool :=
  bool_decide (key ∈ ["source_shares"; "share_url"; "share_password"; "expected_episodes"; "selected_source_ids"; "selected_source_manifest";
    "parent_task_id"; "prior_import_task_id"]) || has_prefix key "autofill_".

Definition with_payload (p : payload) (t : AsyncTask.t) : AsyncTask.t :=
  let '(AsyncTask.mk ty schedule _ status progress result err attempts most created updated) := t in
  AsyncTask.mk ty schedule p status progress result err attempts most created updated.
Definition publicAsyncTask (t : AsyncTask.t) : AsyncTask.t :=
  if negb (bool_decide (AsyncTask.Type_ t = "quark_to_115_import")) then t else
  let kind : payload := match AsyncTask.Payload t !! "parent_task_id" with
    | Some (VString parent) => if negb (bool_decide (trim_space parent = "")) then {["workflow_kind" := VString "autofill_child"]} else ∅
    | _ => ∅
    end in
  with_payload (filter (λ kv, publicTaskPayloadKey kv.1 = false) (AsyncTask.Payload t) ∪ kind) t.
Definition safeTask (t : AsyncTask.t) : AsyncTask.t :=
  if negb (bool_decide (AsyncTask.Type_ t = "quark_to_115_import")) then t
  else with_payload (filter (λ kv, tool_private_key kv.1 = false) (AsyncTask.Payload t)) t.

Section Tools.
Context `{Env} {ctx : Ctx} `{Sleep} `{Remote} `{Providers} `{Urls} `{CidMap} `{Names} `{Ranging} `{ToolArgs}.
Abbreviation Pi := (M Pipe).
Abbreviation Db := (M Database).

Definition shown_by (f : AsyncTask.t → AsyncTask.t) (x : task_with_id) : task_with_id := (x.1, f x.2).

(** ** The API *)

Definition handleListAsyncTasks (status : string) : Pi (answer (list task_with_id)) :=
  answer_try 500 (on_db (ListAsyncTasks status 50)) (λ l, mret (Answered 200 (shown_by publicAsyncTask <$> l))).
Definition handleGetAsyncTask (id : string) : Pi (answer AsyncTask.t) :=
  r ← attempt (on_db (GetAsyncTask id));
  mret match r with Ok t => Answered 200 (publicAsyncTask t) | Err _ => Refused 404 "async task not found" end.
Definition handleCancelAsyncTask (s : Service) (id : string) : Pi (answer AsyncTask.t) :=
  answer_try 409 (on_db (Cancel s id)) (λ '(t, _), mret (Answered 202 (publicAsyncTask t))).
Definition handleRetryAsyncTask (newID id : string) : Pi (answer task_with_id) :=
  answer_try 409 (on_db (Retry newID id)) (λ x, mret (Answered 202 (shown_by publicAsyncTask x))).
Definition handleListTaskRuns (id : string) : Pi (answer (list (Z * TaskRun.t))) :=
  r ← attempt (on_db (GetAsyncTask id));
  match r with
  | Err _ => mret (Refused 404 "async task not found")
  | Ok _ => answer_try 500 (on_db (ListTaskRuns id)) (λ l, mret (Answered 200 l))
  end.
Definition handleGetQuarkShareImport (id : string) : Pi (answer (AsyncTask.t * option (CrossDriveImport.t * string * list (Z * CrossDriveItem.t)))) :=
  r ← attempt (on_db (GetAsyncTask id));
  match r with
  | Ok t =>
      if negb (bool_decide (AsyncTask.Type_ t = "quark_to_115_import")) then mret (Refused 404 "Quark share import not found") else
      detail ← attempt (on_db (GetCrossDriveImportDetail id));
      mret match detail with
           | Ok d => Answered 200 (publicAsyncTask t, Some d)
           | Err e => if negb (error_is e ErrNoRows) then Refused 500 (error_text e) else Answered 200 (publicAsyncTask t, None)
           end
  | Err _ => mret (Refused 404 "Quark share import not found")
  end.

(** [handleBatchTasks]: all operations are validated before one is queued; where one cannot be
    queued the answer has the error and the tasks queued before. *)
Fixpoint queue_batch (newID : nat → string) (i : nat) (operations : list (string * payload)) : Db (list string * option error) :=
  match operations with
  | [] => mret ([], None)
  | (action, p) :: operations =>
      queued ← attempt (Enqueue (newID i) action p);
      match queued with
      | Err e => mret ([], Some e)
      | Ok task => '(ids, e) ← queue_batch newID (S i) operations; mret (task.1 :: ids, e)
      end
  end.
Definition handleBatchTasks (newID : nat → string) (body : res (list (string * payload))) : Pi (answer (list string * option error)) :=
  match body with
  | Err e => mret (Refused 400 (error_text e))
  | Ok operations =>
      if bool_decide (length operations = 0) || bool_decide (100 < length operations) then
        mret (Refused 400 "operations must contain 1 to 100 tasks")
      else match res_each (λ o, ValidateTask o.1 o.2) operations with
      | Err e => mret (Refused 400 (error_text e))
      | Ok _ =>
          '(ids, e) ← on_db (queue_batch newID 0 operations);
          mret (Answered (match e with Some _ => 500 | None => 202 end) (ids, e))
      end
  end.

(** ** Imports *)

(** The account of an import on 115: the one named, or the default one. *)
Definition import_account (id : string) : Pi string :=
  if bool_decide (id = "") then a ← GetDefaultAccount "115"; mret a.1
  else _ ← getAccountForProvider "115" id; mret id.
Definition submitted_payload (quarkAccountID quarkTargetID shareURL sharePassword c115AccountID : string) (manifest : option (list ShareSelection))
    : payload :=
  let p : payload := list_to_map [("quark_account_id", VString quarkAccountID); ("quark_target_id", VString quarkTargetID);
    ("share_url", VString (trim_space shareURL)); ("share_password", VString (trim_space sharePassword)); ("c115_account_id", VString c115AccountID)] in
  match manifest with
  | Some l => <["selected_source_manifest" := VArray (encode_selection <$> l)]> p
  | None => <["import_all" := VBool true]> p
  end.

Record import_body := mkImport {
  qb_account : string; qb_target : string; qb_url : string; qb_password : string; qb_c115 : string;
  qb_manifest : option (list ShareSelection); qb_all : bool
}.
(** The checks of [handleCreateQuarkShareImport]. *)
Definition checked_import (q : import_body) : res unit :=
  _ ← fail_if (bool_decide (trim_space (qb_account q) = "") || bool_decide (trim_space (qb_target q) = "") || bool_decide (trim_space (qb_url q) = ""))
        (ErrText "quark_account_id, quark_target_id, and share_url are required");
  _ ← fail_if (bool_decide (qb_manifest q = None) && negb (qb_all q))
        (ErrText "selected_source_manifest is required; set import_all=true only for explicit whole-pack imports");
  _ ← fail_if (bool_decide (qb_manifest q = Some [])) (ErrText "selected_source_manifest must contain at least one file leaf");
  fail_if (negb (bool_decide (qb_manifest q = None)) && qb_all q) (ErrText "selected_source_manifest and import_all cannot be used together").
Definition handleCreateQuarkShareImport (newID : string) (body : res import_body) : Pi (answer (string * string)) :=
  match body with
  | Err e => mret (Refused 400 (error_text e))
  | Ok q =>
      answer_try 400 (lift (checked_import q)) (λ _,
      answer_try 400 (getAccountForProvider "quark" (qb_account q)) (λ _,
      answer_try 400 (import_account (qb_c115 q)) (λ c115,
      answer_try 400 (on_db (Enqueue newID "quark_to_115_import"
          (submitted_payload (qb_account q) (qb_target q) (qb_url q) (qb_password q) c115 (qb_manifest q)))) (λ task,
      mret (Answered 202 (task.1, AsyncTask.Status task.2))))))
  end.

(** ** The tools *)

(** [decodeShareManifest]; JSON's null is no list. *)
Definition decodeShareManifest (v : value) : res (list ShareSelection) :=
  match v, decode_selections v with
  | VNull, _ | _, None => Err (ErrText "selected_source_manifest must be an array of leaf identities")
  | _, Some l => Ok l
  end.
Definition destination_keys : list string := ["destination_cid"; "destination_path"; "target_cid"; "c115_target_cid"].
Definition required_argument (args : payload) (key : string) : res string :=
  match arg_require args key with Some v => Ok v | None => Err (ErrText (key +:+ " is required")) end.
(** The arguments of [handleQuarkImportShare] up to the accounts. *)
Definition import_arguments (args : payload) : res import_body :=
  _ ← res_each (λ key, fail_if (bool_decide (is_Some (args !! key)))
        (ErrText (key +:+ " is not accepted; the destination is fixed to /emby/_待整理"))) destination_keys;
  account ← required_argument args "quark_account_id";
  target ← required_argument args "quark_target_id";
  shareURL ← required_argument args "share_url";
  let manifestValue := args !! "selected_source_manifest" in
  let importAll := arg_bool args "import_all" false in
  _ ← fail_if (bool_decide (manifestValue = None) && negb importAll)
        (ErrText "selected_source_manifest is required; set import_all=true only for explicit whole-pack imports");
  _ ← fail_if (negb (bool_decide (manifestValue = None)) && importAll)
        (ErrText "selected_source_manifest and import_all cannot be used together");
  manifest ← match manifestValue with
    | None => Ok None
    | Some v =>
        l ← decodeShareManifest v;
        _ ← fail_if (bool_decide (length l = 0)) (ErrText "selected_source_manifest must contain at least one file leaf");
        Ok (Some l)
    end;
  Ok (mkImport account target shareURL (arg_string args "share_password" "") (trim_space (arg_string args "c115_account_id" "")) manifest importAll).
Definition handleQuarkImportShare (newID : string) (args : payload) : Pi (tool_result (string * string)) :=
  tool_try "" (lift (import_arguments args)) (λ q,
  tool_try "" (getAccountForProvider "quark" (qb_account q)) (λ _,
  tool_try "" (import_account (qb_c115 q)) (λ c115,
  tool_try "submit Quark import: " (on_db (Enqueue newID "quark_to_115_import"
      (submitted_payload (qb_account q) (qb_target q) (qb_url q) (qb_password q) c115 (qb_manifest q)))) (λ task,
  mret (ToolResult (task.1, AsyncTask.Status task.2)))))).

Definition handleTaskSubmit (newID : string) (args : payload) : Pi (tool_result (string * string)) :=
  match arg_require args "task_type" with
  | None => mret (ToolError "task_type is required")
  | Some taskType =>
      let submit (p : payload) := tool_try "submit task failed: " (on_db (Enqueue newID taskType p)) (λ task,
        mret (ToolResult (task.1, AsyncTask.Status task.2))) in
      match args !! "payload" with
      | None => submit ∅
      | Some (VObject fields) => submit (list_to_map fields)
      | Some _ => mret (ToolError "payload must be an object")
      end
  end.
(** A tool with a task's ID. *)
Definition with_task_id {A} (args : payload) (k : string → Pi (tool_result A)) : Pi (tool_result A) :=
  match arg_require args "task_id" with None => mret (ToolError "task_id is required") | Some id => k id end.
Definition handleTaskQuery (args : payload) : Pi (tool_result AsyncTask.t) :=
  with_task_id args (λ id, tool_try "task not found: " (on_db (GetAsyncTask id)) (λ t, mret (ToolResult (safeTask t)))).
Definition handleTaskCancel (s : Service) (args : payload) : Pi (tool_result AsyncTask.t) :=
  with_task_id args (λ id, tool_try "cancel task failed: " (on_db (Cancel s id)) (λ '(t, _), mret (ToolResult (safeTask t)))).
Definition handleTaskGetLogs (args : payload) : Pi (tool_result (AsyncTask.t * list (Z * TaskRun.t))) :=
  with_task_id args (λ id, tool_try "task not found: " (on_db (GetAsyncTask id)) (λ t,
    tool_try "read task logs failed: " (on_db (ListTaskRuns id)) (λ l, mret (ToolResult (safeTask t, l))))).
Definition handleTaskList (args : payload) : Pi (tool_result (list task_with_id)) :=
  tool_try "list tasks failed: " (on_db (ListAsyncTasks (trim_space (arg_string args "status" "")) (arg_int args "limit" 50)))
    (λ l, mret (ToolResult (shown_by safeTask <$> l))).
Definition handleTaskRetry (newID : string) (args : payload) : Pi (tool_result task_with_id) :=
  with_task_id args (λ id, tool_try "retry task failed: " (on_db (Retry newID id)) (λ x, mret (ToolResult (shown_by safeTask x)))).
End Tools.
