(* ===== verification/ToolsProofs.v ===== *)
(** Properties of tasks as clients submit and see them ([Tools.v]). *)
From S2P Require Import Prelude GoStrings GoPath Sql Schema TaskStore TaskProofs ImportStore Accounts Payload Queue QueueProofs FileSys Remote Drive Service Local Pipeline Media.
From S2P Require Import Episodes Identity Autofill Replacement ReplacementProofs AutofillRun Settings SettingsProofs Access AccessProofs Tools.

(** * What is shown *)

Lemma private_keys_agree key : tool_private_key key = publicTaskPayloadKey key.
Proof.
  unfold tool_private_key, publicTaskPayloadKey. f_equal. apply bool_decide_ext. rewrite !elem_of_cons, elem_of_nil. tauto.
Qed.

(** Of an import a client sees the fields that are not private, as they are stored, and the
    API says whether it belongs to a completion; another task is shown as it is. *)
Lemma shown_import t key :
  AsyncTask.Type_ t = "quark_to_115_import" →
  (publicTaskPayloadKey key = true → AsyncTask.Payload (safeTask t) !! key = None ∧
     AsyncTask.Payload (publicAsyncTask t) !! key = None) ∧
  (publicTaskPayloadKey key = false → AsyncTask.Payload (safeTask t) !! key = AsyncTask.Payload t !! key ∧
     (key ≠ "workflow_kind" → AsyncTask.Payload (publicAsyncTask t) !! key = AsyncTask.Payload t !! key)).
Proof.
  intros Ht. unfold safeTask, publicAsyncTask. rewrite Ht, bool_decide_true by done. cbn [negb].
  assert (∀ p, AsyncTask.Payload (with_payload p t) = p) as Hp by (by destruct t). rewrite !Hp, lookup_union.
  set (kind := match AsyncTask.Payload t !! "parent_task_id" with Some (VString _) => _ | _ => _ end).
  assert (∀ k, k ≠ "workflow_kind" → kind !! k = None) as Hkind.
  { intros k Hk. unfold kind. destruct (_ !! "parent_task_id") as [[]|]; try by apply lookup_empty. destruct (negb _); [|by apply lookup_empty].
    by rewrite lookup_singleton_ne. }
  split; intros Hk.
  - rewrite !map_lookup_filter_None_2 by (right; intros v _; cbn; rewrite ?private_keys_agree; congruence).
    split; [done|]. rewrite Hkind; [done|]. by intros ->.
  - assert (∀ f : string → bool, f key = false → (filter (λ kv : string * value, f kv.1 = false) (AsyncTask.Payload t)) !! key = AsyncTask.Payload t !! key) as Hkeep.
    { intros f Hf. destruct (AsyncTask.Payload t !! key) as [v|] eqn:E; [by apply map_lookup_filter_Some_2|apply map_lookup_filter_None_2; by left]. }
    rewrite !Hkeep by (by rewrite ?private_keys_agree). split; [done|]. intros Hne. rewrite Hkind by done. by destruct (_ !! key).
Qed.

(** * Batches *)

Section Batch.
Context `{Env} `{Urls}.
Implicit Types w : World Database.

(** The new task of an operation. *)
Definition queued_as (o : string * payload) (t : AsyncTask.t) : Prop :=
  AsyncTask.Type_ t = trim_space o.1 ∧ AsyncTask.Status t = "pending" ∧ AsyncTask.Attempts t = 0%Z ∧
  ∃ p, derived_payload (trim_space o.1) o.2 = Ok p ∧ AsyncTask.Payload t = payload_roundtrip p.
Definition add_tasks (new : list (string * AsyncTask.t)) (ts : gmap string AsyncTask.t) : gmap string AsyncTask.t :=
  foldl (λ ts x, <[x.1 := x.2]> ts) ts new.
(** The tasks are new, and no two have the same ID. *)
Definition all_new (new : list (string * AsyncTask.t)) (ts : gmap string AsyncTask.t) : Prop :=
  NoDup new.*1 ∧ Forall (λ x, ts !! x.1 = None) new.

Lemma enqueue_one newID ty p w :
  wp (Enqueue newID ty p) w (λ r w', match r with
    | Ok task => task.1 = newID ∧ tasks (w_db w) !! newID = None ∧ ∃ t, queued_as (ty, p) t ∧ tasks (w_db w') = <[newID := t]> (tasks (w_db w))
    | Err _ => w_db w' = w_db w
    end).
Proof.
  unfold Enqueue, enqueue. apply wp_bind, wp_lift. destruct (validateTask _ p) as [[]|e]; [|done].
  apply wp_bind, wp_lift. destruct (derived_payload _ p) as [q|e] eqn:Hd; [|done].
  eapply wp_mono; [apply persist_effect|]. intros [[id t]|e] w'; [|done]. intros (-> & _ & Hn & t' & Ht & Hty & Hp & Hs & Ha & _).
  split; [done|]. split; [done|]. exists t'. split; [|done]. split_and!; try done. by exists q.
Qed.

Lemma batch_effect newID i operations w :
  wp (queue_batch newID i operations) w (λ r w', match r with
    | Ok (ids, e) => ∃ new, ids = new.*1 ∧ new.*1 = newID <$> seq i (length new) ∧
        Forall2 queued_as (take (length new) operations) new.*2 ∧ all_new new (tasks (w_db w)) ∧
        tasks (w_db w') = add_tasks new (tasks (w_db w)) ∧ (e = None ↔ length new = length operations)
    | Err _ => False
    end).
Proof.
  revert i w. induction operations as [|[action p] operations IH]; intros i w; cbn [queue_batch].
  { apply wp_ret. exists []. split_and!; try done; by repeat constructor. }
  apply wp_bind, wp_attempt. eapply wp_mono; [apply enqueue_one|]. intros [task|e] w1.
  2:{ intros E. apply wp_ret. exists []. rewrite E. split_and!; try done; by repeat constructor. }
  intros (Hid & Hfree & t & Hq & Ht). apply wp_bind. eapply wp_mono; [apply IH|]. intros [[ids e]|e] w2; [|done].
  intros (new & -> & Hids & Hall & [Hnd Hnew] & Htasks & Hend). apply wp_ret. exists ((newID i, t) :: new). rewrite Hid. cbn.
  split_and!; [done|by rewrite Hids|by constructor| | |rewrite Hend; lia].
  - rewrite Forall_forall in Hnew. split.
    + cbn. constructor; [|done]. intros (x & Hx & Hin)%list_elem_of_fmap. specialize (Hnew x Hin). rewrite Ht, <-Hx, lookup_insert_eq in Hnew. done.
    + constructor; [done|]. apply Forall_forall. intros x Hin. specialize (Hnew x Hin). rewrite Ht in Hnew. by apply lookup_insert_None in Hnew as [? _].
  - by rewrite Htasks, Ht.
Qed.
End Batch.

Section Tools.
Context `{Env} {ctx : Ctx} `{Sleep} `{Remote} `{Providers} `{Urls} `{CidMap} `{Names} `{Ranging} `{ToolArgs}.
Implicit Types w : World Pipe.

(** C26: a batch of tasks is queued as one and reported as it is.  Nothing is queued unless it
    has one to a hundred operations and all of them are valid.  Then they are queued in their
    order, each as one new pending task of its type with what its payload gives; if the
    database fails on the way the answer is an error, and in every case it names exactly the
    tasks that were queued. *)
Theorem batch_queued_exact newID body w :
  wp (handleBatchTasks newID body) w (λ r w', pi_log (w_db w') = pi_log (w_db w) ∧
    let ts := tasks (pi_db (w_db w)) in let ts' := tasks (pi_db (w_db w')) in match r with
    | Err _ => False
    | Ok (Refused code _) => code = 400%Z ∧ ts' = ts ∧ ∀ operations, body = Ok operations →
        ¬ (1 ≤ length operations ≤ 100 ∧ Forall (λ o, ValidateTask o.1 o.2 = Ok tt) operations)
    | Ok (Answered code (ids, e)) => ∃ operations new, body = Ok operations ∧
        1 ≤ length operations ≤ 100 ∧ Forall (λ o, ValidateTask o.1 o.2 = Ok tt) operations ∧
        ids = new.*1 ∧ ids = (newID <$> seq 0 (length new)) ∧ Forall2 queued_as (take (length new) operations) new.*2 ∧
        all_new new ts ∧ ts' = add_tasks new ts ∧
        (if e then code = 500%Z ∧ length new < length operations else code = 202%Z ∧ length new = length operations)
    end).
Proof.
  unfold handleBatchTasks. destruct body as [operations|e]; [|apply wp_ret; by split_and!].
  destruct (_ || _) eqn:Hlen.
  { apply wp_ret. split_and!; try done. intros ? [= <-] [Hl _]. apply orb_true_iff in Hlen as [Hlen%bool_decide_eq_true|Hlen%bool_decide_eq_true]; lia. }
  apply orb_false_iff in Hlen as [Hlow%bool_decide_eq_false Hhigh%bool_decide_eq_false].
  destruct (res_each _ operations) as [[]|e] eqn:Hv.
  2:{ apply wp_ret. split_and!; try done. intros ? [= <-] [_ Hall].
      rewrite (proj2 (res_each_ok (λ o : string * payload, ValidateTask o.1 o.2) operations tt)) in Hv; [done|]. by apply Forall_forall. }
  assert (Forall (λ o : string * payload, ValidateTask o.1 o.2 = Ok tt) operations) as Hall.
  { apply Forall_forall. by apply (proj1 (res_each_ok (λ o : string * payload, ValidateTask o.1 o.2) operations tt)). }
  apply wp_bind, wp_on_db. eapply wp_mono; [apply batch_effect|]. cbn [w_db pi_db]. intros [[ids e]|e] w1; [|done].
  intros (new & -> & Hids & Hq & Hnew & Ht & Hend). apply wp_ret. split; [done|]. exists operations, new. split_and!; try done; [lia..|].
  assert (length new ≤ length operations) as Hle.
  { apply Forall2_length in Hq. rewrite length_take, length_fmap in Hq. lia. }
  destruct e as [e|]; [|split; [done|by apply Hend]]. split; [done|]. assert (length new ≠ length operations) by (intros Hl%Hend; done). lia.
Qed.
End Tools.
