(* ===== verification/Webhook.v ===== *)
(** The webhook of CloudDrive2 ([src/internal/service/webhook.go] and its handler in
    [src/internal/api/routes.go]): changes are counted, and one task is queued for those that
    came within a delay of each other.

    A timer is armed until it expires; its function then waits for the lock, and a timer that
    is stopped by then is not called back.  Each critical section is one step of the machine
    [step_hook], and so is the queueing that a flush does after it released the lock, in
    whatever world it then finds; the steps come in any order.  A queueing that fails is only
    logged: its changes are lost. *)
From S2P Require Import Prelude GoStrings Sql Schema TaskStore Accounts Payload Queue QueueProofs Tokens FileSys Remote Drive Service Local Pipeline Media Settings Access.

(** * The accumulator *)

Record hook := mkHook {
  hk_timer : option nat; hk_pending : Z; hk_closed : bool;
  hk_armed : gmap nat Z;               (* timers that run, with their delay in nanoseconds *)
  hk_expired : gset nat;               (* timers whose [flush] waits for the lock *)
  hk_flying : list Z;                  (* counts a [flush] took and has not queued yet *)
  hk_next : nat
}.
(** [NewCloudDriveWebhookService]. *)
Definition new_hook : hook := mkHook None 0 false ∅ ∅ [] 0.

(** [s.timer.Stop()], where there is a timer. *)
Definition stop_timer (h : hook) : gmap nat Z := match hk_timer h with Some id => delete id (hk_armed h) | None => hk_armed h end.
(** [Notify] when the service is open, with the delay it read. *)
Definition notified (d : Z) (h : hook) : hook :=
  mkHook (Some (hk_next h)) (hk_pending h + 1) (hk_closed h) (<[hk_next h := d]> (stop_timer h)) (hk_expired h) (hk_flying h) (S (hk_next h)).
(** The critical section of [flush]. *)
Definition flush (h : hook) : hook :=
  if hk_closed h || Z.eqb (hk_pending h) 0 then h
  else mkHook None 0 (hk_closed h) (hk_armed h) (hk_expired h) (hk_flying h ++ [hk_pending h]) (hk_next h).
Definition Close (h : hook) : hook := mkHook None 0 true (stop_timer h) (hk_expired h) (hk_flying h) (hk_next h).

(** A timer that expires starts its function. *)
Definition expire (id : nat) (h : hook) : hook :=
  if bool_decide (is_Some (hk_armed h !! id)) then
    mkHook (hk_timer h) (hk_pending h) (hk_closed h) (delete id (hk_armed h)) ({[id]} ∪ hk_expired h) (hk_flying h) (hk_next h)
  else h.
Definition called_back (id : nat) (h : hook) : hook :=
  mkHook (hk_timer h) (hk_pending h) (hk_closed h) (hk_armed h) (hk_expired h ∖ {[id]}) (hk_flying h) (hk_next h).
(** The queueing of the [i]th count is over. *)
Definition landed (i : nat) (h : hook) : hook :=
  mkHook (hk_timer h) (hk_pending h) (hk_closed h) (hk_armed h) (hk_expired h) (delete i (hk_flying h)) (hk_next h).

(** * In the service *)

Section Webhook.
Context `{Env} `{Urls}.
Abbreviation Db := (M Database).

(** [delay], in nanoseconds. *)
Definition defaultWebhookDebounce : Z := 5 * 10 ^ 9.
Definition delay : Db Z :=
  r ← attempt (GetSetting "clouddrive_webhook_debounce_seconds");
  let value := match r with Ok v => v | Err _ => "" end in
  mret (if bool_decide (value = "") then defaultWebhookDebounce else
        match parse_int value with
        | Some seconds => if Z.ltb seconds 1 || Z.ltb 300 seconds then defaultWebhookDebounce else (seconds * 10 ^ 9)%Z
        | None => defaultWebhookDebounce
        end).
Definition Notify (h : hook) : Db (res unit * hook) :=
  if hk_closed h then mret (Err (ErrText "CloudDrive webhook service is closed"), h) else
  d ← delay;
  mret (Ok tt, notified d h).
(** What follows the critical section of [flush]; an error is only logged. *)
Definition queue_changes (newID : string) (count : Z) : Db (res task_with_id) :=
  attempt (Enqueue newID "emby_refresh" {["change_count" := VInt count]}).

(** A step; [EQueue] is the queueing of a count, with the ID a new task gets. *)
Inductive hook_event := ENotify (d : Z) | EExpire (id : nat) | EFlush (id : nat) | EQueue (i : nat) (newID : string) (w : World Database) | EClose.
(** What becomes of changes: one is accepted, a count is queued as a task or lost, between the
    databases given, or dropped by [Close]. *)
Inductive fate :=
  | Accepted
  | Queued (count : Z) (id : string) (before after : Database)
  | Lost (count : Z) (id : string) (before after : Database)
  | Dropped (count : Z).
(** What cannot happen now changes nothing. *)
Definition step_hook (e : hook_event) (h : hook) : hook * list fate :=
  match e with
  | ENotify d => if hk_closed h then (h, []) else (notified d h, [Accepted])
  | EExpire id => (expire id h, [])
  | EFlush id => if bool_decide (id ∈ hk_expired h) then (flush (called_back id h), []) else (h, [])
  | EQueue i newID w =>
      match hk_flying h !! i with
      | Some count =>
          match queue_changes newID count w with
          | (Ok (Ok task), w') => (landed i h, [Queued count task.1 (w_db w) (w_db w')])
          | (_, w') => (landed i h, [Lost count newID (w_db w) (w_db w')])
          end
      | None => (h, [])
      end
  | EClose => (Close h, [Dropped (hk_pending h)])
  end.
Fixpoint run_hook (es : list hook_event) (h : hook) : hook * list fate :=
  match es with
  | [] => (h, [])
  | e :: es => let '(h, l) := step_hook e h in let '(h, l') := run_hook es h in (h, l ++ l')
  end.

(** [handleCloudDriveWebhook]. *)
Definition handleCloudDriveWebhook (provided : string) (body : res unit) (h : hook) : M Pipe (answer unit * hook) :=
  r ← attempt (on_db (Get "clouddrive_webhook_secret"));
  match r with
  | Err e => mret (Refused 500 (error_text e), h)
  | Ok configured =>
      if bool_decide (configured = "") then mret (Refused 503 "CloudDrive webhook secret is not configured", h)
      else if negb (bool_decide (configured = provided)) then mret (Refused 401 "invalid webhook secret", h)
      else match body with
      | Err e => mret (Refused 400 (error_text e), h)
      | Ok _ =>
          '(done_, h) ← on_db (Notify h);
          mret (match done_ with Err e => Refused 503 (error_text e) | Ok _ => Answered 202 tt end, h)
      end
  end.
End Webhook.

(** * Properties *)

Definition total (l : list Z) : Z := foldr Z.add 0%Z l.
(** The changes accepted, the counts a task was queued for or that were lost on the way, and
    the changes dropped. *)
Definition accepted (l : list fate) : Z := total ((λ f, match f with Accepted => 1%Z | _ => 0%Z end) <$> l).
Definition ended (l : list fate) : list Z := omap (λ f, match f with Queued n _ _ _ | Lost n _ _ _ => Some n | _ => None end) l.
Definition dropped (l : list fate) : Z := total ((λ f, match f with Dropped n => n | _ => 0%Z end) <$> l).

Lemma total_perm l l' : l ≡ₚ l' → total l = total l'.
Proof. intros Hl. unfold total. induction Hl; cbn [foldr]; lia. Qed.
Lemma total_app l l' : total (l ++ l') = (total l + total l')%Z.
Proof. unfold total. induction l as [|x l IH]; [done|]. cbn [app foldr]. lia. Qed.
Lemma accepted_app l l' : accepted (l ++ l') = (accepted l + accepted l')%Z.
Proof. unfold accepted. by rewrite fmap_app, total_app. Qed.
Lemma dropped_app l l' : dropped (l ++ l') = (dropped l + dropped l')%Z.
Proof. unfold dropped. by rewrite fmap_app, total_app. Qed.
Lemma ended_app l l' : ended (l ++ l') = ended l ++ ended l'.
Proof. apply omap_app. Qed.

(** A task that counts changes, as it is queued. *)
Definition counts_changes (n : Z) (t : AsyncTask.t) : Prop :=
  AsyncTask.Type_ t = "emby_refresh" ∧ AsyncTask.Status t = "pending" ∧
  AsyncTask.Payload t = payload_roundtrip {["change_count" := VInt n]}.

Section Delivery.
Context `{Env} `{Urls}.

(** Queueing a count adds the one task that says it, or changes nothing; it fails only when the
    database does or the new ID is taken. *)
Definition fate_ok (f : fate) : Prop :=
  match f with
  | Queued n id db db' => (1 ≤ n)%Z ∧ tasks db !! id = None ∧ ∃ t, counts_changes n t ∧ tasks db' = <[id := t]> (tasks db)
  | Lost n id db db' => (1 ≤ n)%Z ∧ db' = db ∧ ¬ ((∀ k, env_fault k = None) ∧ tasks db !! id = None)
  | Accepted | Dropped _ => True
  end.

Lemma queue_changes_effect newID n w : wp (queue_changes newID n) w (λ r w', match r with
  | Ok (Ok task) => task.1 = newID ∧ tasks (w_db w) !! newID = None ∧ ∃ t, counts_changes n t ∧ tasks (w_db w') = <[newID := t]> (tasks (w_db w))
  | Ok (Err _) => w_db w' = w_db w ∧ ¬ ((∀ k, env_fault k = None) ∧ tasks (w_db w) !! newID = None)
  | Err _ => False
  end).
Proof.
  unfold queue_changes, Enqueue, enqueue. change (trim_space "emby_refresh") with "emby_refresh".
  assert (validateTask "emby_refresh" {["change_count" := VInt n]} = Ok tt) as Hv by done.
  assert (derived_payload "emby_refresh" {["change_count" := VInt n]} = Ok {["change_count" := VInt n]}) as Hd by done.
  apply wp_attempt, wp_bind, wp_lift. rewrite Hv. apply wp_bind, wp_lift. rewrite Hd.
  apply wp_intro. intros r w' E.
  pose proof (wp_elim _ _ _ _ _ (persist_effect newID "emby_refresh" {["change_count" := VInt n]} w) E) as Hp.
  destruct r as [[id t]|e].
  - destruct Hp as (-> & _ & Hn & t' & Ht & Hty & Hpl & Hs & _). split; [done|]. split; [done|]. by exists t'.
  - split; [done|]. intros [Hf Hn]. destruct w as [k db].
    by pose proof (wp_elim _ _ _ _ _ (persist_no_fail newID "emby_refresh" {["change_count" := VInt n]} k db Hf Hn) E).
Qed.

(** Changes that wait have a timer that runs, or whose function waits for the lock. *)
Record hook_inv (h : hook) : Prop := {
  hi_pending : (0 ≤ hk_pending h)%Z;
  hi_flying : Forall (λ n, (1 ≤ n)%Z) (hk_flying h);
  hi_closed : hk_closed h = true → hk_pending h = 0%Z;
  hi_timer : (0 < hk_pending h)%Z → ∃ id, hk_timer h = Some id ∧ (is_Some (hk_armed h !! id) ∨ id ∈ hk_expired h)
}.

(** What steps from [h] to [h'] account for. *)
Record accounted (h : hook) (l : list fate) (h' : hook) : Prop := {
  ac_inv : hook_inv h';
  ac_fates : Forall fate_ok l;
  ac_sum : (hk_pending h + total (hk_flying h) + accepted l = hk_pending h' + total (hk_flying h') + total (ended l) + dropped l)%Z;
  ac_open : hk_closed h' = false → hk_closed h = false ∧ dropped l = 0%Z;
  ac_closed : hk_closed h = true → hk_closed h' = true ∧ accepted l = 0%Z ∧ dropped l = 0%Z ∧ ended l ++ hk_flying h' ≡ₚ hk_flying h
}.

Lemma accounted_silent h h' : hook_inv h' → hk_pending h' = hk_pending h → hk_flying h' = hk_flying h → hk_closed h' = hk_closed h → accounted h [] h'.
Proof. intros Hi Hp Hf Hc. split; rewrite ?Hp, ?Hf, ?Hc; try done; unfold accepted, dropped; cbn; lia. Qed.

Lemma accounted_trans h l h1 l' h' : accounted h l h1 → accounted h1 l' h' → accounted h (l ++ l') h'.
Proof.
  intros [Hi Hf Hs Ho Hc] [Hi' Hf' Hs' Ho' Hc']. split; [done|by apply Forall_app| | |].
  - rewrite accepted_app, dropped_app, ended_app, total_app. lia.
  - intros E. destruct (Ho' E) as [E1 D']. destruct (Ho E1) as [E0 D]. rewrite dropped_app. split; [done|lia].
  - intros E. destruct (Hc E) as (E1 & A & D & P). destruct (Hc' E1) as (E2 & A' & D' & P'). rewrite accepted_app, dropped_app, ended_app, <-(assoc_L (++)), P'.
    split_and!; [done|lia|lia|done].
Qed.

Lemma flush_accounted h : hook_inv h → accounted h [] (flush h).
Proof.
  intros Hi. pose proof Hi as [Hp Hf Hc Ht]. unfold flush. destruct (hk_closed h) eqn:Ec; cbn [orb]; [by apply accounted_silent|].
  destruct (Z.eqb_spec (hk_pending h) 0) as [E|E]; [by apply accounted_silent|].
  assert (hook_inv (mkHook None 0 false (hk_armed h) (hk_expired h) (hk_flying h ++ [hk_pending h]) (hk_next h))) as Hi'.
  { split; cbn; [done| |done|lia]. apply Forall_app. split; [done|]. constructor; [lia|constructor]. }
  split; cbn; [done|constructor| |done|congruence]. rewrite total_app. unfold accepted, dropped. cbn. lia.
Qed.

Lemma landed_accounted i n h f :
  hook_inv h → hk_flying h !! i = Some n → fate_ok f → ended [f] = [n] → accepted [f] = 0%Z → dropped [f] = 0%Z → accounted h [f] (landed i h).
Proof.
  intros Hi Hn Hok He Ha Hd. pose proof Hi as [Hp Hf Hc Ht]. pose proof (delete_Permutation _ _ _ Hn) as Hperm.
  unfold landed. split; rewrite ?Ha, ?Hd, ?He; cbn [hk_pending hk_flying hk_closed].
  - split; cbn; [done|by apply Forall_delete|done|done].
  - by constructor.
  - rewrite (total_perm _ _ Hperm). unfold total. cbn. lia.
  - done.
  - intros E. by split_and!.
Qed.

Lemma step_accounted e h : hook_inv h → accounted h (step_hook e h).2 (step_hook e h).1.
Proof.
  intros Hi. pose proof Hi as [Hp Hf Hc Ht]. destruct e as [d|id|id|i newID w|]; cbn.
  - destruct (hk_closed h) eqn:Ec; [by apply accounted_silent|]. split; cbn; [|constructor; [exact I|constructor]|unfold total; lia|done|congruence].
    split; cbn; [lia|done|congruence|]. intros _. exists (hk_next h). split; [done|]. left. by rewrite lookup_insert_eq.
  - unfold expire. case_bool_decide as Ha; [|by apply accounted_silent]. apply accounted_silent; [|done..]. split; cbn; [done..|].
    intros Hpos. destruct (Ht Hpos) as (id' & Et & Hid). exists id'. split; [done|]. destruct (decide (id' = id)) as [->|Hne]; [right; set_solver|].
    rewrite lookup_delete_ne by done. destruct Hid; [by left|right; set_solver].
  - case_bool_decide as Hin; [|by apply accounted_silent]. cbn.
    destruct (decide (hk_closed h || Z.eqb (hk_pending h) 0 = true)) as [E|E].
    + unfold flush. cbn. rewrite E. apply accounted_silent; [|done..]. split; cbn; [done..|]. apply orb_true_iff in E as [E|E%Z.eqb_eq]; [specialize (Hc E)|]; lia.
    + replace (flush (called_back id h)) with (let h' := flush h in mkHook (hk_timer h') (hk_pending h') (hk_closed h') (hk_armed h') (hk_expired h' ∖ {[id]}) (hk_flying h') (hk_next h'))
        by (unfold flush; cbn; by destruct (_ || _)).
      pose proof (flush_accounted h Hi) as Hfl. revert Hfl. unfold flush. destruct (_ || _); [done|]. intros [[] ? ? ? ?]. split; cbn in *; try done.
  - destruct (hk_flying h !! i) as [n|] eqn:En; [|by apply accounted_silent].
    pose proof (proj1 (Forall_forall _ _) Hf n ltac:(by eapply list_elem_of_lookup_2)) as Hn1.
    destruct (queue_changes newID n w) as [r w'] eqn:E. pose proof (wp_elim _ _ _ _ _ (queue_changes_effect newID n w) E) as Hq.
    destruct r as [[task|e]|e]; cbn; [| |done].
    + destruct Hq as (-> & Hfree & Hq). eapply landed_accounted; try done.
    + destruct Hq. eapply landed_accounted; try done.
  - split; cbn; [by split|constructor; [exact I|constructor]|unfold total; lia|done|].
    intros E. specialize (Hc E). unfold accepted, dropped. cbn. rewrite Hc. by split_and!.
Qed.

Lemma run_accounted es h : hook_inv h → accounted h (run_hook es h).2 (run_hook es h).1.
Proof.
  revert h. induction es as [|e es IH]; intros h Hi; cbn [run_hook]; [by apply accounted_silent|].
  pose proof (step_accounted e h Hi) as Hs. destruct (step_hook e h) as [h1 l]. pose proof (IH h1 (ac_inv _ _ _ Hs)) as Hr.
  destruct (run_hook es h1) as [h2 l2]. by eapply accounted_trans.
Qed.

(** C27: every change is accounted for once.  However notifications, timers, flushes, their
    queueing and closing interleave, the changes accepted are exactly those that wait, those a
    flush has taken and not queued yet, those counted in a task it queued, those lost because
    that failed, and those that [Close] dropped; while the service is open none is dropped.  A
    task is a new pending [emby_refresh] that says its count, at least one change; a failed
    queueing changes nothing and is the database's failure or an ID already taken.  Changes
    never wait without a timer: when it expires and its function gets the lock, all of them are
    taken at once.  Once closed, nothing waits and no change is accepted, and what is still
    queued or lost is, each once, what flushes had taken before. *)
Theorem changes_delivered_once es :
  let '(h, fates) := run_hook es new_hook in
  (accepted fates = hk_pending h + total (hk_flying h) + total (ended fates) + dropped fates)%Z ∧
  (hk_closed h = false → dropped fates = 0%Z) ∧
  Forall fate_ok fates ∧ Forall (λ n, (1 ≤ n)%Z) (hk_flying h) ∧
  ((0 < hk_pending h)%Z → hk_closed h = false ∧ ∃ id h', hk_timer h = Some id ∧
     run_hook [EExpire id; EFlush id] h = (h', []) ∧ hk_pending h' = 0%Z ∧ hk_flying h' = hk_flying h ++ [hk_pending h]) ∧
  (hk_closed h = true → hk_pending h = 0%Z ∧ ∀ more, let '(h', later) := run_hook more h in
     hk_pending h' = 0%Z ∧ accepted later = 0%Z ∧ dropped later = 0%Z ∧ ended later ++ hk_flying h' ≡ₚ hk_flying h).
Proof.
  assert (hook_inv new_hook) as H0' by (by repeat split).
  pose proof (run_accounted es new_hook H0') as Hr. destruct (run_hook es new_hook) as [h l]. destruct Hr as [Hi Hl Hsum Ho _]. cbn [fst snd] in *.
  pose proof Hi as [Hp Hfl Hc Ht]. split_and!; [done|by intros ?; apply Ho|done|done| |].
  - intros Hpos. assert (hk_closed h = false) as Hop by (destruct (hk_closed h); [specialize (Hc eq_refl); lia|done]). split; [done|].
    destruct (Ht Hpos) as (id & Et & Hid). exists id. cbn [run_hook step_hook].
    assert (id ∈ hk_expired (expire id h) ∧ hk_pending (expire id h) = hk_pending h ∧ hk_closed (expire id h) = false ∧ hk_flying (expire id h) = hk_flying h) as (Hin & Ep & Eo & Ef).
    { unfold expire. case_bool_decide as Ha; [cbn; split_and!; [set_solver|done..]|]. destruct Hid; done. }
    rewrite bool_decide_true by done. unfold flush, called_back. cbn. rewrite Eo, Ep, Ef. cbn [orb].
    rewrite (proj2 (Z.eqb_neq _ _)) by lia. cbn. by eexists.
  - intros Hcl. split; [by apply Hc|]. intros more. pose proof (run_accounted more h Hi) as Hr. destruct (run_hook more h) as [h' l'].
    destruct Hr as [Hi' _ _ _ Hr]. destruct (Hr Hcl) as (Hcl' & Ha & Hd & Hperm). split_and!; [by apply (hi_closed _ Hi')|done..].
Qed.

(** A timer that [Notify] arms while the function of the one before waits for the lock is
    forgotten by that function: the next [Notify] does not stop it, so it cuts the delay short. *)
Example forgotten_timer :
  let h := (run_hook [ENotify 5; EExpire 0; ENotify 5; EFlush 0; ENotify 5] new_hook).1 in
  hk_timer h = Some 2 ∧ is_Some (hk_armed h !! 1) ∧ hk_flying (run_hook [EExpire 1; EFlush 1] h).1 = [2%Z; 1%Z].
Proof. vm_compute. split; [reflexivity|split; [by eexists|reflexivity]]. Qed.

(** The delay is between one second and five minutes. *)
Lemma delay_bounds w : wp delay w (λ r w', w_db w' = w_db w ∧ ∃ d, r = Ok d ∧ (10 ^ 9 ≤ d ≤ 300 * 10 ^ 9)%Z).
Proof.
  unfold delay, GetSetting, defaultWebhookDebounce. apply wp_bind, wp_attempt, wp_query; intros r n Hr; apply wp_ret; (split; [done|]); eexists; (split; [done|]).
  - cbv zeta. rewrite bool_decide_true by done. lia.
  - cbv zeta. case_bool_decide; [lia|]. destruct (parse_int r) as [s|]; [|lia]. destruct (_ || _) eqn:E; [lia|].
    apply orb_false_iff in E as [E1%Z.ltb_ge E2%Z.ltb_ge]. lia.
Qed.

End Delivery.
